(* ===== verification/_CoqProject ===== *)
-Q . S2P
Prelude.v
UriEncode.v
UrlSearchParams.v
IpcMessage.v
IpcSocket.v
IpcDelegate.v
IpcServer.v
JsMessages.v
DataChannel.v
Inspector.v
DiagChannel.v
MacroTaskQueue.v
Platform.v
AlarmTimer.v
Contextify.v
Watchdog.v
HandleWrap.v
Json.v
JsonUtils.v
JsonGrammar.v
TracedValue.v
Format.v
ErrorHandling.v
Snapshot.v
I18n.v
ZeroCopyStream.v
TraceWriter.v
TraceAgent.v
Environ.v
Base64.v
CityHash.v
CacheStorage.v
CacheObjects.v
ModpBase64.v
Bytes.v
Zlib.v
GetOpt.v
Argtable.v
ArgText.v
ArgHash.v
CommandLine.v
DiagReport.v
Curl.v
