(* ===== verification/Prelude.v ===== *)
(** * aworker: a verification of its native core

    aworker is a JavaScript runtime for serverless workers: V8 and libuv, a native
    layer in C++ (src/src/) and a JavaScript library on top.  This development
    models the native layer's own logic as functions and step relations and
    proves what makes it correct.  V8, libuv, protobuf, zlib and the operating
    system are outside: they are parameters with their documented laws, calls
    recorded in a log, or events chosen by the environment, so that the theorems
    hold for every behaviour of them that the laws allow.

    ** The parts and the files that model them

    _Talking to the agent._  A worker is driven by an agent process over a socket.
    - [IpcMessage]: the protocol's messages (proto/rpc.proto, ipc/ipc_message.h);
      class [Protobuf] is what generated code promises.
    - [IpcSocket]: framing (ipc/ipc_socket.{h,cc}); [Decoder] and [Socket] are
      NoslatedDecoder and SocketHolder, [io_run] any interleaving of chunks and
      idle callbacks.
    - [IpcDelegate]: requests, responses and timeouts (ipc/ipc_delegate_impl.{h,cc},
      ipc/ipc_service.{h,cc}, ipc/uv_loop.cc); [Delegate] is DelegateImpl, [dstep] one
      event.  It calls closures, which [DataChannel] provides.
    - [IpcServer]: the sockets over libuv and the server with its sessions
      (ipc/ipc_socket_uv.{h,cc}, ipc/ipc_socket_server.{h,cc}, ipc/uv_loop.cc); a socket is
      a [Socket] of [IpcSocket] in memory the loop points to, [run] a history of events and
      [tr] the transitions of single objects.
    - [JsMessages]: JavaScript values to and from messages
      (agent_channel/noslated_data_channel.cc).
    - [DataChannel]: the channel JavaScript uses (noslated_data_channel.{h,cc},
      data_channel.h): calls, incoming requests, feedback, and the reference count
      that keeps the event loop alive.  It is built on [IpcDelegate] and
      [JsMessages].

    - [Inspector]: the queue of requests between the inspector's thread and the main
      thread (inspector/main_thread_interface.{h,cc}), the client that waits for a
      frontend and runs nested loops (inspector/inspector_agent.cc) and the interrupts
      of immortal.cc; [istep] is one event of either thread.
    - [DiagChannel]: the agent's diagnostic requests and the inspector's messages on
      their way back (agent_channel/noslated_diag_channel.{h,cc},
      inspector/inspector_io.{h,cc}); it contains the state of [Inspector].

    _Running tasks._
    - [MacroTaskQueue]: cooperative tasks on an idle handle (macro_task_queue.{h,cc});
      the abstract class MacroTask is a type class.
    - [Platform]: the task runner V8 posts to (aworker_platform.{h,cc}).
    - [AlarmTimer]: timers on SIGALRM (alarm_timer.{h,cc}).
    - [Watchdog]: the watchdog thread and its loop latency entry (watchdog.{h,cc},
      loop_latency_watchdog.{h,cc}), as an interleaving of two threads, with the loop's own
      clock.
    - [HandleWrap]: libuv handles owned by JavaScript objects: timers, immediates and
      signals from their creation to their deletion (handle_wrap.{h,cc},
      base_object-inl.h, binding/internal/aworker_timers.cc, aworker_immediate.cc,
      aworker_signals.cc, the destructor in immortal.cc); the loop's list of closing
      handles is part of the state, and callbacks run inside of the event that makes them.

    _Text and data._
    - [UriEncode], [UrlSearchParams]: percent-encoding and query strings (url/).
    - [Json], [JsonUtils], [TracedValue]: trees and what a string token means, the diagnostic
      report's writer (json_utils.{h,cc}) and trace arguments (tracing/traced_value.{h,cc});
      [JsonGrammar] is the grammar of RFC 8259 and reads what the report's writer writes.
    - [Format]: SPrintF and the debug categories (debug_utils-inl.h, debug_utils.{h,cc},
      util-inl.h).
    - [ZeroCopyStream]: files as protobuf streams (zero_copy_file_stream.{h,cc}).
    - [TraceWriter], [TraceAgent]: trace files, on top of [ZeroCopyStream], and the
      agent that starts and stops tracing (tracing/trace_writer.{h,cc},
      trace_agent.{h,cc}).
    - [Environ]: process.env and whole files (binding/internal/process_env_vars.cc,
      util.cc).
    - [Base64], [CityHash], [CacheStorage], [CacheObjects]: the cache storage, its
      pages and its file names (binding/internal/aworker_cache_data.h,
      aworker_cache.{h,cc}, deps/cityhash), on top of [ZeroCopyStream].
    - [ModpBase64], [Bytes]: base64 and hexadecimal text of buffers, atob and btoa,
      scalar value strings (deps/modp_b64, binding/internal/aworker_bytes.cc).
    - [DiagReport]: the report a process writes about itself (diag_report.{h,cc},
      diag_report_utils.cc), on top of [JsonUtils], [JsonGrammar], [Format] and [Environ].
    - [Curl]: transfers of libcurl driven by libuv (binding/curl/curl_multi.{h,cc},
      curl_easy.{h,cc}); what libcurl does during a call is chosen by the environment.
    - [Zlib]: compression streams (zlib/); class [Zlib] is the library's interface
      and [ZlibLaws] what zlib.h promises.

    _Starting and running scripts._
    - [Snapshot]: the file of a startup snapshot and the source it is embedded as, the code
      caches of native modules, serialized fields and the choice of a snapshot
      (snapshot/snapshot_builder.{h,cc}, native_module_manager.{h,cc}, parts of immortal.cc
      and aworker.cc).
    - [Contextify]: the property callbacks of a context, executions under a timeout on top of
      [AlarmTimer], code caches of scripts, and modules (contextify/context.{h,cc},
      contextify/script.cc, module_wrap.{h,cc}).
    - [I18n]: growing buffers, text converters and their way through a snapshot
      (utils/resizable_buffer.h, binding/internal/aworker_i18n.{h,cc},
      snapshot/snapshotable.{h,cc}); [ICU] and [Strings] are interfaces, with classes of laws.
    - [ErrorHandling]: what is printed for an exception and which exceptions end the process
      (error_handling.{h,cc}), on top of [Format].

    _The command line._
    - [GetOpt]: getopt_long as argtable carries it (deps/argtable/argtable3.c): one call
      per option, static state, the permutation of the arguments.
    - [Argtable]: the entries of a table, how they scan, check and reset, and arg_parse,
      on top of [GetOpt] (argtable3.c, argtable3.h).
    - [ArgText]: dynamic strings, the syntax of options, usage and error texts
      (argtable3.c).
    - [ArgHash]: the hash table of argtable with its iterators, the registry of subcommands
      on top of it, and the merge sort (argtable3.c).
    - [CommandLine]: the options of aworker, a parser and its checks, and groups of
      parsers (command_parser.{h,cc}, command_parser-inl.h, command_parser-options.json,
      command_parser_group.{h,cc}), on top of the other three.

    A component's file gives its state as a record with the source's member names,
    one definition per function (its doc comment names file, lines and symbol),
    its events, the invariant and the theorems.

    ** Conventions

    A result of type [outcome] is a value or a fault: a failed CHECK, a null
    dereference, an access out of bounds.  A theorem that an operation is [Ret]
    rules all of them out.  Machine integers are [Z] with their wrap-around
    written out ([u8], [u32], [u64], [i32]); bytes are [byte]; strings are lists
    of bytes.  Callbacks are tokens and each call of one is logged.

    ** What the theorems show

    - Refinement of a specification: the framing delivers exactly the messages
      written, for any cut of the stream (IpcSocket), and for each of any number of
      interleaved sessions (IpcServer); the query parser and
      serializer are the URL standard's (UrlSearchParams); both JSON writers print
      the tree their calls describe; the trace files are the documents of the
      events (TraceWriter); the diagnostic report is one JSON document by the grammar of
      RFC 8259, when no text in it has a vertical tab (DiagReport);
      the formatter is one pass over its format (Format); the
      base64 decoder and the scalar value conversion are their standards'
      (ModpBase64, Bytes); the cache storage is a set of names, and an entry of a
      cache leads to its object (CacheStorage, CacheObjects); process.env is a map
      (Environ); a zlib stream is fed and drained in order; the calls of getopt are one
      reading of the words from left to right, and parsing a command line is what its
      words say (GetOpt, Argtable); a dynamic string is the concatenation of its parts
      (ArgText) and a growing buffer the sequence its calls build (I18n); a script sees the
      sandbox of its context over the global object (Contextify); the hash table is a finite
      map, whatever the hash function, and sorting gives a sorted permutation (ArgHash).
    - Exactly once: closures of requests, each with the answer its history gives it, replies to the agent, feedback, tasks of
      the queue, callbacks of zlib pushes, ends of transfers, alarm
      handlers, watchdog entries, the deletion of handles.
    - Invariants over all histories: reference count and socket of the channel,
      maps of the delegate, objects and requests of the inspector, poll handles and
      collected objects of the curl binding, sockets, sessions and handles of the server,
      idle handle and
      timer of the two task queues, what V8 records and what the trace agent
      believes.
    - Nothing is lost: requests of the inspector and its messages, tasks V8 posts, written
      files, drained queues, files read to their end; and nothing is kept: closing the server
      releases every socket, request and handle (IpcServer).
    - Round trips: query strings, base64 texts and names, cache pages, headers,
      strings, options written out and parsed (CommandLine), snapshots written and read, with
      the caches of the native modules and the converters in them (Snapshot, I18n).
    - Memory behind callbacks: an alarm that the executing thread handles finds the stack
      frame of its own execution, however executions nest (Contextify).
    - Ends: which exceptions and rejections end the process, with which code or by an abort,
      and what is printed before (ErrorHandling); a module resolves to what the promises it
      was linked with stand for when V8 asks (Contextify).
    - Only what was understood is run: a process starts on a command line without
      errors, with one script, a known mode and every word counted (CommandLine).
    - Bounds: the hash functions read inside their string, the decoders write inside
      their buffers, a number of the command line is its literal's value or an overflow
      error, and where a buffer is too short the theorem says exactly when.
    - Errors: what happens at end of file, after a disconnect, with two cache
      updates in flight, with a NUL in a cache name, when a stream cannot be created,
      when a trace file has just been completed, when a collected immediate is still
      waiting to be closed, when an option is given twice, when transfers are closed
      while their sockets are watched, when a connection fails, when a stream ends in the
      middle of garbage, which frames a report leaves out, at the limits
      of machine arithmetic, when a signal is handled by another thread, when a loop is
      nested in the callback of an immediate, when zlib is flushed in a mode in which it may
      stop early; several of these theorems describe defects.

    The conditions of the theorems are in their statements and comments.  The ones about zlib
    take the flush modes in which inflate and deflate consume their input (not Z_BLOCK and
    Z_TREES, and Z_FINISH for compression only); those about cache pages the pages protobuf can
    write (lengths and numbers in range) in a file system whose files can be opened; those about
    query strings texts of less than 2^31 bytes; those about the command line hold with and
    without POSIXLY_CORRECT in the environment and say where it makes a difference.

    ** Fuel

    Loops that are not structural take a bound: the decoder's read loop (its
    buffer's length and one more passes, [read_loop_total] shows that it is
    enough), the file readers (one pass per byte and one more,
    [input_stream_reads_file], [ReadFileSync_reads_file]), the formatter and the
    splitters of lists (the length of the text), the writer of pages (the length of
    the text), the wait of the trace writer's destructor and the ticks of a
    synchronous zlib push (any bound from some [N] on gives the same result,
    [destroy_completes_single_file], [zlib_sync_faithful]), the steps of the
    inspector's main thread left alone ([posted_requests_are_called]), the loop over
    getopt (one call per character of the arguments and one more,
    [getopt_long_refines_scan]), the pass over the operands (entries and operands and
    one more, [arg_parse_refines]), the messages of libcurl (as many as there are,
    [ends_are_told_once]) and the growing of a formatted string (three rounds,
    [dstr_is_concatenation]).  Running out
    of fuel is [Fault OutOfFuel] or [None], never a result.

    ** What is not modelled

    Bootstrap, the hooks of asynchronous calls, V8's creation of contexts and of snapshots
    and the crypto and domain name bindings are calls of libraries and are left out, as are
    the native backtraces.  Of argtable the entries aworker does not use (dates, doubles,
    regular expressions) are left out, of the curl binding the setting of single
    options and the conversion of data.
    Protobuf's encodings, deflate itself, V8's inspector, tracing controller and
    JSON trace writer, the decimal printing of doubles and thread scheduling below
    the level of the modelled steps stay outside. *)

From stdpp Require Export base list numbers option gmap sorting.
From Stdlib Require Export ZArith Lia.
From Stdlib Require Export Init.Byte Strings.Byte.
From Stdlib Require Strings.String.

Open Scope Z_scope.

(** * Faults

    A [CHECK] that fails ends the process through [Assert]/[Abort]
    (src/src/util.cc); a null dereference and an access outside an allocated
    buffer are undefined behaviour, as is the use of an object through a pointer to
    another type or after its destruction, a division by zero, the overflow of a
    signed number and the use of a variable that was never set; an exception that leaves a destructor terminates the process.  All of them are faults of the modelled computation, so that a theorem saying that an operation returns rules them out.
    [OutOfFuel] is not a behaviour of the program: it is the answer of a loop
    whose bound was too small, which such a theorem rules out as well. *)
Inductive fault : Type :=
  | CheckFailed
  | NullDeref
  | OutOfBounds
  | UncaughtException
  | BadCast
  | UseAfterFree
  | BadArithmetic
  | Uninitialised
  | OutOfFuel.

Inductive outcome (A : Type) : Type :=
  | Ret (a : A)
  | Fault (f : fault).
Arguments Ret {A} a.
Arguments Fault {A} f.

#[export] Instance outcome_ret : MRet outcome := @Ret.
#[export] Instance outcome_bind : MBind outcome :=
  fun A B f m => match m with Ret a => f a | Fault e => Fault e end.
#[export] Instance outcome_fmap : FMap outcome :=
  fun A B f m => match m with Ret a => Ret (f a) | Fault e => Fault e end.

(** [CHECK(expr)] of src/src/util.h. *)
Definition CHECK (b : bool) : outcome unit :=
  if b then Ret tt else Fault CheckFailed.

Lemma outcome_bind_ret {A B} (f : A -> outcome B) (a : A) : (Ret a ≫= f) = f a.
Proof. reflexivity. Qed.

Lemma outcome_bind_inv {A B} (m : outcome A) (f : A -> outcome B) (b : B) :
  m ≫= f = Ret b -> exists a, m = Ret a /\ f a = Ret b.
Proof. destruct m as [a|e]; simpl; [eauto | discriminate]. Qed.

Definition is_ret {A} (m : outcome A) : bool :=
  match m with Ret _ => true | Fault _ => false end.

(** * Machine integers *)

Definition wrap (w : Z) (z : Z) : Z := z mod 2 ^ w.
Definition u8 (z : Z) : Z := wrap 8 z.
Definition u32 (z : Z) : Z := wrap 32 z.
Definition u64 (z : Z) : Z := wrap 64 z.
(** [static_cast<int32_t>]: two's complement. *)
Definition i32 (z : Z) : Z := (z + 2 ^ 31) mod 2 ^ 32 - 2 ^ 31.

Lemma wrap_range w z : 0 <= w -> 0 <= wrap w z < 2 ^ w.
Proof. intros. apply Z.mod_pos_bound, Z.pow_pos_nonneg; lia. Qed.

Lemma wrap_small w z : 0 <= z < 2 ^ w -> wrap w z = z.
Proof. intros. by apply Z.mod_small. Qed.

Lemma i32_small z : - 2 ^ 31 <= z < 2 ^ 31 -> i32 z = z.
Proof. intros. unfold i32. rewrite Z.mod_small by lia. lia. Qed.

Lemma wrap_add_l w a b : wrap w (wrap w a + b) = wrap w (a + b).
Proof. unfold wrap. by rewrite Zplus_mod_idemp_l. Qed.

(** * Bytes and byte strings *)

Definition bval (b : byte) : Z := Z.of_N (Byte.to_N b).
Definition byte_of (z : Z) : byte :=
  match Byte.of_N (Z.to_N (u8 z)) with Some b => b | None => x00 end.
Definition byte_eqb (a b : byte) : bool := Byte.eqb a b.

#[export] Instance byte_eq_dec : EqDecision byte := Byte.byte_eq_dec.

Lemma bval_range b : 0 <= bval b < 256.
Proof. unfold bval. pose proof (Byte.to_N_bounded b). lia. Qed.

Lemma bval_inj a b : bval a = bval b -> a = b.
Proof.
  unfold bval. intros H%N2Z.inj.
  pose proof (Byte.of_to_N a) as Ha. pose proof (Byte.of_to_N b) as Hb.
  rewrite H in Ha. congruence.
Qed.

Lemma byte_of_bval b : byte_of (bval b) = b.
Proof.
  unfold byte_of, bval, u8, wrap. rewrite Z.mod_small by apply bval_range.
  by rewrite N2Z.id, Byte.of_to_N.
Qed.

Lemma bval_byte_of z : bval (byte_of z) = u8 z.
Proof.
  unfold byte_of, bval.
  pose proof (wrap_range 8 z ltac:(lia)) as H. fold (u8 z) in H.
  destruct (Byte.of_N (Z.to_N (u8 z))) as [b|] eqn:E.
  - apply Byte.to_of_N in E. rewrite E. lia.
  - apply Byte.of_N_None_iff in E. lia.
Qed.

(** A [char] as an [int]: signed. *)
Definition schar (b : byte) : Z := if bval b <? 128 then bval b else bval b - 256.

Lemma byte_eqb_spec a b : reflect (a = b) (byte_eqb a b).
Proof.
  unfold byte_eqb. destruct (Byte.eqb a b) eqn:E; constructor.
  - by apply Byte.byte_dec_bl.
  - intros ->. assert (Byte.eqb b b = true) by by apply Byte.byte_dec_lb. congruence.
Qed.

Lemma byte_eqb_refl a : byte_eqb a a = true.
Proof. by destruct (byte_eqb_spec a a). Qed.

Lemma byte_eqb_ne a b : a <> b -> byte_eqb a b = false.
Proof. by destruct (byte_eqb_spec a b). Qed.

(** A [std::string] or a buffer of [char]: a list of bytes.  [bs] reads a
    literal. *)
Abbreviation bytes := (list byte).
Definition bs (s : String.string) : bytes := String.list_byte_of_string s.

(** The C string that starts a buffer. *)
Fixpoint c_str (s : bytes) : bytes :=
  match s with
  | [] => []
  | b :: s' => if byte_eqb b x00 then [] else b :: c_str s'
  end.

Definition no_nul (s : bytes) : Prop := x00 ∉ s.

Lemma c_str_id s : no_nul s -> c_str s = s.
Proof.
  induction s as [|b s IH]; intros H; [done|]. unfold no_nul in *. simpl.
  rewrite byte_eqb_ne by set_solver. rewrite IH by set_solver. done.
Qed.

(** Little-endian bytes of a word, and the word. *)
Fixpoint le_bytes (n : nat) (z : Z) : bytes :=
  match n with O => [] | S n => byte_of z :: le_bytes n (Z.shiftr z 8) end.

Fixpoint le_value (b : bytes) : Z := match b with [] => 0 | x :: b => bval x + 256 * le_value b end.

Lemma le_bytes_length n z : length (le_bytes n z) = n.
Proof. revert z. induction n as [|n IH]; intros z; simpl; [done|by rewrite IH]. Qed.

Lemma le_value_bytes n : forall z, 0 <= z < 2 ^ (8 * Z.of_nat n) -> le_value (le_bytes n z) = z.
Proof.
  induction n as [|n IH]; intros z Hz; [cbn in *; lia|]. cbn [le_bytes le_value].
  rewrite bval_byte_of, Z.shiftr_div_pow2 by lia. rewrite Nat2Z.inj_succ in Hz.
  replace (8 * Z.succ (Z.of_nat n)) with (8 + 8 * Z.of_nat n) in Hz by lia. rewrite Z.pow_add_r in Hz by lia.
  rewrite IH.
  - unfold u8, wrap. change (2 ^ 8) with 256. pose proof (Z.div_mod z 256 ltac:(lia)). lia.
  - change (2 ^ 8) with 256 in *. split; [apply Z.div_pos; lia|apply Z.div_lt_upper_bound; lia].
Qed.

(** Every byte, for table lookups decided by enumeration. *)
Definition all_bytes : list byte := map (fun n => byte_of (Z.of_nat n)) (seq 0 256).

Lemma all_bytes_elem b : b ∈ all_bytes.
Proof.
  unfold all_bytes. rewrite list_elem_of_In, in_map_iff.
  exists (Z.to_nat (bval b)). pose proof (bval_range b). split.
  - rewrite Z2Nat.id by lia. apply byte_of_bval.
  - apply in_seq. lia.
Qed.

Lemma byte_forall (f : byte -> bool) :
  forallb f all_bytes = true -> forall b, f b = true.
Proof.
  intros H b. rewrite forallb_forall in H. apply H.
  apply list_elem_of_In, all_bytes_elem.
Qed.

(** [size_t] table lookup [tbl[i]], outside the table a fault. *)
Definition tbl_get {A} (tbl : list A) (i : Z) : outcome A :=
  match tbl !! Z.to_nat i with
  | Some a => if 0 <=? i then Ret a else Fault OutOfBounds
  | None => Fault OutOfBounds
  end.

(** * Buffers written by index *)

(** [dst[j] = b]: inside the allocation, or a fault. *)
Definition buf_set (dst : bytes) (j : nat) (b : byte) : outcome bytes :=
  if (j <? length dst)%nat then Ret (<[j := b]> dst) else Fault OutOfBounds.

Lemma buf_set_app pre b0 post b :
  buf_set (pre ++ b0 :: post) (length pre) b = Ret (pre ++ b :: post).
Proof.
  unfold buf_set. rewrite length_app. simpl.
  destruct (Nat.ltb_spec (length pre) (length pre + S (length post))); [|lia].
  f_equal. replace (length pre) with (length pre + 0)%nat by lia.
  by rewrite insert_app_r.
Qed.

(** * Generic list lemmas *)

Lemma take_app_exact {A} (l1 l2 : list A) n :
  n = length l1 -> take n (l1 ++ l2) = l1.
Proof. intros ->. by rewrite take_app_length. Qed.

Lemma drop_app_exact {A} (l1 l2 : list A) n :
  n = length l1 -> drop n (l1 ++ l2) = l2.
Proof. intros ->. by rewrite drop_app_length. Qed.

Lemma filter_all {A} (P : A -> Prop) `{!forall x, Decision (P x)} (l : list A) :
  Forall P l -> filter P l = l.
Proof. induction 1; [done|]. rewrite filter_cons_True by done. by f_equal. Qed.

Lemma filter_none {A} (P : A -> Prop) `{!forall x, Decision (P x)} (l : list A) :
  Forall (fun x => ~ P x) l -> filter P l = [].
Proof. induction 1; [done|]. by rewrite filter_cons_False. Qed.

(** Splitting a [take] off a list that is long enough. *)
Lemma list_split_at {A} (l : list A) n :
  (n <= length l)%nat -> exists l1 l2, l = l1 ++ l2 /\ length l1 = n.
Proof.
  intros. exists (take n l), (drop n l). split.
  - by rewrite take_drop.
  - rewrite length_take. lia.
Qed.

Lemma omap_ext_elem {A B} (f g : A -> option B) (l : list A) :
  (forall x, x ∈ l -> f x = g x) -> omap f l = omap g l.
Proof.
  induction l as [|x l IH]; intros H; [done|]. cbn. rewrite <- (H x) by set_solver.
  assert (omap f l = omap g l) as E by (apply IH; set_solver). cbn in E. by rewrite E.
Qed.

Lemma fmap_omap {A B D} (g : B -> D) (f : A -> option B) (l : list A) :
  g <$> omap f l = omap (fun x => g <$> f x) l.
Proof. induction l as [|x l IH]; [done|]. cbn in *. destruct (f x); cbn; by rewrite IH. Qed.

(** * Reachability of a step relation *)

Section star.
Context {A : Type} (R : A -> A -> Prop).

Inductive star : A -> A -> Prop :=
  | star_refl a : star a a
  | star_step a b c : R a b -> star b c -> star a c.

Lemma star_trans a b c : star a b -> star b c -> star a c.
Proof. induction 1; eauto using star. Qed.

Lemma star_invariant (I : A -> Prop) :
  (forall a b, I a -> R a b -> I b) -> forall a b, star a b -> I a -> I b.
Proof. intros HI a b. induction 1; eauto. Qed.
End star.

(** * Automation *)

Create HintDb aworker discriminated.
#[export] Hint Resolve bval_range all_bytes_elem star_refl star_step : aworker.
#[export] Hint Rewrite @outcome_bind_ret @length_app @length_map @length_insert
  byte_eqb_refl byte_of_bval : aworker.

(** Bytes, and so strings, can be keys of maps and elements of sets. *)
#[export, refine] Instance byte_countable : Countable byte :=
  {| encode b := encode (Byte.to_N b); decode p := n ← decode p; Byte.of_N n |}.
Proof. intros b. rewrite decode_encode. simpl. apply Byte.of_to_N. Defined.

(** Case on every [if] and option/outcome [match] scrutinee of the goal. *)
Ltac case_all :=
  repeat match goal with
  | |- context [if ?b then _ else _] => destruct b eqn:?
  | |- context [match ?x with _ => _ end] => destruct x eqn:?
  end.

(** Turn boolean comparisons of the context into propositions. *)
Ltac bool_to_prop :=
  repeat match goal with
  | H : (_ && _)%bool = true |- _ => apply andb_true_iff in H; destruct H
  | H : (_ || _)%bool = false |- _ => apply orb_false_iff in H; destruct H
  | H : negb _ = true |- _ => apply negb_true_iff in H
  | H : negb _ = false |- _ => apply negb_false_iff in H
  | H : (_ =? _)%Z = true |- _ => apply Z.eqb_eq in H
  | H : (_ =? _)%Z = false |- _ => apply Z.eqb_neq in H
  | H : (_ <? _)%Z = true |- _ => apply Z.ltb_lt in H
  | H : (_ <? _)%Z = false |- _ => apply Z.ltb_ge in H
  | H : (_ <=? _)%Z = true |- _ => apply Z.leb_le in H
  | H : (_ <=? _)%Z = false |- _ => apply Z.leb_gt in H
  | H : (_ =? _)%nat = true |- _ => apply Nat.eqb_eq in H
  | H : (_ =? _)%nat = false |- _ => apply Nat.eqb_neq in H
  | H : (_ <? _)%nat = true |- _ => apply Nat.ltb_lt in H
  | H : (_ <? _)%nat = false |- _ => apply Nat.ltb_ge in H
  | H : (_ <=? _)%nat = true |- _ => apply Nat.leb_le in H
  | H : (_ <=? _)%nat = false |- _ => apply Nat.leb_gt in H
  end.

(** Run a modelled computation whose sub-results are known. *)
Ltac run := repeat (simpl; autorewrite with aworker; simpl); simpl.
