(* ===== verification/UriEncode.v ===== *)
(** Percent-encoding of query strings: src/src/url/uri_encode.cc.

    [Encode] and [Decode] write into a caller-allocated buffer; the model keeps
    the buffer and the write index, so that the bounds the callers rely on
    (3 * len + 1 and len + 1 bytes) are theorems.  [encode] and [decode] are the
    string functions they implement. *)

From S2P Require Import Prelude.

(** * Tables of src/src/url/uri_encode-macros.data *)

Definition zero4 : bytes := [x00; x00; x00; x00].
Definition pct (s : String.string) : bytes := bs s ++ [x00].

Module UriTables.
Import String.StringSyntax.
Local Open Scope string_scope.

(** [src/src/url/uri_encode-macros.data 12-30, uri_encode_tbl] Four bytes per
    octet: its percent escape and a NUL, or zero for an octet copied as is. *)
Definition uri_encode_tbl : list bytes := [
    pct "%00"; pct "%01"; pct "%02"; pct "%03"; pct "%04"; pct "%05"; pct "%06"; pct "%07";
    pct "%08"; pct "%09"; pct "%0A"; pct "%0B"; pct "%0C"; pct "%0D"; pct "%0E"; pct "%0F";
    pct "%10"; pct "%11"; pct "%12"; pct "%13"; pct "%14"; pct "%15"; pct "%16"; pct "%17";
    pct "%18"; pct "%19"; pct "%1A"; pct "%1B"; pct "%1C"; pct "%1D"; pct "%1E"; pct "%1F";
    pct "%20"; pct "%21"; pct "%22"; pct "%23"; pct "%24"; pct "%25"; pct "%26"; pct "%27";
    pct "%28"; pct "%29"; zero4; pct "%2B"; pct "%2C"; zero4; zero4; pct "%2F";
    zero4; zero4; zero4; zero4; zero4; zero4; zero4; zero4;
    zero4; zero4; pct "%3A"; pct "%3B"; pct "%3C"; pct "%3D"; pct "%3E"; pct "%3F";
    pct "%40"; zero4; zero4; zero4; zero4; zero4; zero4; zero4;
    zero4; zero4; zero4; zero4; zero4; zero4; zero4; zero4;
    zero4; zero4; zero4; zero4; zero4; zero4; zero4; zero4;
    zero4; zero4; zero4; pct "%5B"; pct "%5C"; pct "%5D"; pct "%5E"; zero4;
    pct "%60"; zero4; zero4; zero4; zero4; zero4; zero4; zero4;
    zero4; zero4; zero4; zero4; zero4; zero4; zero4; zero4;
    zero4; zero4; zero4; zero4; zero4; zero4; zero4; zero4;
    zero4; zero4; zero4; pct "%7B"; pct "%7C"; pct "%7D"; zero4; pct "%7F";
    pct "%80"; pct "%81"; pct "%82"; pct "%83"; pct "%84"; pct "%85"; pct "%86"; pct "%87";
    pct "%88"; pct "%89"; pct "%8A"; pct "%8B"; pct "%8C"; pct "%8D"; pct "%8E"; pct "%8F";
    pct "%90"; pct "%91"; pct "%92"; pct "%93"; pct "%94"; pct "%95"; pct "%96"; pct "%97";
    pct "%98"; pct "%99"; pct "%9A"; pct "%9B"; pct "%9C"; pct "%9D"; pct "%9E"; pct "%9F";
    pct "%A0"; pct "%A1"; pct "%A2"; pct "%A3"; pct "%A4"; pct "%A5"; pct "%A6"; pct "%A7";
    pct "%A8"; pct "%A9"; pct "%AA"; pct "%AB"; pct "%AC"; pct "%AD"; pct "%AE"; pct "%AF";
    pct "%B0"; pct "%B1"; pct "%B2"; pct "%B3"; pct "%B4"; pct "%B5"; pct "%B6"; pct "%B7";
    pct "%B8"; pct "%B9"; pct "%BA"; pct "%BB"; pct "%BC"; pct "%BD"; pct "%BE"; pct "%BF";
    pct "%C0"; pct "%C1"; pct "%C2"; pct "%C3"; pct "%C4"; pct "%C5"; pct "%C6"; pct "%C7";
    pct "%C8"; pct "%C9"; pct "%CA"; pct "%CB"; pct "%CC"; pct "%CD"; pct "%CE"; pct "%CF";
    pct "%D0"; pct "%D1"; pct "%D2"; pct "%D3"; pct "%D4"; pct "%D5"; pct "%D6"; pct "%D7";
    pct "%D8"; pct "%D9"; pct "%DA"; pct "%DB"; pct "%DC"; pct "%DD"; pct "%DE"; pct "%DF";
    pct "%E0"; pct "%E1"; pct "%E2"; pct "%E3"; pct "%E4"; pct "%E5"; pct "%E6"; pct "%E7";
    pct "%E8"; pct "%E9"; pct "%EA"; pct "%EB"; pct "%EC"; pct "%ED"; pct "%EE"; pct "%EF";
    pct "%F0"; pct "%F1"; pct "%F2"; pct "%F3"; pct "%F4"; pct "%F5"; pct "%F6"; pct "%F7";
    pct "%F8"; pct "%F9"; pct "%FA"; pct "%FB"; pct "%FC"; pct "%FD"; pct "%FE"; pct "%FF"
  ].

(** [src/src/url/uri_encode-macros.data 34-51, hexval] *)
Definition hexval : list Z := [
    255; 255; 255; 255; 255; 255; 255; 255; 255; 255; 255; 255; 255; 255; 255; 255;
    255; 255; 255; 255; 255; 255; 255; 255; 255; 255; 255; 255; 255; 255; 255; 255;
    255; 255; 255; 255; 255; 255; 255; 255; 255; 255; 255; 255; 255; 255; 255; 255;
    0; 1; 2; 3; 4; 5; 6; 7; 8; 9; 255; 255; 255; 255; 255; 255;
    255; 10; 11; 12; 13; 14; 15; 255; 255; 255; 255; 255; 255; 255; 255; 255;
    255; 255; 255; 255; 255; 255; 255; 255; 255; 255; 255; 255; 255; 255; 255; 255;
    255; 10; 11; 12; 13; 14; 15; 255; 255; 255; 255; 255; 255; 255; 255; 255;
    255; 255; 255; 255; 255; 255; 255; 255; 255; 255; 255; 255; 255; 255; 255; 255;
    255; 255; 255; 255; 255; 255; 255; 255; 255; 255; 255; 255; 255; 255; 255; 255;
    255; 255; 255; 255; 255; 255; 255; 255; 255; 255; 255; 255; 255; 255; 255; 255;
    255; 255; 255; 255; 255; 255; 255; 255; 255; 255; 255; 255; 255; 255; 255; 255;
    255; 255; 255; 255; 255; 255; 255; 255; 255; 255; 255; 255; 255; 255; 255; 255;
    255; 255; 255; 255; 255; 255; 255; 255; 255; 255; 255; 255; 255; 255; 255; 255;
    255; 255; 255; 255; 255; 255; 255; 255; 255; 255; 255; 255; 255; 255; 255; 255;
    255; 255; 255; 255; 255; 255; 255; 255; 255; 255; 255; 255; 255; 255; 255; 255;
    255; 255; 255; 255; 255; 255; 255; 255; 255; 255; 255; 255; 255; 255; 255; 255
  ].
End UriTables.
Export UriTables.

(** The [int32_t] entry of [uri_encode_tbl] at [octet], as its four bytes. *)
Definition enc_code (octet : byte) : bytes := nth (Z.to_nat (bval octet)) uri_encode_tbl zero4.
Definition hex_of (c : byte) : Z := nth (Z.to_nat (bval c)) hexval 255.

(** The [int32_t] store of [code] at [dst[j]]: four bytes are written. *)
Fixpoint store (dst : bytes) (j : nat) (code : bytes) : outcome bytes :=
  match code with
  | [] => Ret dst
  | b :: code' => dst' ← buf_set dst j b; store dst' (S j) code'
  end.

(** * The two loops *)

(** [src/src/url/uri_encode.cc 11-27, Encode] The [while (i < len)] loop: the
    list is [src[i..len)]. *)
Fixpoint Encode_loop (src : bytes) (j : nat) (dst : bytes) (space_to_plus : bool)
    : outcome (nat * bytes) :=
  match src with
  | [] => Ret (j, dst)
  | octet :: src' =>
      if (byte_eqb octet x20 && space_to_plus)%bool then
        dst' ← buf_set dst j x2b;
        Encode_loop src' (S j) dst' space_to_plus
      else
        let code := enc_code octet in
        if negb (bool_decide (code = zero4)) then
          dst' ← store dst j code;
          Encode_loop src' (j + 3) dst' space_to_plus
        else
          dst' ← buf_set dst j octet;
          Encode_loop src' (S j) dst' space_to_plus
  end.

(** [src/src/url/uri_encode.cc 6-30, Encode] Returns the length written and the
    buffer, NUL-terminated. *)
Definition Encode (src : bytes) (dst : bytes) (space_to_plus : bool)
    : outcome (nat * bytes) :=
  '(j, dst) ← Encode_loop src 0 dst space_to_plus;
  dst ← buf_set dst j x00;
  Ret (j, dst).

(** [src/src/url/uri_encode.cc 34-62, Decode] The [while (i < len)] loop: a
    percent sign with two bytes after it ([i + 2 < len]) whose hex values are
    not both invalid is one byte, anything else is copied. *)
Fixpoint Decode_loop (src : bytes) (j : nat) (dst : bytes) : outcome (nat * bytes) :=
  match src with
  | [] => Ret (j, dst)
  | c :: src' =>
      let copy_char :=
        dst' ← buf_set dst j c;
        Decode_loop src' (S j) dst' in
      if byte_eqb c x2b then
        dst' ← buf_set dst j x20;
        Decode_loop src' (S j) dst'
      else if byte_eqb c x25 then
        match src' with
        | h1 :: h2 :: src'' =>
            let v1 := hex_of h1 in
            let v2 := hex_of h2 in
            if negb (Z.lor v1 v2 =? 255) then
              dst' ← buf_set dst j (byte_of (Z.lor (Z.shiftl v1 4) v2));
              Decode_loop src'' (S j) dst'
            else copy_char
        | _ => copy_char
        end
      else copy_char
  end.

(** [src/src/url/uri_encode.cc 32-65, Decode] *)
Definition Decode (src : bytes) (dst : bytes) : outcome (nat * bytes) :=
  '(j, dst) ← Decode_loop src 0 dst;
  dst ← buf_set dst j x00;
  Ret (j, dst).

(** * The string functions they implement *)

(** One octet of application/x-www-form-urlencoded output. *)
Definition encode_octet (space_to_plus : bool) (octet : byte) : bytes :=
  if (byte_eqb octet x20 && space_to_plus)%bool then [x2b]
  else if bool_decide (enc_code octet = zero4) then [octet]
  else take 3 (enc_code octet).

Definition encode (space_to_plus : bool) (s : bytes) : bytes :=
  s ≫= encode_octet space_to_plus.

Fixpoint decode (s : bytes) : bytes :=
  match s with
  | [] => []
  | c :: s' =>
      if byte_eqb c x2b then x20 :: decode s'
      else if byte_eqb c x25 then
        match s' with
        | h1 :: h2 :: s'' =>
            if negb (Z.lor (hex_of h1) (hex_of h2) =? 255)
            then byte_of (Z.lor (Z.shiftl (hex_of h1) 4) (hex_of h2)) :: decode s''
            else c :: decode s'
        | _ => c :: decode s'
        end
      else c :: decode s'
  end.

(** * Facts about the tables, by enumeration of the 256 octets *)

(** What an escape is: a percent sign, two upper-case hex digits of the octet
    and a NUL. *)
Definition escape_ok (b : byte) : bool :=
  match enc_code b with
  | [c0; c1; c2; c3] =>
      (bool_decide (enc_code b = zero4) ||
       (byte_eqb c0 x25 && byte_eqb c3 x00 &&
        (0 <=? hex_of c1) && (hex_of c1 <? 16) && (0 <=? hex_of c2) && (hex_of c2 <? 16) &&
        (Z.lor (Z.shiftl (hex_of c1) 4) (hex_of c2) =? bval b)))%bool
  | _ => false
  end.

Lemma escape_ok_all b : escape_ok b = true.
Proof. apply (byte_forall escape_ok). vm_compute. reflexivity. Qed.

Lemma enc_code_shape b :
  enc_code b = zero4 \/
  exists c1 c2, enc_code b = [x25; c1; c2; x00] /\
    Z.lor (Z.shiftl (hex_of c1) 4) (hex_of c2) = bval b /\
    Z.lor (hex_of c1) (hex_of c2) <> 255.
Proof.
  pose proof (escape_ok_all b) as H. unfold escape_ok in H.
  destruct (enc_code b) as [|c0 [|c1 [|c2 [|c3 [|]]]]] eqn:E; try discriminate.
  apply orb_prop in H as [H|H]; [left; by apply bool_decide_eq_true in H|].
  right. bool_to_prop. destruct (byte_eqb_spec c0 x25), (byte_eqb_spec c3 x00); try discriminate.
  subst. exists c1, c2. split_and!; [done|done|].
  intros Hl. assert (Hb : Z.lor (hex_of c1) (hex_of c2) < 2 ^ 4).
  { apply Z.log2_lt_cancel. rewrite Z.log2_lor by lia.
    pose proof (Z.log2_le_mono (hex_of c1) 15 ltac:(lia)).
    pose proof (Z.log2_le_mono (hex_of c2) 15 ltac:(lia)). simpl in *. lia. }
  lia.
Qed.

(** Octets copied as they are: not the space, the percent or plus sign, nor a
    separator of the query syntax. *)
Lemma enc_code_plain b :
  enc_code b = zero4 ->
  b <> x20 /\ b <> x25 /\ b <> x2b /\ b <> x26 /\ b <> x3d /\ b <> x3f.
Proof.
  intros H. split_and!; intros ->; vm_compute in H; discriminate.
Qed.

Lemma hex_digit_plain c :
  hex_of c <> 255 -> c <> x26 /\ c <> x3d /\ c <> x3f.
Proof. intros H. split_and!; intros ->; by vm_compute in H. Qed.

Lemma encode_octet_length p b : (1 <= length (encode_octet p b) <= 3)%nat.
Proof.
  unfold encode_octet. destruct (byte_eqb b x20 && p)%bool; [simpl; lia|].
  destruct (enc_code_shape b) as [->|(c1 & c2 & -> & _)]; vm_compute; lia.
Qed.

(** * The loops compute the string functions *)

Lemma Encode_loop_spec src : forall pre post p,
  (3 * length src + 1 <= length post)%nat ->
  exists post',
    Encode_loop src (length pre) (pre ++ post) p
      = Ret (length (pre ++ encode p src), pre ++ encode p src ++ post') /\
    (1 <= length post')%nat /\
    length (encode p src ++ post') = length post.
Proof.
  induction src as [|b src IH]; intros pre post p Hlen.
  { exists post. simpl in *. rewrite !app_nil_r. split_and!; [done|lia|done]. }
  assert (Hstep : forall out post1, encode_octet p b = out ->
    (3 * length src + 1 <= length post1)%nat -> length (out ++ post1) = length post ->
    exists post', Encode_loop src (length pre + length out) (pre ++ out ++ post1) p
      = Ret (length (pre ++ encode p (b :: src)), pre ++ encode p (b :: src) ++ post') /\
      (1 <= length post')%nat /\ length (encode p (b :: src) ++ post') = length post).
  { intros out post1 Hout H1 H2. destruct (IH (pre ++ out) post1 p H1) as (q & Hq & Hq1 & Hq2).
    exists q. rewrite <- length_app, (app_assoc pre), Hq. simpl. rewrite Hout.
    rewrite <- !app_assoc. split_and!; [done..|].
    rewrite <- app_assoc, !length_app in *. lia. }
  simpl in *. unfold encode_octet in Hstep |- *.
  destruct post as [|q0 post]; simpl in *; [lia|].
  destruct (byte_eqb b x20 && p)%bool.
  { rewrite buf_set_app. simpl.
    replace (S (length pre)) with (length pre + length [x2b])%nat by (simpl; lia).
    apply (Hstep [x2b]); simpl; [done|lia|done]. }
  destruct (enc_code_shape b) as [E|(c1 & c2 & E & _ & _)]; rewrite E in Hstep |- *.
  { rewrite !bool_decide_eq_true_2 in * by done. simpl. rewrite buf_set_app. simpl.
    replace (S (length pre)) with (length pre + length [b])%nat by (simpl; lia).
    apply (Hstep [b]); simpl; [done|lia|done]. }
  rewrite !bool_decide_eq_false_2 in * by done.
  destruct post as [|q1 [|q2 [|q3 post]]]; simpl in *; try lia.
  rewrite buf_set_app. simpl.
  pose proof (buf_set_app (pre ++ [x25]) q1 (q2 :: q3 :: post) c1) as H1.
  pose proof (buf_set_app (pre ++ [x25; c1]) q2 (q3 :: post) c2) as H2.
  pose proof (buf_set_app (pre ++ [x25; c1; c2]) q3 post x00) as H3.
  rewrite !length_app, <- !app_assoc in *. simpl in *.
  replace (S (length pre)) with (length pre + 1)%nat by lia. rewrite H1. simpl.
  replace (S (length pre + 1)) with (length pre + 2)%nat by lia. rewrite H2. simpl.
  replace (S (length pre + 2)) with (length pre + 3)%nat by lia. rewrite H3. simpl.
  apply (Hstep [x25; c1; c2] (x00 :: post)); simpl; [done|lia|done].
Qed.

Lemma decode_length s : (length (decode s) <= length s)%nat.
Proof.
  induction s as [s IH] using (induction_ltof1 _ length). unfold ltof in IH.
  destruct s as [|c s]; simpl; [lia|].
  pose proof (IH s ltac:(simpl; lia)).
  destruct (byte_eqb c x2b); [simpl; lia|].
  destruct (byte_eqb c x25); [|simpl; lia].
  destruct s as [|h1 [|h2 s]]; simpl in *; try lia.
  pose proof (IH s ltac:(simpl; lia)).
  destruct (negb _); simpl; lia.
Qed.

Lemma Decode_loop_spec s : forall pre post,
  (length s + 1 <= length post)%nat ->
  exists post',
    Decode_loop s (length pre) (pre ++ post)
      = Ret (length (pre ++ decode s), pre ++ decode s ++ post') /\
    (1 <= length post')%nat /\ length (decode s ++ post') = length post.
Proof.
  induction s as [s IH] using (induction_ltof1 _ length). unfold ltof in IH.
  intros pre post Hlen.
  destruct s as [|c s]; simpl in *.
  { exists post. rewrite !app_nil_r. split_and!; [done|lia|done]. }
  destruct post as [|q post]; simpl in *; [lia|].
  assert (Hstep : forall s' b, (length s' < S (length s))%nat -> (length s' + 1 <= length post)%nat ->
    exists post', (dst' ← buf_set (pre ++ q :: post) (length pre) b;
                   Decode_loop s' (S (length pre)) dst')
      = Ret (length (pre ++ b :: decode s'), pre ++ (b :: decode s') ++ post') /\
      (1 <= length post')%nat /\ length ((b :: decode s') ++ post') = S (length post)).
  { intros s' b Hs Hp. rewrite buf_set_app. simpl.
    destruct (IH s' Hs (pre ++ [b]) post Hp) as (p' & Hq & H1 & H2).
    exists p'. rewrite length_app, <- !app_assoc in Hq. simpl in Hq.
    replace (length pre + 1)%nat with (S (length pre)) in Hq by lia. rewrite Hq.
    split_and!; [done|done|simpl; lia]. }
  destruct (byte_eqb c x2b); [apply (Hstep s x20); lia|].
  destruct (byte_eqb c x25); [|apply (Hstep s c); lia].
  destruct s as [|h1 [|h2 s]]; [apply (Hstep _ c); simpl in *; lia..|].
  destruct (negb _); [apply (Hstep s _) | apply (Hstep (h1 :: h2 :: s) c)]; simpl in *; lia.
Qed.

(** What the buffer-writing function must deliver: the length of [out] and a
    buffer of the same size that starts with [out] and a NUL. *)
Definition writes_cstring (r : outcome (nat * bytes)) (out : bytes) (size : nat) : Prop :=
  exists tail, r = Ret (length out, out ++ x00 :: tail) /\
               length (out ++ x00 :: tail) = size.

Lemma writes_cstring_intro r out size tail :
  r = Ret (length out, out ++ tail) -> (1 <= length tail)%nat ->
  length (out ++ tail) = size ->
  writes_cstring ('(j, dst) ← r; dst ← buf_set dst j x00; Ret (j, dst)) out size.
Proof.
  intros -> Ht Hs. destruct tail as [|t0 tail]; simpl in *; [lia|].
  rewrite buf_set_app. exists tail. split; [done|]. by rewrite length_app in *.
Qed.

Lemma Encode_writes src dst p :
  (3 * length src + 1 <= length dst)%nat ->
  writes_cstring (Encode src dst p) (encode p src) (length dst).
Proof.
  intros H. destruct (Encode_loop_spec src [] dst p H) as (post' & E & H1 & H2).
  by eapply writes_cstring_intro.
Qed.

Lemma Decode_writes src dst :
  (length src + 1 <= length dst)%nat ->
  writes_cstring (Decode src dst) (decode src) (length dst).
Proof.
  intros H. destruct (Decode_loop_spec src [] dst H) as (post' & E & H1 & H2).
  by eapply writes_cstring_intro.
Qed.

(** * Round trip *)

Lemma decode_encode_octet b s : decode (encode_octet true b ++ s) = b :: decode s.
Proof.
  unfold encode_octet. rewrite andb_true_r.
  destruct (byte_eqb_spec b x20) as [->|Hsp]; [done|].
  destruct (enc_code_shape b) as [E|(c1 & c2 & E & Hv & Hne)].
  - rewrite bool_decide_eq_true_2 by done.
    destruct (enc_code_plain b E) as (_ & Hp & Hpl & _). simpl.
    by rewrite !byte_eqb_ne.
  - rewrite bool_decide_eq_false_2 by (by rewrite E). rewrite E. simpl.
    rewrite (proj2 (Z.eqb_neq _ _) Hne). simpl. by rewrite Hv, byte_of_bval.
Qed.

Lemma decode_encode s : decode (encode true s) = s.
Proof.
  induction s as [|b s IH]; [done|]. simpl.
  unfold encode in *. simpl. by rewrite decode_encode_octet, IH.
Qed.

(** The encoded form never holds a separator of the query syntax. *)
Lemma encode_octet_no_separator b c :
  c ∈ encode_octet true b -> c <> x26 /\ c <> x3d /\ c <> x3f.
Proof.
  assert (H : forall b, forallb (fun c => negb (byte_eqb c x26) && negb (byte_eqb c x3d)
              && negb (byte_eqb c x3f))%bool (encode_octet true b) = true).
  { apply byte_forall. vm_compute. reflexivity. }
  intros Hc%list_elem_of_In. specialize (H b). rewrite forallb_forall in H.
  specialize (H c Hc). bool_to_prop.
  destruct (byte_eqb_spec c x26), (byte_eqb_spec c x3d), (byte_eqb_spec c x3f); done.
Qed.

Lemma encode_no_separator s :
  Forall (fun c => c <> x26 /\ c <> x3d /\ c <> x3f) (encode true s).
Proof.
  unfold encode. apply Forall_forall. intros c (b & Hc & _)%list_elem_of_bind.
  by apply encode_octet_no_separator in Hc.
Qed.

#[export] Hint Resolve Encode_writes Decode_writes encode_no_separator : aworker.
#[export] Hint Rewrite decode_encode : aworker.
