(* ===== verification/UrlSearchParams.v ===== *)
(** URL query strings: src/src/url/url.cc.

    The constructor scans the query with pointers into it ([key], [value]) and a
    four-state automaton; the model keeps the pointers as indices, so a null
    pointer with a non-zero length is a fault that the theorems rule out.
    [parse_query] and [serialize_query] are the reference functions. *)

From S2P Require Import Prelude UriEncode.

(** * Data *)

(** [src/src/url/url.h 12-12, ParamEntry] *)
Definition ParamEntry : Type := bytes * bytes.

(** [src/src/url/url.cc 27-27, ParseStringURLSearchParamsState] *)
Inductive ParseState := KEY | VALUE | EQUAL | AND.

#[export] Instance ParseState_eq_dec : EqDecision ParseState.
Proof. solve_decision. Defined.

(** [src/src/url/url.cc 22-29, UrlSearchParams::UrlSearchParams] The locals of
    the scan; [params] is the member [params_]. *)
Record Scan := mkScan {
  key : option nat; key_len : nat;
  value : option nat; value_len : nat;
  state : ParseState;
  params : list ParamEntry }.

(** [std::string(ptr, len)] for a pointer into [buf] or a null pointer. *)
Definition string_at (buf : bytes) (ptr : option nat) (len : nat) : outcome bytes :=
  match ptr with
  | Some p => if (p + len <=? length buf)%nat then Ret (take len (drop p buf))
              else Fault OutOfBounds
  | None => if (len =? 0)%nat then Ret [] else Fault NullDeref
  end.

(** Freshly allocated memory; its contents are never read before being written. *)
Definition alloc (n : nat) : bytes := replicate n x00.

(** * Operations *)

(** One side of an entry: [s.length() ? uri_encode::Decode(...) : 0] and the
    string built from the buffer. *)
Definition decode_side (s : bytes) : outcome bytes :=
  match s with
  | [] => Ret []
  | _ => '(n, buf) ← Decode s (alloc (length s + 1)); Ret (take n buf)
  end.

(** [src/src/url/url.cc 126-145, UrlSearchParams::Append] *)
Definition Append (params : list ParamEntry) (key value : bytes) : outcome (list ParamEntry) :=
  k ← decode_side key;
  v ← decode_side value;
  Ret (params ++ [(k, v)]).

(** [src/src/url/url.cc 31-117, UrlSearchParams::UrlSearchParams] The switch of
    the loop body at index [i], character [c]. *)
Definition scan_char (buf : bytes) (i : nat) (c : byte) (s : Scan) : outcome Scan :=
  if byte_eqb c x26 then
    match state s with
    | AND => Ret s
    | EQUAL | KEY | VALUE =>
        k ← string_at buf (key s) (key_len s);
        v ← string_at buf (value s) (value_len s);
        ps ← Append (params s) k v;
        Ret (mkScan None 0 None 0 AND ps)
    end
  else if byte_eqb c x3d then
    match state s with
    | AND | KEY => Ret (mkScan (key s) (key_len s) (value s) (value_len s) EQUAL (params s))
    | EQUAL => Ret (mkScan (key s) (key_len s) (Some i) 1 VALUE (params s))
    | VALUE => Ret (mkScan (key s) (key_len s) (value s) (S (value_len s)) VALUE (params s))
    end
  else
    match state s with
    | AND => Ret (mkScan (Some i) 1 (value s) (value_len s) KEY (params s))
    | EQUAL => Ret (mkScan (key s) (key_len s) (Some i) 1 VALUE (params s))
    | KEY => Ret (mkScan (key s) (S (key_len s)) (value s) (value_len s) KEY (params s))
    | VALUE => Ret (mkScan (key s) (key_len s) (value s) (S (value_len s)) VALUE (params s))
    end.

(** [src/src/url/url.cc 30-30, UrlSearchParams::UrlSearchParams] The [for] loop
    over the characters [rest] from index [i]. *)
Fixpoint scan_loop (buf rest : bytes) (i : nat) (s : Scan) : outcome Scan :=
  match rest with
  | [] => Ret s
  | c :: rest' => s' ← scan_char buf i c s; scan_loop buf rest' (S i) s'
  end.

(** [src/src/url/url.cc 120-123, UrlSearchParams::UrlSearchParams] The last tail. *)
Definition scan_tail (buf : bytes) (s : Scan) : outcome (list ParamEntry) :=
  if (negb (key_len s =? 0)%nat || negb (value_len s =? 0)%nat
      || bool_decide (state s = EQUAL))%bool
  then
    k ← string_at buf (key s) (key_len s);
    v ← string_at buf (value s) (value_len s);
    Append (params s) k v
  else Ret (params s).

(** [search.length() >= 1 && search[0] == '?' ? 1 : 0] *)
Definition query_offset (search : bytes) : nat :=
  match search with c :: _ => if byte_eqb c x3f then 1 else 0 | [] => 0 end.

(** [src/src/url/url.cc 16-124, UrlSearchParams::UrlSearchParams] [len] is an
    int32_t: the length is cut to 32 bits, and a negative one stops the loop at
    once.  The other counters count characters below [len], so they stay in
    range. *)
Definition parse (search : bytes) : outcome (list ParamEntry) :=
  let offset := query_offset search in
  let len := i32 (Z.of_nat (length search) - Z.of_nat offset) in
  let buf := drop offset search in
  s ← scan_loop buf (take (Z.to_nat len) buf) 0 (mkScan None 0 None 0 AND []);
  scan_tail buf s.

(** [buff.Realloc(max_len)] when [max_len] exceeds the buffer: it grows and
    keeps its contents. *)
Definition grow (buff : bytes) (max_len : nat) : bytes :=
  if (length buff <? max_len)%nat then buff ++ alloc (max_len - length buff) else buff.

(** [src/src/url/url.cc 161-181, UrlSearchParams::ToString] One side of an entry:
    nothing for an empty string, its encoding through the scratch buffer otherwise. *)
Definition encode_side (s : bytes) (ret buff : bytes) : outcome (bytes * bytes) :=
  match s with
  | [] => Ret (ret, buff)
  | _ =>
      '(n, buff) ← Encode s (grow buff (length s * 3 + 1)) true;
      Ret (ret ++ take n buff, buff)
  end.

(** [src/src/url/url.cc 154-182, UrlSearchParams::ToString] The loop over the
    entries, [i] counting from zero. *)
Fixpoint ToString_loop (ps : list ParamEntry) (i : nat) (ret buff : bytes) : outcome bytes :=
  match ps with
  | [] => Ret ret
  | (k, v) :: ps' =>
      let ret := if (i =? 0)%nat then ret else ret ++ [x26] in
      '(ret, buff) ← encode_side k ret buff;
      '(ret, buff) ← encode_side v (ret ++ [x3d]) buff;
      ToString_loop ps' (S i) ret buff
  end.

(** [src/src/url/url.cc 147-186, UrlSearchParams::ToString] *)
Definition ToString (ps : list ParamEntry) : outcome bytes := ToString_loop ps 0 [] [].

(** * Reference functions *)

(** The pieces between separators; [cur] is the piece being read. *)
Fixpoint split_on (sep : byte) (cur s : bytes) : list bytes :=
  match s with
  | [] => [cur]
  | c :: s' => if byte_eqb c sep then cur :: split_on sep [] s'
               else split_on sep (cur ++ [c]) s'
  end.

(** Name and value of a piece: before and after its first equals sign. *)
Fixpoint break_eq (s : bytes) : bytes * bytes :=
  match s with
  | [] => ([], [])
  | c :: s' => if byte_eqb c x3d then ([], s')
               else let '(k, v) := break_eq s' in (c :: k, v)
  end.

Definition entry_of (piece : bytes) : ParamEntry :=
  let '(k, v) := break_eq piece in (decode k, decode v).

(** The application/x-www-form-urlencoded parser: drop a leading question mark,
    split at ampersands, ignore empty pieces, decode name and value. *)
Definition parse_query (search : bytes) : list ParamEntry :=
  entry_of <$> filter (fun p => p <> []) (split_on x26 [] (drop (query_offset search) search)).

Definition serialize_entry (e : ParamEntry) : bytes := encode true e.1 ++ x3d :: encode true e.2.

Fixpoint serialize_query (ps : list ParamEntry) : bytes :=
  match ps with
  | [] => []
  | [e] => serialize_entry e
  | e :: ps' => serialize_entry e ++ x26 :: serialize_query ps'
  end.

(** * Helper lemmas *)

Lemma decode_side_spec s : decode_side s = Ret (decode s).
Proof.
  destruct s as [|c s]; [done|]. unfold decode_side.
  destruct (Decode_writes (c :: s) (alloc (length (c :: s) + 1))) as (tl & -> & _).
  { by unfold alloc; rewrite length_replicate. }
  cbn [mbind outcome_bind]. by rewrite take_app_length.
Qed.

Lemma Append_spec ps k v : Append ps k v = Ret (ps ++ [(decode k, decode v)]).
Proof. unfold Append. by rewrite !decode_side_spec. Qed.

Lemma break_eq_none k : x3d ∉ k -> break_eq k = (k, []).
Proof.
  induction k as [|c k IH]; [done|]. intros H. simpl.
  rewrite byte_eqb_ne by set_solver. by rewrite IH by set_solver.
Qed.

Lemma break_eq_some k v : x3d ∉ k -> break_eq (k ++ x3d :: v) = (k, v).
Proof.
  induction k as [|c k IH]; [done|]. intros H. simpl.
  rewrite byte_eqb_ne by set_solver. by rewrite IH by set_solver.
Qed.

Lemma string_at_mid pre mid post :
  string_at (pre ++ mid ++ post) (Some (length pre)) (length mid) = Ret mid.
Proof.
  unfold string_at. rewrite !length_app.
  destruct (Nat.leb_spec (length pre + length mid) (length pre + (length mid + length post))); [|lia].
  by rewrite drop_app_length, take_app_length.
Qed.

(** * The scan invariant *)

(** [seg] are the characters read since the last ampersand, [base] is where
    they start. *)
Inductive seg_inv (base : nat) : Scan -> bytes -> Prop :=
  | inv_and ps : seg_inv base (mkScan None 0 None 0 AND ps) []
  | inv_key k ps : k <> [] -> x3d ∉ k ->
      seg_inv base (mkScan (Some base) (length k) None 0 KEY ps) k
  | inv_equal kp k ps : x3d ∉ k -> (kp = Some base \/ (kp = None /\ k = [])) ->
      seg_inv base (mkScan kp (length k) None 0 EQUAL ps) (k ++ [x3d])
  | inv_value kp k v ps : x3d ∉ k -> v <> [] -> (kp = Some base \/ (kp = None /\ k = [])) ->
      seg_inv base (mkScan kp (length k) (Some (base + length k + 1)%nat) (length v) VALUE ps)
              (k ++ x3d :: v).

Lemma seg_inv_and base s : seg_inv base s [] -> state s = AND.
Proof. inversion 1; subst; try done; by destruct k. Qed.

Lemma seg_inv_not_and base s seg : seg_inv base s seg -> seg <> [] ->
  state s <> AND /\
  (negb (key_len s =? 0)%nat || negb (value_len s =? 0)%nat || bool_decide (state s = EQUAL))%bool = true.
Proof.
  inversion 1 as [|k| |kp k v ps Hk Hv]; subst; intros Hne; [done|..]; simpl; split; try done.
  - by destruct seg.
  - by rewrite !orb_true_r.
  - destruct v; [done|]. by rewrite orb_true_r.
Qed.

Lemma seg_inv_strings pre seg post s :
  seg_inv (length pre) s seg -> seg <> [] ->
  string_at (pre ++ seg ++ post) (key s) (key_len s) = Ret (break_eq seg).1 /\
  string_at (pre ++ seg ++ post) (value s) (value_len s) = Ret (break_eq seg).2.
Proof.
  assert (Hkey : forall k q kp, kp = Some (length pre) \/ kp = None /\ k = [] ->
            string_at (pre ++ k ++ q) kp (length k) = Ret k).
  { intros k q kp [->|[-> ->]]; [apply string_at_mid | done]. }
  inversion 1 as [|k ps Hn Hk|kp k ps Hk Hp|kp k v ps Hk Hv Hp]; subst; intros Hne;
    cbn [key key_len value value_len].
  - done.
  - rewrite break_eq_none by done. split; [apply Hkey; auto | done].
  - rewrite break_eq_some by done. rewrite <- app_assoc. split; [by apply Hkey | done].
  - rewrite break_eq_some by done. rewrite <- app_assoc. split; [by apply Hkey|].
    pose proof (string_at_mid (pre ++ k ++ [x3d]) v post) as Hs.
    rewrite <- !app_assoc, !length_app in Hs. cbn [app length] in *.
    by replace (length pre + length k + 1)%nat with (length pre + (length k + 1))%nat by lia.
Qed.

Lemma scan_char_amp (pre seg post : bytes) s :
  seg_inv (length pre) s seg ->
  scan_char (pre ++ seg ++ x26 :: post) (length pre + length seg)%nat x26 s =
  Ret (mkScan None 0 None 0 AND
         (params s ++ (entry_of <$> filter (fun p => p <> []) [seg]))).
Proof.
  intros Hinv. destruct (decide (seg = [])) as [->|Hne].
  - unfold scan_char. simpl. rewrite app_nil_r.
    inversion Hinv; subst; try done; by destruct k.
  - destruct (seg_inv_strings pre seg (x26 :: post) s Hinv Hne) as [Hk Hv].
    destruct (seg_inv_not_and _ _ _ Hinv Hne) as [Hst _].
    unfold scan_char. simpl byte_eqb. cbn match.
    rewrite filter_cons_True by done. simpl.
    destruct (state s) eqn:E; try done; rewrite Hk, Hv; cbn [mbind outcome_bind];
      rewrite Append_spec; cbn [mbind outcome_bind]; unfold entry_of; by destruct (break_eq seg).
Qed.

Lemma scan_char_other (pre seg : bytes) c buf s :
  seg_inv (length pre) s seg -> c <> x26 ->
  exists s', scan_char buf (length pre + length seg)%nat c s = Ret s' /\
    params s' = params s /\ seg_inv (length pre) s' (seg ++ [c]).
Proof.
  intros Hinv Hc. unfold scan_char. rewrite (byte_eqb_ne c x26) by done.
  destruct (byte_eqb_spec c x3d) as [->|He];
  inversion Hinv as [|k ps Hn Hk|kp k ps Hk Hp|kp k v ps Hk Hv Hp]; subst; simpl;
    (eexists; split; [done|split; [done|]]).
  - by apply (inv_equal _ None []); [set_solver|auto].
  - by apply inv_equal; auto.
  - rewrite <- app_assoc. rewrite length_app. simpl.
    replace (length pre + (length k + 1))%nat with (length pre + length k + 1)%nat by lia.
    by apply (inv_value _ _ _ [x3d]).
  - rewrite <- app_assoc. simpl.
    replace (S (length v)) with (length (v ++ [x3d])) by (rewrite length_app; simpl; lia).
    apply inv_value; [done| by destruct v | done].
  - rewrite Nat.add_0_r. by apply (inv_key _ [c]); [|set_solver].
  - replace (S (length seg)) with (length (seg ++ [c])) by (rewrite length_app; simpl; lia).
    apply inv_key; [by destruct seg | set_solver].
  - rewrite <- app_assoc. rewrite length_app. simpl.
    replace (length pre + (length k + 1))%nat with (length pre + length k + 1)%nat by lia.
    by apply (inv_value _ _ _ [c]).
  - rewrite <- app_assoc. simpl.
    replace (S (length v)) with (length (v ++ [c])) by (rewrite length_app; simpl; lia).
    apply inv_value; [done| by destruct v | done].
Qed.

Lemma scan_tail_spec (pre seg : bytes) s :
  seg_inv (length pre) s seg ->
  scan_tail (pre ++ seg) s = Ret (params s ++ (entry_of <$> filter (fun p => p <> []) [seg])).
Proof.
  intros Hinv. unfold scan_tail. destruct (decide (seg = [])) as [->|Hne].
  - simpl. rewrite !app_nil_r. inversion Hinv; subst; done || (by destruct k).
  - destruct (seg_inv_strings pre seg [] s Hinv Hne) as [Hk Hv]. rewrite app_nil_r in Hk, Hv.
    destruct (seg_inv_not_and _ _ _ Hinv Hne) as [_ ->].
    rewrite filter_cons_True by done. rewrite Hk, Hv. cbn [mbind outcome_bind].
    rewrite Append_spec. unfold entry_of. simpl. by destruct (break_eq seg).
Qed.

Lemma scan_loop_spec rest : forall pre seg s,
  seg_inv (length pre) s seg ->
  (s' ← scan_loop (pre ++ seg ++ rest) rest (length pre + length seg)%nat s;
   scan_tail (pre ++ seg ++ rest) s')
  = Ret (params s ++ (entry_of <$> filter (fun p => p <> []) (split_on x26 seg rest))).
Proof.
  induction rest as [|c rest IH]; intros pre seg s Hinv.
  - simpl. rewrite app_nil_r. by apply scan_tail_spec.
  - simpl. destruct (byte_eqb_spec c x26) as [->|Hc].
    + rewrite scan_char_amp by done. cbn [mbind outcome_bind].
      specialize (IH (pre ++ seg ++ [x26]) [] (mkScan None 0 None 0 AND
         (params s ++ (entry_of <$> filter (fun p => p <> []) [seg])))).
      rewrite <- !app_assoc, !length_app in IH. simpl in IH.
      replace (length pre + (length seg + 1) + 0)%nat with (S (length pre + length seg)) in IH by lia.
      rewrite IH by constructor. f_equal.
      change (seg :: split_on x26 [] rest) with ([seg] ++ split_on x26 [] rest).
      by rewrite filter_app, fmap_app, app_assoc.
    + destruct (scan_char_other pre seg c (pre ++ seg ++ c :: rest) s Hinv Hc)
        as (s' & -> & Hp & Hi). cbn [mbind outcome_bind].
      specialize (IH pre (seg ++ [c]) s' Hi).
      rewrite <- !app_assoc, !length_app, Hp in IH. simpl in IH.
      by replace (length pre + (length seg + 1))%nat with (S (length pre + length seg)) in IH by lia.
Qed.

(** * Serialisation *)

Lemma grow_length buff n : (n <= length (grow buff n))%nat.
Proof.
  unfold grow. destruct (Nat.ltb_spec (length buff) n); [|lia].
  rewrite length_app. unfold alloc. rewrite length_replicate. lia.
Qed.

Lemma encode_side_spec s ret buff :
  exists buff', encode_side s ret buff = Ret (ret ++ encode true s, buff').
Proof.
  destruct s as [|c s]; [exists buff; by rewrite app_nil_r|]. unfold encode_side.
  destruct (Encode_writes (c :: s) (grow buff (length (c :: s) * 3 + 1)) true) as (tl & -> & _).
  { pose proof (grow_length buff (length (c :: s) * 3 + 1)). lia. }
  cbn [mbind outcome_bind]. rewrite take_app_length. eauto.
Qed.

(** What the loop appends from the entry number [i] on. *)
Lemma ToString_loop_spec ps : forall i ret buff,
  ToString_loop ps i ret buff =
  Ret (ret ++ (match ps with [] => [] | _ => if (i =? 0)%nat then [] else [x26] end)
           ++ serialize_query ps).
Proof.
  induction ps as [|[k v] ps IH]; intros i ret buff; [by rewrite app_nil_r|]. simpl.
  destruct (encode_side_spec k (if (i =? 0)%nat then ret else ret ++ [x26]) buff) as (b1 & ->).
  cbn [mbind outcome_bind].
  destruct (encode_side_spec v (((if (i =? 0)%nat then ret else ret ++ [x26]) ++ encode true k) ++ [x3d]) b1)
    as (b2 & ->).
  cbn [mbind outcome_bind]. rewrite IH. f_equal. unfold serialize_entry. simpl.
  destruct ps, (i =? 0)%nat; simpl; rewrite <- ?app_assoc; simpl; by rewrite <- ?app_assoc, ?app_nil_r.
Qed.

(** * Round trip of the reference functions *)

Lemma serialize_entry_pieces e :
  x26 ∉ serialize_entry e /\ serialize_entry e <> [] /\ entry_of (serialize_entry e) = e.
Proof.
  destruct e as [k v]. unfold serialize_entry. simpl.
  pose proof (encode_no_separator k) as Hk. pose proof (encode_no_separator v) as Hv.
  rewrite Forall_forall in Hk, Hv. split_and!.
  - intros [H|[H|H]%elem_of_cons]%elem_of_app; [by destruct (Hk _ H) | done | by destruct (Hv _ H)].
  - by destruct (encode true k).
  - unfold entry_of. rewrite break_eq_some, !decode_encode; [done|].
    intros H. by destruct (Hk _ H) as (_ & ? & _).
Qed.

Lemma split_on_app sep cur p s :
  sep ∉ p -> split_on sep cur (p ++ s) = split_on sep (cur ++ p) s.
Proof.
  revert cur. induction p as [|c p IH]; intros cur Hp; [by rewrite app_nil_r|]. simpl.
  rewrite byte_eqb_ne by set_solver. rewrite IH by set_solver. by rewrite <- app_assoc.
Qed.

Lemma split_serialize ps :
  filter (fun p => p <> []) (split_on x26 [] (serialize_query ps)) = serialize_entry <$> ps.
Proof.
  induction ps as [|e ps IH]; [done|].
  destruct (serialize_entry_pieces e) as (Hs & Hn & _).
  destruct ps as [|e' ps].
  - simpl. rewrite <- (app_nil_r (serialize_entry e)) at 1. rewrite split_on_app by done.
    simpl. by rewrite filter_cons_True, filter_nil.
  - change (serialize_query (e :: e' :: ps))
      with (serialize_entry e ++ x26 :: serialize_query (e' :: ps)).
    rewrite split_on_app by done.
    change (split_on x26 ([] ++ serialize_entry e) (x26 :: serialize_query (e' :: ps)))
      with (serialize_entry e :: split_on x26 [] (serialize_query (e' :: ps))).
    rewrite filter_cons_True by done. by rewrite IH.
Qed.

Lemma serialize_no_question ps : query_offset (serialize_query ps) = 0%nat.
Proof.
  assert (He : forall e s, query_offset (serialize_entry e ++ s) = 0%nat).
  { intros [k v] s. unfold serialize_entry. simpl.
    pose proof (encode_no_separator k) as Hk. destruct (encode true k) as [|c l]; [done|].
    apply Forall_cons in Hk as [(_ & _ & Hq) _]. simpl. by rewrite byte_eqb_ne. }
  destruct ps as [|e [|e' ps]]; [done| |apply He].
  simpl. rewrite <- (app_nil_r (serialize_entry e)). apply He.
Qed.

Lemma parse_serialize ps : parse_query (serialize_query ps) = ps.
Proof.
  unfold parse_query. rewrite serialize_no_question. simpl. rewrite drop_0, split_serialize.
  rewrite <- list_fmap_compose. rewrite <- (list_fmap_id ps) at 2.
  apply list_fmap_ext. intros i e _. apply serialize_entry_pieces.
Qed.

Lemma query_offset_le search : (query_offset search <= length search)%nat.
Proof. unfold query_offset. repeat case_match; simpl; lia. Qed.

Lemma parse_short search :
  Z.of_nat (length search) < 2 ^ 31 -> parse search = Ret (parse_query search).
Proof.
  intros Hlen. pose proof (query_offset_le search) as Ho. unfold parse, parse_query.
  rewrite i32_small by lia. rewrite take_ge by (rewrite length_drop; lia).
  apply (scan_loop_spec (drop (query_offset search) search) [] []). constructor.
Qed.

(** * Properties *)

(** C9 The pointer-and-automaton scan of the constructor never reads outside the
    query, never builds a string from a null pointer with a length, and returns
    exactly the entries of the urlencoded parser: leading question mark dropped,
    pieces between ampersands, empty pieces ignored, split at the first equals
    sign, both sides percent-decoded.  The query is shorter than 2^31 bytes, so
    that its length fits the int32_t it is kept in. *)
Theorem parse_is_urlencoded_parser (search : bytes) :
  Z.of_nat (length search) < 2 ^ 31 ->
  parse search = Ret (parse_query search).
Proof. apply parse_short. Qed.

(** A query of two to four gigabytes has a negative length and is read as empty. *)
Theorem parse_too_long (search : bytes) :
  2 ^ 31 < Z.of_nat (length search) -> Z.of_nat (length search) < 2 ^ 32 ->
  parse search = Ret [].
Proof.
  intros Hlo Hhi. unfold parse.
  assert (Ho : (query_offset search <= 1)%nat) by (unfold query_offset; repeat case_match; lia).
  assert (Hneg : i32 (Z.of_nat (length search) - Z.of_nat (query_offset search)) < 0).
  { unfold i32. set (z := Z.of_nat (length search) - Z.of_nat (query_offset search)).
    assert (2 ^ 31 <= z < 2 ^ 32) by lia.
    replace (z + 2 ^ 31) with (z - 2 ^ 31 + 1 * 2 ^ 32) by lia.
    rewrite Z.mod_add, Z.mod_small by lia. lia. }
  rewrite Z2Nat.nonpos by lia. done.
Qed.

(** ToString writes only inside its growing scratch buffer and returns the
    urlencoded serialisation of the entries. *)
Theorem ToString_is_serializer (ps : list ParamEntry) :
  ToString ps = Ret (serialize_query ps).
Proof. unfold ToString. rewrite ToString_loop_spec. simpl. by destruct ps. Qed.

(** C36 Parsing what ToString prints gives back the same entries, in order and
    with duplicates, for every list of names and values whose printed text is
    shorter than 2^31 bytes (the length the parser keeps in an int32_t). *)
Theorem parse_ToString_roundtrip (ps : list ParamEntry) :
  Z.of_nat (length (serialize_query ps)) < 2 ^ 31 ->
  (s ← ToString ps; parse s) = Ret ps.
Proof.
  intros Hlen. unfold ToString. rewrite ToString_loop_spec. cbn [app mbind outcome_bind].
  replace (_ ++ serialize_query ps) with (serialize_query ps) by (by destruct ps).
  by rewrite parse_short, parse_serialize.
Qed.

(** * Witnesses *)

Lemma parse_is_urlencoded_parser_witness :
  parse [x3f; x61; x3d; x25; x34; x31; x26; x26; x62] = Ret [([x61], [x41]); ([x62], [])].
Proof.
  rewrite (parse_is_urlencoded_parser [x3f; x61; x3d; x25; x34; x31; x26; x26; x62]); [reflexivity|].
  simpl. lia.
Defined.

Lemma parse_ToString_roundtrip_witness :
  (s ← ToString [([x61; x26], [x3d]); ([], [x20])]; parse s) = Ret [([x61; x26], [x3d]); ([], [x20])].
Proof. apply (parse_ToString_roundtrip [([x61; x26], [x3d]); ([], [x20])]). vm_compute. reflexivity. Defined.
