(* ===== verification/IpcMessage.v ===== *)
(** Messages of the agent protocol: src/src/proto/rpc.proto,
    src/src/ipc/ipc_message.h, src/src/ipc/ipc_delegate.h.

    The generated protobuf classes are not part of the repository: they enter
    through the class [Protobuf], whose laws are protobuf's serialisation
    contract, with [WireProtobuf] (the documented fixed32 wire format) as a
    concrete instance. *)

From S2P Require Import Prelude.

(** * Enumerations *)

(** [src/src/proto/rpc.proto 5-13, CanonicalCode] *)
Inductive CanonicalCode :=
  | OK | INTERNAL_ERROR | TIMEOUT | NOT_IMPLEMENTED
  | CONNECTION_RESET | CLIENT_ERROR | CANCELLED.

(** [src/src/proto/rpc.proto 15-18, MessageKind] *)
Inductive MessageKind := Request | Response.

(** [src/src/ipc/ipc_message.h 12-33, NOSLATED_REQUEST_TYPES] The request kinds
    with a handler; [Nil] (0) of the proto enumeration has none. *)
Inductive RequestKind :=
  | Credentials | StreamOpen | StreamPush | CollectMetrics | Fetch | FetchAbort
  | DaprInvoke | DaprBinding | ExtensionBinding | ResourceNotification | ResourcePut
  | Trigger | InspectorStart | InspectorStartSession | InspectorEndSession
  | InspectorGetTargets | InspectorCommand | InspectorEvent | InspectorStarted
  | TracingStart | TracingStop.

#[export] Instance CanonicalCode_eq_dec : EqDecision CanonicalCode.
Proof. solve_decision. Defined.
#[export] Instance MessageKind_eq_dec : EqDecision MessageKind.
Proof. solve_decision. Defined.
#[export] Instance RequestKind_eq_dec : EqDecision RequestKind.
Proof. solve_decision. Defined.

Definition code_num (c : CanonicalCode) : Z :=
  match c with
  | OK => 0 | INTERNAL_ERROR => 1 | TIMEOUT => 2 | NOT_IMPLEMENTED => 3
  | CONNECTION_RESET => 4 | CLIENT_ERROR => 5 | CANCELLED => 6
  end.

Definition mkind_num (k : MessageKind) : Z :=
  match k with Request => 1 | Response => 2 end.

(** [src/src/proto/rpc.proto 23-58, RequestKind] *)
Definition rkind_num (k : RequestKind) : Z :=
  match k with
  | Trigger => 1 | StreamPush => 2 | StreamOpen => 3 | CollectMetrics => 4
  | Credentials => 10 | Fetch => 11 | DaprInvoke => 12 | DaprBinding => 13
  | FetchAbort => 14 | ExtensionBinding => 15
  | ResourceNotification => 21 | ResourcePut => 22
  | InspectorStart => 100 | InspectorStartSession => 101 | InspectorEndSession => 102
  | InspectorGetTargets => 103 | InspectorCommand => 104 | InspectorEvent => 105
  | InspectorStarted => 106 | TracingStart => 110 | TracingStop => 111
  end.

Definition all_kinds : list RequestKind :=
  [Credentials; StreamOpen; StreamPush; CollectMetrics; Fetch; FetchAbort;
   DaprInvoke; DaprBinding; ExtensionBinding; ResourceNotification; ResourcePut;
   Trigger; InspectorStart; InspectorStartSession; InspectorEndSession;
   InspectorGetTargets; InspectorCommand; InspectorEvent; InspectorStarted;
   TracingStart; TracingStop].

(** The [switch] over a request kind: the case whose label has this value. *)
Definition rkind_of (n : Z) : option RequestKind :=
  list_find (fun k => rkind_num k = n) all_kinds ≫= fun '(_, k) => Some k.

Definition mkind_of (n : Z) : option MessageKind :=
  if n =? 1 then Some Request else if n =? 2 then Some Response else None.

Lemma rkind_of_num k : rkind_of (rkind_num k) = Some k.
Proof. by destruct k. Qed.

Lemma mkind_of_num k : mkind_of (mkind_num k) = Some k.
Proof. by destruct k. Qed.

Lemma code_num_inj a b : code_num a = code_num b -> a = b.
Proof. by destruct a, b. Qed.

Lemma rkind_num_range k : 0 <= rkind_num k < 2 ^ 32.
Proof. destruct k; simpl; lia. Qed.

(** * Headers and bodies *)

(** [src/src/proto/rpc.proto 64-70, MessageHeader] *)
Record MessageHeader := mkHeader {
  message_kind : Z;
  request_id : Z;
  request_kind : Z;
  content_length : Z;
  code : Z }.

Definition header_in_range (h : MessageHeader) : Prop :=
  0 <= message_kind h < 2 ^ 32 /\ 0 <= request_id h < 2 ^ 32 /\
  0 <= request_kind h < 2 ^ 32 /\ 0 <= content_length h < 2 ^ 32 /\
  0 <= code h < 2 ^ 32.

(** Which generated class a body is parsed as. *)
Inductive MessageType :=
  | RequestMessage (k : RequestKind)
  | ResponseMessage (k : RequestKind)
  | ErrorResponseMessage.

(** [src/src/ipc/ipc_socket.h 30-30, MessageHeaderSize] *)
Definition MessageHeaderSize : nat := 25.

(** The generated classes: [ParseFromArray] and [SerializeToArray] of the header
    and of the bodies ([ByteSize] is the length of the serialisation).  The laws:
    a header with 32-bit fields serialises to 25 bytes (five fixed32 fields, a
    tag each) and parses back; a message parses back as the class it is of. *)
Class Protobuf (Message : Type) := {
  parse_header : bytes -> option MessageHeader;
  serialize_header : MessageHeader -> bytes;
  parse_message : MessageType -> bytes -> option Message;
  serialize_message : Message -> bytes;
  has_type : MessageType -> Message -> Prop;
  serialize_header_length h : header_in_range h -> length (serialize_header h) = MessageHeaderSize;
  parse_serialize_header h : header_in_range h -> parse_header (serialize_header h) = Some h;
  parse_serialize_message ty m : has_type ty m -> parse_message ty (serialize_message m) = Some m
}.

(** * A concrete instance: the proto2 wire format of the header *)

Fixpoint le_split (n : nat) (z : Z) : bytes :=
  match n with O => [] | S n' => byte_of z :: le_split n' (z / 256) end.

Fixpoint le_combine (l : bytes) : Z :=
  match l with [] => 0 | b :: l' => bval b + 256 * le_combine l' end.

Lemma le_combine_split n z :
  0 <= z -> le_combine (le_split n z) = z mod 256 ^ Z.of_nat n.
Proof.
  revert z. induction n as [|n IH]; intros z Hz; simpl.
  - by rewrite Z.mod_1_r.
  - rewrite bval_byte_of, IH by (apply Z.div_pos; lia). unfold u8, wrap.
    replace (Z.of_nat (S n)) with (1 + Z.of_nat n) by lia.
    rewrite Z.pow_add_r, Z.pow_1_r by lia. change (2 ^ 8) with 256.
    rewrite Z.rem_mul_r by lia. lia.
Qed.

Lemma le_split_length n z : length (le_split n z) = n.
Proof. revert z. induction n; intros; simpl; by f_equal. Qed.

Definition fixed32_field (tag : byte) (z : Z) : bytes := tag :: le_split 4 z.

Definition take_field (tag : byte) (s : bytes) : option (Z * bytes) :=
  match s with
  | t :: b0 :: b1 :: b2 :: b3 :: s' =>
      if byte_eqb t tag then Some (le_combine [b0; b1; b2; b3], s') else None
  | _ => None
  end.

(** Tags: field number times eight plus wire type five. *)
Definition wire_serialize_header (h : MessageHeader) : bytes :=
  fixed32_field x0d (message_kind h) ++ fixed32_field x15 (request_id h) ++
  fixed32_field x1d (request_kind h) ++ fixed32_field x2d (content_length h) ++
  fixed32_field x35 (code h).

Definition wire_parse_header (s : bytes) : option MessageHeader :=
  '(mk, s) ← take_field x0d s;
  '(id, s) ← take_field x15 s;
  '(rk, s) ← take_field x1d s;
  '(len, s) ← take_field x2d s;
  '(c, s) ← take_field x35 s;
  match s with [] => Some (mkHeader mk id rk len c) | _ => None end.

Lemma take_field_spec tag z s :
  0 <= z < 2 ^ 32 -> take_field tag (fixed32_field tag z ++ s) = Some (z, s).
Proof.
  intros Hz. unfold take_field, fixed32_field.
  change ((tag :: le_split 4 z) ++ s) with (tag :: le_split 4 z ++ s).
  cbn [le_split app]. rewrite byte_eqb_refl.
  pose proof (le_combine_split 4 z ltac:(lia)) as H. cbn [le_split] in H. rewrite H.
  by rewrite Z.mod_small.
Qed.

(** A body of the concrete instance: its class and its serialised bytes. *)
#[export, refine] Instance WireProtobuf : Protobuf (MessageType * bytes) := {
  parse_header := wire_parse_header;
  serialize_header := wire_serialize_header;
  parse_message ty s := Some (ty, s);
  serialize_message m := m.2;
  has_type ty m := m.1 = ty
}.
Proof.
  - intros h _. reflexivity.
  - intros h (H1 & H2 & H3 & H4 & H5). unfold wire_parse_header, wire_serialize_header.
    do 4 (rewrite take_field_spec by done; cbn [mbind option_bind]).
    rewrite <- (app_nil_r (fixed32_field x35 (code h))), take_field_spec by done.
    by destruct h.
  - intros ty [ty' s] Hty. simpl in *. by subst.
Defined.
