(* ===== verification/IpcSocket.v ===== *)
(** Framing of the agent socket: src/src/ipc/ipc_socket.{h,cc}.

    [Decoder] is NoslatedDecoder with its members, [Socket] is SocketHolder:
    incoming chunks are appended to the buffer ([OnFrame]) and an idle callback
    drains it ([OnReadable]); what the delegate is called with is the event log.
    The model is the release build: a failing [DCHECK] has no effect. *)

From S2P Require Import Prelude IpcMessage.

Section socket.
Context {Message : Type} `{PB : Protobuf Message}.

(** * NoslatedDecoder *)

(** [src/src/ipc/ipc_socket.h 12-16, DecodingState] *)
Inductive DecodingState := DecodingStateError | DecodingStateOk | DecodingStateMore.

(** [src/src/ipc/ipc_socket.h 34-37, NoslatedDecoder] *)
Record Decoder := mkDecoder {
  read_size_ : nat;
  buffer_ : bytes;
  header_ : option MessageHeader;
  content_ : option Message }.

(** [src/src/ipc/ipc_socket.cc 40-40, NoslatedDecoder::NoslatedDecoder] *)
Definition decoder_init : Decoder := mkDecoder 0 [] None None.

(** [src/src/ipc/ipc_socket.cc 42-47, NoslatedDecoder::InsertBuffer] *)
Definition InsertBuffer (d : Decoder) (base : bytes) : Decoder :=
  mkDecoder (read_size_ d) (buffer_ d ++ base) (header_ d) (content_ d).

(** The bytes [ParseFromArray(buffer_ + MessageHeaderSize, content_length)] sees. *)
Definition body_bytes (d : Decoder) (h : MessageHeader) : bytes :=
  take (Z.to_nat (content_length h)) (drop MessageHeaderSize (buffer_ d)).

(** Parse the body as [ty]; on success it is counted as read and becomes
    [content_]. *)
Definition decode_body (d : Decoder) (h : MessageHeader) (ty : MessageType)
    : Decoder * DecodingState :=
  match parse_message ty (body_bytes d h) with
  | None => (d, DecodingStateError)
  | Some msg =>
      (mkDecoder (read_size_ d + Z.to_nat (content_length h)) (buffer_ d) (header_ d) (Some msg),
       DecodingStateOk)
  end.

(** [src/src/ipc/ipc_socket.cc 87-110, NoslatedDecoder::DecodeRequest] *)
Definition DecodeRequest (d : Decoder) (h : MessageHeader) : Decoder * DecodingState :=
  match rkind_of (request_kind h) with
  | Some k => decode_body d h (RequestMessage k)
  | None => (d, DecodingStateError)
  end.

(** [src/src/ipc/ipc_socket.cc 112-146, NoslatedDecoder::DecodeResponse] *)
Definition DecodeResponse (d : Decoder) (h : MessageHeader) : Decoder * DecodingState :=
  if negb (code h =? code_num OK) then decode_body d h ErrorResponseMessage
  else match rkind_of (request_kind h) with
       | Some k => decode_body d h (ResponseMessage k)
       | None => (d, DecodingStateError)
       end.

(** [src/src/ipc/ipc_socket.cc 65-85, NoslatedDecoder::Decode] With the header known. *)
Definition decode_content (d : Decoder) (h : MessageHeader) : Decoder * DecodingState :=
  if Z.of_nat (length (buffer_ d)) <? Z.of_nat MessageHeaderSize + content_length h
  then (d, DecodingStateMore)
  else match mkind_of (message_kind h) with
       | Some Request => DecodeRequest d h
       | Some Response => DecodeResponse d h
       | None => (d, DecodingStateError)
       end.

(** [src/src/ipc/ipc_socket.cc 49-85, NoslatedDecoder::Decode] *)
Definition Decode (d : Decoder) : Decoder * DecodingState :=
  if (length (buffer_ d) <? MessageHeaderSize)%nat then (d, DecodingStateMore)
  else match header_ d with
       | Some h => decode_content d h
       | None =>
           match parse_header (take MessageHeaderSize (buffer_ d)) with
           | None => (d, DecodingStateError)
           | Some h =>
               decode_content (mkDecoder MessageHeaderSize (buffer_ d) (Some h) (content_ d)) h
           end
       end.

(** [src/src/ipc/ipc_socket.h 25-27, NoslatedDecoder::TakeHeaderOwnership] *)
Definition TakeHeaderOwnership (d : Decoder) : Decoder * option MessageHeader :=
  (mkDecoder (read_size_ d) (buffer_ d) None (content_ d), header_ d).

(** [src/src/ipc/ipc_socket.cc 148-158, NoslatedDecoder::TakeContentOwnership]
    [buffer_.begin() + read_size_] must not pass the end. *)
Definition TakeContentOwnership (d : Decoder) : outcome (Decoder * option Message) :=
  if (read_size_ d <=? length (buffer_ d))%nat
  then Ret (mkDecoder 0 (drop (read_size_ d) (buffer_ d)) None None, content_ d)
  else Fault OutOfBounds.

(** * SocketHolder *)

(** What the delegate is called with; kinds and codes as they are cast from the
    header. *)
Inductive Event :=
  | OnRequest (id kind : Z) (body : option Message)
  | OnResponse (id kind code : Z) (body : option Message)
  | OnError
  | OnFinished.

(** [src/src/ipc/ipc_socket.h 76-79, SocketHolder] [read_immediate_] is the
    pending idle callback; [log] the delegate calls so far; [written] the buffers
    handed to the virtual [Write]. *)
Record Socket := mkSocket {
  decoder_ : Decoder;
  read_immediate_ : bool;
  log : list Event;
  written : list bytes }.

Definition socket_init : Socket := mkSocket decoder_init false [] [].

(** [src/src/ipc/ipc_socket.cc 185-205, SocketHolder::Dispatch] *)
Definition Dispatch (d : Decoder) : outcome (Decoder * list Event) :=
  let '(d, header) := TakeHeaderOwnership d in
  match header with
  | None => Fault NullDeref
  | Some h =>
      match mkind_of (message_kind h) with
      | Some Request =>
          '(d, body) ← TakeContentOwnership d;
          Ret (d, [OnRequest (request_id h) (request_kind h) body])
      | Some Response =>
          '(d, body) ← TakeContentOwnership d;
          Ret (d, [OnResponse (request_id h) (request_kind h) (code h) body])
      | None => Ret (d, [])
      end
  end.

(** [src/src/ipc/ipc_socket.cc 218-234, SocketHolder::OnReadable] The
    [while (true)] loop with a bound on its turns; [None] when the bound is hit. *)
Fixpoint OnReadable_loop (fuel : nat) (d : Decoder) : outcome (option (Decoder * list Event)) :=
  match fuel with
  | O => Ret None
  | S fuel' =>
      match Decode d with
      | (d, DecodingStateError) => Ret (Some (d, [OnError]))
      | (d, DecodingStateMore) => Ret (Some (d, []))
      | (d, DecodingStateOk) =>
          '(d, evs) ← Dispatch d;
          r ← OnReadable_loop fuel' d;
          Ret (r ≫= fun '(d, evs') => Some (d, evs ++ evs'))
      end
  end.

(** Enough turns for the buffered bytes. *)
Definition OnReadable (d : Decoder) : outcome (option (Decoder * list Event)) :=
  OnReadable_loop (S (length (buffer_ d))) d.

(** [src/src/ipc/ipc_socket.cc 207-216, SocketHolder::SetReadable] *)
Definition SetReadable (s : Socket) : Socket :=
  mkSocket (decoder_ s) true (log s) (written s).

(** [src/src/ipc/ipc_socket.cc 160-164, SocketHolder::OnFrame] *)
Definition OnFrame (s : Socket) (base : bytes) : Socket :=
  SetReadable (mkSocket (InsertBuffer (decoder_ s) base) (read_immediate_ s) (log s) (written s)).

(** [src/src/ipc/ipc_socket.cc 211-215, SocketHolder::SetReadable] The idle
    callback: clears [read_immediate_] and drains. *)
Definition ReadImmediate (s : Socket) : outcome (option Socket) :=
  r ← OnReadable (decoder_ s);
  Ret (r ≫= fun '(d, evs) => Some (mkSocket d false (log s ++ evs) (written s))).

(** [src/src/ipc/ipc_socket.cc 166-176, SocketHolder::OnEoF] *)
Definition OnEoF (s : Socket) : outcome Socket :=
  match Decode (decoder_ s) with
  | (d, DecodingStateError) => Ret (mkSocket d (read_immediate_ s) (log s ++ [OnError]) (written s))
  | (d, DecodingStateOk) =>
      '(d, evs) ← Dispatch d;
      Ret (mkSocket d (read_immediate_ s) (log s ++ evs ++ [OnFinished]) (written s))
  | (d, DecodingStateMore) =>
      Ret (mkSocket d (read_immediate_ s) (log s ++ [OnFinished]) (written s))
  end.

(** [src/src/ipc/ipc_socket.cc 178-183, SocketHolder::DisconnectAndDispose] *)
Definition DisconnectAndDispose (s : Socket) : Socket :=
  mkSocket (decoder_ s) false (log s) (written s).

(** A message as [SocketHolder::Write] takes it. *)
Record Frame := mkFrame {
  f_mkind : MessageKind;
  f_id : Z;
  f_rkind : RequestKind;
  f_code : CanonicalCode;
  f_body : Message }.

Definition frame_header (f : Frame) : MessageHeader :=
  mkHeader (mkind_num (f_mkind f)) (f_id f) (rkind_num (f_rkind f))
           (Z.of_nat (length (serialize_message (f_body f)))) (code_num (f_code f)).

(** [src/src/ipc/ipc_socket.cc 236-261, SocketHolder::Write] The header with the
    size of the message, then the message, in one buffer. *)
Definition frame_bytes (f : Frame) : bytes :=
  serialize_header (frame_header f) ++ serialize_message (f_body f).

Definition Write (s : Socket) (f : Frame) : Socket :=
  mkSocket (decoder_ s) (read_immediate_ s) (log s) (written s ++ [frame_bytes f]).

(** * Specification side *)

(** The class the peer's decoder uses for a frame. *)
Definition frame_type (f : Frame) : MessageType :=
  match f_mkind f with
  | Request => RequestMessage (f_rkind f)
  | Response => if decide (f_code f = OK) then ResponseMessage (f_rkind f) else ErrorResponseMessage
  end.

Definition frame_event (f : Frame) : Event :=
  match f_mkind f with
  | Request => OnRequest (f_id f) (rkind_num (f_rkind f)) (Some (f_body f))
  | Response => OnResponse (f_id f) (rkind_num (f_rkind f)) (code_num (f_code f)) (Some (f_body f))
  end.

(** A frame as the callers of [Write] build it: a 32-bit id, a body of the class
    its kind and code say, below 2 GiB. *)
Definition frame_ok (f : Frame) : Prop :=
  0 <= f_id f < 2 ^ 32 /\
  Z.of_nat (length (serialize_message (f_body f))) < 2 ^ 31 /\
  has_type (frame_type f) (f_body f).

Definition wire (fs : list Frame) : bytes := fs ≫= frame_bytes.

(** The decoder between two calls: either no header is held, or the header at
    the front of the buffer has been parsed and counted. *)
Definition decoder_inv (d : Decoder) : Prop :=
  header_ d = None \/
  exists h, header_ d = Some h /\ read_size_ d = MessageHeaderSize /\
    (MessageHeaderSize <= length (buffer_ d))%nat /\
    parse_header (take MessageHeaderSize (buffer_ d)) = Some h.

(** * Lemmas *)

Lemma frame_header_in_range f : frame_ok f -> header_in_range (frame_header f).
Proof.
  intros (Hid & Hlen & _). unfold header_in_range, frame_header. simpl.
  pose proof (rkind_num_range (f_rkind f)).
  destruct (f_mkind f), (f_code f); simpl; split_and!; lia.
Qed.

Lemma frame_bytes_length f : frame_ok f ->
  length (frame_bytes f) = (MessageHeaderSize + length (serialize_message (f_body f)))%nat.
Proof.
  intros Hf. unfold frame_bytes.
  by rewrite length_app, serialize_header_length by by apply frame_header_in_range.
Qed.

Lemma InsertBuffer_inv d base : decoder_inv d -> decoder_inv (InsertBuffer d base).
Proof.
  intros [H|(h & H1 & H2 & H3 & H4)]; [by left|right].
  exists h. simpl. rewrite length_app, take_app_le by done. split_and!; [done..|lia|done].
Qed.

(** Decoding from a state of the invariant is decoding with the header parsed
    from the front of the buffer. *)
Lemma Decode_inv d : decoder_inv d ->
  Decode d =
  if (length (buffer_ d) <? MessageHeaderSize)%nat then (d, DecodingStateMore)
  else match parse_header (take MessageHeaderSize (buffer_ d)) with
       | None => (d, DecodingStateError)
       | Some h => decode_content (mkDecoder MessageHeaderSize (buffer_ d) (Some h) (content_ d)) h
       end.
Proof.
  intros [H|(h & H1 & H2 & H3 & H4)]; unfold Decode.
  - by rewrite H.
  - rewrite H1, H4. destruct d; simpl in *. by subst.
Qed.

Lemma decode_body_cases d h ty d' st :
  decode_body d h ty = (d', st) ->
  buffer_ d' = buffer_ d /\ header_ d' = header_ d /\ st <> DecodingStateMore /\
  (st = DecodingStateOk -> read_size_ d' = (read_size_ d + Z.to_nat (content_length h))%nat) /\
  (st = DecodingStateError -> d' = d).
Proof.
  unfold decode_body. destruct (parse_message ty _); intros [= <- <-]; simpl; by split_and!.
Qed.

(** What a successful decode leaves: the buffer untouched, the header held and
    at least the header counted as read, never past the end of the buffer. *)
Lemma Decode_ok d d' :
  decoder_inv d -> Decode d = (d', DecodingStateOk) ->
  buffer_ d' = buffer_ d /\
  (MessageHeaderSize <= read_size_ d' <= length (buffer_ d))%nat /\
  exists h k, header_ d' = Some h /\ mkind_of (message_kind h) = Some k.
Proof.
  intros Hinv. rewrite Decode_inv by done.
  destruct (Nat.ltb_spec (length (buffer_ d)) MessageHeaderSize); [done|].
  destruct (parse_header _) as [h|]; [|done]. unfold decode_content. simpl.
  destruct (Z.ltb_spec (Z.of_nat (length (buffer_ d)))
             (Z.of_nat MessageHeaderSize + content_length h)) as [|Hle]; [done|].
  assert (Hb : forall ty,
    decode_body (mkDecoder MessageHeaderSize (buffer_ d) (Some h) (content_ d)) h ty
      = (d', DecodingStateOk) ->
    buffer_ d' = buffer_ d /\ (MessageHeaderSize <= read_size_ d' <= length (buffer_ d))%nat /\
    header_ d' = Some h).
  { intros ty Hd. apply decode_body_cases in Hd as (-> & -> & _ & Hr & _).
    rewrite (Hr eq_refl). unfold MessageHeaderSize in *. cbn [read_size_ buffer_ header_].
    split_and!; done || lia. }
  unfold DecodeRequest, DecodeResponse.
  destruct (mkind_of (message_kind h)) as [[]|] eqn:Ek; [..|done].
  - destruct (rkind_of _); [|done]. intros (-> & ? & ->)%Hb. eauto 10.
  - destruct (negb _); [|destruct (rkind_of _); [|done]]; intros (-> & ? & ->)%Hb; eauto 10.
Qed.

(** Dispatching what was decoded makes exactly one delegate call, consumes the
    counted bytes and leaves no header. *)
Lemma Dispatch_ok d h k :
  header_ d = Some h -> mkind_of (message_kind h) = Some k ->
  (read_size_ d <= length (buffer_ d))%nat ->
  Dispatch d = Ret (mkDecoder 0 (drop (read_size_ d) (buffer_ d)) None None,
    [match k with
     | Request => OnRequest (request_id h) (request_kind h) (content_ d)
     | Response => OnResponse (request_id h) (request_kind h) (code h) (content_ d)
     end]).
Proof.
  intros Hh Hk Hr. unfold Dispatch, TakeHeaderOwnership. rewrite Hh, Hk.
  unfold TakeContentOwnership. simpl. rewrite (proj2 (Nat.leb_le _ _) Hr). by destruct k.
Qed.

(** A whole frame at the front of the buffer decodes to that frame. *)
Lemma Decode_frame d f rest :
  decoder_inv d -> frame_ok f -> buffer_ d = frame_bytes f ++ rest ->
  Decode d = (mkDecoder (length (frame_bytes f)) (buffer_ d) (Some (frame_header f))
                        (Some (f_body f)), DecodingStateOk).
Proof.
  intros Hinv Hf Hbuf. pose proof (frame_header_in_range f Hf) as Hr.
  pose proof (serialize_header_length _ Hr) as Hsl. pose proof (frame_bytes_length f Hf) as Hfl.
  rewrite Decode_inv by done. rewrite Hbuf.
  assert (Hlen : (MessageHeaderSize <= length (frame_bytes f ++ rest))%nat)
    by (rewrite length_app; lia).
  destruct (Nat.ltb_spec (length (frame_bytes f ++ rest)) MessageHeaderSize); [lia|].
  assert (Htk : take MessageHeaderSize (frame_bytes f ++ rest) = serialize_header (frame_header f)).
  { unfold frame_bytes. rewrite <- app_assoc. by apply take_app_exact. }
  rewrite Htk, parse_serialize_header by done. unfold decode_content. cbn [buffer_].
  assert (Hc : content_length (frame_header f) = Z.of_nat (length (serialize_message (f_body f)))) by done.
  destruct (Z.ltb_spec (Z.of_nat (length (frame_bytes f ++ rest)))
    (Z.of_nat MessageHeaderSize + content_length (frame_header f))); [rewrite length_app in *; lia|].
  assert (Hbody : forall c, decode_body (mkDecoder MessageHeaderSize (frame_bytes f ++ rest)
      (Some (frame_header f)) c) (frame_header f) (frame_type f)
    = (mkDecoder (length (frame_bytes f)) (frame_bytes f ++ rest) (Some (frame_header f))
                 (Some (f_body f)), DecodingStateOk)).
  { intros c. unfold decode_body, body_bytes. cbn [buffer_ read_size_ header_].
    rewrite Hc, Nat2Z.id. unfold frame_bytes at 1. rewrite <- app_assoc.
    rewrite (drop_app_exact (serialize_header _)) by (by rewrite Hsl). rewrite take_app_length.
    destruct Hf as (_ & _ & Hty). rewrite parse_serialize_message by done. by rewrite Hfl. }
  unfold frame_type in Hbody. simpl mkind_of. unfold DecodeRequest, DecodeResponse.
  replace (message_kind (frame_header f)) with (mkind_num (f_mkind f)) by done.
  rewrite mkind_of_num. cbn [request_kind frame_header code].
  destruct (f_mkind f); [by rewrite rkind_of_num|].
  destruct (decide (f_code f = OK)) as [->|Hne].
  - simpl. by rewrite rkind_of_num.
  - rewrite (proj2 (Z.eqb_neq (code_num (f_code f)) (code_num OK))); [apply Hbody|].
    by intros H1%code_num_inj.
Qed.

(** Less than a frame: the decoder waits. *)
Lemma Decode_partial d f p q :
  decoder_inv d -> frame_ok f -> frame_bytes f = p ++ q -> q <> [] -> buffer_ d = p ->
  exists d', Decode d = (d', DecodingStateMore) /\ decoder_inv d' /\ buffer_ d' = p.
Proof.
  intros Hinv Hf Hpq Hq <-. rewrite Decode_inv by done.
  destruct (Nat.ltb_spec (length (buffer_ d)) MessageHeaderSize) as [|Hge]; [eauto|].
  pose proof (frame_header_in_range f Hf) as Hr. pose proof (serialize_header_length _ Hr) as Hsl.
  assert (Htk : take MessageHeaderSize (buffer_ d) = serialize_header (frame_header f)).
  { rewrite <- (take_app_le (buffer_ d) q) by done. rewrite <- Hpq. by apply take_app_exact. }
  rewrite Htk, parse_serialize_header by done. unfold decode_content. simpl buffer_.
  pose proof (frame_bytes_length f Hf) as Hfl. rewrite Hpq, length_app in Hfl.
  destruct q as [|q0 q]; [done|]. cbn [length] in Hfl.
  destruct (Z.ltb_spec (Z.of_nat (length (buffer_ d)))
    (Z.of_nat MessageHeaderSize + content_length (frame_header f))); [|unfold frame_header, MessageHeaderSize in *; cbn [content_length] in *; lia].
  eexists. split_and!; [done| |done]. right. exists (frame_header f). simpl.
  split_and!; [done..|]. by rewrite Htk, parse_serialize_header.
Qed.

(** Cutting received bytes into whole frames and less than one more. *)
Lemma wire_split fs : forall buf rest,
  Forall frame_ok fs -> buf ++ rest = wire fs ->
  exists fs1 fs2 p, fs = fs1 ++ fs2 /\ buf = wire fs1 ++ p /\ p ++ rest = wire fs2 /\
    match fs2 with
    | [] => p = []
    | f :: _ => exists q, q <> [] /\ frame_bytes f = p ++ q
    end.
Proof.
  induction fs as [|f fs IH]; intros buf rest Hok Heq; simpl in Heq.
  { apply app_nil in Heq as [-> ->]. by exists [], [], []. }
  apply Forall_cons in Hok as [Hf Hok].
  destruct (decide (length buf < length (frame_bytes f))%nat) as [Hlt|Hge].
  - exists [], (f :: fs), buf. split_and!; [done|done|done|].
    apply (f_equal (take (length (frame_bytes f)))) in Heq as Ht.
    rewrite take_app_ge, take_app_length in Ht by lia.
    eexists. split; [|symmetry; exact Ht]. intros Hn. apply (f_equal length) in Ht.
    rewrite Hn, length_app in Ht. simpl in Ht. lia.
  - assert (Hb : buf = frame_bytes f ++ drop (length (frame_bytes f)) buf).
    { rewrite <- (take_drop (length (frame_bytes f)) buf) at 1. f_equal.
      apply (f_equal (take (length (frame_bytes f)))) in Heq.
      by rewrite take_app_le, take_app_length in Heq by lia. }
    destruct (IH (drop (length (frame_bytes f)) buf) rest Hok) as (fs1 & fs2 & p & -> & H1 & H2 & H3).
    { rewrite Hb, <- app_assoc in Heq. by apply app_inv_head in Heq. }
    exists (f :: fs1), fs2, p. rewrite Hb, H1. simpl. rewrite app_assoc.
    split_and!; [done| |done|done]. by unfold wire; simpl; rewrite <- app_assoc.
Qed.

(** Draining whole frames delivers them in order and keeps the rest. *)
Lemma OnReadable_loop_frames fs : forall d p fuel,
  decoder_inv d -> Forall frame_ok fs -> buffer_ d = wire fs ++ p ->
  (forall d', decoder_inv d' -> buffer_ d' = p ->
     exists d'', Decode d' = (d'', DecodingStateMore) /\ decoder_inv d'' /\ buffer_ d'' = p) ->
  (length fs < fuel)%nat ->
  exists d', OnReadable_loop fuel d = Ret (Some (d', frame_event <$> fs)) /\
    decoder_inv d' /\ buffer_ d' = p.
Proof.
  induction fs as [|f fs IH]; intros d p fuel Hinv Hok Hbuf Hmore Hfuel;
    (destruct fuel as [|fuel]; simpl in Hfuel; [lia|]).
  - destruct (Hmore d Hinv Hbuf) as (d' & Hd & H1 & H2). simpl. rewrite Hd. eauto.
  - apply Forall_cons in Hok as [Hf Hok].
    assert (Hb : buffer_ d = frame_bytes f ++ wire fs ++ p).
    { rewrite Hbuf. unfold wire. simpl. by rewrite <- app_assoc. }
    cbn [OnReadable_loop]. rewrite (Decode_frame d f _ Hinv Hf Hb).
    rewrite (Dispatch_ok _ (frame_header f) (f_mkind f));
      [|done|apply mkind_of_num|simpl; rewrite Hb, length_app; lia].
    cbn [mbind outcome_bind read_size_ buffer_ content_]. rewrite Hb, drop_app_length.
    destruct (IH (mkDecoder 0 (wire fs ++ p) None None) p fuel) as (d' & -> & H1 & H2);
      [by left|done|done|done|lia|].
    exists d'. split_and!; [|done|done]. cbn [mbind outcome_bind option_bind].
    reflexivity.
Qed.

Lemma frames_fit fs p : Forall frame_ok fs -> (length fs <= length (wire fs ++ p))%nat.
Proof.
  induction 1 as [|f fs Hf Hok IH]; [simpl; lia|].
  change (wire (f :: fs)) with (frame_bytes f ++ wire fs).
  rewrite !length_app in *. pose proof (frame_bytes_length f Hf).
  unfold MessageHeaderSize in *. cbn [length]. lia.
Qed.

(** ** Interleavings of reads and idle callbacks *)

Inductive Io := Chunk (data : bytes) | Idle.

(** The idle callback runs only while it is scheduled. *)
Definition io_step (s : Socket) (io : Io) : outcome (option Socket) :=
  match io with
  | Chunk data => Ret (Some (OnFrame s data))
  | Idle => if read_immediate_ s then ReadImmediate s else Ret (Some s)
  end.

Fixpoint io_run (s : Socket) (ios : list Io) : outcome (option Socket) :=
  match ios with
  | [] => Ret (Some s)
  | io :: ios' =>
      r ← io_step s io;
      match r with Some s' => io_run s' ios' | None => Ret None end
  end.

Definition chunks (ios : list Io) : bytes :=
  ios ≫= fun io => match io with Chunk data => data | Idle => [] end.

(** Delivered so far, buffered, and still to come. *)
Definition stream_inv (fs : list Frame) (s : Socket) (rest : bytes) : Prop :=
  exists fs1 fs2, fs = fs1 ++ fs2 /\ log s = frame_event <$> fs1 /\
    decoder_inv (decoder_ s) /\ buffer_ (decoder_ s) ++ rest = wire fs2 /\
    (read_immediate_ s = false ->
     match fs2 with
     | [] => True
     | f :: _ => (length (buffer_ (decoder_ s)) < length (frame_bytes f))%nat
     end).

Lemma stream_inv_idle fs s rest :
  Forall frame_ok fs -> stream_inv fs s rest ->
  exists s', ReadImmediate s = Ret (Some s') /\ stream_inv fs s' rest.
Proof.
  intros Hok (fs1 & fs2 & -> & Hlog & Hinv & Hbuf & _).
  apply Forall_app in Hok as [Hok1 Hok2].
  destruct (wire_split fs2 _ _ Hok2 Hbuf) as (fa & fb & p & -> & Hb & Hp & Hnext).
  apply Forall_app in Hok2 as [Hoka Hokb].
  destruct (OnReadable_loop_frames fa (decoder_ s) p (S (length (buffer_ (decoder_ s)))))
    as (d' & Hd & H1 & H2); [done|done|done| | |].
  { intros d Hd Hdb. destruct fb as [|f fb].
    - exists d. unfold Decode. by rewrite Hdb, Hnext.
    - destruct Hnext as (q & Hq & Hf). apply Forall_cons in Hokb as [Hfo _].
      by eapply (Decode_partial d f p q). }
  { rewrite Hb. pose proof (frames_fit fa p Hoka). lia. }
  unfold ReadImmediate, OnReadable. rewrite Hd. eexists. split; [done|].
  exists (fs1 ++ fa), fb. simpl. rewrite Hlog, fmap_app, <- app_assoc, H2.
  split_and!; [done..|]. intros _. destruct fb as [|f fb]; [done|].
  destruct Hnext as (q & Hq & ->). rewrite length_app. destruct q; [done|simpl; lia].
Qed.

Lemma io_run_stream fs ios : forall s,
  Forall frame_ok fs -> stream_inv fs s (chunks ios) ->
  exists s', io_run s ios = Ret (Some s') /\ stream_inv fs s' [].
Proof.
  induction ios as [|io ios IH]; intros s Hok Hinv; [by exists s|].
  cbn [io_run]. destruct io as [data|].
  - apply IH; [done|]. destruct Hinv as (fs1 & fs2 & -> & Hlog & Hd & Hb & _).
    exists fs1, fs2. simpl. split_and!; [done|done|by apply InsertBuffer_inv| |done].
    by rewrite <- app_assoc.
  - unfold io_step. destruct (read_immediate_ s) eqn:Hi; [|by apply IH].
    destruct (stream_inv_idle fs s (chunks ios) Hok) as (s' & -> & Hs'); [|by apply IH].
    destruct Hinv as (fs1 & fs2 & H). exists fs1, fs2. intuition.
Qed.

(** Each turn that does not end the loop consumes a header at least. *)
Lemma OnReadable_loop_terminates fuel : forall d,
  decoder_inv d -> (length (buffer_ d) < fuel)%nat ->
  exists d' evs, OnReadable_loop fuel d = Ret (Some (d', evs)).
Proof.
  induction fuel as [|fuel IH]; intros d Hinv Hf; [lia|]. cbn [OnReadable_loop].
  destruct (Decode d) as [d1 []] eqn:Hd; [eauto| |eauto].
  destruct (Decode_ok d d1 Hinv Hd) as (Hb & Hr & h & k & Hh & Hk).
  rewrite (Dispatch_ok d1 h k) by (done || (rewrite Hb; lia)). cbn [mbind outcome_bind].
  destruct (IH (mkDecoder 0 (drop (read_size_ d1) (buffer_ d1)) None None)) as (d' & evs & ->).
  { by left. }
  { cbn [buffer_]. rewrite length_drop, Hb. unfold MessageHeaderSize in *. lia. }
  simpl. eauto.
Qed.

(** Whatever the bytes, a decode leaves a state of the invariant. *)
Lemma Decode_keeps_inv d d' st :
  decoder_inv d -> Decode d = (d', st) -> st <> DecodingStateOk -> decoder_inv d'.
Proof.
  intros Hinv. rewrite Decode_inv by done.
  destruct (Nat.ltb_spec (length (buffer_ d)) MessageHeaderSize) as [|Hge];
    [by intros [= <- _] _|].
  destruct (parse_header _) as [h|] eqn:Hp; [|by intros [= <- _] _].
  assert (Hi : decoder_inv (mkDecoder MessageHeaderSize (buffer_ d) (Some h) (content_ d))).
  { right. by exists h. }
  assert (Hb : forall ty, decode_body (mkDecoder MessageHeaderSize (buffer_ d) (Some h) (content_ d)) h ty
     = (d', st) -> st <> DecodingStateOk -> decoder_inv d').
  { intros ty Hd Hst. apply decode_body_cases in Hd as (_ & _ & Hm & _ & He).
    destruct st; [by rewrite He|done|done]. }
  unfold decode_content, DecodeRequest, DecodeResponse.
  destruct (_ <? _); [by intros [= <- _] _|].
  destruct (mkind_of _) as [[]|]; [destruct (rkind_of _)| |];
    [eauto|by intros [= <- _] _| |by intros [= <- _] _].
  destruct (negb _); [eauto|]. destruct (rkind_of _); [eauto|by intros [= <- _] _].
Qed.

Lemma OnReadable_loop_keeps_inv fuel : forall d d' evs,
  decoder_inv d -> OnReadable_loop fuel d = Ret (Some (d', evs)) -> decoder_inv d'.
Proof.
  induction fuel as [|fuel IH]; intros d d' evs Hinv; [done|]. cbn [OnReadable_loop].
  destruct (Decode d) as [d1 []] eqn:Hd.
  - intros [= <- _]. by eapply Decode_keeps_inv.
  - destruct (Decode_ok d d1 Hinv Hd) as (Hb & Hr & h & k & Hh & Hk).
    rewrite (Dispatch_ok d1 h k) by (done || (rewrite Hb; lia)). cbn [mbind outcome_bind].
    intros (r & Hr' & [= He])%outcome_bind_inv. destruct r as [[d2 evs2]|]; [|done].
    simpl in He. injection He as <- _. apply (IH _ _ _) in Hr'; [done|by left].
  - intros [= <- _]. by eapply Decode_keeps_inv.
Qed.

Lemma io_run_inv ios : forall s,
  decoder_inv (decoder_ s) -> exists s', io_run s ios = Ret (Some s') /\ decoder_inv (decoder_ s').
Proof.
  induction ios as [|io ios IH]; intros s Hinv; [by exists s|]. cbn [io_run].
  destruct io as [data|]; [by apply IH; apply InsertBuffer_inv|].
  unfold io_step. destruct (read_immediate_ s); [|by apply IH].
  destruct (OnReadable_loop_terminates (S (length (buffer_ (decoder_ s)))) (decoder_ s) Hinv)
    as (d' & evs & Hd); [lia|].
  unfold ReadImmediate, OnReadable. rewrite Hd. apply IH. by eapply OnReadable_loop_keeps_inv.
Qed.

(** * Properties *)

(** C1 Reassembly: however the bytes of a sequence of written messages are cut
    into chunks, and however the idle callback is interleaved with the reads,
    the delegate is called with a prefix of those messages in order; when no
    idle callback is pending it has been called with all of them, exactly once
    each, and nothing is left in the buffer. *)
Theorem stream_reassembly (fs : list Frame) (ios : list Io) :
  Forall frame_ok fs -> chunks ios = wire fs ->
  exists s', io_run socket_init ios = Ret (Some s') /\
    log s' `prefix_of` (frame_event <$> fs) /\
    (read_immediate_ s' = false ->
       log s' = frame_event <$> fs /\ buffer_ (decoder_ s') = []).
Proof.
  intros Hok Hc. destruct (io_run_stream fs ios socket_init Hok) as (s' & -> & Hs').
  { exists [], fs. split_and!; [done|done|by left|done|]. destruct fs as [|f fs]; [done|].
    intros _. apply Forall_cons in Hok as [Hf _]. rewrite frame_bytes_length by done. simpl. lia. }
  exists s'. split; [done|]. destruct Hs' as (fs1 & fs2 & -> & -> & _ & Hb & Hi).
  rewrite app_nil_r in Hb. split; [rewrite fmap_app; by apply prefix_app_r|].
  intros Hidle. specialize (Hi Hidle). destruct fs2 as [|f fs2].
  - by rewrite app_nil_r.
  - rewrite Hb in Hi. change (wire (f :: fs2)) with (frame_bytes f ++ wire fs2) in Hi.
    rewrite length_app in Hi. lia.
Qed.

(** C37 Robustness: for every byte stream, valid or not, and every interleaving of
    reads and idle callbacks, the read loop terminates and no step dereferences
    a missing header or moves past the end of the buffer. *)
Theorem read_loop_total (ios : list Io) :
  exists s', io_run socket_init ios = Ret (Some s').
Proof. destruct (io_run_inv ios socket_init) as (s' & H & _); [by left|eauto]. Qed.

(** End of file: of the messages still buffered only the first is dispatched
    before OnFinished, after which disposing the socket cancels the pending idle
    callback, so every further complete message is dropped. *)
Theorem OnEoF_drops_buffered (s : Socket) (f : Frame) (fs : list Frame) :
  decoder_inv (decoder_ s) -> Forall frame_ok (f :: fs) -> buffer_ (decoder_ s) = wire (f :: fs) ->
  exists s', OnEoF s = Ret s' /\ log s' = log s ++ [frame_event f; OnFinished] /\
    buffer_ (decoder_ s') = wire fs /\ read_immediate_ (DisconnectAndDispose s') = false.
Proof.
  intros Hinv Hok Hb. apply Forall_cons in Hok as [Hf Hok].
  change (wire (f :: fs)) with (frame_bytes f ++ wire fs) in Hb.
  unfold OnEoF. rewrite (Decode_frame _ f _ Hinv Hf Hb).
  rewrite (Dispatch_ok _ (frame_header f) (f_mkind f));
    [|done|apply mkind_of_num|simpl; rewrite Hb, length_app; lia].
  eexists. split; [done|]. simpl. split_and!; [done| |done]. by rewrite Hb, drop_app_length.
Qed.

End socket.

Arguments Decoder Message : clear implicits.
Arguments Socket Message : clear implicits.
Arguments Frame Message : clear implicits.
Arguments Event Message : clear implicits.

(** * Witnesses *)

Definition ex_frames : list (Frame (MessageType * bytes)) :=
  [mkFrame Request 7 Trigger OK (RequestMessage Trigger, [x01; x02; x03]);
   mkFrame Response 9 Fetch TIMEOUT (ErrorResponseMessage, [x0a])].

Definition ex_ios : list Io :=
  [Chunk (take 10 (wire ex_frames)); Idle; Chunk (take 30 (drop 10 (wire ex_frames)));
   Chunk (drop 40 (wire ex_frames)); Idle].

Lemma ex_frames_ok : Forall frame_ok ex_frames.
Proof. repeat constructor; vm_compute; done. Defined.

Lemma stream_reassembly_witness :
  exists s', io_run socket_init ex_ios = Ret (Some s') /\
    log s' `prefix_of` (frame_event <$> ex_frames) /\
    (read_immediate_ s' = false ->
       log s' = frame_event <$> ex_frames /\ buffer_ (decoder_ s') = []).
Proof. apply (stream_reassembly ex_frames ex_ios); [apply ex_frames_ok | vm_compute; reflexivity]. Defined.

Lemma read_loop_total_witness :
  exists s', io_run (socket_init : Socket (MessageType * bytes))
               [Chunk (replicate 30 xff); Idle; Chunk [x00]; Idle] = Ret (Some s').
Proof. apply read_loop_total. Defined.

Lemma OnEoF_drops_buffered_witness :
  let s := mkSocket (mkDecoder 0 (wire ex_frames) None None) true [] [] in
  exists s', OnEoF s = Ret s' /\
    log s' = [frame_event (mkFrame Request 7 Trigger OK (RequestMessage Trigger, [x01; x02; x03])); OnFinished] /\
    buffer_ (decoder_ s') = wire (tail ex_frames) /\ read_immediate_ (DisconnectAndDispose s') = false.
Proof.
  apply (OnEoF_drops_buffered
    (mkSocket (mkDecoder 0 (wire ex_frames) None None) true [] [])
    (mkFrame Request 7 Trigger OK (RequestMessage Trigger, [x01; x02; x03])) (tail ex_frames));
    [by left | apply ex_frames_ok | reflexivity].
Defined.
