(* ===== verification/IpcDelegate.v ===== *)
(** Requests and responses over a socket: src/src/ipc/ipc_delegate_impl.{h,cc},
    src/src/ipc/ipc_service.{h,cc} and the timers of src/src/ipc/uv_loop.cc.

    [Delegate] is DelegateImpl with its two maps and the loop timers it owns;
    closures are tokens ([None] is an empty std::function) and every invocation
    is logged.  [dstep] is one event of the loop; the theorems speak about every
    interleaving of requests, responses, timeouts and the final destruction. *)

From S2P Require Import Prelude IpcMessage IpcSocket.

Section delegate.
Context {Message : Type} `{PB : Protobuf Message}.
(** [std::make_unique<...ResponseMessage>()]: a default-constructed message. *)
Context (default_message : MessageType -> Message).
Context {C : Type}.

(** One call of a closure: code, error and body arguments. *)
Record Invocation := mkInvocation {
  inv_closure : C;
  inv_code : CanonicalCode;
  inv_error : option Message;
  inv_body : option Message }.

(** A request handed to the service: session, request id, kind, body. *)
Record ServiceCall := mkServiceCall {
  sc_session : Z; sc_id : Z; sc_kind : RequestKind; sc_body : option Message }.

(** [src/src/ipc/ipc_delegate_impl.h 43-46, DelegateImpl] [live_timers] are the
    open timer handles of the loop with what their callback captured; [has_socket]
    is whether [socket()] is not null. *)
Record Delegate := mkDelegate {
  callbacks_ : gmap Z (option C);
  timers_ : gmap Z nat;
  live_timers : gmap nat (Z * RequestKind);
  next_timer : nat;
  has_socket : bool;
  session_id : Z;
  fired : list Invocation;
  accepted : list C;
  sent : list (Frame Message);
  calls : list ServiceCall }.

Definition delegate_init (session : Z) : Delegate :=
  mkDelegate ∅ ∅ ∅ 0 false session [] [] [] [].

(** ** Loop timers *)

(** [src/src/ipc/uv_loop.cc 43-49, UvLoop::SetTimeout] *)
Definition SetTimeout (d : Delegate) (id : Z) (kind : RequestKind) : Delegate * nat :=
  let t := next_timer d in
  (mkDelegate (callbacks_ d) (timers_ d) (<[t := (id, kind)]> (live_timers d)) (S t)
     (has_socket d) (session_id d) (fired d) (accepted d) (sent d) (calls d), t).

(** [src/src/ipc/uv_loop.cc 51-54, UvLoop::ClearTimeout] *)
Definition ClearTimeout (d : Delegate) (t : nat) : Delegate :=
  mkDelegate (callbacks_ d) (timers_ d) (delete t (live_timers d)) (next_timer d)
    (has_socket d) (session_id d) (fired d) (accepted d) (sent d) (calls d).

Definition set_callbacks (d : Delegate) (m : gmap Z (option C)) : Delegate :=
  mkDelegate m (timers_ d) (live_timers d) (next_timer d)
    (has_socket d) (session_id d) (fired d) (accepted d) (sent d) (calls d).
Definition set_timers (d : Delegate) (m : gmap Z nat) : Delegate :=
  mkDelegate (callbacks_ d) m (live_timers d) (next_timer d)
    (has_socket d) (session_id d) (fired d) (accepted d) (sent d) (calls d).
Definition set_socket (d : Delegate) (b : bool) : Delegate :=
  mkDelegate (callbacks_ d) (timers_ d) (live_timers d) (next_timer d)
    b (session_id d) (fired d) (accepted d) (sent d) (calls d).

(** Calling a closure, and writing a frame to the socket. *)
Definition invoke (d : Delegate) (i : Invocation) : Delegate :=
  mkDelegate (callbacks_ d) (timers_ d) (live_timers d) (next_timer d)
    (has_socket d) (session_id d) (fired d ++ [i]) (accepted d) (sent d) (calls d).
Definition accept (d : Delegate) (cb : option C) : Delegate :=
  mkDelegate (callbacks_ d) (timers_ d) (live_timers d) (next_timer d)
    (has_socket d) (session_id d) (fired d) (accepted d ++ option_list cb) (sent d) (calls d).
Definition send (d : Delegate) (f : Frame Message) : Delegate :=
  mkDelegate (callbacks_ d) (timers_ d) (live_timers d) (next_timer d)
    (has_socket d) (session_id d) (fired d) (accepted d) (sent d ++ [f]) (calls d).
Definition call_service (d : Delegate) (c : ServiceCall) : Delegate :=
  mkDelegate (callbacks_ d) (timers_ d) (live_timers d) (next_timer d)
    (has_socket d) (session_id d) (fired d) (accepted d) (sent d) (calls d ++ [c]).

(** ** DelegateImpl *)

(** [src/src/ipc/ipc_delegate_impl.cc 140-148, DelegateImpl::SetCallback] *)
Definition SetCallback (d : Delegate) (id : Z) (cb : option C) (timer : nat) : outcome Delegate :=
  CHECK (bool_decide (callbacks_ d !! id = None)) ;;
  CHECK (bool_decide (timers_ d !! id = None)) ;;
  let d := accept d cb in
  Ret (set_timers (set_callbacks d (<[id := cb]> (callbacks_ d))) (<[id := timer]> (timers_ d))).

(** [src/src/ipc/ipc_delegate_impl.cc 113-138, DelegateImpl::Request] *)
Definition DelegateRequest (d : Delegate) (id : Z) (kind : RequestKind) (body : Message)
    (callback : option C) : outcome Delegate :=
  if has_socket d then
    let '(d, timer) := SetTimeout d id kind in
    d ← SetCallback d id callback timer;
    Ret (send d (mkFrame Request id kind OK body))
  else Ret d.

(** [src/src/ipc/ipc_delegate_impl.cc 75-101, DelegateImpl::OnResponse] *)
Definition OnResponse (d : Delegate) (id : Z) (code : CanonicalCode) (body : option Message)
    : Delegate :=
  match callbacks_ d !! id with
  | None => d
  | Some cb =>
      let d := match timers_ d !! id with
               | Some t => set_timers (ClearTimeout d t) (delete id (timers_ d))
               | None => d
               end in
      let d := match cb with
               | Some c => invoke d (mkInvocation c code
                             (if decide (code = OK) then None else body)
                             (if decide (code = OK) then body else None))
               | None => d
               end in
      set_callbacks d (delete id (callbacks_ d))
  end.

(** [src/src/ipc/ipc_delegate_impl.cc 120-129, DelegateImpl::Request] The timer
    callback: the request is answered with TIMEOUT and no body. *)
Definition OnTimer (d : Delegate) (t : nat) : Delegate :=
  match live_timers d !! t with
  | Some (id, _) => OnResponse d id TIMEOUT None
  | None => d
  end.

(** [src/src/ipc/ipc_delegate_impl.cc 23-73, DelegateImpl::OnRequest] The
    service method of the kind is called with a controller for this session; an
    unknown kind is only logged. *)
Definition OnRequest (d : Delegate) (id kind : Z) (body : option Message) : Delegate :=
  match rkind_of kind with
  | Some k => call_service d (mkServiceCall (session_id d) id k body)
  | None => d
  end.

(** [src/src/ipc/ipc_delegate_impl.cc 36-60, DelegateImpl::OnRequest] The closure
    the service answers with; [alive] is whether [weak_self.lock()] succeeds. *)
Definition Reply (d : Delegate) (alive : bool) (id : Z) (kind : RequestKind)
    (code : CanonicalCode) (error resp : option Message) : Delegate :=
  if negb alive then d
  else if has_socket d then
    let msg := if decide (code = OK)
               then match resp with Some m => m | None => default_message (ResponseMessage kind) end
               else match error with Some m => m | None => default_message ErrorResponseMessage end in
    send d (mkFrame Response id kind code msg)
  else d.

(** [src/src/ipc/ipc_service.h 61-68, NoslatedService] The method of a service
    that does not override it. *)
Definition not_implemented (not_impl_error : Message) (d : Delegate) (alive : bool) (c : ServiceCall)
    : Delegate :=
  Reply d alive (sc_id c) (sc_kind c) NOT_IMPLEMENTED (Some not_impl_error) None.

(** Iteration of a std::map: by increasing key. *)
Definition key_le {A} (x y : Z * A) : Prop := x.1 <= y.1.
#[local] Instance key_le_dec {A} : RelDecision (@key_le A) := fun x y => Z_le_dec x.1 y.1.

Definition map_iter {A} (m : gmap Z A) : list (Z * A) := merge_sort key_le (map_to_list m).

Fixpoint reset_all (cbs : list (Z * option C)) (d : Delegate) : outcome Delegate :=
  match cbs with
  | [] => Ret d
  | (_, None) :: _ => Fault UncaughtException
  | (_, Some c) :: cbs' => reset_all cbs' (invoke d (mkInvocation c CONNECTION_RESET None None))
  end.

(** [src/src/ipc/ipc_delegate_impl.cc 11-21, DelegateImpl::~DelegateImpl] *)
Definition Destroy (d : Delegate) : outcome Delegate :=
  let d := foldl (fun d it => ClearTimeout d it.2) d (map_iter (timers_ d)) in
  let d := set_timers d ∅ in
  d ← reset_all (map_iter (callbacks_ d)) d;
  Ret (set_callbacks d ∅).

(** ** NoslatedService *)

(** [src/src/ipc/ipc_service.h 31-33, RpcController] *)
Record RpcController := mkController {
  ctl_session : Z; ctl_request : Z; ctl_timeout : Z }.

(** [src/src/ipc/ipc_service.h 84-86, NoslatedService::next_seq] [return seq_++],
    a uint32_t. *)
Definition next_seq (seq_ : Z) : Z * Z := (seq_, u32 (seq_ + 1)).

(** [src/src/ipc/ipc_service.h 43-49, NoslatedService::NewControllerWithTimeout] *)
Definition NewControllerWithTimeout (seq_ session ms : Z) : RpcController * Z :=
  let '(id, seq_) := next_seq seq_ in (mkController session id ms, seq_).

(** [src/src/ipc/ipc_service.cc 27-42, NoslatedService::Request_] [delegate] is
    what [socket_delegate(session).lock()] gives; without one the closure is
    called at once with CONNECTION_RESET. *)
Definition Request_ (delegate : option Delegate) (ctl : RpcController) (kind : RequestKind)
    (req : Message) (closure : option C) (reset_error : Message)
    : outcome (option Delegate * list Invocation) :=
  match delegate with
  | Some d => d ← DelegateRequest d (ctl_request ctl) kind req closure; Ret (Some d, [])
  | None =>
      match closure with
      | Some c => Ret (None, [mkInvocation c CONNECTION_RESET (Some reset_error) None])
      | None => Fault UncaughtException
      end
  end.

(** * Events of the loop *)

Inductive DEvent :=
  | EvSocket (connected : bool)
  | EvRequest (id : Z) (kind : RequestKind) (body : Message) (cb : C)
  | EvResponse (id : Z) (code : CanonicalCode) (body : option Message)
  | EvTimer (t : nat)
  | EvIncoming (id kind : Z) (body : option Message)
  | EvReply (id : Z) (kind : RequestKind) (code : CanonicalCode) (error resp : option Message).

Definition dstep (d : Delegate) (e : DEvent) : outcome Delegate :=
  match e with
  | EvSocket b => Ret (set_socket d b)
  | EvRequest id kind body cb => DelegateRequest d id kind body (Some cb)
  | EvResponse id code body => Ret (OnResponse d id code body)
  | EvTimer t => Ret (OnTimer d t)
  | EvIncoming id kind body => Ret (OnRequest d id kind body)
  | EvReply id kind code error resp => Ret (Reply d true id kind code error resp)
  end.

Fixpoint drun (d : Delegate) (es : list DEvent) : outcome Delegate :=
  match es with [] => Ret d | e :: es' => d ← dstep d e; drun d es' end.

(** * Invariant *)

Definition pending (d : Delegate) : list C := omap snd (map_to_list (callbacks_ d)).

(** Both maps have the same request ids; the loop's open timers are exactly those
    of the map; no closure is empty; every accepted closure has been called or is
    pending, once. *)
Record delegate_inv (d : Delegate) : Prop := {
  inv_dom : dom (callbacks_ d) = dom (timers_ d);
  inv_timer_live id t : timers_ d !! id = Some t <-> exists k, live_timers d !! t = Some (id, k);
  inv_next t : is_Some (live_timers d !! t) -> (t < next_timer d)%nat;
  inv_nonempty : map_Forall (fun _ cb => is_Some cb) (callbacks_ d);
  inv_once : accepted d ≡ₚ (inv_closure <$> fired d) ++ pending d }.

Lemma delegate_init_inv session : delegate_inv (delegate_init session).
Proof.
  split; simpl.
  - set_solver.
  - intros id t. rewrite lookup_empty. split; [done|]. intros (k & Hk). by rewrite lookup_empty in Hk.
  - intros t [x Hx]. by rewrite lookup_empty in Hx.
  - apply map_Forall_empty.
  - done.
Qed.

Lemma pending_insert d id c :
  callbacks_ d !! id = None ->
  omap snd (map_to_list (<[id := Some c]> (callbacks_ d))) ≡ₚ c :: pending d.
Proof. intros H. unfold pending. by rewrite map_to_list_insert by done. Qed.

Lemma pending_delete d id c :
  callbacks_ d !! id = Some (Some c) ->
  pending d ≡ₚ c :: omap snd (map_to_list (delete id (callbacks_ d))).
Proof. intros H. unfold pending. by rewrite <- (map_to_list_delete _ _ _ H). Qed.

Lemma DelegateRequest_inv d d' id kind body c :
  delegate_inv d -> DelegateRequest d id kind body (Some c) = Ret d' -> delegate_inv d'.
Proof.
  intros [Hdom Hlive Hnext Hne Honce]. unfold DelegateRequest.
  destruct (has_socket d); [|by intros [= <-]]. simpl.
  unfold SetCallback, CHECK. simpl.
  destruct (decide (callbacks_ d !! id = None)) as [Hcb|Hcb];
    [rewrite (bool_decide_eq_true_2 _ Hcb) | by rewrite (bool_decide_eq_false_2 _ Hcb)].
  destruct (decide (timers_ d !! id = None)) as [Htm|Htm];
    [rewrite (bool_decide_eq_true_2 _ Htm) | by rewrite (bool_decide_eq_false_2 _ Htm)].
  simpl. intros [= <-]. split; simpl.
  - rewrite !dom_insert_L. by rewrite Hdom.
  - intros id' t. rewrite !lookup_insert.
    destruct (decide (id = id')) as [->|Hid].
    + split; [intros [= <-]; rewrite decide_True by done; eauto|]. intros (k & Hk).
      destruct (decide (next_timer d = t)) as [->|]; [done|].
      assert (timers_ d !! id' = Some t) as Ht by (apply Hlive; eauto). congruence.
    + rewrite Hlive. destruct (decide (next_timer d = t)) as [<-|]; [|done].
      split; [intros (k & Hk) | intros (k & [= ->])]; [|done].
      exfalso. assert (next_timer d < next_timer d)%nat by (apply Hnext; eauto). lia.
  - intros t. rewrite lookup_insert. case_decide; [lia|]. intros Ht%Hnext. lia.
  - apply map_Forall_insert_2; [by eexists | done].
  - unfold pending. simpl. rewrite pending_insert by done.
    rewrite Honce. simpl. by rewrite <- app_assoc, <- Permutation_cons_append.
Qed.

Lemma DelegateRequest_fresh d id kind body c :
  delegate_inv d -> callbacks_ d !! id = None ->
  exists d', DelegateRequest d id kind body (Some c) = Ret d' /\
    has_socket d' = has_socket d /\ fired d' = fired d /\
    callbacks_ d' = (if has_socket d then <[id := Some c]> (callbacks_ d) else callbacks_ d).
Proof.
  intros Hinv Hid.
  assert (timers_ d !! id = None) as Ht.
  { apply not_elem_of_dom. rewrite <- (inv_dom _ Hinv). by apply not_elem_of_dom. }
  unfold DelegateRequest. destruct (has_socket d) eqn:Hs; [|by exists d]. simpl.
  unfold SetCallback. simpl. rewrite (bool_decide_eq_true_2 _ Hid), (bool_decide_eq_true_2 _ Ht).
  simpl. eexists. split; [done|]. simpl. done.
Qed.

Lemma OnResponse_inv d id code body : delegate_inv d -> delegate_inv (OnResponse d id code body).
Proof.
  intros [Hdom Hlive Hnext Hne Honce]. unfold OnResponse.
  destruct (callbacks_ d !! id) as [cb|] eqn:Hcb; [|done].
  destruct (Hne _ _ Hcb) as [c ->].
  assert (is_Some (timers_ d !! id)) as [t Ht].
  { apply elem_of_dom. rewrite <- Hdom. apply elem_of_dom. eauto. }
  rewrite Ht. split; simpl.
  - by rewrite !dom_delete_L, Hdom.
  - intros id' t'. rewrite !lookup_delete.
    destruct (decide (id = id')) as [<-|Hid], (decide (t = t')) as [<-|Htt].
    + split; [done|]. by intros (k & ?).
    + split; [done|]. intros Hk%Hlive. congruence.
    + split; [|by intros (k & ?)]. intros [k Hk]%Hlive.
      assert (exists k, live_timers d !! t = Some (id, k)) as [k' Hk'] by (by apply Hlive). congruence.
    + apply Hlive.
  - intros t'. rewrite lookup_delete. case_decide; [by intros []|apply Hnext].
  - by apply map_Forall_delete.
  - rewrite Honce, fmap_app. unfold pending at 2. simpl.
    rewrite (pending_delete d id c Hcb). by rewrite <- app_assoc.
Qed.

(** What a response or a timeout does to the closures: nothing, or one pending
    closure is called and forgotten. *)
Lemma OnResponse_pending d id code body :
  delegate_inv d ->
  let d' := OnResponse d id code body in
  (callbacks_ d !! id = None /\ d' = d) \/
  exists c, callbacks_ d !! id = Some (Some c) /\
    fired d' = fired d ++ [mkInvocation c code (if decide (code = OK) then None else body)
                                               (if decide (code = OK) then body else None)] /\
    pending d ≡ₚ c :: pending d' /\ has_socket d' = has_socket d.
Proof.
  intros Hinv d'. unfold d', OnResponse.
  destruct (callbacks_ d !! id) as [cb|] eqn:Hcb; [right|by left].
  destruct (inv_nonempty _ Hinv _ _ Hcb) as [c ->]. exists c.
  destruct (timers_ d !! id); simpl; split_and!; try done; by apply pending_delete.
Qed.

Lemma dstep_inv d e d' : delegate_inv d -> dstep d e = Ret d' -> delegate_inv d'.
Proof.
  intros Hinv. destruct e; simpl.
  - intros [= <-]. destruct Hinv. by split.
  - by apply DelegateRequest_inv.
  - intros [= <-]. by apply OnResponse_inv.
  - intros [= <-]. unfold OnTimer. destruct (live_timers d !! t) as [[id k]|]; [|done].
    by apply OnResponse_inv.
  - intros [= <-]. unfold OnRequest. destruct (rkind_of kind); [|done]. destruct Hinv. by split.
  - intros [= <-]. unfold Reply. simpl. destruct (has_socket d); [|done]. destruct Hinv. by split.
Qed.

Lemma drun_inv es : forall d d', delegate_inv d -> drun d es = Ret d' -> delegate_inv d'.
Proof.
  induction es as [|e es IH]; intros d d' Hinv; simpl; [by intros [= <-]|].
  intros (d1 & H1 & H2)%outcome_bind_inv. eauto using dstep_inv.
Qed.

(** ** Destruction *)

Lemma map_iter_perm {A} (m : gmap Z A) : map_iter m ≡ₚ map_to_list m.
Proof. apply merge_sort_Permutation. Qed.

Lemma reset_all_spec cbs : forall d,
  Forall (fun x => is_Some x.2) cbs ->
  exists d', reset_all cbs d = Ret d' /\
    fired d' = fired d ++ ((fun c => mkInvocation c CONNECTION_RESET None None) <$> omap snd cbs) /\
    accepted d' = accepted d /\ timers_ d' = timers_ d /\ live_timers d' = live_timers d.
Proof.
  induction cbs as [|[id cb] cbs IH]; intros d Hs; simpl.
  - exists d. by rewrite app_nil_r.
  - apply Forall_cons in Hs as [[c Hc] Hs]. simpl in Hc. subst cb.
    destruct (IH (invoke d (mkInvocation c CONNECTION_RESET None None)) Hs) as (d' & -> & Hf & Hr).
    exists d'. split; [done|]. rewrite Hf. simpl. rewrite <- app_assoc. by destruct Hr as (-> & -> & ->).
Qed.

Lemma clear_all_fields l : forall d,
  let d' := foldl (fun d (it : Z * nat) => ClearTimeout d it.2) d l in
  callbacks_ d' = callbacks_ d /\ fired d' = fired d /\ accepted d' = accepted d /\
  timers_ d' = timers_ d /\
  (forall t, live_timers d' !! t = if decide (t ∈ l.*2) then None else live_timers d !! t).
Proof.
  induction l as [|[i t0] l IH]; intros d; simpl.
  - split_and!; done.
  - destruct (IH (ClearTimeout d t0)) as (-> & -> & -> & -> & Hl). split_and!; [done..|].
    intros t. rewrite Hl. simpl. rewrite lookup_delete.
    repeat case_decide; set_solver.
Qed.

Lemma Destroy_spec d :
  delegate_inv d ->
  exists d', Destroy d = Ret d' /\
    accepted d' ≡ₚ inv_closure <$> fired d' /\
    callbacks_ d' = ∅ /\ timers_ d' = ∅ /\ live_timers d' = ∅.
Proof.
  intros [Hdom Hlive Hnext Hne Honce]. unfold Destroy.
  destruct (clear_all_fields (map_iter (timers_ d)) d) as (Hcb & Hf & Ha & _ & Hl).
  set (d1 := foldl _ _ _) in *.
  destruct (reset_all_spec (map_iter (callbacks_ (set_timers d1 ∅))) (set_timers d1 ∅))
    as (d2 & Hd2 & Hf2 & Ha2 & Ht2 & Hl2).
  { simpl. rewrite Hcb. rewrite map_iter_perm. apply Forall_forall.
    intros [id cb] Hin%elem_of_map_to_list. by apply (Hne id). }
  rewrite Hd2. eexists. split; [done|]. simpl in *. split_and!; [|done|done|].
  - rewrite Ha2, Hf2, Ha, Hf, Honce, fmap_app, <- list_fmap_compose. f_equiv.
    unfold pending. rewrite Hcb, map_iter_perm. simpl. by rewrite list_fmap_id.
  - rewrite Hl2. apply map_empty. intros t. rewrite Hl. case_decide as Hin; [done|].
    destruct (live_timers d !! t) as [[id k]|] eqn:Ht; [|done]. exfalso. apply Hin.
    assert (timers_ d !! id = Some t) as Hid by (apply Hlive; eauto).
    rewrite map_iter_perm. apply list_elem_of_fmap. exists (id, t).
    split; [done|]. by apply elem_of_map_to_list.
Qed.

(** * Properties *)

(** What a closure is told, from the events that come after its request alone:
    the first response with the id of the request, or the expiry of the timer of
    the request, whichever comes first; the reset when neither comes. *)
Fixpoint first_answer (id : Z) (t : nat) (c : C) (es : list DEvent) : Invocation :=
  match es with
  | [] => mkInvocation c CONNECTION_RESET None None
  | EvResponse id' code body :: es' =>
      if decide (id' = id)
      then if decide (code = OK) then mkInvocation c OK None body
           else mkInvocation c code body None
      else first_answer id t c es'
  | EvTimer t' :: es' =>
      if decide (t' = t) then mkInvocation c TIMEOUT None None else first_answer id t c es'
  | _ :: es' => first_answer id t c es'
  end.

(** The answers of a whole history: one for every request made while there is a
    socket; the [n]-th such request has the [n]-th timer. *)
Fixpoint history_answers (connected : bool) (n : nat) (es : list DEvent) : list Invocation :=
  match es with
  | [] => []
  | EvSocket b :: es' => history_answers b n es'
  | EvRequest id _ _ c :: es' =>
      if connected then first_answer id n c es' :: history_answers connected (S n) es'
      else history_answers connected n es'
  | _ :: es' => history_answers connected n es'
  end.

(** The answer a pending request will get. *)
Definition answer_of (d : Delegate) (es : list DEvent) (p : Z * option C) : option Invocation :=
  match p.2, timers_ d !! p.1 with
  | Some c, Some t => Some (first_answer p.1 t c es)
  | _, _ => None
  end.

Definition pending_answers (d : Delegate) (es : list DEvent) : list Invocation :=
  omap (answer_of d es) (map_to_list (callbacks_ d)).

Lemma pending_answers_ext d d' es es' :
  callbacks_ d = callbacks_ d' ->
  (forall p, p ∈ map_to_list (callbacks_ d) -> answer_of d es p = answer_of d' es' p) ->
  pending_answers d es = pending_answers d' es'.
Proof. intros Hc H. unfold pending_answers. rewrite <- Hc. by apply omap_ext_elem. Qed.

Lemma answer_of_pending d es id cb :
  delegate_inv d -> (id, cb) ∈ map_to_list (callbacks_ d) ->
  exists c t, cb = Some c /\ timers_ d !! id = Some t /\
    answer_of d es (id, cb) = Some (first_answer id t c es).
Proof.
  intros Hinv Hin%elem_of_map_to_list.
  destruct (inv_nonempty _ Hinv _ _ Hin) as [c ->].
  assert (is_Some (timers_ d !! id)) as [t Ht].
  { apply elem_of_dom. rewrite <- (inv_dom _ Hinv). apply elem_of_dom. eauto. }
  exists c, t. unfold answer_of. simpl. by rewrite Ht.
Qed.

(** An answer that reaches a pending request: its closure is called with what
    [first_answer] says, and the answers of the other requests stay. *)
Lemma OnResponse_answers d e es id code body :
  delegate_inv d ->
  (forall id' t c, timers_ d !! id' = Some t -> id' <> id ->
     first_answer id' t c (e :: es) = first_answer id' t c es) ->
  (forall t c, timers_ d !! id = Some t -> first_answer id t c (e :: es) =
     mkInvocation c code (if decide (code = OK) then None else body)
                         (if decide (code = OK) then body else None)) ->
  fired d ++ pending_answers d (e :: es) ≡ₚ
  fired (OnResponse d id code body) ++ pending_answers (OnResponse d id code body) es.
Proof.
  intros Hinv Hother Hself. unfold OnResponse.
  destruct (callbacks_ d !! id) as [cb|] eqn:Hcb.
  - assert (Hin : (id, cb) ∈ map_to_list (callbacks_ d)) by (by apply elem_of_map_to_list).
    destruct (answer_of_pending d (e :: es) _ _ Hinv Hin) as (c & t & -> & Ht & Ha).
    rewrite Ht. simpl. rewrite <- app_assoc. f_equiv.
    unfold pending_answers. simpl. rewrite <- (map_to_list_delete _ _ _ Hcb). simpl.
    rewrite Ha. simpl. f_equiv; [by apply Hself|].
    apply reflexive_eq, omap_ext_elem. intros [id' cb'] Hin'%elem_of_map_to_list.
    apply lookup_delete_Some in Hin' as [Hne Hin'].
    apply elem_of_map_to_list in Hin'.
    destruct (answer_of_pending d (e :: es) _ _ Hinv Hin') as (c' & t' & -> & Ht' & ->).
    rewrite (Hother _ _ _ Ht') by done.
    unfold answer_of. simpl. by rewrite lookup_delete_ne, Ht' by done.
  - f_equiv. apply reflexive_eq, pending_answers_ext; [done|].
    intros [id' cb'] Hin'. pose proof Hin' as Hl%elem_of_map_to_list.
    destruct (answer_of_pending d (e :: es) _ _ Hinv Hin') as (c' & t' & -> & Ht' & ->).
    rewrite (Hother _ _ _ Ht') by congruence. unfold answer_of. simpl. by rewrite Ht'.
Qed.

Lemma OnTimer_answers d t es :
  delegate_inv d ->
  fired d ++ pending_answers d (EvTimer t :: es) ≡ₚ
  fired (OnTimer d t) ++ pending_answers (OnTimer d t) es.
Proof.
  intros Hinv. unfold OnTimer. destruct (live_timers d !! t) as [[id k]|] eqn:Hl.
  - assert (timers_ d !! id = Some t) as Ht by (apply (inv_timer_live _ Hinv); eauto).
    apply OnResponse_answers; [done| |].
    + intros id' t' c Ht' Hne. simpl. case_decide; [|done]. subst t'.
      apply (inv_timer_live _ Hinv) in Ht' as [k' Hk']. congruence.
    + intros t' c Ht'. simpl. rewrite decide_True by congruence. done.
  - f_equiv. apply reflexive_eq, pending_answers_ext; [done|].
    intros [id' cb'] Hin'.
    destruct (answer_of_pending d (EvTimer t :: es) _ _ Hinv Hin') as (c' & t' & -> & Ht' & ->).
    unfold answer_of. simpl. rewrite Ht'. case_decide; [|done]. subst t'.
    apply (inv_timer_live _ Hinv) in Ht' as [k' Hk']. congruence.
Qed.

Lemma OnResponse_keeps d id code body :
  has_socket (OnResponse d id code body) = has_socket d /\
  next_timer (OnResponse d id code body) = next_timer d.
Proof.
  unfold OnResponse. destruct (callbacks_ d !! id) as [[c|]|]; [| |done];
    by destruct (timers_ d !! id).
Qed.

Lemma OnTimer_keeps d t :
  has_socket (OnTimer d t) = has_socket d /\ next_timer (OnTimer d t) = next_timer d.
Proof. unfold OnTimer. destruct (live_timers d !! t) as [[]|]; [apply OnResponse_keeps|done]. Qed.

Lemma EvRequest_answers d d' id kind body c es :
  delegate_inv d -> DelegateRequest d id kind body (Some c) = Ret d' ->
  fired d ++ pending_answers d (EvRequest id kind body c :: es) ++
    history_answers (has_socket d) (next_timer d) (EvRequest id kind body c :: es) ≡ₚ
  fired d' ++ pending_answers d' es ++ history_answers (has_socket d') (next_timer d') es.
Proof.
  intros Hinv Hr.
  assert (Hskip : pending_answers d (EvRequest id kind body c :: es) = pending_answers d es) by done.
  rewrite Hskip. revert Hr. unfold DelegateRequest.
  destruct (has_socket d) eqn:Hs; [|intros [= <-]; simpl; by rewrite Hs]. simpl.
  unfold SetCallback, CHECK. simpl.
  destruct (decide (callbacks_ d !! id = None)) as [Hcb|Hcb];
    [rewrite (bool_decide_eq_true_2 _ Hcb) | by rewrite (bool_decide_eq_false_2 _ Hcb)].
  destruct (decide (timers_ d !! id = None)) as [Htm|Htm];
    [rewrite (bool_decide_eq_true_2 _ Htm) | by rewrite (bool_decide_eq_false_2 _ Htm)].
  simpl. intros [= <-]. simpl. f_equiv. rewrite Hs.
  unfold pending_answers at 2. simpl. rewrite map_to_list_insert by done. simpl.
  unfold answer_of at 1. simpl. rewrite lookup_insert_eq. simpl.
  rewrite <- Permutation_middle. f_equiv. f_equiv. apply reflexive_eq, omap_ext_elem.
  intros [id' cb'] Hin'%elem_of_map_to_list. unfold answer_of. simpl.
  rewrite lookup_insert_ne by congruence. done.
Qed.

Lemma dstep_answers d d' e es :
  delegate_inv d -> dstep d e = Ret d' ->
  fired d ++ pending_answers d (e :: es) ++ history_answers (has_socket d) (next_timer d) (e :: es)
  ≡ₚ fired d' ++ pending_answers d' es ++ history_answers (has_socket d') (next_timer d') es.
Proof.
  intros Hinv. destruct e; simpl dstep.
  - by intros [= <-].
  - by apply EvRequest_answers.
  - intros [= <-]. destruct (OnResponse_keeps d id code body) as [-> ->].
    rewrite !app_assoc. apply Permutation_app; [|done]. apply OnResponse_answers; [done| |].
    + intros. simpl. by rewrite decide_False.
    + intros. simpl. rewrite decide_True by done. case_decide; subst; done.
  - intros [= <-]. destruct (OnTimer_keeps d t) as [-> ->]. rewrite !app_assoc.
    apply Permutation_app; [|done]. by apply OnTimer_answers.
  - intros [= <-]. unfold OnRequest. by destruct (rkind_of kind).
  - intros [= <-]. unfold Reply. simpl. destruct (has_socket d) eqn:Hs; simpl; by rewrite ?Hs.
Qed.

(** The destructor answers what is left. *)
Lemma Destroy_answers d d' :
  delegate_inv d -> Destroy d = Ret d' -> fired d' ≡ₚ fired d ++ pending_answers d [].
Proof.
  intros Hinv Hd.
  destruct (clear_all_fields (map_iter (timers_ d)) d) as (Hcb & Hf & _).
  revert Hd. unfold Destroy. set (d1 := foldl _ _ _) in *.
  destruct (reset_all_spec (map_iter (callbacks_ (set_timers d1 ∅))) (set_timers d1 ∅))
    as (d2 & -> & Hf2 & _).
  { simpl. rewrite Hcb, map_iter_perm. apply Forall_forall.
    intros [id cb] Hin%elem_of_map_to_list. by apply (inv_nonempty _ Hinv id). }
  simpl. intros [= <-]. simpl. rewrite Hf2. simpl. rewrite Hf, Hcb, map_iter_perm. f_equiv.
  apply reflexive_eq. rewrite fmap_omap. apply omap_ext_elem. intros [id cb] Hin.
  destruct (answer_of_pending d [] _ _ Hinv Hin) as (c & t & -> & _ & ->). done.
Qed.

Lemma drun_answers es : forall d d1 d',
  delegate_inv d -> drun d es = Ret d1 -> Destroy d1 = Ret d' ->
  fired d' ≡ₚ fired d ++ pending_answers d es ++ history_answers (has_socket d) (next_timer d) es.
Proof.
  induction es as [|e es IH]; intros d d1 d' Hinv; simpl drun.
  - intros [= <-] Hd. simpl. rewrite app_nil_r. by apply Destroy_answers.
  - intros (d2 & H1 & H2)%outcome_bind_inv Hd.
    rewrite (dstep_answers _ _ _ _ Hinv H1). eauto using dstep_inv.
Qed.

(** C3 Exactly once, and with its own answer: over every history of connections,
    requests, responses, timeouts and incoming requests that no CHECK stops (the
    only one is against a request whose id is still pending), and after the
    delegate is destroyed, the calls of closures are, up to their order, one for
    each request made while there was a socket: with the code and the body (as
    the error when the code is not OK) of the first response for its id after the
    request, or with TIMEOUT and nothing when the timer of that request expired
    before, or with CONNECTION_RESET from the destructor when neither happened.
    [history_answers] reads this off the list of events.  No loop timer stays
    open. *)
Theorem closures_called_exactly_once (session : Z) (es : list DEvent) (d : Delegate) :
  drun (delegate_init session) es = Ret d ->
  exists d', Destroy d = Ret d' /\
    fired d' ≡ₚ history_answers false 0 es /\
    accepted d' ≡ₚ inv_closure <$> fired d' /\
    callbacks_ d' = ∅ /\ timers_ d' = ∅ /\ live_timers d' = ∅.
Proof.
  intros H. destruct (Destroy_spec d) as (d' & Hd & Hrest).
  { eapply drun_inv; [apply delegate_init_inv | done]. }
  exists d'. split; [done|]. split; [|done].
  rewrite (drun_answers es _ _ _ (delegate_init_inv session) H Hd). done.
Qed.

(** While the delegate is alive the request ids with a closure are those with
    a timer, each timer of the map is an open loop timer of the same request and
    conversely, and an accepted closure is either already called or still
    pending, never both.  No event can then stop the process, unless a request
    reuses the id of one that is still pending. *)
Theorem delegate_invariant (session : Z) (es : list DEvent) (d : Delegate) :
  drun (delegate_init session) es = Ret d ->
  delegate_inv d /\
  forall e, (forall id kind body cb, e = EvRequest id kind body cb -> callbacks_ d !! id = None) ->
    exists d', dstep d e = Ret d'.
Proof.
  intros H. assert (Hinv : delegate_inv d) by (eapply drun_inv; [apply delegate_init_inv | done]).
  split; [done|]. intros [] He; simpl; eauto.
  destruct (DelegateRequest_fresh d id kind body cb Hinv (He _ _ _ _ eq_refl)) as (d' & -> & _). eauto.
Qed.

(** A response for a pending request calls its closure once with the body as
    the error or as the result according to the code, closes its timer and
    forgets the request; a second response or a timeout for the same id changes
    nothing. *)
Theorem OnResponse_completes (d : Delegate) (id : Z) (code code' : CanonicalCode)
    (body body' : option Message) (c : C) (t : nat) :
  callbacks_ d !! id = Some (Some c) -> timers_ d !! id = Some t ->
  let d' := OnResponse d id code body in
  fired d' = fired d ++ [mkInvocation c code (if decide (code = OK) then None else body)
                                             (if decide (code = OK) then body else None)] /\
  live_timers d' !! t = None /\
  callbacks_ d' = delete id (callbacks_ d) /\ timers_ d' = delete id (timers_ d) /\
  OnResponse d' id code' body' = d' /\ OnTimer d' t = d'.
Proof.
  intros Hc Ht d'.
  assert (Hd : d' = set_callbacks (invoke (set_timers (ClearTimeout d t) (delete id (timers_ d)))
      (mkInvocation c code (if decide (code = OK) then None else body)
                           (if decide (code = OK) then body else None))) (delete id (callbacks_ d))).
  { unfold d', OnResponse. by rewrite Hc, Ht. }
  clearbody d'. subst d'. unfold OnTimer, OnResponse. simpl. by rewrite !lookup_delete_eq.
Qed.

End delegate.

(** Request ids are distinct until the 32-bit sequence wraps: the ids of two
    controllers made [n] apart, with [n] below 2^32, differ. *)
Theorem next_seq_distinct (seq_ : Z) (n : nat) :
  0 <= seq_ < 2 ^ 32 -> (0 < n)%nat -> Z.of_nat n < 2 ^ 32 ->
  (next_seq (Nat.iter n (fun s => (next_seq s).2) seq_)).1 <> (next_seq seq_).1.
Proof.
  intros Hs Hn Hn'. cbn [next_seq fst].
  assert (Hit : forall m, Nat.iter m (fun s => (next_seq s).2) seq_ = u32 (seq_ + Z.of_nat m)).
  { induction m as [|m IH].
    - cbn. rewrite Z.add_0_r. symmetry. by apply wrap_small.
    - rewrite Nat.iter_succ, IH. cbn [next_seq snd]. unfold u32. rewrite wrap_add_l. f_equal. lia. }
  rewrite Hit. unfold u32, wrap. intros He.
  destruct (Z.lt_ge_cases (seq_ + Z.of_nat n) (2 ^ 32)).
  - rewrite Z.mod_small in He by lia. lia.
  - replace (seq_ + Z.of_nat n) with (seq_ + Z.of_nat n - 2 ^ 32 + 1 * 2 ^ 32) in He by lia.
    rewrite Z.mod_add, Z.mod_small in He by lia. lia.
Qed.

(** * Witnesses *)

Definition ex_events : list (@DEvent (MessageType * bytes) nat) :=
  [EvSocket true; EvRequest 1 Fetch (RequestMessage Fetch, []) 10%nat;
   EvRequest 2 StreamOpen (RequestMessage StreamOpen, []) 20%nat;
   EvResponse 2 OK (Some (ResponseMessage StreamOpen, [x01])); EvResponse 2 OK None;
   EvRequest 3 Fetch (RequestMessage Fetch, []) 30%nat; EvTimer 0].

Definition ex_default (ty : MessageType) : MessageType * bytes := (ty, []).

Definition ex_delegate : @Delegate (MessageType * bytes) nat :=
  match drun ex_default (delegate_init 5) ex_events with Ret d => d | Fault _ => delegate_init 0 end.

Lemma closures_called_exactly_once_witness :
  exists d', Destroy ex_delegate = Ret d' /\
    fired d' ≡ₚ history_answers false 0 ex_events /\
    accepted d' ≡ₚ inv_closure <$> fired d' /\
    callbacks_ d' = ∅ /\ timers_ d' = ∅ /\ live_timers d' = ∅.
Proof.
  apply (closures_called_exactly_once ex_default 5 ex_events ex_delegate).
  vm_compute. reflexivity.
Defined.

Lemma delegate_invariant_witness : delegate_inv ex_delegate.
Proof.
  apply (delegate_invariant ex_default 5 ex_events ex_delegate). vm_compute. reflexivity.
Defined.

Lemma OnResponse_completes_witness :
  let d' := OnResponse ex_delegate 3 OK None in
  fired d' = fired ex_delegate ++ [mkInvocation 30%nat OK None None] /\
  live_timers d' !! 2%nat = None /\
  callbacks_ d' = delete 3 (callbacks_ ex_delegate) /\ timers_ d' = delete 3 (timers_ ex_delegate) /\
  OnResponse d' 3 TIMEOUT None = d' /\ OnTimer d' 2 = d'.
Proof.
  apply (OnResponse_completes ex_delegate 3 OK TIMEOUT None None 30%nat 2%nat); vm_compute; reflexivity.
Defined.

Lemma next_seq_distinct_witness :
  (next_seq (Nat.iter 3 (fun s => (next_seq s).2) (2 ^ 32 - 1))).1 <> (next_seq (2 ^ 32 - 1)).1.
Proof. apply (next_seq_distinct (2 ^ 32 - 1) 3); lia. Defined.
