(* ===== verification/IpcServer.v ===== *)
(** * The sockets of the agent and its server

    src/src/ipc/ipc_socket_uv.{h,cc}, the sockets over libuv pipes, with the client's
    side of connecting; src/src/ipc/ipc_socket_server.{h,cc}, the server that accepts
    connections and keeps a session for each; the immediates of src/src/ipc/uv_loop.cc.

    A socket is the framing of IpcSocket.v in memory the loop has a pointer into: [holders]
    and [idles] are the objects not yet deleted, [registered] the handles libuv keeps from
    their initialization to their close callback, [closing] those whose close callback is
    due.  libuv, the peers and the service are the environment: they choose the next event,
    the results of the calls and what the service does in its callbacks.  Of libuv the model
    has what its documentation says: no callback of a handle but the one of uv_close after
    uv_close, the memory of a handle is needed until then, a handle is closed once, the end
    of a stream is read once, pending writes are cancelled before the close callback.

    The theorems: over every history in which libuv's calls succeed nothing touches freed
    memory and no handle is closed twice; each session sees the messages of its own bytes;
    closing the server releases everything; and what a failing call leaves behind. *)

From S2P Require Import Prelude IpcMessage IpcSocket IpcDelegate.

(** The handles of the loop. *)
Inductive handle := HServer | HPipe (h : nat) | HIdle (i : nat).
#[export] Instance handle_eq_dec : EqDecision handle := ltac:(solve_decision).
#[export, refine] Instance handle_countable : Countable handle :=
  inj_countable'
    (fun hd => match hd with HServer => inl () | HPipe h => inr (inl h) | HIdle i => inr (inr i) end)
    (fun x => match x with inl _ => HServer | inr (inl h) => HPipe h | inr (inr i) => HIdle i end) _.
Proof. by intros []. Defined.

Section server.
Context {Message : Type} `{PB : Protobuf Message}.

(** * State *)

(** Whose delegate a socket has: the one of a session of the server, or a client's. *)
Inductive Owner := OServer (session_id : Z) | OClient.

(** [src/src/ipc/ipc_socket_uv.h 9-43, UvSocketHolder] The framing, the pending immediate, the
    delegate, and whether the pipe is reading. *)
Record Holder := mkHolder {
  socket : Socket Message;
  immediate : option nat;
  owner : Owner;
  reading : bool }.

(** [src/src/ipc/uv_loop.cc 7-16, UvIdle] What the callback captured: the socket to read from,
    or the connection that failed. *)
Inductive UvIdle := IRead (h : nat) | IConnectFailed.

(** What the loop delivers and what the services are told: [ServiceClosed] is the server's
    service told of the closing of the server, [SocketClosed] a client's service told of the
    closing of its socket. *)
Inductive Note :=
  | NRead (h : nat) (data : bytes)
  | NIdle (h : nat)
  | NEof (h : nat)
  | Disconnected (session_id : Z)
  | ServiceClosed
  | SocketClosed (h : nat)
  | Connected (h : option nat)
  | WriteLost (data : bytes).

(** [src/src/ipc/ipc_socket_server.h 69-75, NoslatedSocketServer] A session is the socket it
    owns; [deleted] after [delete server]. *)
Record Server := mkServer {
  connected_sessions_ : gmap Z nat;
  next_session_id_ : Z;
  deleted : bool }.

(** [clients] are the sockets clients own, [connects] those still connecting; [writes] the
    pending write requests with their socket and buffer. *)
Record St := mkSt {
  holders : gmap nat Holder;
  idles : gmap nat UvIdle;
  next : nat;
  registered : gset handle;
  closing : gset handle;
  unreffed : gset handle;
  server : Server;
  clients : gset nat;
  connects : gset nat;
  writes : gmap nat (nat * bytes);
  log : list Note }.

Definition St_init : St := mkSt ∅ ∅ 0 ∅ ∅ ∅ (mkServer ∅ 0 false) ∅ ∅ ∅ [].

Definition set_holders (s : St) (m : gmap nat Holder) : St :=
  mkSt m (idles s) (next s) (registered s) (closing s) (unreffed s) (server s) (clients s) (connects s) (writes s) (log s).
Definition set_idles (s : St) (m : gmap nat UvIdle) : St :=
  mkSt (holders s) m (next s) (registered s) (closing s) (unreffed s) (server s) (clients s) (connects s) (writes s) (log s).
Definition set_handles (s : St) (r c : gset handle) : St :=
  mkSt (holders s) (idles s) (next s) r c (unreffed s) (server s) (clients s) (connects s) (writes s) (log s).
Definition set_unreffed (s : St) (u : gset handle) : St :=
  mkSt (holders s) (idles s) (next s) (registered s) (closing s) u (server s) (clients s) (connects s) (writes s) (log s).
Definition set_server (s : St) (v : Server) : St :=
  mkSt (holders s) (idles s) (next s) (registered s) (closing s) (unreffed s) v (clients s) (connects s) (writes s) (log s).
Definition set_clients (s : St) (own conn : gset nat) : St :=
  mkSt (holders s) (idles s) (next s) (registered s) (closing s) (unreffed s) (server s) own conn (writes s) (log s).
Definition set_writes (s : St) (m : gmap nat (nat * bytes)) : St :=
  mkSt (holders s) (idles s) (next s) (registered s) (closing s) (unreffed s) (server s) (clients s) (connects s) m (log s).
Definition note (s : St) (e : Note) : St :=
  mkSt (holders s) (idles s) (next s) (registered s) (closing s) (unreffed s) (server s) (clients s) (connects s) (writes s)
    (log s ++ [e]).

(** A new object. *)
Definition fresh (s : St) : nat * St :=
  (next s, mkSt (holders s) (idles s) (S (next s)) (registered s) (closing s) (unreffed s) (server s) (clients s)
             (connects s) (writes s) (log s)).

Definition sessions (s : St) : gmap Z nat := connected_sessions_ (server s).
Definition set_sessions (s : St) (m : gmap Z nat) : St :=
  set_server s (mkServer m (next_session_id_ (server s)) (deleted (server s))).

(** * libuv *)

(** Whether the memory of a handle is still there. *)
Definition allocated (s : St) (hd : handle) : bool :=
  match hd with
  | HServer => negb (deleted (server s))
  | HPipe h => bool_decide (is_Some (holders s !! h))
  | HIdle i => bool_decide (is_Some (idles s !! i))
  end.

(** uv_pipe_init and uv_idle_init link the handle with the others of the loop. *)
Definition uv_handle_init (s : St) (hd : handle) : outcome St :=
  if forallb (allocated s) (elements (registered s))
  then Ret (set_handles s ({[hd]} ∪ registered s) (closing s))
  else Fault UseAfterFree.

(** uv_close asserts that the handle is not closing. *)
Definition uv_close (s : St) (hd : handle) : outcome St :=
  if negb (allocated s hd) then Fault UseAfterFree
  else
    CHECK (bool_decide (hd ∈ registered s /\ hd ∉ closing s)) ;;
    Ret (set_handles s (registered s) ({[hd]} ∪ closing s)).

(** Whether libuv may call a callback of the handle other than the close callback. *)
Definition active (s : St) (hd : handle) : bool := bool_decide (hd ∈ registered s /\ hd ∉ closing s).

(** * Immediates *)

(** [src/src/ipc/uv_loop.cc 29-36, UvLoop::SetImmediate] *)
Definition SetImmediate (s : St) (cb : UvIdle) : outcome (nat * St) :=
  let '(i, s) := fresh s in
  s ← uv_handle_init (set_idles s (<[i := cb]> (idles s))) (HIdle i);
  Ret (i, s).

(** [src/src/ipc/uv_loop.cc 38-41, UvLoop::ClearImmediate] *)
Definition ClearImmediate (s : St) (i : nat) : outcome St := uv_close s (HIdle i).

(** * UvSocketHolder *)

(** [src/src/ipc/ipc_socket_uv.cc 163-167, UvSocketHolder::DisconnectAndDispose] The virtual
    call through the deleter of the pointer, with [SocketHolder::DisconnectAndDispose],
    ipc_socket.cc 178-183. *)
Definition Dispose (s : St) (h : nat) : outcome St :=
  match holders s !! h with
  | None => Fault UseAfterFree
  | Some x =>
      s ← match immediate x with Some i => ClearImmediate s i | None => Ret s end;
      let s := set_holders s (<[h := mkHolder (DisconnectAndDispose (socket x)) None (owner x) (reading x)]> (holders s)) in
      uv_close s (HPipe h)
  end.

(** [delete holder] *)
Definition delete_holder (s : St) (h : nat) : St := set_holders s (delete h (holders s)).

(** [src/src/ipc/ipc_socket_server.cc 120-123, ServerDelegate::OnClosed] What the delegate of a
    closed socket does: that of a session nothing, that of a client tells its service,
    ipc_delegate_impl.cc 109-111. *)
Definition delegate_OnClosed (s : St) (h : nat) (x : Holder) : St :=
  match owner x with OServer _ => s | OClient => note s (SocketClosed h) end.

(** [src/src/ipc/ipc_socket_uv.cc 127-132, UvSocketHolder::OnClosed] The close callback; libuv
    has called [WriteCb], lines 117-125, for the pending writes before. *)
Definition OnClosed (s : St) (h : nat) : outcome St :=
  match holders s !! h with
  | None => Fault UseAfterFree
  | Some x =>
      let s := set_writes s (filter (fun w => w.2.1 <> h) (writes s)) in
      Ret (delete_holder (delegate_OnClosed s h x) h)
  end.

(** [src/src/ipc/ipc_socket_uv.cc 117-125, UvSocketHolder::WriteCb] The request and its data are
    deleted. *)
Definition UvWriteCb (s : St) (w : nat) : St := set_writes s (delete w (writes s)).

(** [src/src/ipc/ipc_socket_uv.cc 150-161, UvSocketHolder::Write] Called by
    [SocketHolder::Write]; when uv_write fails nothing deletes the request and its data. *)
Definition UvWrite (s : St) (h : nat) (f : Frame Message) (ok : bool) : outcome St :=
  match holders s !! h with
  | None => Fault UseAfterFree
  | Some x =>
      let s := set_holders s (<[h := mkHolder (Write (socket x) f) (immediate x) (owner x) (reading x)]> (holders s)) in
      if ok then
        let '(w, s) := fresh s in
        Ret (set_writes s (<[w := (h, frame_bytes f)]> (writes s)))
      else Ret (note s (WriteLost (frame_bytes f)))
  end.

(** How accepting a connection ends. *)
Inductive accept_result := AcceptOk | InitFailed | AcceptFailed | ReadFailed.

(** [src/src/ipc/ipc_socket_uv.cc 41-59, UvSocketHolder::Accept] *)
Definition HolderAccept (s : St) (own : Owner) (r : accept_result) : outcome (option nat * St) :=
  let '(h, s) := fresh s in
  let s := set_holders s (<[h := mkHolder socket_init None own false]> (holders s)) in
  match r with
  | InitFailed => Ret (None, delete_holder s h)
  | AcceptFailed | ReadFailed =>
      s ← uv_handle_init s (HPipe h);
      Ret (None, delete_holder s h)
  | AcceptOk =>
      s ← uv_handle_init s (HPipe h);
      Ret (Some h, set_holders s (<[h := mkHolder socket_init None own true]> (holders s)))
  end.

(** [src/src/ipc/ipc_socket_uv.cc 61-79, UvSocketHolder::Connect] *)
Definition UvConnect (s : St) (init_ok : bool) : outcome St :=
  let '(h, s) := fresh s in
  let s := set_holders s (<[h := mkHolder socket_init None OClient false]> (holders s)) in
  if init_ok then
    s ← uv_handle_init s (HPipe h);
    Ret (set_clients s (clients s) ({[h]} ∪ connects s))
  else
    '(i, s) ← SetImmediate s IConnectFailed;
    Ret (delete_holder s h).

(** [src/src/ipc/ipc_socket_uv.cc 81-95, UvSocketHolder::OnConnectCb] [read_ok] is the result of
    uv_read_start, which fails when the pipe is not connected; the status is not looked at. *)
Definition OnConnectCb (s : St) (h : nat) (read_ok : bool) : outcome St :=
  match holders s !! h with
  | None => Fault UseAfterFree
  | Some x =>
      let s := set_clients s (clients s) (connects s ∖ {[h]}) in
      if read_ok then
        let s := set_holders s (<[h := mkHolder (socket x) (immediate x) (owner x) true]> (holders s)) in
        Ret (note (set_clients s ({[h]} ∪ clients s) (connects s)) (Connected (Some h)))
      else Ret (note (delete_holder s h) (Connected None))
  end.

(** * NoslatedSocketServer *)

(** [src/src/ipc/ipc_socket_server.cc 29-57, NoslatedSocketServer::Initialize] The calls that
    can fail abort the process. *)
Definition Initialize (s : St) (init_ok bind_ok listen_ok : bool) : outcome St :=
  CHECK init_ok ;;
  s ← uv_handle_init s HServer;
  CHECK bind_ok ;;
  CHECK listen_ok ;;
  Ret s.

(** [src/src/ipc/ipc_socket_server.h 48-53, NoslatedSocketServer::CloseSession] Erasing the
    session destroys it and its pointer to the socket. *)
Definition CloseSession (s : St) (session_id : Z) : outcome St :=
  if deleted (server s) then Fault UseAfterFree
  else
    match sessions s !! session_id with
    | None => Ret s
    | Some h => Dispose (set_sessions s (delete session_id (sessions s))) h
    end.

Fixpoint close_sessions (s : St) (l : list Z) : outcome St :=
  match l with [] => Ret s | session_id :: l => s ← CloseSession s session_id; close_sessions s l end.

(** [src/src/ipc/ipc_socket_server.cc 59-65, NoslatedSocketServer::Close] *)
Definition Close (s : St) : outcome St :=
  if deleted (server s) then Fault UseAfterFree
  else
    s ← close_sessions s (map fst (map_iter (sessions s)));
    uv_close s HServer.

(** [src/src/ipc/ipc_socket_server.cc 87-101, NoslatedSocketServer::Accept] A session that had
    the number is replaced and destroyed. *)
Definition Accept (s : St) (r : accept_result) : outcome St :=
  let id := next_session_id_ (server s) in
  let s := set_server s (mkServer (sessions s) (u32 (id + 1)) (deleted (server s))) in
  '(sock, s) ← HolderAccept s (OServer id) r;
  match sock with
  | None => Ret s
  | Some h =>
      let old := sessions s !! id in
      let s := set_sessions s (<[id := h]> (sessions s)) in
      match old with Some h0 => Dispose s h0 | None => Ret s end
  end.

(** [src/src/ipc/ipc_socket_server.cc 103-108, NoslatedSocketServer::ListenCallback] *)
Definition ListenCallback (s : St) (status : Z) (r : accept_result) : outcome St :=
  CHECK (status =? 0) ;; Accept s r.

(** [src/src/ipc/ipc_socket_server.cc 79-85, NoslatedSocketServer::Ref] With [Unref], and those
    of a socket, ipc_socket_uv.cc 138-148. *)
Definition UvRef (s : St) (hd : handle) (on : bool) : St :=
  set_unreffed s (if on then unreffed s ∖ {[hd]} else {[hd]} ∪ unreffed s).

(** [src/src/ipc/ipc_socket_server.cc 114-118, ServerDelegate::OnFinished] The delegate of a
    client tells its service. *)
Definition OnFinished (s : St) (own : Owner) : outcome St :=
  match own with
  | OServer session_id => s ← CloseSession s session_id; Ret (note s (Disconnected session_id))
  | OClient => Ret (note s (Disconnected 0))
  end.

(** [src/src/ipc/ipc_socket_server.h 91-96, ServerDelegate::socket] *)
Definition delegate_socket (s : St) (session_id : Z) : outcome (option nat) :=
  if deleted (server s) then Fault UseAfterFree else Ret (sessions s !! session_id).

(** * The environment *)

(** What the service does, in its callbacks or by itself.  [AWrite]: the delegate of socket
    [h], which lives as long as the socket, answers a request or sends one. *)
Inductive action :=
  | ACloseSession (session_id : Z)
  | AClose
  | AWrite (h : nat) (f : Frame Message) (ok : bool)
  | AConnect (init_ok : bool)
  | ADispose (h : nat)
  | ARef (hd : handle) (on : bool).

(** The owner of the server closes it while it listens, and uses it until it is deleted; a
    client's pointer is reset once. *)
Definition act_step (s : St) (a : action) : outcome St :=
  match a with
  | ACloseSession id => if deleted (server s) then Ret s else CloseSession s id
  | AClose => if active s HServer then Close s else Ret s
  | AWrite h f ok =>
      match holders s !! h with
      | None => Ret s
      | Some x =>
          match owner x with
          | OClient => Ret s
          | OServer id =>
              sock ← delegate_socket s id;
              match sock with Some h' => UvWrite s h' f ok | None => Ret s end
          end
      end
  | AConnect ok => UvConnect s ok
  | ADispose h =>
      if bool_decide (h ∈ clients s) then Dispose (set_clients s (clients s ∖ {[h]}) (connects s)) h else Ret s
  | ARef hd on => Ret (if active s hd then UvRef s hd on else s)
  end.

Fixpoint acts (s : St) (l : list action) : outcome St :=
  match l with [] => Ret s | a :: l => s ← act_step s a; acts s l end.

(** [src/src/ipc/ipc_socket_uv.cc 97-115, UvSocketHolder::OnDataReceivedCb] With bytes:
    [SocketHolder::OnFrame] and [SetReadable], ipc_socket.cc 160-164 and 207-216. *)
Definition OnData (s : St) (h : nat) (x : Holder) (data : bytes) : outcome St :=
  let s := note s (NRead h data) in
  '(i, s) ← match immediate x with Some i => Ret (i, s) | None => SetImmediate s (IRead h) end;
  Ret (set_holders s (<[h := mkHolder (OnFrame (socket x) data) (Some i) (owner x) (reading x)]> (holders s))).

(** [src/src/ipc/ipc_socket_uv.cc 97-115, UvSocketHolder::OnDataReceivedCb] The last callback of
    a stream: [SocketHolder::OnEoF], ipc_socket.cc 166-176; the service does [l] when a message
    is dispatched.  A decoding error is the end of it. *)
Definition OnEof (s : St) (h : nat) (x : Holder) (l : list action) : outcome St :=
  sock ← OnEoF (socket x);
  let s := note (set_holders s (<[h := mkHolder sock (immediate x) (owner x) false]> (holders s))) (NEof h) in
  match (Decode (decoder_ (socket x))).2 with
  | DecodingStateError => Ret s
  | DecodingStateOk => s ← acts s l; OnFinished s (owner x)
  | DecodingStateMore => OnFinished s (owner x)
  end.

(** [src/src/ipc/uv_loop.cc 56-60, UvIdle::IdleCb] With the callbacks: the lambda of
    [SocketHolder::SetReadable], ipc_socket.cc 211-215, where the service does [l] as messages are
    dispatched, and the one of [UvSocketHolder::Connect], ipc_socket_uv.cc 69-72. *)
Definition UvIdleCb (s : St) (i : nat) (cb : UvIdle) (l : list action) : outcome St :=
  match cb with
  | IConnectFailed => s ← ClearImmediate s i; acts (note s (Connected None)) l
  | IRead h =>
      match holders s !! h with
      | None => Fault UseAfterFree
      | Some x =>
          s ← ClearImmediate s i;
          r ← ReadImmediate (socket x);
          match r with
          | None => Fault OutOfFuel
          | Some sock =>
              acts (note (set_holders s (<[h := mkHolder sock None (owner x) (reading x)]> (holders s))) (NIdle h)) l
          end
      end
  end.

(** [src/src/ipc/ipc_socket_server.cc 20-27, NoslatedSocketServer::NoslatedSocketServerCloseCallback]
    The service does [l] when it is told. *)
Definition CloseCallback (s : St) (l : list action) : outcome St :=
  if deleted (server s) then Fault UseAfterFree
  else
    s ← acts (note s ServiceClosed) l;
    Ret (set_server s (mkServer (sessions s) (next_session_id_ (server s)) true)).

(** [src/src/ipc/uv_loop.cc 62-66, UvIdle::CloseCb] *)
Definition idle_CloseCb (s : St) (i : nat) : outcome St :=
  match idles s !! i with
  | None => Fault UseAfterFree
  | Some _ => Ret (set_idles s (delete i (idles s)))
  end.

(** An event of the loop; one that libuv would not deliver does nothing. *)
Inductive step :=
  | SInit (init_ok bind_ok listen_ok : bool)
  | SConnection (status : Z) (r : accept_result)
  | SData (h : nat) (data : bytes)
  | SEof (h : nat) (l : list action)
  | SIdle (i : nat) (l : list action)
  | SWritten (w : nat)
  | SConnected (h : nat) (read_ok : bool) (l : list action)
  | SClosed (hd : handle) (l : list action)
  | SAct (a : action).

(** The close callback of a handle.  Deleting a socket deletes its delegate, which calls
    closures of the service. *)
Definition closed (s : St) (hd : handle) (l : list action) : outcome St :=
  let s := set_handles s (registered s ∖ {[hd]}) (closing s ∖ {[hd]}) in
  match hd with
  | HServer => CloseCallback s l
  | HPipe h => s ← OnClosed s h; acts s l
  | HIdle i => idle_CloseCb s i
  end.

Definition run_step (s : St) (x : step) : outcome St :=
  match x with
  | SInit a b c => if bool_decide (HServer ∈ registered s) || deleted (server s) then Ret s else Initialize s a b c
  | SConnection status r => if active s HServer then ListenCallback s status r else Ret s
  | SData h data =>
      if active s (HPipe h) then
        match holders s !! h with
        | Some x => if reading x then OnData s h x data else Ret s
        | None => Fault UseAfterFree
        end
      else Ret s
  | SEof h l =>
      if active s (HPipe h) then
        match holders s !! h with
        | Some x => if reading x then OnEof s h x l else Ret s
        | None => Fault UseAfterFree
        end
      else Ret s
  | SIdle i l =>
      if active s (HIdle i) then
        match idles s !! i with
        | Some cb => UvIdleCb s i cb l
        | None => Fault UseAfterFree
        end
      else Ret s
  | SWritten w => Ret (UvWriteCb s w)
  | SConnected h ok l =>
      if bool_decide (h ∈ connects s) then s ← OnConnectCb s h ok; acts s l else Ret s
  | SClosed hd l => if bool_decide (hd ∈ closing s) then closed s hd l else Ret s
  | SAct a => act_step s a
  end.

Fixpoint run (s : St) (xs : list step) : outcome St :=
  match xs with [] => Ret s | x :: xs => s ← run_step s x; run s xs end.

(** ** The loop *)

(** Whether a handle keeps the loop alive: it is referenced and has something to do. *)
Definition keeps_alive (s : St) (hd : handle) : bool :=
  negb (bool_decide (hd ∈ unreffed s)) &&
  match hd with
  | HServer | HIdle _ => true
  | HPipe h => match holders s !! h with Some x => reading x | None => false end
  end.

(** uv_loop_alive: handles that keep it alive, requests, handles to close. *)
Definition uv_loop_alive (s : St) : bool :=
  existsb (fun hd => active s hd && keeps_alive s hd) (elements (registered s)) ||
  negb (bool_decide (writes s = ∅)) || negb (bool_decide (connects s = ∅)) || negb (bool_decide (closing s = ∅)).

(** [src/src/ipc/ipc_socket_server.cc 67-77, NoslatedSocketServer::Run] The events of each
    uv_run are given; [None] while the loop is alive after the last of them. *)
Fixpoint ServerRun (s : St) (turns : list (list step)) : outcome (option (Z * St)) :=
  match turns with
  | [] => Ret None
  | turn :: turns =>
      s ← run s turn;
      if uv_loop_alive s then ServerRun s turns else Ret (Some (0, s))
  end.

(** * Transitions

    What the events do, one object at a time. *)

Definition neutral (e : Note) : Prop :=
  match e with NRead _ _ | NIdle _ | NEof _ => False | _ => True end.

Definition add_holder (s : St) (x : Holder) : St :=
  mkSt (<[next s := x]> (holders s)) (idles s) (S (next s)) ({[HPipe (next s)]} ∪ registered s) (closing s) (unreffed s)
    (server s) (clients s) (connects s) (writes s) (log s).

Definition add_idle (s : St) (cb : UvIdle) : St :=
  mkSt (holders s) (<[next s := cb]> (idles s)) (S (next s)) ({[HIdle (next s)]} ∪ registered s) (closing s) (unreffed s)
    (server s) (clients s) (connects s) (writes s) (log s).

Definition skip_next (s : St) : St := (fresh s).2.

Definition disposed (s : St) (h : nat) (x : Holder) : St :=
  set_handles
    (set_holders s (<[h := mkHolder (DisconnectAndDispose (socket x)) None (owner x) (reading x)]> (holders s)))
    (registered s)
    ({[HPipe h]} ∪ match immediate x with Some i => {[HIdle i]} ∪ closing s | None => closing s end).

Definition forget (s : St) (hd : handle) : St := set_handles s (registered s ∖ {[hd]}) (closing s ∖ {[hd]}).

Definition bump_session (s : St) : St :=
  set_server s (mkServer (sessions s) (u32 (next_session_id_ (server s) + 1)) (deleted (server s))).

Inductive tr (s : St) : St -> Prop :=
  | TNote e : neutral e -> tr s (note s e)
  | TRef u : tr s (set_unreffed s u)
  | TSkip : tr s (skip_next s)
  | TBump : tr s (bump_session s)
  | TInit : HServer ∉ registered s -> deleted (server s) = false ->
      tr s (set_handles s ({[HServer]} ∪ registered s) (closing s))
  | TAccept id : active s HServer = true -> sessions s !! id = None ->
      tr s (set_sessions (add_holder s (mkHolder socket_init None (OServer id) true)) (<[id := next s]> (sessions s)))
  | TSession id h x : sessions s !! id = Some h -> holders s !! h = Some x ->
      tr s (disposed (set_sessions s (delete id (sessions s))) h x)
  | TConnect : tr s (set_clients (add_holder s (mkHolder socket_init None OClient false)) (clients s) ({[next s]} ∪ connects s))
  | TConnectFailed : tr s (add_idle s IConnectFailed)
  | TConnected h x : h ∈ connects s -> holders s !! h = Some x ->
      tr s (set_clients (set_holders s (<[h := mkHolder (socket x) (immediate x) (owner x) true]> (holders s)))
              ({[h]} ∪ clients s) (connects s ∖ {[h]}))
  | TClient h x : h ∈ clients s -> holders s !! h = Some x ->
      tr s (disposed (set_clients s (clients s ∖ {[h]}) (connects s)) h x)
  | TWrite h x f : holders s !! h = Some x ->
      tr s (set_writes (skip_next (set_holders s
              (<[h := mkHolder (Write (socket x) f) (immediate x) (owner x) (reading x)]> (holders s))))
              (<[next s := (h, frame_bytes f)]> (writes s)))
  | TWriteLost h x f : holders s !! h = Some x ->
      tr s (note (set_holders s
              (<[h := mkHolder (Write (socket x) f) (immediate x) (owner x) (reading x)]> (holders s)))
              (WriteLost (frame_bytes f)))
  | TWritten w : tr s (UvWriteCb s w)
  | TData h x data i : holders s !! h = Some x -> HPipe h ∉ closing s -> immediate x = Some i ->
      tr s (note (set_holders s (<[h := mkHolder (OnFrame (socket x) data) (Some i) (owner x) (reading x)]> (holders s)))
              (NRead h data))
  | TDataIdle h x data : holders s !! h = Some x -> HPipe h ∉ closing s -> immediate x = None ->
      tr s (note (set_holders (add_idle s (IRead h))
              (<[h := mkHolder (OnFrame (socket x) data) (Some (next s)) (owner x) (reading x)]> (holders s)))
              (NRead h data))
  | TEof h x sock : holders s !! h = Some x -> HPipe h ∉ closing s -> OnEoF (socket x) = Ret sock ->
      tr s (note (set_holders s (<[h := mkHolder sock (immediate x) (owner x) false]> (holders s))) (NEof h))
  | TIdle i h x sock : idles s !! i = Some (IRead h) -> HIdle i ∉ closing s -> holders s !! h = Some x ->
      ReadImmediate (socket x) = Ret (Some sock) ->
      tr s (note (set_handles (set_holders s (<[h := mkHolder sock None (owner x) (reading x)]> (holders s)))
              (registered s) ({[HIdle i]} ∪ closing s)) (NIdle h))
  | TIdleConnect i : idles s !! i = Some IConnectFailed -> HIdle i ∉ closing s ->
      tr s (set_handles s (registered s) ({[HIdle i]} ∪ closing s))
  | TServerClosing : active s HServer = true -> sessions s = ∅ ->
      tr s (set_handles s (registered s) ({[HServer]} ∪ closing s))
  | TServerForgotten : HServer ∈ closing s -> tr s (forget s HServer)
  | TServerDeleted : HServer ∉ registered s ->
      tr s (set_server s (mkServer (sessions s) (next_session_id_ (server s)) true))
  | THolderDeleted h : HPipe h ∈ closing s ->
      tr s (delete_holder (set_writes (forget s (HPipe h)) (filter (fun w => w.2.1 <> h) (writes s))) h)
  | TIdleDeleted i : HIdle i ∈ closing s ->
      tr s (set_idles (forget s (HIdle i)) (delete i (idles s))).

(** * Invariant *)

(** The loop's handles are the objects in memory; a socket's immediate is the one idle handle
    that runs its callback; addresses are fresh; writes are of sockets in memory. *)
Record linv (s : St) : Prop := {
  l_pipe : forall h, HPipe h ∈ registered s <-> is_Some (holders s !! h);
  l_idle : forall i, HIdle i ∈ registered s <-> is_Some (idles s !! i);
  l_server : HServer ∈ registered s -> deleted (server s) = false;
  l_closing : forall hd, hd ∈ closing s -> hd ∈ registered s;
  l_imm : forall h x i, holders s !! h = Some x -> immediate x = Some i ->
    idles s !! i = Some (IRead h) /\ HIdle i ∉ closing s /\ HPipe h ∉ closing s;
  l_read : forall i h, idles s !! i = Some (IRead h) -> HIdle i ∉ closing s ->
    exists x, holders s !! h = Some x /\ immediate x = Some i;
  l_sock : forall h x, holders s !! h = Some x -> decoder_inv (decoder_ (socket x));
  l_fresh_holder : forall h, is_Some (holders s !! h) -> (h < next s)%nat;
  l_fresh_idle : forall h, is_Some (idles s !! h) -> (h < next s)%nat;
  l_writes : forall w h d, writes s !! w = Some (h, d) -> is_Some (holders s !! h) }.

(** A socket that has not been disposed of, with its owner. *)
Definition open_as (s : St) (h : nat) (o : Owner) : Prop :=
  exists x, holders s !! h = Some x /\ owner x = o /\ HPipe h ∉ closing s.

(** Every open socket has one owner: the session of its number, or a client; and there are
    sessions only while the server listens. *)
Record oinv (s : St) : Prop := {
  o_sessions : forall id h, sessions s !! id = Some h <-> open_as s h (OServer id);
  o_clients : forall h, h ∈ clients s \/ h ∈ connects s <-> open_as s h OClient;
  o_once : forall h, h ∈ clients s -> h ∉ connects s;
  o_listens : forall id h, sessions s !! id = Some h -> HServer ∈ registered s /\ HServer ∉ closing s }.

Definition inv (s : St) : Prop := linv s /\ oinv s.

Lemma OnEoF_keeps_inv (k k' : Socket Message) :
  decoder_inv (decoder_ k) -> OnEoF k = Ret k' -> decoder_inv (decoder_ k').
Proof.
  intros Hi. unfold OnEoF. destruct (Decode (decoder_ k)) as [d []] eqn:Hd.
  - intros [= <-]. by apply (Decode_keeps_inv _ _ _ Hi Hd).
  - destruct (Decode_ok _ _ Hi Hd) as (Hb & Hr & h & m & Hh & Hm).
    rewrite (Dispatch_ok d h m) by (done || (rewrite Hb; lia)). intros [= <-]. by left.
  - intros [= <-]. by apply (Decode_keeps_inv _ _ _ Hi Hd).
Qed.

Lemma ReadImmediate_keeps_inv (k k' : Socket Message) :
  decoder_inv (decoder_ k) -> ReadImmediate k = Ret (Some k') -> decoder_inv (decoder_ k').
Proof.
  intros Hi (r & Hr & [= He])%outcome_bind_inv. destruct r as [[d evs]|]; [|done]. injection He as <-.
  by eapply OnReadable_loop_keeps_inv.
Qed.

Lemma linv_frame s s' : linv s -> holders s' = holders s -> idles s' = idles s -> (next s <= next s')%nat ->
  registered s' = registered s -> closing s' = closing s -> deleted (server s') = deleted (server s) ->
  (forall w h d, writes s' !! w = Some (h, d) -> exists w', writes s !! w' = Some (h, d)) -> linv s'.
Proof.
  intros [] E1 E2 E3 E4 E5 E6 E7. split; rewrite ?E1, ?E2, ?E4, ?E5, ?E6; try done.
  - intros h H%l_fresh_holder0. lia.
  - intros h H%l_fresh_idle0. lia.
  - intros w h d (w' & H)%E7. eauto.
Qed.

Lemma add_holder_linv s x : linv s -> immediate x = None -> decoder_inv (decoder_ (socket x)) -> linv (add_holder s x).
Proof.
  intros [] Hm Hd. assert (Hn : holders s !! next s = None).
  { destruct (holders s !! next s) eqn:E; [|done]. pose proof (l_fresh_holder0 (next s) ltac:(eauto)). lia. }
  split; cbn.
  - intros h. rewrite elem_of_union, elem_of_singleton, l_pipe0, lookup_insert.
    destruct (decide (next s = h)) as [->|Hne]; [by split; [|left]|]. naive_solver.
  - intros i. rewrite elem_of_union, elem_of_singleton, l_idle0. naive_solver.
  - intros [?%elem_of_singleton|H]%elem_of_union; [done|auto].
  - intros hd H%l_closing0. by apply elem_of_union_r.
  - intros h y i. rewrite lookup_insert. case_decide; [intros [= <-]; congruence|eauto].
  - intros i h H1 H2. destruct (l_read0 i h H1 H2) as (y & Hy & ?). exists y. rewrite lookup_insert_ne by congruence. done.
  - intros h y. rewrite lookup_insert. case_decide; [by intros [= <-]|eauto].
  - intros h. rewrite lookup_insert. case_decide; [lia|]. intros Hf%l_fresh_holder0. lia.
  - intros i H%l_fresh_idle0. lia.
  - intros w h d H%l_writes0. rewrite lookup_insert. by case_decide.
Qed.

Lemma add_idle_linv s cb : linv s -> cb = IConnectFailed -> linv (add_idle s cb).
Proof.
  intros [] ->. assert (Hn : idles s !! next s = None).
  { destruct (idles s !! next s) eqn:E; [|done]. pose proof (l_fresh_idle0 (next s) ltac:(eauto)). lia. }
  split; cbn; try done.
  - intros h. rewrite elem_of_union, elem_of_singleton, l_pipe0. naive_solver.
  - intros h. rewrite elem_of_union, elem_of_singleton, l_idle0, lookup_insert.
    destruct (decide (next s = h)) as [->|Hne]; [by split; [|left]|]. naive_solver.
  - intros [?%elem_of_singleton|H]%elem_of_union; [done|auto].
  - intros hd H%l_closing0. by apply elem_of_union_r.
  - intros h y i Hy Hi. destruct (l_imm0 h y i Hy Hi) as (? & ? & ?). rewrite lookup_insert_ne by congruence. done.
  - intros i h. rewrite lookup_insert. case_decide; [done|eauto].
  - intros h Hf%l_fresh_holder0. lia.
  - intros i. rewrite lookup_insert. case_decide; [lia|]. intros Hf%l_fresh_idle0. lia.
Qed.

(** Changing a socket but not its immediate. *)
Lemma upd_linv s h x x' : linv s -> holders s !! h = Some x -> immediate x' = immediate x ->
  decoder_inv (decoder_ (socket x')) -> linv (set_holders s (<[h := x']> (holders s))).
Proof.
  intros [] Hx Hm Hd.
  assert (Hs : forall h', is_Some (<[h := x']> (holders s) !! h') <-> is_Some (holders s !! h')).
  { intros h'. rewrite lookup_insert. destruct (decide (h = h')) as [<-|]; [|done]. rewrite Hx. by split; eauto. }
  split; cbn; try done.
  - intros h'. by rewrite Hs.
  - intros h' y i. rewrite lookup_insert. case_decide; [intros [= <-]; subst; rewrite Hm|]; eauto.
  - intros i h' H1 H2. destruct (l_read0 i h' H1 H2) as (y & Hy & ?). rewrite lookup_insert.
    case_decide; [|eauto]. subst. exists x'. split; [done|]. congruence.
  - intros h' y. rewrite lookup_insert. case_decide; [by intros [= <-]|eauto].
  - intros h' Hf. apply l_fresh_holder0. by apply Hs.
  - intros w h' d Hw%l_writes0. by apply Hs.
Qed.

(** A socket gets an immediate. *)
Lemma arm_linv s h x x' : linv s -> holders s !! h = Some x -> HPipe h ∉ closing s -> immediate x = None ->
  immediate x' = Some (next s) -> decoder_inv (decoder_ (socket x')) ->
  linv (set_holders (add_idle s (IRead h)) (<[h := x']> (holders s))).
Proof.
  intros [] Hx Hc Hm Hm' Hd.
  assert (Hs : forall h', is_Some (<[h := x']> (holders s) !! h') <-> is_Some (holders s !! h')).
  { intros h'. rewrite lookup_insert. destruct (decide (h = h')) as [<-|]; [|done]. rewrite Hx. by split; eauto. }
  assert (Hn : idles s !! next s = None).
  { destruct (idles s !! next s) eqn:E; [|done]. pose proof (l_fresh_idle0 (next s) ltac:(eauto)). lia. }
  assert (Hnc : HIdle (next s) ∉ closing s).
  { intros H%l_closing0%l_idle0. rewrite Hn in H. by destruct H. }
  split; cbn.
  - intros h'. rewrite Hs, elem_of_union, elem_of_singleton, l_pipe0. naive_solver.
  - intros i. rewrite elem_of_union, elem_of_singleton, l_idle0, lookup_insert.
    destruct (decide (next s = i)) as [->|Hne]; [by split; [|left]|]. naive_solver.
  - intros [?%elem_of_singleton|H]%elem_of_union; [done|auto].
  - intros hd H%l_closing0. by apply elem_of_union_r.
  - intros h' y i. rewrite lookup_insert. case_decide as Hh.
    + subst h'. intros [= <-]. rewrite Hm'. intros [= <-]. by rewrite lookup_insert_eq.
    + intros Hy Hi. destruct (l_imm0 h' y i Hy Hi) as (? & ? & ?). rewrite lookup_insert_ne by congruence. done.
  - intros i h'. rewrite lookup_insert. case_decide as Hh.
    + subst i. intros [= <-] _. exists x'. by rewrite lookup_insert_eq.
    + intros H1 H2. destruct (l_read0 i h' H1 H2) as (y & Hy & ?). exists y. by rewrite lookup_insert_ne by congruence.
  - intros h' y. rewrite lookup_insert. case_decide; [by intros [= <-]|eauto].
  - intros h' Hf%Hs%l_fresh_holder0. lia.
  - intros i. rewrite lookup_insert. case_decide; [lia|]. intros Hf%l_fresh_idle0. lia.
  - intros w h' d Hw%l_writes0. by apply Hs.
Qed.

(** A socket loses its immediate, which is closed; the socket may be closed with it. *)
Lemma disarm_linv s h x x' cl : linv s -> holders s !! h = Some x -> immediate x' = None ->
  decoder_inv (decoder_ (socket x')) ->
  (forall hd, hd ∈ cl -> hd ∈ closing s \/ hd = HPipe h \/ exists i, hd = HIdle i /\ immediate x = Some i) ->
  (forall hd, hd ∈ closing s -> hd ∈ cl) -> (forall i, immediate x = Some i -> HIdle i ∈ cl) ->
  linv (set_handles (set_holders s (<[h := x']> (holders s))) (registered s) cl).
Proof.
  intros [] Hx Hm Hd Hcl Hsub Him.
  assert (Hs : forall h', is_Some (<[h := x']> (holders s) !! h') <-> is_Some (holders s !! h')).
  { intros h'. rewrite lookup_insert. destruct (decide (h = h')) as [<-|]; [|done]. rewrite Hx. by split; eauto. }
  split; cbn; try done.
  - intros h'. by rewrite Hs.
  - intros hd [Hc|[->|(i & -> & Hi)]]%Hcl; [auto| |].
    + apply l_pipe0. rewrite Hx. eauto.
    + apply l_idle0. destruct (l_imm0 h x i Hx Hi) as (-> & _). eauto.
  - intros h' y i. rewrite lookup_insert. case_decide; [intros [= <-]; congruence|]. intros Hy Hi.
    destruct (l_imm0 h' y i Hy Hi) as (H1 & H2 & H3). split; [done|].
    split; intros [Hc|[?|(j & ? & Hj)]]%Hcl; simplify_eq; try done.
    destruct (l_imm0 h x j Hx Hj) as (? & _). congruence.
  - intros i h' H1 H2. destruct (l_read0 i h' H1) as (y & Hy & ?); [by intros ?%Hsub|].
    destruct (decide (h = h')) as [<-|]; [|exists y; by rewrite lookup_insert_ne].
    exfalso. apply H2, Him. congruence.
  - intros h' y. rewrite lookup_insert. case_decide; [by intros [= <-]|eauto].
  - intros h' Hf%Hs%l_fresh_holder0. lia.
  - intros w h' d Hw%l_writes0. by apply Hs.
Qed.

Lemma disposed_linv s h x : linv s -> holders s !! h = Some x -> linv (disposed s h x).
Proof.
  intros Hl Hx. apply (disarm_linv s h x); [done|done|done|by apply (l_sock s Hl h x)|..].
  - intros hd. rewrite elem_of_union, elem_of_singleton. destruct (immediate x) as [i|]; [|naive_solver].
    rewrite elem_of_union, elem_of_singleton. naive_solver.
  - intros hd Hc. apply elem_of_union_r. destruct (immediate x); [by apply elem_of_union_r|done].
  - intros i ->. set_solver.
Qed.

(** The handles in [closing] may grow by idle handles that belong to no socket, and by the
    server's; the server's may be added or forgotten. *)
Lemma handles_linv s r cl : linv s ->
  (forall hd, hd <> HServer -> hd ∈ r <-> hd ∈ registered s) -> (HServer ∈ r -> deleted (server s) = false) ->
  (forall hd, hd ∈ cl -> hd ∈ r) -> (forall h, HPipe h ∈ cl <-> HPipe h ∈ closing s) ->
  (forall i, HIdle i ∈ cl <-> HIdle i ∈ closing s \/ (HIdle i ∈ cl /\ idles s !! i = Some IConnectFailed)) ->
  linv (set_handles s r cl).
Proof.
  intros [] Hr Hd Hcl Hp Hi. split; cbn; try done.
  - intros h. by rewrite Hr, l_pipe0.
  - intros i. by rewrite Hr, l_idle0.
  - intros h x i Hx Hm. destruct (l_imm0 h x i Hx Hm) as (H1 & H2 & H3). split; [done|].
    split; [|by rewrite Hp]. intros [?|[_ ?]]%Hi; [done|congruence].
  - intros i h H1 H2. apply l_read0; [done|]. intros Hc. apply H2, Hi. by left.
Qed.

Lemma holder_deleted_linv s h : linv s -> HPipe h ∈ closing s ->
  linv (delete_holder (set_writes (forget s (HPipe h)) (filter (fun w => w.2.1 <> h) (writes s))) h).
Proof.
  intros [] Hc. split; cbn.
  - intros h'. rewrite elem_of_difference, elem_of_singleton, l_pipe0, lookup_delete.
    case_decide as Hh; [subst; split; [naive_solver|by intros []]|]. split; [naive_solver|]. split; [done|congruence].
  - intros i. rewrite elem_of_difference, elem_of_singleton, l_idle0. naive_solver.
  - intros [Hs _]%elem_of_difference. auto.
  - intros hd [H1 H2]%elem_of_difference. apply elem_of_difference. auto.
  - intros h' x i [Hne Hx]%lookup_delete_Some Hm. destruct (l_imm0 h' x i Hx Hm) as (? & ? & ?). set_solver.
  - intros i h' Hi Hn. destruct (l_read0 i h' Hi ltac:(set_solver)) as (x & Hx & Hm). exists x.
    rewrite lookup_delete_ne; [done|]. intros ->. by destruct (l_imm0 h' x i Hx Hm) as (_ & _ & ?).
  - intros h' x [_ Hx]%lookup_delete_Some. eauto.
  - intros h' [x [_ Hx]%lookup_delete_Some]. eauto.
  - auto.
  - intros w h' d [Hw Hne]%map_lookup_filter_Some. rewrite lookup_delete_ne by (cbn in Hne; congruence). eauto.
Qed.

Lemma idle_deleted_linv s i : linv s -> HIdle i ∈ closing s -> linv (set_idles (forget s (HIdle i)) (delete i (idles s))).
Proof.
  intros [] Hc. split; cbn; try done.
  - intros h. rewrite elem_of_difference, elem_of_singleton, l_pipe0. naive_solver.
  - intros i'. rewrite elem_of_difference, elem_of_singleton, l_idle0, lookup_delete.
    case_decide as Hh; [subst; split; [naive_solver|by intros []]|]. split; [naive_solver|]. split; [done|congruence].
  - intros [Hs _]%elem_of_difference. auto.
  - intros hd [H1 H2]%elem_of_difference. apply elem_of_difference. auto.
  - intros h x i' Hx Hm. destruct (l_imm0 h x i' Hx Hm) as (? & ? & ?). rewrite lookup_delete_ne by congruence. set_solver.
  - intros i' h [Hne Hi]%lookup_delete_Some Hn. apply l_read0; [done|]. set_solver.
  - intros i' [x [_ Hx]%lookup_delete_Some]. eauto.
Qed.

Lemma tr_linv s s' : inv s -> tr s s' -> linv s'.
Proof.
  intros [Hl Ho] Ht.
  destruct Ht as [e He|u| | |Hn Hd|id Ha Hs|id h x Hs Hx| | |h x Hh Hx|h x Hh Hx|h x f Hx|h x f Hx|w|h x data i Hx Hc Hm
    |h x data Hx Hc Hm|h x k Hx Hc Hk|i h x k Hi Hc Hx Hk|i Hi Hc|Ha Hs|Hc|Hn|h Hc|i Hc].
  1-4: apply (linv_frame s); cbn; eauto; lia.
  - apply handles_linv; [done|set_solver|done| |set_solver..]. intros hd H%(l_closing s Hl). set_solver.
  - apply (linv_frame (add_holder s (mkHolder socket_init None (OServer id) true))); cbn; eauto.
    apply add_holder_linv; [done|done|by left].
  - apply disposed_linv; [|done]. apply (linv_frame s); cbn; eauto.
  - apply (linv_frame (add_holder s (mkHolder socket_init None OClient false))); cbn; eauto.
    apply add_holder_linv; [done|done|by left].
  - by apply add_idle_linv.
  - apply (linv_frame (set_holders s (<[h := mkHolder (socket x) (immediate x) (owner x) true]> (holders s)))); cbn; eauto.
    apply (upd_linv s h x); [done|done|done|]. by apply (l_sock s Hl h x).
  - apply disposed_linv; [|done]. apply (linv_frame s); cbn; eauto.
  - pose proof (upd_linv s h x (mkHolder (Write (socket x) f) (immediate x) (owner x) (reading x)) Hl Hx eq_refl
      (l_sock s Hl h x Hx)) as [].
    split; cbn; try done.
    + intros h' Hf%l_fresh_holder0. cbn in Hf. lia.
    + intros i Hf%l_fresh_idle0. cbn in Hf. lia.
    + intros w h' d. rewrite (lookup_insert (writes s)). case_decide.
      * intros [= <- _]. rewrite lookup_insert_eq. eauto.
      * apply l_writes0.
  - apply (linv_frame (set_holders s (<[h := mkHolder (Write (socket x) f) (immediate x) (owner x) (reading x)]> (holders s)))); cbn; eauto.
    apply (upd_linv s h x); [done|done|done|]. by apply (l_sock s Hl h x).
  - apply (linv_frame s); cbn; eauto. intros w' h d [_ H]%lookup_delete_Some. eauto.
  - apply (linv_frame (set_holders s (<[h := mkHolder (OnFrame (socket x) data) (Some i) (owner x) (reading x)]> (holders s)))); cbn; eauto.
    apply (upd_linv s h x); [done|done|done|]. apply InsertBuffer_inv. by apply (l_sock s Hl h x).
  - apply (linv_frame (set_holders (add_idle s (IRead h)) (<[h := mkHolder (OnFrame (socket x) data) (Some (next s)) (owner x) (reading x)]> (holders s)))); cbn; eauto.
    apply (arm_linv s h x); [done..|]. apply InsertBuffer_inv. by apply (l_sock s Hl h x).
  - apply (linv_frame (set_holders s (<[h := mkHolder k (immediate x) (owner x) false]> (holders s)))); cbn; eauto.
    apply (upd_linv s h x); [done|done|done|]. apply (OnEoF_keeps_inv (socket x)); [by apply (l_sock s Hl h x)|done].
  - apply (linv_frame (set_handles (set_holders s (<[h := mkHolder k None (owner x) (reading x)]> (holders s)))
              (registered s) ({[HIdle i]} ∪ closing s))); cbn; eauto.
    assert (Hm : immediate x = Some i) by (destruct (l_read s Hl i h Hi Hc) as (y & Hy & ?); congruence).
    apply (disarm_linv s h x); [done..| | |set_solver|set_solver].
    + apply (ReadImmediate_keeps_inv (socket x)); [by apply (l_sock s Hl h x)|done].
    + intros hd. rewrite elem_of_union, elem_of_singleton. naive_solver.
  - apply handles_linv; [done..|apply (l_server s Hl)| |set_solver|].
    + intros hd. rewrite elem_of_union, elem_of_singleton. intros [->|H]; [apply (l_idle s Hl); eauto|by apply (l_closing s Hl)].
    + intros j. rewrite elem_of_union, elem_of_singleton. naive_solver.
  - apply bool_decide_eq_true_1 in Ha as [Ha _]. apply handles_linv; [done..|apply (l_server s Hl)| |set_solver|set_solver].
    intros hd. rewrite elem_of_union, elem_of_singleton. intros [->|H]; [done|by apply (l_closing s Hl)].
  - apply handles_linv; [done|set_solver|set_solver| |set_solver|set_solver].
    intros hd. rewrite !elem_of_difference. intros [H%(l_closing s Hl) ?]. done.
  - destruct Hl. by split.
  - by apply holder_deleted_linv.
  - by apply idle_deleted_linv.
Qed.

(** ** Ownership *)

(** [open_as] looks at the sockets' owners and at the closing pipes only. *)
Lemma open_as_ext s s' : (forall h, owner <$> holders s' !! h = owner <$> holders s !! h) ->
  (forall h, HPipe h ∈ closing s' <-> HPipe h ∈ closing s) -> forall h o, open_as s' h o <-> open_as s h o.
Proof.
  intros Hh Hc h o. unfold open_as. specialize (Hh h). specialize (Hc h).
  destruct (holders s' !! h), (holders s !! h); simplify_eq/=; naive_solver.
Qed.

Lemma open_as_upd s s' h x x' : holders s' = <[h := x']> (holders s) ->
  holders s !! h = Some x -> owner x' = owner x -> (forall h', HPipe h' ∈ closing s' <-> HPipe h' ∈ closing s) ->
  forall h' o, open_as s' h' o <-> open_as s h' o.
Proof.
  intros Hh Hx Ho Hc. apply open_as_ext; [|done]. intros h'. rewrite Hh, lookup_insert.
  case_decide; [|done]. subst. rewrite Hx. cbn. congruence.
Qed.

Lemma open_as_disposed s h x : holders s !! h = Some x ->
  forall h' o, open_as (disposed s h x) h' o <-> open_as s h' o /\ h' <> h.
Proof.
  intros Hx h' o. unfold open_as, disposed. cbn. rewrite lookup_insert.
  assert (Hc : HPipe h' ∈ {[HPipe h]} ∪ match immediate x with Some i => {[HIdle i]} ∪ closing s | None => closing s end
     <-> h' = h \/ HPipe h' ∈ closing s) by (destruct (immediate x); set_solver).
  setoid_rewrite Hc. destruct (decide (h = h')); naive_solver.
Qed.

Lemma open_as_add s x : linv s ->
  forall h o, open_as (add_holder s x) h o <-> open_as s h o \/ (h = next s /\ owner x = o).
Proof.
  intros Hl h o. assert (Hn : HPipe (next s) ∉ closing s).
  { intros H%(l_closing s Hl)%(l_pipe s Hl)%(l_fresh_holder s Hl). lia. }
  unfold open_as. cbn. rewrite lookup_insert. destruct (decide (next s = h)) as [<-|]; [|naive_solver].
  split; [naive_solver|]. intros [(y & Hy & _)|[_ ?]]; [|eauto].
  pose proof (l_fresh_holder s Hl (next s) ltac:(eauto)). lia.
Qed.

Lemma oinv_frame s s' : oinv s -> sessions s' = sessions s -> clients s' = clients s -> connects s' = connects s ->
  (forall h o, open_as s' h o <-> open_as s h o) ->
  (sessions s = ∅ \/ ((HServer ∈ registered s -> HServer ∈ registered s') /\ (HServer ∈ closing s' -> HServer ∈ closing s))) -> oinv s'.
Proof.
  intros [] E1 E2 E3 E4 E5. split; intros *; rewrite ?E1, ?E2, ?E3, ?E4; auto.
  intros H. destruct E5 as [E5|[E5 E6]]; [by rewrite E5, lookup_empty in H|].
  destruct (o_listens0 id h H). split; [by apply E5|auto].
Qed.

(** A new session. *)
Lemma accept_oinv s id : linv s -> oinv s -> active s HServer = true -> sessions s !! id = None ->
  oinv (set_sessions (add_holder s (mkHolder socket_init None (OServer id) true)) (<[id := next s]> (sessions s))).
Proof.
  intros Hl [] Ha%bool_decide_eq_true_1 Hs.
  set (s' := set_sessions _ _).
  assert (Ho : forall h o, open_as s' h o <-> open_as s h o \/ (h = next s /\ OServer id = o))
    by exact (open_as_add s (mkHolder socket_init None (OServer id) true) Hl).
  split; intros *; rewrite ?Ho.
  - change (sessions s') with (<[id := next s]> (sessions s)). rewrite lookup_insert, <-o_sessions0.
    destruct (decide (id = id0)) as [<-|]; [rewrite Hs|]; naive_solver.
  - change (clients s') with (clients s). change (connects s') with (connects s). rewrite o_clients0. naive_solver.
  - apply o_once0.
  - intros _. cbn. set_solver.
Qed.

(** A session is closed. *)
Lemma session_oinv s id h x : oinv s -> sessions s !! id = Some h -> holders s !! h = Some x ->
  oinv (disposed (set_sessions s (delete id (sessions s))) h x).
Proof.
  intros [] Hs Hx. set (s' := disposed _ _ _).
  assert (Ho : forall h' o, open_as s' h' o <-> open_as s h' o /\ h' <> h)
    by exact (open_as_disposed (set_sessions s (delete id (sessions s))) h x Hx).
  destruct (proj1 (o_sessions0 _ _) Hs) as (y & Hy & Hoy & _).
  split; intros *; rewrite ?Ho.
  - change (sessions s') with (delete id (sessions s)). rewrite lookup_delete_Some, <-o_sessions0.
    split; [|intros [H1 H2]; split; [congruence|done]]. intros [H1 H2]. split; [done|]. intros ->.
    apply o_sessions0 in H2 as (y' & Hy' & Hoy' & _). congruence.
  - change (clients s') with (clients s). change (connects s') with (connects s). rewrite o_clients0.
    split; [|by intros []]. intros H. split; [done|]. intros ->. destruct H as (y' & Hy' & Hoy' & _). congruence.
  - apply o_once0.
  - change (sessions s') with (delete id (sessions s)). intros [_ H]%lookup_delete_Some.
    destruct (o_listens0 _ _ H). cbn. split; [done|]. destruct (immediate x); set_solver.
Qed.

(** The number of clients' sockets: a new one, one that is connected, one that is closed. *)
Lemma connect_oinv s : linv s -> oinv s ->
  oinv (set_clients (add_holder s (mkHolder socket_init None OClient false)) (clients s) ({[next s]} ∪ connects s)).
Proof.
  intros Hl []. set (s' := set_clients _ _ _).
  assert (Ho : forall h o, open_as s' h o <-> open_as s h o \/ (h = next s /\ OClient = o))
    by exact (open_as_add s (mkHolder socket_init None OClient false) Hl).
  assert (Hf : forall o, ~ open_as s (next s) o).
  { intros o (y & Hy & _). pose proof (l_fresh_holder s Hl (next s) ltac:(eauto)). lia. }
  split; intros *; rewrite ?Ho.
  - change (sessions s') with (sessions s). rewrite o_sessions0. naive_solver.
  - change (clients s') with (clients s). change (connects s') with ({[next s]} ∪ connects s).
    rewrite <-o_clients0. set_solver.
  - cbn. intros H1 [->%elem_of_singleton|H2]%elem_of_union; [|by apply (o_once0 h)].
    apply (Hf OClient). apply o_clients0. by left.
  - intros H%o_listens0. cbn. set_solver.
Qed.

Lemma connected_oinv s h x : oinv s -> h ∈ connects s -> holders s !! h = Some x ->
  oinv (set_clients (set_holders s (<[h := mkHolder (socket x) (immediate x) (owner x) true]> (holders s)))
          ({[h]} ∪ clients s) (connects s ∖ {[h]})).
Proof.
  intros [] Hh Hx. set (s' := set_clients _ _ _).
  assert (Ho : forall h' o, open_as s' h' o <-> open_as s h' o).
  { by apply (open_as_upd s s' h x (mkHolder (socket x) (immediate x) (owner x) true)). }
  split; intros *; rewrite ?Ho; [apply o_sessions0| |set_solver|apply o_listens0].
  change (clients s') with ({[h]} ∪ clients s). change (connects s') with (connects s ∖ {[h]}).
  rewrite <-o_clients0. destruct (decide (h0 = h)) as [->|]; set_solver.
Qed.

Lemma client_oinv s h x : oinv s -> h ∈ clients s -> holders s !! h = Some x ->
  oinv (disposed (set_clients s (clients s ∖ {[h]}) (connects s)) h x).
Proof.
  intros [] Hh Hx. set (s' := disposed _ _ _).
  assert (Ho : forall h' o, open_as s' h' o <-> open_as s h' o /\ h' <> h)
    by exact (open_as_disposed (set_clients s (clients s ∖ {[h]}) (connects s)) h x Hx).
  destruct (proj1 (o_clients0 h) (or_introl Hh)) as (y & Hy & Hoy & _). pose proof (o_once0 h Hh) as Hn.
  split; intros *; rewrite ?Ho.
  - change (sessions s') with (sessions s). rewrite o_sessions0. split; [|by intros []]. intros H. split; [done|].
    intros ->. destruct H as (y' & Hy' & Hoy' & _). congruence.
  - change (clients s') with (clients s ∖ {[h]}). change (connects s') with (connects s).
    rewrite <-o_clients0. destruct (decide (h0 = h)) as [->|]; set_solver.
  - cbn. set_solver.
  - intros H%o_listens0. cbn. destruct (immediate x); set_solver.
Qed.

Lemma tr_oinv s s' : inv s -> tr s s' -> oinv s'.
Proof.
  intros [Hl Ho] Ht.
  destruct Ht as [e He|u| | |Hn Hd|id Ha Hs|id h x Hs Hx| | |h x Hh Hx|h x Hh Hx|h x f Hx|h x f Hx|w|h x data i Hx Hc Hm
    |h x data Hx Hc Hm|h x k Hx Hc Hk|i h x k Hi Hc Hx Hk|i Hi Hc|Ha Hs|Hc|Hn|h Hc|i Hc].
  1-5: by apply (oinv_frame s); [..|right; cbn; set_solver].
  - by apply accept_oinv.
  - by apply session_oinv.
  - by apply connect_oinv.
  - apply (oinv_frame s); [done..|right; cbn; set_solver].
  - by apply connected_oinv.
  - by apply client_oinv.
  - apply (oinv_frame s); [done..| |by right]. by eapply open_as_upd; [|exact Hx|..].
  - apply (oinv_frame s); [done..| |by right]. by eapply open_as_upd; [|exact Hx|..].
  - by apply (oinv_frame s); [..|right].
  - apply (oinv_frame s); [done..| |by right]. by eapply open_as_upd; [|exact Hx|..].
  - apply (oinv_frame s); [done..| |right; cbn; set_solver]. by eapply open_as_upd; [|exact Hx|..].
  - apply (oinv_frame s); [done..| |by right]. by eapply open_as_upd; [|exact Hx|..].
  - apply (oinv_frame s); [done..| |right; cbn; set_solver]. eapply open_as_upd; [done|exact Hx|done|]. cbn. set_solver.
  - apply (oinv_frame s); [done..| |right; cbn; set_solver]. apply open_as_ext; [done|]. cbn. set_solver.
  - apply (oinv_frame s); [done..| |by left]. apply open_as_ext; [done|]. cbn. set_solver.
  - apply (oinv_frame s); [done..| |].
    + apply open_as_ext; [done|]. cbn. set_solver.
    + left. apply map_empty. intros id. destruct (sessions s !! id) eqn:E; [|done].
      destruct (o_listens s Ho id _ E). done.
  - by apply (oinv_frame s); [..|right].
  - apply (oinv_frame s); [done..| |right; cbn; set_solver]. intros h' o. unfold open_as. cbn. rewrite lookup_delete.
    case_decide; [subst; naive_solver|]. set_solver.
  - apply (oinv_frame s); [done..| |right; cbn; set_solver]. apply open_as_ext; [done|]. cbn. set_solver.
Qed.

Lemma tr_inv s s' : inv s -> tr s s' -> inv s'.
Proof. intros Hi Ht. split; [by apply (tr_linv s)|by apply (tr_oinv s)]. Qed.

(** * The operations are transitions *)

(** The server is not deleted, and not initialized. *)
Definition keeps (s s' : St) : Prop :=
  deleted (server s') = deleted (server s) /\ (HServer ∈ registered s' -> HServer ∈ registered s).

Ltac keeps := split; [first [done|cbn; congruence]|first [done|cbn; congruence|cbn; set_solver]].

(** An operation ends, by transitions. *)
Definition does (s : St) (m : outcome St) : Prop := exists s', m = Ret s' /\ star tr s s' /\ keeps s s'.

Lemma does_refl s : does s (Ret s).
Proof. exists s. split; [done|]. split; [constructor|done]. Qed.

Lemma keeps_trans s1 s2 s3 : keeps s1 s2 -> keeps s2 s3 -> keeps s1 s3.
Proof. intros [E1 H1] [E2 H2]. split; [congruence|auto]. Qed.

Lemma does_tr s s' : tr s s' -> keeps s s' -> does s (Ret s').
Proof. exists s'. eauto with aworker. Qed.

Lemma star_inv s s' : inv s -> star tr s s' -> inv s'.
Proof. intros Hi Hs. by apply (star_invariant tr inv tr_inv s). Qed.

Lemma does_bind s m f : inv s -> does s m ->
  (forall s', inv s' -> star tr s s' -> keeps s s' -> does s' (f s')) -> does s (m ≫= f).
Proof.
  intros Hi (s' & -> & Hs & Hd) Hf. destruct (Hf s' (star_inv _ _ Hi Hs) Hs Hd) as (s'' & H & Hs' & Hd').
  exists s''. split; [done|]. split; [by eapply star_trans|by eapply keeps_trans].
Qed.

Lemma does_after s s1 m : tr s s1 -> keeps s s1 -> does s1 m -> does s m.
Proof. intros Ht Hd (s' & -> & Hs & Hd'). exists s'. split; [done|]. split; [by eapply star_step|by eapply keeps_trans]. Qed.

Lemma handle_init_ok s s0 hd : linv s -> registered s0 = registered s -> deleted (server s0) = deleted (server s) ->
  (forall h, is_Some (holders s !! h) -> is_Some (holders s0 !! h)) ->
  (forall i, is_Some (idles s !! i) -> is_Some (idles s0 !! i)) ->
  uv_handle_init s0 hd = Ret (set_handles s0 ({[hd]} ∪ registered s0) (closing s0)).
Proof.
  intros Hl Hr Hd Hh Hi. unfold uv_handle_init.
  replace (forallb _ _) with true; [done|]. symmetry. apply forallb_forall. intros hd' H%list_elem_of_In%elem_of_elements.
  rewrite Hr in H. destruct hd'; cbn.
  - by rewrite Hd, (l_server s Hl H).
  - apply bool_decide_eq_true_2, Hh. by apply (l_pipe s Hl).
  - apply bool_decide_eq_true_2, Hi. by apply (l_idle s Hl).
Qed.

Lemma uv_close_ok s hd : allocated s hd = true -> hd ∈ registered s -> hd ∉ closing s ->
  uv_close s hd = Ret (set_handles s (registered s) ({[hd]} ∪ closing s)).
Proof. intros Ha Hr Hc. unfold uv_close. rewrite Ha. cbn [negb]. by rewrite bool_decide_eq_true_2. Qed.

Lemma ClearImmediate_ok s i cb : linv s -> idles s !! i = Some cb -> HIdle i ∉ closing s ->
  ClearImmediate s i = Ret (set_handles s (registered s) ({[HIdle i]} ∪ closing s)).
Proof.
  intros Hl Hi Hc. apply uv_close_ok; [|apply (l_idle s Hl); eauto|done]. cbn. apply bool_decide_eq_true_2. eauto.
Qed.

Lemma Dispose_ok s h x : linv s -> holders s !! h = Some x -> HPipe h ∉ closing s -> Dispose s h = Ret (disposed s h x).
Proof.
  intros Hl Hx Hc. unfold Dispose, disposed. rewrite Hx.
  assert (Hr : HPipe h ∈ registered s) by (apply (l_pipe s Hl); eauto).
  assert (Ha : bool_decide (is_Some (<[h := mkHolder (DisconnectAndDispose (socket x)) None (owner x) (reading x)]>
    (holders s) !! h)) = true) by (rewrite lookup_insert_eq; by apply bool_decide_eq_true_2).
  destruct (immediate x) as [i|] eqn:Hm.
  - destruct (l_imm s Hl h x i Hx Hm) as (Hi & Hic & _). rewrite (ClearImmediate_ok s i _ Hl Hi Hic). cbn [mbind outcome_bind].
    rewrite uv_close_ok; [done|exact Ha|done|]. cbn. set_solver.
  - cbn [mbind outcome_bind]. by rewrite uv_close_ok.
Qed.

Lemma CloseSession_ok s id : inv s -> deleted (server s) = false -> exists s', CloseSession s id = Ret s' /\ star tr s s' /\
  keeps s s' /\ sessions s' = delete id (sessions s) /\ active s' HServer = active s HServer.
Proof.
  intros [Hl Ho] Hd. unfold CloseSession. rewrite Hd. destruct (sessions s !! id) as [h|] eqn:Hs.
  - destruct (proj1 (o_sessions s Ho id h) Hs) as (x & Hx & _ & Hc).
    rewrite (Dispose_ok _ h x); [|by apply (linv_frame s); cbn; eauto|done|done]. eexists. split; [done|].
    split; [by eapply star_step; [eapply (TSession s id h x)|constructor]|]. split; [done|]. split; [done|].
    unfold active. apply bool_decide_ext. cbn. destruct (immediate x); set_solver.
  - exists s. rewrite (delete_id (sessions s) id) by done. split; [done|]. split; [constructor|done].
Qed.

Lemma close_sessions_ok l : forall s, inv s -> deleted (server s) = false -> exists s', close_sessions s l = Ret s' /\
  star tr s s' /\ keeps s s' /\ (forall id h, sessions s' !! id = Some h -> sessions s !! id = Some h /\ id ∉ l) /\
  active s' HServer = active s HServer.
Proof.
  induction l as [|id l IH]; intros s Hi Hd.
  { exists s. split; [done|]. split; [constructor|]. split; [done|]. split; [|done]. intros id h H. split; [done|].
    apply not_elem_of_nil. }
  cbn [close_sessions]. destruct (CloseSession_ok s id Hi Hd) as (s1 & -> & Hs1 & Hd1 & He1 & Ha1). cbn [mbind outcome_bind].
  destruct (IH s1 (star_inv _ _ Hi Hs1)) as (s2 & -> & Hs2 & Hd2 & He2 & Ha2); [by rewrite (proj1 Hd1)|].
  exists s2. split; [done|]. split; [by eapply star_trans|]. split; [by eapply keeps_trans|]. split; [|congruence].
  intros id' h [H1 H2]%He2. rewrite He1, lookup_delete_Some in H1. destruct H1 as [Hne H1].
  split; [done|]. apply not_elem_of_cons. split; [congruence|done].
Qed.

(** Closing a server that listens: no session is left, and the server is closing. *)
Lemma Close_ok s : inv s -> active s HServer = true -> exists s', Close s = Ret s' /\ star tr s s' /\
  keeps s s' /\ sessions s' = ∅ /\ HServer ∈ closing s'.
Proof.
  intros Hi Ha. pose proof Ha as [Hr _]%bool_decide_eq_true_1. pose proof (l_server s (proj1 Hi) Hr) as Hd.
  unfold Close. rewrite Hd.
  destruct (close_sessions_ok (map fst (map_iter (sessions s))) s Hi Hd) as (s1 & -> & Hs1 & Hd1 & He1 & Ha1).
  cbn [mbind outcome_bind]. rewrite Ha in Ha1. pose proof Ha1 as [Hr1 Hc1]%bool_decide_eq_true_1.
  assert (Hnone : sessions s1 = ∅).
  { apply map_empty. intros id. destruct (sessions s1 !! id) as [h|] eqn:E; [|done]. apply He1 in E as [E1 E2].
    exfalso. apply E2. change (id ∈ fst <$> map_iter (sessions s)). apply list_elem_of_fmap. exists (id, h).
    split; [done|]. rewrite (map_iter_perm (sessions s)). by apply elem_of_map_to_list. }
  rewrite uv_close_ok; [|cbn; by rewrite (proj1 Hd1), Hd|done|done]. eexists. split; [done|].
  split; [eapply star_trans; [exact Hs1|]; eapply star_step; [by apply (TServerClosing s1)|constructor]|].
  split; [done|]. split; [done|]. cbn. set_solver.
Qed.

Lemma fresh_next s : linv s -> holders s !! next s = None /\ idles s !! next s = None.
Proof.
  intros Hl. split; apply eq_None_not_Some; intros H; [apply (l_fresh_holder s Hl) in H|apply (l_fresh_idle s Hl) in H]; lia.
Qed.

Lemma HolderAccept_ok s own : linv s ->
  HolderAccept s own AcceptOk = Ret (Some (next s), add_holder s (mkHolder socket_init None own true)).
Proof.
  intros Hl. unfold HolderAccept. cbn. rewrite (handle_init_ok s); [|done..| |done].
  - cbn. unfold add_holder, set_handles, set_holders. cbn. by rewrite insert_insert_eq.
  - intros h Hh. cbn. rewrite lookup_insert. by case_decide.
Qed.

(** Replacing a session is closing it and accepting the new one. *)
Lemma accept_swap s id h0 x0 : linv s -> holders s !! h0 = Some x0 ->
  disposed (set_sessions (add_holder s (mkHolder socket_init None (OServer id) true)) (<[id := next s]> (sessions s))) h0 x0 =
  let s1 := disposed (set_sessions s (delete id (sessions s))) h0 x0 in
  set_sessions (add_holder s1 (mkHolder socket_init None (OServer id) true)) (<[id := next s1]> (sessions s1)).
Proof.
  intros Hl Hx. pose proof (fresh_next s Hl) as [Hn _]. assert (h0 <> next s) by congruence.
  unfold disposed, set_sessions, add_holder, set_handles, set_holders, set_server, sessions. cbn.
  rewrite insert_delete_eq. f_equal. by rewrite insert_insert_ne.
Qed.

Lemma Accept_ok s r : inv s -> active s HServer = true -> r = AcceptOk \/ r = InitFailed -> does s (Accept s r).
Proof.
  intros Hi Ha Hr. unfold Accept. fold (bump_session s).
  apply (does_after s (bump_session s)); [constructor|done|].
  assert (Hi1 : inv (bump_session s)) by (apply (tr_inv s); [done|constructor]).
  set (id := next_session_id_ (server s)). change (active s HServer) with (active (bump_session s) HServer) in Ha.
  revert Hi1 Ha. generalize (bump_session s). clear Hi. intros s1 Hi1 Ha. pose proof (proj1 Hi1) as Hl.
  destruct Hr as [->| ->].
  - rewrite HolderAccept_ok by done. cbn [mbind outcome_bind]. cbv beta iota zeta.
    change (sessions (add_holder s1 _)) with (sessions s1).
    destruct (sessions s1 !! id) as [h0|] eqn:Hs; [|by apply does_tr; [apply TAccept|keeps]].
    destruct (proj1 (o_sessions s1 (proj2 Hi1) id h0) Hs) as (x0 & Hx0 & _ & Hc0). pose proof (fresh_next s1 Hl) as [Hn _].
    rewrite (Dispose_ok _ h0 x0); [|..|exact Hc0].
    + rewrite (accept_swap s1 id h0 x0) by done. eapply does_after; [by apply (TSession s1 id h0 x0)|done|].
      apply does_tr; [|keeps]. apply (TAccept _ id).
      * rewrite <-Ha. unfold active. apply bool_decide_ext. cbn. destruct (immediate x0); set_solver.
      * apply lookup_delete_eq.
    + apply (linv_frame (add_holder s1 (mkHolder socket_init None (OServer id) true))); cbn; eauto.
      apply add_holder_linv; [done|done|by left].
    + cbn. rewrite lookup_insert_ne by congruence. done.
  - unfold HolderAccept. cbn. pose proof (fresh_next s1 Hl) as [Hn _].
    replace (delete_holder _ _) with (skip_next s1); [apply does_tr; [constructor|done]|].
    unfold skip_next, delete_holder, set_holders. cbn. rewrite delete_insert_eq, delete_id by done. by destruct s1.
Qed.

Lemma Connect_ok s ok : inv s -> does s (UvConnect s ok).
Proof.
  intros Hi. pose proof (proj1 Hi) as Hl. unfold UvConnect. cbn. destruct ok.
  - rewrite (handle_init_ok s); [|done..| |done].
    + cbn. apply does_tr; [|keeps]. apply (TConnect s).
    + intros h Hh. cbn. rewrite lookup_insert. by case_decide.
  - unfold SetImmediate. cbn. rewrite (handle_init_ok s); [|done..| |].
    + cbn. pose proof (fresh_next s Hl) as [Hn _]. apply (does_after s (skip_next s)); [constructor|done|].
      replace (delete_holder _ _) with (add_idle (skip_next s) IConnectFailed);
        [apply does_tr; [constructor|keeps]|].
      unfold skip_next, add_idle, delete_holder, set_holders. cbn. rewrite delete_insert_eq, delete_id by done. by destruct s.
    + intros h Hh. cbn. rewrite lookup_insert. by case_decide.
    + intros i Hh. cbn. rewrite lookup_insert. by case_decide.
Qed.

(** Only answers use the server when it may be gone. *)
Definition act_writes (a : action) : bool := match a with AWrite _ _ _ => true | _ => false end.

Lemma act_ok s a : inv s -> (act_writes a = true -> deleted (server s) = false) -> does s (act_step s a).
Proof.
  intros Hi Hw. pose proof Hi as [Hl Ho]. destruct a as [id| |h f ok|ok|h|hd on]; cbn [act_step].
  - destruct (deleted (server s)) eqn:Hd; [apply does_refl|].
    destruct (CloseSession_ok s id Hi Hd) as (s' & -> & Hs & Hd' & _). by exists s'.
  - destruct (active s HServer) eqn:Ha; [|apply does_refl].
    destruct (Close_ok s Hi Ha) as (s' & -> & Hs & Hd & _). by exists s'.
  - destruct (holders s !! h) as [x|] eqn:Hx; [|apply does_refl]. destruct (owner x) as [id|] eqn:Hox; [|apply does_refl].
    unfold delegate_socket. rewrite (Hw eq_refl). cbn [mbind outcome_bind].
    destruct (sessions s !! id) as [h'|] eqn:Hs; [|apply does_refl].
    destruct (proj1 (o_sessions s Ho id h') Hs) as (x' & Hx' & _). unfold UvWrite. rewrite Hx'.
    destruct ok; apply does_tr; try done; [by apply (TWrite s h' x' f)|by apply (TWriteLost s h' x' f)].
  - by apply Connect_ok.
  - case_bool_decide as Hc; [|apply does_refl].
    destruct (proj1 (o_clients s Ho h) (or_introl Hc)) as (x & Hx & _ & Hcl).
    rewrite (Dispose_ok _ h x); [|by apply (linv_frame s); cbn; eauto|done|done].
    apply does_tr; [by apply (TClient s h x)|done].
  - destruct (active s hd); [|apply does_refl]. apply does_tr; [constructor|done].
Qed.

Lemma acts_ok l : forall s, inv s -> (existsb act_writes l = true -> deleted (server s) = false) -> does s (acts s l).
Proof.
  induction l as [|a l IH]; intros s Hi Hw; [apply does_refl|]. cbn [acts].
  apply does_bind; [done|apply act_ok; [done|intros H; apply Hw; cbn; by rewrite H]|].
  intros s' Hi' _ [Hd _]. apply IH; [done|]. intros H. rewrite Hd. apply Hw. cbn. rewrite H. apply orb_true_r.
Qed.

(** ** Histories *)

(** The calls of libuv succeed; allocating a handle may fail. *)
Definition succeeds (x : step) : bool :=
  match x with
  | SInit a b c => a && b && c
  | SConnection status r => (status =? 0) && match r with AcceptOk | InitFailed => true | _ => false end
  | SConnected _ read_ok _ => read_ok
  | _ => true
  end.

(** The service answers requests of a session in this step. *)
Definition answers (x : step) : bool :=
  match x with
  | SEof _ l | SIdle _ l | SConnected _ _ l | SClosed _ l => existsb act_writes l
  | SAct a => act_writes a
  | _ => false
  end.

Definition deletes_server (x : step) : bool := match x with SClosed HServer _ => true | _ => false end.

(** A history of calls that succeed, with no answers after the server has been deleted. *)
Fixpoint orderly (gone : bool) (xs : list step) : bool :=
  match xs with
  | [] => true
  | x :: xs => succeeds x && negb (gone && answers x) && orderly (gone || deletes_server x) xs
  end.

(** A step ends, by transitions, and only the close callback deletes the server. *)
Definition steps (s : St) (x : step) (m : outcome St) : Prop :=
  exists s', m = Ret s' /\ star tr s s' /\ (deleted (server s') = true -> deleted (server s) = true \/ deletes_server x = true).

Lemma does_steps s x m : does s m -> steps s x m.
Proof. intros (s' & -> & Hs & Hd). exists s'. split; [done|]. split; [done|]. rewrite (proj1 Hd). by left. Qed.

Lemma OnFinished_ok s own : inv s -> (forall id, own = OServer id -> deleted (server s) = false) -> does s (OnFinished s own).
Proof.
  intros Hi Hd. destruct own as [id|]; cbn; [|by apply does_tr; [constructor|]]. specialize (Hd id eq_refl).
  destruct (CloseSession_ok s id Hi Hd) as (s' & -> & Hs & Hd' & _). cbn.
  eexists. split; [done|]. split; [|by apply Hd']. eapply star_trans; [exact Hs|].
  eapply star_step; [by apply (TNote s' (Disconnected id))|constructor].
Qed.

(** The server is there as long as an open socket has a session. *)
Lemma open_server s h x id : inv s -> holders s !! h = Some x -> owner x = OServer id -> HPipe h ∉ closing s ->
  deleted (server s) = false.
Proof.
  intros [Hl Ho] Hx Hox Hc. apply (l_server s Hl).
  assert (Hs : sessions s !! id = Some h) by (apply (o_sessions s Ho); by exists x).
  apply (o_listens s Ho id h Hs).
Qed.

Lemma OnEoF_total (k : Socket Message) : decoder_inv (decoder_ k) -> exists k', OnEoF k = Ret k'.
Proof.
  intros Hi. unfold OnEoF. destruct (Decode (decoder_ k)) as [d []] eqn:Hd; [eauto| |eauto].
  destruct (Decode_ok _ _ Hi Hd) as (Hb & Hr & h & m & Hh & Hm).
  rewrite (Dispatch_ok d h m) by (done || (rewrite Hb; lia)). cbn. eauto.
Qed.

Lemma OnEof_ok s h x l : inv s -> holders s !! h = Some x -> HPipe h ∉ closing s ->
  (existsb act_writes l = true -> deleted (server s) = false) -> does s (OnEof s h x l).
Proof.
  intros Hi Hx Hc Hw. unfold OnEof. destruct (OnEoF_total (socket x) (l_sock s (proj1 Hi) h x Hx)) as (k & Hk).
  rewrite Hk. cbn [mbind outcome_bind]. cbv zeta.
  eapply does_after; [by apply (TEof s h x k)|done|]. set (s1 := note _ _).
  assert (Hi1 : inv s1) by (apply (tr_inv s); [done|by apply (TEof s h x k)]).
  assert (Hd : forall id, owner x = OServer id -> deleted (server s1) = false) by (intros id Hid; exact (open_server s h x id Hi Hx Hid Hc)).
  destruct (snd _); [apply does_refl| |by apply OnFinished_ok].
  apply does_bind; [done|by apply acts_ok|]. intros s2 Hi2 _ [Hd2 _]. apply OnFinished_ok; [done|].
  intros id Hid. rewrite Hd2. by apply (Hd id).
Qed.

Lemma ReadImmediate_total (k : Socket Message) : decoder_inv (decoder_ k) -> exists k', ReadImmediate k = Ret (Some k').
Proof.
  intros Hi. destruct (OnReadable_loop_terminates (S (length (buffer_ (decoder_ k)))) (decoder_ k) Hi) as (d & evs & Hd); [lia|].
  unfold ReadImmediate, OnReadable. rewrite Hd. cbn. eauto.
Qed.

Lemma IdleCb_ok s i cb l : inv s -> idles s !! i = Some cb -> HIdle i ∉ closing s ->
  (existsb act_writes l = true -> deleted (server s) = false) -> does s (UvIdleCb s i cb l).
Proof.
  intros Hi Hcb Hc Hw. pose proof (proj1 Hi) as Hl. destruct cb as [h|]; cbn [UvIdleCb].
  - destruct (l_read s Hl i h Hcb Hc) as (x & Hx & Hm). rewrite Hx, (ClearImmediate_ok s i _ Hl Hcb Hc). cbn [mbind outcome_bind].
    destruct (ReadImmediate_total (socket x) (l_sock s Hl h x Hx)) as (k & Hk). rewrite Hk. cbn [mbind outcome_bind].
    pose proof (TIdle s i h x k Hcb Hc Hx Hk) as Ht. eapply does_after; [exact Ht|done|]. apply acts_ok; [|done].
    by apply (tr_inv s).
  - rewrite (ClearImmediate_ok s i _ Hl Hcb Hc). cbn [mbind outcome_bind].
    eapply does_after; [by apply (TIdleConnect s i)|done|]. eapply does_after; [by apply (TNote _ (Connected None))|done|].
    apply acts_ok; [|done]. eapply tr_inv; [|by apply TNote]. eapply tr_inv; [exact Hi|]. by apply (TIdleConnect s i).
Qed.

Lemma OnData_ok s h x data : inv s -> holders s !! h = Some x -> HPipe h ∉ closing s -> does s (OnData s h x data).
Proof.
  intros Hi Hx Hc. pose proof (proj1 Hi) as Hl. unfold OnData. destruct (immediate x) as [i|] eqn:Hm.
  - cbn. apply does_tr; [by apply (TData s h x data i)|done].
  - unfold SetImmediate. cbn. rewrite (handle_init_ok s); [|done..|].
    + cbn. apply does_tr; [by apply (TDataIdle s h x data)|keeps].
    + intros j Hj. cbn. rewrite lookup_insert. by case_decide.
Qed.

Lemma closed_ok s hd l : inv s -> hd ∈ closing s -> (existsb act_writes l = true -> deleted (server s) = false) ->
  steps s (SClosed hd l) (closed s hd l).
Proof.
  intros Hi Hc Hw. pose proof (proj1 Hi) as Hl. pose proof (l_closing s Hl hd Hc) as Hr. unfold closed. fold (forget s hd).
  destruct hd as [|h|i].
  - unfold CloseCallback. cbn [deleted server forget set_handles]. rewrite (l_server s Hl Hr).
    pose proof (TServerForgotten s Hc) as T1. pose proof (TNote (forget s HServer) ServiceClosed I) as T2.
    pose proof (tr_inv _ _ (tr_inv _ _ Hi T1) T2) as Hi2.
    destruct (acts_ok l _ Hi2) as (s3 & -> & Hs3 & Hk); [intros _; exact (l_server s Hl Hr)|]. cbn.
    eexists. split; [done|]. split; [|by right]. eapply star_step; [exact T1|]. eapply star_step; [exact T2|].
    eapply star_trans; [exact Hs3|]. eapply star_step; [apply (TServerDeleted s3)|constructor].
    intros H%(proj2 Hk). cbn in H. set_solver.
  - apply does_steps. destruct (proj1 (l_pipe s Hl h) Hr) as [x Hx]. unfold OnClosed. cbn. rewrite Hx. cbn.
    unfold delegate_OnClosed. destruct (owner x); cbn.
    { eapply does_after; [apply (THolderDeleted s h Hc)|keeps|]. apply acts_ok; [|done].
      apply (tr_inv s); [done|]. by apply THolderDeleted. }
    eapply (does_after s); [by apply (TNote s (SocketClosed h))|done|]. set (s1 := note s (SocketClosed h)).
    assert (Hi1 : inv s1) by (apply (tr_inv s); [done|by constructor]).
    eapply does_after; [apply (THolderDeleted s1 h Hc)|keeps|]. apply acts_ok; [|done].
    apply (tr_inv s1); [done|]. by apply THolderDeleted.
  - apply does_steps. destruct (proj1 (l_idle s Hl i) Hr) as [x Hx]. unfold idle_CloseCb. cbn. rewrite Hx.
    apply does_tr; [by apply (TIdleDeleted s i)|keeps].
Qed.

Lemma step_ok s x : inv s -> succeeds x = true -> (answers x = true -> deleted (server s) = false) -> steps s x (run_step s x).
Proof.
  intros Hi Hg Hw. pose proof Hi as [Hl Ho].
  destruct x as [a b c|status r|h data|h l|i l|w|h ok l|hd l|a]; cbn [run_step].
  - destruct (bool_decide_reflect (HServer ∈ registered s)) as [Hr|Hr]; cbn [orb]; [apply does_steps, does_refl|].
    destruct (deleted (server s)) eqn:Hd; [apply does_steps, does_refl|]. cbn in Hg. unfold Initialize.
    destruct a, b, c; try done. cbn. rewrite (handle_init_ok s) by done. cbn. eexists. split; [done|].
    split; [by eapply star_step; [apply (TInit s)|constructor]|]. cbn. by left.
  - apply does_steps. destruct (active s HServer) eqn:Ha; [|apply does_refl]. cbn in Hg. apply andb_prop in Hg as [Hs Hr].
    unfold ListenCallback. rewrite Hs. cbn. apply Accept_ok; [done|done|]. destruct r; auto; done.
  - apply does_steps. destruct (active s (HPipe h)) eqn:Ha; [|apply does_refl]. apply bool_decide_eq_true_1 in Ha as [Hr Hc].
    destruct (proj1 (l_pipe s Hl h) Hr) as [x Hx]. rewrite Hx. destruct (reading x); [by apply OnData_ok|apply does_refl].
  - apply does_steps. destruct (active s (HPipe h)) eqn:Ha; [|apply does_refl]. apply bool_decide_eq_true_1 in Ha as [Hr Hc].
    destruct (proj1 (l_pipe s Hl h) Hr) as [x Hx]. rewrite Hx. destruct (reading x); [by apply OnEof_ok|apply does_refl].
  - apply does_steps. destruct (active s (HIdle i)) eqn:Ha; [|apply does_refl]. apply bool_decide_eq_true_1 in Ha as [Hr Hc].
    destruct (proj1 (l_idle s Hl i) Hr) as [cb Hcb]. rewrite Hcb. by apply IdleCb_ok.
  - apply does_steps, does_tr; [apply TWritten|done].
  - apply does_steps. case_bool_decide as Hc; [|apply does_refl]. cbn in Hg. subst ok.
    destruct (proj1 (o_clients s Ho h) (or_intror Hc)) as (x & Hx & _). unfold OnConnectCb. rewrite Hx. cbn [mbind outcome_bind].
    pose proof (TConnected s h x Hc Hx) as T1. pose proof (tr_inv _ _ Hi T1) as Hi1.
    eapply does_after; [exact T1|done|]. eapply does_after; [by apply (TNote _ (Connected (Some h)))|done|].
    apply acts_ok; [|done]. eapply tr_inv; [exact Hi1|by constructor].
  - case_bool_decide as Hc; [by apply closed_ok|apply does_steps, does_refl].
  - by apply does_steps, act_ok.
Qed.

Lemma server_run_ok xs : forall gone s, inv s -> (deleted (server s) = true -> gone = true) -> orderly gone xs = true ->
  exists s', run s xs = Ret s' /\ star tr s s'.
Proof.
  induction xs as [|x xs IH]; intros gone s Hi Hd Ho; [exists s; eauto with aworker|]. cbn [orderly] in Ho.
  apply andb_prop in Ho as [[Hg Ha]%andb_prop Ho]. cbn [run].
  destruct (step_ok s x Hi Hg) as (s1 & -> & Hs1 & Hd1).
  { intros Hw. rewrite Hw, andb_true_r in Ha. destruct (deleted (server s)); [|done]. by rewrite (Hd eq_refl) in Ha. }
  cbn [mbind outcome_bind]. destruct (IH (gone || deletes_server x) s1) as (s2 & H2 & Hs2); [by eapply star_inv| |done|].
  { intros [H|H]%Hd1; [rewrite Hd by done; done|rewrite H; apply orb_true_r]. }
  exists s2. split; [done|by eapply star_trans].
Qed.

Lemma server_inv_init : inv St_init.
Proof.
  assert (Hn : forall {A} (k : nat), ~ is_Some ((∅ : gmap nat A) !! k)) by (intros A k [y H]; by rewrite lookup_empty in H).
  assert (Ho : forall h o, ~ open_as St_init h o) by (intros h o (x & H & _); cbn in H; by rewrite lookup_empty in H).
  split; split; cbn; try done.
  - intros h. split; [set_solver|by intros H%Hn].
  - intros h. split; [set_solver|by intros H%Hn].
  - intros h H. by apply Hn in H.
  - intros h H. by apply Hn in H.
  - intros id h. rewrite lookup_empty. split; [done|by intros H%Ho].
  - intros h. split; [set_solver|by intros H%Ho].
Qed.

(** * Each session sees its own bytes *)

(** What the loop delivered to a socket. *)
Definition io_of (h : nat) (e : Note) : option Io :=
  match e with
  | NRead h' data => if decide (h' = h) then Some (Chunk data) else None
  | NIdle h' => if decide (h' = h) then Some Idle else None
  | _ => None
  end.

Definition inputs (s : St) (h : nat) : list Io := omap (io_of h) (log s).

(** The bytes read from a socket. *)
Definition received (s : St) (h : nat) : bytes := chunks (inputs s h).

(** A socket is the framing of IpcSocket.v run on what was delivered to it. *)
Definition mirrors (s : St) (h : nat) (x : Holder) (ios : list Io) : Prop :=
  exists k, io_run socket_init ios = Ret (Some k) /\
    decoder_ k = decoder_ (socket x) /\ IpcSocket.log k = IpcSocket.log (socket x) /\
    (HPipe h ∉ closing s -> read_immediate_ k = bool_decide (is_Some (immediate x))).

Definition rinv (s : St) : Prop :=
  (forall h x, holders s !! h = Some x -> NEof h ∉ log s -> mirrors s h x (inputs s h)) /\
  (forall h, (next s <= h)%nat -> inputs s h = []).

Lemma io_run_snoc (ios : list Io) (io : Io) : forall (k k' : Socket Message),
  io_run k ios = Ret (Some k') -> io_run k (ios ++ [io]) = io_step k' io.
Proof.
  induction ios as [|io' ios IH]; intros k k'.
  - intros [= <-]. cbn. destruct (io_step k io) as [[k1|]|]; done.
  - cbn. destruct (io_step k io') as [[k1|]|]; [|done..]. cbn. apply IH.
Qed.

Lemma inputs_snoc s s' e h : log s' = log s ++ [e] -> inputs s' h = inputs s h ++ option_list (io_of h e).
Proof. intros E. unfold inputs. rewrite E, omap_app. cbn. by destruct (io_of h e). Qed.

(** The socket keeps its decoder and log, and its immediate as long as it is open. *)
Definition same_view (s s' : St) (h : nat) (x x' : Holder) : Prop :=
  decoder_ (socket x') = decoder_ (socket x) /\ IpcSocket.log (socket x') = IpcSocket.log (socket x) /\
  (HPipe h ∉ closing s' -> HPipe h ∉ closing s /\ immediate x' = immediate x).

Lemma mirrors_view s s' h x x' ios : mirrors s h x ios -> same_view s s' h x x' -> mirrors s' h x' ios.
Proof.
  intros (k & H1 & H2 & H3 & H4) (E1 & E2 & E3). exists k. split; [done|]. split; [congruence|]. split; [congruence|].
  intros Hc. destruct (E3 Hc) as [Hc' ->]. auto.
Qed.

Definition brand_new (x : Holder) : Prop := socket x = socket_init /\ immediate x = None.

(** A transition that delivers nothing. *)
Lemma rinv_quiet s s' : rinv s -> (log s' = log s \/ exists e, neutral e /\ log s' = log s ++ [e]) -> (next s <= next s')%nat ->
  (forall h x', holders s' !! h = Some x' ->
     (exists x, holders s !! h = Some x /\ same_view s s' h x x') \/ (h = next s /\ brand_new x')) -> rinv s'.
Proof.
  intros [H1 H2] Hlog Hn Hh.
  assert (Hin : forall h, inputs s' h = inputs s h).
  { intros h. destruct Hlog as [E|(e & He & E)]; [unfold inputs; by rewrite E|].
    rewrite (inputs_snoc s s' e h E). destruct e; try done; cbn; apply app_nil_r. }
  assert (Hf : forall h, NEof h ∈ log s -> NEof h ∈ log s').
  { intros h H. destruct Hlog as [E|(e & _ & E)]; rewrite E; [done|]. apply elem_of_app. by left. }
  split; [|intros h Hle; rewrite Hin; apply H2; lia]. intros h x' Hx' He. rewrite Hin.
  destruct (Hh h x' Hx') as [(x & Hx & Hv)|[-> [Hs Hm]]].
  - eapply mirrors_view; [|exact Hv]. apply H1; [done|]. by intros ?%Hf.
  - rewrite H2 by lia. exists socket_init. rewrite Hs, Hm. done.
Qed.

(** A transition that delivers something to one socket. *)
Lemma rinv_deliver s s' h x x' e : rinv s -> holders s !! h = Some x -> holders s' = <[h := x']> (holders s) ->
  log s' = log s ++ [e] -> (forall h', h' <> h -> io_of h' e = None) -> (next s <= next s')%nat -> (h < next s)%nat ->
  (forall h', HPipe h' ∈ closing s' <-> HPipe h' ∈ closing s) ->
  (NEof h ∉ log s' -> mirrors s h x (inputs s h) -> mirrors s' h x' (inputs s h ++ option_list (io_of h e))) -> rinv s'.
Proof.
  intros [H1 H2] Hx Hh E He Hn Hlt Hc Hm. split.
  - intros h' y Hy Hf. rewrite (inputs_snoc s s' e h' E).
    assert (Hf' : NEof h' ∉ log s) by (intros ?; apply Hf; rewrite E; apply elem_of_app; by left).
    rewrite Hh, lookup_insert in Hy. destruct (decide (h = h')) as [<-|Hne].
    + injection Hy as <-. auto.
    + rewrite He by done. cbn. rewrite app_nil_r. eapply mirrors_view; [by apply H1|]. split; [done|]. split; [done|].
      by rewrite Hc.
  - intros h' Hle. rewrite (inputs_snoc s s' e h' E), H2 by lia. cbn. by rewrite He by lia.
Qed.

Lemma mirrors_data s s' h x ios data i own rd : mirrors s h x ios ->
  mirrors s' h (mkHolder (OnFrame (socket x) data) (Some i) own rd) (ios ++ [Chunk data]).
Proof.
  intros (k & H1 & H2 & H3 & _). exists (OnFrame k data). rewrite (io_run_snoc _ _ _ _ H1). cbn.
  by rewrite H2.
Qed.

Lemma mirrors_idle s s' h x ios sock i own rd : mirrors s h x ios -> HPipe h ∉ closing s -> immediate x = Some i ->
  ReadImmediate (socket x) = Ret (Some sock) -> mirrors s' h (mkHolder sock None own rd) (ios ++ [Idle]).
Proof.
  intros (k & H1 & H2 & H3 & H4) Hc Hm (r & Hr & [= He])%outcome_bind_inv. specialize (H4 Hc).
  rewrite bool_decide_eq_true_2 in H4 by (rewrite Hm; eauto). destruct r as [[d evs]|]; [|done]. injection He as <-.
  exists (mkSocket d false (IpcSocket.log k ++ evs) (written k)). rewrite (io_run_snoc _ _ _ _ H1). cbn [io_step].
  rewrite H4. unfold ReadImmediate. rewrite H2, Hr. cbn. split; [done|]. split; [done|]. split; [by rewrite H3|done].
Qed.

(** Changes of a socket that its framing does not see. *)
Lemma quiet_upd s s' h x x' : holders s !! h = Some x -> holders s' = <[h := x']> (holders s) ->
  (forall h', HPipe h' ∈ closing s -> HPipe h' ∈ closing s') -> same_view s s' h x x' ->
  forall h' y', holders s' !! h' = Some y' ->
    (exists y, holders s !! h' = Some y /\ same_view s s' h' y y') \/ (h' = next s /\ brand_new y').
Proof.
  intros Hx Hh Hc Hv h' y' Hy. left. rewrite Hh, lookup_insert in Hy. destruct (decide (h = h')) as [<-|].
  - injection Hy as <-. eauto.
  - exists y'. split; [done|]. split; [done|]. split; [done|]. split; [|done]. auto.
Qed.

Lemma quiet_same s s' : holders s' = holders s -> (forall h, HPipe h ∈ closing s -> HPipe h ∈ closing s') ->
  forall h x', holders s' !! h = Some x' ->
    (exists x, holders s !! h = Some x /\ same_view s s' h x x') \/ (h = next s /\ brand_new x').
Proof.
  intros Hh Hc h x' Hx. left. exists x'. rewrite <-Hh. split; [done|]. split; [done|]. split; [done|]. split; [|done]. auto.
Qed.

Lemma quiet_add s s' x0 : holders s' = <[next s := x0]> (holders s) -> brand_new x0 -> closing s' = closing s ->
  forall h x', holders s' !! h = Some x' ->
    (exists x, holders s !! h = Some x /\ same_view s s' h x x') \/ (h = next s /\ brand_new x').
Proof.
  intros Hh Hb Hc h x' Hx. rewrite Hh, lookup_insert in Hx. case_decide; [injection Hx as <-; by right|].
  left. exists x'. split; [done|]. split; [done|]. split; [done|]. by rewrite Hc.
Qed.

Lemma tr_rinv s s' : inv s -> rinv s -> tr s s' -> rinv s'.
Proof.
  intros [Hl Ho] Hr Ht. assert (Hlt : forall h x, holders s !! h = Some x -> (h < next s)%nat).
  { intros h x Hx. apply (l_fresh_holder s Hl). eauto. }
  destruct Ht as [e He|u| | |Hn Hd|id Ha Hs|id h x Hs Hx| | |h x Hh Hx|h x Hh Hx|h x f Hx|h x f Hx|w|h x data i Hx Hc Hm
    |h x data Hx Hc Hm|h x k Hx Hc Hk|i h x k Hi Hc Hx Hk|i Hi Hc|Ha Hs|Hc|Hn|h Hc|i Hc].
  1-5: apply (rinv_quiet s); [done|cbn; eauto|cbn; lia|by apply quiet_same].
  - apply (rinv_quiet s); [done|by left|cbn; lia|by eapply quiet_add].
  - apply (rinv_quiet s); [done|by left|done|]. eapply quiet_upd; [exact Hx|done| |].
    + intros h' Hc. cbn. destruct (immediate x); set_solver.
    + split; [done|]. split; [done|]. intros Hc. exfalso. apply Hc. cbn. set_solver.
  - apply (rinv_quiet s); [done|by left|cbn; lia|by eapply quiet_add].
  - apply (rinv_quiet s); [done|by left|cbn; lia|by apply quiet_same].
  - apply (rinv_quiet s); [done|by left|done|by eapply quiet_upd].
  - apply (rinv_quiet s); [done|by left|done|]. eapply quiet_upd; [exact Hx|done| |].
    + intros h' Hc. cbn. destruct (immediate x); set_solver.
    + split; [done|]. split; [done|]. intros Hc. exfalso. apply Hc. cbn. set_solver.
  - apply (rinv_quiet s); [done|by left|cbn; lia|by eapply quiet_upd].
  - apply (rinv_quiet s); [done|right; by exists (WriteLost (frame_bytes f))|done|by eapply quiet_upd].
  - apply (rinv_quiet s); [done|by left|done|by apply quiet_same].
  - eapply (rinv_deliver s _ h x); [done|done|done|done| |done|by apply (Hlt h x)|done|].
    + intros h' Hne. cbn. by rewrite decide_False.
    + intros _ Hmi. cbn. rewrite decide_True by done. by eapply mirrors_data.
  - eapply (rinv_deliver s _ h x); [done|done|done|done| |cbn; lia|by apply (Hlt h x)|done|].
    + intros h' Hne. cbn. by rewrite decide_False.
    + intros _ Hmi. cbn. rewrite decide_True by done. by eapply mirrors_data.
  - eapply (rinv_deliver s _ h x); [done|done|done|done|done|done|by apply (Hlt h x)|done|].
    intros Hf. exfalso. apply Hf. cbn. set_solver.
  - assert (Hm : immediate x = Some i) by (destruct (l_read s Hl i h Hi Hc) as (y & Hy & ?); congruence).
    destruct (l_imm s Hl h x i Hx Hm) as (_ & _ & Hpc).
    eapply (rinv_deliver s _ h x); [done|done|done|done| |done|by apply (Hlt h x)|cbn; set_solver|].
    + intros h' Hne. cbn. by rewrite decide_False.
    + intros _ Hmi. cbn. rewrite decide_True by done. by eapply mirrors_idle.
  - apply (rinv_quiet s); [done|by left|done|]. apply quiet_same; [done|]. cbn. set_solver.
  - apply (rinv_quiet s); [done|by left|done|]. apply quiet_same; [done|]. cbn. set_solver.
  - apply (rinv_quiet s); [done|by left|done|]. apply quiet_same; [done|]. cbn. set_solver.
  - apply (rinv_quiet s); [done|by left|done|by apply quiet_same].
  - apply (rinv_quiet s); [done|by left|done|]. cbn [holders delete_holder set_holders set_writes forget set_handles].
    intros h' x' [Hne Hx]%lookup_delete_Some. left. exists x'. split; [done|].
    split; [done|]. split; [done|]. cbn. set_solver.
  - apply (rinv_quiet s); [done|by left|done|]. apply quiet_same; [done|]. cbn. set_solver.
Qed.

Lemma star_rinv s s' : star tr s s' -> inv s -> rinv s -> rinv s'.
Proof.
  intros Hs Hi Hr. apply (star_invariant tr (fun s => inv s /\ rinv s)) with (a := s); [|done|done].
  intros a b [Ha Hra] Ht. split; [by apply (tr_inv a)|by apply (tr_rinv a)].
Qed.

Lemma rinv_init : rinv St_init.
Proof. split; [|done]. intros h x Hx. cbn in Hx. by rewrite lookup_empty in Hx. Qed.

(** What an orderly history reaches. *)
Lemma reached xs s : orderly false xs = true -> run St_init xs = Ret s -> inv s /\ rinv s.
Proof.
  intros Ho Hr. destruct (server_run_ok xs false St_init server_inv_init) as (s' & Hs & Ht); [done|done|].
  rewrite Hr in Hs. injection Hs as <-.
  split; [by apply (star_inv St_init); [apply server_inv_init|]|by apply (star_rinv St_init); [|apply server_inv_init|apply rinv_init]].
Qed.

(** * Closing the server *)

(** What closing sessions does not change. *)
Definition rest (s : St) : gmap nat UvIdle * gset nat * gset nat * list Note * gmap nat Owner :=
  (idles s, clients s, connects s, log s, owner <$> holders s).

Lemma uv_close_rest s hd s' : uv_close s hd = Ret s' -> rest s' = rest s.
Proof. unfold uv_close. destruct (negb _); [done|]. by intros (u & _ & [= <-])%outcome_bind_inv. Qed.

Lemma Dispose_rest s h s' : Dispose s h = Ret s' -> rest s' = rest s.
Proof.
  unfold Dispose. destruct (holders s !! h) as [x|] eqn:Hx; [|done]. intros (s1 & H1 & H2)%outcome_bind_inv.
  apply uv_close_rest in H2. rewrite H2.
  assert (H : rest s1 = rest s /\ holders s1 = holders s).
  { destruct (immediate x) as [i|]; [|split; congruence]. split; [by apply uv_close_rest in H1|].
    revert H1. unfold ClearImmediate, uv_close. destruct (negb _); [done|]. by intros (u & _ & [= <-])%outcome_bind_inv. }
  destruct H as [H Hh]. unfold rest in *. injection H as E1 E2 E3 E4 E5. cbn. rewrite fmap_insert. cbn.
  rewrite insert_id by (by rewrite E5, lookup_fmap, Hx). congruence.
Qed.

Lemma CloseSession_rest s id s' : CloseSession s id = Ret s' -> rest s' = rest s.
Proof.
  unfold CloseSession. destruct (deleted _); [done|]. destruct (sessions s !! id); [|congruence]. intros H.
  by apply Dispose_rest in H.
Qed.

Lemma Close_rest s s' : Close s = Ret s' -> rest s' = rest s.
Proof.
  assert (Hl : forall l s s', close_sessions s l = Ret s' -> rest s' = rest s).
  { clear s s'. induction l as [|id l IH]; intros s s'; cbn; [congruence|].
    intros (s1 & H1%CloseSession_rest & H2%IH)%outcome_bind_inv. congruence. }
  unfold Close. destruct (deleted _); [done|]. intros (s1 & H1%Hl & H2%uv_close_rest)%outcome_bind_inv. congruence.
Qed.

(** No client uses the loop. *)
Definition no_clients (s : St) : Prop :=
  clients s = ∅ /\ connects s = ∅ /\ map_Forall (fun _ cb => cb <> IConnectFailed) (idles s).

(** With the server closing and no client, everything is. *)
Lemma all_closing s : inv s -> no_clients s -> sessions s = ∅ -> HServer ∈ closing s ->
  forall hd, hd ∈ registered s -> hd ∈ closing s.
Proof.
  intros [Hl Ho] (Hc1 & Hc2 & Hi) Hs Hv.
  assert (Hopen : forall h x, holders s !! h = Some x -> HPipe h ∈ closing s).
  { intros h x Hx. destruct (decide (HPipe h ∈ closing s)) as [|Hn]; [done|exfalso]. destruct (owner x) as [id|] eqn:E.
    - assert (H : sessions s !! id = Some h) by (apply (o_sessions s Ho); by exists x). by rewrite Hs, lookup_empty in H.
    - assert (H : h ∈ clients s \/ h ∈ connects s) by (apply (o_clients s Ho); by exists x). set_solver. }
  intros [|h|i] Hr; [done| |].
  - apply (l_pipe s Hl) in Hr as [x Hx]. by apply (Hopen h x).
  - destruct (decide (HIdle i ∈ closing s)) as [|Hn]; [done|exfalso]. apply (l_idle s Hl) in Hr as [[h|] Hcb].
    + destruct (l_read s Hl i h Hcb Hn) as (x & Hx & Hm). destruct (l_imm s Hl h x i Hx Hm) as (_ & _ & H).
      by apply H, (Hopen h x).
    + by apply (Hi i _ Hcb).
Qed.

(** What a service is told in a close callback: the server's of the server, a client's of its
    socket, and nobody of the closing of a session. *)
Definition closed_note (s : St) (hd : handle) : option Note :=
  match hd with
  | HServer => Some ServiceClosed
  | HPipe h => x ← holders s !! h; match owner x with OServer _ => None | OClient => Some (SocketClosed h) end
  | HIdle _ => None
  end.

Lemma closed_effect s hd : inv s -> hd ∈ closing s -> exists s', run_step s (SClosed hd []) = Ret s' /\ inv s' /\
  registered s' = registered s ∖ {[hd]} /\ closing s' = closing s ∖ {[hd]} /\ connects s' = connects s /\
  log s' = log s ++ option_list (closed_note s hd) /\
  (forall hd', hd' <> hd -> closed_note s' hd' = closed_note s hd') /\
  deleted (server s') = (deleted (server s) || bool_decide (hd = HServer)).
Proof.
  intros Hi Hc. assert (Hok : steps s (SClosed hd []) (closed s hd [])) by (by apply closed_ok).
  pose proof (proj1 Hi) as Hl. pose proof (l_closing s Hl hd Hc) as Hr.
  cbn [run_step]. rewrite bool_decide_eq_true_2 by done. destruct Hok as (s' & He & Hs & _). exists s'.
  split; [done|]. split; [by apply (star_inv s)|]. revert He. unfold closed. destruct hd as [|h|i]; cbn.
  - unfold CloseCallback. cbn. rewrite (l_server s Hl Hr). cbn. intros [= <-]. done.
  - destruct (proj1 (l_pipe s Hl h) Hr) as [x Hx]. unfold OnClosed, delegate_OnClosed. cbn. rewrite Hx. cbn.
    intros [= <-]. assert (forall hd', hd' <> HPipe h ->
      match hd' with HPipe h' => delete h (holders s) !! h' = holders s !! h' | _ => True end) as Hd.
    { intros [|h'|i] Hne; [done| |done]. apply lookup_delete_ne. congruence. }
    destruct (owner x); cbn; rewrite orb_false_r, ?app_nil_r; do 4 (split; [done|]);
      (split; [|done]); intros hd' Hne%Hd; destruct hd' as [|h'|i']; cbn; by rewrite ?Hne.
  - destruct (proj1 (l_idle s Hl i) Hr) as [x Hx]. unfold idle_CloseCb. cbn. rewrite Hx. intros [= <-]. cbn.
    by rewrite orb_false_r, app_nil_r.
Qed.

Lemma closed_all cl : forall s, inv s -> cl ≡ₚ elements (closing s) -> exists s',
  run s ((fun hd => SClosed hd []) <$> cl) = Ret s' /\ inv s' /\ registered s' = registered s ∖ closing s /\ closing s' = ∅ /\
  connects s' = connects s /\ log s' = log s ++ omap (closed_note s) cl /\
  deleted (server s') = (deleted (server s) || bool_decide (HServer ∈ closing s)).
Proof.
  induction cl as [|hd cl IH]; intros s Hi Hcl.
  - symmetry in Hcl. apply Permutation_nil_r, elements_empty_inv in Hcl. apply leibniz_equiv in Hcl. exists s. rewrite Hcl. cbn.
    rewrite app_nil_r, (bool_decide_eq_false_2 (HServer ∈ ∅)), orb_false_r, difference_empty_L by set_solver.
    do 6 (split; [done|]). done.
  - assert (Hc : hd ∈ closing s) by (apply elem_of_elements; rewrite <-Hcl; by left).
    destruct (closed_effect s hd Hi Hc) as (s1 & Hs1 & Hi1 & Hr1 & Hc1 & Hn1 & Hl1 & Hk1 & Hd1).
    destruct (IH s1 Hi1) as (s2 & Hs2 & Hi2 & Hr2 & Hc2 & Hn2 & Hl2 & Hd2).
    { apply NoDup_Permutation; [|apply NoDup_elements|].
      - pose proof (NoDup_elements (closing s)) as Hnd. rewrite <-Hcl in Hnd. by apply NoDup_cons in Hnd as [_ ?].
      - pose proof (NoDup_elements (closing s)) as Hnd. rewrite <-Hcl in Hnd. apply NoDup_cons in Hnd as [Hnd _].
        intros y. rewrite elem_of_elements, Hc1, elem_of_difference, elem_of_singleton.
        assert (Hy : y ∈ closing s <-> y = hd \/ y ∈ cl) by (by rewrite <-elem_of_elements, <-Hcl, elem_of_cons).
        rewrite Hy. naive_solver. }
    exists s2. rewrite fmap_cons. cbn [run]. rewrite Hs1. cbn [mbind outcome_bind]. split; [done|]. split; [done|].
    split; [rewrite Hr2, Hr1, Hc1; set_solver|]. split; [done|]. split; [congruence|].
    split.
    { rewrite Hl2, Hl1, <-app_assoc. rewrite (omap_ext_elem _ (closed_note s)); [cbn; by destruct (closed_note s hd)|].
      intros hd' Hin. apply Hk1. intros ->. pose proof (NoDup_elements (closing s)) as Hnd. rewrite <-Hcl in Hnd.
      by apply NoDup_cons in Hnd as [? _]. }
    rewrite Hd2, Hd1, <-orb_assoc. f_equal. rewrite Hc1. repeat case_bool_decide; set_solver.
Qed.

Lemma io_run_prefix (fs : list (Frame Message)) (ios : list Io) (k : Socket Message) :
  Forall frame_ok fs -> io_run socket_init ios = Ret (Some k) -> chunks ios = wire fs ->
  IpcSocket.log k `prefix_of` (frame_event <$> fs) /\ (read_immediate_ k = false -> IpcSocket.log k = frame_event <$> fs).
Proof.
  intros Hok Hk Hc. destruct (io_run_stream fs ios socket_init Hok) as (k' & Hk' & Hs).
  { exists [], fs. split_and!; [done|done|by left|done|]. destruct fs as [|f fs]; [done|].
    intros _. apply Forall_cons in Hok as [Hf _]. rewrite frame_bytes_length by done. simpl. lia. }
  rewrite Hk in Hk'. injection Hk' as <-. destruct Hs as (fs1 & fs2 & -> & -> & _ & Hb & Hi).
  rewrite app_nil_r in Hb. rewrite fmap_app. split; [by apply prefix_app_r|]. intros Hidle. specialize (Hi Hidle).
  destruct fs2 as [|f fs2]; [by rewrite app_nil_r|]. exfalso. rewrite Hb in Hi.
  change (wire (f :: fs2)) with (frame_bytes f ++ wire fs2) in Hi. rewrite length_app in Hi. lia.
Qed.

(** * Properties *)

(** C4 Sockets live as long as libuv needs them: over every history of connections,
    connection attempts, reads, ends of streams, immediates, writes, and of the service
    closing sessions, sockets and the server in and outside of its callbacks, in which the
    calls of libuv succeed and nothing answers after the server's deletion, no step touches
    a deleted object or closes a handle twice.  The handles of the loop are in memory, the
    sessions are exactly the open sockets of the server, each under the number its delegate
    has, and every other open socket is a client's. *)
Theorem server_sockets_safe (xs : list step) : orderly false xs = true ->
  exists s, run St_init xs = Ret s /\
    (forall hd, hd ∈ registered s -> allocated s hd = true) /\
    (forall id h, sessions s !! id = Some h <-> open_as s h (OServer id)) /\
    (forall h, h ∈ clients s \/ h ∈ connects s <-> open_as s h OClient).
Proof.
  intros Ho. destruct (server_run_ok xs false St_init server_inv_init) as (s & Hs & Ht); [done|done|].
  destruct (reached xs s Ho Hs) as [[Hl Hown] _]. exists s. split; [done|].
  split; [|split; [apply (o_sessions s Hown)|apply (o_clients s Hown)]].
  intros [|h|i] Hr; cbn; [by rewrite (l_server s Hl Hr)|..]; apply bool_decide_eq_true_2;
    [by apply (l_pipe s Hl)|by apply (l_idle s Hl)].
Qed.

(** C16 Sessions do not mix: after any such history, with any number of connections open and
    their reads and immediates interleaved, a socket from which the bytes of a sequence of
    messages were read, and no end yet, has given its delegate a prefix of those messages in
    order, and all of them when it is open and has no immediate pending. *)
Theorem sessions_are_isolated (xs : list step) (s : St) (h : nat) (x : Holder) (fs : list (Frame Message)) :
  orderly false xs = true -> run St_init xs = Ret s -> holders s !! h = Some x -> NEof h ∉ log s ->
  Forall frame_ok fs -> received s h = wire fs ->
  IpcSocket.log (socket x) `prefix_of` (frame_event <$> fs) /\
  (HPipe h ∉ closing s -> immediate x = None -> IpcSocket.log (socket x) = frame_event <$> fs).
Proof.
  intros Ho Hr Hx He Hok Hw. destruct (reached xs s Ho Hr) as [_ [Hm _]].
  destruct (Hm h x Hx He) as (k & Hk & _ & Hlog & Him). rewrite <-Hlog.
  destruct (io_run_prefix fs _ k Hok Hk Hw) as [H1 H2]. split; [done|]. intros Hc Hn. apply H2. by rewrite (Him Hc), Hn.
Qed.

(** C17 Closing the server releases everything: after any such history, if no client is on the
    loop and the server listens, closing it closes every session, and when libuv has called
    the close callbacks, in any order, no socket, immediate, write request or handle is left,
    the server is deleted, its service has been told once, of the closing of the server and of
    no session's, the clients whose sockets were still closing of theirs, the loop is not
    alive and [Run] returns. *)
Theorem close_releases_everything (xs : list step) (s : St) :
  orderly false xs = true -> run St_init xs = Ret s -> no_clients s -> active s HServer = true ->
  exists s1, act_step s AClose = Ret s1 /\
    forall cl, cl ≡ₚ elements (closing s1) -> exists s2,
      ServerRun s [SAct AClose :: ((fun hd => SClosed hd []) <$> cl)] = Ret (Some (0, s2)) /\
      holders s2 = ∅ /\ idles s2 = ∅ /\ writes s2 = ∅ /\ registered s2 = ∅ /\ deleted (server s2) = true /\
      log s2 = log s ++ omap (closed_note s1) cl /\ ServiceClosed ∈ omap (closed_note s1) cl /\
      (forall id h, sessions s !! id = Some h -> SocketClosed h ∉ omap (closed_note s1) cl).
Proof.
  intros Ho Hr Hn Ha. destruct (reached xs s Ho Hr) as [Hi _].
  destruct (Close_ok s Hi Ha) as (s1 & Hs1 & Ht1 & Hk1 & Hses & Hcl1). pose proof (star_inv s s1 Hi Ht1) as Hi1.
  exists s1. cbn [act_step]. rewrite Ha. split; [done|]. intros cl Hcl.
  destruct (closed_all cl s1 Hi1 Hcl) as (s2 & Hs2 & [Hl2 _] & Hr2 & Hc2 & Hn2 & Hlog2 & Hd2). exists s2.
  pose proof (Close_rest s s1 Hs1) as [= E1 E2 E3 E4 E5]. destruct Hn as (N1 & N2 & N3).
  assert (Hreg : registered s2 = ∅).
  { rewrite Hr2. apply set_eq. intros hd. rewrite elem_of_difference. split; [|set_solver]. intros [H1 H2]. exfalso.
    apply H2. apply (all_closing s1); try done. split; [congruence|]. split; [congruence|]. by rewrite E1. }
  assert (Hh : holders s2 = ∅).
  { apply map_empty. intros h. apply eq_None_not_Some. intros H%(l_pipe s2 Hl2). set_solver. }
  assert (Hid : idles s2 = ∅).
  { apply map_empty. intros i. apply eq_None_not_Some. intros H%(l_idle s2 Hl2). set_solver. }
  assert (Hwr : writes s2 = ∅).
  { apply map_empty. intros w. apply eq_None_not_Some. intros [[h d] H%(l_writes s2 Hl2)].
    rewrite Hh, lookup_empty in H. by destruct H. }
  assert (Hal : uv_loop_alive s2 = false).
  { unfold uv_loop_alive. rewrite Hreg, Hwr, Hn2, E3, N2, Hc2. by rewrite !bool_decide_eq_true_2. }
  split. { cbn [ServerRun run run_step act_step]. rewrite Ha, Hs1. cbn [mbind outcome_bind]. rewrite Hs2. cbn [mbind outcome_bind]. by rewrite Hal. }
  split; [done|]. split; [done|]. split; [done|]. split; [done|].
  split; [rewrite Hd2, bool_decide_eq_true_2, orb_true_r by done; done|]. split; [congruence|]. split.
  - apply list_elem_of_omap. exists HServer. split; [|done]. by rewrite Hcl, elem_of_elements.
  - intros id h Hses' (hd & _ & Hn')%list_elem_of_omap. destruct (proj1 (o_sessions s (proj2 Hi) id h) Hses') as (x & Hx & Hx' & _).
    assert (Hx1 : owner <$> holders s1 !! h = Some (OServer id)) by (rewrite <-lookup_fmap, E5, lookup_fmap, Hx; cbn; congruence).
    destruct hd as [|h'|i]; cbn in Hn'; [done| |done]. destruct (holders s1 !! h') as [y|] eqn:Hy; [|done]. cbn in Hn'.
    destruct (owner y) eqn:Hoy; simplify_eq. rewrite Hy in Hx1. cbn in Hx1. congruence.
Qed.

(** A connection that fails leaves the loop with freed memory: the callback ignores the
    status, and when reading cannot start it deletes the socket whose pipe was initialized
    and not closed; the loop still has the handle, and the next handle is linked with it. *)
Theorem failed_connect_dangles (xs : list step) (s : St) (h : nat) :
  orderly false xs = true -> run St_init xs = Ret s -> h ∈ connects s ->
  exists s', run_step s (SConnected h false []) = Ret s' /\ HPipe h ∈ registered s' /\ allocated s' (HPipe h) = false /\
    HPipe h ∉ closing s' /\ forall hd, uv_handle_init s' hd = Fault UseAfterFree.
Proof.
  intros Ho Hr Hc. destruct (reached xs s Ho Hr) as [[Hl Hown] _].
  destruct (proj1 (o_clients s Hown h) (or_intror Hc)) as (x & Hx & _ & Hcl).
  cbn [run_step]. rewrite bool_decide_eq_true_2 by done. unfold OnConnectCb. rewrite Hx. cbn. eexists. split; [done|].
  assert (Hreg : HPipe h ∈ registered s) by (apply (l_pipe s Hl); eauto).
  assert (Hna : bool_decide (is_Some (delete h (holders s) !! h)) = false).
  { apply bool_decide_eq_false_2. rewrite lookup_delete_eq. by intros []. }
  split; [done|]. split; [done|]. split; [done|]. intros hd. unfold uv_handle_init. cbn.
  destruct (forallb _ _) eqn:Hf; [|done]. rewrite forallb_forall in Hf.
  specialize (Hf (HPipe h)). cbn in Hf. rewrite Hna in Hf. by discriminate Hf; apply list_elem_of_In, elem_of_elements.
Qed.

(** The end of a stream with bytes that do not decode is the end of nothing: the delegate is
    only told of an error, the session stays, and its socket is not read again. *)
Theorem bad_end_keeps_session (xs : list step) (s : St) (id : Z) (h : nat) (x : Holder) (l : list action) :
  orderly false xs = true -> run St_init xs = Ret s -> sessions s !! id = Some h -> holders s !! h = Some x ->
  reading x = true -> (Decode (decoder_ (socket x))).2 = DecodingStateError ->
  exists s', run_step s (SEof h l) = Ret s' /\ sessions s' !! id = Some h /\ log s' = log s ++ [NEof h] /\
    forall data l', run_step s' (SData h data) = Ret s' /\ run_step s' (SEof h l') = Ret s'.
Proof.
  intros Ho Hr Hs Hx Hrd Hd. destruct (reached xs s Ho Hr) as [[Hl Hown] _].
  destruct (proj1 (o_sessions s Hown id h) Hs) as (x' & Hx' & _ & Hc). assert (x' = x) as -> by congruence.
  assert (Ha : active s (HPipe h) = true).
  { apply bool_decide_eq_true_2. split; [apply (l_pipe s Hl); eauto|done]. }
  destruct (OnEoF_total (socket x) (l_sock s Hl h x Hx)) as (k & Hk).
  cbn [run_step]. rewrite Ha, Hx, Hrd. unfold OnEof. rewrite Hk. cbn [mbind outcome_bind]. rewrite Hd.
  eexists. split; [done|]. split; [done|]. split; [done|]. intros data l'.
  match goal with |- context [active ?s' (HPipe h)] => assert (Ha' : active s' (HPipe h) = true) by exact Ha; rewrite Ha' end.
  cbn. by rewrite !lookup_insert_eq.
Qed.

(** An answer after the server was deleted uses it: the delegate of a socket whose close
    callback has not run yet looks for its session in the server.  The server's close
    callback runs first when it was closed last, and deleting the sockets calls closures. *)
Theorem late_answer_uses_freed_server (f : Frame Message) :
  run St_init [SInit true true true; SConnection 0 AcceptOk; SConnection 0 AcceptOk; SAct AClose;
    SClosed HServer []; SClosed (HPipe 1) [AWrite 0 f true]] = Fault UseAfterFree.
Proof. vm_compute. reflexivity. Qed.

End server.

(** * Witnesses *)

(** Two connections whose reads and immediates are interleaved; the second client goes. *)
Definition ex_history : list (@step (MessageType * bytes)) :=
  [SInit true true true; SConnection 0 AcceptOk; SConnection 0 InitFailed; SConnection 0 AcceptOk;
   SData 0 (take 10 (wire ex_frames)); SData 2 (take 30 (wire ex_frames)); SIdle 3 [];
   SData 0 (drop 10 (wire ex_frames)); SClosed (HIdle 3) []; SIdle 4 [AWrite 2 (mkFrame Response 7 Trigger OK (ResponseMessage Trigger, [x05])) true];
   SData 0 []; SEof 2 []; SIdle 5 []].

Definition ex_reached : @St (MessageType * bytes) := match run St_init ex_history with Ret s => s | Fault _ => St_init end.

Definition ex_holder : @Holder (MessageType * bytes) := default (mkHolder socket_init None OClient false) (holders ex_reached !! 0%nat).

Lemma server_sockets_safe_witness : exists s, run St_init ex_history = Ret s /\
  (forall hd, hd ∈ registered s -> allocated s hd = true) /\
  (forall id h, sessions s !! id = Some h <-> open_as s h (OServer id)) /\
  (forall h, h ∈ clients s \/ h ∈ connects s <-> open_as s h OClient).
Proof. apply (server_sockets_safe ex_history). vm_compute. reflexivity. Defined.

Lemma sessions_are_isolated_witness :
  IpcSocket.log (socket ex_holder) `prefix_of` (frame_event <$> ex_frames) /\
  (HPipe 0 ∉ closing ex_reached -> immediate ex_holder = None -> IpcSocket.log (socket ex_holder) = frame_event <$> ex_frames).
Proof.
  apply (sessions_are_isolated ex_history ex_reached 0%nat ex_holder ex_frames);
    [vm_compute; reflexivity..| |apply ex_frames_ok|vm_compute; reflexivity].
  rewrite list_elem_of_In. vm_compute. intuition discriminate.
Defined.

Lemma close_releases_everything_witness : exists s1, act_step ex_reached AClose = Ret s1 /\
  forall cl, cl ≡ₚ elements (closing s1) -> exists s2,
    ServerRun ex_reached [SAct AClose :: ((fun hd => SClosed hd []) <$> cl)] = Ret (Some (0, s2)) /\
    holders s2 = ∅ /\ idles s2 = ∅ /\ writes s2 = ∅ /\ registered s2 = ∅ /\ deleted (server s2) = true /\
    log s2 = log ex_reached ++ omap (closed_note s1) cl /\ ServiceClosed ∈ omap (closed_note s1) cl /\
    (forall id h, sessions ex_reached !! id = Some h -> SocketClosed h ∉ omap (closed_note s1) cl).
Proof.
  apply (close_releases_everything ex_history); [vm_compute; reflexivity..| |vm_compute; reflexivity].
  split; [vm_compute; reflexivity|]. split; [vm_compute; reflexivity|]. apply map_Forall_to_list. vm_compute.
  repeat constructor; discriminate.
Defined.

(** A client that cannot connect, and one that sends what no header is. *)
Definition ex_connecting : @St (MessageType * bytes) :=
  match run St_init [SAct (AConnect true)] with Ret s => s | Fault _ => St_init end.

Lemma failed_connect_dangles_witness :
  exists s', run_step ex_connecting (SConnected 0 false []) = Ret s' /\ HPipe 0 ∈ registered s' /\
    allocated s' (HPipe 0) = false /\ HPipe 0 ∉ closing s' /\ forall hd, uv_handle_init s' hd = Fault UseAfterFree.
Proof.
  apply (failed_connect_dangles [SAct (AConnect true)] ex_connecting 0%nat); [vm_compute; reflexivity..|].
  apply (bool_decide_eq_true_1 (0%nat ∈ connects ex_connecting)). vm_compute. reflexivity.
Defined.

Definition ex_garbage : list (@step (MessageType * bytes)) :=
  [SInit true true true; SConnection 0 AcceptOk; SData 0 (replicate 30 xff)].

Definition ex_garbled : @St (MessageType * bytes) := match run St_init ex_garbage with Ret s => s | Fault _ => St_init end.

Lemma bad_end_keeps_session_witness :
  exists s', run_step ex_garbled (SEof 0 []) = Ret s' /\ sessions s' !! 0 = Some 0%nat /\ log s' = log ex_garbled ++ [NEof 0] /\
    forall data l', run_step s' (SData 0 data) = Ret s' /\ run_step s' (SEof 0 l') = Ret s'.
Proof.
  apply (bad_end_keeps_session ex_garbage ex_garbled 0 0%nat
    (default (mkHolder socket_init None OClient false) (holders ex_garbled !! 0%nat)) []); vm_compute; reflexivity.
Defined.
