(* ===== verification/JsMessages.v ===== *)
(** Conversions between JavaScript values and protocol messages:
    src/src/agent_channel/noslated_data_channel.cc.

    A JavaScript string is represented by its UTF-8 bytes.  V8's conversions of
    values that are not of the expected type are parameters ([v8_string],
    [v8_number]); [NewFromUtf8(c_str())] and [set_x( *utf8)] stop at the first NUL
    byte, which the model keeps. *)

From S2P Require Import Prelude IpcMessage.

Module JsKeys.
Import String.StringSyntax.
Local Open Scope string_scope.
Definition k_message := bs "message".
Definition k_stack := bs "stack".
Definition k_status := bs "status".
Definition k_headers := bs "headers".
Definition k_method := bs "method".
Definition k_metadata := bs "metadata".
Definition k_url := bs "url".
Definition k_baggage := bs "baggage".
Definition k_sid := bs "sid".
Definition k_hasInputData := bs "hasInputData".
Definition k_hasOutputData := bs "hasOutputData".
Definition k_isEos := bs "isEos".
Definition k_isError := bs "isError".
Definition k_data := bs "data".
Definition k_resourceId := bs "resourceId".
Definition k_token := bs "token".
Definition k_requestId := bs "requestId".
Definition k_app := bs "app".
Definition k_body := bs "body".
Definition k_name := bs "name".
Definition k_operation := bs "operation".
Definition k_action := bs "action".
Definition k_code := bs "code".
Definition k_success_or_acquired := bs "success_or_acquired".
Definition k_peerMessage := bs "peerMessage".
Definition k_peerStack := bs "peerStack".
Definition request_failed := bs "Noslated request failed with CanonicalCode::".
Definition colon_space := bs ": ".
Definition code_name (c : CanonicalCode) : bytes :=
  match c with
  | OK => bs "OK" | INTERNAL_ERROR => bs "INTERNAL_ERROR" | TIMEOUT => bs "TIMEOUT"
  | NOT_IMPLEMENTED => bs "NOT_IMPLEMENTED" | CONNECTION_RESET => bs "CONNECTION_RESET"
  | CLIENT_ERROR => bs "CLIENT_ERROR" | CANCELLED => bs "CANCELLED"
  end.
End JsKeys.
Export JsKeys.

(** * JavaScript values *)

Inductive js :=
  | JUndefined
  | JBool (b : bool)
  | JNum (z : Z)
  | JStr (s : bytes)
  | JArr (l : list js)
  | JObj (props : list (bytes * js))
  | JBuf (data : bytes).

(** Property read ([Object::Get]) and write ([Object::Set]); own properties in
    insertion order. *)
Fixpoint props_get (props : list (bytes * js)) (k : bytes) : js :=
  match props with
  | [] => JUndefined
  | (k', v) :: props' => if bool_decide (k' = k) then v else props_get props' k
  end.

Fixpoint props_set (props : list (bytes * js)) (k : bytes) (v : js) : list (bytes * js) :=
  match props with
  | [] => [(k, v)]
  | (k', v') :: props' =>
      if bool_decide (k' = k) then (k, v) :: props' else (k', v') :: props_set props' k v
  end.

Definition js_get (o : js) (k : bytes) : js :=
  match o with JObj props => props_get props k | _ => JUndefined end.
Definition js_has (o : js) (k : bytes) : bool :=
  match o with JObj props => bool_decide (k ∈ props.*1) | _ => false end.
Definition js_elem (a : js) (i : nat) : js :=
  match a with JArr l => nth i l JUndefined | _ => JUndefined end.
Definition js_length (a : js) : nat := match a with JArr l => length l | _ => 0 end.
Definition js_true (v : js) : bool := match v with JBool b => b | _ => false end.

(** [String::NewFromUtf8(isolate, str.c_str())] *)
Definition to_js (s : bytes) : js := JStr (c_str s).

(** * Messages of src/src/proto/noslated.proto *)

Definition KeyValuePair : Type := bytes * bytes.

Record ErrorResponse := mkError { e_message : option bytes; e_stack : option bytes }.
Record TriggerMetadata := mkMetadata {
  m_url : option bytes; m_method : option bytes;
  m_headers : list KeyValuePair; m_baggage : list KeyValuePair }.
Record TriggerRequest := mkTrigger {
  t_method : bytes; t_metadata : TriggerMetadata; t_sid : option Z;
  t_has_input_data : bool; t_has_output_data : bool }.
Record TriggerResponse := mkTriggerResponse { tr_status : Z; tr_headers : list KeyValuePair }.
Record StreamPushRequest := mkStreamPush {
  sp_sid : Z; sp_is_eos : bool; sp_data : option bytes; sp_is_error : option bool }.
Record FetchRequest := mkFetch {
  fq_url : bytes; fq_method : bytes; fq_headers : list KeyValuePair;
  fq_sid : option Z; fq_request_id : option Z }.
Record FetchResponse := mkFetchResponse {
  fr_status : Z; fr_headers : list KeyValuePair; fr_sid : Z }.
Record DaprInvokeRequest := mkDaprInvoke { di_app_id : bytes; di_method_name : bytes; di_data : bytes }.
Record DaprBindingRequest := mkDaprBinding {
  db_name : bytes; db_metadata : list KeyValuePair; db_operation : bytes; db_data : bytes }.
Record ExtensionBindingRequest := mkExtensionBinding {
  eb_name : bytes; eb_metadata : bytes; eb_operation : bytes; eb_data : option bytes }.
Record BindingResponse := mkBindingResponse {
  br_status : Z; br_data : option bytes; br_metadata : list KeyValuePair }.
Record ResourceNotificationRequest := mkResourceNotification { rn_resource_id : bytes; rn_token : bytes }.
Record ResourcePutRequest := mkResourcePut { rp_action : Z; rp_resource_id : bytes; rp_token : bytes }.
Record ResourcePutResponse := mkResourcePutResponse { rr_success : bool; rr_token : bytes }.

Record IntegerRecord := mkIntegerRecord {
  ir_name : bytes; ir_labels : list KeyValuePair; ir_value : Z }.

(** One message of the channel, of the class its kind says. *)
Inductive ChannelMessage :=
  | MTrigger (m : TriggerRequest)
  | MTriggerResponse (m : TriggerResponse)
  | MStreamPush (m : StreamPushRequest)
  | MFetch (m : FetchRequest)
  | MFetchResponse (m : FetchResponse)
  | MFetchAbort (request_id : Z)
  | MDaprInvoke (m : DaprInvokeRequest)
  | MDaprBinding (m : DaprBindingRequest)
  | MExtensionBinding (m : ExtensionBindingRequest)
  | MBindingResponse (m : BindingResponse)
  | MStreamOpenResponse (sid : Z)
  | MResourceNotification (m : ResourceNotificationRequest)
  | MResourcePut (m : ResourcePutRequest)
  | MResourcePutResponse (m : ResourcePutResponse)
  | MCredentials (cred : bytes)
  | MMetrics (records : list IntegerRecord)
  | MError (e : ErrorResponse)
  | MEmpty.

Section convert.
(** ToString and ToNumber of V8 on values that are not strings, resp. numbers. *)
Context (v8_string : js -> bytes) (v8_number : js -> Z).

(** [String::Utf8Value u(isolate, v); set_x( *u)] *)
Definition utf8 (v : js) : bytes :=
  c_str (match v with JStr s => s | _ => v8_string v end).
Definition number (v : js) : Z := match v with JNum z => z | _ => v8_number v end.
(** [Uint32Value] and [Int32Value] *)
Definition Uint32Value (v : js) : Z := u32 (number v).
Definition Int32Value (v : js) : Z := i32 (number v).

(** Contents of a Uint8Array argument. *)
Definition array_data (v : js) : bytes := match v with JBuf d => d | _ => [] end.

(** ** Incoming requests: message to parameters *)

Definition pair_to_js (kv : KeyValuePair) : js := JArr [to_js kv.1; to_js kv.2].
Definition pair_of_js (v : js) : KeyValuePair := (utf8 (js_elem v 0), utf8 (js_elem v 1)).

Definition set_opt (k : bytes) (v : option js) (props : list (bytes * js)) : list (bytes * js) :=
  match v with Some v => props_set props k v | None => props end.

(** [src/src/agent_channel/noslated_data_channel.cc 218-288, NoslatedDataChannel::Trigger]
    The parameters emitted for a trigger request. *)
Definition trigger_params (req : TriggerRequest) : js :=
  let r_metadata := t_metadata req in
  let metadata :=
    props_set (props_set
      (set_opt k_method (to_js <$> m_method r_metadata)
        (set_opt k_url (to_js <$> m_url r_metadata) []))
      k_headers (JArr (pair_to_js <$> m_headers r_metadata)))
      k_baggage (JArr (pair_to_js <$> m_baggage r_metadata)) in
  JObj (set_opt k_sid (JNum <$> t_sid req)
    (props_set (props_set (props_set (props_set []
      k_method (to_js (t_method req)))
      k_metadata (JObj metadata))
      k_hasInputData (JBool (t_has_input_data req)))
      k_hasOutputData (JBool (t_has_output_data req)))).

(** [src/src/agent_channel/noslated_data_channel.cc 310-345, NoslatedDataChannel::StreamPush] *)
Definition stream_push_params (req : StreamPushRequest) : js :=
  let props := props_set (props_set (props_set []
      k_sid (JNum (sp_sid req))) k_isEos (JBool (sp_is_eos req)))
      k_isError (JBool (default false (sp_is_error req))) in
  match sp_data req with
  | Some d => if negb (sp_is_eos req) then JObj (props_set props k_data (JBuf d)) else JObj props
  | None => JObj props
  end.

(** [src/src/agent_channel/noslated_data_channel.cc 408-420, NoslatedDataChannel::ResourceNotification] *)
Definition resource_notification_params (req : ResourceNotificationRequest) : js :=
  JObj [(k_resourceId, to_js (rn_resource_id req)); (k_token, to_js (rn_token req))].

(** ** Feedback of JavaScript: parameters to a reply *)

(** [src/src/agent_channel/noslated_data_channel.cc 167-217, NoslatedDataChannel::Trigger]
    The closure stored for a trigger: code, error and body of the reply. *)
Definition trigger_reply (code : CanonicalCode) (params : js)
    : CanonicalCode * option ChannelMessage * option ChannelMessage :=
  if decide (code = OK) then
    let headers := js_get params k_headers in
    let hs := map (fun i => pair_of_js (js_elem headers i)) (seq 0 (js_length headers)) in
    (code, None, Some (MTriggerResponse (mkTriggerResponse (Int32Value (js_get params k_status)) hs)))
  else
    (code, Some (MError (mkError (Some (utf8 (js_get params k_message)))
                                 (Some (utf8 (js_get params k_stack))))), None).

(** [src/src/agent_channel/noslated_data_channel.cc 304-309, NoslatedDataChannel::StreamPush]
    Also the closure of ResourceNotification (402-407): an empty response
    whatever the parameters. *)
Definition empty_reply (code : CanonicalCode) (params : js)
    : CanonicalCode * option ChannelMessage * option ChannelMessage :=
  (code, None, Some MEmpty).

(** ** Outgoing calls: parameters to a request *)

(** [src/src/agent_channel/noslated_data_channel.cc 455-465, NoslatedDataChannel::CallFetch]
    The loop [i += 2] over the flat header array. *)
Fixpoint flat_pairs (fuel i : nat) (headers : js) : list KeyValuePair :=
  match fuel with
  | O => []
  | S fuel' =>
      if (i <? js_length headers)%nat
      then (utf8 (js_elem headers i), utf8 (js_elem headers (i + 1))) :: flat_pairs fuel' (i + 2) headers
      else []
  end.

(** [src/src/agent_channel/noslated_data_channel.cc 423-466, NoslatedDataChannel::CallFetch] *)
Definition fetch_request (params : js) : FetchRequest :=
  let headers := js_get params k_headers in
  mkFetch (utf8 (js_get params k_url)) (utf8 (js_get params k_method))
    (flat_pairs (js_length headers) 0 headers)
    (if js_has params k_sid then Some (Uint32Value (js_get params k_sid)) else None)
    (Some (Uint32Value (js_get params k_requestId))).

(** [src/src/agent_channel/noslated_data_channel.cc 523-528, NoslatedDataChannel::CallFetchAbort] *)
Definition fetch_abort_request (params : js) : Z := Uint32Value (js_get params k_requestId).

(** [src/src/agent_channel/noslated_data_channel.cc 585-616, NoslatedDataChannel::CallStreamPush] *)
Definition stream_push_request (params : js) : StreamPushRequest :=
  let is_eos := js_true (js_get params k_isEos) in
  mkStreamPush (Uint32Value (js_get params k_sid)) is_eos
    (if negb is_eos then Some (array_data (js_get params k_data)) else None)
    (Some (js_true (js_get params k_isError))).

(** [src/src/agent_channel/noslated_data_channel.cc 641-668, NoslatedDataChannel::CallDaprInvoke] *)
Definition dapr_invoke_request (params : js) : DaprInvokeRequest :=
  mkDaprInvoke (utf8 (js_get params k_app)) (utf8 (js_get params k_method))
               (array_data (js_get params k_body)).

(** [src/src/agent_channel/noslated_data_channel.cc 721-770, NoslatedDataChannel::CallDaprBinding]
    The metadata object is walked over its property names. *)
Definition dapr_binding_request (params : js) : DaprBindingRequest :=
  let metadata := js_get params k_metadata in
  let names := match metadata with JObj props => props.*1 | _ => [] end in
  mkDaprBinding (utf8 (js_get params k_name))
    ((fun k => (utf8 (JStr k), utf8 (js_get metadata k))) <$> names)
    (utf8 (js_get params k_operation)) (array_data (js_get params k_body)).

(** [src/src/agent_channel/noslated_data_channel.cc 835-868, NoslatedDataChannel::CallExtensionBinding] *)
Definition extension_binding_request (params : js) : ExtensionBindingRequest :=
  mkExtensionBinding (utf8 (js_get params k_name)) (utf8 (js_get params k_metadata))
    (utf8 (js_get params k_operation)) (Some (array_data (js_get params k_body))).

(** [src/src/agent_channel/noslated_data_channel.cc 919-943, NoslatedDataChannel::CallResourcePut]
    [CHECK(ResourcePutAction_IsValid(action))]. *)
Definition resource_put_request (params : js) : outcome ResourcePutRequest :=
  let action := Int32Value (js_get params k_action) in
  CHECK ((0 <=? action) && (action <=? 2))%bool ;;
  Ret (mkResourcePut action (utf8 (js_get params k_resourceId)) (utf8 (js_get params k_token))).

(** ** Responses: message to the result passed to JavaScript *)

(** [src/src/agent_channel/noslated_data_channel.cc 489-513, NoslatedDataChannel::CallFetch] *)
Definition fetch_result (res : FetchResponse) : js :=
  JObj [(k_status, JNum (fr_status res));
        (k_headers, JArr (fr_headers res ≫= fun kv => [to_js kv.1; to_js kv.2]));
        (k_sid, JNum (fr_sid res))].

(** [src/src/agent_channel/noslated_data_channel.cc 693-711, NoslatedDataChannel::CallDaprInvoke] *)
Definition dapr_invoke_result (res : BindingResponse) : js :=
  JObj [(k_status, JNum (br_status res)); (k_body, JBuf (default [] (br_data res)))].

(** [src/src/agent_channel/noslated_data_channel.cc 788-830, NoslatedDataChannel::CallDaprBinding] *)
Definition dapr_binding_result (res : BindingResponse) : js :=
  let metadata := foldl (fun o kv => props_set o (c_str kv.1) (to_js kv.2)) [] (br_metadata res) in
  JObj [(k_status, JNum (br_status res)); (k_body, JBuf (default [] (br_data res)));
        (k_metadata, JObj metadata)].

(** [src/src/agent_channel/noslated_data_channel.cc 893-913, NoslatedDataChannel::CallExtensionBinding] *)
Definition extension_binding_result (res : BindingResponse) : js :=
  JObj ((k_status, JNum (br_status res)) ::
        match br_data res with Some d => [(k_body, JBuf d)] | None => [] end).

(** [src/src/agent_channel/noslated_data_channel.cc 964-977, NoslatedDataChannel::CallResourcePut] *)
Definition resource_put_result (res : ResourcePutResponse) : js :=
  JObj [(k_success_or_acquired, JBool (rr_success res)); (k_token, to_js (rr_token res))].

(** [src/src/agent_channel/noslated_data_channel.cc 1008-1049, NoslatedDataChannel::ErrorMessageToJsError]
    The properties of the error object handed to JavaScript. *)
Definition ErrorMessageToJsError (code : CanonicalCode) (error : option ErrorResponse) : js :=
  let message := error ≫= e_message in
  let msg := request_failed ++ code_name code ++
             match message with Some m => colon_space ++ m | None => [] end in
  JObj [(k_message, to_js msg); (k_code, JNum (code_num code));
        (k_peerMessage, to_js (default [] message));
        (k_peerStack, to_js (default [] (error ≫= e_stack)))].

(** * Lemmas *)

Lemma utf8_str s : no_nul s -> utf8 (JStr s) = s.
Proof. apply c_str_id. Qed.

Lemma utf8_to_js s : no_nul s -> utf8 (to_js s) = s.
Proof. intros H. unfold to_js. rewrite c_str_id by done. by apply c_str_id. Qed.

Definition pair_ok (kv : KeyValuePair) : Prop := no_nul kv.1 /\ no_nul kv.2.

Lemma pair_round kv : pair_ok kv -> pair_of_js (pair_to_js kv) = kv.
Proof.
  intros [H1 H2]. destruct kv as [k v]. unfold pair_of_js, pair_to_js. simpl in *.
  by rewrite !utf8_to_js.
Qed.

Definition flatten (hs : list KeyValuePair) : list js := hs ≫= fun kv => [to_js kv.1; to_js kv.2].

Lemma flat_pairs_spec hs : forall pre fuel,
  Forall pair_ok hs -> (length (flatten hs) <= fuel)%nat ->
  flat_pairs fuel (length pre) (JArr (pre ++ flatten hs)) = hs.
Proof.
  induction hs as [|[k v] hs IH]; intros pre fuel Hok Hfuel.
  - rewrite app_nil_r. destruct fuel; [done|]. simpl. by rewrite Nat.ltb_irrefl.
  - apply Forall_cons in Hok as [[Hk Hv] Hok]. simpl in Hfuel, Hk, Hv.
    destruct fuel as [|fuel]; [lia|]. cbn [flat_pairs js_length].
    rewrite (proj2 (Nat.ltb_lt _ _)) by (rewrite length_app; simpl; lia).
    cbn [js_elem]. rewrite app_nth2, Nat.sub_diag by lia.
    rewrite app_nth2 by lia. replace (length pre + 1 - length pre)%nat with 1%nat by lia.
    simpl nth. rewrite !utf8_to_js by done. f_equal.
    replace (length pre + 2)%nat with (length (pre ++ [to_js k; to_js v]))
      by (rewrite length_app; simpl; lia).
    change (pre ++ flatten ((k, v) :: hs)) with (pre ++ [to_js k; to_js v] ++ flatten hs).
    rewrite app_assoc. apply IH; [done|lia].
Qed.

Lemma nth_map_seq {A B} (f : A -> B) (l : list A) (d : A) :
  map (fun i => f (nth i l d)) (seq 0 (length l)) = f <$> l.
Proof.
  induction l as [|a l IH]; [done|]. simpl. f_equal.
  rewrite <- seq_shift, map_map. apply IH.
Qed.

(** * Properties *)

(** Headers survive the trip to the agent: a fetch whose header array is the
    flat list of names and values is sent with exactly those pairs in order, and
    the header array built for JavaScript from a response is that flat list, for
    strings without NUL bytes. *)
Theorem fetch_headers_roundtrip (hs : list KeyValuePair) (url method sid rid : js)
    (status rsid : Z) :
  Forall pair_ok hs ->
  let params := JObj [(k_url, url); (k_method, method); (k_headers, JArr (flatten hs));
                      (k_sid, sid); (k_requestId, rid)] in
  fq_headers (fetch_request params) = hs /\
  fq_headers (fetch_request (JObj [(k_url, url); (k_method, method);
    (k_headers, js_get (fetch_result (mkFetchResponse status hs rsid)) k_headers);
    (k_requestId, rid)])) = hs.
Proof.
  intros Hok. split; [|change (js_get (fetch_result _) k_headers) with (JArr (flatten hs))];
    apply (flat_pairs_spec hs []); [done|simpl; lia|done|simpl; lia].
Qed.

(** A trigger answered by JavaScript with OK is replied to with the status as
    a 32-bit integer and the header pairs in order; with any other code it is
    replied to with an error message holding the message and stack. *)
Theorem trigger_reply_faithful (status : Z) (hs : list KeyValuePair) (msg stack : bytes)
    (code : CanonicalCode) :
  Forall pair_ok hs -> no_nul msg -> no_nul stack -> - 2 ^ 31 <= status < 2 ^ 31 ->
  trigger_reply OK (JObj [(k_status, JNum status); (k_headers, JArr (pair_to_js <$> hs))])
    = (OK, None, Some (MTriggerResponse (mkTriggerResponse status hs))) /\
  (code <> OK ->
   trigger_reply code (JObj [(k_message, JStr msg); (k_stack, JStr stack)])
    = (code, Some (MError (mkError (Some msg) (Some stack))), None)).
Proof.
  intros Hok Hm Hs Hst. unfold trigger_reply. split.
  - rewrite decide_True by done.
    change (js_get _ k_status) with (JNum status).
    change (js_get _ k_headers) with (JArr (pair_to_js <$> hs)). cbn [js_length js_elem].
    rewrite (nth_map_seq pair_of_js). do 4 f_equal.
    + unfold Int32Value, i32, number. rewrite Z.mod_small by lia. lia.
    + rewrite <- list_fmap_compose. rewrite <- (list_fmap_id hs) at 2.
      apply list_fmap_ext. intros i kv Hkv. apply pair_round.
      rewrite Forall_lookup in Hok. eauto.
  - intros Hne. rewrite decide_False by done.
    change (js_get _ k_message) with (JStr msg). change (js_get _ k_stack) with (JStr stack).
    by rewrite !utf8_str.
Qed.

End convert.

(** * Witnesses *)

Definition ex_v8_string (_ : js) : bytes := [].
Definition ex_v8_number (_ : js) : Z := 0.

Lemma fetch_headers_roundtrip_witness :
  let hs := [([x61], [x62; x63]); ([x64], [])] in
  fq_headers (fetch_request ex_v8_string ex_v8_number
    (JObj [(k_url, JStr [x2f]); (k_method, JStr [x47]); (k_headers, JArr (flatten hs));
           (k_sid, JNum 3); (k_requestId, JNum 4)])) = hs.
Proof.
  intros hs. apply (fetch_headers_roundtrip ex_v8_string ex_v8_number hs
    (JStr [x2f]) (JStr [x47]) (JNum 3) (JNum 4) 200 7).
  repeat constructor; vm_compute; set_solver.
Defined.

Lemma trigger_reply_faithful_witness :
  trigger_reply ex_v8_string ex_v8_number OK
    (JObj [(k_status, JNum 404); (k_headers, JArr (pair_to_js <$> [([x61], [x62])]))])
    = (OK, None, Some (MTriggerResponse (mkTriggerResponse 404 [([x61], [x62])]))).
Proof.
  apply (trigger_reply_faithful ex_v8_string ex_v8_number 404 [([x61], [x62])] [x61] [x62] TIMEOUT);
    [repeat constructor; vm_compute; set_solver | vm_compute; set_solver | vm_compute; set_solver | lia].
Defined.
