(* ===== verification/DataChannel.v ===== *)
(** The data channel of a worker: src/src/agent_channel/noslated_data_channel.{h,cc}
    and src/src/agent_channel/data_channel.h.

    [Channel] holds the reference count, the socket ([None] is a null pointer,
    [Some b] a socket whose handle is referenced by the loop or not), the stored
    closures of requests waiting for JavaScript, and the delegate.  Closures of
    outgoing calls are [OutClosure] values that the delegate calls through
    [run_closure].  JavaScript is outside the program: its handler and callback
    are calls in a log ([js_log]), and what it does is the events of [cstep]. *)

From S2P Require Import Prelude IpcMessage IpcSocket IpcDelegate JsMessages.

Module ChannelText.
Import String.StringSyntax.
Local Open Scope string_scope.
Definition ev_trigger := bs "trigger".
Definition ev_streamPush := bs "streamPush".
Definition ev_resourceNotification := bs "resourceNotification".
Definition pid_label := bs "noslate.worker.pid".
Definition heap_fields : list bytes :=
  map (fun f => bs "noslate.worker." ++ bs f)
   ["total_heap_size"; "total_heap_size_executable"; "total_physical_size";
    "total_available_size"; "total_global_handles_size"; "used_global_handles_size";
    "used_heap_size"; "heap_size_limit"; "malloced_memory"; "external_memory";
    "peak_malloced_memory"; "number_of_native_contexts"; "number_of_detached_contexts"].
Definition not_setup_call := bs "Cannot invoke agent methods when agent is not setup".
Definition not_setup_feedback := bs "Cannot feedback to agent when agent is not setup".
Definition not_setup_ref := bs "Cannot ref agent when agent is not setup".
Definition not_setup_unref := bs "Cannot unref agent when agent is not setup".
Definition write_failed := bs "Failed to write to agent".
Definition not_implemented_text := bs "Not Implemented".
End ChannelText.
Export ChannelText.

(** The closure of an outgoing request: of a JavaScript call of some kind, or of
    the credentials sent when connecting. *)
Inductive OutClosure :=
  | CallClosure (kind : RequestKind) (req_id : Z)
  | CredentialsClosure.

Definition is_call (c : OutClosure) : Prop :=
  match c with CallClosure _ _ => True | CredentialsClosure => False end.

(** Calls into JavaScript. *)
Inductive JsEvent :=
  | JsCallback (id : Z) (exception params : js)
  | JsHandler (id : Z) (event : bytes) (params : js).

(** What a binding method gives back to JavaScript. *)
Inductive JsResult := Returned (v : js) | Thrown (msg : bytes).

Abbreviation CDelegate := (@Delegate ChannelMessage OutClosure).

(** [src/src/agent_channel/noslated_data_channel.h 108-116, NoslatedDataChannel]
    with [_connected] and [refed_] of AgentDataChannel (data_channel.h 48-50) and
    [seq_] of NoslatedService.  [user_refs] counts the [Ref] calls not yet undone
    by [Unref]; the code has no such field. *)
Record Channel := mkChannel {
  ref_count_ : Z;
  socket_ : option bool;
  ch_callbacks : gmap Z RequestKind;
  delegate_ : CDelegate;
  ch_seq : Z;
  _connected : bool;
  refed_ : bool;
  closed_ : bool;
  js_log : list JsEvent;
  user_refs : Z }.

Definition set_ref_count (c : Channel) (n : Z) : Channel :=
  mkChannel n (socket_ c) (ch_callbacks c) (delegate_ c) (ch_seq c) (_connected c) (refed_ c)
    (closed_ c) (js_log c) (user_refs c).
(** The delegate reads [channel_->socket_]. *)
Definition set_sock (c : Channel) (s : option bool) : Channel :=
  mkChannel (ref_count_ c) s (ch_callbacks c) (set_socket (delegate_ c) (bool_decide (is_Some s)))
    (ch_seq c) (_connected c) (refed_ c) (closed_ c) (js_log c) (user_refs c).
Definition set_ch_callbacks (c : Channel) (m : gmap Z RequestKind) : Channel :=
  mkChannel (ref_count_ c) (socket_ c) m (delegate_ c) (ch_seq c) (_connected c) (refed_ c)
    (closed_ c) (js_log c) (user_refs c).
Definition set_delegate (c : Channel) (d : CDelegate) : Channel :=
  mkChannel (ref_count_ c) (socket_ c) (ch_callbacks c) d (ch_seq c) (_connected c) (refed_ c)
    (closed_ c) (js_log c) (user_refs c).
Definition set_ch_seq (c : Channel) (n : Z) : Channel :=
  mkChannel (ref_count_ c) (socket_ c) (ch_callbacks c) (delegate_ c) n (_connected c) (refed_ c)
    (closed_ c) (js_log c) (user_refs c).
Definition set_conn (c : Channel) (b : bool) : Channel :=
  mkChannel (ref_count_ c) (socket_ c) (ch_callbacks c) (delegate_ c) (ch_seq c) b (refed_ c)
    (closed_ c) (js_log c) (user_refs c).
Definition set_closed (c : Channel) : Channel :=
  mkChannel (ref_count_ c) (socket_ c) (ch_callbacks c) (delegate_ c) (ch_seq c) (_connected c)
    (refed_ c) true (js_log c) (user_refs c).
Definition log_js (c : Channel) (e : JsEvent) : Channel :=
  mkChannel (ref_count_ c) (socket_ c) (ch_callbacks c) (delegate_ c) (ch_seq c) (_connected c)
    (refed_ c) (closed_ c) (js_log c ++ [e]) (user_refs c).
Definition add_user_ref (c : Channel) (n : Z) : Channel :=
  mkChannel (ref_count_ c) (socket_ c) (ch_callbacks c) (delegate_ c) (ch_seq c) (_connected c)
    (refed_ c) (closed_ c) (js_log c) (user_refs c + n).

Definition channel_init (refed : bool) : Channel :=
  mkChannel 0 None ∅ (delegate_init 0) 0 false refed false [] 0.

(** [src/src/ipc/ipc_socket_uv.cc 133-148, UvSocketHolder::Ref] [uv_ref] and
    [uv_unref] set a flag of the handle; both read the handle through the socket. *)
Definition socket_ref (c : Channel) (b : bool) : outcome Channel :=
  match socket_ c with
  | Some _ => Ret (set_sock c (Some b))
  | None => Fault NullDeref
  end.

Section channel.
(** V8's conversions, the sizes V8 reports, the process id as text, the
    serialised size of default messages, and whether the JavaScript callback
    returned (rather than threw). *)
Context (v8_string : js -> bytes) (v8_number : js -> Z).
Context (default_message : MessageType -> ChannelMessage).
Context (heap_statistics : list Z) (pid : bytes).
Context (callback_returns : Z -> js -> js -> bool).
Context (cred_ : bytes).

(** ** References *)

(** The sequence that [Ref], [Emit] and [JsCall] share, and the one that [Unref]
    and [Feedback] share; the count is a [uint32_t]. *)
Definition acquire (c : Channel) : outcome Channel :=
  c ← (if ref_count_ c =? 0 then socket_ref c true else Ret c);
  Ret (set_ref_count c (u32 (ref_count_ c + 1))).

Definition release (c : Channel) : outcome Channel :=
  let c := set_ref_count c (u32 (ref_count_ c - 1)) in
  if ref_count_ c =? 0 then socket_ref c false else Ret c.

(** [src/src/agent_channel/noslated_data_channel.cc 139-145, NoslatedDataChannel::Ref] *)
Definition Ref (c : Channel) : outcome Channel := c ← acquire c; Ret (add_user_ref c 1).

(** [src/src/agent_channel/noslated_data_channel.cc 147-153, NoslatedDataChannel::Unref] *)
Definition Unref (c : Channel) : outcome Channel := release (add_user_ref c (-1)).

(** ** Calls into JavaScript *)

(** [src/src/agent_channel/noslated_data_channel.cc 60-90, NoslatedDataChannel::Callback] *)
Definition Callback (c : Channel) (id : Z) (exception params : js) : outcome Channel :=
  let c := set_ref_count c (u32 (ref_count_ c - 1)) in
  c ← (if ((ref_count_ c =? 0) && bool_decide (is_Some (socket_ c)))%bool
       then socket_ref c false else Ret c);
  let c := log_js c (JsCallback id exception params) in
  CHECK (callback_returns id exception params) ;;
  Ret c.

(** [src/src/agent_channel/noslated_data_channel.cc 92-115, NoslatedDataChannel::Emit] *)
Definition Emit (c : Channel) (id : Z) (event : bytes) (params : js) : outcome Channel :=
  c ← acquire c;
  Ret (log_js c (JsHandler id event params)).

(** [src/src/agent_channel/noslated_data_channel.cc 117-137, NoslatedDataChannel::Feedback]
    The closure answers through the delegate. *)
Definition Feedback (c : Channel) (id code : Z) (params : js) : outcome (Channel * bool) :=
  match list_find (fun k => code_num k = code)
          [OK; INTERNAL_ERROR; TIMEOUT; NOT_IMPLEMENTED; CONNECTION_RESET; CLIENT_ERROR; CANCELLED] with
  | None => Fault CheckFailed
  | Some (_, canonical) =>
      match ch_callbacks c !! id with
      | None => Ret (c, false)
      | Some kind =>
          c ← release c;
          let c := set_ch_callbacks c (delete id (ch_callbacks c)) in
          let '(code, error, res) :=
            match kind with
            | Trigger => trigger_reply v8_string v8_number canonical params
            | _ => empty_reply canonical params
            end in
          Ret (set_delegate c (Reply default_message (delegate_ c) true id kind code error res), true)
      end
  end.

(** ** Incoming requests *)

(** [src/src/agent_channel/noslated_data_channel.cc 348-387, NoslatedDataChannel::CollectMetrics] *)
Definition metrics_response : ChannelMessage :=
  MMetrics ((fun nv => mkIntegerRecord nv.1 [(pid_label, pid)] nv.2) <$>
            zip heap_fields heap_statistics).

Definition store (c : Channel) (id : Z) (kind : RequestKind) : Channel :=
  set_ch_callbacks c (<[id := kind]> (ch_callbacks c)).

(** [src/src/agent_channel/noslated_data_channel.cc 155-289, NoslatedDataChannel::Trigger] *)
Definition on_Trigger (c : Channel) (id : Z) (req : TriggerRequest) : outcome Channel :=
  Emit (store c id Trigger) id ev_trigger (trigger_params req).

(** [src/src/agent_channel/noslated_data_channel.cc 291-346, NoslatedDataChannel::StreamPush] *)
Definition on_StreamPush (c : Channel) (id : Z) (req : StreamPushRequest) : outcome Channel :=
  Emit (store c id StreamPush) id ev_streamPush (stream_push_params req).

(** [src/src/agent_channel/noslated_data_channel.cc 389-421, NoslatedDataChannel::ResourceNotification] *)
Definition on_ResourceNotification (c : Channel) (id : Z) (req : ResourceNotificationRequest)
    : outcome Channel :=
  Emit (store c id ResourceNotification) id ev_resourceNotification
    (resource_notification_params req).

(** [src/src/ipc/ipc_service.h 60-70, NoslatedService] The service methods the
    channel overrides; CollectMetrics answers at once, and the others answer
    NOT_IMPLEMENTED.  A body is parsed as the class of its kind. *)
Definition handle_request (c : Channel) (id : Z) (kind : RequestKind) (body : option ChannelMessage)
    : outcome Channel :=
  match kind, body with
  | Trigger, Some (MTrigger req) => on_Trigger c id req
  | StreamPush, Some (MStreamPush req) => on_StreamPush c id req
  | ResourceNotification, Some (MResourceNotification req) => on_ResourceNotification c id req
  | (Trigger | StreamPush | ResourceNotification), _ => Fault NullDeref
  | CollectMetrics, _ =>
      Ret (set_delegate c (Reply default_message (delegate_ c) true id kind OK None
                             (Some metrics_response)))
  | _, _ =>
      Ret (set_delegate c (Reply default_message (delegate_ c) true id kind NOT_IMPLEMENTED
                             (Some (MError (mkError (Some not_implemented_text) None))) None))
  end.

Definition on_request (c : Channel) (id kind : Z) (body : option ChannelMessage) : outcome Channel :=
  let c := set_delegate c (OnRequest (delegate_ c) id kind body) in
  match rkind_of kind with Some k => handle_request c id k body | None => Ret c end.

(** ** Outgoing calls *)

(** The result each closure hands to JavaScript for a response; a body that is
    missing is a null pointer. *)
Definition call_result (kind : RequestKind) (res : option ChannelMessage) : outcome js :=
  match kind, res with
  | Fetch, Some (MFetchResponse r) => Ret (fetch_result r)
  | FetchAbort, _ => Ret (JObj [])
  | StreamOpen, Some (MStreamOpenResponse sid) => Ret (JObj [(k_sid, JNum sid)])
  | StreamPush, _ => Ret JUndefined
  | DaprInvoke, Some (MBindingResponse r) => Ret (dapr_invoke_result r)
  | DaprBinding, Some (MBindingResponse r) => Ret (dapr_binding_result r)
  | ExtensionBinding, Some (MBindingResponse r) => Ret (extension_binding_result r)
  | ResourcePut, Some (MResourcePutResponse r) => Ret (resource_put_result r)
  | _, _ => Fault NullDeref
  end.

(** [src/src/agent_channel/data_channel.h 26-37, AgentDataChannel::set_connected] *)
Definition set_connected (c : Channel) : outcome Channel :=
  let c := set_conn c true in
  if refed_ c then Ref c else Ret c.

(** [src/src/agent_channel/noslated_data_channel.cc 990-1004, NoslatedDataChannel::OnConnect]
    The closure of the credentials request. *)
Definition on_credentials (c : Channel) (code : CanonicalCode) : outcome Channel :=
  if decide (code = OK) then c ← socket_ref c false; set_connected c
  else Ret (set_sock c None).

(** [src/src/agent_channel/noslated_data_channel.cc 468-514, NoslatedDataChannel::CallFetch]
    The closure of a call (the others differ in the result they build). *)
Definition run_closure (c : Channel) (i : @Invocation ChannelMessage OutClosure) : outcome Channel :=
  match inv_closure i with
  | CredentialsClosure => on_credentials c (inv_code i)
  | CallClosure kind id =>
      if decide (inv_code i = OK) then
        params ← call_result kind (inv_body i);
        Callback c id JUndefined params
      else
        let error := match inv_error i with Some (MError e) => Some e | _ => None end in
        Callback c id (ErrorMessageToJsError (inv_code i) error) JUndefined
  end.

Fixpoint run_closures (c : Channel) (invs : list (@Invocation ChannelMessage OutClosure))
    : outcome Channel :=
  match invs with [] => Ret c | i :: invs' => c ← run_closure c i; run_closures c invs' end.

(** A step of the delegate and the closures it calls, in order. *)
Definition with_delegate (c : Channel) (d : CDelegate) : outcome Channel :=
  run_closures (set_delegate c d) (drop (length (fired (delegate_ c))) (fired d)).

(** [src/src/ipc/ipc_service.cc 9-25, NoslatedService::Request] *)
Definition ServiceRequest (c : Channel) (controller : RpcController) (kind : RequestKind)
    (req : ChannelMessage) (closure : OutClosure) : outcome Channel :=
  d ← DelegateRequest (delegate_ c) (ctl_request controller) kind req (Some closure);
  with_delegate c d.

Definition call (kind : RequestKind) (c : Channel) (controller : RpcController)
    (req : ChannelMessage) : outcome Channel :=
  ServiceRequest c controller kind req (CallClosure kind (ctl_request controller)).

(** [src/src/agent_channel/noslated_data_channel.cc 423-515, NoslatedDataChannel::CallFetch] *)
Definition CallFetch (c : Channel) (controller : RpcController) (params : js) : outcome Channel :=
  call Fetch c controller (MFetch (fetch_request v8_string v8_number params)).

(** [src/src/agent_channel/noslated_data_channel.cc 517-550, NoslatedDataChannel::CallFetchAbort] *)
Definition CallFetchAbort (c : Channel) (controller : RpcController) (params : js) : outcome Channel :=
  call FetchAbort c controller (MFetchAbort (fetch_abort_request v8_number params)).

(** [src/src/agent_channel/noslated_data_channel.cc 552-581, NoslatedDataChannel::CallStreamOpen] *)
Definition CallStreamOpen (c : Channel) (controller : RpcController) (params : js) : outcome Channel :=
  call StreamOpen c controller MEmpty.

(** [src/src/agent_channel/noslated_data_channel.cc 583-637, NoslatedDataChannel::CallStreamPush] *)
Definition CallStreamPush (c : Channel) (controller : RpcController) (params : js) : outcome Channel :=
  call StreamPush c controller (MStreamPush (stream_push_request v8_number params)).

(** [src/src/agent_channel/noslated_data_channel.cc 639-713, NoslatedDataChannel::CallDaprInvoke] *)
Definition CallDaprInvoke (c : Channel) (controller : RpcController) (params : js) : outcome Channel :=
  call DaprInvoke c controller (MDaprInvoke (dapr_invoke_request v8_string params)).

(** [src/src/agent_channel/noslated_data_channel.cc 715-832, NoslatedDataChannel::CallDaprBinding] *)
Definition CallDaprBinding (c : Channel) (controller : RpcController) (params : js) : outcome Channel :=
  call DaprBinding c controller (MDaprBinding (dapr_binding_request v8_string params)).

(** [src/src/agent_channel/noslated_data_channel.cc 834-915, NoslatedDataChannel::CallExtensionBinding] *)
Definition CallExtensionBinding (c : Channel) (controller : RpcController) (params : js)
    : outcome Channel :=
  call ExtensionBinding c controller (MExtensionBinding (extension_binding_request v8_string params)).

(** [src/src/agent_channel/noslated_data_channel.cc 917-979, NoslatedDataChannel::CallResourcePut] *)
Definition CallResourcePut (c : Channel) (controller : RpcController) (params : js) : outcome Channel :=
  r ← resource_put_request v8_string v8_number params;
  call ResourcePut c controller (MResourcePut r).

(** [src/src/agent_channel/noslated_data_channel.cc 981-1006, NoslatedDataChannel::OnConnect] *)
Definition OnConnect (c : Channel) (ok : bool) : outcome Channel :=
  if ok then
    let c := set_sock c (Some true) in
    let '(controller, seq_) := NewControllerWithTimeout (ch_seq c) 0 1000 in
    ServiceRequest (set_ch_seq c seq_) controller Credentials (MCredentials cred_) CredentialsClosure
  else Ret (set_sock c None).

(** [src/src/agent_channel/noslated_data_channel.cc 1055-1058, NoslatedDataChannel::Disconnected] *)
Definition Disconnected (c : Channel) : Channel := set_sock c None.

(** [src/src/agent_channel/noslated_data_channel.cc 1060-1063, NoslatedDataChannel::Closed] *)
Definition Closed (c : Channel) : Channel := set_closed c.

(** ** The binding's methods; [None] is an agent that is not set up. *)

(** [src/src/agent_channel/noslated_data_channel.cc 1180-1198, NOSLATED_DATA_CHANNEL_METHODS]
    The methods exported to JavaScript through [JsCall]. *)
Definition method_of (kind : RequestKind) : option (Channel -> RpcController -> js -> outcome Channel) :=
  match kind with
  | Fetch => Some CallFetch | FetchAbort => Some CallFetchAbort
  | StreamOpen => Some CallStreamOpen | StreamPush => Some CallStreamPush
  | DaprInvoke => Some CallDaprInvoke | DaprBinding => Some CallDaprBinding
  | ExtensionBinding => Some CallExtensionBinding | ResourcePut => Some CallResourcePut
  | _ => None
  end.

(** [src/src/agent_channel/noslated_data_channel.cc 1081-1116, NoslatedDataChannel::JsCall] *)
Definition JsCall (func : Channel -> RpcController -> js -> outcome Channel)
    (channel : option Channel) (params : js) (timeout : js) : outcome (option Channel * JsResult) :=
  match channel with
  | None => Ret (None, Thrown not_setup_call)
  | Some c =>
      let timeout := Uint32Value v8_number timeout in
      c ← acquire c;
      let '(controller, seq_) := NewControllerWithTimeout (ch_seq c) 0 timeout in
      c ← func (set_ch_seq c seq_) controller params;
      Ret (Some c, Returned (JNum (ctl_request controller)))
  end.

(** [src/src/agent_channel/noslated_data_channel.cc 1118-1148, Feedback] *)
Definition js_Feedback (channel : option Channel) (id code params : js)
    : outcome (option Channel * JsResult) :=
  match channel with
  | None => Ret (None, Thrown not_setup_feedback)
  | Some c =>
      r ← Feedback c (Uint32Value v8_number id) (Int32Value v8_number code) params;
      Ret (Some r.1, if r.2 : bool then Returned JUndefined else Thrown write_failed)
  end.

(** [src/src/agent_channel/noslated_data_channel.cc 1150-1163, Ref] *)
Definition js_Ref (channel : option Channel) : outcome (option Channel * JsResult) :=
  match channel with
  | None => Ret (None, Thrown not_setup_ref)
  | Some c => c ← Ref c; Ret (Some c, Returned JUndefined)
  end.

(** [src/src/agent_channel/noslated_data_channel.cc 1165-1178, Unref] *)
Definition js_Unref (channel : option Channel) : outcome (option Channel * JsResult) :=
  match channel with
  | None => Ret (None, Thrown not_setup_unref)
  | Some c => c ← Unref c; Ret (Some c, Returned JUndefined)
  end.

(** ** Events *)

Inductive CEvent :=
  | CConnect (ok : bool)
  | CResponse (id : Z) (code : CanonicalCode) (body : option ChannelMessage)
  | CTimer (t : nat)
  | CRequest (id kind : Z) (body : option ChannelMessage)
  | CCall (kind : RequestKind) (params timeout : js)
  | CFeedback (id code : js) (params : js)
  | CRef
  | CUnref
  | CDisconnected
  | CClosed.

Definition drop_result (m : outcome (option Channel * JsResult)) : outcome Channel :=
  r ← m; match r.1 with Some c => Ret c | None => Fault NullDeref end.

Definition cstep (c : Channel) (e : CEvent) : outcome Channel :=
  match e with
  | CConnect ok => OnConnect c ok
  | CResponse id code body => with_delegate c (OnResponse (delegate_ c) id code body)
  | CTimer t => with_delegate c (OnTimer (delegate_ c) t)
  | CRequest id kind body => on_request c id kind body
  | CCall kind params timeout =>
      match method_of kind with
      | Some func => drop_result (JsCall func (Some c) params timeout)
      | None => Ret c
      end
  | CFeedback id code params => drop_result (js_Feedback (Some c) id code params)
  | CRef => drop_result (js_Ref (Some c))
  | CUnref => drop_result (js_Unref (Some c))
  | CDisconnected => Ret (Disconnected c)
  | CClosed => Ret (Closed c)
  end.

(** What the environment promises of an event: the agent answers only over a
    socket and does not reuse the id of a request that waits for JavaScript;
    bodies are of the class of their kind; JavaScript runs once the channel is
    connected ([WaitForAgent]), undoes only its own references, passes valid
    codes and actions; the count and the request ids do not wrap; and the
    callback does not throw. *)
Definition outstanding (c : Channel) : Z :=
  Z.of_nat (size (ch_callbacks c)) + Z.of_nat (length (pending (delegate_ c)))
  + user_refs c.

Definition usable (c : Channel) : Prop := _connected c = true /\ is_Some (socket_ c).

Definition body_ok (kind : Z) (body : option ChannelMessage) : Prop :=
  match rkind_of kind with
  | Some Trigger => exists m, body = Some (MTrigger m)
  | Some StreamPush => exists m, body = Some (MStreamPush m)
  | Some ResourceNotification => exists m, body = Some (MResourceNotification m)
  | _ => True
  end.

Definition allowed (c : Channel) (e : CEvent) : Prop :=
  outstanding c < 2 ^ 32 - 1 /\
  match e with
  | CConnect _ => _connected c = false /\ IpcDelegate.callbacks_ (delegate_ c) = ∅
  | CResponse id code body =>
      is_Some (socket_ c) /\
      (code = OK -> forall kind id', IpcDelegate.callbacks_ (delegate_ c) !! id = Some (Some (CallClosure kind id')) ->
         is_ret (call_result kind body) = true)
  | CTimer _ => True
  | CRequest id kind body => usable c /\ ch_callbacks c !! id = None /\ body_ok kind body
  | CCall kind params _ =>
      usable c /\ IpcDelegate.callbacks_ (delegate_ c) !! ch_seq c = None /\
      (kind = ResourcePut -> is_ret (resource_put_request v8_string v8_number params) = true)
  | CFeedback _ code _ => usable c /\ 0 <= Int32Value v8_number code <= 6
  | CRef => usable c
  | CUnref => usable c /\ 0 < user_refs c
  | CDisconnected | CClosed => True
  end.

(** ** Invariant *)

(** Before the agent accepted the credentials nothing holds a reference; from
    then on the count is the number of requests waiting for JavaScript, of calls
    waiting for the agent and of explicit references, and the socket keeps the
    loop alive exactly while the count is not zero. *)
Definition counted (c : Channel) : Prop :=
  if _connected c then
    Forall is_call (pending (delegate_ c)) /\ 0 <= user_refs c /\
    ref_count_ c = outstanding c /\ outstanding c < 2 ^ 32 /\
    (forall b, socket_ c = Some b -> b = negb (ref_count_ c =? 0))
  else
    ref_count_ c = 0 /\ ch_callbacks c = ∅ /\ user_refs c = 0 /\
    Forall (fun x => x = CredentialsClosure) (pending (delegate_ c)) /\
    (length (pending (delegate_ c)) <= 1)%nat.

Record channel_inv (c : Channel) : Prop := {
  ci_delegate : delegate_inv (delegate_ c);
  ci_socket : has_socket (delegate_ c) = bool_decide (is_Some (socket_ c));
  ci_counted : counted c }.

(** ** The reference count and the socket *)

Lemma set_sock_id c s :
  socket_ c = s -> has_socket (delegate_ c) = bool_decide (is_Some s) -> set_sock c s = c.
Proof. intros <- Hs. unfold set_sock. rewrite <- Hs. destruct c as [? ? ? [] ?]. done. Qed.

Definition pinned (c : Channel) : Prop :=
  has_socket (delegate_ c) = bool_decide (is_Some (socket_ c)) /\
  (forall b, socket_ c = Some b -> b = negb (ref_count_ c =? 0)).

Lemma acquire_spec c :
  pinned c -> is_Some (socket_ c) -> 0 <= ref_count_ c < 2 ^ 32 - 1 ->
  acquire c = Ret (set_ref_count (set_sock c (Some true)) (ref_count_ c + 1)).
Proof.
  intros [Hs Hp] [b Hb] Hr. unfold acquire, socket_ref.
  destruct (Z.eqb_spec (ref_count_ c) 0) as [H0|H0]; rewrite ?Hb; simpl;
    (unfold u32; rewrite wrap_small by lia); [done|].
  rewrite set_sock_id; [done| |by rewrite Hs, Hb]. by rewrite Hb, (Hp _ Hb).
Qed.

Definition repin (c : Channel) : Channel :=
  set_sock c ((fun _ => negb (ref_count_ c =? 0)) <$> socket_ c).

Lemma release_spec c :
  pinned c -> is_Some (socket_ c) -> 0 < ref_count_ c < 2 ^ 32 ->
  release c = Ret (repin (set_ref_count c (ref_count_ c - 1))).
Proof.
  intros [Hs Hp] [b Hb] Hr. unfold release, repin, socket_ref, u32. rewrite wrap_small by lia.
  simpl. rewrite Hb. simpl. destruct (ref_count_ c - 1 =? 0) eqn:E; [done|].
  simpl. rewrite set_sock_id; [done| |simpl; by rewrite Hs, Hb]. simpl. rewrite Hb. f_equal.
  rewrite (Hp _ Hb). apply Z.eqb_neq in E. apply negb_true_iff, Z.eqb_neq. lia.
Qed.

Lemma Callback_spec c id exc params :
  pinned c -> 0 < ref_count_ c < 2 ^ 32 -> callback_returns id exc params = true ->
  Callback c id exc params =
    Ret (log_js (repin (set_ref_count c (ref_count_ c - 1))) (JsCallback id exc params)).
Proof.
  intros Hp Hr Hcb. unfold Callback. rewrite Hcb.
  destruct (socket_ c) as [b|] eqn:Hb.
  - pose proof (release_spec c Hp ltac:(by rewrite Hb) Hr) as Hrel. unfold release in Hrel.
    simpl. rewrite Hb. rewrite andb_true_r. simpl in Hrel. by rewrite Hrel.
  - unfold u32. rewrite wrap_small by lia. simpl. rewrite Hb, andb_false_r. simpl.
    unfold repin. simpl. rewrite Hb. simpl. rewrite set_sock_id; simpl; [done..|].
    destruct Hp as [-> _]. by rewrite Hb.
Qed.

Lemma delegate_inv_socket (d : CDelegate) b : delegate_inv d -> delegate_inv (set_socket d b).
Proof. intros []. by split. Qed.

Lemma counted_pinned c : channel_inv c -> _connected c = true -> pinned c.
Proof.
  intros [_ Hs Hc] Hconn. unfold counted in Hc. rewrite Hconn in Hc. by destruct Hc as (? & ? & ? & ? & ?).
Qed.

Lemma repin_pinned c : _connected c = true -> pinned (repin c).
Proof. intros Hc. split; [done|]. simpl. destruct (socket_ c); simpl; congruence. Qed.

Lemma channel_inv_connected c :
  delegate_inv (delegate_ c) -> pinned c -> _connected c = true ->
  Forall is_call (pending (delegate_ c)) -> 0 <= user_refs c ->
  ref_count_ c = outstanding c -> outstanding c < 2 ^ 32 -> channel_inv c.
Proof. intros Hd [Hs Hp] Hc ????. split; [done..|]. unfold counted. by rewrite Hc. Qed.

Ltac counts := unfold outstanding in *; unfold pending in *; simpl in *; lia.

(** A closure called by the delegate ends in a channel that is again well
    counted. *)
Lemma run_call_ok c (d' : CDelegate) kind id code err body :
  (forall id exc params, callback_returns id exc params = true) ->
  channel_inv c -> _connected c = true ->
  delegate_inv d' -> has_socket d' = has_socket (delegate_ c) ->
  pending (delegate_ c) ≡ₚ CallClosure kind id :: pending d' ->
  (code = OK -> is_ret (call_result kind body) = true) ->
  exists c', run_closure (set_delegate c d') (mkInvocation (CallClosure kind id) code err body) = Ret c'
    /\ channel_inv c'.
Proof.
  intros Hret Hinv Hconn Hd' Hsock Hpend Hbody.
  pose proof (Permutation_length Hpend) as Hlen. simpl in Hlen.
  pose proof (counted_pinned c Hinv Hconn) as Hpin. destruct Hinv as [Hd Hs Hc].
  unfold counted in Hc. rewrite Hconn, Hpend in Hc. destruct Hc as (Hcalls & Hu & Hr & Hb & _).
  apply Forall_cons in Hcalls as [_ Hcalls].
  assert (Hcb : forall exc params, exists c',
    Callback (set_delegate c d') id exc params = Ret c' /\ channel_inv c').
  { intros exc params. unfold outstanding in *.
    rewrite Callback_spec; [|split; simpl; [by rewrite Hsock | apply Hpin]|simpl; lia|done].
    eexists. split; [done|]. apply channel_inv_connected; simpl; try done; [..|counts|counts].
    - by apply delegate_inv_socket.
    - split; [done|]. simpl. destruct (socket_ c); simpl; congruence. }
  unfold run_closure. simpl. case_decide as Hok; [|apply Hcb].
  specialize (Hbody Hok). destruct (call_result kind body); [apply Hcb|done].
Qed.

Lemma run_credentials_ok c (d' : CDelegate) code err body :
  channel_inv c -> _connected c = false ->
  delegate_inv d' -> pending (delegate_ c) ≡ₚ CredentialsClosure :: pending d' ->
  (code = OK -> is_Some (socket_ c)) ->
  exists c', run_closure (set_delegate c d') (mkInvocation CredentialsClosure code err body) = Ret c'
    /\ channel_inv c'.
Proof.
  intros [Hd Hs Hc] Hconn Hd' Hpend Hsome.
  pose proof (Permutation_length Hpend) as Hlen. simpl in Hlen.
  unfold counted in Hc. rewrite Hconn in Hc. destruct Hc as (Hr & Hcbs & Hu & _ & Hl).
  assert (Hnil : pending d' = []) by (apply length_zero_iff_nil; lia).
  assert (Hsz : size (ch_callbacks c) = 0%nat) by (rewrite Hcbs; apply map_size_empty).
  assert (Hnil0 : length (pending d') = 0%nat) by by rewrite Hnil.
  unfold run_closure, on_credentials. simpl. case_decide as Hok.
  - destruct (Hsome Hok) as [b Hb]. unfold socket_ref. simpl. rewrite Hb. simpl.
    unfold set_connected. simpl. set (c1 := set_conn _ _).
    assert (Hc1 : channel_inv c1).
    { apply channel_inv_connected; simpl; try done; [..|lia|counts|counts].
      - by apply delegate_inv_socket.
      - split; [done|]. simpl. intros ? [= <-]. by rewrite Hr.
      - unfold pending in *. simpl. by rewrite Hnil. }
    destruct (refed_ c); [|by eauto].
    unfold Ref. rewrite acquire_spec; [|by apply counted_pinned|by eexists|simpl; lia].
    eexists. split; [done|]. apply channel_inv_connected; simpl; try done; [..|lia|counts|counts].
    + by do 2 apply delegate_inv_socket.
    + split; [done|]. simpl. intros ? [= <-]. by rewrite Hr.
    + unfold pending in *. simpl. by rewrite Hnil.
  - eexists. split; [done|]. split; simpl; [by apply delegate_inv_socket|done|].
    unfold counted. simpl. rewrite Hconn. unfold pending in *. simpl. rewrite Hnil.
    split_and!; try done. simpl. lia.
Qed.

Lemma with_delegate_response c id code body :
  (forall id exc params, callback_returns id exc params = true) ->
  channel_inv c ->
  (code = OK -> is_Some (socket_ c)) ->
  (code = OK -> forall kind id',
     IpcDelegate.callbacks_ (delegate_ c) !! id = Some (Some (CallClosure kind id')) ->
     is_ret (call_result kind body) = true) ->
  exists c', with_delegate c (OnResponse (delegate_ c) id code body) = Ret c' /\ channel_inv c'.
Proof.
  intros Hret Hinv Hsome Hbody. pose proof (ci_delegate _ Hinv) as Hd.
  unfold with_delegate.
  destruct (OnResponse_pending (delegate_ c) id code body Hd) as [[_ ->]|(cl & Hcl & Hf & Hp & Hs)].
  - rewrite drop_all. simpl. eexists. split; [done|]. by destruct c.
  - pose proof (OnResponse_inv _ id code body Hd) as Hd'. rewrite Hf, drop_app_length.
    cbn [run_closures]. set (err := if decide _ then _ else _). set (bd := if decide _ then _ else _).
    assert (exists c', run_closure (set_delegate c (OnResponse (delegate_ c) id code body))
              (mkInvocation cl code err bd) = Ret c' /\ channel_inv c') as (c' & -> & Hc').
    { destruct (_connected c) eqn:Hconn, cl as [kind id'|].
      - apply run_call_ok; try done. unfold bd. intros ->. rewrite decide_True by done. eauto.
      - exfalso. pose proof (ci_counted _ Hinv) as Hc. unfold counted in Hc. rewrite Hconn, Hp in Hc.
        by destruct Hc as (Hc & _); apply Forall_cons in Hc as [[] _].
      - exfalso. pose proof (ci_counted _ Hinv) as Hc. unfold counted in Hc. rewrite Hconn, Hp in Hc.
        by destruct Hc as (_ & _ & _ & Hc & _); apply Forall_cons in Hc as [[=] _].
      - by apply run_credentials_ok. }
    simpl. eauto.
Qed.

Lemma ServiceRequest_spec c ctl kind req cl :
  delegate_inv (delegate_ c) -> has_socket (delegate_ c) = true ->
  IpcDelegate.callbacks_ (delegate_ c) !! ctl_request ctl = None ->
  exists d', ServiceRequest c ctl kind req cl = Ret (set_delegate c d') /\ delegate_inv d' /\
    has_socket d' = true /\ pending d' ≡ₚ cl :: pending (delegate_ c).
Proof.
  intros Hd Hs Hfresh. unfold ServiceRequest.
  destruct (DelegateRequest_fresh (delegate_ c) (ctl_request ctl) kind req cl Hd Hfresh)
    as (d' & Hreq & Hs' & Hf & Hcb). rewrite Hreq. simpl. exists d'.
  unfold with_delegate. rewrite Hf, drop_all. rewrite Hs in Hs', Hcb.
  split_and!; [done|by eapply DelegateRequest_inv|done|].
  unfold pending at 1. rewrite Hcb. by apply pending_insert.
Qed.

Lemma method_call kind func params :
  method_of kind = Some func ->
  (kind = ResourcePut -> is_ret (resource_put_request v8_string v8_number params) = true) ->
  exists req, forall c ctl, func c ctl params = call kind c ctl req.
Proof.
  intros Hm Hr. destruct kind; simpl in Hm; simplify_eq; try (eexists; intros; reflexivity).
  specialize (Hr eq_refl). unfold CallResourcePut.
  destruct (resource_put_request v8_string v8_number params); [|done]. eexists. intros. reflexivity.
Qed.

(** The channel after [acquire], with a state change that accounts for it. *)
Lemma JsCall_ok c kind func params timeout :
  channel_inv c -> method_of kind = Some func -> allowed c (CCall kind params timeout) ->
  exists c', JsCall func (Some c) params timeout = Ret (Some c', Returned (JNum (ch_seq c))) /\
    channel_inv c'.
Proof.
  intros Hinv Hm (Hlt & [Hconn Hsome] & Hfresh & Hres).
  pose proof (counted_pinned c Hinv Hconn) as Hpin. destruct Hinv as [Hd Hs Hc].
  unfold counted in Hc. rewrite Hconn in Hc. destruct Hc as (Hcalls & Hu & Hr & Hb & _).
  destruct (method_call kind func params Hm Hres) as [req Hreq].
  unfold JsCall. rewrite acquire_spec by (try done; counts). simpl. rewrite Hreq. unfold call.
  edestruct (ServiceRequest_spec (set_ch_seq (set_ref_count (set_sock c (Some true)) (ref_count_ c + 1))
    (u32 (ch_seq c + 1))) (mkController 0 (ch_seq c) (Uint32Value v8_number timeout)) kind req)
    as (d' & -> & Hd' & Hs' & Hp'); [by apply delegate_inv_socket|done|done|].
  simpl. eexists. split; [done|]. simpl in Hp'.
  pose proof (Permutation_length Hp') as Hlen. simpl in Hlen.
  apply channel_inv_connected; simpl; try done; [..|counts|counts].
  - split; [done|]. simpl. intros ? [= <-]. symmetry. apply negb_true_iff, Z.eqb_neq. counts.
  - rewrite Hp'. by constructor.
Qed.

Lemma Emit_ok c id kind event params :
  channel_inv c -> _connected c = true -> is_Some (socket_ c) -> outstanding c < 2 ^ 32 - 1 ->
  ch_callbacks c !! id = None ->
  exists c', Emit (store c id kind) id event params = Ret c' /\ channel_inv c'.
Proof.
  intros Hinv Hconn Hsome Hlt Hid.
  pose proof (counted_pinned c Hinv Hconn) as Hpin. destruct Hinv as [Hd Hs Hc].
  unfold counted in Hc. rewrite Hconn in Hc. destruct Hc as (Hcalls & Hu & Hr & Hb & _).
  unfold Emit. rewrite acquire_spec by (try done; counts). simpl. eexists. split; [done|].
  pose proof (map_size_insert_None id kind (ch_callbacks c) Hid) as Hsz.
  apply channel_inv_connected; simpl; try done; [..|counts|counts].
  - by apply delegate_inv_socket.
  - split; [done|]. simpl. intros ? [= <-]. symmetry. apply negb_true_iff, Z.eqb_neq. counts.
Qed.

Lemma Reply_inv (d : CDelegate) id kind code err res :
  delegate_inv d ->
  let d' := Reply default_message d true id kind code err res in
  delegate_inv d' /\ has_socket d' = has_socket d /\ pending d' = pending d.
Proof.
  intros Hd. split_and!.
  - by apply (dstep_inv default_message d (EvReply id kind code err res)).
  - unfold Reply. simpl. by destruct (has_socket d) eqn:?.
  - unfold Reply. simpl. by destruct (has_socket d) eqn:?.
Qed.

(** A change of the delegate that keeps its closures. *)
Lemma channel_inv_delegate c (d : CDelegate) :
  channel_inv c -> delegate_inv d -> has_socket d = has_socket (delegate_ c) ->
  pending d = pending (delegate_ c) -> channel_inv (set_delegate c d).
Proof.
  intros [Hd Hs Hc] Hd' Hs' Hp. split; simpl; [done|by rewrite Hs'|].
  unfold counted, outstanding in *. simpl. by rewrite Hp.
Qed.

Lemma Feedback_ok c id code params :
  channel_inv c -> usable c -> 0 <= code <= 6 ->
  exists c' ok, Feedback c id code params = Ret (c', ok) /\ channel_inv c' /\
    (ok = true <-> is_Some (ch_callbacks c !! id)) /\
    (ok = true -> ch_callbacks c' = delete id (ch_callbacks c)) /\ (ok = false -> c' = c).
Proof.
  intros Hinv [Hconn Hsome] Hcode. unfold Feedback.
  assert (exists i k, list_find (fun k => code_num k = code)
    [OK; INTERNAL_ERROR; TIMEOUT; NOT_IMPLEMENTED; CONNECTION_RESET; CLIENT_ERROR; CANCELLED]
      = Some (i, k)) as (i & k & ->).
  { assert (code = 0 \/ code = 1 \/ code = 2 \/ code = 3 \/ code = 4 \/ code = 5 \/ code = 6)
      as Hcases by lia. destruct_or! Hcases; subst; vm_compute; eauto. }
  destruct (ch_callbacks c !! id) as [kind|] eqn:Hid.
  2: { exists c, false. split_and!; try done. }
  pose proof (counted_pinned c Hinv Hconn) as Hpin. destruct Hinv as [Hd Hs Hc].
  unfold counted in Hc. rewrite Hconn in Hc. destruct Hc as (Hcalls & Hu & Hr & Hb & _).
  pose proof (map_size_delete_Some id (ch_callbacks c) (ex_intro _ kind Hid)) as Hsz.
  assert (size (ch_callbacks c) <> 0%nat) as Hne.
  { intros H0%map_size_empty_inv. by rewrite H0, lookup_empty in Hid. }
  rewrite release_spec by (try done; counts). simpl.
  destruct (match kind with Trigger => _ | _ => _ end) as [[code' err] res].
  exists (set_delegate (set_ch_callbacks (repin (set_ref_count c (ref_count_ c - 1)))
    (delete id (ch_callbacks c)))
    (Reply default_message (delegate_ (repin (set_ref_count c (ref_count_ c - 1)))) true id kind code' err res)), true.
  split_and!; try done.
  assert (Hc1 : channel_inv (set_ch_callbacks (repin (set_ref_count c (ref_count_ c - 1)))
                               (delete id (ch_callbacks c)))).
  { apply channel_inv_connected; simpl; try done; [..|counts|counts].
    - by apply delegate_inv_socket.
    - split; [done|]. simpl. destruct (socket_ c); simpl; congruence. }
  edestruct Reply_inv as (? & ? & ?); [apply (ci_delegate _ Hc1)|].
  by apply channel_inv_delegate.
Qed.

Lemma on_request_ok c id kind body :
  channel_inv c -> allowed c (CRequest id kind body) ->
  exists c', on_request c id kind body = Ret c' /\ channel_inv c'.
Proof.
  intros Hinv (Hlt & [Hconn Hsome] & Hid & Hbody). unfold on_request, body_ok in *.
  assert (Hc1 : channel_inv (set_delegate c (OnRequest (delegate_ c) id kind body))).
  { apply channel_inv_delegate; [done| | |];
      try (unfold OnRequest; by destruct (rkind_of kind)).
    by apply (dstep_inv default_message (delegate_ c) (EvIncoming id kind body)), eq_refl;
      destruct Hinv. }
  set (c1 := set_delegate _ _) in *.
  assert (Hlt1 : outstanding c1 < 2 ^ 32 - 1).
  { unfold c1, outstanding, OnRequest in *. by destruct (rkind_of kind). }
  assert (Hreply : forall k code err res, exists c',
    Ret (set_delegate c1 (Reply default_message (delegate_ c1) true id k code err res)) = Ret c'
    /\ channel_inv c').
  { intros. eexists. split; [done|].
    destruct (Reply_inv (delegate_ c1) id k code err res (ci_delegate _ Hc1)) as (? & ? & ?).
    by apply channel_inv_delegate. }
  assert (Hemit : forall k ev params, exists c',
    Emit (store c1 id k) id ev params = Ret c' /\ channel_inv c') by (intros; by apply Emit_ok).
  clearbody c1.
  destruct (rkind_of kind) as [[]|]; simpl; first [by apply Hreply | by eauto | idtac];
    destruct Hbody as [m ->]; apply Hemit.
Qed.

Lemma OnConnect_ok c ok :
  channel_inv c -> allowed c (CConnect ok) -> exists c', OnConnect c ok = Ret c' /\ channel_inv c'.
Proof.
  intros [Hd Hs Hc] (_ & Hconn & Hcbs). unfold counted in Hc. rewrite Hconn in Hc.
  destruct Hc as (Hr & Hcb & Hu & Hcred & Hl). unfold OnConnect. destruct ok; simpl.
  - edestruct (ServiceRequest_spec (set_ch_seq (set_sock c (Some true)) (u32 (ch_seq c + 1)))
      (mkController 0 (ch_seq c) 1000) Credentials (MCredentials cred_) CredentialsClosure)
      as (d' & -> & Hd' & Hs' & Hp').
    + by apply delegate_inv_socket.
    + done.
    + simpl. by rewrite Hcbs, lookup_empty.
    + assert (Hp : pending d' ≡ₚ [CredentialsClosure]).
      { rewrite Hp'. unfold pending. simpl. by rewrite Hcbs, map_to_list_empty. }
      apply Permutation_singleton_r in Hp.
      eexists. split; [done|]. split; simpl; [done..|]. unfold counted. simpl.
      rewrite Hconn, Hp. split_and!; first [done | by repeat constructor | simpl; lia].
  - eexists. split; [done|]. split; simpl; [by apply delegate_inv_socket|done|].
    unfold counted. simpl. by rewrite Hconn.
Qed.

Lemma set_sock_None_inv c : channel_inv c -> channel_inv (set_sock c None).
Proof.
  intros [Hd Hs Hc]. split; simpl; [by apply delegate_inv_socket|done|].
  unfold counted in *. simpl. destruct (_connected c); [|done].
  by destruct Hc as (? & ? & ? & ? & ?).
Qed.

Lemma Ref_ok c : channel_inv c -> allowed c CRef -> exists c', Ref c = Ret c' /\ channel_inv c'.
Proof.
  intros Hinv (Hlt & Hconn & Hsome). pose proof (counted_pinned c Hinv Hconn) as Hpin.
  destruct Hinv as [Hd Hs Hc].
  unfold counted in Hc. rewrite Hconn in Hc. destruct Hc as (Hcalls & Hu & Hr & Hb & _).
  unfold Ref. rewrite acquire_spec by (try done; counts). eexists. split; [done|].
  apply channel_inv_connected; simpl; try done; [..|lia|counts|counts].
  - by apply delegate_inv_socket.
  - split; [done|]. simpl. intros ? [= <-]. symmetry. apply negb_true_iff, Z.eqb_neq. counts.
Qed.

Lemma Unref_ok c : channel_inv c -> allowed c CUnref -> exists c', Unref c = Ret c' /\ channel_inv c'.
Proof.
  intros Hinv (Hlt & [Hconn Hsome] & Hpos). pose proof (counted_pinned c Hinv Hconn) as Hpin.
  destruct Hinv as [Hd Hs Hc].
  unfold counted in Hc. rewrite Hconn in Hc. destruct Hc as (Hcalls & Hu & Hr & Hb & _).
  unfold Unref. rewrite release_spec by (try done; counts). eexists. split; [done|].
  apply channel_inv_connected; simpl; try done; [..|lia|counts|counts].
  - by apply delegate_inv_socket.
  - split; [done|]. simpl. destruct (socket_ c); simpl; congruence.
Qed.

Lemma cstep_ok c e :
  (forall id exc params, callback_returns id exc params = true) ->
  channel_inv c -> allowed c e -> exists c', cstep c e = Ret c' /\ channel_inv c'.
Proof.
  intros Hret Hinv Ha. destruct e; cbn [cstep js_Ref js_Unref js_Feedback]; unfold drop_result.
  - by apply OnConnect_ok.
  - destruct Ha as (_ & ? & ?). by apply with_delegate_response.
  - unfold OnTimer. destruct (live_timers (delegate_ c) !! t) as [[id k]|].
    + by apply with_delegate_response.
    + unfold with_delegate. rewrite drop_all. eexists. split; [done|]. by destruct c.
  - by apply on_request_ok.
  - destruct (method_of kind) as [func|] eqn:Hm; [|by eauto].
    destruct (JsCall_ok c kind func params timeout Hinv Hm Ha) as (c' & -> & ?). simpl. eauto.
  - destruct Ha as (_ & Hu & Hcode).
    destruct (Feedback_ok c (Uint32Value v8_number id) (Int32Value v8_number code) params Hinv Hu Hcode)
      as (c' & ok & -> & ? & _). simpl. eauto.
  - destruct (Ref_ok c Hinv Ha) as (c' & -> & ?). simpl. eauto.
  - destruct (Unref_ok c Hinv Ha) as (c' & -> & ?). simpl. eauto.
  - eauto using set_sock_None_inv.
  - eexists. split; [done|]. by destruct Hinv.
Qed.

Fixpoint crun (c : Channel) (es : list CEvent) : outcome Channel :=
  match es with [] => Ret c | e :: es' => c ← cstep c e; crun c es' end.

(** A history whose every event is allowed where it happens. *)
Fixpoint all_allowed (c : Channel) (es : list CEvent) : Prop :=
  match es with
  | [] => True
  | e :: es' => allowed c e /\ forall c', cstep c e = Ret c' -> all_allowed c' es'
  end.

Lemma channel_init_inv refed : channel_inv (channel_init refed).
Proof.
  split; simpl; [apply delegate_init_inv|done|]. unfold counted, pending. simpl.
  rewrite map_to_list_empty. split_and!; try done. simpl. lia.
Qed.

Lemma crun_ok es : forall c,
  (forall id exc params, callback_returns id exc params = true) ->
  channel_inv c -> all_allowed c es -> exists c', crun c es = Ret c' /\ channel_inv c'.
Proof.
  induction es as [|e es IH]; intros c Hret Hinv Hall; simpl; [eauto|].
  destruct Hall as [Ha Hrest]. destruct (cstep_ok c e Hret Hinv Ha) as (c1 & Hc1 & Hinv1).
  rewrite Hc1. simpl. apply IH; auto.
Qed.

(** * Properties *)

(** C2 Reference accounting of the data channel: over every allowed history of
    connecting, calls, responses, timeouts, incoming requests, feedbacks, ref and
    unref, disconnecting and closing, no operation faults; once connected the
    32-bit count is exactly the number of requests waiting for JavaScript plus
    calls waiting for the agent plus explicit references, and a live socket keeps
    the event loop alive if and only if one of them remains. *)
Theorem channel_accounting (refed : bool) (es : list CEvent) :
  (forall id exc params, callback_returns id exc params = true) ->
  all_allowed (channel_init refed) es ->
  exists c, crun (channel_init refed) es = Ret c /\
    (_connected c = true ->
     ref_count_ c = outstanding c /\
     forall b, socket_ c = Some b -> b = (0 <? outstanding c)).
Proof.
  intros Hret Hall. destruct (crun_ok es _ Hret (channel_init_inv refed) Hall) as (c & Hc & Hinv).
  exists c. split; [done|]. intros Hconn. destruct Hinv as [_ _ Hcnt]. unfold counted in Hcnt.
  rewrite Hconn in Hcnt. destruct Hcnt as (_ & Hu & Hr & _ & Hp). split; [done|].
  intros b Hb. rewrite (Hp b Hb). rewrite Hr. unfold outstanding in *.
  destruct (Z.eqb_spec (Z.of_nat (size (ch_callbacks c)) +
    Z.of_nat (length (pending (delegate_ c))) + user_refs c) 0); symmetry;
    [apply Z.ltb_ge | apply Z.ltb_lt]; lia.
Qed.

(** A request is fed back at most once: in every state reached by an allowed
    history, a first feedback for a waiting request answers it and a second one
    is refused without any effect, as is a feedback for an id that is not
    waiting. *)
Theorem feedback_at_most_once (refed : bool) (es : list CEvent) (c : Channel) (id code : Z)
    (params : js) :
  (forall id exc params, callback_returns id exc params = true) ->
  all_allowed (channel_init refed) es -> crun (channel_init refed) es = Ret c ->
  usable c -> 0 <= code <= 6 ->
  exists c' ok, Feedback c id code params = Ret (c', ok) /\
    (ok = true <-> is_Some (ch_callbacks c !! id)) /\
    (ok = false -> c' = c) /\
    Feedback c' id code params = Ret (c', false).
Proof.
  intros Hret Hall Hrun Hu Hcode.
  destruct (crun_ok es _ Hret (channel_init_inv refed) Hall) as (c0 & Hc & Hinv).
  assert (c0 = c) as -> by congruence.
  destruct (Feedback_ok c id code params Hinv Hu Hcode) as (c' & ok & Hf & Hinv' & Hok & Hdel & Hsame).
  exists c', ok. split_and!; try done.
  assert (ch_callbacks c' !! id = None) as Hnone.
  { destruct ok; [rewrite Hdel by done; by rewrite lookup_delete_eq|].
    rewrite Hsame by done. destruct (ch_callbacks c !! id) eqn:E; [|done].
    discriminate (proj2 Hok (mk_is_Some _ _ eq_refl)). }
  unfold Feedback in *. destruct (list_find _ _) as [[i k]|] eqn:El; [|done]. by rewrite Hnone.
Qed.

(** After the agent disconnected, a JavaScript call made while nothing is
    outstanding, and the feedback of the last outstanding request, dereference
    the null socket. *)
Theorem disconnected_dereferences_null (c : Channel) (func : Channel -> RpcController -> js -> outcome Channel)
    (params timeout : js) (id code : Z) (kind : RequestKind) :
  (ref_count_ c = 0 -> JsCall func (Some (Disconnected c)) params timeout = Fault NullDeref) /\
  (ref_count_ c = 1 -> ch_callbacks c !! id = Some kind -> 0 <= code <= 6 ->
   Feedback (Disconnected c) id code params = Fault NullDeref).
Proof.
  split.
  - intros H. unfold JsCall, acquire. simpl. by rewrite H.
  - intros H Hid Hcode. unfold Feedback.
    assert (code = 0 \/ code = 1 \/ code = 2 \/ code = 3 \/ code = 4 \/ code = 5 \/ code = 6)
      as Hcases by lia.
    destruct_or! Hcases; subst; simpl; rewrite Hid; unfold release; simpl; by rewrite H.
Qed.

End channel.

(** * Witnesses *)

Definition ex_string (_ : js) : bytes := [].
Definition ex_number (_ : js) : Z := 0.
Definition ex_msg (_ : MessageType) : ChannelMessage := MEmpty.
Definition ex_returns (_ : Z) (_ _ : js) : bool := true.

Definition ex_trigger : TriggerRequest := mkTrigger [x69] (mkMetadata None None [] []) None false false.

(** Connect, accept, one trigger and one call, the trigger answered. *)
Definition ex_history : list CEvent :=
  [CConnect true; CResponse 0 OK (Some MEmpty); CRequest 9 1 (Some (MTrigger ex_trigger));
   CCall StreamOpen JUndefined (JNum 10); CFeedback (JNum 9) (JNum 0) (JObj [])].

Abbreviation ex_run := (crun ex_string ex_number ex_msg [] [] ex_returns []).
Abbreviation ex_allowed := (all_allowed ex_string ex_number ex_msg [] [] ex_returns []).

Ltac next_event :=
  split; [split; [vm_compute; reflexivity|]
         |let c := fresh "c" in let Hc := fresh "Hc" in
          intros c Hc; vm_compute in Hc; injection Hc as <-].

Lemma ex_history_allowed : ex_allowed (channel_init false) ex_history.
Proof.
  next_event; [|next_event; [|next_event; [|next_event; [|next_event; [|done]]]]]; simpl.
  - done.
  - split; [eexists; vm_compute; reflexivity|]. intros _ kind id H. vm_compute in H. discriminate.
  - split_and!; [split; [done|by eexists]|done|vm_compute; eauto].
  - split_and!; [split; [done|by eexists]|done|done].
  - split_and!; [split; [done|by eexists]|vm_compute; congruence..].
Qed.

Lemma channel_accounting_witness :
  exists c, ex_run (channel_init false) ex_history = Ret c /\
    (_connected c = true ->
     ref_count_ c = outstanding c /\
     forall b, socket_ c = Some b -> b = (0 <? outstanding c)).
Proof. apply channel_accounting; [done|]. apply ex_history_allowed. Defined.

Definition ex_channel : Channel :=
  match ex_run (channel_init false) (take 4 ex_history) with Ret c => c | Fault _ => channel_init true end.

Lemma feedback_at_most_once_witness :
  exists c' ok, Feedback ex_string ex_number ex_msg ex_channel 9 0 (JObj []) = Ret (c', ok) /\
    (ok = true <-> is_Some (ch_callbacks ex_channel !! 9)) /\
    (ok = false -> c' = ex_channel) /\
    Feedback ex_string ex_number ex_msg c' 9 0 (JObj []) = Ret (c', false).
Proof.
  apply (feedback_at_most_once ex_string ex_number ex_msg [] [] ex_returns [] false (take 4 ex_history)).
  - done.
  - destruct ex_history_allowed as (H0 & H). split; [done|]. intros c1 Hc1.
    destruct (H c1 Hc1) as (H1 & H1'). split; [done|]. intros c2 Hc2.
    destruct (H1' c2 Hc2) as (H2 & H2'). split; [done|]. intros c3 Hc3.
    destruct (H2' c3 Hc3) as (H3 & H3'). by split.
  - vm_compute. reflexivity.
  - split; [done|by eexists].
  - lia.
Defined.

Lemma disconnected_dereferences_null_witness :
  JsCall ex_number (CallStreamOpen ex_returns) (Some (Disconnected (channel_init false)))
    JUndefined (JNum 1) = Fault NullDeref.
Proof.
  apply (disconnected_dereferences_null ex_string ex_number ex_msg (channel_init false)
    _ JUndefined (JNum 1) 0 0 Trigger). reflexivity.
Defined.
