(* ===== verification/Inspector.v ===== *)
(** src/src/inspector/main_thread_interface.{h,cc} and inspector_agent.cc: the
    queue that carries inspector requests to the main thread, the objects other
    threads keep there, V8's sessions, and the nested message loop of a pause;
    with the interrupts of src/src/immortal.cc that wake the main thread.

    The main thread is a stack of activations ([Frame]); an event is one atomic
    step of it or of another thread.  V8 decides when an interrupt runs, what a
    protocol message does and when a script pauses: those are events that are
    possible whenever V8's code is on top of the stack.  [posted], [called] and
    [dropped] record requests and [log] what reached V8. *)

From S2P Require Import Prelude.
Import String.StringSyntax.
Local Open Scope string_scope.
Local Open Scope list_scope.
Local Open Scope Z_scope.

(** * Objects, requests and the client of V8's inspector *)

(** [src/src/inspector/main_thread_interface.cc 135-159, MainThreadSessionState]
    [src/src/inspector/main_thread_interface.h 32-35, Deletable] The objects that
    are wrapped: a session state, or a delegate made thread safe (a token). *)
Inductive Deletable :=
  | SessionState (prevent_shutdown_ : bool) (session_ : option Z)
  | DelegateObject (delegate : Z).

(** [src/src/inspector/main_thread_interface.cc 42-87, CreateObjectRequest,
    DeleteRequest, CallRequest] The factory of a create request is
    [MainThreadSessionState::Create]; the functions of call requests are
    [Connect], [Dispatch] and the lambda of [ThreadSafeDelegate]. *)
Inductive Request :=
  | CreateRequest (object_id : Z) (prevent_shutdown : bool)
  | DeleteRequest (object_id : Z)
  | CallConnect (object_id : Z) (delegate : Z)
  | CallDispatch (object_id : Z) (message : bytes)
  | CallSend (object_id : Z) (message : bytes).

(** [src/src/inspector/inspector_agent.cc 36-85, ChannelImpl] *)
Record ChannelImpl := mkChannel {
  ch_delegate : Z;
  ch_prevent_shutdown : bool;
  ch_retaining_context : bool }.

(** What V8 and the delegates see. *)
Inductive Seen :=
  | SeenConnect (session_id delegate : Z)
  | SeenProtocol (session_id : Z) (message : bytes)
  | SeenErased (session_id : Z)
  | SeenContextDestroyed
  | SeenSend (delegate : Z) (message : bytes).

(** [src/src/inspector/inspector_agent.cc 261-272, AworkerInspectorClient] *)
Record Client := mkClient {
  running_nested_loop_ : bool;
  channels_ : gmap Z ChannelImpl;
  next_session_id_ : Z;
  waiting_for_resume_ : bool;
  waiting_for_frontend_ : bool;
  waiting_for_sessions_disconnect_ : bool }.

(** The main thread's data that requests work on. *)
Record World := mkWorld {
  managed_objects_ : gmap Z Deletable;
  client_ : Client;
  log : list Seen }.

Definition set_objects (w : World) (m : gmap Z Deletable) : World :=
  mkWorld m (client_ w) (log w).
Definition set_client (w : World) (c : Client) : World :=
  mkWorld (managed_objects_ w) c (log w).
Definition saw (w : World) (e : Seen) : World :=
  mkWorld (managed_objects_ w) (client_ w) (log w ++ [e]).

Definition set_channels (c : Client) (m : gmap Z ChannelImpl) (next : Z) : Client :=
  mkClient (running_nested_loop_ c) m next (waiting_for_resume_ c)
    (waiting_for_frontend_ c) (waiting_for_sessions_disconnect_ c).
Definition set_disconnect (c : Client) (b : bool) : Client :=
  mkClient (running_nested_loop_ c) (channels_ c) (next_session_id_ c)
    (waiting_for_resume_ c) (waiting_for_frontend_ c) b.

(** [src/src/inspector/inspector_agent.cc 142-148, AworkerInspectorClient::connectFrontend] *)
Definition connectFrontend (w : World) (delegate : Z) (prevent_shutdown : bool)
    : Z * World :=
  let c := client_ w in
  let session_id := next_session_id_ c in
  (session_id,
   saw (set_client w (set_channels c
          (<[session_id := mkChannel delegate prevent_shutdown false]> (channels_ c))
          (i32 (session_id + 1))))
       (SeenConnect session_id delegate)).

(** [src/src/inspector/inspector_agent.cc 150-163, AworkerInspectorClient::disconnectFrontend] *)
Definition disconnectFrontend (w : World) (session_id : Z) : World :=
  let c := client_ w in
  match channels_ c !! session_id with
  | None => w
  | Some ch =>
      let rest := delete session_id (channels_ c) in
      let w := saw (set_client w (set_channels c rest (next_session_id_ c)))
                   (SeenErased session_id) in
      let wake w := if waiting_for_sessions_disconnect_ (client_ w)
                    then set_client w (set_disconnect (client_ w) false) else w in
      if ch_retaining_context ch
      then if existsb (fun p => ch_retaining_context p.2) (map_to_list rest) then w
           else wake (saw w SeenContextDestroyed)
      else wake w
  end.

(** [src/src/inspector/inspector_agent.cc 165-167,
    AworkerInspectorClient::dispatchMessageFromFrontend] [operator[]] of a missing
    key makes a null pointer, which is then dereferenced. *)
Definition dispatchMessageFromFrontend (w : World) (session_id : Z) (m : bytes)
    : outcome World :=
  match channels_ (client_ w) !! session_id with
  | None => Fault NullDeref
  | Some _ => Ret (saw w (SeenProtocol session_id m))
  end.

(** [src/src/inspector/inspector_agent.cc 216-222,
    AworkerInspectorClient::hasConnectedSessions] *)
Definition hasConnectedSessions (c : Client) : bool :=
  existsb (fun p => ch_prevent_shutdown p.2) (map_to_list (channels_ c)).

(** [src/src/inspector/inspector_agent.cc 235-241,
    AworkerInspectorClient::shouldRunMessageLoop] *)
Definition shouldRunMessageLoop (c : Client) : bool :=
  if waiting_for_frontend_ c then true
  else if (waiting_for_sessions_disconnect_ c || waiting_for_resume_ c)%bool
       then hasConnectedSessions c else false.

(** [src/src/inspector/inspector_agent.cc 382-385,
    SameThreadInspectorSession::~SameThreadInspectorSession] and the destructors of
    the other managed objects. *)
Definition destroy_object (w : World) (o : Deletable) : World :=
  match o with
  | SessionState _ (Some session_id) => disconnectFrontend w session_id
  | _ => w
  end.

(** * Managed objects *)

(** [src/src/inspector/main_thread_interface.cc 263-266, MainThreadInterface::AddObject] *)
Definition AddObject (w : World) (id : Z) (o : Deletable) : World :=
  let w' := match managed_objects_ w !! id with
            | Some old => destroy_object w old | None => w end in
  set_objects w' (<[id := o]> (managed_objects_ w')).

(** [src/src/inspector/main_thread_interface.cc 268-270, MainThreadInterface::RemoveObject] *)
Definition RemoveObject (w : World) (id : Z) : outcome World :=
  match managed_objects_ w !! id with
  | None => Fault CheckFailed
  | Some o => Ret (destroy_object (set_objects w (delete id (managed_objects_ w))) o)
  end.

(** [src/src/inspector/main_thread_interface.cc 272-286, MainThreadInterface::GetObject,
    GetObjectIfExists] *)
Definition GetObject (w : World) (id : Z) : outcome Deletable :=
  match managed_objects_ w !! id with
  | None => Fault CheckFailed
  | Some o => Ret o
  end.

(** [src/src/inspector/main_thread_interface.cc 145-149, MainThreadSessionState::Connect]
    [src/src/inspector/inspector_agent.cc 346-353, InspectorAgent::Connect] The
    assignment to [session_] destroys the session it replaces. *)
Definition Connect (w : World) (id : Z) (prevent : bool) (old : option Z) (delegate : Z)
    : World :=
  let '(session_id, w) := connectFrontend w delegate prevent in
  let w := set_objects w (<[id := SessionState prevent (Some session_id)]> (managed_objects_ w)) in
  match old with Some s => disconnectFrontend w s | None => w end.

(** [src/src/inspector/main_thread_interface.cc 48-50, CreateObjectRequest::Call]
    [src/src/inspector/main_thread_interface.cc 67-69, DeleteRequest::Call]
    [src/src/inspector/main_thread_interface.cc 80-82, CallRequest::Call] The cast of
    [DeletableWrapper::get] to another type than the object's is a fault. *)
Definition Call (w : World) (r : Request) : outcome World :=
  match r with
  | CreateRequest id p => Ret (AddObject w id (SessionState p None))
  | DeleteRequest id => RemoveObject w id
  | CallConnect id d =>
      o ← GetObject w id;
      match o with
      | SessionState p old => Ret (Connect w id p old d)
      | DelegateObject _ => Fault BadCast
      end
  | CallDispatch id m =>
      o ← GetObject w id;
      match o with
      | SessionState _ (Some s) => dispatchMessageFromFrontend w s m
      | SessionState _ None => Fault NullDeref
      | DelegateObject _ => Fault BadCast
      end
  | CallSend id m =>
      o ← GetObject w id;
      match o with
      | DelegateObject d => Ret (saw w (SeenSend d m))
      | SessionState _ _ => Fault BadCast
      end
  end.

(** * The queue, the interrupts and the main thread *)

Inductive LoopPhase := LTest | LWait | LUv.

(** Activations of the main thread, innermost first: the loop of
    [ExhaustInterruptRequests] with the callbacks left, [DispatchMessages] with
    [had_messages], a request's [Call], and [runMessageLoop]. *)
Inductive Frame :=
  | FExhaust (left_ : nat)
  | FDispatch (had_messages : bool)
  | FCall (r : Request)
  | FLoop (p : LoopPhase).

(** What a thread that holds a reference may do with it next: a session under
    construction has posted its create request only. *)
Inductive RefState := RConstructing (delegate : Z) | RSession | RDelegate.

(** [src/src/inspector/main_thread_interface.h 88-100, MainThreadInterface] with the
    members of [MainThreadHandle] ([main_thread_], [next_object_id_]), the references
    that are alive and [interrupt_requests_] of Immortal. *)
Record State := mkState {
  requests_ : list Request;
  dispatching_message_queue_ : list Request;
  dispatching_messages_ : bool;
  world : World;
  main_thread_ : bool;
  next_object_id_ : Z;
  refs : gmap Z RefState;
  interrupt_requests_ : nat;
  frames : list Frame;
  posted : list Request;
  called : list Request;
  dropped : list Request }.

Definition set_queues (s : State) (rq dq : list Request) (d : bool) : State :=
  mkState rq dq d (world s) (main_thread_ s) (next_object_id_ s) (refs s)
    (interrupt_requests_ s) (frames s) (posted s) (called s) (dropped s).
Definition set_world (s : State) (w : World) : State :=
  mkState (requests_ s) (dispatching_message_queue_ s) (dispatching_messages_ s) w
    (main_thread_ s) (next_object_id_ s) (refs s) (interrupt_requests_ s) (frames s)
    (posted s) (called s) (dropped s).
Definition set_refs (s : State) (next : Z) (m : gmap Z RefState) : State :=
  mkState (requests_ s) (dispatching_message_queue_ s) (dispatching_messages_ s)
    (world s) (main_thread_ s) next m (interrupt_requests_ s) (frames s)
    (posted s) (called s) (dropped s).
Definition set_frames (s : State) (k : nat) (fs : list Frame) : State :=
  mkState (requests_ s) (dispatching_message_queue_ s) (dispatching_messages_ s)
    (world s) (main_thread_ s) (next_object_id_ s) (refs s) k fs
    (posted s) (called s) (dropped s).
Definition set_called (s : State) (l : list Request) : State :=
  mkState (requests_ s) (dispatching_message_queue_ s) (dispatching_messages_ s)
    (world s) (main_thread_ s) (next_object_id_ s) (refs s) (interrupt_requests_ s)
    (frames s) (posted s) l (dropped s).

(** [src/src/inspector/main_thread_interface.cc 209-222, MainThreadInterface::Post] *)
Definition Post_interface (s : State) (r : Request) : State :=
  let needs_notify := match requests_ s with [] => true | _ => false end in
  mkState (requests_ s ++ [r]) (dispatching_message_queue_ s) (dispatching_messages_ s)
    (world s) (main_thread_ s) (next_object_id_ s) (refs s)
    (if needs_notify then S (interrupt_requests_ s) else interrupt_requests_ s)
    (frames s) (posted s ++ [r]) (called s) (dropped s).

(** [src/src/inspector/main_thread_interface.cc 318-323, MainThreadHandle::Post] *)
Definition Post (s : State) (r : Request) : State :=
  if main_thread_ s then Post_interface s r else s.

(** [src/src/inspector/main_thread_interface.h 55-55, MainThreadHandle::newObjectId] *)
Definition newObjectId (s : State) : Z := i32 (next_object_id_ s + 1).

(** ** Other threads *)

(** [src/src/inspector/main_thread_interface.cc 96-101,
    AnotherThreadObjectReference::AnotherThreadObjectReference] called by the
    constructor of [CrossThreadInspectorSession]. *)
Definition new_reference (s : State) (prevent : bool) (delegate : Z) : State :=
  let id := newObjectId s in
  Post (set_refs s id (<[id := RConstructing delegate]> (refs s))) (CreateRequest id prevent).

(** [src/src/inspector/main_thread_interface.cc 161-173,
    CrossThreadInspectorSession::CrossThreadInspectorSession] The body. *)
Definition construct_session (s : State) (id : Z) (delegate : Z) : State :=
  Post (set_refs s (next_object_id_ s) (<[id := RSession]> (refs s))) (CallConnect id delegate).

(** [src/src/inspector/main_thread_interface.cc 175-178, CrossThreadInspectorSession::Dispatch] *)
Definition session_Dispatch (s : State) (id : Z) (m : bytes) : State :=
  Post s (CallDispatch id m).

(** [src/src/inspector/main_thread_interface.cc 189-194,
    ThreadSafeDelegate::SendMessageToFrontend] *)
Definition delegate_Send (s : State) (id : Z) (m : bytes) : State :=
  Post s (CallSend id m).

(** [src/src/inspector/main_thread_interface.cc 104-107,
    AnotherThreadObjectReference::~AnotherThreadObjectReference] *)
Definition destroy_reference (s : State) (id : Z) : State :=
  Post (set_refs s (next_object_id_ s) (delete id (refs s))) (DeleteRequest id).

(** [src/src/inspector/main_thread_interface.cc 330-337,
    MainThreadHandle::MakeDelegateThreadSafe] *)
Definition MakeDelegateThreadSafe (s : State) (delegate : Z) : outcome State :=
  let id := newObjectId s in
  if main_thread_ s
  then Ret (set_refs (set_world s (AddObject (world s) id (DelegateObject delegate)))
              id (<[id := RDelegate]> (refs s)))
  else Fault NullDeref.

(** ** The main thread *)

(** [src/src/immortal.cc 498-507, Immortal::ExhaustInterruptRequests] The list is
    taken; its callbacks run one by one. *)
Definition ExhaustInterruptRequests (s : State) : State :=
  set_frames s 0 (FExhaust (interrupt_requests_ s) :: frames s).

(** [src/src/inspector/main_thread_interface.cc 236-239,
    MainThreadInterface::DispatchMessages] Entry, up to the first pass of the loop,
    whose condition is entered with [had_messages] true. *)
Definition DispatchMessages (s : State) : State :=
  if dispatching_messages_ s then s
  else set_frames (set_queues s (requests_ s) (dispatching_message_queue_ s) true)
         (interrupt_requests_ s) (FDispatch true :: frames s).

(** [src/src/inspector/main_thread_interface.cc 240-255,
    MainThreadInterface::DispatchMessages] One turn of the loops: a request is taken
    and called; or the inner loop is over and the queues are swapped (lines 241-245);
    or there were no messages and the function returns. [fs] are the callers. *)
Definition dispatch_turn (s : State) (had_messages : bool) (fs : list Frame)
    : outcome State :=
  match dispatching_message_queue_ s with
  | task :: queue =>
      w ← Call (world s) task;
      let s := set_queues s (requests_ s) queue (dispatching_messages_ s) in
      Ret (set_frames (set_called (set_world s w) (called s ++ [task]))
             (interrupt_requests_ s) (FCall task :: FDispatch had_messages :: fs))
  | [] =>
      if had_messages then
        let had := match requests_ s with [] => false | _ => true end in
        Ret (set_frames (set_queues s [] (requests_ s) (dispatching_messages_ s))
               (interrupt_requests_ s) (FDispatch had :: fs))
      else
        Ret (set_frames (set_queues s (requests_ s) [] false) (interrupt_requests_ s) fs)
  end.

(** [src/src/inspector/main_thread_interface.cc 224-234,
    MainThreadInterface::WaitForFrontendEvent] [None] is a thread that still waits. *)
Definition WaitForFrontendEvent (s : State) : option State :=
  let s := set_queues s (requests_ s) (dispatching_message_queue_ s) false in
  match dispatching_message_queue_ s, requests_ s with
  | [], [] => None
  | _, _ => Some s
  end.

Definition with_client (s : State) (f : Client -> Client) : State :=
  set_world s (set_client (world s) (f (client_ (world s)))).

Definition set_running (b : bool) (c : Client) : Client :=
  mkClient b (channels_ c) (next_session_id_ c) (waiting_for_resume_ c)
    (waiting_for_frontend_ c) (waiting_for_sessions_disconnect_ c).

(** [src/src/inspector/inspector_agent.cc 243-250, AworkerInspectorClient::runMessageLoop] *)
Definition runMessageLoop (s : State) : State :=
  if running_nested_loop_ (client_ (world s)) then s
  else set_frames (with_client s (set_running true)) (interrupt_requests_ s)
         (FLoop LTest :: frames s).

Inductive WaitKind := OnPause | ForFrontend | SessionsDisconnect.

(** [src/src/inspector/inspector_agent.cc 97-110,
    AworkerInspectorClient::runMessageLoopOnPause, waitForSessionsDisconnect,
    waitForFrontend] *)
Definition start_waiting (k : WaitKind) (s : State) : State :=
  let f c := mkClient (running_nested_loop_ c) (channels_ c) (next_session_id_ c)
    (match k with OnPause => true | _ => waiting_for_resume_ c end)
    (match k with ForFrontend => true | _ => waiting_for_frontend_ c end)
    (match k with SessionsDisconnect => true | _ => waiting_for_sessions_disconnect_ c end) in
  runMessageLoop (with_client s f).

(** [src/src/inspector/inspector_agent.cc 135-140,
    AworkerInspectorClient::quitMessageLoopOnPause, runIfWaitingForDebugger] *)
Definition stop_waiting (resume : bool) (s : State) : State :=
  with_client s (fun c =>
    mkClient (running_nested_loop_ c) (channels_ c) (next_session_id_ c)
      (if resume then false else waiting_for_resume_ c)
      (if resume then waiting_for_frontend_ c else false)
      (waiting_for_sessions_disconnect_ c)).

(** [src/src/inspector/inspector_agent.cc 251-256, AworkerInspectorClient::runMessageLoop]
    The loop: test, wait for a frontend event, one pass of the event loop, in which
    the interrupt callbacks run when there are any. [None] is a blocked thread. *)
Definition loop_turn (s : State) (p : LoopPhase) (fs : list Frame) : option State :=
  let goto q := set_frames s (interrupt_requests_ s) (FLoop q :: fs) in
  match p with
  | LTest =>
      if shouldRunMessageLoop (client_ (world s)) then Some (goto LWait)
      else Some (set_frames (with_client s (set_running false)) (interrupt_requests_ s) fs)
  | LWait =>
      s' ← WaitForFrontendEvent s;
      Some (set_frames s' (interrupt_requests_ s') (FLoop LUv :: fs))
  | LUv =>
      match interrupt_requests_ s with
      | O => None
      | k => Some (set_frames s 0 (FExhaust k :: FLoop LTest :: fs))
      end
  end.

(** One step of the code on top of the main thread's stack; the interrupt callbacks
    hold a weak pointer ([main_thread_interface.cc 215-219]). *)
Definition main_step (s : State) : option (outcome State) :=
  match frames s with
  | [] => None
  | FExhaust O :: fs => Some (Ret (set_frames s (interrupt_requests_ s) fs))
  | FExhaust (S k) :: fs =>
      let s := set_frames s (interrupt_requests_ s) (FExhaust k :: fs) in
      Some (Ret (if main_thread_ s then DispatchMessages s else s))
  | FDispatch had :: fs => Some (dispatch_turn s had fs)
  | FCall _ :: fs => Some (Ret (set_frames s (interrupt_requests_ s) fs))
  | FLoop p :: fs => Ret <$> loop_turn s p fs
  end.

(** V8's code is running: nothing of this component is above it. *)
Definition script_runs (s : State) : bool :=
  match frames s with [] | FCall _ :: _ => true | _ => false end.

(** [src/src/inspector/main_thread_interface.cc 205-207,
    MainThreadInterface::~MainThreadInterface] with [MainThreadHandle::Reset] (325-328):
    the client and with it the interface, its queues and objects are gone. *)
Definition destroy_interface (s : State) : State :=
  let c := client_ (world s) in
  mkState [] [] false
    (mkWorld ∅ (mkClient false ∅ (next_session_id_ c) false false false) (log (world s)))
    false (next_object_id_ s) (refs s) (interrupt_requests_ s) (frames s)
    (posted s) (called s)
    (dropped s ++ dispatching_message_queue_ s ++ requests_ s).

Inductive Event :=
  | ENewReference (prevent : bool) (delegate : Z)
  | EConstructSession (id : Z)
  | ESessionDispatch (id : Z) (m : bytes)
  | EDelegateSend (id : Z) (m : bytes)
  | EDestroyReference (id : Z)
  | EMakeDelegate (delegate : Z)
  | EInterrupt
  | EStartWaiting (k : WaitKind)
  | EStopWaiting (resume : bool)
  | EMain
  | EUvEvent
  | ELoopDead
  | EDestroy.

(** One event; [None] where it cannot happen. *)
Definition istep (s : State) (e : Event) : option (outcome State) :=
  match e with
  | ENewReference p d => Some (Ret (new_reference s p d))
  | EConstructSession id =>
      match refs s !! id with
      | Some (RConstructing d) => Some (Ret (construct_session s id d)) | _ => None end
  | ESessionDispatch id m =>
      match refs s !! id with
      | Some RSession => Some (Ret (session_Dispatch s id m)) | _ => None end
  | EDelegateSend id m =>
      match refs s !! id with
      | Some RDelegate => Some (Ret (delegate_Send s id m)) | _ => None end
  | EDestroyReference id =>
      match refs s !! id with
      | Some RSession | Some RDelegate => Some (Ret (destroy_reference s id))
      | _ => None end
  | EMakeDelegate d =>
      if (script_runs s && main_thread_ s)%bool
      then Some (MakeDelegateThreadSafe s d) else None
  | EInterrupt => if script_runs s then Some (Ret (ExhaustInterruptRequests s)) else None
  | EStartWaiting k =>
      if (script_runs s && main_thread_ s)%bool then Some (Ret (start_waiting k s)) else None
  | EStopWaiting b =>
      if (script_runs s && main_thread_ s)%bool then Some (Ret (stop_waiting b s)) else None
  | EMain => main_step s
  | EUvEvent =>
      match frames s with
      | FLoop LUv :: fs =>
          Some (Ret (set_frames s (interrupt_requests_ s) (FLoop LTest :: fs)))
      | _ => None end
  | ELoopDead =>
      match frames s with
      | FLoop LTest :: fs =>
          Some (Ret (set_frames (with_client s (set_running false)) (interrupt_requests_ s) fs))
      | _ => None end
  | EDestroy =>
      match frames s with [] => Some (Ret (destroy_interface s)) | _ => None end
  end.

Fixpoint irun (s : State) (es : list Event) : option (outcome State) :=
  match es with
  | [] => Some (Ret s)
  | e :: es =>
      match istep s e with
      | Some (Ret s') => irun s' es
      | r => r
      end
  end.

Definition init_client : Client := mkClient false ∅ 1 false false false.
Definition init : State :=
  mkState [] [] false (mkWorld ∅ init_client []) true 1 ∅ 0 [] [] [] [].

(** * The part of the main thread's data that decides whether a request fails *)

Definition Core : Type := (gmap Z Deletable * gmap Z ChannelImpl * Z)%type.

Definition core (w : World) : Core :=
  (managed_objects_ w, channels_ (client_ w), next_session_id_ (client_ w)).

Definition drop_session (o : option Deletable) (ch : gmap Z ChannelImpl) :=
  match o with Some (SessionState _ (Some sid)) => delete sid ch | _ => ch end.

Definition core_call (c : Core) (r : Request) : option Core :=
  let '(m, ch, n) := c in
  match r with
  | CreateRequest id p => Some (<[id := SessionState p None]> m, drop_session (m !! id) ch, n)
  | DeleteRequest id =>
      match m !! id with
      | None => None | Some o => Some (delete id m, drop_session (Some o) ch, n) end
  | CallConnect id d =>
      match m !! id with
      | Some (SessionState p old) =>
          Some (<[id := SessionState p (Some n)]> m,
                drop_session (Some (SessionState p old)) (<[n := mkChannel d p false]> ch),
                i32 (n + 1))
      | _ => None end
  | CallDispatch id _ =>
      match m !! id with
      | Some (SessionState _ (Some s)) =>
          match ch !! s with Some _ => Some c | None => None end
      | _ => None end
  | CallSend id _ =>
      match m !! id with Some (DelegateObject _) => Some c | _ => None end
  end.

Lemma disconnect_core w sid :
  core (disconnectFrontend w sid) =
  (managed_objects_ w, delete sid (channels_ (client_ w)), next_session_id_ (client_ w)).
Proof.
  unfold disconnectFrontend, core. destruct (channels_ (client_ w) !! sid) eqn:E.
  - by case_all.
  - by rewrite delete_id.
Qed.

Lemma destroy_object_core w o :
  core (destroy_object w o) =
  (managed_objects_ w, drop_session (Some o) (channels_ (client_ w)),
   next_session_id_ (client_ w)).
Proof. destruct o as [p [sid|]|d]; simpl; [apply disconnect_core|done..]. Qed.

Lemma destroy_object_proj w o :
  managed_objects_ (destroy_object w o) = managed_objects_ w /\
  channels_ (client_ (destroy_object w o)) = drop_session (Some o) (channels_ (client_ w)) /\
  next_session_id_ (client_ (destroy_object w o)) = next_session_id_ (client_ w).
Proof. pose proof (destroy_object_core w o) as H. unfold core in H. by simplify_eq. Qed.

(** A request fails exactly when it fails on the core. *)
Lemma Call_core w r c' :
  core_call (core w) r = Some c' -> exists w', Call w r = Ret w' /\ core w' = c'.
Proof.
  unfold core at 1. destruct r as [id p|id|id d|id m|id m]; simpl.
  - intros [= <-]. eexists. split; [done|]. unfold AddObject, core. simpl.
    destruct (managed_objects_ w !! id) as [o|] eqn:E; [|done].
    destruct (destroy_object_proj w o) as (-> & -> & ->). done.
  - unfold RemoveObject. destruct (managed_objects_ w !! id) as [o|]; [|done].
    intros [= <-]. eexists. split; [done|]. by rewrite destroy_object_core.
  - unfold GetObject. destruct (managed_objects_ w !! id) as [[p old|]|]; try done.
    intros [= <-]. simpl. eexists. split; [done|]. unfold Connect. simpl.
    destruct old as [s0|]; [|done]. by rewrite disconnect_core.
  - unfold GetObject. destruct (managed_objects_ w !! id) as [[p [sid|]|]|]; try done.
    simpl. unfold dispatchMessageFromFrontend.
    destruct (channels_ (client_ w) !! sid); [|done]. intros [= <-]. eauto.
  - unfold GetObject. destruct (managed_objects_ w !! id) as [[| d]|]; try done.
    intros [= <-]. simpl. eauto.
Qed.

Fixpoint core_replay (c : Core) (q : list Request) : option Core :=
  match q with
  | [] => Some c
  | r :: q => match core_call c r with Some c' => core_replay c' q | None => None end
  end.

Lemma core_replay_app c q1 q2 :
  core_replay c (q1 ++ q2) =
  match core_replay c q1 with Some c' => core_replay c' q2 | None => None end.
Proof.
  revert c. induction q1 as [|r q1 IH]; intros c; simpl; [done|].
  by destruct (core_call c r).
Qed.

Definition req_id (r : Request) : Z :=
  match r with
  | CreateRequest id _ | DeleteRequest id | CallConnect id _ | CallDispatch id _
  | CallSend id _ => id
  end.

Definition with_delegate (id d : Z) (c : Core) : Core :=
  let '(m, ch, n) := c in (<[id := DelegateObject d]> m, ch, n).

Lemma core_call_with_delegate c r c' id d :
  req_id r <> id -> core_call c r = Some c' ->
  core_call (with_delegate id d c) r = Some (with_delegate id d c').
Proof.
  destruct c as [[m ch] n]. intros Hne.
  destruct r as [i p|i|i d'|i t|i t]; simpl in *;
    rewrite lookup_insert_ne by done; case_all; intros; simplify_eq/=; try done;
    first [by rewrite insert_insert_ne by done | by rewrite delete_insert_ne by done].
Qed.

Lemma core_replay_with_delegate q : forall c c' id d,
  Forall (fun r => req_id r <> id) q -> core_replay c q = Some c' ->
  core_replay (with_delegate id d c) q = Some (with_delegate id d c').
Proof.
  induction q as [|r q IH]; intros c c' id d Hq; simpl; [by intros [= <-]|].
  inversion Hq; subst. destruct (core_call c r) as [c1|] eqn:E; [|done].
  intros Hr. erewrite core_call_with_delegate by done. by apply IH.
Qed.

(** * Objects outlive the requests that use them

    Replaying the requests that wait, on the objects there are now, never fails and
    ends with exactly the objects other threads still refer to. *)

Definition ref_ok (m : gmap Z Deletable) (ch : gmap Z ChannelImpl) (id : Z)
    (r : option RefState) : Prop :=
  match r with
  | None => m !! id = None
  | Some (RConstructing _) => exists p, m !! id = Some (SessionState p None)
  | Some RSession =>
      exists p sid, m !! id = Some (SessionState p (Some sid)) /\ is_Some (ch !! sid)
  | Some RDelegate => exists d, m !! id = Some (DelegateObject d)
  end.

Definition core_ok (c : Core) (rf : gmap Z RefState) (next bound : Z) : Prop :=
  let '(m, ch, n) := c in
  (forall id, ref_ok m ch id (rf !! id)) /\
  (forall id p sid, m !! id = Some (SessionState p (Some sid)) ->
     sid < n /\ forall id' p', m !! id' = Some (SessionState p' (Some sid)) -> id' = id) /\
  (forall id, is_Some (rf !! id) -> id <= next) /\
  1 <= next <= bound /\ 1 <= n <= bound.

Definition waiting (s : State) : list Request :=
  dispatching_message_queue_ s ++ requests_ s.

Definition objects_inv (k : Z) (s : State) : Prop :=
  if main_thread_ s then
    Forall (fun r => req_id r <= next_object_id_ s) (waiting s) /\
    exists c', core_replay (core (world s)) (waiting s) = Some c' /\
               core_ok c' (refs s) (next_object_id_ s) k
  else waiting s = [].

Lemma core_ok_weaken c rf next k k' : k <= k' -> core_ok c rf next k -> core_ok c rf next k'.
Proof. destruct c as [[m ch] n]. unfold core_ok. naive_solver lia. Qed.

Lemma core_ok_create c rf next k p d :
  core_ok c rf next k ->
  exists c', core_call c (CreateRequest (next + 1) p) = Some c' /\
    core_ok c' (<[next + 1 := RConstructing d]> rf) (next + 1) (k + 1).
Proof.
  destruct c as [[m ch] n]. intros (Hr & Hs & Hn & Hb & Hc). eexists. split; [done|].
  assert (rf !! (next + 1) = None) as Hf.
  { destruct (rf !! (next + 1)) eqn:E; [|done].
    specialize (Hn (next + 1) (mk_is_Some _ _ E)). lia. }
  pose proof (Hr (next + 1)) as Hm. rewrite Hf in Hm. simpl in Hm. rewrite Hm. simpl.
  split_and!; try lia.
  - intros id. destruct (decide (id = next + 1)) as [->|].
    + rewrite !lookup_insert_eq. simpl. eexists. by rewrite lookup_insert_eq.
    + specialize (Hr id). rewrite lookup_insert_ne by done.
      destruct (rf !! id) as [[]|]; simpl in *; rewrite lookup_insert_ne by done; done.
  - intros id q sid. rewrite lookup_insert_Some. intros [[_ [=]]|[_ H1]].
    destruct (Hs _ _ _ H1) as [Hlt Hu]. split; [done|]. intros id' p'.
    rewrite lookup_insert_Some. intros [[_ [=]]|[_ H2]]. eauto.
  - intros id. rewrite lookup_insert_is_Some. intros [<-|[_ H]]; [lia|].
    specialize (Hn id H). lia.
Qed.

Lemma core_ok_connect c rf next k id d :
  k + 1 < 2 ^ 31 -> core_ok c rf next k -> rf !! id = Some (RConstructing d) ->
  exists c', core_call c (CallConnect id d) = Some c' /\
    core_ok c' (<[id := RSession]> rf) next (k + 1).
Proof.
  destruct c as [[m ch] n]. intros Hk (Hr & Hs & Hn & Hb & Hc) Hid.
  pose proof (Hr id) as Hm. rewrite Hid in Hm. destruct Hm as [p Hm].
  simpl. rewrite Hm. eexists. split; [done|]. simpl. rewrite i32_small by lia.
  split_and!; try lia.
  - intros i. destruct (decide (i = id)) as [->|].
    + rewrite !lookup_insert_eq. exists p, n. by rewrite !lookup_insert_eq.
    + specialize (Hr i). rewrite lookup_insert_ne by done.
      destruct (rf !! i) as [[]|]; simpl in *; rewrite lookup_insert_ne by done; try done.
      destruct Hr as (q & sid & H1 & H2). exists q, sid. split; [done|].
      rewrite lookup_insert_is_Some'. by right.
  - intros i q sid. rewrite lookup_insert_Some. intros [[<- [= <- <-]]|[Hne H1]].
    + split; [lia|]. intros i' p'. rewrite lookup_insert_Some. intros [[<- _]|[_ H2]]; [done|].
      apply Hs in H2. lia.
    + destruct (Hs _ _ _ H1) as [Hlt Hu]. split; [lia|]. intros i' p'.
      rewrite lookup_insert_Some. intros [[<- [= _ <-]]|[_ H2]]; [lia|eauto].
  - intros i. rewrite lookup_insert_is_Some. intros [<-|[_ H]]; eauto.
Qed.

Lemma core_ok_use c rf next k r :
  core_ok c rf next k ->
  match r with
  | CallDispatch id _ => rf !! id = Some RSession
  | CallSend id _ => rf !! id = Some RDelegate
  | _ => False
  end -> core_call c r = Some c.
Proof.
  destruct c as [[m ch] n]. intros (Hr & _).
  destruct r as [| | |id t|id t]; try done; intros Hid; specialize (Hr id);
    rewrite Hid in Hr; simpl in *.
  - destruct Hr as (p & sid & -> & [x ->]). done.
  - by destruct Hr as [d ->].
Qed.

Lemma core_ok_delete c rf next k id :
  core_ok c rf next k -> rf !! id = Some RSession \/ rf !! id = Some RDelegate ->
  exists c', core_call c (DeleteRequest id) = Some c' /\
    core_ok c' (delete id rf) next k.
Proof.
  destruct c as [[m ch] n]. intros (Hr & Hs & Hn & Hb & Hc) Hid.
  assert (exists o, m !! id = Some o) as [o Ho].
  { pose proof (Hr id) as H. destruct Hid as [Hid|Hid]; rewrite Hid in H; simpl in H; naive_solver. }
  simpl. rewrite Ho. eexists. split; [done|]. simpl.
  split_and!; try lia.
  - intros i. destruct (decide (i = id)) as [->|]; [by rewrite lookup_delete_eq; simpl; rewrite lookup_delete_eq|].
    specialize (Hr i). rewrite lookup_delete_ne by done.
    destruct (rf !! i) as [[]|]; simpl in *; rewrite lookup_delete_ne by done; try done.
    destruct Hr as (q & sid & H1 & H2). exists q, sid. split; [done|].
    destruct o as [p [sid0|]|]; simpl; try done.
    rewrite lookup_delete_ne; [done|]. intros ->.
    destruct (Hs _ _ _ H1) as [_ Hu]. by specialize (Hu _ _ Ho).
  - intros i q sid H1%lookup_delete_Some. destruct H1 as [_ H1].
    destruct (Hs _ _ _ H1) as [Hlt Hu]. split; [done|].
    intros i' p' H2%lookup_delete_Some. naive_solver.
  - intros i. rewrite lookup_delete_is_Some. naive_solver.
Qed.

Lemma objects_Post k k' s next' rf' r :
  objects_inv k s ->
  (forall c', core_ok c' (refs s) (next_object_id_ s) k ->
     next_object_id_ s <= next' /\ req_id r <= next' /\
     exists c'', core_call c' r = Some c'' /\ core_ok c'' rf' next' k') ->
  objects_inv k' (Post (set_refs s next' rf') r).
Proof.
  unfold objects_inv, Post, waiting. simpl.
  destruct (main_thread_ s) eqn:Hm; simpl; rewrite Hm; [|done].
  intros (Hq & c' & Hc & Hok) Hcall. destruct (Hcall c' Hok) as (Hn & Hr & c'' & H1 & H2).
  rewrite app_assoc. split.
  - apply Forall_app. split; [|by constructor]. eapply Forall_impl; [done|]. simpl. lia.
  - exists c''. split; [|done]. rewrite core_replay_app, Hc. simpl. by rewrite H1.
Qed.

Lemma core_ok_id c rf next k id : core_ok c rf next k -> is_Some (rf !! id) -> id <= next.
Proof. destruct c as [[m ch] n]. intros (_ & _ & Hn & _). apply Hn. Qed.

Lemma core_ok_next c rf next k : core_ok c rf next k -> 1 <= next <= k.
Proof. destruct c as [[m ch] n]. intros (_ & _ & _ & H & _). done. Qed.

(** Steps that touch neither objects nor queues. *)
Lemma objects_same k s s' :
  objects_inv k s -> main_thread_ s' = main_thread_ s -> waiting s' = waiting s ->
  core (world s') = core (world s) -> refs s' = refs s ->
  next_object_id_ s' = next_object_id_ s -> objects_inv k s'.
Proof. unfold objects_inv. intros H -> -> -> -> ->. done. Qed.

Lemma objects_weaken k k' s : k <= k' -> objects_inv k s -> objects_inv k' s.
Proof.
  unfold objects_inv. destruct (main_thread_ s); [|done].
  intros Hk (Hq & c' & Hc & Hok). eauto using core_ok_weaken.
Qed.

Ltac objects_same_tac :=
  eapply objects_same; [done| |  |  |  | ];
  unfold start_waiting, stop_waiting, runMessageLoop, DispatchMessages, with_client;
  case_all; done.

Lemma objects_dispatch k s had fs :
  objects_inv k s ->
  exists s', dispatch_turn s had fs = Ret s' /\ objects_inv k s'.
Proof.
  intros Hs. unfold dispatch_turn.
  destruct (dispatching_message_queue_ s) as [|task q] eqn:Eq.
  - assert (waiting s = requests_ s) as Hw by (unfold waiting; by rewrite Eq).
    destruct had; eexists; (split; [done|]); eapply objects_same; try done;
      unfold waiting; simpl; by rewrite Eq, ?app_nil_r.
  - unfold objects_inv, waiting in Hs. rewrite Eq in Hs.
    destruct (main_thread_ s) eqn:Hm; [|done].
    destruct Hs as (Hq & c' & Hc & Hok). cbn [app core_replay] in Hc.
    destruct (core_call (core (world s)) task) as [c1|] eqn:E1; [|done].
    destruct (Call_core _ _ _ E1) as (w' & -> & <-). simpl. eexists. split; [done|].
    unfold objects_inv, waiting. simpl. rewrite Hm. inversion Hq; subst. eauto.
Qed.

Lemma objects_main k s r :
  objects_inv k s -> main_step s = Some r -> exists s', r = Ret s' /\ objects_inv k s'.
Proof.
  intros Hs. unfold main_step. destruct (frames s) as [|[[|n]|had|q|p] fs] eqn:Ef; [done|..].
  - intros [= <-]. eexists. split; [done|]. objects_same_tac.
  - intros [= <-]. eexists. split; [done|]. simpl.
    destruct (main_thread_ s) eqn:Hm; objects_same_tac.
  - intros [= <-]. by apply objects_dispatch.
  - intros [= <-]. eexists. split; [done|]. objects_same_tac.
  - destruct p; simpl.
    + destruct (shouldRunMessageLoop _); intros [= <-]; eexists; (split; [done|]); objects_same_tac.
    + unfold WaitForFrontendEvent. simpl.
      destruct (dispatching_message_queue_ s) eqn:E1, (requests_ s) eqn:E2; simpl; intros [= <-];
        eexists; (split; [done|]); eapply objects_same; try done;
        unfold waiting; simpl; by rewrite ?E1, ?E2.
    + destruct (interrupt_requests_ s); intros [= <-]; eexists; (split; [done|]). objects_same_tac.
Qed.

(** A request about a live reference. *)
Lemma objects_reference k k' s id rs rf' r :
  objects_inv k s -> refs s !! id = Some rs -> req_id r = id ->
  (forall c', core_ok c' (refs s) (next_object_id_ s) k ->
     exists c'', core_call c' r = Some c'' /\ core_ok c'' rf' (next_object_id_ s) k') ->
  objects_inv k' (Post (set_refs s (next_object_id_ s) rf') r).
Proof.
  intros Hs Hid Hr Hc. apply (objects_Post k); [done|]. intros c' Hok.
  pose proof (core_ok_id _ _ _ _ id Hok (mk_is_Some _ _ Hid)).
  split_and!; [lia..|eauto].
Qed.

Lemma core_replay_other q : forall c c' id,
  Forall (fun r => req_id r <> id) q -> core_replay c q = Some c' ->
  c'.1.1 !! id = c.1.1 !! id.
Proof.
  induction q as [|r q IH]; intros c c' id Hq; simpl; [by intros [= <-]|].
  inversion Hq as [|? ? Hr Hq']; subst.
  destruct (core_call c r) as [c1|] eqn:E; [|done]. intros Hc. rewrite (IH _ _ _ Hq' Hc).
  revert E. destruct c as [[m ch] n], r; simpl in *; case_all; intros; simplify_eq/=;
    rewrite ?lookup_insert_ne, ?lookup_delete_ne by done; done.
Qed.

Lemma core_ok_delegate c rf next k d :
  core_ok c rf next k ->
  core_ok (with_delegate (next + 1) d c) (<[next + 1 := RDelegate]> rf) (next + 1) (k + 1).
Proof.
  destruct c as [[m ch] n]. intros (Hr & Hs & Hn & Hb & Hc). simpl. split_and!; try lia.
  - intros i. destruct (decide (i = next + 1)) as [->|].
    + rewrite !lookup_insert_eq. exists d. by rewrite lookup_insert_eq.
    + specialize (Hr i). rewrite lookup_insert_ne by done.
      destruct (rf !! i) as [[]|]; simpl in *; rewrite lookup_insert_ne by done; done.
  - intros i q sid. rewrite lookup_insert_Some. intros [[_ [=]]|[_ H1]].
    destruct (Hs _ _ _ H1) as [Hlt Hu]. split; [done|]. intros i' p'.
    rewrite lookup_insert_Some. intros [[_ [=]]|[_ H2]]. eauto.
  - intros i. rewrite lookup_insert_is_Some. intros [<-|[_ H]]; [lia|].
    specialize (Hn i H). lia.
Qed.

Lemma objects_delegate k s d :
  k + 1 < 2 ^ 31 -> objects_inv k s -> main_thread_ s = true ->
  exists s', MakeDelegateThreadSafe s d = Ret s' /\ objects_inv (k + 1) s'.
Proof.
  intros Hk Hs Hm. unfold MakeDelegateThreadSafe, newObjectId. rewrite Hm.
  eexists. split; [done|]. unfold objects_inv in *. simpl. rewrite Hm in *.
  unfold waiting in *. simpl. destruct Hs as (Hq & c' & Hc & Hok).
  pose proof (core_ok_next _ _ _ _ Hok). rewrite i32_small by lia.
  assert (Forall (fun r => req_id r <> next_object_id_ s + 1)
            (dispatching_message_queue_ s ++ requests_ s)) as Hq'.
  { eapply Forall_impl; [done|]. simpl. lia. }
  split; [eapply Forall_impl; [exact Hq|]; simpl; lia|].
  exists (with_delegate (next_object_id_ s + 1) d c'). split; [|by apply core_ok_delegate].
  rewrite <- (core_replay_with_delegate _ (core (world s)) c' _ d Hq' Hc). f_equal.
  unfold AddObject. destruct (managed_objects_ (world s) !! _) as [o|] eqn:E; [|done].
  pose proof (core_replay_other _ _ _ _ Hq' Hc) as Ho. simpl in Ho. rewrite E in Ho.
  destruct c' as [[m ch] n]. destruct Hok as (Hr & _ & Hn & _).
  specialize (Hr (next_object_id_ s + 1)). simpl in Ho.
  destruct (refs s !! (next_object_id_ s + 1)) eqn:Er; [|simpl in Hr; congruence].
  specialize (Hn _ (mk_is_Some _ _ Er)). lia.
Qed.

Lemma objects_istep k s e r :
  k + 1 < 2 ^ 31 -> objects_inv k s -> istep s e = Some r ->
  exists s', r = Ret s' /\ objects_inv (k + 1) s'.
Proof.
  intros Hk Hs He.
  assert (Hw : objects_inv (k + 1) s) by (eapply objects_weaken; [|done]; lia).
  assert (Hself : s = set_refs s (next_object_id_ s) (refs s)) by by destruct s.
  destruct e as [p d|id|id m|id m|id|d| |w|b| | | |]; simpl in He.
  - injection He as <-. eexists. split; [done|]. apply (objects_Post k); [done|].
    intros c' Hok. pose proof (core_ok_next _ _ _ _ Hok). unfold newObjectId.
    rewrite i32_small by lia. simpl. split_and!; [lia..|]. by apply core_ok_create.
  - destruct (refs s !! id) as [[d| |]|] eqn:Er; try done. injection He as <-.
    eexists. split; [done|]. eapply (objects_reference k); [done..|].
    intros c' Hok. by eapply core_ok_connect.
  - destruct (refs s !! id) as [[d| |]|] eqn:Er; try done. injection He as <-.
    eexists. split; [done|]. unfold session_Dispatch. rewrite Hself.
    eapply (objects_reference (k + 1)); [done..|]. intros c' Hok. exists c'.
    split; [|done]. by eapply core_ok_use.
  - destruct (refs s !! id) as [[d| |]|] eqn:Er; try done. injection He as <-.
    eexists. split; [done|]. unfold delegate_Send. rewrite Hself.
    eapply (objects_reference (k + 1)); [done..|]. intros c' Hok. exists c'.
    split; [|done]. by eapply core_ok_use.
  - assert (exists rs, refs s !! id = Some rs /\ (rs = RSession \/ rs = RDelegate) /\
              r = Ret (destroy_reference s id)) as (rs & Er & Hrs & ->).
    { destruct (refs s !! id) as [[d| |]|] eqn:Er; try done; injection He as <-; eauto. }
    eexists. split; [done|]. eapply (objects_reference (k + 1)); [done..|].
    intros c' Hok. eapply core_ok_delete; [done|]. destruct Hrs as [->| ->]; eauto.
  - destruct (script_runs s && main_thread_ s)%bool eqn:E; [|done]. bool_to_prop.
    injection He as <-. by apply objects_delegate.
  - destruct (script_runs s); [|done]. injection He as <-. eexists. split; [done|].
    objects_same_tac.
  - destruct (_ && _)%bool; [|done]. injection He as <-. eexists. split; [done|].
    objects_same_tac.
  - destruct (_ && _)%bool; [|done]. injection He as <-. eexists. split; [done|].
    objects_same_tac.
  - by apply (objects_main (k + 1) s).
  - destruct (frames s) as [|[| | |[]] fs]; try done. injection He as <-.
    eexists. split; [done|]. objects_same_tac.
  - destruct (frames s) as [|[| | |[]] fs]; try done. injection He as <-.
    eexists. split; [done|]. objects_same_tac.
  - destruct (frames s); [|done]. injection He as <-. by eexists.
Qed.

(** * Order of requests, and who will dispatch them *)

Definition dispatching (f : Frame) : bool :=
  match f with FDispatch _ => true | _ => false end.
Definition looping (f : Frame) : bool :=
  match f with FDispatch true => true | _ => false end.
(** An activation that will look at [requests_] again. *)
Definition hopeful (f : Frame) : bool :=
  match f with FExhaust (S _) | FDispatch true => true | _ => false end.
Definition not_last (f : Frame) : bool :=
  match f with FDispatch false => false | _ => true end.

Record flow (s : State) : Prop := {
  f_order : posted s = called s ++ waiting s ++ dropped s;
  f_alive : main_thread_ s = true -> dropped s = [];
  f_dead : main_thread_ s = false -> waiting s = [];
  f_tail : forallb not_last (tail (frames s)) = true;
  f_head : head (frames s) = Some (FDispatch false) -> dispatching_message_queue_ s = [];
  f_flag : dispatching_messages_ s = true -> existsb dispatching (frames s) = true;
  f_queue : dispatching_message_queue_ s <> [] -> existsb looping (frames s) = true;
  f_hope : requests_ s <> [] ->
    (0 < interrupt_requests_ s)%nat \/ existsb hopeful (frames s) = true }.

Lemma looping_hopeful fs : existsb looping fs = true -> existsb hopeful fs = true.
Proof.
  induction fs as [|f fs IH]; [done|]. simpl. rewrite !orb_true_iff.
  intros [H|H]; [left; by destruct f as [|[]| |]|auto].
Qed.

Lemma dispatching_looping fs :
  forallb not_last fs = true -> existsb dispatching fs = true -> existsb looping fs = true.
Proof.
  induction fs as [|f fs IH]; [done|]. simpl. rewrite andb_true_iff, !orb_true_iff.
  intros [H1 H2] [H|H]; [left; by destruct f as [|[]| |]|auto].
Qed.

Lemma not_last_tail fs :
  forallb not_last (tail fs) = true -> head fs <> Some (FDispatch false) ->
  forallb not_last fs = true.
Proof. destruct fs as [|f fs]; simpl; [done|]. intros -> H. by destruct f as [|[]| |]. Qed.

Lemma flow_Post s r next rf : flow s -> flow (Post (set_refs s next rf) r).
Proof.
  intros [Ho Ha Hd Ht Hh Hf Hq Hp]. unfold Post. simpl.
  destruct (main_thread_ s) eqn:Hm; [|constructor; simpl; rewrite ?Hm; auto].
  constructor; simpl; try done; unfold waiting in *; simpl in *.
  - rewrite Ho, Ha by done. by rewrite !app_nil_r, !app_assoc.
  - by rewrite Hm.
  - by rewrite Hm.
  - intros _. destruct (requests_ s); [left; lia|].
    apply Hp. done.
Qed.

(** V8's code running: frames may be pushed that do not dispatch yet. *)
Lemma flow_push s s' f :
  flow s -> frames s' = f :: frames s -> not_last f = true ->
  head (frames s) <> Some (FDispatch false) ->
  posted s' = posted s -> called s' = called s -> dropped s' = dropped s ->
  requests_ s' = requests_ s ->
  dispatching_message_queue_ s' = dispatching_message_queue_ s ->
  main_thread_ s' = main_thread_ s ->
  (dispatching_messages_ s' = dispatching_messages_ s \/ dispatching f = true) ->
  (interrupt_requests_ s' = interrupt_requests_ s \/
   interrupt_requests_ s' = O /\ f = FExhaust (interrupt_requests_ s)) ->
  flow s'.
Proof.
  intros [Ho Ha Hd Ht Hh Hf Hq Hp] Ef Hnl Hhd E1 E2 E3 E4 E5 E6 E7 E8.
  constructor; unfold waiting in *; rewrite ?Ef, ?E1, ?E2, ?E3, ?E4, ?E5, ?E6; simpl; try done.
  - by apply not_last_tail.
  - by intros [= ->].
  - intros H. rewrite orb_true_iff. destruct E7 as [E7|E7]; [right|by left]. apply Hf. congruence.
  - intros H. rewrite orb_true_iff. right. auto.
  - intros H. rewrite orb_true_iff. specialize (Hp H).
    destruct E8 as [->|[-> ->]]; [tauto|]. right. destruct Hp as [Hp|Hp]; [left|by right].
    simpl. destruct (interrupt_requests_ s); [lia|done].
Qed.

(** A frame ends. *)
Lemma flow_pop s s' f fs :
  flow s -> frames s = f :: fs -> frames s' = fs -> hopeful f = false ->
  posted s' = posted s -> called s' = called s -> dropped s' = dropped s ->
  requests_ s' = requests_ s ->
  dispatching_message_queue_ s' = dispatching_message_queue_ s ->
  main_thread_ s' = main_thread_ s ->
  (dispatching f = false /\ dispatching_messages_ s' = dispatching_messages_ s \/
   dispatching_messages_ s' = false) ->
  interrupt_requests_ s' = interrupt_requests_ s -> flow s'.
Proof.
  intros [Ho Ha Hd Ht Hh Hf Hq Hp] Ef Ef' Hnh E1 E2 E3 E4 E5 E6 E7 E8.
  constructor; unfold waiting in *;
    rewrite ?Ef', ?E1, ?E2, ?E3, ?E4, ?E5, ?E6, ?E8; rewrite Ef in *; simpl in *; try done.
  - destruct fs as [|g fs]; [done|]. simpl in Ht. by apply andb_true_iff in Ht as [_ ?].
  - destruct fs as [|g fs]; simpl in *; [done|]. intros [= ->]. done.
  - intros H. destruct E7 as [[E7 E9]|E7]; [|congruence].
    rewrite E9 in H. apply Hf in H. rewrite E7 in H. done.
  - intros H. apply Hq in H. destruct f as [|[]| |]; done.
  - intros H. apply Hp in H. by rewrite Hnh in H.
Qed.

Lemma flow_dispatch s had fs s' :
  flow s -> frames s = FDispatch had :: fs -> dispatch_turn s had fs = Ret s' -> flow s'.
Proof.
  intros Hs Ef. pose proof Hs as [Ho Ha Hd Ht Hh Hf Hq Hp]. rewrite Ef in *. simpl in *.
  unfold dispatch_turn. destruct (dispatching_message_queue_ s) as [|task q] eqn:Eq.
  - destruct had; intros [= <-].
    + constructor; unfold waiting in *; rewrite ?Eq in *; simpl in *; try done.
      * by rewrite app_nil_r.
      * intros H. by rewrite app_nil_r; auto.
      * by intros [= H]; destruct (requests_ s).
      * intros H. by destruct (requests_ s).
    + eapply (flow_pop s _ (FDispatch false) fs); simpl; eauto.
  - destruct had; [|by specialize (Hh eq_refl)].
    intros (w & Hw & [= <-])%outcome_bind_inv.
    constructor; unfold waiting in *; rewrite ?Eq in *; simpl in *; try done.
    + rewrite Ho. by rewrite <- (app_assoc (called s)).
    + intros H. by specialize (Hd H).
Qed.

Lemma flow_exhaust s k fs :
  flow s -> frames s = FExhaust (S k) :: fs ->
  let s1 := set_frames s (interrupt_requests_ s) (FExhaust k :: fs) in
  flow (if main_thread_ s then DispatchMessages s1 else s1).
Proof.
  intros [Ho Ha Hd Ht Hh Hf Hq Hp] Ef. rewrite Ef in *. simpl in *.
  destruct (main_thread_ s) eqn:Hm.
  - unfold DispatchMessages. simpl. destruct (dispatching_messages_ s) eqn:Ed.
    + constructor; simpl; rewrite ?Hm, ?Ed; try done. intros _. right. rewrite orb_true_iff.
      right. apply looping_hopeful, dispatching_looping; auto.
    + constructor; simpl; rewrite ?Hm; try done.
  - specialize (Hd eq_refl). unfold waiting in Hd. apply app_eq_nil in Hd as [Hd1 Hd2].
    constructor; unfold waiting in *; simpl; rewrite ?Hd1, ?Hd2, ?Hm in *; done.
Qed.

Lemma head_not_last (s : State) f fs :
  frames s = f :: fs -> not_last f = true -> head (frames s) <> Some (FDispatch false).
Proof. intros ->. simpl. intros H [= ->]. done. Qed.

Lemma flow_main s s' : flow s -> main_step s = Some (Ret s') -> flow s'.
Proof.
  intros Hs. unfold main_step. destruct (frames s) as [|[[|n]|had|q|p] fs] eqn:Ef; [done|..].
  - intros [= <-]. by eapply (flow_pop s _ (FExhaust 0) fs); eauto.
  - intros [= <-]. by apply flow_exhaust.
  - intros [= H]. by eapply flow_dispatch.
  - intros [= <-]. by eapply (flow_pop s _ (FCall q) fs); eauto.
  - destruct p; simpl.
    + destruct (shouldRunMessageLoop _); intros [= <-].
      * destruct Hs; constructor; rewrite ?Ef in *; done.
      * by eapply (flow_pop s _ (FLoop LTest) fs); eauto.
    + unfold WaitForFrontendEvent. simpl.
      destruct (dispatching_message_queue_ s) eqn:E1, (requests_ s) eqn:E2; simpl; intros [= <-];
        destruct Hs; constructor; unfold waiting in *; rewrite ?Ef, ?E1, ?E2 in *; done.
    + destruct (interrupt_requests_ s) eqn:Ei; intros [= <-].
      destruct Hs; constructor; rewrite ?Ef in *; simpl in *; try done. by right.
Qed.

Lemma script_head s :
  script_runs s = true -> head (frames s) <> Some (FDispatch false).
Proof. unfold script_runs. by destruct (frames s) as [|[] ]. Qed.

Lemma flow_istep s e s' : flow s -> istep s e = Some (Ret s') -> flow s'.
Proof.
  intros Hs.
  assert (Hself : s = set_refs s (next_object_id_ s) (refs s)) by by destruct s.
  destruct e as [p d|id|id m|id m|id|d| |w|b| | | |]; simpl.
  - intros [= <-]. by apply flow_Post.
  - destruct (refs s !! id) as [[]|]; try done. intros [= <-]. by apply flow_Post.
  - destruct (refs s !! id) as [[]|]; try done. intros [= <-].
    unfold session_Dispatch. rewrite Hself. by apply flow_Post.
  - destruct (refs s !! id) as [[]|]; try done. intros [= <-].
    unfold delegate_Send. rewrite Hself. by apply flow_Post.
  - destruct (refs s !! id) as [[]|]; try done; intros [= <-]; by apply flow_Post.
  - destruct (_ && _)%bool; [|done]. unfold MakeDelegateThreadSafe.
    destruct (main_thread_ s) eqn:Hm; intros [= <-]; destruct Hs; constructor; done.
  - destruct (script_runs s) eqn:E; [|done]. intros [= <-].
    eapply (flow_push s _ (FExhaust (interrupt_requests_ s))); eauto using script_head.
  - destruct (script_runs s) eqn:E; [|done]. destruct (main_thread_ s) eqn:Hm; [|done].
    intros [= <-]. unfold start_waiting, runMessageLoop.
    destruct (running_nested_loop_ _); [by destruct Hs; constructor|].
    eapply (flow_push s _ (FLoop LTest)); eauto using script_head.
  - destruct (_ && _)%bool; [|done]. intros [= <-]. by destruct Hs; constructor.
  - by apply flow_main.
  - destruct (frames s) as [|[| | |[]] fs] eqn:Ef; try done. intros [= <-].
    destruct Hs; constructor; rewrite ?Ef in *; done.
  - destruct (frames s) as [|[| | |[]] fs] eqn:Ef; try done. intros [= <-].
    by eapply (flow_pop s _ (FLoop LTest) fs); eauto.
  - destruct (frames s) eqn:Ef; [|done]. intros [= <-].
    destruct Hs as [Ho Ha Hd Ht Hh Hf Hq Hp]. constructor; simpl; rewrite ?Ef; try done.
    rewrite Ho. destruct (main_thread_ s) eqn:Hm.
    + by rewrite Ha by done; rewrite app_nil_r.
    + specialize (Hd eq_refl). unfold waiting in *. rewrite Hd. simpl. by rewrite app_nil_r.
Qed.

Lemma init_inv : objects_inv 1 init /\ flow init.
Proof.
  split; [|by constructor].
  split; [constructor|]. eexists. split; [done|]. unfold core_ok, core. simpl.
  split_and!; try lia; [|done|].
  - intros id. by rewrite lookup_empty.
  - intros id [x Hx]. by rewrite lookup_empty in Hx.
Qed.

Lemma irun_inv es : forall k s r,
  k + Z.of_nat (length es) < 2 ^ 31 -> objects_inv k s -> flow s -> irun s es = Some r ->
  exists s', r = Ret s' /\ objects_inv (k + Z.of_nat (length es)) s' /\ flow s'.
Proof.
  induction es as [|e es IH]; intros k s r Hk Ho Hf; simpl.
  - intros [= <-]. rewrite Z.add_0_r. eauto.
  - simpl in Hk. destruct (istep s e) as [r1|] eqn:E; [|done].
    destruct (objects_istep k s e r1) as (s1 & -> & Ho1); [lia|done..|].
    apply flow_istep in E; [|done]. intros H.
    destruct (IH (k + 1) s1 r) as (s' & -> & Ho' & Hf'); [lia|done..|].
    exists s'. split_and!; [done| |done].
    by replace (k + Z.of_nat (S (length es))) with (k + 1 + Z.of_nat (length es)) by lia.
Qed.

(** ** What a client of the handle relies on *)

Definition reachable (n : nat) (s : State) : Prop :=
  exists es, irun init es = Some (Ret s) /\ (length es <= n)%nat.

Lemma irun_snoc es e : forall s s1 r,
  irun s es = Some (Ret s1) -> istep s1 e = r -> irun s (es ++ [e]) = r.
Proof.
  induction es as [|e0 es IH]; intros s s1 r; simpl.
  - intros [= ->]. by destruct (istep s1 e) as [[]|].
  - destruct (istep s e0) as [[s2|]|]; try done. apply IH.
Qed.

Lemma reachable_step n s e s' :
  reachable n s -> istep s e = Some (Ret s') -> reachable (S n) s'.
Proof.
  intros (es & H & Hn) He. exists (es ++ [e]). rewrite length_app. simpl.
  split; [by eapply irun_snoc|lia].
Qed.

Lemma reachable_weaken n n' s : (n <= n')%nat -> reachable n s -> reachable n' s.
Proof. intros Hn (es & H & Hl). exists es. split; [done|lia]. Qed.

Lemma reachable_no_fault n s e r :
  reachable n s -> Z.of_nat n < 2 ^ 31 - 2 -> istep s e = Some r -> exists s', r = Ret s'.
Proof.
  intros (es & H & Hl) Hn He. destruct init_inv as [Ho Hf].
  pose proof (irun_snoc es e _ _ _ H He) as H2.
  destruct (irun_inv (es ++ [e]) 1 init r) as (s' & -> & _); try done; [|eauto].
  rewrite length_app. simpl. lia.
Qed.

Lemma fresh_object_id n s :
  reachable n s -> Z.of_nat n < 2 ^ 31 - 2 -> main_thread_ s = true ->
  refs s !! newObjectId s = None.
Proof.
  intros (es & H & Hl) Hn Hm. destruct init_inv as [Ho Hf].
  destruct (irun_inv es 1 init (Ret s)) as (s' & [= <-] & Ho' & _); [lia|done..|].
  unfold objects_inv in Ho'. rewrite Hm in Ho'. destruct Ho' as (_ & c' & _ & Hok).
  pose proof (core_ok_next _ _ _ _ Hok). unfold newObjectId. rewrite i32_small by lia.
  destruct (refs s !! (next_object_id_ s + 1)) eqn:E; [|done].
  pose proof (core_ok_id _ _ _ _ _ Hok (mk_is_Some _ _ E)). lia.
Qed.

(** C18 No history of connections, messages, delegates, interrupts, pauses and
    shutdowns makes a request fail: the object a request names is there, has the
    request's type, and a session that receives a message is connected; and the
    requests are called once each, in the order they were posted, with the rest
    waiting in the queues (or dropped when the interface is gone), however deeply
    the dispatch is re-entered. *)
Theorem inspector_requests_safe es r :
  Z.of_nat (length es) < 2 ^ 31 - 1 -> irun init es = Some r ->
  exists s, r = Ret s /\
    posted s = called s ++ dispatching_message_queue_ s ++ requests_ s ++ dropped s /\
    (main_thread_ s = true -> dropped s = []).
Proof.
  intros Hk H. destruct init_inv as [Ho Hf].
  destruct (irun_inv es 1 init r) as (s & -> & _ & [Hp Ha _ _ _ _ _ _]); [lia|done..|].
  exists s. unfold waiting in Hp. rewrite <- app_assoc in Hp. done.
Qed.

(** Connect, send, run the interrupt, pause inside the message, send another, close. *)
Definition sample_history : list Event :=
  [ENewReference true 7; EConstructSession 2; ESessionDispatch 2 (bs "evaluate");
   EInterrupt] ++ replicate 6 EMain ++
  [EMain; EStartWaiting OnPause; ESessionDispatch 2 (bs "resume"); EMain; EMain; EMain;
   EMain; EMain; EMain; EStopWaiting true; EMain; EMain; EMain; EMain; EMain; EMain;
   EDestroyReference 2].

Definition ret_state (r : option (outcome State)) : State :=
  match r with Some (Ret s) => s | _ => init end.

(** The resume message is called from inside the evaluate message. *)
Example sample_called :
  called (ret_state (irun init sample_history)) =
    [CreateRequest 2 true; CallConnect 2 7; CallDispatch 2 (bs "evaluate");
     CallDispatch 2 (bs "resume")].
Proof. vm_compute. reflexivity. Qed.

Example inspector_requests_safe_witness :
  exists s, irun init sample_history = Some (Ret s) /\
    posted s = called s ++ dispatching_message_queue_ s ++ requests_ s ++ dropped s.
Proof.
  destruct (irun init sample_history) as [r|] eqn:E; [|exfalso; revert E; vm_compute; discriminate].
  destruct (inspector_requests_safe sample_history r ltac:(vm_compute; reflexivity) E)
    as (s & -> & Hp & _).
  exists s. split; [reflexivity|exact Hp].
Defined.

(** * Without a pause, everything posted is called *)

Definition no_loop (f : Frame) : bool := match f with FLoop _ => false | _ => true end.

(** The main thread left alone: an idle one runs its interrupts, a busy one goes on. *)
Definition quiet_next (s : State) : option State :=
  match frames s with
  | [] => match interrupt_requests_ s with
          | O => None | _ => Some (ExhaustInterruptRequests s) end
  | _ => match main_step s with Some (Ret s') => Some s' | _ => None end
  end.

Fixpoint settle (n : nat) (s : State) : option State :=
  match n with
  | O => None
  | S n => match quiet_next s with None => Some s | Some s' => settle n s' end
  end.

Definition weight (f : Frame) : nat :=
  match f with
  | FExhaust k => 1 + 5 * k
  | FDispatch had => if had then 4 else 1
  | _ => 1
  end.

Fixpoint weights (fs : list Frame) : nat :=
  match fs with [] => 0 | f :: fs => weight f + weights fs end.

Definition work (s : State) : nat :=
  3 * length (requests_ s) + 2 * length (dispatching_message_queue_ s) +
  7 * interrupt_requests_ s + weights (frames s).

Record settling (s : State) : Prop := {
  se_objects : exists k, objects_inv k s;
  se_flow : flow s;
  se_alive : main_thread_ s = true;
  se_loop : forallb no_loop (frames s) = true }.

Lemma main_step_quiet s :
  settling s -> frames s <> [] ->
  exists s', main_step s = Some (Ret s') /\ (work s' < work s)%nat /\
    posted s' = posted s /\ main_thread_ s' = true /\ forallb no_loop (frames s') = true.
Proof.
  intros [[k Ho] Hf Ha Hl] Hne. unfold main_step, work.
  destruct (frames s) as [|[[|n]|had|q|p] fs] eqn:Ef; [done|..]; simpl in Hl.
  - eexists. split; [done|]. simpl. split_and!; try done. lia.
  - eexists. split; [done|]. simpl. rewrite Ha. unfold DispatchMessages. simpl.
    destruct (dispatching_messages_ s); simpl; split_and!; try done; lia.
  - destruct (objects_dispatch k s had fs Ho) as (s' & E & _). rewrite E.
    exists s'. split; [done|]. revert E. unfold dispatch_turn.
    destruct (dispatching_message_queue_ s) as [|task q] eqn:Eq.
    + destruct had; intros [= <-]; simpl; [|split_and!; try done; lia].
      destruct (requests_ s); simpl; split_and!; try done; lia.
    + intros (w & _ & [= <-])%outcome_bind_inv. simpl. split_and!; try done; lia.
  - eexists. split; [done|]. simpl. split_and!; try done. lia.
  - done.
Qed.

Lemma quiet_step s s' :
  settling s -> quiet_next s = Some s' ->
  settling s' /\ (work s' < work s)%nat /\ posted s' = posted s.
Proof.
  intros Hs. unfold quiet_next. destruct (frames s) as [|f fs] eqn:Ef.
  - destruct (interrupt_requests_ s) as [|i] eqn:Ei; intros [= <-].
    destruct Hs as [[k Ho] Hf Ha Hl]. split_and!; [|unfold work; simpl; rewrite Ef, Ei; simpl; lia|done].
    constructor; simpl; rewrite ?Ef; try done.
    + exists k. by apply (objects_same k s).
    + apply (flow_istep s EInterrupt); [done|]. simpl. unfold script_runs. by rewrite Ef.
  - destruct (main_step_quiet s Hs) as (s1 & E & Hw & Hp & Ha & Hl); [by rewrite Ef|].
    rewrite E. intros [= <-]. split_and!; try done.
    destruct Hs as [[k Ho] Hf _ _]. constructor; try done; [|by eapply flow_main].
    destruct (objects_main k s _ Ho E) as (s2 & [= <-] & H2). eauto.
Qed.

Lemma quiet_final s :
  settling s -> quiet_next s = None -> frames s = [] /\ waiting s = [] /\ called s = posted s.
Proof.
  intros Hs. unfold quiet_next. destruct (frames s) as [|f fs] eqn:Ef.
  - destruct (interrupt_requests_ s) as [|i] eqn:Ei; [|done]. intros _.
    destruct Hs as [_ [Ho Ha _ _ _ _ Hq Hp] Hm _]. specialize (Ha Hm). rewrite Ef in *. simpl in *.
    assert (waiting s = []) as Hw.
    { unfold waiting. destruct (dispatching_message_queue_ s); [|by specialize (Hq ltac:(done))].
      destruct (requests_ s); [done|]. destruct (Hp ltac:(done)); [lia|done]. }
    rewrite Ho, Hw, Ha. simpl. by rewrite app_nil_r.
  - destruct (main_step_quiet s Hs) as (s1 & E & _); [by rewrite Ef|]. by rewrite E.
Qed.

Lemma settle_enough n : forall s, settling s -> (work s < n)%nat ->
  exists s', settle n s = Some s' /\ frames s' = [] /\ waiting s' = [] /\
    called s' = posted s /\ posted s' = posted s.
Proof.
  induction n as [|n IH]; intros s Hs Hw; [lia|]. simpl.
  destruct (quiet_next s) as [s1|] eqn:E.
  - destruct (quiet_step s s1 Hs E) as (Hs1 & Hw1 & Hp). rewrite <- Hp. apply IH; [done|lia].
  - destruct (quiet_final s Hs E) as (H1 & H2 & H3). exists s. by split_and!.
Qed.

(** C19 Whatever happened before, if the interface is alive and the main thread is
    not inside a nested message loop, then left alone it terminates with every
    posted request called, in order: requests are never forgotten, although an
    interrupt is requested only when the queue was empty and an interrupt that
    arrives during a dispatch does nothing. *)
Theorem posted_requests_are_called es s :
  Z.of_nat (length es) < 2 ^ 31 - 1 -> irun init es = Some (Ret s) ->
  main_thread_ s = true -> forallb no_loop (frames s) = true ->
  forall n, (work s < n)%nat ->
  exists s', settle n s = Some s' /\ frames s' = [] /\ waiting s' = [] /\
    called s' = posted s /\ posted s' = posted s.
Proof.
  intros Hk H Ha Hl n Hn. apply settle_enough; [|done]. destruct init_inv as [Ho Hf].
  destruct (irun_inv es 1 init _ ltac:(lia) Ho Hf H) as (s1 & [= <-] & Ho1 & Hf1).
  constructor; eauto.
Qed.

Example posted_requests_are_called_witness :
  exists s, irun init sample_history = Some (Ret s) /\
    exists s', settle 100 s = Some s' /\ called s' = posted s.
Proof.
  destruct (irun init sample_history) as [[s|]|] eqn:E;
    [|exfalso; revert E; vm_compute; discriminate|exfalso; revert E; vm_compute; discriminate].
  assert (Hc : main_thread_ s = true /\ forallb no_loop (frames s) = true /\ (work s < 100)%nat).
  { replace s with (ret_state (irun init sample_history)) by (rewrite E; reflexivity).
    vm_compute. split_and!; try reflexivity. lia. }
  destruct Hc as (H1 & H2 & H3).
  destruct (posted_requests_are_called sample_history s ltac:(vm_compute; reflexivity) E
              H1 H2 100 H3) as (s' & Hs & _ & _ & Hc & _).
  exists s. split; [reflexivity|]. exists s'. split; [exact Hs|exact Hc].
Defined.

(** * A pause can lose the frontend for ever *)

Record stuck (s : State) : Prop := {
  st_loop : exists p fs, frames s = FLoop p :: fs;
  st_interrupts : interrupt_requests_ s = O;
  st_queue : dispatching_message_queue_ s = [];
  st_requests : requests_ s <> [];
  st_wait : shouldRunMessageLoop (client_ (world s)) = true }.

Definition stuck_after (s s' : State) : Prop :=
  stuck s' /\ called s' = called s /\ exists l, requests_ s' = requests_ s ++ l.

Lemma stuck_Post s r next rf : stuck s -> stuck_after s (Post (set_refs s next rf) r).
Proof.
  intros [Hl Hi Hq Hr Hw]. unfold Post. simpl. destruct (main_thread_ s).
  - unfold stuck_after. simpl. split; [|eauto].
    destruct (requests_ s) as [|q l] eqn:E; [done|]. by constructor; simpl; rewrite ?E.
  - split; [by constructor|]. split; [done|]. exists []. by rewrite app_nil_r.
Qed.

Lemma stuck_same s s' :
  stuck s -> (exists p fs, frames s' = FLoop p :: fs) -> interrupt_requests_ s' = O ->
  dispatching_message_queue_ s' = [] -> requests_ s' = requests_ s ->
  world s' = world s -> called s' = called s -> stuck_after s s'.
Proof.
  intros [Hl Hi Hq Hr Hw] H1 H2 H3 H4 H5 H6.
  split; [constructor; try done; congruence|]. split; [done|]. exists [].
  by rewrite app_nil_r.
Qed.

Lemma stuck_istep s e s' :
  stuck s -> e <> ELoopDead -> istep s e = Some (Ret s') -> stuck_after s s'.
Proof.
  intros Hs He. pose proof Hs as [(p & fs & Ef) Hi Hq Hr Hw].
  assert (Hself : s = set_refs s (next_object_id_ s) (refs s)) by by destruct s.
  assert (script_runs s = false) as Hsc by (unfold script_runs; by rewrite Ef).
  destruct e as [pv d|id|id m|id m|id|d| |w|b| | | |]; simpl; rewrite ?Hsc; try done.
  - intros [= <-]. by apply stuck_Post.
  - destruct (refs s !! id) as [[]|]; try done. intros [= <-]. by apply stuck_Post.
  - destruct (refs s !! id) as [[]|]; try done. intros [= <-].
    unfold session_Dispatch. rewrite Hself at 2. by apply stuck_Post.
  - destruct (refs s !! id) as [[]|]; try done. intros [= <-].
    unfold delegate_Send. rewrite Hself at 2. by apply stuck_Post.
  - destruct (refs s !! id) as [[]|]; try done; intros [= <-]; by apply stuck_Post.
  - unfold main_step. rewrite Ef. destruct p; simpl.
    + rewrite Hw. intros [= <-]. apply stuck_same; simpl; eauto.
    + unfold WaitForFrontendEvent. simpl. rewrite Hq.
      destruct (requests_ s) as [|r l] eqn:E; [done|]. intros [= <-].
      apply stuck_same; simpl; rewrite ?E; eauto.
    + by rewrite Hi.
  - rewrite Ef. destruct p; try done. intros [= <-]. apply stuck_same; simpl; eauto.
  - by rewrite Ef.
Qed.

Lemma stuck_irun es : forall s s',
  stuck s -> ELoopDead ∉ es -> irun s es = Some (Ret s') ->
  called s' = called s /\ exists l, requests_ s' = requests_ s ++ l.
Proof.
  induction es as [|e es IH]; intros s s' Hs Hd; simpl.
  - intros [= <-]. split; [done|]. exists []. by rewrite app_nil_r.
  - apply not_elem_of_cons in Hd as [Hd1 Hd2].
    destruct (istep s e) as [[s1|]|] eqn:E; [|done..]. intros H.
    destruct (stuck_istep s e s1 Hs ltac:(done) E) as (Hs1 & Hc1 & l1 & Hl1).
    destruct (IH s1 s' Hs1 Hd2 H) as (Hc2 & l2 & Hl2).
    split; [congruence|]. exists (l1 ++ l2). by rewrite Hl2, Hl1, app_assoc.
Qed.

(** A script that a message evaluates is running; the next message arrives and its
    interrupt is served by the running script; then the script pauses. *)
Definition lost_history : list Event :=
  [ENewReference true 7; EConstructSession 2; ESessionDispatch 2 (bs "evaluate");
   EInterrupt] ++ replicate 7 EMain ++
  [ESessionDispatch 2 (bs "resume"); EInterrupt; EMain; EMain; EStartWaiting OnPause].

(** A defect: there is a history after which the main thread sits in the nested
    loop of a pause with the frontend's resume message in its queue and never calls
    it, nor any later message, whatever other threads send and whatever the event
    loop does, as long as the loop has live handles.  The interrupt of that message
    was consumed while [DispatchMessages] was active, and later posts do not notify
    because the queue is not empty. *)
Theorem pause_loses_frontend :
  exists s, irun init lost_history = Some (Ret s) /\
    CallDispatch 2 (bs "resume") ∈ requests_ s /\
    forall es s', ELoopDead ∉ es -> irun s es = Some (Ret s') ->
      called s' = called s /\ CallDispatch 2 (bs "resume") ∈ requests_ s'.
Proof.
  destruct (irun init lost_history) as [[s|]|] eqn:E;
    [|exfalso; revert E; vm_compute; discriminate|exfalso; revert E; vm_compute; discriminate].
  assert (Hs : stuck s /\ requests_ s = [CallDispatch 2 (bs "resume")]).
  { rewrite <- (f_equal ret_state E : ret_state (irun init lost_history) = s). clear E.
    split; [|vm_compute; reflexivity].
    constructor; [eexists _, _|..]; vm_compute; (reflexivity || discriminate). }
  destruct Hs as [Hs Hr]. exists s. split; [done|]. rewrite Hr. split; [left|].
  intros es s' Hd H. destruct (stuck_irun es s s' Hs Hd H) as (Hc & l & Hl).
  split; [done|]. rewrite Hl, Hr. left.
Qed.
