(* ===== verification/DiagChannel.v ===== *)
(** src/src/agent_channel/noslated_diag_channel.{h,cc} and
    src/src/inspector/inspector_io.{h,cc}: the channel over which the agent drives
    the inspector, from the watchdog thread, and the queue that brings the
    inspector's messages back to it.

    The channel is built on [Inspector]: it holds the inspector's state and calls
    the operations of the main thread's handle.  A request of the agent is a number
    and each call of its closure is logged in [replies]; [out] are the requests the
    channel sends.  Callbacks the channel leaves with [Immortal::RequestInterrupt]
    are kept apart from those of the inspector's queue. *)

From S2P Require Import Prelude IpcMessage Inspector.
From Stdlib Require Import Permutation.
Import String.StringSyntax.
Local Open Scope string_scope.
Local Open Scope list_scope.
Local Open Scope Z_scope.

(** * Data *)

(** [src/src/inspector/inspector_io.cc 23-23, TransportAction] *)
Inductive TransportAction := kKill | kSendMessage | kStop.

(** [src/src/inspector/inspector_io.cc 53-60, RequestToChannel] *)
Record RequestToChannel := mkToChannel {
  action_ : TransportAction;
  to_session : Z;
  to_message : bytes }.

(** [src/src/inspector/inspector_io.cc 131-137, RequestQueue] [rq_async] is whether
    the async handle has been sent and its callback not run. *)
Record RequestQueue := mkQueue {
  messages_ : list RequestToChannel;
  rq_channel : bool;
  rq_async : bool }.

(** [src/src/inspector/inspector_io.cc 201-207, InspectorIoDelegate] A session is the
    object id of its [CrossThreadInspectorSession]. *)
Record IoDelegate := mkIoDelegate {
  sessions_ : gmap Z Z;
  io_queue : nat;
  script_name_ : bytes;
  target_id_ : bytes }.

(** What the channel asks the agent. *)
Inductive Out :=
  | OutStarted
  | OutEvent (session_id : Z) (message : bytes)
  | OutCredentials.

(** A callback handed to [RequestInterrupt] with the request it will answer. *)
Inductive Interrupt :=
  | IInspectorStart (n : nat)
  | ITracingStart (n : nat) (categories : list bytes)
  | ITracingStop (n : nat).

Definition interrupt_request (i : Interrupt) : nat :=
  match i with IInspectorStart n | ITracingStart n _ | ITracingStop n => n end.

(** [src/src/agent_channel/noslated_diag_channel.h 96-104, NoslatedDiagChannel] *)
Record Channel := mkChannel {
  connected_ : bool;
  stopping_ : bool;
  opened_session_count_ : Z;
  socket_ : bool;
  delegate_ : option IoDelegate }.

(** Request queues that are allocated; [io_] of the inspector agent ([Some None] is an
    [InspectorIo] whose [request_queue_] is still null); watchdog entries not yet
    run; the session delegates made: token to queue and session. *)
Record Io := mkIo {
  queues : gmap nat RequestQueue;
  next_queue : nat;
  io_ : option (option nat);
  entries : nat;
  tokens : gmap Z (nat * Z);
  next_token : Z }.

(** [interrupts] wait for the main thread; [traced] are the calls of the trace agent
    ([None] is Stop); [frontend] are the messages V8's sessions sent. *)
Record History := mkHistory {
  interrupts : list Interrupt;
  traced : list (option (list bytes));
  requests : nat;
  replies : list (nat * CanonicalCode);
  out : list (bool * Out);
  frontend : list (Z * bytes) }.

Record Diag := mkDiag {
  chan : Channel;
  io : Io;
  insp : Inspector.State;
  hist : History }.

Definition on_chan (f : Channel -> Channel) (s : Diag) : Diag :=
  mkDiag (f (chan s)) (io s) (insp s) (hist s).
Definition on_io (f : Io -> Io) (s : Diag) : Diag :=
  mkDiag (chan s) (f (io s)) (insp s) (hist s).
Definition on_insp (f : Inspector.State -> Inspector.State) (s : Diag) : Diag :=
  mkDiag (chan s) (io s) (f (insp s)) (hist s).
Definition on_hist (f : History -> History) (s : Diag) : Diag :=
  mkDiag (chan s) (io s) (insp s) (f (hist s)).

Definition set_delegate (d : option IoDelegate) (c : Channel) : Channel :=
  mkChannel (connected_ c) (stopping_ c) (opened_session_count_ c) (socket_ c) d.
Definition set_sessions (m : gmap Z Z) (c : Channel) : Channel :=
  match delegate_ c with
  | None => c
  | Some d => set_delegate (Some (mkIoDelegate m (io_queue d) (script_name_ d) (target_id_ d))) c
  end.
Definition set_count (n : Z) (c : Channel) : Channel :=
  mkChannel (connected_ c) (stopping_ c) (u32 n) (socket_ c) (delegate_ c).
Definition set_socket (b : bool) (c : Channel) : Channel :=
  mkChannel (connected_ c) (stopping_ c) (opened_session_count_ c) b (delegate_ c).
Definition set_connected (b : bool) (c : Channel) : Channel :=
  mkChannel b (stopping_ c) (opened_session_count_ c) (socket_ c) (delegate_ c).
Definition set_stopping (b : bool) (c : Channel) : Channel :=
  mkChannel (connected_ c) b (opened_session_count_ c) (socket_ c) (delegate_ c).

Definition set_queues (m : gmap nat RequestQueue) (i : Io) : Io :=
  mkIo m (next_queue i) (io_ i) (entries i) (tokens i) (next_token i).
Definition set_io (o : option (option nat)) (n : nat) (i : Io) : Io :=
  mkIo (queues i) (next_queue i) o n (tokens i) (next_token i).

Definition reply (n : nat) (c : CanonicalCode) (h : History) : History :=
  mkHistory (interrupts h) (traced h) (requests h) (replies h ++ [(n, c)]) (out h) (frontend h).
Definition RequestInterrupt (i : Interrupt) (h : History) : History :=
  mkHistory (interrupts h ++ [i]) (traced h) (requests h) (replies h) (out h) (frontend h).

(** * The request queue *)

(** [src/src/inspector/inspector_io.cc 93-103, RequestQueue::Post] *)
Definition queue_Post (q : RequestQueue) (r : RequestToChannel) : RequestQueue :=
  let notify := match messages_ q with [] => true | _ => false end in
  mkQueue (messages_ q ++ [r]) (rq_channel q) (if notify then true else rq_async q).

(** [src/src/inspector/inspector_io.cc 149-154, RequestQueueHandle::Post] [data_] is
    never reset (no caller of [Reset]), so that it points to freed memory when the
    queue is gone. *)
Definition handle_Post (s : Diag) (h : nat) (r : RequestToChannel) : outcome Diag :=
  match queues (io s) !! h with
  | None => Fault UseAfterFree
  | Some q => Ret (on_io (fun i => set_queues (<[h := queue_Post q r]> (queues i)) i) s)
  end.

(** [src/src/agent_channel/noslated_diag_channel.cc 242-257,
    NoslatedDiagChannel::SendInspectorStarted] and the other requests to the agent;
    the flag is whether there is a socket to carry it. *)
Definition send_request (o : Out) (s : Diag) : Diag :=
  on_hist (fun h => mkHistory (interrupts h) (traced h) (requests h) (replies h)
                      (out h ++ [(socket_ (chan s), o)]) (frontend h)) s.

(** The destructor of the sessions in the map, in the order of an iteration. *)
Fixpoint destroy_sessions (ids : list (Z * Z)) (i : Inspector.State) : Inspector.State :=
  match ids with
  | [] => i
  | (_, id) :: ids => destroy_sessions ids (destroy_reference i id)
  end.

(** [src/src/inspector/inspector_io.cc 182-207, InspectorIoDelegate] The destructor:
    sessions first, then the queue, which the delegate owns. *)
Definition destroy_delegate (s : Diag) : Diag :=
  match delegate_ (chan s) with
  | None => s
  | Some d =>
      on_io (fun i => set_queues (delete (io_queue d) (queues i)) i)
        (on_chan (set_delegate None)
           (on_insp (destroy_sessions (map_to_list (sessions_ d))) s))
  end.

(** [src/src/agent_channel/noslated_diag_channel.cc 53-55,
    NoslatedDiagChannel::TerminateConnections] *)
Definition TerminateConnections (s : Diag) : Diag := destroy_delegate s.

(** [src/src/agent_channel/noslated_diag_channel.cc 57-59,
    NoslatedDiagChannel::StopAcceptingNewConnections] *)
Definition StopAcceptingNewConnections (s : Diag) : Diag := on_chan (set_stopping true) s.

(** [src/src/agent_channel/noslated_diag_channel.cc 61-78, NoslatedDiagChannel::Send] *)
Definition Send (session_id : Z) (message : bytes) (s : Diag) : Diag :=
  send_request (OutEvent session_id message) s.

(** [src/src/inspector/inspector_io.cc 62-74, RequestToChannel::Dispatch] *)
Definition RequestToChannel_Dispatch (r : RequestToChannel) (s : Diag) : Diag :=
  match action_ r with
  | kKill => StopAcceptingNewConnections (TerminateConnections s)
  | kStop => StopAcceptingNewConnections s
  | kSendMessage => Send (to_session r) (to_message r) s
  end.

(** [src/src/inspector/inspector_io.cc 126-128, RequestQueue::DoDispatch] The loop over
    the messages taken; [channel_] is read from the queue for each of them. *)
Fixpoint dispatch_all (h : nat) (l : list RequestToChannel) (s : Diag) : outcome Diag :=
  match l with
  | [] => Ret s
  | r :: l =>
      match queues (io s) !! h with
      | None => Fault UseAfterFree
      | Some _ => dispatch_all h l (RequestToChannel_Dispatch r s)
      end
  end.

(** [src/src/inspector/inspector_io.cc 116-129, RequestQueue::DoDispatch, GetMessages]
    The callback of the async handle. *)
Definition DoDispatch (h : nat) (s : Diag) : outcome Diag :=
  match queues (io s) !! h with
  | None => Fault UseAfterFree
  | Some q =>
      let set q' := on_io (fun i => set_queues (<[h := q']> (queues i)) i) s in
      if rq_channel q
      then dispatch_all h (messages_ q) (set (mkQueue [] true false))
      else Ret (set (mkQueue (messages_ q) false false))
  end.

(** * Starting and stopping *)

(** [src/src/agent_channel/noslated_diag_channel.cc 37-46,
    NoslatedDiagChannel::AssignInspectorDelegate] with
    [InspectorIoDelegate::AssignDiagChannel] (inspector_io.cc 197-199). *)
Definition AssignInspectorDelegate (d : IoDelegate) (s : Diag) : Diag :=
  let s := on_chan (set_delegate (Some d)) (destroy_delegate s) in
  let s := on_io (fun i =>
    match queues i !! io_queue d with
    | None => i
    | Some q => set_queues (<[io_queue d := mkQueue (messages_ q) true (rq_async q)]> (queues i)) i
    end) s in
  if connected_ (chan s) then send_request OutStarted s else s.

(** [src/src/inspector/inspector_io.cc 252-259, InspectorIo::ThreadEntry] on the watchdog
    thread, through a raw pointer to the [InspectorIo]. *)
Definition ThreadEntry (script_name target_id : bytes) (s : Diag) : outcome Diag :=
  match io_ (io s) with
  | None => Fault UseAfterFree
  | Some _ =>
      let h := next_queue (io s) in
      let s := on_io (fun i =>
        mkIo (<[h := mkQueue [] false false]> (queues i)) (S h) (Some (Some h))
          (pred (entries i)) (tokens i) (next_token i)) s in
      Ret (AssignInspectorDelegate (mkIoDelegate ∅ h script_name target_id) s)
  end.

(** [src/src/inspector/inspector_agent.cc 299-312, InspectorAgent::StartInspectorIo] with
    the constructor that registers a watchdog entry (inspector_io.cc 233-242).  The check that
    [client_] is set passes: the states of the model are those after [InspectorAgent::Start]
    (immortal.cc 616), which precedes the agent's bootstrap, and they always have a client. *)
Definition StartInspectorIo (s : Diag) : Diag :=
  match io_ (io s) with
  | Some _ => s
  | None => on_io (fun i => set_io (Some None) (S (entries i)) i) s
  end.

(** [src/src/inspector/inspector_io.cc 244-250, InspectorIo::~InspectorIo,
    StopAcceptingNewConnections] *)
Definition io_Post (a : TransportAction) (s : Diag) : outcome Diag :=
  match io_ (io s) with
  | None => Ret s
  | Some None => Fault NullDeref
  | Some (Some h) => handle_Post s h (mkToChannel a 0 [])
  end.

(** [src/src/inspector/inspector_agent.cc 319-321, InspectorAgent::StopInspectorIo] *)
Definition StopInspectorIo (s : Diag) : outcome Diag :=
  s ← io_Post kKill s; Ret (on_io (fun i => set_io None (entries i) i) s).

(** [src/src/agent_channel/noslated_diag_channel.cc 48-51, NoslatedDiagChannel::Stop] *)
Definition Stop (s : Diag) : Diag := on_chan (set_socket false) (on_chan (set_connected true) s).

(** * Sessions *)

(** [src/src/inspector/inspector_io.cc 271-281, InspectorIoDelegate::StartSession] and
    [MainThreadHandle::Connect] (main_thread_interface.cc 309-316): the delegate made
    for the session, the session, and the destruction of one with the same id. *)
Definition StartSession (d : IoDelegate) (session_id : Z) (s : Diag) : Diag :=
  let token := next_token (io s) in
  let s := on_io (fun i => mkIo (queues i) (next_queue i) (io_ i) (entries i)
             (<[token := (io_queue d, session_id)]> (tokens i)) (token + 1)) s in
  let id := newObjectId (insp s) in
  let s := on_insp (fun i => construct_session (new_reference i true token) id token) s in
  let s := match sessions_ d !! session_id with
           | Some old => on_insp (fun i => destroy_reference i old) s
           | None => s
           end in
  on_chan (set_sessions (<[session_id := id]> (sessions_ d))) s.

(** [src/src/inspector/inspector_io.cc 283-288, InspectorIoDelegate::MessageReceived] *)
Definition MessageReceived (d : IoDelegate) (session_id : Z) (m : bytes) (s : Diag) : Diag :=
  match sessions_ d !! session_id with
  | Some id => on_insp (fun i => session_Dispatch i id m) s
  | None => s
  end.

(** [src/src/inspector/inspector_io.cc 290-292, InspectorIoDelegate::EndSession] *)
Definition EndSession (d : IoDelegate) (session_id : Z) (s : Diag) : Diag :=
  match sessions_ d !! session_id with
  | Some id =>
      on_chan (set_sessions (delete session_id (sessions_ d)))
        (on_insp (fun i => destroy_reference i id) s)
  | None => s
  end.

(** [src/src/inspector/inspector_io.cc 294-304, InspectorIoDelegate::GetTargetIds,
    GetTargetTitle, GetTargetUrl] *)
Definition GetTargets (d : IoDelegate) : list (bytes * bytes * bytes) :=
  [(target_id_ d,
    match script_name_ d with [] => bs "<unknown>.js" | n => n end,
    bs "file://" ++ script_name_ d)].

(** * Requests of the agent *)

(** [src/src/proto/noslated.proto 214-262, the diagnostics requests] *)
Inductive AgentRequest :=
  | AInspectorStart
  | AInspectorStartSession (session_id : Z)
  | AInspectorEndSession (session_id : Z)
  | AInspectorGetTargets
  | AInspectorCommand (session_id : Z) (message : bytes)
  | ATracingStart (categories : list bytes)
  | ATracingStop.

(** [src/src/agent_channel/noslated_diag_channel.cc 80-104,
    NoslatedDiagChannel::InspectorStart] *)
Definition InspectorStart (n : nat) (s : Diag) : Diag :=
  if stopping_ (chan s) then on_hist (reply n CLIENT_ERROR) s
  else on_hist (RequestInterrupt (IInspectorStart n)) s.

(** [src/src/agent_channel/noslated_diag_channel.cc 106-126,
    NoslatedDiagChannel::InspectorStartSession] *)
Definition InspectorStartSession (n : nat) (session_id : Z) (s : Diag) : Diag :=
  if stopping_ (chan s) then on_hist (reply n CLIENT_ERROR) s
  else match delegate_ (chan s) with
       | None => on_hist (reply n CLIENT_ERROR) s
       | Some d =>
           let s := StartSession d session_id s in
           let s := on_chan (fun c => set_count (opened_session_count_ c + 1) c) s in
           on_hist (reply n OK) s
       end.

(** [src/src/agent_channel/noslated_diag_channel.cc 128-144,
    NoslatedDiagChannel::InspectorEndSession] *)
Definition InspectorEndSession (n : nat) (session_id : Z) (s : Diag) : Diag :=
  match delegate_ (chan s) with
  | None => on_hist (reply n CLIENT_ERROR) s
  | Some d =>
      let s := if 0 <? opened_session_count_ (chan s)
               then on_chan (fun c => set_count (opened_session_count_ c - 1) c)
                      (EndSession d session_id s)
               else s in
      on_hist (reply n OK) s
  end.

(** [src/src/agent_channel/noslated_diag_channel.cc 146-169,
    NoslatedDiagChannel::InspectorGetTargets] *)
Definition InspectorGetTargets (n : nat) (s : Diag) : list (bytes * bytes * bytes) * Diag :=
  match delegate_ (chan s) with
  | None => ([], on_hist (reply n CLIENT_ERROR) s)
  | Some d => (GetTargets d, on_hist (reply n OK) s)
  end.

(** [src/src/agent_channel/noslated_diag_channel.cc 171-186,
    NoslatedDiagChannel::InspectorCommand] *)
Definition InspectorCommand (n : nat) (session_id : Z) (m : bytes) (s : Diag) : Diag :=
  match delegate_ (chan s) with
  | None => on_hist (reply n CLIENT_ERROR) s
  | Some d => on_hist (reply n OK) (MessageReceived d session_id m s)
  end.

(** [src/src/agent_channel/noslated_diag_channel.cc 188-230,
    NoslatedDiagChannel::TracingStart, TracingStop] *)
Definition Tracing (n : nat) (start : option (list bytes)) (s : Diag) : Diag :=
  on_hist (RequestInterrupt
    (match start with Some c => ITracingStart n c | None => ITracingStop n end)) s.

Definition OnRequest (r : AgentRequest) (s : Diag) : Diag :=
  let n := requests (hist s) in
  let s := on_hist (fun h => mkHistory (interrupts h) (traced h) (S n) (replies h)
                               (out h) (frontend h)) s in
  match r with
  | AInspectorStart => InspectorStart n s
  | AInspectorStartSession i => InspectorStartSession n i s
  | AInspectorEndSession i => InspectorEndSession n i s
  | AInspectorGetTargets => (InspectorGetTargets n s).2
  | AInspectorCommand i m => InspectorCommand n i m s
  | ATracingStart c => Tracing n (Some c) s
  | ATracingStop => Tracing n None s
  end.

(** [src/src/agent_channel/noslated_diag_channel.cc 93-103,
    NoslatedDiagChannel::InspectorStart] The callbacks left with the main thread, with
    those of lines 195-211 and 221-229. *)
Definition run_interrupt (i : Interrupt) (s : Diag) : Diag :=
  let trace t := on_hist (fun h =>
    mkHistory (interrupts h) (traced h ++ [t]) (requests h) (replies h) (out h) (frontend h)) in
  match i with
  | IInspectorStart n => on_hist (reply n OK) (StartInspectorIo s)
  | ITracingStart n c => on_hist (reply n OK) (trace (Some c) s)
  | ITracingStop n => on_hist (reply n OK) (trace None s)
  end.

(** * Connection *)

(** [src/src/agent_channel/noslated_diag_channel.cc 259-272, NoslatedDiagChannel::OnConnect] *)
Definition OnConnect (ok : bool) (s : Diag) : Diag :=
  let s := on_chan (set_socket ok) s in
  if ok then send_request OutCredentials s else s.

(** [src/src/agent_channel/noslated_diag_channel.cc 273-285, NoslatedDiagChannel::OnConnect]
    The closure of the credentials request. *)
Definition on_credentials (code : CanonicalCode) (s : Diag) : Diag :=
  match code with
  | OK =>
      let s := on_chan (set_connected true) s in
      match delegate_ (chan s) with Some _ => send_request OutStarted s | None => s end
  | _ => on_chan (set_socket false) s
  end.

(** [src/src/agent_channel/noslated_diag_channel.cc 232-236,
    NoslatedDiagChannel::Disconnected] *)
Definition Disconnected (s : Diag) : Diag := on_chan (set_socket false) s.

(** [src/src/inspector/inspector_io.cc 170-173, IoSessionDelegate::SendMessageToFrontend]
    called by V8's session [sid] on the main thread through its channel's delegate. *)
Definition SendMessageToFrontend (sid : Z) (m : bytes) (s : Diag) : option (outcome Diag) :=
  match channels_ (client_ (world (insp s))) !! sid with
  | None => None
  | Some ch =>
      match tokens (io s) !! ch_delegate ch with
      | None => None
      | Some (h, session_id) =>
          Some (s ← handle_Post s h (mkToChannel kSendMessage session_id m);
                Ret (on_hist (fun x => mkHistory (interrupts x) (traced x) (requests x)
                                (replies x) (out x) (frontend x ++ [(session_id, m)])) s))
      end
  end.

(** * Events *)

Inductive DEvent :=
  | DStartIo | DThreadEntry (script_name target_id : bytes) | DStopIo | DStopAccepting
  | DAsync (h : nat)
  | DRequest (r : AgentRequest)
  | DInterrupt
  | DMain (e : Event)
  | DFrontend (sid : Z) (m : bytes)
  | DConnect (ok : bool) | DCredentials (code : CanonicalCode) | DDisconnected | DStop.

(** Events of the main thread alone; the watchdog thread's posts are the channel's. *)
Definition main_event (e : Event) : bool :=
  match e with
  | EInterrupt | EStartWaiting _ | EStopWaiting _ | EMain | EUvEvent | ELoopDead => true
  | _ => false
  end.

Definition dstep (s : Diag) (e : DEvent) : option (outcome Diag) :=
  match e with
  | DStartIo => Some (Ret (StartInspectorIo s))
  | DThreadEntry n t => match entries (io s) with O => None | _ => Some (ThreadEntry n t s) end
  | DStopIo => Some (StopInspectorIo s)
  | DStopAccepting => Some (io_Post kStop s)
  | DAsync h =>
      match queues (io s) !! h with
      | Some q => if rq_async q then Some (DoDispatch h s) else None
      | None => None
      end
  | DRequest r => Some (Ret (OnRequest r s))
  | DInterrupt =>
      match interrupts (hist s) with
      | [] => None
      | i :: l =>
          Some (Ret (run_interrupt i (on_hist (fun h =>
            mkHistory l (traced h) (requests h) (replies h) (out h) (frontend h)) s)))
      end
  | DMain e =>
      if main_event e then
        match istep (insp s) e with
        | Some (Ret i) => Some (Ret (on_insp (fun _ => i) s))
        | Some (Fault f) => Some (Fault f)
        | None => None
        end
      else None
  | DFrontend sid m => SendMessageToFrontend sid m s
  | DConnect ok => Some (Ret (OnConnect ok s))
  | DCredentials c => Some (Ret (on_credentials c s))
  | DDisconnected => Some (Ret (Disconnected s))
  | DStop => Some (Ret (Stop s))
  end.

Fixpoint drun (s : Diag) (es : list DEvent) : option (outcome Diag) :=
  match es with
  | [] => Some (Ret s)
  | e :: es =>
      match dstep s e with Some (Ret s') => drun s' es | r => r end
  end.

Definition dinit : Diag :=
  mkDiag (mkChannel false false 0 false None)
    (mkIo ∅ 0 None 0 ∅ 1) Inspector.init (mkHistory [] [] 0 [] [] []).

(** * What the operations of the handle do to references *)

Lemma Post_refs i r : refs (Post i r) = refs i.
Proof. unfold Post. by destruct (main_thread_ i). Qed.

Lemma Post_alive i r : main_thread_ (Post i r) = main_thread_ i.
Proof. unfold Post. destruct (main_thread_ i) eqn:E; done. Qed.

Lemma main_event_refs i e i' :
  main_event e = true -> istep i e = Some (Ret i') ->
  refs i' = refs i /\ main_thread_ i' = main_thread_ i.
Proof.
  destruct e as [| | | | | | |w|b| | | |]; try done; intros _; simpl.
  - destruct (script_runs i); [|done]. by intros [= <-].
  - destruct (_ && _)%bool; [|done]. intros [= <-].
    unfold start_waiting, runMessageLoop. by case_all.
  - destruct (_ && _)%bool; [|done]. by intros [= <-].
  - unfold main_step. destruct (frames i) as [|[[|n]|had|q|p] fs]; [done|..].
    + by intros [= <-].
    + intros [= <-]. unfold DispatchMessages. by case_all.
    + unfold dispatch_turn. destruct (dispatching_message_queue_ i).
      * by destruct had; intros [= <-].
      * intros [= (w & _ & [= <-])%outcome_bind_inv]. done.
    + by intros [= <-].
    + destruct p; simpl.
      * by case_all; intros [= <-].
      * unfold WaitForFrontendEvent. simpl. by case_all; intros [= <-].
      * by case_all; intros [= <-].
  - destruct (frames i) as [|[| | |[]] fs]; try done. by intros [= <-].
  - destruct (frames i) as [|[| | |[]] fs]; try done. by intros [= <-].
Qed.

(** * The invariant of a channel that is not stopped *)

Definition events (l : list (bool * Out)) : list (Z * bytes) :=
  omap (fun p => match p.2 with OutEvent i m => Some (i, m) | _ => None end) l.
Definition sends (l : list RequestToChannel) : list (Z * bytes) :=
  omap (fun r => match action_ r with kSendMessage => Some (to_session r, to_message r)
                                 | _ => None end) l.

Definition sessions_ok (i : Inspector.State) (m : gmap Z Z) : Prop :=
  (forall sid id, m !! sid = Some id -> refs i !! id = Some RSession) /\
  (forall sid sid' id, m !! sid = Some id -> m !! sid' = Some id -> sid = sid').

Definition io_ok (s : Diag) : Prop :=
  match delegate_ (chan s) with
  | None =>
      queues (io s) = ∅ /\ tokens (io s) = ∅ /\ events (out (hist s)) = frontend (hist s) /\
      (io_ (io s) = None /\ entries (io s) = O \/ io_ (io s) = Some None /\ entries (io s) = 1%nat)
  | Some d =>
      sessions_ok (insp s) (sessions_ d) /\
      io_ (io s) = Some (Some (io_queue d)) /\ entries (io s) = O /\
      (forall t x, tokens (io s) !! t = Some x -> x.1 = io_queue d) /\
      exists q, queues (io s) = {[ io_queue d := q ]} /\ rq_channel q = true /\
        Forall (fun r => action_ r <> kKill) (messages_ q) /\
        (messages_ q <> [] -> rq_async q = true) /\
        events (out (hist s)) ++ sends (messages_ q) = frontend (hist s)
  end.

Record dinv (n : nat) (s : Diag) : Prop := {
  i_reach : reachable (3 * n) (insp s);
  i_alive : main_thread_ (insp s) = true;
  i_io : io_ok s;
  i_replies : Permutation (map fst (replies (hist s)) ++ map interrupt_request (interrupts (hist s)))
                (seq 0 (requests (hist s))) }.

(** A reply, and a callback left for later, for a new request. *)
Lemma replies_now l k n :
  Permutation (l ++ k) (seq 0 n) -> Permutation ((l ++ [n]) ++ k) (seq 0 (S n)).
Proof.
  intros H. rewrite seq_S. simpl. rewrite <- H, <- !app_assoc. apply Permutation_app_head.
  apply Permutation_app_comm.
Qed.

Lemma replies_later l k n :
  Permutation (l ++ k) (seq 0 n) -> Permutation (l ++ k ++ [n]) (seq 0 (S n)).
Proof. intros H. rewrite seq_S. simpl. rewrite <- H. by rewrite app_assoc. Qed.

(** ** The inspector's side *)

Lemma start_session_ok n i m sid token :
  reachable n i -> Z.of_nat n < 2 ^ 31 - 2 -> main_thread_ i = true -> sessions_ok i m ->
  let id := newObjectId i in
  let i2 := construct_session (new_reference i true token) id token in
  let i3 := match m !! sid with Some old => destroy_reference i2 old | None => i2 end in
  reachable (3 + n) i3 /\ main_thread_ i3 = true /\ sessions_ok i3 (<[sid := id]> m).
Proof.
  intros Hr Hn Hm [Hs Hi] id i2 i3.
  pose proof (fresh_object_id n i Hr Hn Hm) as Hf. fold id in Hf.
  assert (refs (new_reference i true token) = <[id := RConstructing token]> (refs i)) as R1
    by (unfold new_reference; by rewrite Post_refs).
  assert (refs i2 = <[id := RSession]> (refs i)) as R2.
  { unfold i2, construct_session. rewrite Post_refs. simpl. rewrite R1. by rewrite insert_insert_eq. }
  assert (reachable (2 + n) i2) as Hr2.
  { apply (reachable_step (S n) (new_reference i true token) (EConstructSession id)).
    - by apply (reachable_step n i (ENewReference true token)).
    - simpl. by rewrite R1, lookup_insert_eq. }
  assert (main_thread_ i2 = true) as Hm2.
  { unfold i2, construct_session. rewrite Post_alive. simpl.
    unfold new_reference. by rewrite Post_alive. }
  assert (forall s' id', m !! s' = Some id' -> id' <> id) as Hne.
  { intros s' id' H ->. apply Hs in H. congruence. }
  unfold i3. destruct (m !! sid) as [old|] eqn:Eo.
  - assert (refs i2 !! old = Some RSession) as Ho.
    { rewrite R2, lookup_insert_ne by (intros ->; by eapply Hne). eauto. }
    split_and!.
    + apply (reachable_step (2 + n) i2 (EDestroyReference old)); [done|]. simpl. by rewrite Ho.
    + unfold destroy_reference. by rewrite Post_alive.
    + split.
      * intros s' id' H. unfold destroy_reference. rewrite Post_refs. simpl. rewrite R2.
        apply lookup_insert_Some in H as [[<- <-]|[Hs' H]].
        -- rewrite lookup_delete_ne by (intros ->; by eapply Hne). by rewrite lookup_insert_eq.
        -- rewrite lookup_delete_ne by (intros ->; eapply Hs', Hi; eauto).
           rewrite lookup_insert_ne by (intros ->; by eapply Hne). eauto.
      * intros s1 s2 id'. rewrite !lookup_insert_Some. naive_solver.
  - split_and!; [by eapply reachable_weaken; [|exact Hr2]; lia|done|]. split.
    + intros s' id'. rewrite R2. intros [[<- <-]|[Hs' H]]%lookup_insert_Some.
      * by rewrite lookup_insert_eq.
      * rewrite lookup_insert_ne by (intros ->; by eapply Hne). eauto.
    + intros s1 s2 id'. rewrite !lookup_insert_Some. naive_solver.
Qed.

Lemma end_session_ok n i m sid id :
  reachable n i -> main_thread_ i = true -> sessions_ok i m -> m !! sid = Some id ->
  reachable (S n) (destroy_reference i id) /\ main_thread_ (destroy_reference i id) = true /\
  sessions_ok (destroy_reference i id) (delete sid m).
Proof.
  intros Hr Hm [Hs Hi] Hid. split_and!.
  - apply (reachable_step n i (EDestroyReference id)); [done|]. simpl. by rewrite (Hs _ _ Hid).
  - unfold destroy_reference. by rewrite Post_alive.
  - split.
    + intros s' id' [Hne H]%lookup_delete_Some. unfold destroy_reference. rewrite Post_refs.
      simpl. rewrite lookup_delete_ne; [by eapply Hs|]. intros ->. eapply Hne, Hi; eauto.
    + intros s1 s2 id' [_ H1]%lookup_delete_Some [_ H2]%lookup_delete_Some. eauto.
Qed.

Lemma command_ok n i m sid id t :
  reachable n i -> main_thread_ i = true -> sessions_ok i m -> m !! sid = Some id ->
  reachable (S n) (session_Dispatch i id t) /\ main_thread_ (session_Dispatch i id t) = true /\
  sessions_ok (session_Dispatch i id t) m.
Proof.
  intros Hr Hm [Hs Hi] Hid. split_and!.
  - apply (reachable_step n i (ESessionDispatch id t)); [done|]. simpl. by rewrite (Hs _ _ Hid).
  - unfold session_Dispatch. by rewrite Post_alive.
  - split; [|done]. intros s' id'. unfold session_Dispatch. rewrite Post_refs. apply Hs.
Qed.

(** ** The queue's side *)

Lemma events_snoc l p : events (l ++ [p]) =
  events l ++ match p.2 with OutEvent i m => [(i, m)] | _ => [] end.
Proof. unfold events. rewrite omap_app. f_equal. destruct p as [b []]; done. Qed.

Lemma dispatch_all_ok h l : forall s,
  is_Some (queues (io s) !! h) -> Forall (fun r => action_ r <> kKill) l ->
  exists s', dispatch_all h l s = Ret s' /\ io s' = io s /\ insp s' = insp s /\
    delegate_ (chan s') = delegate_ (chan s) /\
    interrupts (hist s') = interrupts (hist s) /\ replies (hist s') = replies (hist s) /\
    requests (hist s') = requests (hist s) /\ frontend (hist s') = frontend (hist s) /\
    events (out (hist s')) = events (out (hist s)) ++ sends l.
Proof.
  induction l as [|r l IH]; intros s [q Hq] Hl; simpl.
  - exists s. rewrite app_nil_r. by split_and!.
  - rewrite Hq. inversion Hl as [|? ? Hr Hl']; subst.
    destruct (IH (RequestToChannel_Dispatch r s)) as (s' & -> & H); [|done|].
    { unfold RequestToChannel_Dispatch. destruct (action_ r); [done|by exists q..]. }
    exists s'. split; [done|]. revert H. unfold RequestToChannel_Dispatch, sends. simpl.
    destruct (action_ r) eqn:Ea; [done|..]; simpl; [|done].
    rewrite events_snoc, <- app_assoc. done.
Qed.

Lemma io_ok_same s s' :
  io_ok s -> delegate_ (chan s') = delegate_ (chan s) -> io s' = io s ->
  refs (insp s') = refs (insp s) -> events (out (hist s')) = events (out (hist s)) ->
  frontend (hist s') = frontend (hist s) -> io_ok s'.
Proof. unfold io_ok, sessions_ok. by intros H -> -> -> -> ->. Qed.

(** ** Every event but stopping preserves the invariant *)

(** Stopping is excluded, and asking a transport to stop before its thread ran. *)
Definition orderly (s : Diag) (e : DEvent) : bool :=
  match e with
  | DStopIo => false
  | DStopAccepting => match io_ (io s) with Some None => false | _ => true end
  | _ => true
  end.

Lemma dinv_same n s s' :
  dinv n s -> delegate_ (chan s') = delegate_ (chan s) -> io s' = io s -> insp s' = insp s ->
  events (out (hist s')) = events (out (hist s)) -> frontend (hist s') = frontend (hist s) ->
  Permutation (map fst (replies (hist s')) ++ map interrupt_request (interrupts (hist s')))
    (seq 0 (requests (hist s'))) -> dinv (S n) s'.
Proof.
  intros [Hr Ha Hi Hp] H1 H2 H3 H4 H5 H6. constructor.
  - rewrite H3. eapply reachable_weaken; [|done]. lia.
  - by rewrite H3.
  - eapply io_ok_same; [done|done..| |done|done]. by rewrite H3.
  - done.
Qed.

Lemma dinv_start n s :
  dinv n s -> dinv n (StartInspectorIo s).
Proof.
  intros [Hr Ha Hi Hp]. unfold StartInspectorIo. destruct (io_ (io s)) eqn:E; [by constructor|].
  constructor; try done. unfold io_ok in *. simpl. destruct (delegate_ (chan s)).
  - destruct Hi as (_ & Hi & _). congruence.
  - destruct Hi as (? & ? & ? & [[_ ->]|[? _]]); [by split_and!; auto|congruence].
Qed.

Lemma dinv_entry n s name t :
  dinv n s -> entries (io s) <> O ->
  exists s', ThreadEntry name t s = Ret s' /\ dinv (S n) s'.
Proof.
  intros [Hr Ha Hi Hp] He. unfold io_ok in Hi. unfold ThreadEntry.
  destruct (delegate_ (chan s)) eqn:Ed; [destruct Hi as (_ & _ & ? & _); congruence|].
  destruct Hi as (Hq & Ht & Hev & [[_ ?]|[-> He']]); [congruence|].
  eexists. split; [done|]. unfold AssignInspectorDelegate, destroy_delegate.
  simpl. rewrite Ed. simpl.
  assert (forall s', insp s' = insp s -> hist s' = hist s -> delegate_ (chan s') =
      Some (mkIoDelegate ∅ (next_queue (io s)) name t) ->
    io s' = mkIo {[ next_queue (io s) := mkQueue [] true false ]} (S (next_queue (io s)))
      (Some (Some (next_queue (io s)))) O ∅ (next_token (io s)) -> dinv (S n) s') as Hd.
  { intros s' E1 E2 E3 E4. constructor; rewrite ?E1, ?E2; try done.
    - eapply reachable_weaken; [|done]. lia.
    - unfold io_ok, sessions_ok. rewrite E1, E2, E3, E4. simpl. split_and!; try done.
      exists (mkQueue [] true false). simpl. rewrite app_nil_r. split_and!; try done. }
  match goal with |- dinv _ (if _ then send_request _ ?x else _) => set (s1 := x) end.
  assert (dinv (S n) s1) as H1.
  { apply Hd; [done..|]. simpl. rewrite Hq, lookup_insert_eq. unfold set_queues. simpl.
    by rewrite He', Ht, insert_insert_eq. }
  destruct (connected_ (chan s)); [|done].
  destruct H1 as [? ? Hio ?]. constructor; try done. eapply io_ok_same; try done.
  simpl. rewrite events_snoc. by rewrite app_nil_r.
Qed.

Lemma dinv_post n s d r :
  dinv n s -> delegate_ (chan s) = Some d -> action_ r <> kKill ->
  exists s', handle_Post s (io_queue d) r = Ret s' /\
    dinv n (match action_ r with
            | kSendMessage =>
                on_hist (fun x => mkHistory (interrupts x) (traced x) (requests x) (replies x)
                   (out x) (frontend x ++ [(to_session r, to_message r)])) s'
            | _ => s' end).
Proof.
  intros [Hr Ha Hi Hp] Ed Hk. unfold io_ok in Hi. rewrite Ed in Hi.
  destruct Hi as (Hs & Hio & He & Ht & q & Hq & Hc & Hn & Has & Hev).
  unfold handle_Post. rewrite Hq, lookup_singleton_eq. eexists. split; [done|].
  assert (messages_ (queue_Post q r) <> [] -> rq_async (queue_Post q r) = true) as Has'.
  { intros _. simpl. destruct (messages_ q); [done|]. by apply Has. }
  assert (sends (messages_ (queue_Post q r)) = sends (messages_ q) ++
    match action_ r with kSendMessage => [(to_session r, to_message r)] | _ => [] end) as Hse.
  { simpl. unfold sends. rewrite omap_app. simpl. by destruct (action_ r). }
  destruct (action_ r) eqn:Ea; [done|..]; (constructor; [done..| |done]);
    unfold io_ok; simpl; rewrite Ed; split_and!; try done;
    (exists (queue_Post q r); split_and!;
      [by rewrite Hq, insert_singleton_eq|done|by apply Forall_app; split; [|constructor; [congruence|]]
      |done|rewrite Hse, app_assoc, Hev]).
  - done.
  - by rewrite app_nil_r.
Qed.

(** The channel's other steps: the inspector moves on, sessions change. *)
Lemma dinv_sessions n s d s' m :
  dinv n s -> delegate_ (chan s) = Some d ->
  delegate_ (chan s') = Some (mkIoDelegate m (io_queue d) (script_name_ d) (target_id_ d)) ->
  queues (io s') = queues (io s) -> io_ (io s') = io_ (io s) -> entries (io s') = entries (io s) ->
  (forall t x, tokens (io s') !! t = Some x -> x.1 = io_queue d) ->
  hist s' = hist s -> reachable (3 + 3 * n) (insp s') -> main_thread_ (insp s') = true ->
  sessions_ok (insp s') m -> dinv (S n) s'.
Proof.
  intros [Hr Ha Hi Hp] Ed Ed' H1 H2 H3 Ht H4 H5 H6 H7. unfold io_ok in Hi. rewrite Ed in Hi.
  destruct Hi as (Hs & Hio & He & Ht0 & q & Hq).
  constructor; [|done| |by rewrite H4].
  - by replace (3 * S n)%nat with (3 + 3 * n)%nat by lia.
  - unfold io_ok. rewrite Ed', H1, H2, H3, H4. simpl. split_and!; eauto.
Qed.

Lemma delegate_eta d :
  mkIoDelegate (sessions_ d) (io_queue d) (script_name_ d) (target_id_ d) = d.
Proof. by destruct d. Qed.

(** The reply to a new request whose handling left the history alone. *)
Lemma dinv_reply n s n0 c :
  dinv n s -> n0 = requests (hist s) ->
  dinv n (on_hist (reply n0 c) (on_hist (fun h =>
    mkHistory (interrupts h) (traced h) (S n0) (replies h) (out h) (frontend h)) s)).
Proof.
  intros [Hr Ha Hi Hp] ->. constructor; [done..|]. simpl. rewrite map_app. by apply replies_now.
Qed.

Lemma dinv_weaken n s : dinv n s -> dinv (S n) s.
Proof. intros H. by eapply dinv_same; [exact H|..|apply (i_replies _ _ H)]. Qed.

Lemma dinv_delegate n s d :
  dinv n s -> delegate_ (chan s) = Some d ->
  sessions_ok (insp s) (sessions_ d) /\
  forall t x, tokens (io s) !! t = Some x -> x.1 = io_queue d.
Proof.
  intros [_ _ Hi _] Ed. unfold io_ok in Hi. rewrite Ed in Hi.
  by destruct Hi as (? & _ & _ & ? & _).
Qed.

Lemma dinv_StartSession n s d sid :
  Z.of_nat (3 * n) < 2 ^ 31 - 2 -> dinv n s -> delegate_ (chan s) = Some d ->
  dinv (S n) (on_chan (fun c => set_count (opened_session_count_ c + 1) c) (StartSession d sid s)).
Proof.
  intros Hn Hs Ed. pose proof Hs as [Hr Ha _ _].
  destruct (dinv_delegate n s d Hs Ed) as [Hso Hto].
  destruct (start_session_ok (3 * n) (insp s) (sessions_ d) sid (next_token (io s)) Hr Hn Ha Hso)
    as (H1 & H2 & H3).
  eapply (dinv_sessions n s d); try done; unfold StartSession; simpl;
    destruct (sessions_ d !! sid); simpl; unfold set_sessions; simpl; rewrite ?Ed; try done;
    intros t x; rewrite lookup_insert_Some; intros [[_ <-]|[_ ?]]; eauto.
Qed.

Lemma dinv_EndSession n s d sid :
  dinv n s -> delegate_ (chan s) = Some d ->
  dinv (S n) (on_chan (fun c => set_count (opened_session_count_ c - 1) c) (EndSession d sid s)).
Proof.
  intros Hs Ed. pose proof Hs as [Hr Ha _ _].
  destruct (dinv_delegate n s d Hs Ed) as [Hso Hto].
  unfold EndSession. destruct (sessions_ d !! sid) as [id|] eqn:Eid.
  - destruct (end_session_ok (3 * n) (insp s) (sessions_ d) sid id Hr Ha Hso Eid) as (H1 & H2 & H3).
    eapply (dinv_sessions n s d _ (delete sid (sessions_ d))); try done; simpl;
      [unfold set_sessions; simpl; by rewrite Ed|]. eapply reachable_weaken; [|done]. lia.
  - apply dinv_weaken. destruct Hs. by constructor.
Qed.

Lemma dinv_MessageReceived n s d sid m :
  dinv n s -> delegate_ (chan s) = Some d -> dinv (S n) (MessageReceived d sid m s).
Proof.
  intros Hs Ed. pose proof Hs as [Hr Ha _ _].
  destruct (dinv_delegate n s d Hs Ed) as [Hso Hto].
  unfold MessageReceived. destruct (sessions_ d !! sid) as [id|] eqn:Eid; [|by apply dinv_weaken].
  destruct (command_ok (3 * n) (insp s) (sessions_ d) sid id m Hr Ha Hso Eid) as (H1 & H2 & H3).
  eapply (dinv_sessions n s d _ (sessions_ d)); try done; simpl; [by rewrite Ed, delegate_eta|].
  eapply reachable_weaken; [|done]. lia.
Qed.

Lemma dinv_request n s r :
  Z.of_nat (3 * n) < 2 ^ 31 - 2 -> dinv n s -> dinv (S n) (OnRequest r s).
Proof.
  intros Hn Hs. pose proof Hs as [Hr Ha Hi Hp].
  assert (forall s' c, dinv (S n) s' -> hist s' = hist s ->
    dinv (S n) (on_hist (reply (requests (hist s)) c) (on_hist (fun h =>
      mkHistory (interrupts h) (traced h) (S (requests (hist s))) (replies h) (out h)
      (frontend h)) s'))) as Hnow by (intros; by apply dinv_reply; [|congruence]).
  pose proof (fun c => Hnow s c (dinv_weaken n s Hs) eq_refl) as Hself.
  destruct r as [|sid|sid| |sid m|cs|]; unfold OnRequest.
  - unfold InspectorStart. simpl. destruct (stopping_ (chan s)); [done|].
    apply (dinv_same n s); try done. simpl. rewrite map_app. by apply replies_later.
  - unfold InspectorStartSession. simpl. destruct (stopping_ (chan s)); [done|].
    destruct (delegate_ (chan s)) as [d|] eqn:Ed; [|done].
    pose proof (dinv_StartSession n s d sid Hn Hs Ed) as H1. apply (Hnow _ OK) in H1;
      unfold StartSession in *; destruct (sessions_ d !! sid); first [exact H1|reflexivity].
  - unfold InspectorEndSession. simpl. destruct (delegate_ (chan s)) as [d|] eqn:Ed; [|done].
    destruct (0 <? opened_session_count_ (chan s)); [|done].
    pose proof (dinv_EndSession n s d sid Hs Ed) as H1. apply (Hnow _ OK) in H1;
      unfold EndSession in *; destruct (sessions_ d !! sid); first [exact H1|reflexivity].
  - unfold InspectorGetTargets. simpl. destruct (delegate_ (chan s)); apply Hself.
  - unfold InspectorCommand. simpl. destruct (delegate_ (chan s)) as [d|] eqn:Ed; [|done].
    pose proof (dinv_MessageReceived n s d sid m Hs Ed) as H1. apply (Hnow _ OK) in H1;
      unfold MessageReceived in *; destruct (sessions_ d !! sid); first [exact H1|reflexivity].
  - apply (dinv_same n s); try done. simpl. rewrite map_app. by apply replies_later.
  - apply (dinv_same n s); try done. simpl. rewrite map_app. by apply replies_later.
Qed.

Lemma dinv_interrupt n s i l :
  dinv n s -> interrupts (hist s) = i :: l ->
  dinv n (run_interrupt i (on_hist (fun h =>
    mkHistory l (traced h) (requests h) (replies h) (out h) (frontend h)) s)).
Proof.
  intros Hs Ei. pose proof Hs as [Hr Ha Hi Hp]. rewrite Ei in Hp. simpl in Hp.
  assert (Permutation ((map fst (replies (hist s)) ++ [interrupt_request i]) ++
    map interrupt_request l) (seq 0 (requests (hist s)))) as Hp'
    by (by rewrite <- app_assoc).
  destruct i as [k|k cs|k]; simpl in *.
  - apply dinv_start in Hs. destruct Hs as [Hr' Ha' Hi' _]. unfold StartInspectorIo in *. simpl.
    destruct (io_ (io s)); constructor; try done; simpl; by rewrite map_app.
  - constructor; try done. simpl. by rewrite map_app.
  - constructor; try done. simpl. by rewrite map_app.
Qed.

Lemma dinv_async n s h q :
  dinv n s -> queues (io s) !! h = Some q ->
  exists s', DoDispatch h s = Ret s' /\ dinv n s' /\
    queues (io s') !! h = Some (mkQueue [] true false).
Proof.
  intros [Hr Ha Hi Hp] Hq. unfold io_ok in Hi.
  destruct (delegate_ (chan s)) as [d|] eqn:Ed;
    [|destruct Hi as (E & _); by rewrite E, lookup_empty in Hq].
  destruct Hi as (Hs & Hio & He & Ht & q0 & Hq0 & Hc & Hn & Has & Hev).
  rewrite Hq0 in Hq. apply lookup_singleton_Some in Hq. destruct Hq as [<- <-].
  unfold DoDispatch. rewrite Hq0, lookup_singleton_eq, Hc.
  match goal with |- context [dispatch_all _ _ ?x] => set (s1 := x) end.
  assert (queues (io s1) = {[ io_queue d := mkQueue [] true false ]}) as Eq1.
  { simpl. by rewrite Hq0, insert_singleton_eq. }
  destruct (dispatch_all_ok (io_queue d) (messages_ q0) s1)
    as (s' & -> & E1 & E2 & E3 & E4 & E5 & E6 & E7 & E8); [|done|].
  { rewrite Eq1, lookup_singleton_eq. by eexists. }
  exists s'. split; [done|]. split; [|by rewrite E1, Eq1, lookup_singleton_eq].
  constructor; [by rewrite E2|by rewrite E2| |by rewrite E4, E5, E6].
  unfold io_ok. rewrite E3, E1, E2, E7, E8, Eq1. simpl. rewrite Ed.
  split_and!; try done. exists (mkQueue [] true false). simpl. rewrite app_nil_r.
  split_and!; try done.
Qed.

Lemma dinv_dstep n s e r :
  Z.of_nat (3 * n) < 2 ^ 31 - 2 -> dinv n s -> orderly s e = true -> dstep s e = Some r ->
  exists s', r = Ret s' /\ dinv (S n) s'.
Proof.
  intros Hn Hs Ho. pose proof Hs as [Hr Ha Hi Hp].
  destruct e as [|nm t| | |h|q| |e|sid m|ok|code| |]; simpl; try done.
  - intros [= <-]. eexists. split; [done|]. by apply dinv_weaken, dinv_start.
  - destruct (entries (io s)) eqn:E; [done|]. intros [= <-]. apply dinv_entry; [done|congruence].
  - intros [= <-]. unfold io_Post. simpl in Ho.
    destruct (io_ (io s)) as [[h|]|] eqn:E; [|done|eauto using dinv_weaken].
    unfold io_ok in Hi. destruct (delegate_ (chan s)) as [d|] eqn:Ed;
      [|destruct Hi as (_ & _ & _ & [[? _]|[? _]]); congruence].
    destruct Hi as (_ & Hio & _). rewrite Hio in E. injection E as <-.
    destruct (dinv_post n s d (mkToChannel kStop 0 []) Hs Ed ltac:(done)) as (s' & -> & H).
    simpl in H. eauto using dinv_weaken.
  - destruct (queues (io s) !! h) as [q|] eqn:Eq; [|done]. destruct (rq_async q); [|done].
    intros [= <-]. destruct (dinv_async n s h q Hs Eq) as (s' & -> & H & _). eauto using dinv_weaken.
  - intros [= <-]. eexists. split; [done|]. by apply dinv_request.
  - destruct (interrupts (hist s)) as [|i l] eqn:Ei; [done|]. intros [= <-]. eexists.
    split; [done|]. by apply dinv_weaken, dinv_interrupt.
  - destruct (main_event e) eqn:Em; [|done]. destruct (istep (insp s) e) as [o|] eqn:Ee; [|done].
    destruct (reachable_no_fault (3 * n) (insp s) e o Hr Hn Ee) as (i' & ->). intros [= <-].
    eexists. split; [done|]. destruct (main_event_refs _ _ _ Em Ee) as [E1 E2].
    constructor; simpl; [|congruence| |done].
    + eapply reachable_weaken; [|by eapply reachable_step]. lia.
    + by eapply io_ok_same.
  - unfold SendMessageToFrontend.
    destruct (channels_ (client_ (world (insp s))) !! sid) as [ch|]; [|done].
    destruct (tokens (io s) !! ch_delegate ch) as [[h i]|] eqn:Et; [|done]. intros [= <-].
    destruct (delegate_ (chan s)) as [d|] eqn:Ed.
    + destruct (dinv_delegate n s d Hs Ed) as [_ Hto]. apply Hto in Et. simpl in Et. subst h.
      destruct (dinv_post n s d (mkToChannel kSendMessage i m) Hs Ed ltac:(done)) as (s' & -> & H).
      simpl in *. eauto using dinv_weaken.
    + unfold io_ok in Hi. rewrite Ed in Hi. destruct Hi as (_ & E & _). by rewrite E, lookup_empty in Et.
  - intros [= <-]. eexists. split; [done|]. destruct ok; (apply (dinv_same n s); try done).
    simpl. by rewrite events_snoc, app_nil_r.
  - intros [= <-]. eexists. split; [done|]. unfold on_credentials. simpl.
    destruct code; try by apply (dinv_same n s).
    destruct (delegate_ (chan s)); apply (dinv_same n s); try done.
    simpl. by rewrite events_snoc, app_nil_r.
  - intros [= <-]. eexists. split; [done|]. by apply (dinv_same n s).
  - intros [= <-]. eexists. split; [done|]. by apply (dinv_same n s).
Qed.

Fixpoint orderly_run (s : Diag) (es : list DEvent) : bool :=
  match es with
  | [] => true
  | e :: es =>
      (orderly s e && match dstep s e with Some (Ret s') => orderly_run s' es | _ => true end)%bool
  end.

Lemma diag_run_inv es : forall n s r,
  Z.of_nat (3 * (n + length es)) < 2 ^ 31 - 2 -> dinv n s -> orderly_run s es = true ->
  drun s es = Some r -> exists s', r = Ret s' /\ dinv (n + length es) s'.
Proof.
  induction es as [|e es IH]; intros n s r Hn Hs; simpl.
  - intros _ [= <-]. rewrite Nat.add_0_r. eauto.
  - rewrite andb_true_iff. intros [Ho Hos]. simpl in Hn.
    destruct (dstep s e) as [o|] eqn:E; [|done].
    destruct (dinv_dstep n s e o ltac:(lia) Hs Ho E) as (s1 & -> & H1). intros H.
    destruct (IH (S n) s1 r ltac:(lia) H1 Hos H) as (s' & -> & H').
    exists s'. by replace (n + S (length es))%nat with (S n + length es)%nat by lia.
Qed.

Lemma dinit_inv : dinv 0 dinit.
Proof.
  constructor; try done; [|simpl; split_and!; try done; by left].
  exists []. by split.
Qed.

(** C20 The agent's diagnostics requests: whatever the interleaving of requests,
    connections, interrupts and the main thread's dispatching, as long as the
    transport is not stopped no operation fails, and every request has been answered
    exactly once or its callback still waits for the main thread. *)
Theorem diag_requests_answered_once es r :
  Z.of_nat (3 * length es) < 2 ^ 31 - 2 -> orderly_run dinit es = true ->
  drun dinit es = Some r ->
  exists s, r = Ret s /\
    Permutation (map fst (replies (hist s)) ++ map interrupt_request (interrupts (hist s)))
      (seq 0 (requests (hist s))).
Proof.
  intros Hn Ho H. destruct (diag_run_inv es 0 dinit r Hn dinit_inv Ho H) as (s & -> & Hs).
  exists s. split; [done|apply Hs].
Qed.

(** C21 The inspector's messages to the agent, as long as its transport is not stopped (nor
    asked to stop accepting connections before the watchdog thread made its queue): every
    message a session of V8 sent has been handed to the channel or waits in the queue, in
    order and none twice; while one waits the callback of the queue is pending, and running
    it delivers all.  What a message does after the transport was stopped is
    [stop_leaves_dangling_queue]. *)
Theorem frontend_messages_delivered es s d :
  Z.of_nat (3 * length es) < 2 ^ 31 - 2 -> orderly_run dinit es = true ->
  drun dinit es = Some (Ret s) -> delegate_ (chan s) = Some d ->
  exists q, queues (io s) !! io_queue d = Some q /\
    events (out (hist s)) ++ sends (messages_ q) = frontend (hist s) /\
    (messages_ q <> [] -> rq_async q = true) /\
    exists s', DoDispatch (io_queue d) s = Ret s' /\ events (out (hist s')) = frontend (hist s).
Proof.
  intros Hn Ho H Ed. destruct (diag_run_inv es 0 dinit _ Hn dinit_inv Ho H) as (s0 & [= <-] & Hs).
  pose proof Hs as [_ _ Hi _]. unfold io_ok in Hi. rewrite Ed in Hi.
  destruct Hi as (_ & _ & _ & _ & q & Hq & Hc & Hk & Has & Hev).
  exists q. rewrite Hq, lookup_singleton_eq. split_and!; try done.
  unfold DoDispatch. rewrite Hq, lookup_singleton_eq, Hc.
  match goal with |- context [dispatch_all _ _ ?x] => set (s1 := x) end.
  destruct (dispatch_all_ok (io_queue d) (messages_ q) s1)
    as (s' & -> & _ & _ & _ & _ & _ & _ & _ & E8); [|done|].
  { simpl. rewrite lookup_insert_eq. by eexists. }
  exists s'. split; [done|]. by rewrite E8.
Qed.

(** Start, connect, open a session, let the main thread connect it, and a message
    back to the frontend. *)
Definition open_history : list DEvent :=
  [DConnect true; DCredentials OK; DRequest AInspectorStart; DInterrupt;
   DThreadEntry (bs "a.js") (bs "id"); DRequest (AInspectorStartSession 5);
   DMain EInterrupt; DMain EMain; DMain EMain; DMain EMain; DMain EMain; DMain EMain; DMain EMain;
   DRequest (AInspectorCommand 5 (bs "enable")); DFrontend 1 (bs "result");
   DRequest (ATracingStart [bs "v8"])].

Definition ret_diag (r : option (outcome Diag)) : Diag :=
  match r with Some (Ret s) => s | _ => dinit end.

Example diag_requests_answered_once_witness :
  exists s, drun dinit open_history = Some (Ret s) /\
    Permutation (map fst (replies (hist s)) ++ map interrupt_request (interrupts (hist s)))
      (seq 0 (requests (hist s))).
Proof.
  destruct (drun dinit open_history) as [r|] eqn:E; [|exfalso; revert E; vm_compute; discriminate].
  destruct (diag_requests_answered_once open_history r ltac:(vm_compute; reflexivity)
              ltac:(vm_compute; reflexivity) E) as (s & -> & Hp).
  exists s. split; [reflexivity|exact Hp].
Defined.

Example frontend_messages_delivered_witness :
  exists s d, drun dinit open_history = Some (Ret s) /\ delegate_ (chan s) = Some d /\
    exists s', DoDispatch (io_queue d) s = Ret s' /\ events (out (hist s')) = frontend (hist s).
Proof.
  destruct (drun dinit open_history) as [[s|]|] eqn:E;
    [|exfalso; revert E; vm_compute; discriminate|exfalso; revert E; vm_compute; discriminate].
  assert (Hd : exists d, delegate_ (chan s) = Some d).
  { rewrite <- (f_equal ret_diag E : ret_diag (drun dinit open_history) = s). clear E.
    eexists. vm_compute. reflexivity. }
  destruct Hd as [d Hd]. exists s, d. split; [reflexivity|]. split; [exact Hd|].
  destruct (frontend_messages_delivered open_history s d ltac:(vm_compute; reflexivity)
              ltac:(vm_compute; reflexivity) E Hd) as (q & _ & _ & _ & H). exact H.
Defined.

(** The message of that history does wait in the queue. *)
Example open_history_frontend :
  frontend (hist (ret_diag (drun dinit open_history))) = [(5, bs "result")] /\
  map snd (replies (hist (ret_diag (drun dinit open_history)))) = [OK; OK; OK] /\
  interrupts (hist (ret_diag (drun dinit open_history))) = [ITracingStart 3 [bs "v8"]].
Proof. vm_compute. split_and!; reflexivity. Qed.

(** * Defects *)

(** Stopping the transport frees the request queue while the handles that the
    main thread's session delegates hold still point to it ([Reset] of the handle has
    no caller): a message of a session that is not yet deleted uses freed memory.
    And stopping it before the watchdog thread ran dereferences a null handle. *)
Theorem stop_leaves_dangling_queue :
  drun dinit (open_history ++ [DStopIo; DAsync 0; DFrontend 1 (bs "late")])
    = Some (Fault UseAfterFree) /\
  drun dinit [DStartIo; DStopIo] = Some (Fault NullDeref).
Proof. vm_compute. split; reflexivity. Qed.

(** Sessions are counted, not known, when they are ended: after a request to end a
    session that was never opened, the request to end the open one is answered OK
    and leaves it open. *)
Theorem unknown_session_end_leaks :
  exists s d, drun dinit
      [DStartIo; DThreadEntry (bs "a.js") (bs "id"); DRequest (AInspectorStartSession 5);
       DRequest (AInspectorEndSession 99); DRequest (AInspectorEndSession 5)] = Some (Ret s) /\
    replies (hist s) = [(0%nat, OK); (1%nat, OK); (2%nat, OK)] /\
    delegate_ (chan s) = Some d /\ sessions_ d !! 5 = Some 2 /\ opened_session_count_ (chan s) = 0.
Proof. eexists _, _. vm_compute. split_and!; reflexivity. Qed.
