(* ===== verification/MacroTaskQueue.v ===== *)
(** src/src/macro_task_queue.{h,cc}: cooperative tasks run from an idle handle of
    the event loop, at most [max_tick_per_loop_] ticks per loop iteration.

    A task is a value of a type with the operations of the class [MacroTask]
    (the abstract class of the header); [OnDone] may enqueue further tasks, which
    it returns.  Tasks that are done are logged. *)

From S2P Require Import Prelude.

(** [src/src/macro_task_queue.h 12-34, MacroTask] *)
Class MacroTask (T : Type) := {
  OnWorkTick : T -> T;
  OnDone : T -> list T;
  is_done : T -> bool;
  has_error : T -> bool }.

Section queue.
Context {T : Type} `{MacroTask T}.

(** [src/src/macro_task_queue.h 62-67, MacroTaskQueue] [idle_started] is whether
    the loop runs [TickMacroTaskQueue] in each iteration. *)
Record MacroTaskQueue := mkQueue {
  max_tick_per_loop_ : Z;
  active_ : bool;
  idle_started : bool;
  queue_ : list T;
  done_ : list T }.

(** [src/src/macro_task_queue.cc 6-16, MacroTaskQueue::Create] *)
Definition Create (max_tick_per_loop : Z) : MacroTaskQueue :=
  mkQueue max_tick_per_loop false false [] [].

(** [src/src/macro_task_queue.cc 31-48, MacroTaskQueue::TickMacroTaskQueue] The
    loop; [n] is [max_tick_per_loop_ - processed]. *)
Fixpoint process (n : nat) (queue done : list T) : list T * list T :=
  match n, queue with
  | S n', task :: queue =>
      let task := OnWorkTick task in
      if (is_done task || has_error task)%bool
      then process n' (queue ++ OnDone task) (done ++ [task])
      else process n' (queue ++ [task]) done
  | _, _ => (queue, done)
  end.

(** [src/src/macro_task_queue.cc 25-60, MacroTaskQueue::TickMacroTaskQueue] *)
Definition TickMacroTaskQueue (q : MacroTaskQueue) : MacroTaskQueue :=
  let '(queue, done) := process (Z.to_nat (max_tick_per_loop_ q)) (queue_ q) (done_ q) in
  match queue with
  | [] => mkQueue (max_tick_per_loop_ q) false false [] done
  | _ => mkQueue (max_tick_per_loop_ q) true (idle_started q) queue done
  end.

(** [src/src/macro_task_queue.cc 62-70, MacroTaskQueue::Enqueue] *)
Definition Enqueue (q : MacroTaskQueue) (task : T) : MacroTaskQueue :=
  let queue := queue_ q ++ [task] in
  if active_ q then mkQueue (max_tick_per_loop_ q) (active_ q) (idle_started q) queue (done_ q)
  else mkQueue (max_tick_per_loop_ q) true true queue (done_ q).

(** One iteration of the loop runs the idle callback only while it is started. *)
Definition loop_iteration (q : MacroTaskQueue) : MacroTaskQueue :=
  if idle_started q then TickMacroTaskQueue q else q.

Inductive MEvent := MEnqueue (t : T) | MLoop.

Definition mstep (q : MacroTaskQueue) (e : MEvent) : MacroTaskQueue :=
  match e with MEnqueue t => Enqueue q t | MLoop => loop_iteration q end.

(** * Lemmas *)

Definition finished (t : T) : bool := (is_done t || has_error t)%bool.

(** The state in which a task is done, if it is within [n] ticks. *)
Fixpoint final (n : nat) (t : T) : T :=
  match n with
  | O => t
  | S n' => let t := OnWorkTick t in if finished t then t else final n' t
  end.

(** A measure that every tick of a task decreases; the tasks a done task enqueues
    count less than it did. *)
Context (rem : T -> nat).

Definition total (l : list T) : nat := list_sum (rem <$> l).

Definition decreasing : Prop := forall t,
  if finished (OnWorkTick t) then (total (OnDone (OnWorkTick t)) < rem t)%nat
  else (rem (OnWorkTick t) < rem t)%nat.

Lemma total_nil : total [] = 0%nat.
Proof. done. Qed.
Lemma total_cons t l : total (t :: l) = (rem t + total l)%nat.
Proof. done. Qed.

Lemma total_app l k : total (l ++ k) = (total l + total k)%nat.
Proof. unfold total. by rewrite fmap_app, list_sum_app. Qed.

Lemma process_measure n : forall q d,
  decreasing -> (total (process n q d).1 <= total q - Nat.min n (total q))%nat.
Proof.
  induction n as [|n IH]; intros q d Hd; [cbn [process fst]; lia|].
  destruct q as [|t q]; cbn [process fst]; [rewrite total_nil; lia|].
  rewrite total_cons. pose proof (Hd t) as Ht. unfold finished in Ht.
  destruct (is_done (OnWorkTick t) || has_error (OnWorkTick t))%bool.
  - specialize (IH (q ++ OnDone (OnWorkTick t)) (d ++ [OnWorkTick t]) Hd).
    rewrite total_app in IH. lia.
  - specialize (IH (q ++ [OnWorkTick t]) d Hd).
    rewrite total_app, total_cons, total_nil in IH. lia.
Qed.

Lemma total_zero q : decreasing -> total q = 0%nat -> q = [].
Proof.
  intros Hd. destruct q as [|t q]; [done|]. rewrite total_cons. intros Ht.
  specialize (Hd t). destruct (finished (OnWorkTick t)); lia.
Qed.

(** * Active exactly while tasks wait *)

Definition nonempty (l : list T) : bool := match l with [] => false | _ => true end.

Definition queue_inv (q : MacroTaskQueue) : Prop :=
  active_ q = nonempty (queue_ q) /\ idle_started q = active_ q.

Lemma mstep_inv q e : queue_inv q -> queue_inv (mstep q e).
Proof.
  intros [Ha Hi]. destruct e as [t|]; simpl.
  - unfold Enqueue, queue_inv.
    destruct (active_ q) eqn:E; simpl; rewrite ?E, ?Hi; (split; [|done]);
      by destruct (queue_ q).
  - unfold loop_iteration. destruct (idle_started q) eqn:Es; [|split; congruence].
    unfold TickMacroTaskQueue. destruct (process _ _ _) as [[|t l] d]; unfold queue_inv; simpl.
    + done.
    + by rewrite Es.
Qed.

Lemma run_inv es q : queue_inv q -> queue_inv (foldl mstep q es).
Proof. revert q. induction es as [|e es IH]; intros q Hq; [done|]. by apply IH, mstep_inv. Qed.

Lemma mstep_max q e : max_tick_per_loop_ (mstep q e) = max_tick_per_loop_ q.
Proof.
  destruct e; simpl; [unfold Enqueue; by destruct (active_ q)|].
  unfold loop_iteration, TickMacroTaskQueue. destruct (idle_started q); [|done].
  by destruct (process _ _ _) as [[|? ?] ?].
Qed.

Lemma run_max es q : max_tick_per_loop_ (foldl mstep q es) = max_tick_per_loop_ q.
Proof. revert q. induction es as [|e es IH]; intros q; [done|]. simpl. by rewrite IH, mstep_max. Qed.

Lemma loop_drains n : forall q,
  decreasing -> queue_inv q -> 0 < max_tick_per_loop_ q -> (total (queue_ q) <= n)%nat ->
  queue_ (Nat.iter n loop_iteration q) = [].
Proof.
  induction n as [|n IH]; intros q Hd Hinv Hmax Hn.
  - simpl. apply total_zero; [done|lia].
  - rewrite Nat.iter_succ_r. apply IH; [done|by apply (mstep_inv q MLoop)|
      by rewrite <- (mstep_max q MLoop) in Hmax|].
    destruct Hinv as [Ha Hi]. unfold loop_iteration. rewrite Hi, Ha.
    destruct (queue_ q) as [|t0 q0] eqn:E; cbn [nonempty].
    + rewrite E, total_nil. lia.
    + assert (Hne : queue_ q <> []) by by rewrite E. rewrite <- E in Hn. unfold TickMacroTaskQueue.
      pose proof (process_measure (Z.to_nat (max_tick_per_loop_ q)) (queue_ q) (done_ q) Hd) as Hm.
      destruct (process _ _ _) as [[|t l] d]; cbn [queue_ fst] in *; [rewrite total_nil; lia|].
      assert (1 <= Z.to_nat (max_tick_per_loop_ q))%nat by lia.
      destruct (total (queue_ q)) eqn:Et; [by apply total_zero in Et|]. lia.
Qed.

(** * Every task done once *)

Definition no_spawn : Prop := forall t, OnDone t = [].

Lemma final_more n m t : decreasing -> (rem t <= n)%nat -> (n <= m)%nat -> final n t = final m t.
Proof.
  revert m t. induction n as [|n IH]; intros m t Hd Hr Hm.
  - pose proof (Hd t) as Ht. destruct (finished (OnWorkTick t)); lia.
  - destruct m as [|m]; [lia|]. simpl. pose proof (Hd t) as Ht.
    destruct (finished (OnWorkTick t)); [done|]. apply IH; [done|lia|lia].
Qed.

Definition finals (l : list T) : list T := (fun t => final (rem t) t) <$> l.

Lemma final_step t :
  decreasing -> final (rem t) t =
    if finished (OnWorkTick t) then OnWorkTick t else final (rem (OnWorkTick t)) (OnWorkTick t).
Proof.
  intros Hd. pose proof (Hd t) as Ht. destruct (rem t) as [|n] eqn:E.
  - destruct (finished (OnWorkTick t)); lia.
  - simpl. destruct (finished (OnWorkTick t)); [done|].
    symmetry. apply final_more; [done|lia|lia].
Qed.

Lemma process_finals n : forall q d,
  decreasing -> no_spawn ->
  let '(q', d') := process n q d in d' ++ finals q' ≡ₚ d ++ finals q.
Proof.
  induction n as [|n IH]; intros q d Hd Hs; [by simpl|]. destruct q as [|t q]; [by simpl|].
  cbn [process]. unfold finals in *. rewrite fmap_cons.
  pose proof (final_step t Hd) as Hf. unfold finished in Hf.
  destruct (is_done (OnWorkTick t) || has_error (OnWorkTick t))%bool.
  - rewrite Hs, app_nil_r. specialize (IH q (d ++ [OnWorkTick t]) Hd Hs).
    destruct (process _ _ _) as [q' d']. rewrite IH, Hf. by rewrite <- app_assoc.
  - specialize (IH (q ++ [OnWorkTick t]) d Hd Hs).
    destruct (process _ _ _) as [q' d']. rewrite IH, Hf, fmap_app. simpl.
    f_equiv. by rewrite <- Permutation_cons_append.
Qed.

Lemma mstep_finals q e :
  decreasing -> no_spawn ->
  done_ (mstep q e) ++ finals (queue_ (mstep q e)) ≡ₚ
  done_ q ++ finals (queue_ q) ++ (match e with MEnqueue t => finals [t] | MLoop => [] end).
Proof.
  intros Hd Hs. destruct e as [t|]; simpl.
  - unfold Enqueue. destruct (active_ q); simpl; unfold finals; by rewrite fmap_app.
  - rewrite app_nil_r. unfold loop_iteration. destruct (idle_started q); [|done].
    unfold TickMacroTaskQueue.
    pose proof (process_finals (Z.to_nat (max_tick_per_loop_ q)) (queue_ q) (done_ q) Hd Hs) as Hp.
    destruct (process _ _ _) as [[|t l] d]; done.
Qed.

Definition enqueued (es : list MEvent) : list T :=
  omap (fun e => match e with MEnqueue t => Some t | MLoop => None end) es.

Lemma run_finals es q :
  decreasing -> no_spawn ->
  done_ (foldl mstep q es) ++ finals (queue_ (foldl mstep q es)) ≡ₚ
  done_ q ++ finals (queue_ q) ++ finals (enqueued es).
Proof.
  intros Hd Hs. revert q. induction es as [|e es IH]; intros q; simpl; [by rewrite app_nil_r|].
  rewrite IH, app_assoc, mstep_finals by done. unfold finals. destruct e; simpl;
    by rewrite ?app_nil_r, <- !app_assoc.
Qed.

(** * Properties *)

(** The idle handle runs exactly while tasks wait: after any sequence of
    enqueues and loop iterations the queue is active, and its idle callback
    started, if and only if a task is queued, so no task is left behind and an
    empty queue does not keep the loop busy. *)
Theorem idle_runs_while_tasks_wait (max_tick : Z) (es : list MEvent) :
  queue_inv (foldl mstep (Create max_tick) es).
Proof. apply run_inv. done. Qed.

(** C26 Progress: with a positive number of ticks per loop, and tasks that need a
    bounded number of ticks (tasks enqueued by a done task included), the queue is
    empty after at most that total number of loop iterations. *)
Theorem queue_drains (max_tick : Z) (es : list MEvent) :
  decreasing -> 0 < max_tick ->
  let q := foldl mstep (Create max_tick) es in
  let q' := Nat.iter (total (queue_ q)) loop_iteration q in
  queue_ q' = [] /\ idle_started q' = false.
Proof.
  intros Hd Hm q q'.
  assert (Hinv : queue_inv q).
  { apply run_inv. done. }
  assert (Hmax : max_tick_per_loop_ q = max_tick) by apply run_max.
  assert (Hempty : queue_ q' = []) by (apply loop_drains; [done|done|lia|done]).
  split; [done|].
  assert (queue_inv q') as [Ha Hi].
  { unfold q'. clear -Hinv. induction (total (queue_ q)) as [|n IH]; [done|].
    simpl. by apply (mstep_inv _ MLoop). }
  by rewrite Hi, Ha, Hempty.
Qed.

(** Every enqueued task is run to its end and handed to OnDone exactly once:
    after any sequence of enqueues and loop iterations, the tasks done so far and
    the final states of the tasks still queued are together the final states of
    all enqueued tasks. *)
Theorem tasks_done_once (max_tick : Z) (es : list MEvent) :
  decreasing -> no_spawn ->
  let q := foldl mstep (Create max_tick) es in
  done_ q ++ finals (queue_ q) ≡ₚ finals (enqueued es).
Proof. intros Hd Hs q. unfold q. by rewrite run_finals. Qed.

(** One loop iteration makes at most [max_tick_per_loop_] ticks: what it leaves
    is what that many single ticks leave, in round-robin order. *)
Theorem tick_is_bounded_round_robin (q : MacroTaskQueue) :
  0 <= max_tick_per_loop_ q ->
  let single := fun '(queue, done) => process 1 queue done in
  let q' := TickMacroTaskQueue q in
  (queue_ q', done_ q') = Nat.iter (Z.to_nat (max_tick_per_loop_ q)) single (queue_ q, done_ q).
Proof.
  intros Hmax single q'. unfold q', TickMacroTaskQueue.
  assert (Hp : forall n l d, process n l d = Nat.iter n single (l, d)).
  { induction n as [|n IH]; intros l d; [done|]. rewrite Nat.iter_succ_r.
    destruct l as [|t l]; simpl.
    - rewrite <- IH. by destruct n.
    - destruct (is_done (OnWorkTick t) || has_error (OnWorkTick t))%bool; by rewrite IH. }
  rewrite <- Hp. by destruct (process _ _ _) as [[|t l] d].
Qed.

End queue.

(** * Witnesses *)

(** A task that needs a number of ticks. *)
#[export] Instance countdown : MacroTask nat :=
  {| OnWorkTick := pred; OnDone := fun _ => []; is_done := fun n => (n <=? 0)%nat; has_error := fun _ => false |}.

Definition countdown_rem (n : nat) : nat := S n.

Lemma countdown_decreasing : decreasing countdown_rem.
Proof.
  intros [|[|n]]; unfold finished, total, countdown_rem; simpl; lia.
Qed.

Definition ex_events : list (@MEvent nat) := [MEnqueue 2; MEnqueue 1; MLoop; MEnqueue 4; MLoop]%nat.

Lemma queue_drains_witness :
  let q := foldl mstep (Create 2) ex_events in
  let q' := Nat.iter (total countdown_rem (queue_ q)) loop_iteration q in
  queue_ q' = [] /\ idle_started q' = false.
Proof. apply (queue_drains countdown_rem 2 ex_events); [apply countdown_decreasing | lia]. Defined.

Lemma tasks_done_once_witness :
  let q := foldl mstep (Create 2) ex_events in
  done_ q ++ finals countdown_rem (queue_ q) ≡ₚ finals countdown_rem [2; 1; 4]%nat.
Proof. apply (tasks_done_once countdown_rem 2 ex_events); [apply countdown_decreasing | done]. Defined.

Lemma tick_is_bounded_round_robin_witness :
  let q := mkQueue 2 true true [2; 1; 4]%nat [] in
  (queue_ (TickMacroTaskQueue q), done_ (TickMacroTaskQueue q)) =
  Nat.iter 2 (fun '(queue, done) => process 1 queue done) (queue_ q, done_ q).
Proof. apply (tick_is_bounded_round_robin (mkQueue 2 true true [2; 1; 4]%nat [])). simpl. lia. Defined.
