(* ===== verification/Platform.v ===== *)
(** src/src/aworker_platform.{h,cc}: the foreground task runner V8 posts its tasks
    to, and the platform's dispatch to it.

    A task is a value of a type [T]; running it may post further tasks
    ([posts]).  The priority queue is a list kept in order of deadline (the order
    of equal deadlines is not specified by the library; first posted comes first
    here).  [timer] is the timeout the loop timer was started with, and
    [async_pending] whether the async handle was signalled. *)

From S2P Require Import Prelude.

Section runner.
Context {T : Type}.

(** What running a task posts. *)
Inductive Posted := PTask (t : T) | PDelayed (t : T) (delay_ms : Z).
Context (posts : T -> list Posted).

(** [src/src/aworker_platform.h 47-55, PlatformDelayedTask] *)
Record PlatformDelayedTask := mkDelayed { task_ : T; deadline : Z }.

(** [src/src/aworker_platform.h 98-104, ForegroundTaskRunner] *)
Record ForegroundTaskRunner := mkRunner {
  tasks_ : list T;
  delayed_tasks_ : list PlatformDelayedTask;
  timer : option Z;
  async_pending : bool;
  ran : list T }.

Definition New : ForegroundTaskRunner := mkRunner [] [] None false [].

(** [src/src/aworker_platform.h 57-62, PlatformDelayedTaskCompare] The queue is
    ordered so that its top has the smallest deadline. *)
Fixpoint push (q : list PlatformDelayedTask) (d : PlatformDelayedTask) : list PlatformDelayedTask :=
  match q with
  | [] => [d]
  | d' :: q' => if deadline d' >? deadline d then d :: q else d' :: push q' d
  end.

(** [src/src/aworker_platform.cc 176-182, ForegroundTaskRunner::PostTask] *)
Definition PostTask (r : ForegroundTaskRunner) (t : T) : ForegroundTaskRunner :=
  mkRunner (tasks_ r ++ [t]) (delayed_tasks_ r) (timer r) true (ran r).

(** [src/src/aworker_platform.cc 184-193, ForegroundTaskRunner::PostDelayedTask]
    [delay_ms] is [llround(delay * 1000)]; the deadline is a [uint64_t]. *)
Definition PostDelayedTask (r : ForegroundTaskRunner) (now : Z) (t : T) (delay_ms : Z)
    : ForegroundTaskRunner :=
  mkRunner (tasks_ r) (push (delayed_tasks_ r) (mkDelayed t (u64 (now + delay_ms)))) (timer r) true (ran r).

(** [src/src/aworker_platform.cc 195-197, ForegroundTaskRunner::PostNonNestableTask] *)
Definition PostNonNestableTask := PostTask.
(** [src/src/aworker_platform.cc 199-202, ForegroundTaskRunner::PostNonNestableDelayedTask] *)
Definition PostNonNestableDelayedTask := PostDelayedTask.

(** [src/src/aworker_platform.h 41-41, PlatformTask::Run] *)
Definition Run (now : Z) (r : ForegroundTaskRunner) (t : T) : ForegroundTaskRunner :=
  let r := mkRunner (tasks_ r) (delayed_tasks_ r) (timer r) (async_pending r) (ran r ++ [t]) in
  foldl (fun r p => match p with PTask t => PostTask r t | PDelayed t d => PostDelayedTask r now t d end)
    r (posts t).

(** [src/src/aworker_platform.cc 133-141, ForegroundTaskRunner::DrainTasks] *)
Fixpoint pop_due (now : Z) (q : list PlatformDelayedTask)
    : list PlatformDelayedTask * list PlatformDelayedTask :=
  match q with
  | [] => ([], [])
  | d :: q' =>
      if deadline d >? now then ([], q)
      else let '(due, rest) := pop_due now q' in (d :: due, rest)
  end.

(** [src/src/aworker_platform.cc 126-149, ForegroundTaskRunner::DrainTasks] *)
Definition DrainTasks (now : Z) (r : ForegroundTaskRunner) : ForegroundTaskRunner :=
  let tasks := tasks_ r in
  let '(delayed_tasks, rest) := pop_due now (delayed_tasks_ r) in
  let r := mkRunner [] rest (timer r) (async_pending r) (ran r) in
  let r := foldl (Run now) r tasks in
  foldl (Run now) r (task_ <$> delayed_tasks).

(** [src/src/aworker_platform.cc 105-124, ForegroundTaskRunner::RunTasks] [now] is
    the clock when the tasks are drained and [now'] when the timer is computed;
    the subtraction is on [uint64_t]. *)
Definition RunTasks (now now' : Z) (r : ForegroundTaskRunner) : ForegroundTaskRunner :=
  let r := DrainTasks now r in
  let next_timeout :=
    match delayed_tasks_ r with
    | d :: _ => Z.max (u64 (deadline d - now')) 1
    | [] => 0
    end in
  if next_timeout =? 0
  then mkRunner (tasks_ r) (delayed_tasks_ r) None (async_pending r) (ran r)
  else mkRunner (tasks_ r) (delayed_tasks_ r) (Some next_timeout) (async_pending r) (ran r).

(** [src/src/aworker_platform.cc 98-103, ForegroundTaskRunner::ImmediateProcessor]
    The async handle clears its signal. *)
Definition ImmediateProcessor (now now' : Z) (r : ForegroundTaskRunner) : ForegroundTaskRunner :=
  RunTasks now now' (mkRunner (tasks_ r) (delayed_tasks_ r) (timer r) false (ran r)).
(** [src/src/aworker_platform.cc 91-96, ForegroundTaskRunner::TimerProcessor]
    The timer does not repeat, so it is no longer armed. *)
Definition TimerProcessor (now now' : Z) (r : ForegroundTaskRunner) : ForegroundTaskRunner :=
  RunTasks now now' (mkRunner (tasks_ r) (delayed_tasks_ r) None (async_pending r) (ran r)).

(** ** Platform *)

(** [src/src/aworker_platform.h 108-111, AworkerPlatform::ThreadMode] *)
Inductive ThreadMode := kSingleThread | kMultiThread.

(** The worker thread platform of V8 is outside the program: [worker] is its
    queue of calls, [None] when it was not created. *)
Record AworkerPlatform := mkPlatform {
  thread_mode_ : ThreadMode;
  task_runner_ : ForegroundTaskRunner;
  worker_thread_platform_ : option (list (T * Z)) }.

(** [src/src/aworker_platform.cc 204-223, AworkerPlatform::AworkerPlatform] *)
Definition AworkerPlatform_init (mode : ThreadMode) : AworkerPlatform :=
  mkPlatform mode New (match mode with kMultiThread => Some [] | kSingleThread => None end).

(** [src/src/aworker_platform.cc 245-254, AworkerPlatform::CallOnWorkerThread] *)
Definition CallOnWorkerThread (p : AworkerPlatform) (t : T) : outcome AworkerPlatform :=
  match thread_mode_ p with
  | kSingleThread =>
      Ret (mkPlatform (thread_mode_ p) (PostNonNestableTask (task_runner_ p) t) (worker_thread_platform_ p))
  | kMultiThread =>
      match worker_thread_platform_ p with
      | None => Fault CheckFailed
      | Some w => Ret (mkPlatform (thread_mode_ p) (task_runner_ p) (Some (w ++ [(t, 0)])))
      end
  end.

(** [src/src/aworker_platform.cc 256-268, AworkerPlatform::CallDelayedOnWorkerThread] *)
Definition CallDelayedOnWorkerThread (p : AworkerPlatform) (now : Z) (t : T) (delay_ms : Z)
    : outcome AworkerPlatform :=
  match thread_mode_ p with
  | kSingleThread =>
      Ret (mkPlatform (thread_mode_ p) (PostNonNestableDelayedTask (task_runner_ p) now t delay_ms)
             (worker_thread_platform_ p))
  | kMultiThread =>
      match worker_thread_platform_ p with
      | None => Fault CheckFailed
      | Some w => Ret (mkPlatform (thread_mode_ p) (task_runner_ p) (Some (w ++ [(t, delay_ms)])))
      end
  end.

(** * Lemmas *)

Definition by_deadline (q : list PlatformDelayedTask) : Prop :=
  StronglySorted (fun a b => deadline a <= deadline b) q.

Lemma push_perm q d : push q d ≡ₚ d :: q.
Proof.
  induction q as [|d' q IH]; [done|]. simpl. destruct (deadline d' >? deadline d); [done|].
  rewrite IH. apply Permutation_swap.
Qed.

Lemma push_sorted q d : by_deadline q -> by_deadline (push q d).
Proof.
  induction 1 as [|d' q Hs IH Hf]; simpl; [by repeat constructor|].
  destruct (Z.gtb_spec (deadline d') (deadline d)).
  - constructor; [by constructor|]. constructor; [lia|].
    eapply Forall_impl; [done|]. simpl. lia.
  - constructor; [done|]. rewrite push_perm. by constructor.
Qed.

Lemma pop_due_spec now q :
  by_deadline q ->
  let '(due, rest) := pop_due now q in
  q = due ++ rest /\ Forall (fun d => deadline d <= now) due /\ Forall (fun d => now < deadline d) rest.
Proof.
  induction 1 as [|d q Hs IH Hf]; simpl; [done|].
  destruct (Z.gtb_spec (deadline d) now) as [Hgt|Hle].
  - split_and!; [done|done|]. constructor; [done|]. eapply Forall_impl; [done|]. simpl. lia.
  - destruct (pop_due now q) as [due rest]. destruct IH as (-> & Hd & Hr).
    split_and!; [done|by constructor|done].
Qed.

Lemma Run_spec now t r :
  by_deadline (delayed_tasks_ r) ->
  let r' := Run now r t in
  by_deadline (delayed_tasks_ r') /\ ran r' = ran r ++ [t] /\ timer r' = timer r /\
  tasks_ r' = tasks_ r ++ omap (fun p => match p with PTask t => Some t | _ => None end) (posts t) /\
  (exists new, delayed_tasks_ r' ≡ₚ new ++ delayed_tasks_ r /\
     new ≡ₚ omap (fun p => match p with PDelayed t d => Some (mkDelayed t (u64 (now + d))) | _ => None end)
              (posts t)) /\
  async_pending r' = (async_pending r || negb (bool_decide (length (posts t) = 0%nat)))%bool.
Proof.
  intros Hs. unfold Run.
  set (r0 := mkRunner (tasks_ r) (delayed_tasks_ r) (timer r) (async_pending r) (ran r ++ [t])).
  change (by_deadline (delayed_tasks_ r0)) in Hs.
  change (ran r ++ [t]) with (ran r0). change (timer r) with (timer r0).
  change (tasks_ r) with (tasks_ r0). change (delayed_tasks_ r) with (delayed_tasks_ r0).
  change (async_pending r) with (async_pending r0). clearbody r0. clear r.
  generalize (posts t) as ps. intros ps. revert r0 Hs.
  induction ps as [|p ps IH]; intros r Hs; simpl.
  - rewrite app_nil_r, orb_false_r. split_and!; try done. by exists [].
  - destruct p as [t'|t' d].
    + destruct (IH (PostTask r t') Hs) as (H1 & H2 & H3 & H4 & H5 & H6). split_and!; try done.
      * rewrite H4. simpl. by rewrite <- app_assoc.
      * rewrite H6. simpl. by rewrite orb_true_r.
    + destruct (IH (PostDelayedTask r now t' d)) as (H1 & H2 & H3 & H4 & (new & H5 & H5') & H6).
      { by apply push_sorted. }
      split_and!; try done.
      * exists (mkDelayed t' (u64 (now + d)) :: new). split; [|by rewrite H5'].
        rewrite H5. simpl. rewrite push_perm. by rewrite <- Permutation_middle.
      * rewrite H6. simpl. by rewrite orb_true_r.
Qed.

Lemma pop_due_filter now q :
  by_deadline q ->
  pop_due now q = (filter (fun d => deadline d <= now) q, filter (fun d => now < deadline d) q).
Proof.
  intros Hs. pose proof (pop_due_spec now q Hs) as Hp. destruct (pop_due now q) as [due rest].
  destruct Hp as (-> & Hd & Hr). rewrite !filter_app. f_equal.
  - rewrite (filter_all _ due) by done.
    rewrite (filter_none _ rest), app_nil_r; [done|]. eapply Forall_impl; [done|]. simpl. lia.
  - rewrite (filter_all _ rest) by done.
    rewrite (filter_none _ due); [done|]. eapply Forall_impl; [done|]. simpl. lia.
Qed.

Definition posted_tasks (ts : list T) : list T :=
  ts ≫= fun t => omap (fun p => match p with PTask t => Some t | _ => None end) (posts t).
Definition posted_delayed (now : Z) (ts : list T) : list PlatformDelayedTask :=
  ts ≫= fun t =>
    omap (fun p => match p with PDelayed t d => Some (mkDelayed t (u64 (now + d))) | _ => None end) (posts t).

(** What posting must leave behind: work is queued only with a signal pending. *)
Definition signalled (r r' : ForegroundTaskRunner) : Prop :=
  async_pending r' = true \/ (tasks_ r' = tasks_ r /\ delayed_tasks_ r' ≡ₚ delayed_tasks_ r).

Lemma run_all now ts : forall r,
  by_deadline (delayed_tasks_ r) ->
  let r' := foldl (Run now) r ts in
  by_deadline (delayed_tasks_ r') /\ ran r' = ran r ++ ts /\ timer r' = timer r /\
  tasks_ r' = tasks_ r ++ posted_tasks ts /\
  delayed_tasks_ r' ≡ₚ posted_delayed now ts ++ delayed_tasks_ r /\
  (async_pending r = true -> async_pending r' = true) /\ signalled r r'.
Proof.
  induction ts as [|t ts IH]; intros r Hs; cbn [foldl].
  - unfold posted_tasks, posted_delayed. simpl. rewrite !app_nil_r. split_and!; try done. by right.
  - destruct (Run_spec now t r Hs) as (H1 & H2 & H3 & H4 & (new & H5 & H5') & H6).
    destruct (IH (Run now r t) H1) as (K1 & K2 & K3 & K4 & K5 & K6 & K7).
    split_and!; [done| | | | | |].
    + rewrite K2, H2. by rewrite <- app_assoc.
    + congruence.
    + rewrite K4, H4. unfold posted_tasks. by rewrite bind_cons, <- app_assoc.
    + rewrite K5, H5, H5'. unfold posted_delayed. rewrite bind_cons, !app_assoc.
      f_equiv. apply Permutation_app_comm.
    + intros Ha. apply K6. rewrite H6, Ha. done.
    + destruct (posts t) as [|p ps] eqn:Hp.
      * destruct K7 as [K7|[K7 K8]]; [by left|]. right. simpl in *. rewrite app_nil_r in H4.
        rewrite K7, K8, H4, H5, H5'. done.
      * left. apply K6. rewrite H6. simpl. by rewrite orb_true_r.
Qed.

Lemma DrainTasks_spec now r :
  by_deadline (delayed_tasks_ r) ->
  let r' := DrainTasks now r in
  let due := filter (fun d => deadline d <= now) (delayed_tasks_ r) in
  by_deadline (delayed_tasks_ r') /\
  ran r' = ran r ++ tasks_ r ++ (task_ <$> due) /\ timer r' = timer r /\
  tasks_ r' = posted_tasks (tasks_ r ++ (task_ <$> due)) /\
  delayed_tasks_ r' ≡ₚ posted_delayed now (tasks_ r ++ (task_ <$> due)) ++
                      filter (fun d => now < deadline d) (delayed_tasks_ r) /\
  (async_pending r' = true \/
   (tasks_ r' = [] /\ delayed_tasks_ r' ≡ₚ filter (fun d => now < deadline d) (delayed_tasks_ r))).
Proof.
  intros Hs r' due. unfold r', DrainTasks. rewrite pop_due_filter by done. rewrite <- foldl_app.
  edestruct (run_all now (tasks_ r ++ (task_ <$> due))
    (mkRunner [] (filter (fun d => now < deadline d) (delayed_tasks_ r)) (timer r) (async_pending r) (ran r)))
    as (H1 & H2 & H3 & H4 & H5 & _ & H6).
  { simpl. pose proof (pop_due_spec now _ Hs) as Hp. rewrite pop_due_filter in Hp by done.
    destruct Hp as (Hq & _ & _). unfold by_deadline in *. rewrite Hq in Hs at 1.
    by eapply StronglySorted_app_1_r. }
  simpl in *. split_and!; done.
Qed.

(** ** The loop never sleeps on work *)

Inductive REvent :=
  | RPost (t : T) | RPostDelayed (now : Z) (t : T) (delay_ms : Z)
  | RAsync (now now' : Z) | RTimer (now now' : Z).

Definition rstep (r : ForegroundTaskRunner) (e : REvent) : ForegroundTaskRunner :=
  match e with
  | RPost t => PostTask r t
  | RPostDelayed now t d => PostDelayedTask r now t d
  | RAsync now now' => ImmediateProcessor now now' r
  | RTimer now now' => TimerProcessor now now' r
  end.

(** What the platform and V8's threads post, and what a task posts. *)
Definition posted_by (e : REvent) : option T :=
  match e with RPost t | RPostDelayed _ t _ => Some t | _ => None end.
Definition task_posted (p : Posted) : T := match p with PTask t | PDelayed t _ => t end.
Definition posted (es : list REvent) (done : list T) : list T := omap posted_by es ++ (done ≫= fun t => task_posted <$> posts t).

(** The clock at which the last run computed the timer. *)
Definition last_run (es : list REvent) : option Z :=
  last (omap (fun e => match e with RAsync _ now' | RTimer _ now' => Some now' | _ => None end) es).

(** The clock is a [uint64_t]. *)
Definition clock_ok (e : REvent) : Prop :=
  match e with RAsync _ now' | RTimer _ now' => 0 <= now' < 2 ^ 64 | _ => True end.

(** The tasks that wait. *)
Definition waiting (r : ForegroundTaskRunner) : list T := tasks_ r ++ (task_ <$> delayed_tasks_ r).

(** The timeout for a deadline at a clock. *)
Definition timeout_for (now' deadline : Z) : Z :=
  if now' <=? deadline then Z.max (deadline - now') 1 else 2 ^ 64 - (now' - deadline).

Record runner_inv (es : list REvent) (r : ForegroundTaskRunner) : Prop := {
  ri_sorted : by_deadline (delayed_tasks_ r);
  ri_range : Forall (fun d => 0 <= deadline d < 2 ^ 64) (delayed_tasks_ r);
  ri_tasks : tasks_ r <> [] -> async_pending r = true;
  ri_timer : forall d q, delayed_tasks_ r = d :: q -> async_pending r = false ->
    exists now', last_run es = Some now' /\ timer r = Some (timeout_for now' (deadline d));
  ri_account : ran r ++ waiting r ≡ₚ posted es (ran r) }.

Lemma u64_timeout now' dl : 0 <= now' < 2 ^ 64 -> 0 <= dl < 2 ^ 64 -> Z.max (u64 (dl - now')) 1 = timeout_for now' dl.
Proof.
  intros Hn Hd. unfold timeout_for, u64, wrap. destruct (Z.leb_spec now' dl).
  - by rewrite Z.mod_small by lia.
  - replace (dl - now') with (2 ^ 64 - (now' - dl) + (-1) * 2 ^ 64) by lia. rewrite Z.mod_add, Z.mod_small by lia. lia.
Qed.

Lemma posted_snoc es e done : posted (es ++ [e]) done ≡ₚ option_list (posted_by e) ++ posted es done.
Proof.
  unfold posted. rewrite omap_app. cbn. destruct (posted_by e); cbn; rewrite ?app_nil_r; [|done].
  rewrite <- !app_assoc. cbn. by rewrite <- Permutation_middle.
Qed.

(** The tasks a list of tasks posts are its immediate and its delayed ones. *)
Lemma posted_split now ts :
  posted_tasks ts ++ (task_ <$> posted_delayed now ts) ≡ₚ (ts ≫= fun t => task_posted <$> posts t).
Proof.
  unfold posted_tasks, posted_delayed. induction ts as [|t ts IH]; [done|]. rewrite !bind_cons, fmap_app, <- IH.
  set (a := ts ≫= _). set (b := task_ <$> (ts ≫= _)).
  assert (H : omap (fun p => match p with PTask t => Some t | _ => None end) (posts t) ++
    (task_ <$> omap (fun p => match p with PDelayed t d => Some (mkDelayed t (u64 (now + d))) | _ => None end) (posts t))
    ≡ₚ (task_posted <$> posts t)).
  { induction (posts t) as [|[t'|t' d'] ps IHp]; [done|..]; cbn; [by rewrite IHp|]. by rewrite <- Permutation_middle, IHp. }
  rewrite <- H. rewrite <- !app_assoc. apply Permutation_app_head. rewrite !app_assoc. apply Permutation_app_tail, Permutation_app_comm.
Qed.

Lemma filter_due_perm now (q : list PlatformDelayedTask) : by_deadline q ->
  filter (fun d => deadline d <= now) q ++ filter (fun d => now < deadline d) q = q.
Proof.
  intros Hs. pose proof (pop_due_spec now q Hs) as Hp. rewrite pop_due_filter in Hp by done. by destruct Hp as [<- _].
Qed.

(** Running loses no task. *)
Lemma DrainTasks_account now r : by_deadline (delayed_tasks_ r) ->
  let r' := DrainTasks now r in
  exists ts, ran r' = ran r ++ ts /\ ts ++ waiting r' ≡ₚ waiting r ++ (ts ≫= fun t => task_posted <$> posts t).
Proof.
  intros Hs r'. destruct (DrainTasks_spec now r Hs) as (_ & H2 & _ & H4 & H5 & _). fold r' in H2, H4, H5.
  set (due := filter (fun d => deadline d <= now) (delayed_tasks_ r)) in *. exists (tasks_ r ++ (task_ <$> due)).
  split; [done|]. set (c := filter (fun d => now < deadline d) (delayed_tasks_ r)) in *.
  assert (Hq : task_ <$> delayed_tasks_ r = (task_ <$> due) ++ (task_ <$> c)) by (rewrite <- fmap_app; f_equal; symmetry; by apply filter_due_perm).
  unfold waiting. rewrite Hq, H4, H5, fmap_app, <- (posted_split now).
  rewrite <- !app_assoc. do 2 apply Permutation_app_head. rewrite app_assoc. apply Permutation_app_comm.
Qed.

Lemma DrainTasks_range now r : by_deadline (delayed_tasks_ r) -> Forall (fun d => 0 <= deadline d < 2 ^ 64) (delayed_tasks_ r) ->
  Forall (fun d => 0 <= deadline d < 2 ^ 64) (delayed_tasks_ (DrainTasks now r)).
Proof.
  intros Hs Hr. destruct (DrainTasks_spec now r Hs) as (_ & _ & _ & _ & H5 & _). rewrite H5. apply Forall_app. split.
  - apply Forall_forall. intros d (t & Hd & _)%list_elem_of_bind. apply list_elem_of_omap in Hd as ([t'|t' d'] & _ & [= <-]).
    apply Z.mod_pos_bound. lia.
  - apply Forall_forall. intros d [_ Hd]%list_elem_of_filter. rewrite Forall_forall in Hr. by apply Hr.
Qed.

Lemma RunTasks_fields now now' r : let r' := DrainTasks now r in
  tasks_ (RunTasks now now' r) = tasks_ r' /\ delayed_tasks_ (RunTasks now now' r) = delayed_tasks_ r' /\
  async_pending (RunTasks now now' r) = async_pending r' /\ ran (RunTasks now now' r) = ran r' /\
  timer (RunTasks now now' r) = match delayed_tasks_ r' with [] => None | d :: _ => Some (Z.max (u64 (deadline d - now')) 1) end.
Proof.
  cbn. unfold RunTasks. set (r' := DrainTasks now r). clearbody r'. destruct (delayed_tasks_ r') as [|d q]; [done|].
  rewrite (proj2 (Z.eqb_neq _ _)) by lia. done.
Qed.

Lemma RunTasks_inv es e now now' r : posted_by e = None -> last_run (es ++ [e]) = Some now' -> 0 <= now' < 2 ^ 64 ->
  by_deadline (delayed_tasks_ r) -> Forall (fun d => 0 <= deadline d < 2 ^ 64) (delayed_tasks_ r) ->
  ran r ++ waiting r ≡ₚ posted es (ran r) -> runner_inv (es ++ [e]) (RunTasks now now' r).
Proof.
  intros He Hl Hn Hs Hr Ha. destruct (DrainTasks_spec now r Hs) as (H1 & _ & _ & _ & _ & H6).
  pose proof (DrainTasks_range now r Hs Hr) as Hr'. destruct (DrainTasks_account now r Hs) as (ts & Hran & Hacc).
  destruct (RunTasks_fields now now' r) as (F1 & F2 & F3 & F4 & F5).
  split; rewrite ?F1, ?F2, ?F3, ?F4; try done.
  - intros Hne. by destruct H6 as [?|[? _]].
  - intros d q Hd _. exists now'. rewrite F5, Hd. split; [done|]. f_equal. apply u64_timeout; [done|].
    rewrite Hd in Hr'. by apply Forall_cons in Hr' as [? _].
  - unfold waiting. rewrite F1, F2. fold (waiting (DrainTasks now r)). rewrite posted_snoc, He, Hran, <- app_assoc, Hacc.
    cbn [option_list app]. rewrite app_assoc, Ha. unfold posted. by rewrite bind_app, <- app_assoc.
Qed.

Lemma rstep_inv es r e : clock_ok e -> runner_inv es r -> runner_inv (es ++ [e]) (rstep r e).
Proof.
  intros He [Hs Hr Ht Hti Ha]. assert (Hpost : forall t, posted_by e = Some t -> forall r',
    ran r' = ran r -> waiting r' ≡ₚ t :: waiting r -> ran r' ++ waiting r' ≡ₚ posted (es ++ [e]) (ran r')).
  { intros t Hp r' Hr' Hw. rewrite posted_snoc, Hp, Hr', Hw. cbn. by rewrite <- Permutation_middle, Ha. }
  destruct e as [t|now t d|now now'|now now']; cbn [rstep].
  - split; try done. apply (Hpost t); [done..|]. unfold waiting. cbn. rewrite <- app_assoc. cbn. by rewrite <- Permutation_middle.
  - split; try done; [by apply push_sorted| |].
    + cbn. rewrite push_perm. constructor; [apply Z.mod_pos_bound; lia|done].
    + apply (Hpost t); [done..|]. unfold waiting. cbn. rewrite push_perm. cbn. by rewrite <- Permutation_middle.
  - apply (RunTasks_inv es); try done. unfold last_run. rewrite omap_app. apply last_snoc.
  - apply (RunTasks_inv es); try done. unfold last_run. rewrite omap_app. apply last_snoc.
Qed.

Lemma reach_inv es : Forall clock_ok es -> runner_inv es (foldl rstep New es).
Proof.
  induction es as [|e es IH] using rev_ind; intros H; [by split; try done; constructor|].
  apply Forall_app in H as [H He]. rewrite foldl_app. cbn [foldl]. apply rstep_inv; [by inversion He|by apply IH].
Qed.

(** * Properties *)

(** C27 No task is forgotten: after any sequence of posts and of runs triggered by the async
    handle or by the timer, whatever the running tasks post themselves, the tasks that have
    run and those that wait are exactly, one by one, those that were posted; the next run
    runs the immediate ones in order and then, by deadline, exactly the delayed ones that are
    due; an immediate task waits only with the async handle signalled, and a delayed task
    only with it signalled or with the timer started, by the last run, for the earliest
    deadline: in the time until then and at least a millisecond when it had not passed, and
    otherwise, the unsigned difference having wrapped, in 2^64 milliseconds less the time it
    had passed by. *)
Theorem runner_never_sleeps_on_work (es : list REvent) : Forall clock_ok es ->
  let r := foldl rstep New es in
  ran r ++ waiting r ≡ₚ posted es (ran r) /\
  (forall now, ran (DrainTasks now r) = ran r ++ tasks_ r ++ (task_ <$> filter (fun d => deadline d <= now) (delayed_tasks_ r))) /\
  by_deadline (delayed_tasks_ r) /\
  (tasks_ r <> [] -> async_pending r = true) /\
  (forall d q, delayed_tasks_ r = d :: q -> async_pending r = false -> exists now', last_run es = Some now' /\
    timer r = Some (if now' <=? deadline d then Z.max (deadline d - now') 1 else 2 ^ 64 - (now' - deadline d))).
Proof.
  intros H r. assert (Hi : runner_inv es r) by (by apply reach_inv). destruct Hi as [Hs Hr Ht Hti Ha]. split_and!; try done.
  intros now. by destruct (DrainTasks_spec now r Hs) as (_ & ? & _).
Qed.

(** DrainTasks runs, in order, all the tasks posted before it and then exactly
    the delayed tasks whose deadline has passed, by deadline; later ones stay, and
    what the tasks post while running waits for the next round. *)
Theorem DrainTasks_runs_due (es : list REvent) (now : Z) : Forall clock_ok es ->
  let r := foldl rstep New es in
  let r' := DrainTasks now r in
  let due := filter (fun d => deadline d <= now) (delayed_tasks_ r) in
  ran r' = ran r ++ tasks_ r ++ (task_ <$> due) /\
  tasks_ r' = posted_tasks (tasks_ r ++ (task_ <$> due)) /\
  delayed_tasks_ r' ≡ₚ posted_delayed now (tasks_ r ++ (task_ <$> due)) ++
                      filter (fun d => now < deadline d) (delayed_tasks_ r).
Proof.
  intros H r r' due.
  by destruct (DrainTasks_spec now r (ri_sorted _ _ (reach_inv es H))) as (_ & ? & _ & ? & ? & _).
Qed.

(** The timer after a run is set for the earliest remaining deadline, at least
    one millisecond ahead; but when that deadline passed while the tasks ran, the
    unsigned difference wraps and the timer is set close to 2^64 milliseconds
    ahead, so the overdue task waits for another post. *)
Theorem RunTasks_timer (now now' : Z) (r : ForegroundTaskRunner) (d : PlatformDelayedTask)
    (q : list PlatformDelayedTask) :
  delayed_tasks_ (DrainTasks now r) = d :: q ->
  0 <= deadline d < 2 ^ 64 -> 0 <= now' < 2 ^ 64 ->
  timer (RunTasks now now' r) =
    Some (if now' <=? deadline d then Z.max (deadline d - now') 1 else 2 ^ 64 - (now' - deadline d)).
Proof.
  intros Hd Hdl Hnow. destruct (RunTasks_fields now now' r) as (_ & _ & _ & _ & ->). rewrite Hd. f_equal.
  by apply u64_timeout.
Qed.

End runner.

(** * Witnesses *)

(** A task that posts a delayed one; the run that finds it due, and one that does not. *)
Definition ex_posts (t : nat) : list (@Posted nat) := if (t =? 1)%nat then [PDelayed 2%nat 100; PTask 3%nat] else [].
Definition ex_runs : list (@REvent nat) := [RPost 1%nat; RAsync 100 101; RAsync 150 155].

Lemma runner_never_sleeps_on_work_witness : let r := foldl (rstep ex_posts) New ex_runs in
  ran r ++ waiting r ≡ₚ posted ex_posts ex_runs (ran r) /\
  (forall now, ran (DrainTasks ex_posts now r) =
     ran r ++ tasks_ r ++ (task_ <$> filter (fun d => deadline d <= now) (delayed_tasks_ r))) /\
  timer r = Some 45 /\ ran r = [1; 3]%nat.
Proof.
  destruct (runner_never_sleeps_on_work ex_posts ex_runs) as (H1 & H2 & _ & _ & H5); [repeat constructor; done|].
  split; [exact H1|]. split; [exact H2|]. split; [|reflexivity].
  destruct (H5 (mkDelayed 2%nat 200) []) as (now' & [= <-] & H); [reflexivity..|exact H].
Defined.

Lemma RunTasks_timer_witness :
  timer (RunTasks (fun _ : nat => []) 100 205 (PostDelayedTask New 100 7%nat 100)) = Some (2 ^ 64 - 5).
Proof.
  apply (RunTasks_timer (fun _ : nat => []) 100 205 (PostDelayedTask New 100 7%nat 100)
    (mkDelayed 7%nat 200) []); [reflexivity | simpl; lia..].
Defined.
