(* ===== verification/AlarmTimer.v ===== *)
(** src/src/alarm_timer.{h,cc}: several one-shot timers multiplexed on the process
    interval timer (ITIMER_REAL) and SIGALRM.

    [AlarmTimerLathe] holds the ordered set as the list of its iteration order,
    the next sequence number, what the interval timer was last set to ([None] is
    disarmed) and a log of the timers whose handler was called.  Insertion into
    the std::set looks for the place with [AlarmTimerCompare new x], as a search
    tree does. *)

From S2P Require Import Prelude.

(** [src/src/alarm_timer.h 31-40, AlarmTimer] *)
Record AlarmTimer := mkAlarm {
  alarm_id : Z; time_when_trigger : Z; timeouted : bool; alarm_context : nat }.

(** [src/src/alarm_timer.h 72-75, AlarmTimerLathe] Times are [uint64_t]
    nanoseconds. *)
Record AlarmTimerLathe := mkLathe {
  next_sequence : Z;
  timer_set : list AlarmTimer;
  itimer : option (Z * Z);
  triggered : list AlarmTimer }.

(** [setitimer(ITIMER_REAL, &tick, nullptr)]: a zero value disarms the timer. *)
Definition setitimer (sec usec : Z) : option (Z * Z) :=
  if (sec =? 0) && (usec =? 0) then None else Some (sec, usec).

(** [src/src/alarm_timer.cc 24-44, SetNextITimer] *)
Definition SetNextITimer (trigger_hrtime base : Z) : option (Z * Z) :=
  if base <=? trigger_hrtime then
    let delta := trigger_hrtime - base in
    setitimer (delta / 10 ^ 9) (delta mod 10 ^ 9 / 1000)
  else setitimer 0 1.

(** [src/src/alarm_timer.cc 46-49, DeleteITimer] *)
Definition DeleteITimer : option (Z * Z) := None.

(** [src/src/alarm_timer.cc 65-70, AlarmTimerLathe::AlarmTimerCompare] *)
Definition AlarmTimerCompare (a b : AlarmTimer) : bool :=
  if time_when_trigger a <? time_when_trigger b then true else alarm_id a <? alarm_id b.

(** [_set.insert] *)
Fixpoint set_insert (s : list AlarmTimer) (t : AlarmTimer) : list AlarmTimer :=
  match s with
  | [] => [t]
  | x :: s' => if AlarmTimerCompare t x then t :: s else x :: set_insert s' t
  end.

Definition set_timeouted (t : AlarmTimer) : AlarmTimer :=
  mkAlarm (alarm_id t) (time_when_trigger t) true (alarm_context t).

(** [src/src/alarm_timer.cc 87-99, AlarmTimerLathe::DispatchSignal] The loop: the
    set afterwards, the timers triggered and the interval timer to set. *)
Fixpoint dispatch (now : Z) (s : list AlarmTimer)
    : list AlarmTimer * list AlarmTimer * option (option (Z * Z)) :=
  match s with
  | [] => ([], [], None)
  | t :: s' =>
      if time_when_trigger t >? now then (s, [], Some (SetNextITimer (time_when_trigger t) now))
      else
        let '(s', fired, next) := dispatch now s' in
        if timeouted t then (t :: s', fired, next)
        else (set_timeouted t :: s', t :: fired, next)
  end.

(** [src/src/alarm_timer.cc 82-100, AlarmTimerLathe::DispatchSignal] The interval
    timer is one-shot, so it is disarmed when its signal arrives.  The handler of a signal
    that the thread using the timers receives runs between its operations, as here:
    [create_timer] and [close] block the signal in the calling thread (alarm_timer.h 64-70);
    in a thread that does not block it the handler may run during them
    ([Contextify.alarm_on_other_thread_faults]). *)
Definition DispatchSignal (now : Z) (l : AlarmTimerLathe) : AlarmTimerLathe :=
  let '(s, fired, next) := dispatch now (timer_set l) in
  mkLathe (next_sequence l) s (default None next) (triggered l ++ fired).

(** [src/src/alarm_timer.cc 110-117, AlarmTimerLathe::create_timer] The lazy
    deletion of timers that already fired. *)
Fixpoint drop_timeouted (s : list AlarmTimer) : list AlarmTimer :=
  match s with [] => [] | t :: s' => if timeouted t then drop_timeouted s' else s end.

(** A non-negative integer as a double: the nearest number of 53 bits, the even one of two. *)
Definition to_double (z : Z) : Z :=
  let e := Z.max 0 (Z.log2 z - 52) in
  let q := z / 2 ^ e in
  let r := z mod 2 ^ e in
  (q + if 2 * r <? 2 ^ e then 0 else if 2 ^ e <? 2 * r then 1 else q mod 2) * 2 ^ e.

(** [src/src/alarm_timer.cc 51-59, AlarmTimer::AlarmTimer] The time to trigger at: the factor
    [1e6] makes the sum a double, which is converted back (beyond 64 bits the conversion is
    undefined; it wraps here). *)
Definition trigger_time (now timeout : Z) : Z :=
  u64 (to_double (to_double now + to_double (to_double timeout * 10 ^ 6))).

(** [src/src/alarm_timer.cc 102-131, AlarmTimerLathe::create_timer] [now] is the
    clock when the timer is created, [now'] when the interval timer is set; the
    timeout is in milliseconds. *)
Definition create_timer (now now' timeout : Z) (context : nat) (l : AlarmTimerLathe)
    : AlarmTimerLathe * Z :=
  let s := drop_timeouted (timer_set l) in
  let timer := mkAlarm (next_sequence l) (trigger_time now timeout) false context in
  let s := set_insert s timer in
  let it := match s with t :: _ => SetNextITimer (time_when_trigger t) now' | [] => itimer l end in
  (mkLathe (u64 (next_sequence l + 1)) s it (triggered l), alarm_id timer).

Fixpoint erase_id (id : Z) (s : list AlarmTimer) : list AlarmTimer :=
  match s with
  | [] => []
  | t :: s' => if alarm_id t =? id then s' else t :: erase_id id s'
  end.

(** [src/src/alarm_timer.cc 133-154, AlarmTimerLathe::close] *)
Definition close (now timer_id : Z) (l : AlarmTimerLathe) : AlarmTimerLathe :=
  let s := erase_id timer_id (timer_set l) in
  mkLathe (next_sequence l) s
    (match s with t :: _ => SetNextITimer (time_when_trigger t) now | [] => DeleteITimer end)
    (triggered l).

Definition lathe_init : AlarmTimerLathe := mkLathe 0 [] None [].

(** ** Events *)

Inductive AEvent :=
  | ACreate (now now' timeout : Z) (context : nat)
  | AClose (now id : Z)
  | ASignal (now : Z).

Definition astep (l : AlarmTimerLathe) (e : AEvent) : AlarmTimerLathe :=
  match e with
  | ACreate now now' timeout ctx => (create_timer now now' timeout ctx l).1
  | AClose now id => close now id l
  | ASignal now => DispatchSignal now l
  end.

(** * Invariant *)

Definition by_trigger (s : list AlarmTimer) : Prop :=
  StronglySorted (fun a b => time_when_trigger a <= time_when_trigger b) s.

(** In order of trigger time; ids distinct and below the next sequence number; a
    timer still in the set has been triggered if and only if it is marked. *)
Record lathe_inv (l : AlarmTimerLathe) : Prop := {
  li_sorted : by_trigger (timer_set l);
  li_ids : NoDup (alarm_id <$> timer_set l);
  li_bound : Forall (fun t => 0 <= alarm_id t < next_sequence l) (timer_set l ++ triggered l);
  li_fired : NoDup (alarm_id <$> triggered l);
  li_marked : Forall (fun t => timeouted t = bool_decide (alarm_id t ∈ alarm_id <$> triggered l)) (timer_set l) }.

Lemma set_insert_perm s t : set_insert s t ≡ₚ t :: s.
Proof.
  induction s as [|x s IH]; [done|]. simpl. destruct (AlarmTimerCompare t x); [done|].
  rewrite IH. apply Permutation_swap.
Qed.

Lemma set_insert_sorted s t :
  by_trigger s -> Forall (fun x => alarm_id x < alarm_id t) s -> by_trigger (set_insert s t).
Proof.
  intros Hs. revert t. induction Hs as [|x s Hs IH Hx]; intros t Hid; simpl; [by repeat constructor|].
  apply Forall_cons in Hid as [Hlt Hid]. unfold AlarmTimerCompare.
  destruct (Z.ltb_spec (time_when_trigger t) (time_when_trigger x)).
  - constructor; [by constructor|]. constructor; [lia|]. eapply Forall_impl; [exact Hx|]. simpl. lia.
  - rewrite (proj2 (Z.ltb_ge _ _)) by lia. constructor; [by apply IH|].
    rewrite set_insert_perm. by constructor.
Qed.

Lemma dispatch_spec now s :
  by_trigger s ->
  let '(s', fired, next) := dispatch now s in
  fired = filter (fun t => time_when_trigger t <= now /\ timeouted t = false) s /\
  s' = (fun t => if decide (time_when_trigger t <= now) then set_timeouted t else t) <$> s /\
  next = match filter (fun t => now < time_when_trigger t) s with
         | t :: _ => Some (SetNextITimer (time_when_trigger t) now)
         | [] => None
         end.
Proof.
  induction 1 as [|t s Hs IH Hf]; [done|]. cbn [dispatch].
  destruct (Z.gtb_spec (time_when_trigger t) now) as [Hgt|Hle].
  - assert (Hall : Forall (fun x => now < time_when_trigger x) (t :: s)).
    { constructor; [done|]. eapply Forall_impl; [done|]. simpl. lia. }
    split_and!.
    + symmetry. apply filter_none. eapply Forall_impl; [done|]. simpl. lia.
    + symmetry. rewrite <- (list_fmap_id (t :: s)) at 2. apply list_fmap_ext. intros i x Hx.
      rewrite Forall_lookup in Hall. specialize (Hall i x Hx). by rewrite decide_False by lia.
    + by rewrite filter_all by done.
  - destruct (dispatch now s) as [[s' fired] next]. destruct IH as (-> & -> & ->).
    rewrite (filter_cons_False (fun t => now < time_when_trigger t)) by lia.
    rewrite fmap_cons, decide_True by done.
    destruct (timeouted t) eqn:Et.
    + split_and!; [|by destruct t; simpl in *; subst|done].
      by rewrite filter_cons_False by (intros [_ ?]; congruence).
    + split_and!; [|done|done]. by rewrite filter_cons_True.
Qed.

Lemma drop_timeouted_suffix s : exists p, s = p ++ drop_timeouted s /\ Forall (fun t => timeouted t = true) p.
Proof.
  induction s as [|t s (p & Hp & Hf)]; [by exists []|]. simpl. destruct (timeouted t) eqn:E.
  - exists (t :: p). simpl. split; [by f_equal|by constructor].
  - by exists [].
Qed.

Lemma erase_id_sublist id s : sublist (erase_id id s) s.
Proof.
  induction s as [|t s IH]; [constructor|]. simpl. destruct (alarm_id t =? id).
  - by constructor.
  - by constructor.
Qed.

Lemma sublist_Forall {A} (P : A -> Prop) (l k : list A) : sublist l k -> Forall P k -> Forall P l.
Proof. intros Hs Hk. rewrite Forall_forall in *. intros x Hx. apply Hk. by eapply elem_of_sublist. Qed.

Lemma by_trigger_sublist s s' : sublist s s' -> by_trigger s' -> by_trigger s.
Proof.
  induction 1 as [|t s s' Hsub IH|t s s' Hsub IH]; intros Hs; [done| |];
    apply StronglySorted_inv in Hs as [Hs Ht].
  - constructor; [by apply IH|]. by eapply sublist_Forall.
  - by apply IH.
Qed.

Lemma by_trigger_fmap (f : AlarmTimer -> AlarmTimer) s :
  (forall t, time_when_trigger (f t) = time_when_trigger t) -> by_trigger s -> by_trigger (f <$> s).
Proof.
  intros Hf. induction 1 as [|t s Hs IH Ht]; [constructor|]. rewrite fmap_cons.
  constructor; [done|]. apply Forall_fmap. eapply Forall_impl; [exact Ht|]. simpl. intros x.
  by rewrite !Hf.
Qed.

(** Removing timers keeps the invariant. *)
Lemma lathe_inv_sublist l s it :
  sublist s (timer_set l) -> lathe_inv l ->
  lathe_inv (mkLathe (next_sequence l) s it (triggered l)).
Proof.
  intros Hsub [H1 H2 H3 H4 H5]. apply Forall_app in H3 as [H3 H3'].
  split; simpl; [by eapply by_trigger_sublist| | |done|by eapply sublist_Forall].
  - eapply sublist_NoDup; [exact H2|]. by apply fmap_sublist.
  - apply Forall_app. split; [|done]. by eapply sublist_Forall.
Qed.

Lemma create_timer_inv now now' timeout ctx l :
  lathe_inv l -> 0 <= next_sequence l < 2 ^ 64 - 1 ->
  lathe_inv (create_timer now now' timeout ctx l).1 /\
  next_sequence (create_timer now now' timeout ctx l).1 = next_sequence l + 1.
Proof.
  intros Hinv Hseq. unfold create_timer. simpl.
  replace (u64 (next_sequence l + 1)) with (next_sequence l + 1)
    by (symmetry; apply wrap_small; lia). split; [|done].
  destruct (drop_timeouted_suffix (timer_set l)) as (p & Hp & _).
  assert (Hsub : sublist (drop_timeouted (timer_set l)) (timer_set l)).
  { rewrite Hp at 2. by apply sublist_inserts_l. }
  set (s := drop_timeouted (timer_set l)) in *.
  destruct (lathe_inv_sublist l s None Hsub Hinv) as [H1 H2 H3 H4 H5]. simpl in *.
  set (t := mkAlarm _ _ _ _). apply Forall_app in H3 as [H3 H3'].
  split; simpl.
  - apply set_insert_sorted; [done|]. eapply Forall_impl; [exact H3|]. simpl. lia.
  - rewrite set_insert_perm, fmap_cons. constructor; [|done]. intros Hin.
    apply list_elem_of_fmap in Hin as (x & Hx & Hin). rewrite Forall_forall in H3.
    specialize (H3 x Hin). simpl in *. lia.
  - apply Forall_app. split; [rewrite set_insert_perm; constructor; [simpl; lia|]|].
    + eapply Forall_impl; [exact H3|]. simpl. lia.
    + eapply Forall_impl; [exact H3'|]. simpl. lia.
  - done.
  - rewrite set_insert_perm. constructor; [|done]. simpl. symmetry. apply bool_decide_eq_false_2.
    intros Hin. apply list_elem_of_fmap in Hin as (x & Hx & Hin). rewrite Forall_forall in H3'.
    specialize (H3' x Hin). simpl in *. lia.
Qed.

Lemma DispatchSignal_inv now l :
  lathe_inv l -> lathe_inv (DispatchSignal now l).
Proof.
  intros [H1 H2 H3 H4 H5]. unfold DispatchSignal.
  pose proof (dispatch_spec now _ H1) as Hd. destruct (dispatch now (timer_set l)) as [[s fired] next].
  destruct Hd as (-> & -> & _).
  set (f := fun t => if decide (time_when_trigger t <= now) then set_timeouted t else t).
  set (P := fun t => time_when_trigger t <= now /\ timeouted t = false).
  assert (Hid : forall t, alarm_id (f t) = alarm_id t) by (intros t; unfold f; by case_decide).
  apply Forall_app in H3 as [H3 H3']. split; simpl.
  - apply by_trigger_fmap; [|done]. intros t. unfold f. by case_decide.
  - rewrite <- list_fmap_compose. erewrite list_fmap_ext; [exact H2|]. intros. apply Hid.
  - apply Forall_app. split; [|apply Forall_app; split; [done|]].
    + apply Forall_fmap. eapply Forall_impl; [exact H3|]. simpl. intros x. by rewrite Hid.
    + eapply sublist_Forall; [apply sublist_filter|done].
  - rewrite fmap_app. apply NoDup_app. split_and!; [done| |].
    + intros id Hin Hin'. apply list_elem_of_fmap in Hin' as (t & -> & Ht).
      apply list_elem_of_filter in Ht as [[_ Hno] Ht].
      rewrite Forall_forall in H5. specialize (H5 t Ht).
      rewrite bool_decide_eq_true_2 in H5 by done. congruence.
    + eapply sublist_NoDup; [exact H2|]. apply fmap_sublist, sublist_filter.
  - apply Forall_fmap, Forall_forall. intros t Ht. simpl. rewrite Hid, fmap_app.
    rewrite Forall_forall in H5. specialize (H5 t Ht).
    assert (Hother : alarm_id t ∈ alarm_id <$> filter P (timer_set l) <-> P t).
    { split.
      - intros (t' & Hid' & Ht')%list_elem_of_fmap. apply list_elem_of_filter in Ht' as [HP Ht'].
        assert (t = t') as ->; [|done]. 
        apply list_elem_of_lookup in Ht as [i Hi]. apply list_elem_of_lookup in Ht' as [j Hj].
        assert (i = j) as ->; [|congruence].
        eapply NoDup_lookup; [exact H2| |]; rewrite list_lookup_fmap.
        + by rewrite Hi.
        + rewrite Hj. simpl. by rewrite Hid'.
      - intros HP. apply list_elem_of_fmap. exists t. split; [done|]. by apply list_elem_of_filter. }
    unfold f, P in *. symmetry. destruct (decide (time_when_trigger t <= now)) as [Hdue|Hdue].
    + simpl. apply bool_decide_eq_true_2, elem_of_app.
      destruct (timeouted t) eqn:Et; [left; symmetry in H5; by apply bool_decide_eq_true in H5|].
      right. by apply Hother.
    + rewrite H5. apply bool_decide_ext. rewrite elem_of_app, Hother. naive_solver lia.
Qed.

Lemma astep_inv l e :
  lathe_inv l -> 0 <= next_sequence l < 2 ^ 64 - 1 ->
  lathe_inv (astep l e) /\ next_sequence l <= next_sequence (astep l e) <= next_sequence l + 1.
Proof.
  intros Hinv Hseq. destruct e as [now now' timeout ctx|now id|now]; cbn [astep].
  - destruct (create_timer_inv now now' timeout ctx l Hinv Hseq) as [H ->]. split; [done|lia].
  - split; [|simpl; lia]. apply lathe_inv_sublist; [apply erase_id_sublist|done].
  - split; [by apply DispatchSignal_inv|]. unfold DispatchSignal.
    destruct (dispatch _ _) as [[? ?] ?]. simpl. lia.
Qed.

Lemma lathe_init_inv : lathe_inv lathe_init.
Proof. split; simpl; constructor. Qed.

Lemma arun_inv es : forall l,
  lathe_inv l -> 0 <= next_sequence l -> next_sequence l + Z.of_nat (length es) < 2 ^ 64 ->
  lathe_inv (foldl astep l es).
Proof.
  induction es as [|e es IH]; intros l Hinv H0 Hlen; [done|]. simpl in *.
  destruct (astep_inv l e Hinv) as [H1 H2]; [lia|]. apply IH; [done|lia|lia].
Qed.

Lemma to_double_small z : 0 <= z < 2 ^ 53 -> to_double z = z.
Proof.
  intros Hz. unfold to_double. assert (He : Z.max 0 (Z.log2 z - 52) = 0).
  { destruct (Z.eq_dec z 0) as [->|]; [done|]. pose proof (proj1 (Z.log2_lt_pow2 z 53 ltac:(lia)) (proj2 Hz)). lia. }
  rewrite He. change (2 ^ 0) with 1. rewrite Z.mod_1_r, Z.div_1_r. change (2 * 0 <? 1) with true. cbv iota. lia.
Qed.

(** * Properties *)

(** In the first 104 days of the clock a timer is due exactly its timeout after it was made. *)
Theorem trigger_time_exact (now timeout : Z) : 0 <= now -> 0 <= timeout -> now + timeout * 10 ^ 6 < 2 ^ 53 ->
  trigger_time now timeout = now + timeout * 10 ^ 6.
Proof.
  intros Hn Ht Hs. unfold trigger_time. rewrite (to_double_small timeout), (to_double_small (timeout * 10 ^ 6)),
    (to_double_small now), to_double_small by lia. unfold u64, wrap. apply Z.mod_small. lia.
Qed.

(** Timers keep their order and fire once: after any sequence of creations,
    closings and alarm signals (fewer than 2^64), the set is in order of trigger
    time with distinct ids, no handler has been called twice for a timer, and a
    timer in the set is marked as timed out exactly when its handler was called. *)
Theorem alarm_timers_invariant (es : list AEvent) :
  Z.of_nat (length es) < 2 ^ 64 -> lathe_inv (foldl astep lathe_init es).
Proof. intros H. apply arun_inv; [apply lathe_init_inv|simpl; lia|simpl; lia]. Qed.

(** An alarm signal calls the handlers of exactly the timers that are due and
    have not fired, in order of trigger time and never before it; those become
    marked, no other timer changes, and the interval timer is set for the
    earliest timer that is not due yet. *)
Theorem DispatchSignal_fires_due (es : list AEvent) (now : Z) :
  Z.of_nat (length es) < 2 ^ 64 ->
  let l := foldl astep lathe_init es in
  let l' := DispatchSignal now l in
  triggered l' = triggered l ++
    filter (fun t => time_when_trigger t <= now /\ timeouted t = false) (timer_set l) /\
  timer_set l' = (fun t => if decide (time_when_trigger t <= now) then set_timeouted t else t) <$> timer_set l /\
  itimer l' = match filter (fun t => now < time_when_trigger t) (timer_set l) with
              | t :: _ => SetNextITimer (time_when_trigger t) now
              | [] => None
              end.
Proof.
  intros Hlen l l'.
  assert (Hinv : lathe_inv l) by (apply arun_inv; [apply lathe_init_inv|simpl; lia|simpl; lia]).
  pose proof (dispatch_spec now (timer_set l) (li_sorted l Hinv)) as Hd.
  unfold l', DispatchSignal. destruct (dispatch now (timer_set l)) as [[s fired] next].
  destruct Hd as (-> & -> & ->). split_and!; [done..|]. simpl.
  by destruct (filter (fun t => now < time_when_trigger t) (timer_set l)).
Qed.

(** What the interval timer is set to: the whole microseconds until the
    trigger time, or one microsecond when it has passed; in the last microsecond
    before the trigger the value is zero, which disarms the timer instead. *)
Theorem SetNextITimer_arms (trigger base : Z) :
  0 <= trigger < 2 ^ 64 -> 0 <= base < 2 ^ 64 ->
  match SetNextITimer trigger base with
  | Some (sec, usec) =>
      0 <= sec /\ 0 <= usec < 10 ^ 6 /\
      sec * 10 ^ 6 + usec = (if base <=? trigger then (trigger - base) / 1000 else 1) /\
      (base <= trigger -> 1000 <= trigger - base)
  | None => 0 <= trigger - base < 1000
  end.
Proof.
  intros Ht Hb. unfold SetNextITimer. destruct (Z.leb_spec base trigger) as [Hle|Hgt].
  - set (d := trigger - base).
    pose proof (Z.div_mod d (10 ^ 9) ltac:(lia)) as Hdm.
    pose proof (Z.mod_pos_bound d (10 ^ 9) ltac:(lia)) as Hmod.
    set (q := d / 10 ^ 9) in *. set (r := d mod 10 ^ 9) in *.
    assert (Hd : d / 1000 = q * 10 ^ 6 + r / 1000).
    { replace d with (r + q * 10 ^ 6 * 1000) by lia. rewrite Z.div_add by lia. lia. }
    pose proof (Z.div_pos r 1000 ltac:(lia) ltac:(lia)).
    pose proof (Z.div_lt_upper_bound r 1000 (10 ^ 6) ltac:(lia) ltac:(lia)).
    assert (0 <= q) by (apply Z.div_pos; unfold d; lia).
    unfold setitimer. destruct (Z.eqb_spec q 0) as [Hq|Hq], (Z.eqb_spec (r / 1000) 0) as [Hr|Hr]; simpl;
      try (split_and!; [lia..|]; intros _; pose proof (Z.mul_div_le d 1000 ltac:(lia)); lia).
    split; [unfold d in *; lia|].
    pose proof (Z.mod_pos_bound r 1000 ltac:(lia)).
    pose proof (Z.div_mod r 1000 ltac:(lia)). lia.
  - unfold setitimer. simpl. split_and!; lia.
Qed.

(** * Witnesses *)

Lemma trigger_time_exact_witness : trigger_time 1000 5 = 5001000.
Proof. apply (trigger_time_exact 1000 5); lia. Defined.

(** Beyond them it is rounded. *)
Example trigger_time_rounds : trigger_time (2 ^ 54 + 1) 1 = 2 ^ 54 + 1000000.
Proof. vm_compute. reflexivity. Qed.

Definition ex_alarms : list AEvent :=
  [ACreate 1000 1000 5 1; ACreate 2000 2000 1 2; ASignal 1100000; AClose 1200000 7; ACreate 1300000 1300000 2 3].

Lemma alarm_timers_invariant_witness : lathe_inv (foldl astep lathe_init ex_alarms).
Proof. apply (alarm_timers_invariant ex_alarms). simpl. lia. Defined.

Lemma DispatchSignal_fires_due_witness :
  triggered (DispatchSignal 4000000 (foldl astep lathe_init ex_alarms)) =
  triggered (foldl astep lathe_init ex_alarms) ++
    filter (fun t => time_when_trigger t <= 4000000 /\ timeouted t = false)
      (timer_set (foldl astep lathe_init ex_alarms)).
Proof. apply (DispatchSignal_fires_due ex_alarms 4000000). simpl. lia. Defined.

Lemma SetNextITimer_arms_witness :
  match SetNextITimer 5000999 5000000 with
  | Some (sec, usec) =>
      0 <= sec /\ 0 <= usec < 10 ^ 6 /\
      sec * 10 ^ 6 + usec = (if 5000000 <=? 5000999 then (5000999 - 5000000) / 1000 else 1) /\
      (5000000 <= 5000999 -> 1000 <= 5000999 - 5000000)
  | None => 0 <= 5000999 - 5000000 < 1000
  end.
Proof. apply (SetNextITimer_arms 5000999 5000000); lia. Defined.
