(* ===== verification/Contextify.v ===== *)
(** * Contexts, scripts and modules

    src/src/contextify/context.{h,cc}: contexts whose global object is backed by a sandbox
    object, and the execution of scripts under a timeout; src/src/contextify/script.cc: scripts
    and their code caches; src/src/module_wrap.{h,cc}: modules, their linking and resolving.

    Executions nest, and each one that has a timeout gives the address of a flag in its own
    stack frame to an alarm timer ([AlarmTimer]): a frame is its depth, so that an address is
    used again after a return, and a handler that writes to a frame that is gone is a fault.
    An object is its own properties and those it inherits; a property is its value and its
    attributes.  V8 goes on with an operation on the global object that a callback did not
    intercept.

    The theorems: an alarm never writes to a frame that has returned; the names a script sees
    are the sandbox's over the global's, and what it stores it reads back; a property that is
    read-only keeps its value; modules resolve to what they were linked with, and what happens
    when two have the same hash; which part of a buffer is taken for a code cache. *)

From S2P Require Import Prelude AlarmTimer.
Local Open Scope Z_scope.

(** * Executions with a timeout *)

(** [src/src/contextify/context.cc 369-372, ExecuteTimeoutContext] A frame of an execution: its
    timer, if it has a timeout, and the flag. *)
Record Frame := mkFrame { timer_id : option Z; timeout_flag : bool }.

(** The frames, from the outermost, and the timers. *)
Record Executions := mkExecutions { frames : list Frame; lathe : AlarmTimerLathe }.

(** [src/src/contextify/context.cc 374-379, DoExecuteTimeoutHandler] Execution is terminated,
    too. *)
Definition DoExecuteTimeoutHandler (fs : list Frame) (context : nat) : outcome (list Frame) :=
  match fs !! context with
  | None => Fault UseAfterFree
  | Some f => Ret (<[context := mkFrame (timer_id f) true]> fs)
  end.

Fixpoint run_handlers (fs : list Frame) (fired : list AlarmTimer) : outcome (list Frame) :=
  match fired with
  | [] => Ret fs
  | t :: fired => fs ← DoExecuteTimeoutHandler fs (alarm_context t); run_handlers fs fired
  end.

(** A signal: the timers that are due call their handlers. *)
Definition alarm (now : Z) (e : Executions) : outcome Executions :=
  let l := DispatchSignal now (lathe e) in
  fs ← run_handlers (frames e) (drop (length (triggered (lathe e))) (triggered l));
  Ret (mkExecutions fs l).

(** [src/src/contextify/context.cc 390-402, ContextWrap::DoExecute] Creating the timer never
    fails. *)
Definition DoExecute_enter (timeout now now' : Z) (e : Executions) : Executions :=
  if timeout =? 0 then mkExecutions (frames e ++ [mkFrame None false]) (lathe e)
  else
    let '(l, id) := create_timer now now' (u64 timeout) (length (frames e)) (lathe e) in
    mkExecutions (frames e ++ [mkFrame (Some id) false]) l.

(** [src/src/contextify/context.cc 404-413, ContextWrap::DoExecute] The end of the innermost
    execution: whether it timed out.  A signal may still come between the test and the
    closing, at [late]. *)
Definition DoExecute_leave (late : option Z) (now : Z) (e : Executions) : outcome (bool * Executions) :=
  match last (frames e) with
  | None => Ret (false, e)
  | Some f =>
      match timer_id f with
      | None => Ret (false, mkExecutions (removelast (frames e)) (lathe e))
      | Some id =>
          if timeout_flag f then Ret (true, mkExecutions (removelast (frames e)) (lathe e))
          else
            e ← match late with Some t => alarm t e | None => Ret e end;
            Ret (false, mkExecutions (removelast (frames e)) (close now id (lathe e)))
      end
  end.

Inductive XEvent := XEnter (timeout now now' : Z) | XAlarm (now : Z) | XLeave (late : option Z) (now : Z).

Definition xstep (e : Executions) (x : XEvent) : outcome Executions :=
  match x with
  | XEnter timeout now now' => Ret (DoExecute_enter timeout now now' e)
  | XAlarm now => alarm now e
  | XLeave late now => r ← DoExecute_leave late now e; Ret r.2
  end.

Fixpoint xrun (e : Executions) (l : list XEvent) : outcome Executions :=
  match l with [] => Ret e | x :: l => e ← xstep e x; xrun e l end.

Definition no_executions : Executions := mkExecutions [] lathe_init.

(** What holds between events: a timer that can still fire belongs to a frame that waits for
    it. *)
Record xinv (e : Executions) : Prop := {
  xi_lathe : lathe_inv (lathe e);
  xi_waits : forall t, t ∈ timer_set (lathe e) -> timeouted t = false ->
    frames e !! alarm_context t = Some (mkFrame (Some (alarm_id t)) false) }.

Lemma run_handlers_flags fired : forall fs,
  NoDup (alarm_id <$> fired) ->
  (forall t, t ∈ fired -> fs !! alarm_context t = Some (mkFrame (Some (alarm_id t)) false)) ->
  exists fs', run_handlers fs fired = Ret fs' /\ length fs' = length fs /\
    (forall i f, fs !! i = Some f -> (forall t, t ∈ fired -> timer_id f <> Some (alarm_id t)) -> fs' !! i = Some f) /\
    (forall i f, fs' !! i = Some f -> exists b, fs !! i = Some (mkFrame (timer_id f) b)).
Proof.
  induction fired as [|t fired IH]; intros fs Hnd Hfs.
  { exists fs. split_and!; try done. intros i [id b] Hi. cbn. by exists b. }
  rewrite fmap_cons in Hnd. apply NoDup_cons in Hnd as [Ht Hnd].
  assert (Hft : fs !! alarm_context t = Some (mkFrame (Some (alarm_id t)) false)) by (apply Hfs; by left).
  pose proof (lookup_lt_Some _ _ _ Hft) as Hlen.
  cbn [run_handlers]. unfold DoExecuteTimeoutHandler. rewrite Hft, outcome_bind_ret. cbn [timer_id].
  destruct (IH (<[alarm_context t := mkFrame (Some (alarm_id t)) true]> fs) Hnd) as (fs' & E & Hl & Hkeep & Hback).
  { intros t' Ht'. rewrite list_lookup_insert_ne; [apply Hfs; by right|]. intros Hc.
    assert (H : fs !! alarm_context t' = Some (mkFrame (Some (alarm_id t')) false)) by (apply Hfs; by right).
    rewrite <-Hc, Hft in H. injection H as H. apply Ht, list_elem_of_fmap. by exists t'. }
  exists fs'. split_and!; [done|by rewrite Hl, length_insert| |].
  - intros i f Hi Hno. apply Hkeep; [|intros t' Ht'; apply Hno; by right].
    rewrite list_lookup_insert_ne; [done|]. intros <-. rewrite Hft in Hi. injection Hi as <-. by apply (Hno t ltac:(by left)).
  - intros i f Hi. destruct (Hback i f Hi) as [b Hb]. destruct (decide (alarm_context t = i)) as [<-|Hne].
    + rewrite list_lookup_insert_eq in Hb by done. injection Hb as Hb _. exists false. by rewrite Hft, Hb.
    + rewrite list_lookup_insert_ne in Hb by done. by exists b.
Qed.

Lemma alarm_inv now e : xinv e -> exists e', alarm now e = Ret e' /\ xinv e' /\ length (frames e') = length (frames e) /\
  next_sequence (lathe e') = next_sequence (lathe e) /\
  (forall i f, frames e' !! i = Some f -> exists b, frames e !! i = Some (mkFrame (timer_id f) b)).
Proof.
  intros [Hl Hw]. pose proof (DispatchSignal_inv now _ Hl) as Hl'. unfold alarm.
  pose proof (dispatch_spec now _ (li_sorted _ Hl)) as Hd. unfold DispatchSignal in *.
  destruct (dispatch now (timer_set (lathe e))) as [[s fired] next]. destruct Hd as (Hf & Hs & _).
  cbn [triggered] in *. rewrite drop_app_length.
  assert (Hin : forall t, t ∈ fired -> t ∈ timer_set (lathe e) /\ timeouted t = false /\ time_when_trigger t <= now).
  { intros t Ht. subst fired. apply list_elem_of_filter in Ht as [[? ?] ?]. done. }
  destruct (run_handlers_flags fired (frames e)) as (fs' & E & Hlen & Hkeep & Hback).
  { subst fired. eapply sublist_NoDup; [exact (li_ids _ Hl)|]. apply fmap_sublist, sublist_filter. }
  { intros t Ht. destruct (Hin t Ht) as (? & ? & _). by apply Hw. }
  rewrite E, outcome_bind_ret. eexists. split; [done|]. split_and!; [|done|done|done].
  split; [done|]. cbn [lathe timer_set frames]. intros t Ht Hno. subst s. apply list_elem_of_fmap in Ht as (t0 & -> & Ht0).
  destruct (decide (time_when_trigger t0 <= now)) as [|Hlate]; [done|]. apply Hkeep; [by apply Hw|].
  intros t' Ht' Hid. cbn in Hid. injection Hid as Hid. destruct (Hin t' Ht') as (Ht'' & _ & Hdue).
  apply list_elem_of_lookup in Ht0 as [i Hi]. apply list_elem_of_lookup in Ht'' as [j Hj].
  assert (i = j) as ->; [|rewrite Hi in Hj; injection Hj as ->; lia].
  eapply (NoDup_lookup _ i j (alarm_id t0) (li_ids _ Hl)); rewrite list_lookup_fmap; [by rewrite Hi|rewrite Hj; cbn; by rewrite Hid].
Qed.

Lemma enter_inv timeout now now' e : xinv e -> 0 <= next_sequence (lathe e) < 2 ^ 64 - 1 ->
  xinv (DoExecute_enter timeout now now' e) /\
  next_sequence (lathe e) <= next_sequence (lathe (DoExecute_enter timeout now now' e)) <= next_sequence (lathe e) + 1.
Proof.
  intros [Hl Hw] Hseq. unfold DoExecute_enter. destruct (timeout =? 0).
  { split; [|cbn; lia]. split; [done|]. cbn. intros t Ht Hno. by apply lookup_app_l_Some, Hw. }
  pose proof (create_timer_inv now now' (u64 timeout) (length (frames e)) _ Hl Hseq) as [Hl' Hn].
  unfold create_timer in *. cbn [fst snd lathe next_sequence] in *. split; [|lia]. split; [done|]. cbn [lathe timer_set frames].
  intros t Ht Hno. rewrite set_insert_perm in Ht. apply elem_of_cons in Ht as [->|Ht].
  - cbn. by rewrite list_lookup_middle.
  - apply lookup_app_l_Some, Hw; [|done]. destruct (drop_timeouted_suffix (timer_set (lathe e))) as (p & Hp & _).
    rewrite Hp. apply elem_of_app. by right.
Qed.

(** Popping the innermost frame, when no timer that can fire belongs to it. *)
Lemma pop_inv fs f l : lathe_inv l ->
  (forall t, t ∈ timer_set l -> timeouted t = false -> (fs ++ [f]) !! alarm_context t = Some (mkFrame (Some (alarm_id t)) false)) ->
  (forall t, t ∈ timer_set l -> timeouted t = false -> f <> mkFrame (Some (alarm_id t)) false) ->
  xinv (mkExecutions fs l).
Proof.
  intros Hl Hw Hf. split; [done|]. cbn. intros t Ht Hno. specialize (Hw t Ht Hno).
  apply lookup_snoc_Some in Hw as [[_ H]|[_ H]]; [done|]. by destruct (Hf t Ht Hno).
Qed.

Lemma removelast_snoc {A} (l : list A) x : removelast (l ++ [x]) = l.
Proof. apply removelast_last. Qed.

Lemma erase_id_gone id s t : NoDup (alarm_id <$> s) -> t ∈ erase_id id s -> alarm_id t <> id.
Proof.
  induction s as [|x s IH]; intros Hnd Ht; [by apply elem_of_nil in Ht|]. rewrite fmap_cons in Hnd.
  apply NoDup_cons in Hnd as [Hx Hnd]. cbn [erase_id] in Ht. destruct (Z.eqb_spec (alarm_id x) id) as [<-|Hne].
  - intros Heq. apply Hx, list_elem_of_fmap. by exists t.
  - apply elem_of_cons in Ht as [->|Ht]; [done|]. by apply IH.
Qed.

Lemma leave_inv late now e : xinv e -> exists b e', DoExecute_leave late now e = Ret (b, e') /\ xinv e' /\
  next_sequence (lathe e') = next_sequence (lathe e).
Proof.
  intros Hx. unfold DoExecute_leave. destruct (frames e) as [|f0 fs0 _] eqn:Ef using rev_ind; [by exists false, e|].
  rewrite last_snoc. rename fs0 into fs. destruct f0 as [id flag]. cbn [timer_id timeout_flag].
  pose proof (xi_lathe e Hx) as Hl. pose proof (xi_waits e Hx) as Hw. rewrite Ef in Hw.
  destruct id as [id|].
  2:{ eexists _, _. rewrite removelast_snoc. split; [done|]. split; [|done]. by eapply pop_inv. }
  destruct flag.
  { eexists _, _. rewrite removelast_snoc. split; [done|]. split; [|done]. by eapply pop_inv. }
  assert (He : exists e1, match late with Some t => alarm t e | None => Ret e end = Ret e1 /\ xinv e1 /\
    next_sequence (lathe e1) = next_sequence (lathe e) /\ exists fs1 b, frames e1 = fs1 ++ [mkFrame (Some id) b]).
  { destruct late as [t|].
    - destruct (alarm_inv t e Hx) as (e1 & E & H1 & Hlen & Hn & Hback). exists e1. split_and!; [done..|].
      destruct (frames e1) as [|f1 fs1 _] eqn:Ef1 using rev_ind; [rewrite Ef, length_app in Hlen; cbn in Hlen; lia|].
      exists fs1. destruct (Hback (length fs1) f1) as [b Hb]; [by rewrite list_lookup_middle|].
      rewrite Ef in Hlen, Hb. rewrite !length_app in Hlen. cbn in Hlen. rewrite lookup_app_r in Hb by lia.
      replace (length fs1 - length fs)%nat with 0%nat in Hb by lia. cbn in Hb. injection Hb as Hb _.
      exists (timeout_flag f1). f_equal. f_equal. destruct f1. cbn in *. by rewrite Hb.
    - exists e. split_and!; eauto. }
  destruct He as (e1 & -> & H1 & Hn & fs1 & b & Ef1). rewrite outcome_bind_ret. eexists _, _. split; [done|].
  rewrite Ef1, removelast_snoc. split; [|done]. destruct H1 as [Hl1 Hw1]. rewrite Ef1 in Hw1.
  pose proof (erase_id_sublist id (timer_set (lathe e1))) as Hsub.
  eapply pop_inv with (f := mkFrame (Some id) b); unfold close; cbn [timer_set].
  - by apply lathe_inv_sublist.
  - intros t Ht Hno. apply Hw1; [|done]. by eapply elem_of_sublist.
  - intros t Ht _ [= Heq _]. by apply (erase_id_gone _ _ _ (li_ids _ Hl1) Ht).
Qed.

Lemma xrun_inv l : forall e, xinv e -> 0 <= next_sequence (lathe e) -> next_sequence (lathe e) + Z.of_nat (length l) < 2 ^ 64 ->
  exists e', xrun e l = Ret e' /\ xinv e'.
Proof.
  induction l as [|x l IH]; intros e He H0 Hlen; [by exists e|]. cbn [xrun length] in *.
  assert (Hs : exists e1, xstep e x = Ret e1 /\ xinv e1 /\ next_sequence (lathe e) <= next_sequence (lathe e1) <= next_sequence (lathe e) + 1).
  { destruct x as [timeout now now'|now|late now]; cbn [xstep].
    - eexists. split; [done|]. apply enter_inv; [done|lia].
    - destruct (alarm_inv now e He) as (e1 & E & H1 & _ & Hn & _). exists e1. split_and!; [done..|lia|lia].
    - destruct (leave_inv late now e He) as (b & e1 & E & H1 & Hn). exists e1. rewrite E, outcome_bind_ret. split_and!; [done..|lia|lia]. }
  destruct Hs as (e1 & -> & H1 & Hn). rewrite outcome_bind_ret. apply IH; [done|lia|lia].
Qed.

(** C28 When the thread that executes scripts is the one that handles its signals, an alarm never
    writes to a frame that has returned: however executions nest, with and without timeouts,
    whenever signals arrive (never while a timer is created or closed, since that thread then
    blocks them), also between the test of the flag and the closing of the timer, and although
    addresses of frames are used again, every handler finds the frame of its own execution on
    the stack.  A signal that another thread handles is [alarm_on_other_thread_faults]. *)
Theorem alarms_find_their_frames (l : list XEvent) : Z.of_nat (length l) < 2 ^ 64 ->
  exists e, xrun no_executions l = Ret e /\
    forall t, t ∈ timer_set (lathe e) -> timeouted t = false ->
      frames e !! alarm_context t = Some (mkFrame (Some (alarm_id t)) false).
Proof.
  intros Hl. destruct (xrun_inv l no_executions) as (e & E & [_ Hw]); [|cbn; lia|cbn; lia|by exists e].
  split; [apply lathe_init_inv|]. cbn. by intros t Ht%elem_of_nil.
Qed.

(** Blocking the signal blocks it in the calling thread only: a handler that another thread runs
    finds a timer due, the execution ends by itself, closes its timer and returns, and then the
    handler writes to its frame. *)
Definition other_thread_entered : Executions := DoExecute_enter 5 0 0 no_executions.
Definition other_thread_left : Executions :=
  match DoExecute_leave None 5000001 other_thread_entered with Ret (_, e) => e | Fault _ => no_executions end.

Theorem alarm_on_other_thread_faults :
  DoExecute_leave None 5000001 other_thread_entered = Ret (false, other_thread_left) /\
  run_handlers (frames other_thread_left) (triggered (DispatchSignal 5000000 (lathe other_thread_entered))) =
    Fault UseAfterFree.
Proof. split; vm_compute; reflexivity. Qed.

(** * The global object of a context *)

(** Values are their identities; zero is [undefined]. *)
Definition value := nat.
Definition undefined : value := 0%nat.

Inductive Slot := Data (v : value) (writable : bool) | Accessor (get set : value).
Record Property := mkProperty { slot : Slot; enumerable : bool; configurable : bool }.

(** An object: its own properties and those it inherits. *)
Record Object_ := mkObj { own : gmap bytes Property; inherited : gmap bytes Property }.

(** A descriptor: each field may be missing. *)
Record PropertyDescriptor := mkDesc {
  d_value : option value; d_writable : option bool; d_get : option value; d_set : option value;
  d_enumerable : option bool; d_configurable : option bool }.

(** [GetRealNamedProperty], [GetRealNamedPropertyAttributes]: what is found, interceptors apart. *)
Definition real (o : Object_) (p : bytes) : option Property :=
  match own o !! p with Some q => Some q | None => inherited o !! p end.

Definition read_only (q : option Property) : bool :=
  match q with Some (mkProperty (Data _ w) _ _) => negb w | _ => false end.

Section context.
(** Calling an accessor. *)
Context (call : value -> value).

Definition get_slot (s : Slot) : value := match s with Data v _ => v | Accessor g _ => call g end.

(** [[Set]] of an ordinary object; a setter does what it does elsewhere. *)
Definition ordinary_set (o : Object_) (p : bytes) (v : value) : Object_ :=
  match own o !! p with
  | Some (mkProperty (Data _ true) e c) => mkObj (<[p := mkProperty (Data v true) e c]> (own o)) (inherited o)
  | Some _ => o
  | None =>
      match inherited o !! p with
      | Some (mkProperty (Data _ false) _ _) | Some (mkProperty (Accessor _ _) _ _) => o
      | _ => mkObj (<[p := mkProperty (Data v true) true true]> (own o)) (inherited o)
      end
  end.

(** [[Delete]]: whether it succeeded. *)
Definition ordinary_delete (o : Object_) (p : bytes) : bool * Object_ :=
  match own o !! p with
  | None => (true, o)
  | Some q => if configurable q then (true, mkObj (delete p (own o)) (inherited o)) else (false, o)
  end.

Definition is_accessor_desc (d : PropertyDescriptor) : bool :=
  bool_decide (is_Some (d_get d)) || bool_decide (is_Some (d_set d)).
Definition is_data_desc (d : PropertyDescriptor) : bool :=
  bool_decide (is_Some (d_value d)) || bool_decide (is_Some (d_writable d)).

(** The slot a descriptor leaves where there was one. *)
Definition merge_slot (old : Slot) (d : PropertyDescriptor) : Slot :=
  if is_accessor_desc d then
    match old with
    | Accessor g s => Accessor (default g (d_get d)) (default s (d_set d))
    | Data _ _ => Accessor (default undefined (d_get d)) (default undefined (d_set d))
    end
  else if is_data_desc d then
    match old with
    | Data v w => Data (default v (d_value d)) (default w (d_writable d))
    | Accessor _ _ => Data (default undefined (d_value d)) (default false (d_writable d))
    end
  else old.

(** Whether a property that is not configurable allows it. *)
Definition compatible (q : Property) (d : PropertyDescriptor) : bool :=
  negb (default false (d_configurable d)) && bool_decide (default (enumerable q) (d_enumerable d) = enumerable q) &&
  match slot q with
  | Data v true => negb (is_accessor_desc d)
  | Data v false =>
      negb (is_accessor_desc d) && bool_decide (default v (d_value d) = v) && negb (default false (d_writable d))
  | Accessor g s =>
      negb (is_data_desc d) && bool_decide (default g (d_get d) = g) && bool_decide (default s (d_set d) = s)
  end.

(** [[DefineOwnProperty]] of an ordinary object. *)
Definition DefineProperty (o : Object_) (p : bytes) (d : PropertyDescriptor) : Object_ :=
  let put q := mkObj (<[p := q]> (own o)) (inherited o) in
  match own o !! p with
  | None =>
      put (mkProperty (merge_slot (Data undefined false) d) (default false (d_enumerable d)) (default false (d_configurable d)))
  | Some q =>
      if (configurable q || compatible q d)%bool then
        put (mkProperty (merge_slot (slot q) d) (default (enumerable q) (d_enumerable d))
               (default (configurable q) (d_configurable d)))
      else o
  end.

(** The two objects of a context; [sandbox_id] and [global_id] are their identities. *)
Record Ctx := mkCtx { sandbox : Object_; global : Object_ }.
Context (sandbox_id global_id : value).

(** A value that is the sandbox is shown as the global object. *)
Definition shown (v : value) : value := if decide (v = sandbox_id) then global_id else v.

(** [src/src/contextify/context.cc 110-130, ContextWrap::GlobalPropertyGetterCallback] [None] is
    no answer. *)
Definition GlobalPropertyGetterCallback (c : Ctx) (p : bytes) : option value :=
  let maybe_rv :=
    match real (sandbox c) p with
    | Some q => Some (get_slot (slot q))
    | None => (fun q => get_slot (slot q)) <$> real (global c) p
    end in
  shown <$> maybe_rv.

(** [src/src/contextify/context.cc 132-188, ContextWrap::GlobalPropertySetterCallback] The
    context afterwards, and whether V8 is kept from storing on the global object. *)
Definition GlobalPropertySetterCallback (c : Ctx) (p : bytes) (v : value)
    (is_contextual_store should_throw is_function : bool) : Ctx * bool :=
  let is_declared_on_global_proxy := bool_decide (is_Some (real (global c) p)) in
  let is_declared_on_sandbox := bool_decide (is_Some (real (sandbox c) p)) in
  if (read_only (real (global c) p) || read_only (real (sandbox c) p))%bool then (c, false)
  else
    let is_declared := is_declared_on_global_proxy || is_declared_on_sandbox in
    if (negb is_declared && should_throw && is_contextual_store && negb is_function)%bool then (c, false)
    else
      let intercepted :=
        (negb is_declared_on_global_proxy && is_declared_on_sandbox && should_throw && is_contextual_store && negb is_function)%bool in
      (mkCtx (ordinary_set (sandbox c) p v) (global c), intercepted).

(** [src/src/contextify/context.cc 190-203, ContextWrap::GlobalPropertyDescriptorCallback] *)
Definition GlobalPropertyDescriptorCallback (c : Ctx) (p : bytes) : option Property := own (sandbox c) !! p.

(** [src/src/contextify/context.cc 228-256, ContextWrap::GlobalPropertyDefinerCallback] The
    descriptor for the sandbox. *)
Definition desc_for_sandbox (d : PropertyDescriptor) : PropertyDescriptor :=
  if is_accessor_desc d then
    mkDesc None None (Some (default undefined (d_get d))) (Some (default undefined (d_set d))) (d_enumerable d) (d_configurable d)
  else mkDesc (Some (default undefined (d_value d))) (d_writable d) None None (d_enumerable d) (d_configurable d).

(** [src/src/contextify/context.cc 205-257, ContextWrap::GlobalPropertyDefinerCallback] *)
Definition GlobalPropertyDefinerCallback (c : Ctx) (p : bytes) (d : PropertyDescriptor) : Ctx :=
  if read_only (real (global c) p) then c
  else mkCtx (DefineProperty (sandbox c) p (desc_for_sandbox d)) (global c).

(** [src/src/contextify/context.cc 278-289, ContextWrap::GlobalPropertyDeleterCallback] *)
Definition GlobalPropertyDeleterCallback (c : Ctx) (p : bytes) : Ctx * bool :=
  let '(success, o) := ordinary_delete (sandbox c) p in (mkCtx o (global c), negb success).

(** [src/src/contextify/context.cc 291-299, ContextWrap::GlobalPropertyEnumeratorCallback] The
    enumerable names, inherited ones included unless an own property hides them. *)
Definition GlobalPropertyEnumeratorCallback (c : Ctx) : gset bytes :=
  dom (filter (fun q => enumerable q.2) (own (sandbox c) ∪ inherited (sandbox c))).

(** ** What a script sees *)

Lemma ordinary_set_real o p v :
  read_only (real o p) = false -> (forall q g s, real o p = Some q -> slot q <> Accessor g s) ->
  (exists e c, real (ordinary_set o p v) p = Some (mkProperty (Data v true) e c)) /\
  forall q, q <> p -> real (ordinary_set o p v) q = real o q.
Proof.
  intros Hro Hacc. unfold ordinary_set, real in *. destruct (own o !! p) as [[[v0 w|g s] e c]|] eqn:Eo.
  - destruct w; [|done]. cbn. rewrite lookup_insert_eq. split; [by eauto|]. intros q Hq. by rewrite lookup_insert_ne.
  - by destruct (Hacc _ g s eq_refl).
  - destruct (inherited o !! p) as [[[v0 w|g s] e c]|] eqn:Ei.
    + destruct w; [|done]. cbn. rewrite lookup_insert_eq. split; [by eauto|]. intros q Hq. by rewrite lookup_insert_ne.
    + by destruct (Hacc _ g s eq_refl).
    + cbn. rewrite lookup_insert_eq. split; [by eauto|]. intros q Hq. by rewrite lookup_insert_ne.
Qed.

(** What a script stores it reads back: storing under a name either changes nothing, when the
    property is read-only on one of the two objects, or when strict code assigns to a name
    that nobody declared, or puts the value into the sandbox; then the name reads as the
    value, or as the global object for the sandbox itself, whatever V8 does with the global
    object afterwards, and no other name reads differently. *)
Theorem stores_are_read_back (c : Ctx) (p : bytes) (v : value) (contextual strict is_function : bool) :
  (forall q g s, real (sandbox c) p = Some q -> slot q <> Accessor g s) ->
  let '(c', _) := GlobalPropertySetterCallback c p v contextual strict is_function in
  if (read_only (real (global c) p) || read_only (real (sandbox c) p) ||
      (negb (bool_decide (is_Some (real (global c) p)) || bool_decide (is_Some (real (sandbox c) p))) &&
       strict && contextual && negb is_function))%bool
  then c' = c
  else
    (forall g, GlobalPropertyGetterCallback (mkCtx (sandbox c') g) p = Some (shown v)) /\
    (forall q, q <> p -> GlobalPropertyGetterCallback c' q = GlobalPropertyGetterCallback c q).
Proof.
  intros Hacc. unfold GlobalPropertySetterCallback.
  destruct (read_only (real (global c) p) || read_only (real (sandbox c) p))%bool eqn:Hro; [done|]. cbn [orb].
  destruct (negb _ && strict && contextual && negb is_function)%bool; [done|].
  apply orb_false_elim in Hro as [_ Hro]. destruct (ordinary_set_real (sandbox c) p v Hro Hacc) as [(e & b & E) Hne].
  unfold GlobalPropertyGetterCallback. cbn [sandbox global]. split.
  - intros g. by rewrite E.
  - intros q Hq. by rewrite (Hne q Hq).
Qed.

(** A store in strict code to a name of the sandbox alone is kept from the global object, where
    it would be an error; all other stores go on to it. *)
Theorem strict_sandbox_store_intercepted (c : Ctx) (p : bytes) (v : value) :
  read_only (real (sandbox c) p) = false -> is_Some (real (sandbox c) p) -> real (global c) p = None ->
  (GlobalPropertySetterCallback c p v true true false).2 = true /\
  (forall contextual strict f, (contextual && strict && negb f)%bool = false ->
    (GlobalPropertySetterCallback c p v contextual strict f).2 = false).
Proof.
  intros Hro Hs Hg. unfold GlobalPropertySetterCallback. rewrite Hg, Hro. cbn [read_only orb].
  rewrite (bool_decide_true _ Hs), bool_decide_false by (intros [? ?]; done). cbn. split; [done|].
  intros contextual strict f. by destruct contextual, strict, f.
Qed.

(** A descriptor with neither a value nor accessors, such as one that hides a name from
    enumeration, overwrites the value with [undefined]. *)
Theorem generic_descriptor_loses_value (c : Ctx) (p : bytes) (v : value) (w e : bool) (e' : option bool) :
  own (sandbox c) !! p = Some (mkProperty (Data v w) e true) -> read_only (real (global c) p) = false ->
  own (sandbox (GlobalPropertyDefinerCallback c p (mkDesc None None None None e' None))) !! p =
    Some (mkProperty (Data undefined w) (default e e') true).
Proof.
  intros Ho Hg. unfold GlobalPropertyDefinerCallback. rewrite Hg. unfold DefineProperty. cbn [sandbox]. rewrite Ho.
  cbn. by rewrite lookup_insert_eq.
Qed.

(** A value that is defined is the value that is read, when the sandbox lets it be defined. *)
Theorem definitions_are_read_back (c : Ctx) (p : bytes) (v : value) (w : option bool) (e b : option bool) :
  read_only (real (global c) p) = false ->
  (forall q, own (sandbox c) !! p = Some q -> configurable q = true) ->
  GlobalPropertyGetterCallback (GlobalPropertyDefinerCallback c p (mkDesc (Some v) w None None e b)) p = Some (shown v).
Proof.
  intros Hg Hc. unfold GlobalPropertyDefinerCallback, GlobalPropertyGetterCallback. rewrite Hg. cbn [sandbox global].
  unfold DefineProperty, real. destruct (own (sandbox c) !! p) as [q|] eqn:E.
  - rewrite (Hc q eq_refl). cbn [orb own]. rewrite lookup_insert_eq. cbn. by destruct (slot q).
  - cbn [own]. by rewrite lookup_insert_eq.
Qed.

(** Deleting: a name of the sandbox that cannot be deleted is kept from the global object as
    well; otherwise the sandbox has it no more. *)
Theorem delete_answers (c : Ctx) (p : bytes) :
  let '(c', intercepted) := GlobalPropertyDeleterCallback c p in
  if intercepted then c' = c /\ exists q, own (sandbox c) !! p = Some q /\ configurable q = false
  else own (sandbox c') !! p = None /\ global c' = global c.
Proof.
  unfold GlobalPropertyDeleterCallback, ordinary_delete. destruct (own (sandbox c) !! p) as [q|] eqn:E.
  - destruct (configurable q) eqn:Eq; cbn; [by rewrite lookup_delete_eq|]. split; [by destruct c|eauto].
  - cbn. done.
Qed.
End context.

(** * Scripts *)

(** A view of a buffer. *)
Record View := mkView { buffer : bytes; byte_offset : nat; byte_length : nat }.

Definition view_bytes (v : View) : bytes := take (byte_length v) (drop (byte_offset v) (buffer v)).

(** [src/src/contextify/script.cc 63-77, ScriptWrap::New] What V8 is given as the cache. *)
Definition cached_data (v : View) : bytes := buffer v.

(** [src/src/contextify/script.cc 41-99, ScriptWrap::New] [compiles] is V8's answer for the
    cache it gets, [None] for an exception, otherwise whether it rejected the cache; the result
    is whether the cache was consumed. *)
Definition ScriptWrap_New (cache : option View) (compiles : option bytes -> option bool) : option bool :=
  match cache with
  | None => (fun _ => false) <$> compiles None
  | Some v => negb <$> compiles (Some (cached_data v))
  end.

(** [src/src/contextify/script.cc 101-125, ScriptWrap::CreateCachedData] [None] when V8 makes no
    cache of the script: its length is read all the same. *)
Definition CreateCachedData (cache : option bytes) : outcome View :=
  match cache with
  | None => Fault NullDeref
  | Some c => Ret (mkView c 0 (length c))
  end.

(** The cache of a script, handed back as it was created, is what V8 gets; a view of a part of a
    buffer is not: V8 gets the whole buffer. *)
Theorem cache_handed_back (c : bytes) :
  exists v, CreateCachedData (Some c) = Ret v /\ cached_data v = c /\ view_bytes v = c.
Proof. eexists. split; [done|]. split; [done|]. unfold view_bytes. cbn. by rewrite drop_0, take_ge. Qed.

Theorem part_of_buffer_ignored (v : View) :
  (byte_offset v + byte_length v <= length (buffer v))%nat ->
  cached_data v = view_bytes v <-> byte_offset v = 0%nat /\ byte_length v = length (buffer v) \/ buffer v = [].
Proof.
  destruct v as [b off n]. unfold view_bytes, cached_data. cbn. intros Hfit. split.
  - intros E. apply (f_equal length) in E. rewrite length_take, length_drop in E. destruct b; [by right|]. left. cbn in *. lia.
  - intros [[-> ->]| ->]; [by rewrite drop_0, take_ge|]. by rewrite drop_nil, take_nil.
Qed.

(** * Modules *)

(** The state of a promise: once it is settled, with the wrap behind the object it was fulfilled
    with, if there is one. *)
Inductive promise := Pending | Rejected | Fulfilled (wrap : option nat).

(** [src/src/module_wrap.h 58-60, ModuleWrap] Wraps, V8's modules and its promises are numbers;
    the cache has references to promises. *)
Record ModuleWrap := mkWrap { _module : nat; _resolve_cache : gmap bytes nat; _linked : bool }.

(** [promises] is V8's: the promises and their states. *)
Record Modules := mkModules {
  wraps : gmap nat ModuleWrap; hash_to_module_map : gmap Z nat; promises : gmap nat promise }.

Definition no_modules : Modules := mkModules ∅ ∅ ∅.

Section modules.
(** [v8::Module::GetIdentityHash] *)
Context (GetIdentityHash : nat -> Z).

(** [src/src/module_wrap.cc 90-97, ModuleWrap::GetFromModule] *)
Definition GetFromModule (s : Modules) (m : nat) : option nat := hash_to_module_map s !! GetIdentityHash m.

(** [src/src/module_wrap.cc 99-106, ModuleWrap::ModuleWrap] *)
Definition new_wrap (s : Modules) (w m : nat) : Modules :=
  mkModules (<[w := mkWrap m ∅ false]> (wraps s)) (<[GetIdentityHash m := w]> (hash_to_module_map s))
    (promises s).

(** [src/src/module_wrap.cc 116-150, ModuleWrap::New] [m] is [None] when the code does not
    compile: the object then has no native part. *)
Definition ModuleWrap_New (s : Modules) (w : nat) (m : option nat) : Modules :=
  match m with None => s | Some m => new_wrap s w m end.

(** [src/src/module_wrap.cc 108-114, ModuleWrap::~ModuleWrap] *)
Definition delete_wrap (s : Modules) (w : nat) : Modules :=
  match wraps s !! w with
  | None => s
  | Some x => mkModules (delete w (wraps s)) (delete (GetIdentityHash (_module x)) (hash_to_module_map s))
                (promises s)
  end.

(** What the resolver answered: nothing, when it threw, something else than a promise, or one. *)
Inductive answer := AThrew | ANoPromise | APromise (p : nat).

(** [src/src/module_wrap.cc 166-182, ModuleWrap::Link] The requests of a module with the answers.
    The promise is kept, in whatever state it is; the specifier is cut at its first NUL. *)
Fixpoint link_requests (cache : gmap bytes nat) (l : list (bytes * answer)) : outcome (gmap bytes nat) :=
  match l with
  | [] => Ret cache
  | (specifier, APromise p) :: l => link_requests (<[c_str specifier := p]> cache) l
  | (_, _) :: _ => Fault CheckFailed
  end.

(** [src/src/module_wrap.cc 152-187, ModuleWrap::Link] *)
Definition Link (s : Modules) (w : nat) (l : list (bytes * answer)) : outcome Modules :=
  match wraps s !! w with
  | None => Ret s
  | Some x =>
      cache ← link_requests (_resolve_cache x) l;
      Ret (mkModules (<[w := mkWrap (_module x) cache true]> (wraps s)) (hash_to_module_map s) (promises s))
  end.

(** V8 settles a promise, once. *)
Definition settle (s : Modules) (p : nat) (v : promise) : Modules :=
  match promises s !! p with
  | Some Pending => mkModules (wraps s) (hash_to_module_map s) (<[p := v]> (promises s))
  | _ => s
  end.

(** [src/src/module_wrap.cc 81-87, ModuleWrap::ResolveCallback] What a promise stands for now: the
    module of the wrap behind the object it was fulfilled with; the object of a wrap that is
    gone has none (base_object-inl.h 37). *)
Definition promised (s : Modules) (p : nat) : outcome (option nat) :=
  match promises s !! p with
  | Some (Fulfilled o) => Ret (r ← o; _module <$> wraps s !! r)
  | _ => Fault CheckFailed
  end.

(** [src/src/module_wrap.cc 64-88, ModuleWrap::ResolveCallback] The module, or nothing. *)
Definition ResolveCallback (s : Modules) (specifier : bytes) (referrer : nat) : outcome (option nat) :=
  match GetFromModule s referrer with
  | None => Fault NullDeref
  | Some w =>
      match wraps s !! w with
      | None => Fault UseAfterFree
      | Some x =>
          CHECK (_linked x) ;;
          match _resolve_cache x !! c_str specifier with
          | None => Ret None
          | Some p => promised s p
          end
      end
  end.

Fixpoint resolve_all (s : Modules) (m : nat) (requests : list bytes) : outcome (option (list nat)) :=
  match requests with
  | [] => Ret (Some [])
  | r :: requests =>
      o ← ResolveCallback s r m;
      match o with
      | None => Ret None
      | Some t => rest ← resolve_all s m requests; Ret (option_map (cons t) rest)
      end
  end.

(** [src/src/module_wrap.cc 189-201, ModuleWrap::Instantiate] V8 asks for each request of the
    module. *)
Definition Instantiate (s : Modules) (w : nat) (requests : list bytes) : outcome (option (list nat)) :=
  match wraps s !! w with
  | None => Ret None
  | Some x => resolve_all s (_module x) requests
  end.

(** [src/src/module_wrap.cc 52-62, ModuleWrap::HostInitializeImportMetaObjectCallback] The wrap
    the script's function is called with; [returns] is whether it returns. *)
Definition HostInitializeImportMetaObjectCallback (s : Modules) (m : nat) (returns : bool) : outcome nat :=
  match GetFromModule s m with
  | None => Fault NullDeref
  | Some w =>
      match wraps s !! w with
      | None => Fault UseAfterFree
      | Some _ => CHECK returns ;; Ret w
      end
  end.

(** [src/src/module_wrap.cc 29-50, ModuleWrap::HostImportModuleDynamicallyWithImportAssertionsCallback]
    The function's result: an exception, a promise, or neither. *)
Definition HostImportModuleDynamically (a : answer) : outcome (option nat) :=
  match a with AThrew => Ret None | ANoPromise => Fault CheckFailed | APromise p => Ret (Some p) end.

(** ** Resolving *)

(** Every wrap is found by the hash of its module, and every entry is that of a wrap. *)
Record modules_inv (s : Modules) : Prop := {
  mi_found : forall w x, wraps s !! w = Some x -> GetFromModule s (_module x) = Some w;
  mi_live : forall h w, hash_to_module_map s !! h = Some w -> exists x, wraps s !! w = Some x /\ GetIdentityHash (_module x) = h }.

Definition fresh_hash (s : Modules) (m : nat) : Prop :=
  forall w x, wraps s !! w = Some x -> GetIdentityHash (_module x) <> GetIdentityHash m.

Lemma new_wrap_inv s w m : modules_inv s -> wraps s !! w = None -> fresh_hash s m -> modules_inv (new_wrap s w m).
Proof.
  intros [Hf Hl] Hw Hh. unfold GetFromModule in *. split; unfold new_wrap, GetFromModule; cbn.
  - intros w' x [[<- <-]|[Hne Hx]]%lookup_insert_Some; cbn; [by rewrite lookup_insert_eq|].
    rewrite lookup_insert_ne by (intros E; by apply (Hh w' x Hx)). by apply Hf.
  - intros h w' [[<- <-]|[Hne Hx]]%lookup_insert_Some; [rewrite lookup_insert_eq; by eauto|].
    destruct (Hl h w' Hx) as (x & Hx' & E). exists x. split; [|done]. rewrite lookup_insert_ne; [done|]. by intros <-; rewrite Hw in Hx'.
Qed.

Lemma delete_wrap_inv s w : modules_inv s -> modules_inv (delete_wrap s w).
Proof.
  intros [Hf Hl]. unfold delete_wrap. destruct (wraps s !! w) as [x|] eqn:Ex; [|done]. unfold GetFromModule in *.
  pose proof (Hf w x Ex) as Hwx. split; unfold GetFromModule; cbn.
  - intros w' y [Hne Hy]%lookup_delete_Some. rewrite lookup_delete_ne; [by apply Hf|].
    intros E. pose proof (Hf w' y Hy) as H. rewrite <-E in H. congruence.
  - intros h w' [Hne Hx]%lookup_delete_Some. destruct (Hl h w' Hx) as (y & Hy & E). exists y. split; [|done].
    rewrite lookup_delete_ne; [done|]. intros <-. congruence.
Qed.

Lemma Link_inv s w l s' : modules_inv s -> Link s w l = Ret s' -> modules_inv s'.
Proof.
  intros [Hf Hl]. unfold Link. destruct (wraps s !! w) as [x|] eqn:Ex; [|by intros [= <-]].
  intros (cache & _ & [= <-])%outcome_bind_inv. unfold GetFromModule in *. split; unfold GetFromModule; cbn.
  - intros w' y [[<- <-]|[Hne Hy]]%lookup_insert_Some; cbn; by apply Hf.
  - intros h w' Hx. destruct (Hl h w' Hx) as (y & Hy & E). destruct (decide (w = w')) as [<-|Hne].
    + rewrite lookup_insert_eq. eexists. split; [done|]. cbn. congruence.
    + rewrite lookup_insert_ne by done. eauto.
Qed.

Lemma settle_inv s p v : modules_inv s -> modules_inv (settle s p v).
Proof. intros [Hf Hl]. unfold settle. by destruct (promises s !! p) as [[| |]|]. Qed.

(** The promise of the last request for a specifier. *)
Definition last_answer (specifier : bytes) (l : list (bytes * answer)) : option nat :=
  r ← last (filter (fun r => c_str r.1 = c_str specifier) l); match r.2 with APromise p => Some p | _ => None end.

Lemma link_requests_app l1 l2 : forall cache,
  link_requests cache (l1 ++ l2) = (c ← link_requests cache l1; link_requests c l2).
Proof. induction l1 as [|[k [| |p]] l1 IH]; intros cache; [done..|]. cbn. apply IH. Qed.

Lemma link_requests_last l specifier cache : link_requests ∅ l = Ret cache -> cache !! c_str specifier = last_answer specifier l.
Proof.
  revert cache. induction l as [|[k a] l IH] using rev_ind; intros cache; [by intros [= <-]|].
  rewrite link_requests_app. intros (c & Hc & Ha)%outcome_bind_inv. specialize (IH c Hc).
  destruct a as [| |p]; try done. injection Ha as <-. unfold last_answer. rewrite filter_app.
  destruct (decide (c_str k = c_str specifier)) as [E|Hne].
  - rewrite E, lookup_insert_eq, filter_cons_True, filter_nil by done. by rewrite last_snoc.
  - rewrite lookup_insert_ne by done. rewrite filter_cons_False by done. rewrite filter_nil, app_nil_r. exact IH.
Qed.

(** What happens to modules and promises. *)
Inductive MEvent :=
  | MNew (w : nat) (m : option nat) | MDelete (w : nat) | MLink (w : nat) (l : list (bytes * answer))
  | MPromise (p : nat) | MSettle (p : nat) (v : promise).

Definition mstep (s : Modules) (e : MEvent) : outcome Modules :=
  match e with
  | MNew w m => Ret (ModuleWrap_New s w m)
  | MDelete w => Ret (delete_wrap s w)
  | MLink w l => Link s w l
  | MPromise p => Ret (mkModules (wraps s) (hash_to_module_map s) (<[p := Pending]> (promises s)))
  | MSettle p v => Ret (settle s p v)
  end.

(** A new wrap and a new promise are new, and a new module has no hash of another. *)
Definition event_ok (s : Modules) (e : MEvent) : Prop :=
  match e with
  | MNew w (Some m) => wraps s !! w = None /\ fresh_hash s m
  | MPromise p => promises s !! p = None
  | _ => True
  end.

Inductive mreach : list MEvent -> Modules -> Prop :=
  | mreach_init : mreach [] no_modules
  | mreach_step es s e s' : mreach es s -> event_ok s e -> mstep s e = Ret s' -> mreach (es ++ [e]) s'.

Lemma mreach_inv es s : mreach es s -> modules_inv s.
Proof.
  induction 1 as [|es s e s' _ IH Hok Hs]; [by split|]. destruct e as [w [m|]|w|w l|p|p v]; cbn in *.
  - injection Hs as <-. destruct Hok. by apply new_wrap_inv.
  - by injection Hs as <-.
  - injection Hs as <-. by apply delete_wrap_inv.
  - by eapply Link_inv.
  - injection Hs as <-. destruct IH. by split.
  - injection Hs as <-. by apply settle_inv.
Qed.

(** The requests a wrap was linked with since it was made, if it was linked. *)
Definition linked_step (w : nat) (acc : option (list (bytes * answer))) (e : MEvent) : option (list (bytes * answer)) :=
  match e with
  | MNew w' (Some _) => if decide (w' = w) then None else acc
  | MLink w' l => if decide (w' = w) then Some (default [] acc ++ l) else acc
  | _ => acc
  end.
Definition linked_with (w : nat) (es : list MEvent) : option (list (bytes * answer)) := foldl (linked_step w) None es.

Definition cache_of (x : ModuleWrap) (o : option (list (bytes * answer))) : Prop :=
  link_requests ∅ (default [] o) = Ret (_resolve_cache x) /\ _linked x = bool_decide (is_Some o).

Lemma mreach_caches es s : mreach es s -> forall w x, wraps s !! w = Some x -> cache_of x (linked_with w es).
Proof.
  induction 1 as [|es s e s' Hr IH Hok Hs]; intros w x; [by cbn; rewrite lookup_empty|].
  unfold linked_with. rewrite foldl_app. fold (linked_with w es). cbn [foldl].
  destruct e as [w' [m|]|w'|w' l|p|p v]; cbn in *.
  - injection Hs as <-. cbn. destruct (decide (w' = w)) as [->|Hne].
    + rewrite lookup_insert_eq. by intros [= <-].
    + rewrite lookup_insert_ne by done. apply IH.
  - injection Hs as <-. apply IH.
  - injection Hs as <-. unfold delete_wrap. destruct (wraps s !! w') as [y|] eqn:Ey; [|apply IH]. cbn.
    intros [_ Hx]%lookup_delete_Some. by apply IH.
  - unfold Link in Hs. destruct (wraps s !! w') as [y|] eqn:Ey.
    + apply outcome_bind_inv in Hs as (c & Hc & [= <-]). cbn. destruct (decide (w' = w)) as [->|Hne].
      * rewrite lookup_insert_eq. intros [= <-]. destruct (IH w y Ey) as [H1 _]. split; cbn; [|done].
        rewrite link_requests_app, H1. exact Hc.
      * rewrite lookup_insert_ne by done. apply IH.
    + injection Hs as <-. intros Hx. rewrite decide_False by congruence. by apply IH.
  - injection Hs as <-. apply IH.
  - injection Hs as <-. unfold settle. destruct (promises s !! p) as [[| |]|]; apply IH.
Qed.

(** C29 A module resolves to what it was linked with: over every history of wraps made, deleted
    and linked, once or again, and of promises made and settled, before or after a module was
    linked with them, in which no two modules that exist at one time have the same hash, V8
    asking a module for a specifier (up to its first NUL) gets what the promise of the last
    request for it stands for now: the module of the wrap it has been fulfilled with, or
    nothing when that is no module's.  It gets nothing for a specifier that was never
    requested; a promise that is not fulfilled yet, and a module never linked, fail a check. *)
Theorem modules_resolve_as_linked (es : list MEvent) (s : Modules) (w : nat) (x : ModuleWrap) (specifier : bytes) :
  mreach es s -> wraps s !! w = Some x ->
  ResolveCallback s specifier (_module x) =
  match linked_with w es with
  | None => Fault CheckFailed
  | Some l =>
      match last_answer specifier l with
      | None => Ret None
      | Some p =>
          match promises s !! p with
          | Some (Fulfilled o) => Ret (r ← o; _module <$> wraps s !! r)
          | _ => Fault CheckFailed
          end
      end
  end.
Proof.
  intros Hr Hw. pose proof (mi_found _ (mreach_inv es s Hr) w x Hw) as Hf. destruct (mreach_caches es s Hr w x Hw) as [Hc Hl].
  unfold ResolveCallback. rewrite Hf, Hw, Hl. destruct (linked_with w es) as [l|]; [|done]. cbn.
  by rewrite (link_requests_last l specifier _ Hc).
Qed.

(** Two modules with one hash: the second takes the place of the first, so that the first
    resolves what the second was linked with. *)
Theorem same_hash_resolves_wrong (w1 w2 m1 m2 p : nat) (specifier : bytes) : w1 <> w2 ->
  GetIdentityHash m1 = GetIdentityHash m2 ->
  exists s0 s, mstep (new_wrap (new_wrap no_modules w1 m1) w2 m2) (MPromise p) = Ret s0 /\
    Link (settle s0 p (Fulfilled (Some w2))) w2 [(specifier, APromise p)] = Ret s /\
    ResolveCallback s specifier m1 = Ret (Some m2) /\
    GetFromModule (delete_wrap s w1) m2 = None.
Proof.
  intros Hne Hh. eexists _, _. split; [reflexivity|]. unfold settle. cbn [promises]. rewrite lookup_insert_eq.
  unfold Link, new_wrap. cbn [wraps]. rewrite lookup_insert_eq. cbn. split; [done|].
  unfold ResolveCallback, GetFromModule. cbn [hash_to_module_map wraps]. rewrite Hh, lookup_insert_eq, lookup_insert_eq. cbn.
  rewrite lookup_insert_eq. unfold promised. cbn. rewrite lookup_insert_eq. cbn. rewrite lookup_insert_eq. split; [done|].
  unfold delete_wrap. cbn [wraps].
  rewrite !lookup_insert_ne, lookup_insert_eq by done. cbn [hash_to_module_map _module]. rewrite Hh. by rewrite lookup_delete_eq.
Qed.

(** A module that is not linked, or whose wrap is gone, ends the process when V8 asks. *)
Theorem unlinked_resolve_faults (es : list MEvent) (s : Modules) (specifier : bytes) (m : nat) : mreach es s ->
  match GetFromModule s m with
  | None => ResolveCallback s specifier m = Fault NullDeref
  | Some w => exists x, wraps s !! w = Some x /\ (_linked x = false -> ResolveCallback s specifier m = Fault CheckFailed)
  end.
Proof.
  intros Hr. unfold ResolveCallback. destruct (GetFromModule s m) as [w|] eqn:E; [|done].
  destruct (mi_live _ (mreach_inv es s Hr) _ _ E) as (x & Hx & _). exists x. split; [done|]. intros Hl. rewrite Hx, Hl. done.
Qed.
End modules.

(** * Examples *)

(** Two nested executions; the outer timer fires in the inner one, which ends by itself while a
    signal comes late. *)
Definition example_executions : list XEvent :=
  [XEnter 5 0 0; XEnter 50 1 1; XAlarm 6000000; XLeave (Some 60000000) 60000001; XLeave None 60000002; XEnter 1 60000003 60000003].

Lemma alarms_find_their_frames_witness :
  exists e, xrun no_executions example_executions = Ret e /\
    forall t, t ∈ timer_set (lathe e) -> timeouted t = false ->
      frames e !! alarm_context t = Some (mkFrame (Some (alarm_id t)) false).
Proof. apply (alarms_find_their_frames example_executions). vm_compute. done. Defined.

Definition example_ctx : Ctx :=
  mkCtx (mkObj {[ [x61] := mkProperty (Data 5%nat true) true true ]} ∅)
        (mkObj {[ [x62] := mkProperty (Data 6%nat false) true true ]} ∅).

Lemma stores_are_read_back_witness :
  (forall g, GlobalPropertyGetterCallback (fun v => v) 1%nat 2%nat
     (mkCtx (sandbox (GlobalPropertySetterCallback example_ctx [x61] 9%nat true true false).1) g) [x61] = Some 9%nat) /\
  (GlobalPropertySetterCallback example_ctx [x62] 9%nat false false false).1 = example_ctx.
Proof.
  split.
  - intros g.
    pose proof (stores_are_read_back (fun v => v) 1%nat 2%nat example_ctx [x61] 9%nat true true false) as H.
    apply H. intros q a b E. vm_compute in E. injection E as <-. done.
  - pose proof (stores_are_read_back (fun v => v) 1%nat 2%nat example_ctx [x62] 9%nat false false false) as H.
    apply H. intros q a b E. vm_compute in E. done.
Defined.

(** Two modules; the first is linked, with a specifier that has a NUL, before the promise of its
    last request is fulfilled. *)
Definition example_history : list MEvent :=
  [MNew 1%nat (Some 10%nat); MNew 2%nat (Some 20%nat); MPromise 5%nat; MPromise 6%nat;
   MLink 1%nat [([x61], APromise 5%nat); ([x61; x00; x62], APromise 6%nat)]; MSettle 6%nat (Fulfilled (Some 2%nat))].

Definition run_modules (es : list MEvent) : Modules :=
  foldl (fun s e => match mstep Z.of_nat s e with Ret s' => s' | Fault _ => s end) no_modules es.

Lemma example_modules_reach : mreach Z.of_nat example_history (run_modules example_history).
Proof.
  assert (H : forall es e, mreach Z.of_nat es (run_modules es) -> event_ok Z.of_nat (run_modules es) e ->
    mstep Z.of_nat (run_modules es) e = Ret (run_modules (es ++ [e])) -> mreach Z.of_nat (es ++ [e]) (run_modules (es ++ [e]))).
  { intros es e Hr Hok Hs. by eapply mreach_step. }
  assert (H1 := H [] (MNew 1%nat (Some 10%nat)) (mreach_init _)). cbn [app] in H1.
  assert (H2 := H _ (MNew 2%nat (Some 20%nat)) (H1 ltac:(by split) eq_refl)). cbn [app] in H2.
  assert (H3 := H _ (MPromise 5%nat) (H2 ltac:(split; [done|]; intros w x E; cbn in E;
    apply lookup_insert_Some in E as [[<- <-]|[_ E]]; cbn; [lia|by rewrite lookup_empty in E]) eq_refl)). cbn [app] in H3.
  assert (H4 := H _ (MPromise 6%nat) (H3 eq_refl eq_refl)). cbn [app] in H4.
  assert (H5 := H _ (MLink 1%nat [([x61], APromise 5%nat); ([x61; x00; x62], APromise 6%nat)]) (H4 eq_refl eq_refl)). cbn [app] in H5.
  exact (H _ (MSettle 6%nat (Fulfilled (Some 2%nat))) (H5 I eq_refl) I eq_refl).
Qed.

Lemma modules_resolve_as_linked_witness :
  ResolveCallback Z.of_nat (run_modules example_history) [x61] 10%nat = Ret (Some 20%nat).
Proof.
  pose proof (modules_resolve_as_linked Z.of_nat example_history (run_modules example_history) 1%nat
    (mkWrap 10%nat {[ [x61] := 6%nat ]} true) [x61] example_modules_reach) as H.
  cbn [_module] in H. rewrite H by reflexivity. reflexivity.
Defined.
