(* ===== verification/Watchdog.v ===== *)
(** src/src/watchdog.{h,cc} and src/src/loop_latency_watchdog.{h,cc}: the watchdog
    thread, and the entry that reports callbacks of the main thread that run too
    long.

    [Watchdog] is the protocol of registration: the mutex and the condition
    variable make each call of the main thread that waits return only after the
    watchdog thread has handled the request, so an operation is one step.
    [LoopLatencyWatchdog] is shared by the two threads; [lrun] interleaves their
    atomic actions, at times, in nanoseconds, that do not decrease.  The loop of the
    watchdog thread has a clock of its own, in milliseconds, which it updates now and
    then; its timers are started and run by that clock. *)

From S2P Require Import Prelude.

(** * Registration *)

Section watchdog.
(** An entry ([WatchdogEntry*]). *)
Context {E : Type}.

(** [src/src/watchdog.h 44-57, Watchdog] [running] is whether the thread runs its
    loop; the calls of [ThreadEntry] and [ThreadAtExit] are logged. *)
Record Watchdog := mkWatchdog {
  started_ : bool;
  running : bool;
  pending_entries_ : list E;
  started_entries_ : list E;
  entered : list E;
  exited : list E }.

(** [src/src/watchdog.cc 7-7, Watchdog::Watchdog] *)
Definition Watchdog_init : Watchdog := mkWatchdog false false [] [] [] [].

(** [src/src/watchdog.cc 63-71, Watchdog::StartRequest] *)
Definition StartRequest (w : Watchdog) : Watchdog :=
  mkWatchdog (started_ w) (running w) [] (started_entries_ w ++ pending_entries_ w)
    (entered w ++ pending_entries_ w) (exited w).

(** [src/src/watchdog.cc 17-24, Watchdog::RegisterEntry] *)
Definition RegisterEntry (w : Watchdog) (entry : E) : Watchdog :=
  let w := mkWatchdog (started_ w) (running w) (pending_entries_ w ++ [entry]) (started_entries_ w)
             (entered w) (exited w) in
  if (started_ w && running w)%bool then StartRequest w else w.

(** [src/src/watchdog.cc 39-61, Watchdog::ThreadMain] up to the run of the loop. *)
Definition ThreadMain (w : Watchdog) : Watchdog :=
  let w := mkWatchdog (started_ w) true (pending_entries_ w) (started_entries_ w) (entered w) (exited w) in
  mkWatchdog (started_ w) (running w) [] (started_entries_ w ++ pending_entries_ w)
    (entered w ++ pending_entries_ w) (exited w).

(** [src/src/watchdog.cc 26-37, Watchdog::StartIfNeeded] *)
Definition StartIfNeeded (w : Watchdog) : Watchdog :=
  if started_ w then w
  else match pending_entries_ w with
       | [] => w
       | _ =>
           let w := ThreadMain w in
           mkWatchdog true (running w) (pending_entries_ w) (started_entries_ w) (entered w) (exited w)
       end.

(** [src/src/watchdog.cc 73-79, Watchdog::StopRequest] *)
Definition StopRequest (w : Watchdog) : Watchdog :=
  mkWatchdog (started_ w) false (pending_entries_ w) (started_entries_ w) (entered w)
    (exited w ++ started_entries_ w).

(** [src/src/watchdog.cc 9-15, Watchdog::~Watchdog] *)
Definition Watchdog_destroy (w : Watchdog) : Watchdog :=
  if started_ w then
    let w := StopRequest w in
    mkWatchdog false (running w) (pending_entries_ w) (started_entries_ w) (entered w) (exited w)
  else w.

Inductive WEvent := WRegister (e : E) | WStart.

Definition wstep (w : Watchdog) (ev : WEvent) : Watchdog :=
  match ev with WRegister e => RegisterEntry w e | WStart => StartIfNeeded w end.

Definition registered (evs : list WEvent) : list E :=
  omap (fun ev => match ev with WRegister e => Some e | WStart => None end) evs.

Record watchdog_inv (w : Watchdog) (reg : list E) : Prop := {
  wi_all : entered w ++ pending_entries_ w = reg;
  wi_started : started_entries_ w = entered w;
  wi_run : running w = started_ w;
  wi_pending : started_ w = true -> pending_entries_ w = [];
  wi_exited : exited w = [] }.

Lemma wstep_inv w ev reg :
  watchdog_inv w reg ->
  watchdog_inv (wstep w ev) (reg ++ match ev with WRegister e => [e] | WStart => [] end).
Proof.
  intros [H1 H2 H3 H4 H5]. destruct ev as [e|]; simpl.
  - unfold RegisterEntry. simpl. rewrite H3. destruct (started_ w) eqn:Es; simpl.
    + split; simpl; rewrite ?H2, ?app_nil_r, ?Es; try done. rewrite <- H1. by rewrite <- app_assoc.
    + split; simpl; rewrite ?Es; try done. rewrite <- H1. by rewrite app_assoc.
  - rewrite app_nil_r. unfold StartIfNeeded. destruct (started_ w) eqn:Es; [by split; rewrite ?Es|].
    destruct (pending_entries_ w) eqn:Ep; [by split; rewrite ?Es, ?Ep|].
    split; simpl; rewrite ?Ep, ?app_nil_r, ?H2; done.
Qed.

Lemma wrun_inv evs w reg :
  watchdog_inv w reg -> watchdog_inv (foldl wstep w evs) (reg ++ registered evs).
Proof.
  revert w reg. induction evs as [|ev evs IH]; intros w reg Hw; simpl; [by rewrite app_nil_r|].
  apply wstep_inv with (ev := ev), IH in Hw. rewrite <- app_assoc in Hw. by destruct ev.
Qed.

End watchdog.

(** * Loop latency *)

(** [src/src/loop_latency_watchdog.h 28-38, LoopLatencyWatchdog] with the loop's view of
    its handles: [async_pending] is a sent signal not yet handled, a timer holds
    the time it is due, and [loop_time] is the loop's clock.  [interrupts] logs the
    requested interrupts. *)
Record LoopLatencyWatchdog := mkLatency {
  long_task_threshold_ms_ : Z;
  fatal_latency_limit_ms_ : Z;
  idle_ : bool;
  async_pending : bool;
  long_task_timer_ : option Z;
  fatal_timer_ : option Z;
  loop_time : Z;
  interrupts : list (bool * Z) }.

(** [src/src/loop_latency_watchdog.cc 7-15, LoopLatencyWatchdog::LoopLatencyWatchdog] With
    [ThreadEntry], lines 17-21.  The constructor does not set [idle_]: it starts with whatever
    it is. *)
Definition latency_init (idle : bool) (threshold limit : Z) : LoopLatencyWatchdog :=
  mkLatency threshold limit idle false None None 0 [].

(** [src/src/loop_latency_watchdog.cc 30-34, LoopLatencyWatchdog::CallbackPrologue] *)
Definition CallbackPrologue (w : LoopLatencyWatchdog) : LoopLatencyWatchdog :=
  mkLatency (long_task_threshold_ms_ w) (fatal_latency_limit_ms_ w) false true
    (long_task_timer_ w) (fatal_timer_ w) (loop_time w) (interrupts w).

(** [src/src/loop_latency_watchdog.cc 36-39, LoopLatencyWatchdog::CallbackEpilogue] *)
Definition CallbackEpilogue (w : LoopLatencyWatchdog) : LoopLatencyWatchdog :=
  mkLatency (long_task_threshold_ms_ w) (fatal_latency_limit_ms_ w) true (async_pending w)
    (long_task_timer_ w) (fatal_timer_ w) (loop_time w) (interrupts w).

(** [uv_timer_start]: due after the timeout by the loop's clock. *)
Definition uv_timer_start (w : LoopLatencyWatchdog) (timeout : Z) : option Z := Some (loop_time w + timeout).

(** [src/src/loop_latency_watchdog.cc 41-60, LoopLatencyWatchdog::AsyncCallback] *)
Definition AsyncCallback (w : LoopLatencyWatchdog) : LoopLatencyWatchdog :=
  let long := if long_task_threshold_ms_ w =? 0 then long_task_timer_ w
              else uv_timer_start w (long_task_threshold_ms_ w) in
  let fatal := if fatal_latency_limit_ms_ w =? 0 then fatal_timer_ w
               else uv_timer_start w (fatal_latency_limit_ms_ w) in
  mkLatency (long_task_threshold_ms_ w) (fatal_latency_limit_ms_ w) (idle_ w) false
    long fatal (loop_time w) (interrupts w).

(** [src/src/loop_latency_watchdog.cc 62-78, LoopLatencyWatchdog::LongTaskTimerCallback] *)
Definition LongTaskTimerCallback (now : Z) (w : LoopLatencyWatchdog) : LoopLatencyWatchdog :=
  mkLatency (long_task_threshold_ms_ w) (fatal_latency_limit_ms_ w) (idle_ w) (async_pending w)
    None (fatal_timer_ w) (loop_time w) (if idle_ w then interrupts w else interrupts w ++ [(false, now)]).

(** [src/src/loop_latency_watchdog.cc 80-94, LoopLatencyWatchdog::FatalTimerCallback] *)
Definition FatalTimerCallback (now : Z) (w : LoopLatencyWatchdog) : LoopLatencyWatchdog :=
  mkLatency (long_task_threshold_ms_ w) (fatal_latency_limit_ms_ w) (idle_ w) (async_pending w)
    (long_task_timer_ w) None (loop_time w) (if idle_ w then interrupts w else interrupts w ++ [(true, now)]).

(** The loop updates its clock. *)
Definition update_time (now : Z) (w : LoopLatencyWatchdog) : LoopLatencyWatchdog :=
  mkLatency (long_task_threshold_ms_ w) (fatal_latency_limit_ms_ w) (idle_ w) (async_pending w)
    (long_task_timer_ w) (fatal_timer_ w) (now / 10 ^ 6) (interrupts w).

Inductive LAction := LPrologue | LEpilogue | LUpdate | LAsync | LLongTimer | LFatalTimer.

(** The loop handles the async signal only when it was sent, and calls a timer only when it
    is due by its clock. *)
Definition due (w : LoopLatencyWatchdog) (timer : option Z) : bool :=
  match timer with Some d => d <=? loop_time w | None => false end.

Definition lenabled (w : LoopLatencyWatchdog) (a : LAction) : bool :=
  match a with
  | LPrologue | LEpilogue | LUpdate => true
  | LAsync => async_pending w
  | LLongTimer => due w (long_task_timer_ w)
  | LFatalTimer => due w (fatal_timer_ w)
  end.

Definition lact (now : Z) (w : LoopLatencyWatchdog) (a : LAction) : LoopLatencyWatchdog :=
  match a with
  | LPrologue => CallbackPrologue w
  | LEpilogue => CallbackEpilogue w
  | LUpdate => update_time now w
  | LAsync => AsyncCallback w
  | LLongTimer => LongTaskTimerCallback now w
  | LFatalTimer => FatalTimerCallback now w
  end.

(** A history, from a time: [None] when it cannot happen. *)
Fixpoint lrun (t : Z) (w : LoopLatencyWatchdog) (acts : list (Z * LAction)) : option (Z * LoopLatencyWatchdog) :=
  match acts with
  | [] => Some (t, w)
  | (now, a) :: acts => if (t <=? now) && lenabled w a then lrun now (lact now w a) acts else None
  end.

(** What a history says, without the watchdog's state: since when the last callback begun has
    been running, if it has not ended; the loop's clock, and whether it was updated after that
    beginning; and the clock at which the last signal was handled, and whether it had been
    updated after the beginning of the callback that sent it. *)
Record History := mkHistory {
  began : bool; running_since : option Z; clock : Z; updated : bool; signal_clock : option (Z * bool) }.

Definition hist_step (h : History) (x : Z * LAction) : History :=
  match x.2 with
  | LPrologue => mkHistory true (Some x.1) (clock h) false (signal_clock h)
  | LEpilogue => mkHistory true None (clock h) (updated h) (signal_clock h)
  | LUpdate => mkHistory (began h) (running_since h) (x.1 / 10 ^ 6) true (signal_clock h)
  | LAsync => mkHistory (began h) (running_since h) (clock h) (updated h) (Some (clock h, updated h))
  | LLongTimer | LFatalTimer => h
  end.

Definition history (acts : list (Z * LAction)) : History := foldl hist_step (mkHistory false None 0 false None) acts.

(** A timer was started when the last signal was handled; it is due its timeout after the
    clock of that. *)
Definition timer_ok (h : History) (timeout : Z) (timer : option Z) : Prop :=
  forall d, timer = Some d -> timeout <> 0 /\ exists l u, signal_clock h = Some (l, u) /\ d = l + timeout.

Record latency_inv (idle : bool) (threshold limit t : Z) (w : LoopLatencyWatchdog) (h : History) : Prop := {
  la_threshold : long_task_threshold_ms_ w = threshold;
  la_limit : fatal_latency_limit_ms_ w = limit;
  la_idle : idle_ w = if began h then match running_since h with Some _ => false | None => true end else idle;
  la_none : began h = false -> running_since h = None /\ async_pending w = false /\ signal_clock h = None;
  la_clock : loop_time w = clock h;
  la_time : clock h * 10 ^ 6 <= t;
  la_start : forall start, running_since h = Some start -> updated h = true -> start < (clock h + 1) * 10 ^ 6;
  la_past : forall start, running_since h = Some start -> start <= t;
  la_long : timer_ok h threshold (long_task_timer_ w);
  la_fatal : timer_ok h limit (fatal_timer_ w);
  la_signal : forall start l, running_since h = Some start -> async_pending w = false -> signal_clock h = Some (l, true) ->
    start < (l + 1) * 10 ^ 6 }.

Lemma next_ms t : t < (t / 10 ^ 6 + 1) * 10 ^ 6.
Proof. pose proof (Z.mod_pos_bound t (10 ^ 6)). pose proof (Z.div_mod t (10 ^ 6)). lia. Qed.

Lemma ms_before t : t / 10 ^ 6 * 10 ^ 6 <= t.
Proof. pose proof (Z.mul_div_le t (10 ^ 6)). lia. Qed.

Lemma timer_restarted h w threshold timer :
  loop_time w = clock h -> timer_ok h threshold timer ->
  timer_ok (mkHistory (began h) (running_since h) (clock h) (updated h) (Some (clock h, updated h))) threshold
    (if threshold =? 0 then timer else uv_timer_start w threshold).
Proof.
  intros Hc Ht d. destruct (Z.eqb_spec threshold 0) as [E|E]; [intros Hd; by destruct (Ht d Hd)|].
  intros [= <-]. split; [done|]. eexists _, _. split; [done|]. by rewrite Hc.
Qed.

Lemma lact_inv idle threshold limit t now w h a :
  t <= now -> lenabled w a = true -> latency_inv idle threshold limit t w h ->
  latency_inv idle threshold limit now (lact now w a) (hist_step h (now, a)).
Proof.
  intros Hle Hen [H1 H2 H3 H4 H5 H6 H7 H7' H8 H9 H10].
  assert (Hpast : forall start, running_since h = Some start -> start <= now) by (intros s Hs; specialize (H7' s Hs); lia).
  destruct a; unfold hist_step; cbn [snd fst lact lenabled] in *.
  - split; cbn; try done; try lia. by intros start [= <-].
  - split; cbn; try done; lia.
  - pose proof (ms_before now). pose proof (next_ms now). split; cbn; try done.
    intros start Hs _. specialize (Hpast start Hs). lia.
  - split; cbn; try done; try lia; rewrite ?H1, ?H2.
    + intros Hb. destruct (H4 Hb) as (? & ? & ?). congruence.
    + by apply timer_restarted.
    + by apply timer_restarted.
    + intros start l Hs _ [= <- Hu]. by apply H7.
  - split; cbn; try done; lia.
  - split; cbn; try done; lia.
Qed.

Lemma lrun_inv idle threshold limit acts : forall t w h s,
  latency_inv idle threshold limit t w h -> lrun t w acts = Some s ->
  latency_inv idle threshold limit s.1 s.2 (foldl hist_step h acts).
Proof.
  induction acts as [|[now a] acts IH]; intros t w h s Hi; cbn; [by intros [= <-]|].
  destruct ((t <=? now) && lenabled w a) eqn:E; [|done]. apply andb_true_iff in E as [Ht%Z.leb_le He].
  by apply IH, (lact_inv idle threshold limit t).
Qed.

Lemma lreach_inv idle threshold limit acts t w : lrun 0 (latency_init idle threshold limit) acts = Some (t, w) ->
  latency_inv idle threshold limit t w (history acts).
Proof. apply (lrun_inv idle threshold limit acts 0 _ _ (t, w)). by split. Qed.

(** What a timer that is due means. *)
Lemma due_elapsed idle threshold limit t w h timeout timer start now :
  latency_inv idle threshold limit t w h -> timer_ok h timeout timer -> due w timer = true -> t <= now ->
  running_since h = Some start -> async_pending w = false ->
  exists l u, signal_clock h = Some (l, u) /\ timeout * 10 ^ 6 <= now - l * 10 ^ 6 /\
    (u = true -> (timeout - 1) * 10 ^ 6 < now - start).
Proof.
  intros Hi Ht Hd Hn Hr Ha. unfold due in Hd. destruct timer as [d|]; [|done]. apply Z.leb_le in Hd.
  destruct (Ht d eq_refl) as (_ & l & u & Hs & ->). exists l, u. pose proof (la_time _ _ _ _ _ _ Hi).
  rewrite (la_clock _ _ _ _ _ _ Hi) in Hd. split; [done|]. split; [lia|]. intros ->.
  pose proof (la_signal _ _ _ _ _ _ Hi start l Hr Ha Hs). lia.
Qed.

Lemma running_not_idle idle threshold limit t w h timeout timer :
  latency_inv idle threshold limit t w h -> timer_ok h timeout timer -> due w timer = true ->
  idle_ w = match running_since h with Some _ => false | None => true end.
Proof.
  intros Hi Ht Hd. rewrite (la_idle _ _ _ _ _ _ Hi). destruct (began h) eqn:Eb; [done|].
  destruct timer as [d|]; [|done]. destruct (Ht d eq_refl) as (_ & l & u & Hs & _).
  destruct (la_none _ _ _ _ _ _ Hi Eb) as (_ & _ & Hn). congruence.
Qed.

(** * Properties *)

(** Entries of the watchdog run exactly once: after any registrations and
    starts, in any order, the entries entered and those still pending are the
    registered ones in order, a started watchdog has none pending, and destroying
    it makes every entered entry leave exactly once. *)
Theorem watchdog_entries_once {E : Type} (evs : list (@WEvent E)) :
  let w := foldl wstep Watchdog_init evs in
  let w' := Watchdog_destroy w in
  entered w ++ pending_entries_ w = registered evs /\
  (started_ w = true -> pending_entries_ w = []) /\
  entered w' = entered w /\ exited w' = (if started_ w then entered w else []) /\ running w' = false.
Proof.
  intros w w'. destruct (wrun_inv evs Watchdog_init [] ltac:(by split)) as [H1 H2 H3 H4 H5].
  fold w in H1, H2, H3, H4, H5. unfold w', Watchdog_destroy.
  destruct (started_ w) eqn:Es; simpl; rewrite ?H5, ?H2, ?H3; done.
Qed.

(** C33 A reported callback is running, and it was slow.  Over every interleaving of the two
    threads and whatever [idle_] was at first, when the fatal timer or the long-task timer
    fires it requests an interrupt if the callback that began last has not ended, and none
    otherwise; and unless the signal of a newer callback is still waiting for the watchdog
    thread, at least the limit has passed since the time the loop's clock showed when it
    handled the callback's signal: the callback has been running for longer than the limit
    less one millisecond if the loop updated its clock after the callback began, as it does
    when the signal wakes it.  An older clock is [latency_old_clock], a newer callback
    [latency_false_positive]. *)
Theorem latency_report_is_real (idle : bool) (threshold limit t now : Z) (acts : list (Z * LAction)) (w : LoopLatencyWatchdog) :
  lrun 0 (latency_init idle threshold limit) acts = Some (t, w) -> t <= now ->
  let h := history acts in
  let report fatal := match running_since h with Some _ => [(fatal, now)] | None => [] end in
  let slow limit := async_pending w = false -> forall start, running_since h = Some start ->
    exists l u, signal_clock h = Some (l, u) /\ limit * 10 ^ 6 <= now - l * 10 ^ 6 /\
      (u = true -> (limit - 1) * 10 ^ 6 < now - start) in
  (lenabled w LFatalTimer = true -> interrupts (FatalTimerCallback now w) = interrupts w ++ report true /\ slow limit) /\
  (lenabled w LLongTimer = true -> interrupts (LongTaskTimerCallback now w) = interrupts w ++ report false /\ slow threshold).
Proof.
  intros Hr Hn h report slow. pose proof (lreach_inv idle threshold limit acts t w Hr) as Hi. fold h in Hi.
  pose proof (la_fatal _ _ _ _ _ _ Hi) as Hf. pose proof (la_long _ _ _ _ _ _ Hi) as Hl.
  split; intros Hd; cbn [lenabled] in Hd.
  - split; [|intros Ha start Hs; by apply (due_elapsed idle threshold limit t w h limit (fatal_timer_ w) start now Hi Hf)].
    cbn. rewrite (running_not_idle idle threshold limit t w h limit _ Hi Hf Hd). unfold report.
    destruct (running_since h); by rewrite ?app_nil_r.
  - split; [|intros Ha start Hs; by apply (due_elapsed idle threshold limit t w h threshold (long_task_timer_ w) start now Hi Hl)].
    cbn. rewrite (running_not_idle idle threshold limit t w h threshold _ Hi Hl Hd). unfold report.
    destruct (running_since h); by rewrite ?app_nil_r.
Qed.

(** A short callback can be reported as fatal: the timers of a finished
    callback stay armed, so when the next callback starts just before they are
    due and its signal has not been handled, the fatal timer interrupts a
    callback that has been running for one millisecond under a limit of a
    hundred. *)
Theorem latency_false_positive :
  exists w, lrun 0 (latency_init true 0 100)
      [(0, LPrologue); (0, LUpdate); (0, LAsync); (5000000, LEpilogue); (99000000, LPrologue); (100000000, LUpdate);
       (100000000, LFatalTimer)] = Some (100000000, w) /\
    interrupts w = [(true, 100000000)].
Proof. eexists. split; vm_compute; reflexivity. Qed.

(** The clock of the loop may be old: a callback that begins after the loop woke for something
    else, and whose signal is handled in the same turn, is measured from the time of waking. *)
Theorem latency_old_clock :
  exists w, lrun 0 (latency_init true 0 100)
      [(0, LUpdate); (60000000, LPrologue); (60000000, LAsync); (100000000, LUpdate); (100000000, LFatalTimer)] =
      Some (100000000, w) /\
    interrupts w = [(true, 100000000)].
Proof. eexists. split; vm_compute; reflexivity. Qed.

(** * Witness *)

Definition ex_actions : list (Z * LAction) := [(2000000, LPrologue); (3000000, LUpdate); (3000000, LAsync); (103000000, LUpdate)].

Definition ex_latency : LoopLatencyWatchdog :=
  match lrun 0 (latency_init false 0 100) ex_actions with Some (_, w) => w | None => latency_init false 0 100 end.

Lemma latency_report_is_real_witness :
  interrupts (FatalTimerCallback 103500000 ex_latency) = [(true, 103500000)] /\ 99 * 10 ^ 6 < 103500000 - 2000000.
Proof.
  destruct (latency_report_is_real false 0 100 103000000 103500000 ex_actions ex_latency) as [H _]; [reflexivity|lia|].
  destruct (H eq_refl) as [H1 H2]. split; [exact H1|].
  destruct (H2 eq_refl 2000000 eq_refl) as (l & u & E & _ & H3). injection E as <- <-. exact (H3 eq_refl).
Defined.
