(* ===== verification/HandleWrap.v ===== *)
(** src/src/handle_wrap.{h,cc}, base_object-inl.h and the bindings of timers, immediates
    and signals (binding/internal/aworker_timers.cc, aworker_immediate.cc,
    aworker_signals.cc): the life time of libuv handles that belong to JavaScript
    objects.

    libuv keeps the handles being closed in a list, the last one first, and calls their
    callbacks on a later turn of the loop; closing a handle twice fails an assertion in
    libuv, and its memory must stay until the callback has been called.  V8 collects an
    object only when the reference to it is weak and nothing on the stack refers to it, as
    [AsyncWrap::MakeCallback] does while the callback it makes runs (its receiver).  The
    JavaScript of a timer, an immediate or a signal runs inside of the event that calls it,
    loops nested in it by the inspector included; that of a close callback is a later
    event, which makes no difference: no operation changes the handles of a wrap that is
    closing or closed. *)

From S2P Require Import Prelude.
Local Open Scope nat_scope.

(** * State *)

Inductive WrapKind := KTimer | KImmediate | KSignal.

(** [src/src/handle_wrap.h 66-66, HandleWrap] *)
Inductive HState := kInitialized | kClosing | kClosed.

#[export] Instance HState_eq_dec : EqDecision HState.
Proof. solve_decision. Defined.
#[export] Instance WrapKind_eq_dec : EqDecision WrapKind.
Proof. solve_decision. Defined.

(** The reference to the JavaScript object. *)
Inductive Persistent := PStrong | PWeak | PEmpty.

(** [src/src/handle_wrap.h 65-68, HandleWrap] With the members of the three classes:
    whether the handle is started, for a timer its timeout and its repeat, for an
    immediate whether the idle handle is started and being closed; [onclose] is the
    property that holds the close callback. *)
Record Wrap := mkWrap {
  kind : WrapKind;
  _state : HState;
  persistent_ : Persistent;
  onclose : bool;
  active : bool;
  timing : Z * Z;
  idle_active : bool;
  idle_closing : bool }.

Inductive HCall := COnTimeout (id : nat) | COnImmediate (id : nat) | COnSignal (id : nat) | COnClose (id : nat) | CDeleted (id : nat).

(** [closing] are the handles being closed; the flag is false for the idle handle of an
    immediate.  [calls], the latest first, are the JavaScript callbacks and the deletions. *)
Record Loop := mkLoop {
  wraps : gmap nat Wrap;
  tracked_handle_wraps : gset nat;
  closing : list (nat * bool);
  next : nat;
  calls : list HCall }.

Definition Loop_init : Loop := mkLoop ∅ ∅ [] 0 [].

Definition put (l : Loop) (id : nat) (w : Wrap) : Loop :=
  mkLoop (<[id := w]> (wraps l)) (tracked_handle_wraps l) (closing l) (next l) (calls l).
Definition log (l : Loop) (c : HCall) : Loop :=
  mkLoop (wraps l) (tracked_handle_wraps l) (closing l) (next l) (c :: calls l).

(** * Operations *)

(** [src/src/handle_wrap.cc 64-70, HandleWrap::HandleWrap] With the constructor of
    BaseObject: a strong reference. *)
Definition HandleWrap_new (l : Loop) (k : WrapKind) (timing : Z * Z) (idle : bool) : Loop :=
  let id := next l in
  mkLoop (<[id := mkWrap k kInitialized PStrong false true timing idle false]> (wraps l))
    ({[id]} ∪ tracked_handle_wraps l) (closing l) (S id) (calls l).

(** [src/src/binding/internal/aworker_timers.cc 96-103, TimerWrap::TimerWrap] The interval is an
    [int] that becomes a [uint64_t]. *)
Definition TimerWrap_new (l : Loop) (interval : Z) (repeat : bool) : Loop :=
  HandleWrap_new l KTimer (u64 interval, if repeat then u64 interval else 0%Z) false.

(** [src/src/binding/internal/aworker_immediate.cc 89-95, ImmediateWrap::ImmediateWrap] *)
Definition ImmediateWrap_new (l : Loop) : Loop := HandleWrap_new l KImmediate (0, 0)%Z true.

(** [src/src/binding/internal/aworker_signals.cc 93-99, SignalWrap::SignalWrap] *)
Definition SignalWrap_new (l : Loop) : Loop := HandleWrap_new l KSignal (0, 0)%Z false.

Definition stopped (w : Wrap) : Wrap :=
  mkWrap (kind w) (_state w) (persistent_ w) (onclose w) false (timing w) false (idle_closing w).

(** [src/src/base_object-inl.h 96-106, BaseObject::MakeWeak] *)
Definition MakeWeak (w : Wrap) : Wrap :=
  mkWrap (kind w) (_state w) (match persistent_ w with PEmpty => PEmpty | _ => PWeak end) (onclose w) (active w)
    (timing w) (idle_active w) (idle_closing w).

(** [src/src/binding/internal/aworker_immediate.cc 77-87, ImmediateWrap::Remove] A wrap
    that is gone has been taken out of its object. *)
Definition ImmediateWrap_Remove (l : Loop) (id : nat) : Loop :=
  match wraps l !! id with None => l | Some w => put l id (stopped (MakeWeak w)) end.

(** [src/src/binding/internal/aworker_timers.cc 85-94, TimerWrap::Remove] *)
Definition TimerWrap_Remove (l : Loop) (id : nat) : Loop :=
  match wraps l !! id with None => l | Some w => put l id (stopped (MakeWeak w)) end.

(** [src/src/binding/internal/aworker_signals.cc 77-81, SignalWrap::Stop] *)
Definition SignalWrap_Stop (l : Loop) (id : nat) : Loop :=
  match wraps l !! id with None => l | Some w => put l id (stopped w) end.

(** [src/src/handle_wrap.cc 44-58, HandleWrap::Close] [uv_close] stops the handle. *)
Definition HandleWrap_Close (l : Loop) (id : nat) (callback : bool) : outcome Loop :=
  match wraps l !! id with
  | None => Fault UseAfterFree
  | Some w =>
      if bool_decide (_state w <> kInitialized) then Ret l
      else
        let set := (callback && match persistent_ w with PEmpty => false | _ => true end)%bool in
        let w := mkWrap (kind w) kClosing (persistent_ w) (onclose w || set) false (timing w) (idle_active w)
                   (idle_closing w) in
        Ret (mkLoop (<[id := w]> (wraps l)) (tracked_handle_wraps l) ((id, true) :: closing l) (next l) (calls l))
  end.

(** [src/src/binding/internal/aworker_immediate.cc 101-101, ImmediateWrap::Close] *)
Definition close_idle (l : Loop) (id : nat) : outcome Loop :=
  match wraps l !! id with
  | None => Fault UseAfterFree
  | Some w =>
      CHECK (negb (idle_closing w)) ;;
      let w := mkWrap (kind w) (_state w) (persistent_ w) (onclose w) (active w) (timing w) false true in
      Ret (mkLoop (<[id := w]> (wraps l)) (tracked_handle_wraps l) ((id, false) :: closing l) (next l) (calls l))
  end.

(** [src/src/binding/internal/aworker_immediate.cc 99-102, ImmediateWrap::Close] The
    virtual function: an immediate closes its idle handle as well. *)
Definition Close (l : Loop) (id : nat) (callback : bool) : outcome Loop :=
  match wraps l !! id with
  | None => Fault UseAfterFree
  | Some w =>
      l ← HandleWrap_Close l id callback;
      if bool_decide (kind w = KImmediate) then close_idle l id else Ret l
  end.

(** [src/src/base_object-inl.h 99-104, BaseObject::MakeWeak] The weak callback, with
    [HandleWrap::OnGCCollect] (handle_wrap.cc 60-62). *)
Definition OnGCCollect (l : Loop) (id : nat) : outcome Loop :=
  match wraps l !! id with
  | None => Fault UseAfterFree
  | Some w =>
      Close (put l id (mkWrap (kind w) (_state w) PEmpty (onclose w) (active w) (timing w) (idle_active w) (idle_closing w)))
        id false
  end.

(** [src/src/handle_wrap.cc 72-97, HandleWrap::OnClose] *)
Definition OnClose (l : Loop) (id : nat) : outcome Loop :=
  match wraps l !! id with
  | None => Fault UseAfterFree
  | Some w =>
      CHECK (bool_decide (_state w = kClosing)) ;;
      let l := if (onclose w && match persistent_ w with PEmpty => false | _ => true end)%bool
               then log l (COnClose id) else l in
      Ret (mkLoop (delete id (wraps l)) (tracked_handle_wraps l ∖ {[id]}) (closing l) (next l) (CDeleted id :: calls l))
  end.

(** A handle whose callback libuv calls. *)
Definition finish_close (l : Loop) (h : nat * bool) : outcome Loop :=
  if h.2 then OnClose l h.1
  else match wraps l !! h.1 with None => Fault UseAfterFree | Some _ => Ret l end.

Fixpoint finish_all (l : Loop) (hs : list (nat * bool)) : outcome Loop :=
  match hs with [] => Ret l | h :: hs => l ← finish_close l h; finish_all l hs end.

(** The turn of the loop that calls the close callbacks. *)
Definition run_closing (l : Loop) : outcome Loop :=
  finish_all (mkLoop (wraps l) (tracked_handle_wraps l) [] (next l) (calls l)) (closing l).

(** [src/src/binding/internal/aworker_immediate.cc 105-113, ImmediateWrap::TriggerImmediate]
    The JavaScript callback runs first, with both handles still started; then they are
    stopped. *)
Definition TriggerImmediate (js : Loop -> outcome Loop) (l : Loop) (id : nat) : outcome Loop :=
  l ← js (log l (COnImmediate id));
  match wraps l !! id with None => Fault UseAfterFree | Some w => Ret (put l id (stopped w)) end.

(** [src/src/binding/internal/aworker_timers.cc 108-116, TimerWrap::TriggerTimer] libuv
    stops a timer before its callback unless it repeats. *)
Definition TriggerTimer (js : Loop -> outcome Loop) (l : Loop) (id : nat) (w : Wrap) : outcome Loop :=
  js (log (if (snd (timing w) =? 0)%Z then put l id (stopped w) else l) (COnTimeout id)).

(** [src/src/binding/internal/aworker_signals.cc 104-110, SignalWrap::SignalCallback] *)
Definition SignalCallback (js : Loop -> outcome Loop) (l : Loop) (id : nat) : outcome Loop := js (log l (COnSignal id)).

(** libuv calls back for started handles only. *)
Definition trigger (js : Loop -> outcome Loop) (l : Loop) (id : nat) : outcome Loop :=
  match wraps l !! id with
  | None => Ret l
  | Some w =>
      if active w then
        match kind w with
        | KImmediate => TriggerImmediate js l id
        | KTimer => TriggerTimer js l id w
        | KSignal => SignalCallback js l id
        end
      else Ret l
  end.

Fixpoint close_all (l : Loop) (ids : list nat) : outcome Loop :=
  match ids with [] => Ret l | id :: ids => l ← Close l id false; close_all l ids end.

(** [src/src/immortal.cc 248-251, Immortal::~Immortal] Every tracked wrap is closed, which
    stops its handles, and one turn of the loop: of that turn, the phase that calls the close
    callbacks; the others call back for handles that are started, and of the wraps none is. *)
Definition close_handles (l : Loop) : outcome Loop :=
  l ← close_all l (elements (tracked_handle_wraps l)); run_closing l.

(** ** Events *)

Inductive HEvent :=
  | HNewTimer (interval : Z) (repeat : bool) | HNewImmediate | HNewSignal
  | HRemove (id : nat)
  | HStop (id : nat)
  | HClose (id : nat) (callback : bool)
  | HCollect (id : nat)
  | HTrigger (id : nat) (js : list HEvent)
  | HRunClosing.

(** [held] are the receivers of the running callbacks: the collector leaves them alone.  A
    trigger runs the events of its callback, among them those of a nested loop. *)
Fixpoint hstep (held : list nat) (l : Loop) (e : HEvent) {struct e} : outcome Loop :=
  match e with
  | HNewTimer i r => Ret (TimerWrap_new l i r)
  | HNewImmediate => Ret (ImmediateWrap_new l)
  | HNewSignal => Ret (SignalWrap_new l)
  | HRemove id =>
      Ret (match kind <$> wraps l !! id with
           | Some KTimer => TimerWrap_Remove l id
           | Some KImmediate => ImmediateWrap_Remove l id
           | _ => l
           end)
  | HStop id =>
      Ret (match kind <$> wraps l !! id with Some KSignal => SignalWrap_Stop l id | _ => l end)
  | HClose id cb =>
      (* the prototype of an immediate has no close *)
      match kind <$> wraps l !! id with
      | Some KImmediate | None => Ret l
      | Some _ => Close l id cb
      end
  | HCollect id =>
      match persistent_ <$> wraps l !! id with
      | Some PWeak => if bool_decide (id ∈ held) then Ret l else OnGCCollect l id
      | _ => Ret l
      end
  | HTrigger id js =>
      trigger (fun l =>
        (fix callback l es := match es with [] => Ret l | e :: es => l ← hstep (id :: held) l e; callback l es end) l js) l id
  | HRunClosing => run_closing l
  end.

Definition hrun (held : list nat) : Loop -> list HEvent -> outcome Loop :=
  fix run l es := match es with [] => Ret l | e :: es => l ← hstep held l e; run l es end.

Lemma hrun_cons held l e es : hrun held l (e :: es) = (l ← hstep held l e; hrun held l es).
Proof. reflexivity. Qed.

Lemma hstep_trigger held l id js : hstep held l (HTrigger id js) = trigger (fun l => hrun (id :: held) l js) l id.
Proof. reflexivity. Qed.

(** The events of an event's callback. *)
Definition callback (e : HEvent) : list HEvent := match e with HTrigger _ js => js | _ => [] end.

Lemma HEvent_nested_ind (P : HEvent -> Prop) : (forall e, Forall P (callback e) -> P e) -> forall e, P e.
Proof.
  intros H. fix IH 1. intros e. apply H. destruct e as [| | | | | | |id js|]; try constructor. cbn.
  induction js as [|e js IHjs]; constructor; [apply IH|exact IHjs].
Qed.

(** No loop is nested in a callback. *)
Definition from_loop (e : HEvent) : bool := match e with HTrigger _ _ | HRunClosing => true | _ => false end.
Definition not_nested (es : list HEvent) : bool := forallb (fun e => forallb (fun e => negb (from_loop e)) (callback e)) es.

(** * Invariant *)

Definition kinds (l : Loop) (id : nat) : option WrapKind := kind <$> wraps l !! id.

(** The list of closing handles: for an immediate the idle handle comes before the
    check handle, whose callback deletes both. *)
Inductive blocks (K : nat -> option WrapKind) : list (nat * bool) -> list nat -> Prop :=
  | blocks_nil : blocks K [] []
  | blocks_immediate id hs ids :
      K id = Some KImmediate -> blocks K hs ids -> blocks K ((id, false) :: (id, true) :: hs) (id :: ids)
  | blocks_other id k hs ids :
      K id = Some k -> k <> KImmediate -> blocks K hs ids -> blocks K ((id, true) :: hs) (id :: ids).

Definition is_deleted (id : nat) (c : HCall) : bool := match c with CDeleted j => j =? id | _ => false end.
Definition is_immediate (id : nat) (c : HCall) : bool := match c with COnImmediate j => j =? id | _ => false end.
Definition count (f : HCall -> bool) (l : Loop) : nat := length (List.filter f (calls l)).

Definition wrap_ok (l : Loop) (id : nat) (w : Wrap) : Prop :=
  id < next l /\ _state w <> kClosed /\
  idle_closing w = (bool_decide (kind w = KImmediate) && bool_decide (_state w = kClosing))%bool /\
  (active w = true -> _state w = kInitialized).

(** An immediate is closed by the collector only, until the destruction. *)
Definition collected (l : Loop) : Prop :=
  map_Forall (fun _ w => kind w = KImmediate -> _state w = kClosing -> persistent_ w = PEmpty) (wraps l).

Record hinv (l : Loop) : Prop := {
  hi_closing : exists ids, blocks (kinds l) (closing l) ids /\ NoDup ids /\
    forall id, id ∈ ids <-> exists w, wraps l !! id = Some w /\ _state w = kClosing;
  hi_tracked : tracked_handle_wraps l = dom (wraps l);
  hi_wraps : forall id w, wraps l !! id = Some w -> wrap_ok l id w;
  hi_deleted : forall id, count (is_deleted id) l =
    if decide (id < next l) then match wraps l !! id with Some _ => 0 | None => 1 end else 0;
  hi_fresh : forall id, next l <= id -> wraps l !! id = None }.

(** The immediates whose callbacks run are open. *)
Definition immediate_open (l : Loop) (id : nat) : Prop :=
  exists w, wraps l !! id = Some w /\ kind w = KImmediate /\ _state w = kInitialized.

Record sinv (im : list nat) (l : Loop) : Prop := {
  si_hinv : hinv l;
  si_collected : collected l;
  si_open : forall id, id ∈ im -> immediate_open l id }.

(** Immediates called, but those of [im] running, are stopped; none is called twice. *)
Record once (im : list nat) (l : Loop) : Prop := {
  on_active : forall id w, wraps l !! id = Some w -> active w = true -> id ∉ im -> count (is_immediate id) l = 0;
  on_fresh : forall id, next l <= id -> count (is_immediate id) l = 0;
  on_once : forall id, count (is_immediate id) l <= 1 }.

Lemma blocks_ext K K' hs ids : (forall id, id ∈ ids -> K' id = K id) -> blocks K hs ids -> blocks K' hs ids.
Proof.
  intros H Hb. induction Hb as [|id hs ids Hk _ IH|id k hs ids Hk Hne _ IH]; [constructor|..].
  - constructor; [by rewrite H by apply list_elem_of_here|]. apply IH. intros j Hj. apply H. by right.
  - econstructor; [rewrite H by apply list_elem_of_here; done|done|]. apply IH. intros j Hj. apply H. by right.
Qed.

(** Changing a wrap without closing it. *)
Lemma put_inv l id w w' :
  hinv l -> wraps l !! id = Some w -> kind w' = kind w -> _state w' = _state w -> wrap_ok l id w' -> hinv (put l id w').
Proof.
  intros [(ids & Hb & Hnd & Hids) Ht Hw Hd Hf] Hl Hk Hs Hok. split; cbn; try done.
  - exists ids. split_and!; [|done|].
    + eapply blocks_ext; [|done]. intros j _. unfold kinds. cbn.
      destruct (decide (j = id)) as [->|]; [rewrite lookup_insert_eq, Hl; cbn; by rewrite Hk|by rewrite lookup_insert_ne].
    + intros j. rewrite Hids. destruct (decide (j = id)) as [->|]; [|by rewrite lookup_insert_ne].
      rewrite lookup_insert_eq, Hl. split; intros (w0 & [= <-] & ?); eexists; (split; [done|congruence]).
  - rewrite Ht, dom_insert_L. symmetry. apply subseteq_union_1_L, singleton_subseteq_l. by eapply elem_of_dom_2.
  - intros j w0. destruct (decide (j = id)) as [->|]; [rewrite lookup_insert_eq; by intros [= <-]|].
    rewrite lookup_insert_ne by done. apply Hw.
  - intros j. pose proof (Hd j) as Hdj. unfold count in *. cbn. rewrite Hdj. destruct (decide (j < next l)); [|done].
    destruct (decide (j = id)) as [->|]; [by rewrite lookup_insert_eq, Hl|by rewrite lookup_insert_ne].
  - intros j Hj. pose proof (Hf j Hj) as Hn. rewrite lookup_insert_ne; [done|]. intros ->. congruence.
Qed.

Lemma new_inv l k tm idle : hinv l -> hinv (HandleWrap_new l k tm idle).
Proof.
  intros [(ids & Hb & Hnd & Hids) Ht Hw Hd Hf]. pose proof (Hf (next l) ltac:(lia)) as Hn.
  assert (Hne : forall id, id ∈ ids -> id <> next l).
  { intros id Hid ->. apply Hids in Hid as (w & Hx & _). congruence. }
  split; cbn; try done.
  - exists ids. split_and!; [|done|].
    + eapply blocks_ext; [|done]. intros j Hj. unfold kinds. cbn. rewrite lookup_insert_ne; [done|].
      symmetry. by apply Hne.
    + intros j. rewrite Hids. destruct (decide (j = next l)) as [->|]; [|by rewrite lookup_insert_ne].
      rewrite lookup_insert_eq, Hn. split; intros (w & [= <-] & ?). done.
  - by rewrite Ht, dom_insert_L.
  - intros j w. destruct (decide (j = next l)) as [->|].
    + rewrite lookup_insert_eq. intros [= <-]. unfold wrap_ok. cbn. rewrite (bool_decide_eq_false_2 (kInitialized = kClosing)) by done.
      rewrite andb_false_r. split_and!; try done. lia.
    + rewrite lookup_insert_ne by done. intros Hj. destruct (Hw j w Hj) as (? & ?). split; [cbn; lia|done].
  - intros j. pose proof (Hd j) as Hdj. unfold count in *. cbn. rewrite Hdj.
    destruct (decide (j = next l)) as [->|].
    + rewrite lookup_insert_eq. destruct (decide (next l < next l)); [lia|]. by destruct (decide (next l < S (next l))).
    + rewrite lookup_insert_ne by done. destruct (decide (j < next l)), (decide (j < S (next l))); done || lia.
  - intros j Hj. rewrite lookup_insert_ne by lia. apply Hf. lia.
Qed.

(** ** Closing *)

Definition closed_wrap (w : Wrap) (set : bool) : Wrap :=
  mkWrap (kind w) kClosing (persistent_ w) (onclose w || set) false (timing w)
    (if bool_decide (kind w = KImmediate) then false else idle_active w)
    (if bool_decide (kind w = KImmediate) then true else idle_closing w).

Definition closing_block (id : nat) (k : WrapKind) : list (nat * bool) :=
  if bool_decide (k = KImmediate) then [(id, false); (id, true)] else [(id, true)].

(** Closing an open wrap puts its handles into the list. *)
Lemma Close_open l id w cb :
  hinv l -> wraps l !! id = Some w -> _state w = kInitialized ->
  exists set, Close l id cb = Ret (mkLoop (<[id := closed_wrap w set]> (wraps l)) (tracked_handle_wraps l)
                        (closing_block id (kind w) ++ closing l) (next l) (calls l)).
Proof.
  intros Hi Hl Hs. unfold Close, HandleWrap_Close. rewrite Hl, Hs, (bool_decide_eq_false_2 (kInitialized <> kInitialized)) by (by intros H; apply H).
  eexists. cbn [mbind outcome_bind]. unfold closed_wrap, closing_block.
  destruct (decide (kind w = KImmediate)) as [Hk|Hk].
  - rewrite !(bool_decide_eq_true_2 (kind w = KImmediate)) by done. unfold close_idle. cbn [wraps]. rewrite lookup_insert_eq.
    cbn [idle_closing kind]. destruct (hi_wraps _ Hi _ _ Hl) as (_ & _ & -> & _).
    rewrite Hs, (bool_decide_eq_false_2 (kInitialized = kClosing)), andb_false_r by done. cbn.
    by rewrite insert_insert_eq.
  - rewrite !(bool_decide_eq_false_2 (kind w = KImmediate)) by done. done.
Qed.

Lemma Close_open_inv l id w set :
  hinv l -> wraps l !! id = Some w -> _state w = kInitialized ->
  hinv (mkLoop (<[id := closed_wrap w set]> (wraps l)) (tracked_handle_wraps l)
          (closing_block id (kind w) ++ closing l) (next l) (calls l)).
Proof.
  intros [(ids & Hb & Hnd & Hids) Ht Hw Hd Hf] Hl Hs.
  assert (Hni : id ∉ ids). { intros Hid. apply Hids in Hid as (w0 & Hx & ?). congruence. }
  split; cbn; try done.
  - exists (id :: ids). split_and!; [|by constructor|].
    + assert (Hb' : blocks (kinds (mkLoop (<[id := closed_wrap w set]> (wraps l)) (tracked_handle_wraps l)
          (closing_block id (kind w) ++ closing l) (next l) (calls l))) (closing l) ids).
      { eapply blocks_ext; [|done]. intros j Hj. unfold kinds. cbn. rewrite lookup_insert_ne; [done|]. intros ->. done. }
      unfold closing_block. destruct (decide (kind w = KImmediate)) as [Hk|Hk].
      * rewrite bool_decide_eq_true_2 by done. cbn. constructor; [|done]. unfold kinds. cbn.
        rewrite lookup_insert_eq. cbn. by rewrite Hk.
      * rewrite bool_decide_eq_false_2 by done. cbn. econstructor; [|exact Hk|done]. unfold kinds. cbn.
        by rewrite lookup_insert_eq.
    + intros j. rewrite elem_of_cons, Hids. destruct (decide (j = id)) as [->|].
      * rewrite lookup_insert_eq. split; [intros _; eauto|by left].
      * rewrite lookup_insert_ne by done. split; [by intros [?|?]|by right].
  - rewrite Ht, dom_insert_L. symmetry. apply subseteq_union_1_L, singleton_subseteq_l. by eapply elem_of_dom_2.
  - intros j w0. destruct (decide (j = id)) as [->|].
    + rewrite lookup_insert_eq. intros [= <-]. destruct (Hw _ _ Hl) as (? & _ & Hic & _). split_and!; cbn; [done|done| |done].
      rewrite Hic, Hs. by destruct (bool_decide (kind w = KImmediate)).
    + rewrite lookup_insert_ne by done. apply Hw.
  - intros j. pose proof (Hd j) as Hdj. unfold count in *. cbn. rewrite Hdj. destruct (decide (j < next l)); [|done].
    destruct (decide (j = id)) as [->|]; [by rewrite lookup_insert_eq, Hl|by rewrite lookup_insert_ne].
  - intros j Hj. pose proof (Hf j Hj) as Hn. rewrite lookup_insert_ne; [done|]. intros ->. congruence.
Qed.

(** ** The close callbacks *)

Lemma OnClose_spec l id w :
  wraps l !! id = Some w -> _state w = kClosing ->
  exists l', OnClose l id = Ret l' /\ closing l' = closing l /\ next l' = next l /\
    wraps l' = delete id (wraps l) /\ tracked_handle_wraps l' = tracked_handle_wraps l ∖ {[id]} /\
    (forall j, count (is_deleted j) l' = count (is_deleted j) l + if decide (j = id) then 1 else 0) /\
    (forall j, count (is_immediate j) l' = count (is_immediate j) l).
Proof.
  intros Hl Hs. unfold OnClose. rewrite Hl, Hs, bool_decide_eq_true_2 by done.
  assert (Hcnt : forall cs j, length (List.filter (is_deleted j) (CDeleted id :: cs)) =
                              length (List.filter (is_deleted j) cs) + if decide (j = id) then 1 else 0).
  { intros cs j. cbn. destruct (Nat.eqb_spec id j) as [->|Hne]; cbn.
    - rewrite decide_True by done. lia.
    - rewrite decide_False by congruence. lia. }
  destruct (onclose w && _)%bool; eexists; (split; [reflexivity|]); cbn; split_and!; try done; apply Hcnt.
Qed.

Lemma finish_all_spec K hs ids : blocks K hs ids -> forall l,
  NoDup ids -> (forall id, id ∈ ids -> exists w, wraps l !! id = Some w /\ _state w = kClosing) ->
  exists l', finish_all l hs = Ret l' /\ closing l' = closing l /\ next l' = next l /\
    (forall j, wraps l' !! j = if decide (j ∈ ids) then None else wraps l !! j) /\
    tracked_handle_wraps l' = tracked_handle_wraps l ∖ list_to_set ids /\
    (forall j, count (is_deleted j) l' = count (is_deleted j) l + if decide (j ∈ ids) then 1 else 0) /\
    (forall j, count (is_immediate j) l' = count (is_immediate j) l).
Proof.
  assert (Hmain : forall id hs ids,
    (forall l, NoDup ids -> (forall id, id ∈ ids -> exists w, wraps l !! id = Some w /\ _state w = kClosing) ->
      exists l', finish_all l hs = Ret l' /\ closing l' = closing l /\ next l' = next l /\
        (forall j, wraps l' !! j = if decide (j ∈ ids) then None else wraps l !! j) /\
        tracked_handle_wraps l' = tracked_handle_wraps l ∖ list_to_set ids /\
        (forall j, count (is_deleted j) l' = count (is_deleted j) l + if decide (j ∈ ids) then 1 else 0) /\
        (forall j, count (is_immediate j) l' = count (is_immediate j) l)) ->
    forall l, NoDup (id :: ids) -> (forall j, j ∈ id :: ids -> exists w, wraps l !! j = Some w /\ _state w = kClosing) ->
    exists l', finish_all l ((id, true) :: hs) = Ret l' /\ closing l' = closing l /\ next l' = next l /\
        (forall j, wraps l' !! j = if decide (j ∈ id :: ids) then None else wraps l !! j) /\
        tracked_handle_wraps l' = tracked_handle_wraps l ∖ list_to_set (id :: ids) /\
        (forall j, count (is_deleted j) l' = count (is_deleted j) l + if decide (j ∈ id :: ids) then 1 else 0) /\
        (forall j, count (is_immediate j) l' = count (is_immediate j) l)).
  { clear. intros id hs ids IH l Hnd Hs. apply NoDup_cons in Hnd as [Hni Hnd].
    destruct (Hs id ltac:(apply list_elem_of_here)) as (w & Hl & Hst).
    destruct (OnClose_spec l id w Hl Hst) as (l1 & E1 & Hc1 & Hn1 & Hw1 & Ht1 & Hd1 & Hm1).
    destruct (IH l1 Hnd) as (l2 & E2 & Hc2 & Hn2 & Hw2 & Ht2 & Hd2 & Hm2).
    { intros j Hj. rewrite Hw1, lookup_delete_ne by (intros ->; done). apply Hs. by right. }
    exists l2. cbn [finish_all finish_close fst snd]. rewrite E1. cbn [mbind outcome_bind]. split_and!; try congruence.
    - intros j. rewrite Hw2, Hw1. destruct (decide (j = id)) as [->|].
      + rewrite lookup_delete_eq. rewrite (decide_True (P := id ∈ id :: ids)) by apply list_elem_of_here. by destruct (decide _).
      + rewrite lookup_delete_ne by done.
        destruct (decide (j ∈ ids)) as [Hin|Hin]; [rewrite decide_True by (by right)|rewrite decide_False by set_solver]; done.
    - rewrite Ht2, Ht1. cbn. set_solver.
    - intros j. rewrite Hd2, Hd1. destruct (decide (j = id)) as [->|].
      + rewrite (decide_False (P := id ∈ ids)) by done. rewrite decide_True by apply list_elem_of_here. lia.
      + destruct (decide (j ∈ ids)) as [Hin|Hin]; [rewrite decide_True by (by right)|rewrite decide_False by set_solver]; lia. }
  intros Hb. induction Hb as [|id hs ids Hk _ IH|id k hs ids Hk Hne _ IH]; intros l Hnd Hs.
  - exists l. cbn. split_and!; try done; first [set_solver | intros j; cbn; lia].
  - destruct (Hmain id hs ids IH l Hnd Hs) as (l' & E & H). exists l'. split; [|done].
    destruct (Hs id ltac:(apply list_elem_of_here)) as (w & Hl & _).
    change (finish_all l ((id, false) :: (id, true) :: hs)) with (l ← finish_close l (id, false); finish_all l ((id, true) :: hs)).
    unfold finish_close at 1. cbn [fst snd]. rewrite Hl. exact E.
  - by apply Hmain.
Qed.

Lemma run_closing_inv l :
  hinv l -> exists l', run_closing l = Ret l' /\ hinv l' /\ closing l' = [] /\ next l' = next l /\
    (forall j, wraps l' !! j = match wraps l !! j with
                              | Some w => if bool_decide (_state w = kClosing) then None else Some w
                              | None => None
                              end) /\
    forall j, count (is_immediate j) l' = count (is_immediate j) l.
Proof.
  intros [(ids & Hb & Hnd & Hids) Ht Hw Hd Hf]. unfold run_closing.
  destruct (finish_all_spec _ _ _ Hb (mkLoop (wraps l) (tracked_handle_wraps l) [] (next l) (calls l)) Hnd
              (fun id Hid => proj1 (Hids id) Hid)) as (l' & E & Hc' & Hn' & Hw' & Ht' & Hd' & Hm').
  cbn [wraps tracked_handle_wraps closing next] in *. exists l'.
  assert (Hchar : forall j, wraps l' !! j = match wraps l !! j with
      | Some w => if bool_decide (_state w = kClosing) then None else Some w | None => None end).
  { intros j. rewrite Hw'. destruct (decide (j ∈ ids)) as [Hin|Hin].
    - apply Hids in Hin as (w & -> & ->). done.
    - destruct (wraps l !! j) as [w|] eqn:Ej; [|done]. rewrite bool_decide_eq_false_2; [done|].
      intros Hst. apply Hin, Hids. eauto. }
  split_and!; try done. split.
  - exists []. rewrite Hc'. split_and!; [constructor|constructor|]. intros j. split; [by intros ?%elem_of_nil|].
    intros (w & Hj & Hst). rewrite Hchar in Hj. destruct (wraps l !! j) as [w0|]; [|done].
    destruct (bool_decide _) eqn:Eb; [done|]. simplify_eq. by apply bool_decide_eq_false in Eb.
  - rewrite Ht', Ht. apply set_eq. intros j. rewrite elem_of_difference, elem_of_list_to_set, !elem_of_dom, Hw'.
    destruct (decide (j ∈ ids)); split; try tauto; try (intros [? ?]; done).
  - intros j w Hj. rewrite Hchar in Hj. destruct (wraps l !! j) as [w0|] eqn:E0; [|done].
    destruct (bool_decide _); [done|]. simplify_eq. destruct (Hw _ _ E0) as (? & ? & ? & ?).
    split_and!; try done. congruence.
  - intros j. rewrite Hd', Hn'. change (count (is_deleted j) (mkLoop _ _ _ _ _)) with (count (is_deleted j) l). rewrite Hd, Hw'.
    destruct (decide (j ∈ ids)) as [Hin|Hin]; [|rewrite Nat.add_0_r; done].
    apply Hids in Hin as (w & Hj & _). rewrite Hj. destruct (Hw _ _ Hj) as (Hlt & _).
    by destruct (decide (j < next l)).
  - intros j. rewrite Hn'. intros Hj. by rewrite Hchar, (Hf j Hj).
Qed.

(** ** Steps *)

Lemma stopped_ok l id w : wrap_ok l id w -> wrap_ok l id (stopped w).
Proof. intros (? & ? & ? & ?). split_and!; done. Qed.

Lemma weak_ok l id w : wrap_ok l id w -> wrap_ok l id (MakeWeak w).
Proof. intros (? & ? & ? & ?). split_and!; done. Qed.

(** A logged callback that is not a deletion. *)
Lemma log_inv l c : hinv l -> (forall j, is_deleted j c = false) -> hinv (log l c).
Proof.
  intros [H1 Ht Hw Hd Hf] Hcd. split; try done. intros j. unfold count. cbn. rewrite Hcd. apply Hd.
Qed.

(** The list of close_all at the destruction leaves an immediate that is being closed
    no chance; every other wrap is closed at most once. *)
Definition stuck (w : Wrap) : bool := bool_decide (kind w = KImmediate) && bool_decide (_state w = kClosing).

Lemma Close_spec l id w cb :
  hinv l -> wraps l !! id = Some w ->
  if bool_decide (_state w = kInitialized) then True
  else Close l id cb = if stuck w then Fault CheckFailed else Ret l.
Proof.
  intros Hi Hl. destruct (bool_decide (_state w = kInitialized)) eqn:Eb; [done|]. apply bool_decide_eq_false in Eb.
  destruct (hi_wraps _ Hi _ _ Hl) as (_ & Hnc & Hic & _). assert (Hs : _state w = kClosing) by (by destruct (_state w)).
  unfold Close, HandleWrap_Close, stuck. rewrite Hl, Hs, (bool_decide_eq_true_2 (kClosing <> kInitialized)) by done. cbn [mbind outcome_bind].
  rewrite (bool_decide_eq_true_2 (kClosing = kClosing)) by done. rewrite andb_true_r.
  destruct (bool_decide (kind w = KImmediate)) eqn:Ek; [|done].
  unfold close_idle. rewrite Hl, Hic, Hs. done.
Qed.

Lemma collected_put l id w :
  collected l -> (kind w = KImmediate -> _state w = kClosing -> persistent_ w = PEmpty) -> collected (put l id w).
Proof. intros Hc Hw. by apply map_Forall_insert_2. Qed.

Lemma collected_Close l id w cb :
  hinv l -> collected l -> wraps l !! id = Some w -> (kind w = KImmediate -> persistent_ w = PEmpty /\ _state w = kInitialized) ->
  exists l', Close l id cb = Ret l' /\ hinv l' /\ collected l' /\
    (forall j, j <> id -> wraps l' !! j = wraps l !! j) /\ next l' = next l /\ calls l' = calls l /\
    (forall w', wraps l' !! id = Some w' -> active w' = true -> active w = true).
Proof.
  intros Hi Hco Hl Hk. pose proof (Close_spec l id w cb Hi Hl) as Hc.
  destruct (decide (_state w = kInitialized)) as [Hs|Hs].
  - destruct (Close_open l id w cb Hi Hl Hs) as (set & ->). eexists. split; [done|]. split; [by apply Close_open_inv|].
    split; [apply map_Forall_insert_2; [|done]; cbn; intros Him _; by apply Hk|]. cbn.
    split_and!; try done; [intros j Hj; by rewrite lookup_insert_ne|]. rewrite lookup_insert_eq. by intros w' [= <-].
  - rewrite bool_decide_eq_false_2 in Hc by done. unfold stuck in Hc. rewrite bool_decide_eq_false_2 in Hc; [|naive_solver].
    cbn [andb] in Hc. exists l. split_and!; try done. congruence.
Qed.

Lemma immediate_open_same l l' id : immediate_open l id -> wraps l' !! id = wraps l !! id -> immediate_open l' id.
Proof. unfold immediate_open. by intros ? ->. Qed.

(** Nothing is called, and only new handles are started. *)
Definition quiet (l l' : Loop) : Prop :=
  calls l' = calls l /\ next l <= next l' /\
  forall j w', wraps l' !! j = Some w' -> active w' = true -> next l <= j \/ exists w, wraps l !! j = Some w /\ active w = true.

Lemma quiet_refl l : quiet l l.
Proof. split_and!; [done..|]. eauto. Qed.

Lemma quiet_put l id w w' : wraps l !! id = Some w -> (active w' = true -> active w = true) -> quiet l (put l id w').
Proof.
  intros Hl Ha. split_and!; [done..|]. cbn. intros j wj. destruct (decide (j = id)) as [->|].
  - rewrite lookup_insert_eq. intros [= <-]. eauto.
  - rewrite lookup_insert_ne by done. eauto.
Qed.

Lemma quiet_new l k tm idle : quiet l (HandleWrap_new l k tm idle).
Proof.
  split_and!; cbn; [done|lia|]. intros j wj. destruct (decide (j = next l)) as [->|]; [by left|].
  rewrite lookup_insert_ne by done. eauto.
Qed.

Lemma sinv_put im l id w w' : sinv im l -> wraps l !! id = Some w -> kind w' = kind w -> _state w' = _state w ->
  wrap_ok l id w' -> (persistent_ w = PEmpty -> persistent_ w' = PEmpty) -> sinv im (put l id w').
Proof.
  intros [Hi Hco Hop] Hl Hk Hs Hok Hp. split; [by eapply put_inv|..].
  - apply collected_put; [done|]. rewrite Hk, Hs. intros H1 H2. exact (Hp (Hco _ _ Hl H1 H2)).
  - intros j Hj. destruct (Hop j Hj) as (wj & Hlj & Hkj & Hsj). destruct (decide (j = id)) as [->|Hne].
    + exists w'. cbn. rewrite lookup_insert_eq. assert (wj = w) as -> by congruence. by rewrite Hk, Hs.
    + exists wj. cbn. by rewrite lookup_insert_ne.
Qed.

Lemma sinv_stopped im l id w : sinv im l -> wraps l !! id = Some w -> sinv im (put l id (stopped w)).
Proof. intros Hi Hl. eapply sinv_put; [done..|by apply stopped_ok, (hi_wraps _ (si_hinv _ _ Hi))|done]. Qed.

Lemma sinv_removed im l id w : sinv im l -> wraps l !! id = Some w -> sinv im (put l id (stopped (MakeWeak w))).
Proof.
  intros Hi Hl. eapply sinv_put; [done..| |by cbn; intros ->]. by apply stopped_ok, weak_ok, (hi_wraps _ (si_hinv _ _ Hi)).
Qed.

Lemma sinv_new im l k tm idle : sinv im l -> sinv im (HandleWrap_new l k tm idle).
Proof.
  intros [Hi Hco Hop]. split; [by apply new_inv|by apply map_Forall_insert_2|]. intros j Hj.
  destruct (Hop j Hj) as (wj & Hlj & Hkj & Hsj). exists wj. cbn. rewrite lookup_insert_ne; [done|]. intros <-.
  rewrite (hi_fresh _ Hi) in Hlj; [done|lia].
Qed.

(** The collector takes no receiver of a running callback. *)
Lemma collect_inv im l id w : sinv im l -> wraps l !! id = Some w -> persistent_ w = PWeak -> id ∉ im ->
  exists l', OnGCCollect l id = Ret l' /\ sinv im l' /\ quiet l l'.
Proof.
  intros [Hi Hco Hop] Hl Hp Hni. unfold OnGCCollect. rewrite Hl. set (w' := mkWrap _ _ PEmpty _ _ _ _ _).
  pose proof (hi_wraps _ Hi _ _ Hl) as Hok.
  destruct (collected_Close (put l id w') id w' false) as (l' & E & Hi' & Hc' & Hw' & Hn' & Hl' & Ha').
  - eapply put_inv; [done..|]. destruct Hok as (? & ? & ? & ?). split_and!; done.
  - by apply collected_put.
  - cbn. apply lookup_insert_eq.
  - cbn. intros Hk. split; [done|]. destruct Hok as (_ & Hnc & _). destruct (_state w) eqn:Hs; [done| |done].
    rewrite (Hco _ _ Hl Hk Hs) in Hp. done.
  - assert (Hother : forall j, j <> id -> wraps l' !! j = wraps l !! j).
    { intros j Hj. rewrite Hw' by done. cbn. by rewrite lookup_insert_ne. }
    exists l'. split; [done|]. split.
    + split; [done..|]. intros j Hj. apply (immediate_open_same l); [by auto|]. apply Hother. by intros ->.
    + split_and!; [by rewrite Hl'|by rewrite Hn'|]. intros j wj Hj Haj. right. destruct (decide (j = id)) as [->|].
      * exists w. split; [done|]. exact (Ha' _ Hj Haj).
      * rewrite Hother in Hj by done. eauto.
Qed.

(** The events that are not the loop's. *)
Lemma act_inv held im l e : im ⊆ held -> sinv im l -> from_loop e = false ->
  exists l', hstep held l e = Ret l' /\ sinv im l' /\ quiet l l'.
Proof.
  intros Him Hsi He. pose proof Hsi as [Hi Hco Hop]. pose proof (quiet_refl l) as Hq.
  destruct e as [i r| | |id|id|id cb|id|id js|]; try discriminate He; cbn [hstep].
  1-3: eexists; split; [done|]; split; [by apply sinv_new|apply quiet_new].
  - eexists. split; [done|]. unfold TimerWrap_Remove, ImmediateWrap_Remove.
    destruct (wraps l !! id) as [w|] eqn:Hl; [|done]. cbn.
    destruct (kind w); [| |done]; (split; [by apply sinv_removed|by eapply quiet_put]).
  - eexists. split; [done|]. unfold SignalWrap_Stop. destruct (wraps l !! id) as [w|] eqn:Hl; [|done]. cbn.
    destruct (kind w) eqn:Hk; [done..|]. split; [by apply sinv_stopped|by eapply quiet_put].
  - destruct (wraps l !! id) as [w|] eqn:Hl; [|by eauto]. cbn.
    destruct (decide (kind w = KImmediate)) as [Hk|Hk]; [rewrite Hk; by eauto|].
    destruct (collected_Close l id w cb Hi Hco Hl ltac:(done)) as (l' & E & Hi' & Hc' & Hw' & Hn' & Hl' & Ha'). exists l'.
    split; [by destruct (kind w)|]. split.
    + split; [done..|]. intros j Hj. apply (immediate_open_same l); [by auto|].
      apply Hw'. intros ->. destruct (Hop _ Hj) as (? & ? & ? & ?). congruence.
    + split_and!; [by rewrite Hl'|by rewrite Hn'|]. intros j wj Hj Haj. right. destruct (decide (j = id)) as [->|]; [by eauto|].
      rewrite Hw' in Hj by done. eauto.
  - destruct (wraps l !! id) as [w|] eqn:Hl; [|by eauto]. cbn. destruct (persistent_ w) eqn:Hp; [by eauto| |by eauto].
    case_bool_decide as Hh; [by eauto|]. eapply collect_inv; [done..|]. by intros ?%Him.
Qed.

Lemma sinv_log im l c : sinv im l -> (forall j, is_deleted j c = false) -> sinv im (log l c).
Proof. intros [Hi Hco Hop] Hc. split; [by apply log_inv|done|done]. Qed.

Lemma sinv_sub im im' l : im ⊆ im' -> sinv im' l -> sinv im l.
Proof. intros Hs [Hi Hco Hop]. split; [done..|]. auto. Qed.

Lemma hrun_sinv held im es : im ⊆ held ->
  Forall (fun e => forall held im l, im ⊆ held -> sinv im l -> exists l', hstep held l e = Ret l' /\ sinv im l') es ->
  forall l, sinv im l -> exists l', hrun held l es = Ret l' /\ sinv im l'.
Proof.
  intros Him H. induction H as [|e es He _ IH]; intros l Hi; [by exists l|].
  rewrite hrun_cons. destruct (He held im l Him Hi) as (l1 & -> & Hi1). by apply IH.
Qed.

(** Every event, with whatever its callback does, is safe. *)
Lemma hstep_sinv e : forall held im l, im ⊆ held -> sinv im l -> exists l', hstep held l e = Ret l' /\ sinv im l'.
Proof.
  induction e as [e IH] using HEvent_nested_ind. intros held im l Him Hi.
  destruct (from_loop e) eqn:Hf; [|by destruct (act_inv held im l e) as (l' & ? & ? & _); eauto]. pose proof Hi as [Hh Hco Hop].
  destruct e as [| | | | | | |id js|]; try discriminate Hf.
  - rewrite hstep_trigger. cbn [callback] in IH. unfold trigger. destruct (wraps l !! id) as [w|] eqn:Hl; [|by eauto].
    destruct (active w) eqn:Ha; [|by eauto]. destruct (kind w) eqn:Hk.
    + apply (hrun_sinv (id :: held) im); [set_solver|done|]. apply sinv_log; [|done].
      destruct (_ =? 0)%Z; [by apply sinv_stopped|done].
    + destruct (hrun_sinv (id :: held) (id :: im) js ltac:(set_solver) IH (log l (COnImmediate id))) as (l1 & E & Hi1).
      { apply sinv_log; [|done]. split; [done..|]. intros j [->|Hj]%elem_of_cons; [|by auto]. exists w. split_and!; [done..|].
        by apply (hi_wraps _ Hh _ _ Hl). }
      unfold TriggerImmediate. rewrite E. cbn [mbind outcome_bind].
      destruct (si_open _ _ Hi1 id ltac:(left)) as (w1 & Hl1 & _). rewrite Hl1. eexists. split; [done|].
      apply sinv_stopped; [|done]. apply (sinv_sub _ (id :: im)); [set_solver|done].
    + apply (hrun_sinv (id :: held) im); [set_solver|done|]. by apply sinv_log.
  - destruct (run_closing_inv l Hh) as (l' & E & Hi' & _ & _ & Hch & _). exists l'. split; [done|]. split; [done| |].
    + intros id w Hl. rewrite Hch in Hl. destruct (wraps l !! id) as [w0|] eqn:E0; [|done].
      destruct (bool_decide _); [done|]. simplify_eq. exact (Hco _ _ E0).
    + intros j Hj. destruct (Hop j Hj) as (wj & Hlj & Hkj & Hsj). exists wj. rewrite Hch, Hlj, Hsj. done.
Qed.

Lemma hrun_inv held im es l : im ⊆ held -> sinv im l -> exists l', hrun held l es = Ret l' /\ sinv im l'.
Proof. intros Him. apply hrun_sinv; [done|]. apply Forall_forall. intros e _. apply hstep_sinv. Qed.

Lemma loop_init_inv : sinv [] Loop_init.
Proof.
  split; [split; cbn| |by intros id ?%elem_of_nil].
  - exists []. split_and!; [constructor|constructor|]. intros id. split; [by intros ?%elem_of_nil|].
    intros (w & Hw & _). by rewrite lookup_empty in Hw.
  - by rewrite dom_empty_L.
  - intros id w. by rewrite lookup_empty.
  - intros id. by destruct (decide (id < 0)); [lia|].
  - intros id. by rewrite lookup_empty.
  - apply map_Forall_empty.
Qed.

(** ** Immediates are called once, unless a loop is nested *)

Lemma once_quiet im l l' : sinv im l -> once im l -> quiet l l' -> once im l'.
Proof.
  intros Hi [Ha Hf Ho] (Hc & Hn & Hw). assert (Hcount : forall j, count (is_immediate j) l' = count (is_immediate j) l).
  { intros j. unfold count. by rewrite Hc. }
  split.
  - intros j w' Hj Hact Hni. rewrite Hcount. destruct (Hw j w' Hj Hact) as [?|(w & ? & ?)]; eauto.
  - intros j Hj. rewrite Hcount. apply Hf. lia.
  - intros j. by rewrite Hcount.
Qed.

Lemma callback_once held im es : im ⊆ held -> forallb (fun e => negb (from_loop e)) es = true -> forall l l',
  sinv im l -> once im l -> hrun held l es = Ret l' -> sinv im l' /\ once im l'.
Proof.
  intros Him. induction es as [|e es IH]; intros Hes l l' Hi Ho; [by intros [= <-]|].
  cbn in Hes. apply andb_true_iff in Hes as [He%negb_true_iff Hes]. rewrite hrun_cons.
  destruct (act_inv held im l e Him Hi He) as (l1 & -> & Hi1 & Hq). apply IH; [done..|]. by apply (once_quiet im l).
Qed.

Lemma log_once l c : once [] l -> (forall j, is_immediate j c = false) -> once [] (log l c).
Proof.
  intros [Ha Hf Ho] Hc. assert (Hcount : forall j, count (is_immediate j) (log l c) = count (is_immediate j) l).
  { intros j. unfold count. cbn. by rewrite Hc. }
  split; [intros j w; rewrite Hcount; by apply Ha|intros j; rewrite Hcount; by apply Hf|intros j; by rewrite Hcount].
Qed.

Lemma log_immediate_once l id w : hinv l -> once [] l -> wraps l !! id = Some w -> active w = true ->
  once [id] (log l (COnImmediate id)).
Proof.
  intros Hi [Ha Hf Ho] Hl Hact. assert (Hcount : forall j, count (is_immediate j) (log l (COnImmediate id)) =
    count (is_immediate j) l + if decide (j = id) then 1 else 0).
  { intros j. unfold count. cbn. destruct (Nat.eqb_spec id j) as [->|Hne]; cbn.
    - rewrite decide_True by done. lia.
    - rewrite decide_False by congruence. lia. }
  split.
  - intros j wj Hj Haj Hne%not_elem_of_cons. rewrite Hcount, decide_False, Nat.add_0_r by tauto.
    apply (Ha j wj); [done..|apply not_elem_of_nil].
  - intros j Hj. rewrite Hcount, decide_False, Nat.add_0_r; [by apply Hf|]. intros ->. destruct (hi_wraps _ Hi _ _ Hl). cbn in Hj. lia.
  - intros j. rewrite Hcount. destruct (decide (j = id)) as [->|]; [|rewrite Nat.add_0_r; apply Ho].
    rewrite (Ha id w) by (done || apply not_elem_of_nil). lia.
Qed.

Lemma stopped_once l id w : once [id] l -> wraps l !! id = Some w -> once [] (put l id (stopped w)).
Proof.
  intros [Ha Hf Ho] Hl. split; [|done..]. intros j wj. cbn. destruct (decide (j = id)) as [->|Hne].
  - rewrite lookup_insert_eq. by intros [= <-].
  - rewrite lookup_insert_ne by done. intros Hj Haj _. apply (Ha j wj); [done..|]. by rewrite list_elem_of_singleton.
Qed.

Lemma trigger_once l l' id js : forallb (fun e => negb (from_loop e)) js = true -> sinv [] l -> once [] l ->
  hstep [] l (HTrigger id js) = Ret l' -> once [] l'.
Proof.
  intros Hjs Hi Ho. rewrite hstep_trigger. unfold trigger. destruct (wraps l !! id) as [w|] eqn:Hl; [|by intros [= <-]].
  destruct (active w) eqn:Ha; [|by intros [= <-]].
  assert (Hst : sinv [] (put l id (stopped w)) /\ once [] (put l id (stopped w))).
  { split; [by apply sinv_stopped|]. apply (once_quiet [] l); [done..|]. by eapply quiet_put. }
  destruct (kind w) eqn:Hk.
  - unfold TriggerTimer. intros Hr. apply (callback_once [id] [] js) in Hr as [_ ?]; try done; [set_solver|..];
      (destruct (_ =? 0)%Z; [apply sinv_log || apply log_once; by try apply Hst|apply sinv_log || apply log_once; done]).
  - unfold TriggerImmediate. intros (l1 & Hr & Hs)%outcome_bind_inv.
    apply (callback_once [id] [id] js) in Hr as [Hi1 Ho1]; [|done|done| |by eapply log_immediate_once; [apply Hi|..]].
    + destruct (wraps l1 !! id) as [w1|] eqn:Hl1; [|done]. injection Hs as <-. by apply stopped_once.
    + apply sinv_log; [|done]. destruct Hi as [Hh Hco Hop]. split; [done..|]. intros j ->%list_elem_of_singleton.
      exists w. split_and!; [done..|]. by apply (hi_wraps _ Hh _ _ Hl).
  - unfold SignalCallback. intros Hr. apply (callback_once [id] [] js) in Hr as [_ ?]; try done; [set_solver|by apply sinv_log|by apply log_once].
Qed.

Lemma hrun_once es : not_nested es = true -> forall l l', sinv [] l -> once [] l -> hrun [] l es = Ret l' -> once [] l'.
Proof.
  induction es as [|e es IH]; intros Hn l l' Hi Ho; [by intros [= <-]|].
  cbn in Hn. apply andb_true_iff in Hn as [He Hn]. rewrite hrun_cons. intros (l1 & H1 & H2)%outcome_bind_inv.
  destruct (hstep_sinv e [] [] l ltac:(done) Hi) as (l1' & E & Hi1). assert (l1' = l1) as -> by congruence.
  apply (IH Hn l1 l'); [done| |done]. destruct (from_loop e) eqn:Hf.
  - destruct e as [| | | | | | |id js|]; try discriminate Hf; [by apply (trigger_once l l1 id js)|].
    destruct (run_closing_inv l (si_hinv _ _ Hi)) as (l2 & E2 & _ & _ & Hnx & Hch & Hcount).
    assert (l2 = l1) as -> by (cbn in E; congruence). destruct Ho as [Ha Hfr Hone]. split.
    + intros j w Hj Haj Hni. rewrite Hcount. rewrite Hch in Hj. destruct (wraps l !! j) as [w0|] eqn:E0; [|done].
      destruct (bool_decide _); [done|]. simplify_eq. eauto.
    + intros j. rewrite Hnx, Hcount. apply Hfr.
    + intros j. rewrite Hcount. apply Hone.
  - destruct (act_inv [] [] l e ltac:(done) Hi Hf) as (l2 & E2 & _ & Hq). assert (l2 = l1) as -> by congruence.
    by apply (once_quiet [] l).
Qed.

(** * Properties *)

(** C22 Handles live as long as libuv needs them: over every history of creating,
    removing, stopping, closing, collecting and triggering timers, immediates and
    signals and of turns of the loop, where the callbacks do the same, loops nested in them
    by the inspector included, nothing faults (no handle is closed twice, no callback finds
    its wrap deleted, none is gone when its immediate is stopped after its callback); a wrap
    is tracked until it is deleted, which happens once; the memory of a handle in the closing
    list is still there; only open handles are started; and unless a loop is nested in a
    callback, an immediate's callback runs at most once. *)
Theorem handle_wraps_safe es :
  exists l, hrun [] Loop_init es = Ret l /\
    tracked_handle_wraps l = dom (wraps l) /\
    (forall id, count (is_deleted id) l = if decide (id < next l) then match wraps l !! id with Some _ => 0 | None => 1 end else 0) /\
    (forall id b, (id, b) ∈ closing l -> exists w, wraps l !! id = Some w /\ _state w = kClosing) /\
    (not_nested es = true -> forall id, count (is_immediate id) l <= 1) /\
    (forall id w, wraps l !! id = Some w -> active w = true -> _state w = kInitialized).
Proof.
  destruct (hrun_inv [] [] es Loop_init ltac:(done) loop_init_inv) as (l & E & [[(ids & Hb & Hnd & Hids) Ht Hw Hd Hf] _ _]). exists l.
  split_and!; try done.
  - intros id b Hin. apply Hids. clear Hids Hnd. induction Hb as [|i hs js Hk _ IH|i k hs js Hk Hne _ IH].
    + by apply elem_of_nil in Hin.
    + rewrite !elem_of_cons in Hin. destruct Hin as [[= -> _]|[[= -> _]|Hin]]; [apply list_elem_of_here..|right; auto].
    + rewrite elem_of_cons in Hin. destruct Hin as [[= -> _]|Hin]; [apply list_elem_of_here|right; auto].
  - intros Hn. apply (on_once [] l), (hrun_once es Hn Loop_init); [apply loop_init_inv| |done].
    split; cbn; [|done|lia]. intros id w. by rewrite lookup_empty.
  - intros id w Hl. by destruct (Hw id w Hl) as (? & ? & ? & ?).
Qed.

(** In a loop nested in its own callback, as the inspector runs one while the script is
    paused, an immediate is still started and is called again. *)
Theorem nested_loop_repeats_immediate : exists l,
  hrun [] Loop_init [HNewImmediate; HTrigger 0 [HTrigger 0 []]] = Ret l /\ count (is_immediate 0) l = 2.
Proof. eexists. split; vm_compute; reflexivity. Qed.

(** ** Destruction *)

(** Whether the destructor can close a wrap. *)
Lemma close_all_spec ids : forall l,
  hinv l -> NoDup ids -> (forall id, id ∈ ids -> is_Some (wraps l !! id)) ->
  if existsb (fun id => match wraps l !! id with Some w => stuck w | None => false end) ids
  then close_all l ids = Fault CheckFailed
  else exists l', close_all l ids = Ret l' /\ hinv l' /\ next l' = next l /\
    forall j, if decide (j ∈ ids) then exists w, wraps l' !! j = Some w /\ _state w = kClosing
              else wraps l' !! j = wraps l !! j.
Proof.
  induction ids as [|id ids IH]; intros l Hi Hnd Hin; cbn [existsb close_all].
  - exists l. by split_and!.
  - apply NoDup_cons in Hnd as [Hni Hnd]. destruct (Hin id ltac:(apply list_elem_of_here)) as [w Hl].
    pose proof (Close_spec l id w false Hi Hl) as Hc. rewrite Hl.
    destruct (decide (_state w = kInitialized)) as [Hs|Hs].
    + destruct (Close_open l id w false Hi Hl Hs) as (set & ->). cbn [mbind outcome_bind].
      assert (Hst : stuck w = false) by (unfold stuck; rewrite Hs; by rewrite andb_false_r). rewrite Hst. cbn [orb].
      set (l1 := mkLoop _ _ _ _ _). assert (Hi1 : hinv l1) by (by apply Close_open_inv).
      assert (Hsame : forall j, j ∈ ids -> wraps l1 !! j = wraps l !! j).
      { intros j Hj. cbn. rewrite lookup_insert_ne; [done|]. intros ->. done. }
      specialize (IH l1 Hi1 Hnd).
      assert (Hex : existsb (fun id => match wraps l1 !! id with Some w => stuck w | None => false end) ids =
                    existsb (fun id => match wraps l !! id with Some w => stuck w | None => false end) ids).
      { clear -Hsame. induction ids as [|j ids IH]; [done|]. cbn [existsb]. rewrite Hsame by apply list_elem_of_here.
        f_equal. apply IH. intros k Hk. apply Hsame. by right. }
      rewrite Hex in IH. specialize (IH ltac:(intros j Hj; rewrite Hsame by done; apply Hin; by right)).
      destruct (existsb _ ids); [done|]. destruct IH as (l2 & -> & Hi2 & Hn2 & Hw2). exists l2. split_and!; try done.
      intros j. specialize (Hw2 j). destruct (decide (j = id)) as [->|Hne].
      * rewrite decide_True by apply list_elem_of_here. rewrite decide_False in Hw2 by done. rewrite Hw2. cbn.
        rewrite lookup_insert_eq. eauto.
      * destruct (decide (j ∈ ids)) as [Hj|Hj]; [rewrite decide_True by (by right); done|].
        rewrite decide_False by set_solver. rewrite Hw2. cbn. by rewrite lookup_insert_ne.
    + rewrite bool_decide_eq_false_2 in Hc by done. rewrite Hc. destruct (stuck w); [done|]. cbn [mbind outcome_bind orb].
      specialize (IH l Hi Hnd ltac:(intros j Hj; apply Hin; by right)). destruct (existsb _ ids); [done|].
      destruct IH as (l2 & -> & Hi2 & Hn2 & Hw2). exists l2. split_and!; try done.
      intros j. specialize (Hw2 j). destruct (decide (j = id)) as [->|Hne].
      * rewrite decide_True by apply list_elem_of_here. rewrite decide_False in Hw2 by done. exists w. split; [congruence|].
        destruct (hi_wraps _ Hi _ _ Hl) as (_ & ? & _). by destruct (_state w).
      * destruct (decide (j ∈ ids)) as [Hj|Hj]; [rewrite decide_True by (by right); done|].
        rewrite decide_False by set_solver. done.
Qed.

(** C23 What the destruction of the process does with the handles, after any history: if
    no immediate is waiting for its close callback, every wrap is closed and deleted
    exactly once and none is left; if one is, its idle handle is closed a second time
    and libuv's assertion ends the process. *)
Theorem shutdown_closes_handles es :
  exists l, hrun [] Loop_init es = Ret l /\
    if existsb stuck (map_to_list (wraps l)).*2 then close_handles l = Fault CheckFailed
    else exists l', close_handles l = Ret l' /\ wraps l' = ∅ /\ closing l' = [] /\
      forall id, id < next l -> count (is_deleted id) l' = 1.
Proof.
  destruct (hrun_inv [] [] es Loop_init ltac:(done) loop_init_inv) as (l & E & [Hi _ _]). exists l. split; [done|].
  unfold close_handles. pose proof (hi_tracked _ Hi) as Ht.
  pose proof (close_all_spec (elements (tracked_handle_wraps l)) l Hi (NoDup_elements _)) as Hca.
  specialize (Hca ltac:(intros id Hid; apply elem_of_elements in Hid; rewrite Ht in Hid; by apply elem_of_dom)).
  assert (Hex : existsb stuck (map_to_list (wraps l)).*2 =
    existsb (fun id => match wraps l !! id with Some w => stuck w | None => false end) (elements (tracked_handle_wraps l))).
  { apply eq_true_iff_eq. rewrite !existsb_exists. split.
    - intros (w & Hw & Hs). apply list_elem_of_In, list_elem_of_fmap in Hw as ([id w'] & -> & Hin).
      apply elem_of_map_to_list in Hin. exists id. rewrite Hin. split; [|done].
      apply list_elem_of_In, elem_of_elements. rewrite Ht. by eapply elem_of_dom_2.
    - intros (id & _ & Hs). destruct (wraps l !! id) as [w|] eqn:Hl; [|done]. exists w. split; [|done].
      apply list_elem_of_In, list_elem_of_fmap. exists (id, w). split; [done|]. by apply elem_of_map_to_list. }
  rewrite Hex. destruct (existsb _ (elements _)); [by rewrite Hca|].
  destruct Hca as (l1 & -> & Hi1 & Hn1 & Hw1). cbn [mbind outcome_bind].
  destruct (run_closing_inv l1 Hi1) as (l2 & -> & Hi2 & Hc2 & Hn2 & Hw2 & _). exists l2.
  assert (Hempty : wraps l2 = ∅).
  { apply map_empty. intros j. rewrite Hw2. specialize (Hw1 j). destruct (decide _) as [Hj|Hj].
    - destruct Hw1 as (w & -> & ->). done.
    - rewrite Hw1. destruct (wraps l !! j) as [w|] eqn:Hl; [|done]. exfalso. apply Hj, elem_of_elements.
      rewrite Ht. by eapply elem_of_dom_2. }
  split_and!; try done. intros id Hid. rewrite (hi_deleted _ Hi2), decide_True by lia. by rewrite Hempty, lookup_empty.
Qed.

(** An immediate that is cleared and collected before the process ends: its object is
    collected after clearImmediate, and the destruction before the next turn of the loop
    fails libuv's assertion. *)
Theorem cleared_immediate_aborts :
  exists l, hrun [] Loop_init [HNewImmediate; HRemove 0; HCollect 0] = Ret l /\ close_handles l = Fault CheckFailed.
Proof. eexists. split; vm_compute; reflexivity. Qed.
