(* ===== verification/Json.v ===== *)
(** JSON as the specification of the two writers of the program (JsonUtils.v and
    TracedValue.v): the reading of a string body (RFC 8259, section 7), trees of
    keyed and unkeyed values, their printed form, and the removal of whitespace
    outside strings. *)

From S2P Require Import Prelude.

(** * Strings *)

Definition hex_val (b : byte) : option Z :=
  let v := bval b in
  if (48 <=? v) && (v <=? 57) then Some (v - 48)
  else if (65 <=? v) && (v <=? 70) then Some (v - 55)
  else if (97 <=? v) && (v <=? 102) then Some (v - 87)
  else None.

(** UTF-8 of a code point below 2^16. *)
Definition utf8_encode (cp : Z) : bytes :=
  if cp <? 128 then [byte_of cp]
  else if cp <? 2048 then [byte_of (192 + cp / 64); byte_of (128 + cp mod 64)]
  else [byte_of (224 + cp / 4096); byte_of (128 + cp / 64 mod 64); byte_of (128 + cp mod 64)].

Definition hex4 (a b c d : byte) : option Z :=
  a ← hex_val a; b ← hex_val b; c ← hex_val c; d ← hex_val d;
  Some (a * 4096 + b * 256 + c * 16 + d).

(** The characters after a reverse solidus, other than [u]. *)
Definition simple_escape (b : byte) : option byte :=
  match b with
  | x22 => Some x22 | x5c => Some x5c | x2f => Some x2f | x62 => Some x08
  | x66 => Some x0c | x6e => Some x0a | x72 => Some x0d | x74 => Some x09
  | _ => None
  end.

(** The text a string body stands for; [None] when it is not a string body. *)
Fixpoint json_unescape (s : bytes) : option bytes :=
  match s with
  | [] => Some []
  | b :: s1 =>
      if byte_eqb b x5c then
        match s1 with
        | e :: s2 =>
            if byte_eqb e x75 then
              match s2 with
              | h1 :: h2 :: h3 :: h4 :: s3 =>
                  cp ← hex4 h1 h2 h3 h4; r ← json_unescape s3; Some (utf8_encode cp ++ r)
              | _ => None
              end
            else c ← simple_escape e; r ← json_unescape s2; Some (c :: r)
        | [] => None
        end
      else if (byte_eqb b x22 || (bval b <? 32))%bool then None
      else r ← json_unescape s1; Some (b :: r)
  end.

(** * Numbers *)

(** Decimal text of an integer ([std::to_string], [operator<<]). *)
Fixpoint dec_digits (fuel : nat) (z : Z) (acc : bytes) : bytes :=
  match fuel with
  | O => acc
  | S fuel' =>
      let acc := byte_of (48 + z mod 10) :: acc in
      if z <? 10 then acc else dec_digits fuel' (z / 10) acc
  end.

Definition dec (z : Z) : bytes :=
  let digits := dec_digits (S (Z.to_nat (Z.log2 (Z.abs z)))) (Z.abs z) [] in
  if z <? 0 then x2d :: digits else digits.

Definition is_digit (b : byte) : bool := (48 <=? bval b) && (bval b <=? 57).

Lemma dec_digits_are_digits fuel : forall z acc,
  Forall (fun b => is_digit b) acc -> Forall (fun b => is_digit b) (dec_digits fuel z acc).
Proof.
  induction fuel as [|fuel IH]; intros z acc Hacc; simpl; [done|].
  assert (Hd : is_digit (byte_of (48 + z mod 10))).
  { unfold is_digit. rewrite bval_byte_of. pose proof (Z.mod_pos_bound z 10 ltac:(lia)).
    unfold u8. rewrite wrap_small by lia. apply Is_true_true, andb_true_intro.
    split; apply Z.leb_le; lia. }
  destruct (z <? 10); [by constructor|]. apply IH. by constructor.
Qed.

(** The value of a decimal numeral. *)
Definition read_dec (s : bytes) : Z := foldl (fun v c => 10 * v + (bval c - 48)) 0 s.

Lemma bval_digit d : 0 <= d < 10 -> bval (byte_of (48 + d)) = 48 + d.
Proof. intros Hd. rewrite bval_byte_of. unfold u8. rewrite wrap_small; [done|lia]. Qed.

Lemma read_dec_digits fuel : forall z acc, 0 <= z < 10 * 2 ^ Z.of_nat fuel ->
  read_dec (dec_digits (S fuel) z acc) = foldl (fun v c => 10 * v + (bval c - 48)) z acc.
Proof.
  induction fuel as [|fuel IH]; intros z acc Hz; pose proof (Z.mod_pos_bound z 10 ltac:(lia));
    cbn [dec_digits]; destruct (Z.ltb_spec z 10).
  - unfold read_dec. cbn [foldl]. rewrite bval_digit, Z.mod_small by lia. f_equal. lia.
  - simpl in Hz. lia.
  - unfold read_dec. cbn [foldl]. rewrite bval_digit, Z.mod_small by lia. f_equal. lia.
  - rewrite Nat2Z.inj_succ, Z.pow_succ_r in Hz by lia.
    change (if z / 10 <? 10 then _ else _) with (dec_digits (S fuel) (z / 10) (byte_of (48 + z mod 10) :: acc)).
    rewrite IH by (pose proof (Z.div_mod z 10 ltac:(lia)); pose proof (Z.pow_pos_nonneg 2 (Z.of_nat fuel)); lia).
    cbn [foldl]. f_equal. rewrite bval_digit by lia. pose proof (Z.div_mod z 10 ltac:(lia)). lia.
Qed.

Lemma dec_value z : read_dec (dec_digits (S (Z.to_nat (Z.log2 (Z.abs z)))) (Z.abs z) []) = Z.abs z.
Proof.
  rewrite read_dec_digits; [done|]. split; [lia|]. destruct (Z.eq_dec z 0) as [->|Hnz]; [done|].
  pose proof (Z.log2_spec (Z.abs z) ltac:(lia)). pose proof (Z.log2_nonneg (Z.abs z)). rewrite Z2Nat.id by done.
  rewrite Z.pow_succ_r in * by lia. lia.
Qed.

Lemma read_dec_dec z : 0 <= z -> read_dec (dec z) = z.
Proof. intros Hz. unfold dec. destruct (Z.ltb_spec z 0); [lia|]. rewrite dec_value. lia. Qed.

(** * Trees *)

(** A double by its [fpclassify] class; a nonzero finite one carries the text
    [std::ostream] gives it. *)
Inductive dbl := FpNan | FpInfinite (negative : bool) | FpZero | FpFinite (text : bytes).

Inductive scalar :=
  | VNull | VBool (b : bool) | VInt (z : Z) | VDouble (d : dbl) | VString (s : bytes)
  | VForeign (json : bytes).

(** A node with its key, if it is a member of an object. *)
Inductive node :=
  | Scalar (key : option bytes) (v : scalar)
  | Obj (key : option bytes) (children : list node)
  | Arr (key : option bytes) (children : list node).

Section node_ind.
Context (P : node -> Prop).
Context (HS : forall k v, P (Scalar k v)).
Context (HO : forall k l, Forall P l -> P (Obj k l)).
Context (HA : forall k l, Forall P l -> P (Arr k l)).
Fixpoint node_ind' (n : node) : P n :=
  let fix go (l : list node) : Forall P l :=
    match l with [] => Forall_nil_2 P | n :: l' => Forall_cons_2 P n l' (node_ind' n) (go l') end in
  match n with
  | Scalar k v => HS k v
  | Obj k l => HO k l (go l)
  | Arr k l => HA k l (go l)
  end.
End node_ind.

Definition comma_join (l : list bytes) : bytes :=
  match l with [] => [] | a :: l' => a ++ (l' ≫= fun b => x2c :: b) end.

Section print.
Context (print_key : bytes -> bytes) (print_scalar : scalar -> bytes).

Definition key_prefix (k : option bytes) : bytes :=
  match k with Some k => print_key k ++ [x3a] | None => [] end.

Fixpoint print (n : node) : bytes :=
  match n with
  | Scalar k v => key_prefix k ++ print_scalar v
  | Obj k l => key_prefix k ++ [x7b] ++ comma_join (map print l) ++ [x7d]
  | Arr k l => key_prefix k ++ [x5b] ++ comma_join (map print l) ++ [x5d]
  end.

Lemma comma_join_snoc l a :
  comma_join (l ++ [a]) = comma_join l ++ (if decide (l = []) then [] else [x2c]) ++ a.
Proof.
  destruct l as [|b l]; simpl; [by rewrite app_nil_r|].
  rewrite bind_app. simpl. by rewrite app_nil_r, <- app_assoc.
Qed.
End print.

(** * Whitespace outside strings *)

Inductive lex := Plain | InString | Escaped.
#[export] Instance lex_eq_dec : EqDecision lex := ltac:(solve_decision).

Definition is_ws (b : byte) : bool :=
  byte_eqb b x20 || byte_eqb b x0a || byte_eqb b x0d || byte_eqb b x09.

Definition lex_step (st : lex) (b : byte) : lex :=
  match st with
  | Plain => if byte_eqb b x22 then InString else Plain
  | InString => if byte_eqb b x5c then Escaped else if byte_eqb b x22 then Plain else InString
  | Escaped => InString
  end.

Fixpoint strip (st : lex) (s : bytes) : bytes :=
  match s with
  | [] => []
  | b :: s' =>
      let rest := strip (lex_step st b) s' in
      match st with Plain => if is_ws b then rest else b :: rest | _ => b :: rest end
  end.

Definition lex_run (st : lex) (s : bytes) : lex := foldl lex_step st s.

Lemma strip_app st s t : strip st (s ++ t) = strip st s ++ strip (lex_run st s) t.
Proof.
  revert st. induction s as [|b s IH]; intros st; [done|]. simpl. rewrite IH.
  destruct st; [case_match| |]; done.
Qed.

Lemma lex_run_app st s t : lex_run st (s ++ t) = lex_run (lex_run st s) t.
Proof. apply foldl_app. Qed.

(** Text that is complete (starts and ends outside strings) and holds no
    removable whitespace. *)
Definition solid (s : bytes) : Prop := lex_run Plain s = Plain /\ strip Plain s = s.

#[export] Instance solid_dec s : Decision (solid s) := ltac:(unfold solid; apply _).

(** Text that is complete and is only whitespace. *)
Definition blank (s : bytes) : Prop := lex_run Plain s = Plain /\ strip Plain s = [].

Lemma solid_app s t : solid s -> solid t -> solid (s ++ t).
Proof.
  intros [Hs1 Hs2] [Ht1 Ht2]. split; [by rewrite lex_run_app, Hs1|].
  by rewrite strip_app, Hs1, Hs2, Ht2.
Qed.

Lemma solid_nil : solid [].
Proof. done. Qed.

Lemma blank_app s t : blank s -> blank t -> blank (s ++ t).
Proof.
  intros [Hs1 Hs2] [Ht1 Ht2]. split; [by rewrite lex_run_app, Hs1|].
  by rewrite strip_app, Hs1, Hs2, Ht2.
Qed.

Lemma solid_char b : is_ws b = false -> b <> x22 -> solid [b].
Proof. intros Hw Hq. unfold solid. simpl. rewrite byte_eqb_ne by done. by rewrite Hw. Qed.

Lemma solid_forall s : Forall (fun b => is_ws b = false /\ b <> x22) s -> solid s.
Proof.
  induction 1 as [|b s [Hw Hq] _ IH]; [apply solid_nil|].
  apply (solid_app [b]); [by apply solid_char|done].
Qed.

Lemma blank_repeat b n : is_ws b = true -> blank (repeat b n).
Proof.
  intros Hw. assert (b <> x22) by (intros ->; done). induction n as [|n IH]; [done|].
  change (repeat b (S n)) with ([b] ++ repeat b n). apply blank_app; [|done].
  unfold blank. simpl. rewrite byte_eqb_ne by done. by rewrite Hw.
Qed.

Lemma is_digit_solid b : is_digit b = true -> is_ws b = false /\ b <> x22.
Proof.
  intros Hd.
  pose proof (byte_forall (fun b => implb (is_digit b) (negb (is_ws b) && negb (byte_eqb b x22)))
    ltac:(by vm_compute) b) as H. simpl in H. rewrite Hd in H. simpl in H.
  apply andb_prop in H as [H1%negb_true_iff H2%negb_true_iff]. split; [done|].
  intros ->. done.
Qed.

Lemma dec_solid z : solid (dec z).
Proof.
  unfold dec.
  assert (H : solid (dec_digits (S (Z.to_nat (Z.log2 (Z.abs z)))) (Z.abs z) [])).
  { apply solid_forall. eapply Forall_impl; [by apply dec_digits_are_digits|].
    intros b Hb%Is_true_true. by apply is_digit_solid. }
  destruct (z <? 0); [|done]. apply (solid_app [x2d]); [|done]. by apply solid_char.
Qed.

(** Evaluates the calls of [f] on a concrete byte in the goal. *)
Ltac eval_on f :=
  match goal with
  | |- context [f ?c] => let e := eval vm_compute in (f c) in change (f c) with e
  end.

#[export] Hint Resolve solid_app solid_nil blank_app dec_solid : aworker.
