(* ===== verification/JsonUtils.v ===== *)
(** src/src/json_utils.{h,cc}: escaping, reindentation and the streaming
    JSONWriter the diagnostic report is written with.

    [Writer] is JSONWriter with its output accumulated; one definition per
    method.  [write_node] calls the methods for a tree the way a client does. *)

From S2P Require Import Prelude Json.

Module JsonText.
Import String.StringSyntax.
Local Open Scope string_scope.
(** [src/src/json_utils.cc 6-12, EscapeJsonChars] *)
Definition control_symbols : list bytes := map bs
  ["\u0000"; "\u0001"; "\u0002"; "\u0003"; "\u0004"; "\u0005";
   "\u0006"; "\u0007"; "\b";     "\t";     "\n";     "\v";
   "\f";     "\r";     "\u000e"; "\u000f"; "\u0010"; "\u0011";
   "\u0012"; "\u0013"; "\u0014"; "\u0015"; "\u0016"; "\u0017";
   "\u0018"; "\u0019"; "\u001a"; "\u001b"; "\u001c"; "\u001d";
   "\u001e"; "\u001f"].
Definition txt_true := bs "true".
Definition txt_false := bs "false".
Definition txt_null := bs "null".
Definition txt_nan := bs "nan".
Definition txt_inf := bs "inf".
Definition txt_neg_inf := bs "-inf".
End JsonText.
Export JsonText.

(** * EscapeJsonChars *)

(** [src/src/json_utils.cc 18-27, EscapeJsonChars] The replacement of one
    character; [num] is the [char] converted to [size_t], so a byte from 0x80 on
    becomes a large number. *)
Definition replace_char (ch : byte) : bytes :=
  if byte_eqb ch x5c then [x5c; x5c]
  else if byte_eqb ch x22 then [x5c; x22]
  else
    let c := if bval ch <? 128 then bval ch else bval ch - 256 in
    let num := u64 c in
    if num <? 32 then nth (Z.to_nat num) control_symbols [] else [].

(** [std::string::substr] for a start inside the string. *)
Definition substr (s : bytes) (pos n : nat) : bytes := take n (drop pos s).

(** [src/src/json_utils.cc 17-35, EscapeJsonChars] The loop, with the positions it
    keeps. *)
Fixpoint escape_loop (fuel : nat) (str : bytes) (pos last_pos : nat) (ret : bytes)
    : nat * nat * bytes :=
  match fuel with
  | O => (pos, last_pos, ret)
  | S fuel' =>
      if (pos <? length str)%nat then
        let replace := replace_char (nth pos str x00) in
        if bool_decide (replace = []) then escape_loop fuel' str (pos + 1) last_pos ret
        else
          let ret := if (last_pos <? pos)%nat then ret ++ substr str last_pos (pos - last_pos) else ret in
          escape_loop fuel' str (pos + 1) (pos + 1) (ret ++ replace)
      else (pos, last_pos, ret)
  end.

(** [src/src/json_utils.cc 5-41, EscapeJsonChars] *)
Definition EscapeJsonChars (str : bytes) : bytes :=
  let '(pos, last_pos, ret) := escape_loop (length str) str 0 0 [] in
  if (last_pos <? length str)%nat then ret ++ substr str last_pos (pos - last_pos) else ret.

(** * Reindent *)

(** [str.find(c, pos)] *)
Fixpoint find_from (c : byte) (s : bytes) (pos : nat) : option nat :=
  match s with
  | [] => None
  | b :: s' =>
      match pos with
      | O => if byte_eqb b c then Some O else S <$> find_from c s' O
      | S p => S <$> find_from c s' p
      end
  end.

(** [src/src/json_utils.cc 48-61, Reindent] *)
Fixpoint reindent_loop (fuel : nat) (indent str : bytes) (pos : nat) (out : bytes) : bytes :=
  match fuel with
  | O => out
  | S fuel' =>
      let prev_pos := pos in
      match find_from x0a str pos with
      | None => (out ++ indent) ++ drop prev_pos str
      | Some pos =>
          let pos := (pos + 1)%nat in
          reindent_loop fuel' indent str pos ((out ++ indent) ++ substr str prev_pos (pos - prev_pos))
      end
  end.

(** [src/src/json_utils.cc 43-64, Reindent] Each pass moves past one newline, so
    one pass more than there are characters is enough. *)
Definition Reindent (str : bytes) (indent_depth : Z) : bytes :=
  if indent_depth <=? 0 then str
  else reindent_loop (S (length str)) (repeat x20 (Z.to_nat indent_depth)) str 0 [].

(** * JSONWriter *)

(** [src/src/json_utils.h 146-146, JSONWriter::JSONState] *)
Inductive JSONState := kObjectStart | kAfterValue.

(** [src/src/json_utils.h 16-17, JSONWriter] *)
Record Writer := mkWriter {
  out_ : bytes; compact_ : bool; indent_ : Z; state_ : JSONState }.

Definition JSONWriter_init (compact : bool) : Writer := mkWriter [] compact 0 kObjectStart.

Definition put (w : Writer) (s : bytes) : Writer :=
  mkWriter (out_ w ++ s) (compact_ w) (indent_ w) (state_ w).
Definition set_state (w : Writer) (st : JSONState) : Writer :=
  mkWriter (out_ w) (compact_ w) (indent_ w) st.

(** [src/src/json_utils.h 19-20, JSONWriter::indent] *)
Definition indent (w : Writer) (n : Z) : Writer :=
  mkWriter (out_ w) (compact_ w) (indent_ w + n) (state_ w).

(** [src/src/json_utils.h 21-24, JSONWriter::advance] *)
Definition advance (w : Writer) : Writer :=
  if compact_ w then w else put w (repeat x20 (Z.to_nat (indent_ w))).

(** [src/src/json_utils.h 25-28, JSONWriter::write_one_space] *)
Definition write_one_space (w : Writer) : Writer := if compact_ w then w else put w [x20].

(** [src/src/json_utils.h 29-32, JSONWriter::write_new_line] *)
Definition write_new_line (w : Writer) : Writer := if compact_ w then w else put w [x0a].

(** [src/src/json_utils.h 141-144, JSONWriter::write_string] *)
Definition quote (str : bytes) : bytes := [x22] ++ EscapeJsonChars str ++ [x22].

(** [out_ << number] for a double. *)
Definition ostream_double (d : dbl) : bytes :=
  match d with
  | FpNan => txt_nan
  | FpInfinite neg => if neg then txt_neg_inf else txt_inf
  | FpZero => [x30]
  | FpFinite text => text
  end.

(** [src/src/json_utils.h 123-139, JSONWriter::write_value] *)
Definition write_value (w : Writer) (v : scalar) : Writer :=
  match v with
  | VNull => put w txt_null
  | VBool b => put w (if b then txt_true else txt_false)
  | VInt z => put w (dec z)
  | VDouble d => put w (ostream_double d)
  | VString s => put w (quote s)
  | VForeign s => put w (Reindent s (indent_ w))
  end.

(** The common start of the methods that write a value. *)
Definition begin_value (w : Writer) : Writer :=
  let w := match state_ w with kAfterValue => put w [x2c] | kObjectStart => w end in
  advance (write_new_line w).

(** [src/src/json_utils.h 35-42, JSONWriter::json_start] *)
Definition json_start (w : Writer) : Writer :=
  set_state (indent (put (begin_value w) [x7b]) 2) kObjectStart.

(** [src/src/json_utils.h 44-50, JSONWriter::json_end] *)
Definition json_end (w : Writer) : Writer :=
  set_state (put (advance (indent (write_new_line w) (-2))) [x7d]) kAfterValue.

(** [src/src/json_utils.h 51-62, JSONWriter::json_objectstart] *)
Definition json_objectstart (w : Writer) (key : bytes) : Writer :=
  let w := write_one_space (put (put (begin_value w) (quote key)) [x3a]) in
  set_state (indent (put w [x7b]) 2) kObjectStart.

(** [src/src/json_utils.h 64-75, JSONWriter::json_arraystart] *)
Definition json_arraystart (w : Writer) (key : bytes) : Writer :=
  let w := write_one_space (put (put (begin_value w) (quote key)) [x3a]) in
  set_state (indent (put w [x5b]) 2) kObjectStart.

(** [src/src/json_utils.h 76-86, JSONWriter::json_objectend] *)
Definition json_objectend (w : Writer) : Writer :=
  let w := put (advance (indent (write_new_line w) (-2))) [x7d] in
  let w := if indent_ w =? 0 then put w [x0a] else w in
  set_state w kAfterValue.

(** [src/src/json_utils.h 88-94, JSONWriter::json_arrayend] *)
Definition json_arrayend (w : Writer) : Writer :=
  set_state (put (advance (indent (write_new_line w) (-2))) [x5d]) kAfterValue.

(** [src/src/json_utils.h 95-105, JSONWriter::json_keyvalue] *)
Definition json_keyvalue (w : Writer) (key : bytes) (v : scalar) : Writer :=
  let w := write_one_space (put (put (begin_value w) (quote key)) [x3a]) in
  set_state (write_value w v) kAfterValue.

(** [src/src/json_utils.h 107-114, JSONWriter::json_element] *)
Definition json_element (w : Writer) (v : scalar) : Writer :=
  set_state (write_value (begin_value w) v) kAfterValue.

(** The calls a client makes for a tree; there is no method for an array without
    a key. *)
Fixpoint write_node (w : Writer) (n : node) : Writer :=
  match n with
  | Scalar None v => json_element w v
  | Scalar (Some k) v => json_keyvalue w k v
  | Obj None l => json_end (foldl write_node (json_start w) l)
  | Obj (Some k) l => json_objectend (foldl write_node (json_objectstart w k) l)
  | Arr (Some k) l => json_arrayend (foldl write_node (json_arraystart w k) l)
  | Arr None l => w
  end.

(** A document: one top level object. *)
Definition write_document (compact : bool) (members : list node) : bytes :=
  out_ (write_node (JSONWriter_init compact) (Obj None members)).

(** * Escaping *)

(** What each character becomes. *)
Definition escape1 (b : byte) : bytes :=
  if bool_decide (replace_char b = []) then [b] else replace_char b.

Lemma substr_snoc s pos last :
  (last <= pos)%nat -> (pos < length s)%nat ->
  substr s last (pos + 1 - last) = substr s last (pos - last) ++ [nth pos s x00].
Proof.
  intros Hl Hp. unfold substr. replace (pos + 1 - last)%nat with (S (pos - last)) by lia.
  erewrite take_S_r; [done|]. rewrite lookup_drop. replace (last + (pos - last))%nat with pos by lia.
  rewrite nth_lookup. destruct (s !! pos) eqn:E; [done|]. apply lookup_ge_None in E. lia.
Qed.

Lemma drop_nth s pos :
  (pos < length s)%nat -> drop pos s = nth pos s x00 :: drop (pos + 1) s.
Proof.
  intros Hp. rewrite Nat.add_1_r. apply drop_S. rewrite nth_lookup.
  destruct (s !! pos) eqn:E; [done|]. apply lookup_ge_None in E. lia.
Qed.

Lemma escape_loop_spec str fuel : forall pos last ret,
  (last <= pos <= length str)%nat -> (length str - pos <= fuel)%nat ->
  let '(p, l, r) := escape_loop fuel str pos last ret in
  (if (l <? length str)%nat then r ++ substr str l (p - l) else r)
  = ret ++ substr str last (pos - last) ++ (drop pos str ≫= escape1).
Proof.
  induction fuel as [|fuel IH]; intros pos last ret Hpos Hfuel; simpl.
  - assert (pos = length str) as -> by lia. rewrite drop_all. simpl. rewrite app_nil_r.
    destruct (Nat.ltb_spec last (length str)); [done|].
    assert (last = length str) as -> by lia. unfold substr. by rewrite drop_all, take_nil, app_nil_r.
  - destruct (Nat.ltb_spec pos (length str)) as [Hlt|Hge].
    + rewrite (drop_nth str pos Hlt). cbn [mbind list_bind]. fold (mbind (M:=list) escape1 (drop (pos + 1) str)).
      unfold escape1 at 1. set (ch := nth pos str x00).
      destruct (decide (replace_char ch = [])) as [Hr|Hr].
      * rewrite !(bool_decide_eq_true_2 _ Hr). specialize (IH (pos + 1)%nat last ret).
        destruct (escape_loop fuel str (pos + 1) last ret) as [[p l] r].
        rewrite IH by lia. rewrite substr_snoc by lia. by rewrite <- !app_assoc.
      * rewrite !(bool_decide_eq_false_2 _ Hr).
        specialize (IH (pos + 1)%nat (pos + 1)%nat
          ((if (last <? pos)%nat then ret ++ substr str last (pos - last) else ret) ++ replace_char ch)).
        destruct (escape_loop fuel str _ _ _) as [[p l] r]. rewrite IH by lia.
        unfold substr. rewrite (Nat.sub_diag (pos + 1)), take_0. cbn [app].
        destruct (Nat.ltb_spec last pos); [by rewrite <- !app_assoc|].
        assert (last = pos) as -> by lia. rewrite Nat.sub_diag, take_0.
        by rewrite <- !app_assoc.
    + assert (pos = length str) as -> by lia. rewrite drop_all. simpl. rewrite app_nil_r.
      destruct (Nat.ltb_spec last (length str)); [done|].
      assert (last = length str) as -> by lia. unfold substr. by rewrite drop_all, take_nil, app_nil_r.
Qed.

Lemma EscapeJsonChars_spec str : EscapeJsonChars str = str ≫= escape1.
Proof.
  unfold EscapeJsonChars.
  pose proof (escape_loop_spec str (length str) 0 0 [] ltac:(lia) ltac:(lia)) as H.
  destruct (escape_loop _ _ _ _ _) as [[p l] r]. rewrite H. done.
Qed.

Lemma unescape_escape1 b t :
  json_unescape (escape1 b ++ t) = if byte_eqb b x0b then None else (cons b) <$> json_unescape t.
Proof. destruct b; eval_on escape1; cbn [app json_unescape]; by destruct (json_unescape t). Qed.

Lemma lex_escape1 b : lex_run InString (escape1 b) = InString /\ strip InString (escape1 b) = escape1 b.
Proof. by destruct b. Qed.

Lemma lex_escape s :
  lex_run InString (s ≫= escape1) = InString /\ strip InString (s ≫= escape1) = s ≫= escape1.
Proof.
  induction s as [|b s [IH1 IH2]]; [done|]. destruct (lex_escape1 b) as [H1 H2].
  rewrite bind_cons, lex_run_app, strip_app, H1, H2, IH1, IH2. done.
Qed.

Lemma quote_solid s : solid (quote s).
Proof.
  unfold quote. rewrite EscapeJsonChars_spec. destruct (lex_escape s) as [H1 H2].
  split; [rewrite !lex_run_app; simpl; by rewrite H1|].
  rewrite !strip_app. simpl. rewrite H1, H2. done.
Qed.

(** * Reindentation *)

Lemma find_from_split c s pos n :
  find_from c s pos = Some n ->
  (pos <= n < length s)%nat /\ Forall (fun b => b <> c) (take (n - pos) (drop pos s)) /\ s !! n = Some c.
Proof.
  revert pos n. induction s as [|b s IH]; intros pos n; simpl; [done|].
  destruct pos as [|pos].
  - destruct (byte_eqb_spec b c) as [->|Hne].
    + intros [= <-]. simpl. split_and!; [lia..|constructor|done].
    + intros (m & Hm & ->)%fmap_Some. destruct (IH 0%nat m Hm) as (H1 & H2 & H3).
      simpl. rewrite Nat.sub_0_r, drop_0 in H2. split_and!; [lia..| |done]. by constructor.
  - intros (m & Hm & ->)%fmap_Some. destruct (IH pos m Hm) as (H1 & H2 & H3).
    simpl. split_and!; [lia..|done|done].
Qed.

Lemma find_from_None c s pos : find_from c s pos = None -> Forall (fun b => b <> c) (drop pos s).
Proof.
  revert pos. induction s as [|b s IH]; intros pos; simpl; [by destruct pos|].
  destruct pos as [|pos].
  - destruct (byte_eqb_spec b c) as [->|Hne]; [done|]. intros H%fmap_None.
    constructor; [done|]. by apply (IH 0%nat).
  - intros H%fmap_None. by apply IH.
Qed.

Definition indent1 (ind : bytes) (b : byte) : bytes := if byte_eqb b x0a then b :: ind else [b].

Lemma indent1_plain ind s : Forall (fun b => b <> x0a) s -> s ≫= indent1 ind = s.
Proof.
  induction 1 as [|b s Hb _ IH]; [done|]. rewrite bind_cons, IH. unfold indent1.
  by rewrite byte_eqb_ne by done.
Qed.

Lemma reindent_loop_spec ind str fuel : forall pos out,
  (pos <= length str)%nat -> (length str - pos < fuel)%nat ->
  reindent_loop fuel ind str pos out = out ++ ind ++ (drop pos str ≫= indent1 ind).
Proof.
  induction fuel as [|fuel IH]; intros pos out Hpos Hfuel; [lia|]. simpl.
  destruct (find_from x0a str pos) as [n|] eqn:Hf.
  - destruct (find_from_split _ _ _ _ Hf) as (Hn & Hplain & Hat).
    rewrite IH by lia. unfold substr.
    assert (Hd : drop pos str = take (n - pos) (drop pos str) ++ [x0a] ++ drop (n + 1) str).
    { rewrite <- (take_drop (n - pos) (drop pos str)) at 1. f_equal. rewrite drop_drop.
      replace (pos + (n - pos))%nat with n by lia. rewrite (drop_S _ _ _ Hat).
      by rewrite Nat.add_1_r. }
    rewrite Hd at 2. rewrite !bind_app. rewrite (indent1_plain ind (take (n - pos) (drop pos str))) by done.
    replace (n + 1 - pos)%nat with (S (n - pos)) by lia.
    erewrite take_S_r; [|rewrite lookup_drop; replace (pos + (n - pos))%nat with n by lia; exact Hat].
    simpl. unfold indent1 at 2. simpl. rewrite ?app_nil_r. by rewrite <- !app_assoc.
  - rewrite indent1_plain by (by apply find_from_None). by rewrite <- app_assoc.
Qed.

(** * The writer *)

(** From [w] to [w'] the writer added a text that, without whitespace outside
    strings, is [s], and that is [s] itself when the writer is compact. *)
Definition writes (w w' : Writer) (s : bytes) : Prop :=
  exists t, out_ w' = out_ w ++ t /\ lex_run Plain t = Plain /\ strip Plain t = s /\
    (compact_ w = true -> t = s) /\ compact_ w' = compact_ w.

Lemma writes_trans w1 w2 w3 s1 s2 :
  writes w1 w2 s1 -> writes w2 w3 s2 -> writes w1 w3 (s1 ++ s2).
Proof.
  intros (t1 & Ho1 & Hl1 & Hs1 & Hc1 & He1) (t2 & Ho2 & Hl2 & Hs2 & Hc2 & He2).
  exists (t1 ++ t2). split_and!.
  - by rewrite Ho2, Ho1, app_assoc.
  - by rewrite lex_run_app, Hl1.
  - by rewrite strip_app, Hl1, Hs1, Hs2.
  - intros Hc. rewrite Hc1 by done. by rewrite Hc2 by congruence.
  - congruence.
Qed.

Lemma writes_put w s : solid s -> writes w (put w s) s.
Proof. intros [Hl Hs]. exists s. done. Qed.

Lemma writes_silent w w' : out_ w' = out_ w -> compact_ w' = compact_ w -> writes w w' [].
Proof. intros Ho Hc. exists []. rewrite app_nil_r. done. Qed.

Lemma writes_blank w s :
  blank s -> writes w (if compact_ w then w else put w s) [].
Proof.
  intros [Hl Hs]. destruct (compact_ w) eqn:Hc; [by apply writes_silent|].
  exists s. simpl. rewrite Hc. done.
Qed.

Lemma writes_advance w : writes w (advance w) [].
Proof. apply writes_blank, blank_repeat. done. Qed.
Lemma writes_space w : writes w (write_one_space w) [].
Proof. by apply writes_blank. Qed.
Lemma writes_newline w : writes w (write_new_line w) [].
Proof. by apply writes_blank. Qed.

Lemma advance_fields w :
  indent_ (advance w) = indent_ w /\ state_ (advance w) = state_ w.
Proof. unfold advance. by destruct (compact_ w). Qed.
Lemma newline_fields w :
  indent_ (write_new_line w) = indent_ w /\ state_ (write_new_line w) = state_ w.
Proof. unfold write_new_line. by destruct (compact_ w). Qed.
Lemma space_fields w :
  indent_ (write_one_space w) = indent_ w /\ state_ (write_one_space w) = state_ w.
Proof. unfold write_one_space. by destruct (compact_ w). Qed.

Definition sep (st : JSONState) : bytes := match st with kAfterValue => [x2c] | kObjectStart => [] end.

Lemma writes_begin w :
  writes w (begin_value w) (sep (state_ w)) /\ indent_ (begin_value w) = indent_ w.
Proof.
  unfold begin_value. set (w1 := match state_ w with kObjectStart => w | kAfterValue => put w [x2c] end).
  assert (writes w w1 (sep (state_ w)) /\ indent_ w1 = indent_ w) as [Hw1 Hi1].
  { unfold w1. destruct (state_ w); simpl; split; try done.
    - by apply writes_silent.
    - by apply writes_put, solid_char. }
  split.
  - rewrite <- (app_nil_r (sep _)), <- (app_nil_r []).
    eapply writes_trans; [done|]. eapply writes_trans; [apply writes_newline | apply writes_advance].
  - destruct (advance_fields (write_new_line w1)) as [-> _]. by destruct (newline_fields w1) as [-> _].
Qed.

(** A key and its colon, after the separator. *)
Definition open_key (w : Writer) (k : option bytes) : Writer :=
  match k with
  | Some k => write_one_space (put (put (begin_value w) (quote k)) [x3a])
  | None => begin_value w
  end.

Lemma writes_open_key w k :
  writes w (open_key w k) (sep (state_ w) ++ key_prefix quote k) /\ indent_ (open_key w k) = indent_ w.
Proof.
  destruct (writes_begin w) as [Hb Hi]. destruct k as [k|]; cbn [open_key key_prefix]; [|by rewrite app_nil_r].
  split; [|by destruct (space_fields (put (put (begin_value w) (quote k)) [x3a])) as [-> _]].
  rewrite <- (app_nil_r (quote k ++ [x3a])).
  eapply writes_trans; [done|]. eapply writes_trans; [|apply writes_space].
  eapply writes_trans; apply writes_put; [apply quote_solid | by apply solid_char].
Qed.

(** Opening and closing a container. *)
Lemma writes_open w k c :
  is_ws c = false -> c <> x22 ->
  let w' := set_state (indent (put (open_key w k) [c]) 2) kObjectStart in
  writes w w' ((sep (state_ w) ++ key_prefix quote k) ++ [c]) /\
  indent_ w' = indent_ w + 2 /\ state_ w' = kObjectStart.
Proof.
  intros Hws Hq w'. destruct (writes_open_key w k) as [Hk Hi]. split_and!; [|simpl; by rewrite Hi|done].
  eapply writes_trans; [done|]. destruct (writes_put (open_key w k) [c]) as (t & Ht); [by apply solid_char|].
  by exists t.
Qed.

Lemma writes_close w c :
  is_ws c = false -> c <> x22 ->
  let w1 := put (advance (indent (write_new_line w) (-2))) [c] in
  let w' := set_state w1 kAfterValue in
  writes w w' [c] /\ indent_ w' = indent_ w - 2 /\ state_ w' = kAfterValue.
Proof.
  intros Hws Hq w1 w'.
  destruct (advance_fields (indent (write_new_line w) (-2))) as [Ha _].
  destruct (newline_fields w) as [Hn _].
  split_and!; [|simpl; rewrite Ha; simpl; by rewrite Hn|done].
  apply (writes_trans w (write_new_line w) w' [] [c]); [apply writes_newline|].
  apply (writes_trans _ (indent (write_new_line w) (-2)) w' [] [c]); [by apply writes_silent|].
  apply (writes_trans _ (advance (indent (write_new_line w) (-2))) w' [] [c]); [apply writes_advance|].
  destruct (writes_put (advance (indent (write_new_line w) (-2))) [c]) as (t & Ht); [by apply solid_char|].
  by exists t.
Qed.

(** Text of a scalar. *)
Definition print_scalar (v : scalar) : bytes :=
  match v with
  | VNull => txt_null | VBool b => if b then txt_true else txt_false
  | VInt z => dec z | VDouble d => ostream_double d | VString s => quote s | VForeign s => s
  end.

(** A double whose text is one token: NaN and infinities are not JSON. *)
Definition printable (d : dbl) : bool :=
  match d with FpZero => true | FpFinite t => bool_decide (solid t) | _ => false end.

(** Trees with a method for every node, printable doubles and no foreign text. *)
Fixpoint writable (n : node) : bool :=
  match n with
  | Scalar _ v => match v with VForeign _ => false | VDouble d => printable d | _ => true end
  | Obj _ l => forallb writable l
  | Arr (Some _) l => forallb writable l
  | Arr None _ => false
  end.

Lemma writes_value w v :
  writable (Scalar None v) = true ->
  writes w (write_value w v) (print_scalar v) /\ indent_ (write_value w v) = indent_ w.
Proof.
  destruct v as [|[]| |d| |]; simpl; intros Hv; try done; (split; [|done]); apply writes_put;
    auto using dec_solid, quote_solid; try (apply solid_forall; repeat constructor; done).
  destruct d as [| | |t]; try done. by apply bool_decide_eq_true_1 in Hv.
Qed.

Abbreviation print_json := (print quote print_scalar).

(** One node, one list of members. *)
Definition node_ok (n : node) : Prop := forall w,
  writable n = true -> 0 < indent_ w ->
  let w' := write_node w n in
  writes w w' (sep (state_ w) ++ print_json n) /\ indent_ w' = indent_ w /\ state_ w' = kAfterValue.

Definition members (st : JSONState) (l : list node) : bytes :=
  match st with
  | kObjectStart => comma_join (map print_json l)
  | kAfterValue => l ≫= fun n => x2c :: print_json n
  end.

Lemma members_cons st n l :
  members st (n :: l) = (sep st ++ print_json n) ++ members kAfterValue l.
Proof.
  destruct st; simpl; [|done]. f_equal.
  induction l as [|a l IH]; [done|]. simpl map. rewrite !bind_cons. by rewrite IH.
Qed.

Lemma write_members l : Forall node_ok l -> forall w,
  forallb writable l = true -> 0 < indent_ w ->
  let w' := foldl write_node w l in
  writes w w' (members (state_ w) l) /\ indent_ w' = indent_ w.
Proof.
  induction 1 as [|n l Hn _ IH]; intros w Hw Hi.
  - simpl. split; [|done]. destruct (state_ w); by apply writes_silent.
  - apply andb_prop in Hw as [Hwn Hwl]. destruct (Hn w Hwn Hi) as (H1 & H2 & H3).
    destruct (IH (write_node w n) Hwl) as [H4 H5]; [lia|]. simpl. split; [|lia].
    rewrite members_cons. rewrite H3 in H4. by eapply writes_trans.
Qed.

Lemma write_container w k l (c c' : byte) close :
  Forall node_ok l -> forallb writable l = true -> 0 <= indent_ w ->
  is_ws c = false -> c <> x22 ->
  (forall w1, indent_ w1 = indent_ w + 2 ->
     writes w1 (close w1) [c'] /\ indent_ (close w1) = indent_ w1 - 2 /\ state_ (close w1) = kAfterValue) ->
  let w' := close (foldl write_node (set_state (indent (put (open_key w k) [c]) 2) kObjectStart) l) in
  writes w w' (sep (state_ w) ++ key_prefix quote k ++ [c] ++ comma_join (map print_json l) ++ [c']) /\
  indent_ w' = indent_ w /\ state_ w' = kAfterValue.
Proof.
  intros Hl Hw Hi Hc Hq Hclose w'. destruct (writes_open w k c Hc Hq) as (Ho & Hoi & Hos).
  destruct (write_members l Hl _ Hw ltac:(rewrite Hoi; lia)) as [Hm Hmi]. rewrite Hos in Hm.
  edestruct Hclose as (Hcl & Hci & Hcs); [rewrite Hmi; exact Hoi|].
  split_and!; [|unfold w'; rewrite Hci, Hmi, Hoi; lia|done].
  rewrite (app_assoc (sep _)), (app_assoc _ [c]).
  eapply writes_trans; [done|]. by eapply writes_trans.
Qed.

Lemma json_objectend_close w :
  indent_ w <> 2 -> json_objectend w = set_state (put (advance (indent (write_new_line w) (-2))) [x7d]) kAfterValue.
Proof.
  intros Hi. unfold json_objectend.
  destruct (advance_fields (indent (write_new_line w) (-2))) as [Ha _].
  destruct (newline_fields w) as [Hn _].
  simpl. rewrite Ha. simpl. rewrite Hn. rewrite (proj2 (Z.eqb_neq _ _)) by lia. done.
Qed.

Lemma all_node_ok n : node_ok n.
Proof.
  induction n as [k v|k l IH|k l IH] using node_ind'; intros w Hw Hi.
  - assert (write_node w (Scalar k v) = set_state (write_value (open_key w k) v) kAfterValue) as ->
      by by destruct k.
    destruct (writes_open_key w k) as [Hk Hki].
    destruct (writes_value (open_key w k) v Hw) as [Hv Hvi].
    split_and!; [|simpl; congruence|done]. simpl print. rewrite app_assoc.
    eapply writes_trans; [done|]. by destruct Hv as (t & Ht); exists t.
  - destruct k as [k|].
    + apply (write_container w (Some k) l x7b x7d json_objectend IH Hw); [lia|done..|].
      intros w1 Hw1. rewrite json_objectend_close by lia. by apply writes_close.
    + apply (write_container w None l x7b x7d json_end IH Hw); [lia|done..|].
      intros w1 Hw1. by apply writes_close.
  - destruct k as [k|]; [|done].
    apply (write_container w (Some k) l x5b x5d json_arrayend IH Hw); [lia|done..|].
    intros w1 Hw1. by apply writes_close.
Qed.

(** * Properties *)

(** Escaping is undone by a JSON reader except for one character: the body
    EscapeJsonChars produces reads back as the original string when it holds no
    vertical tab, and is rejected as a JSON string when it does (the code writes
    it as a reverse solidus and a v). *)
Theorem escape_json_roundtrip (str : bytes) :
  json_unescape (EscapeJsonChars str) = if decide (x0b ∈ str) then None else Some str.
Proof.
  rewrite EscapeJsonChars_spec. induction str as [|b str IH].
  - by rewrite decide_False by set_solver.
  - rewrite bind_cons, unescape_escape1, IH. destruct (byte_eqb_spec b x0b) as [->|Hne].
    + by rewrite decide_True by set_solver.
    + destruct (decide (x0b ∈ str)); [rewrite decide_True by set_solver|rewrite decide_False by set_solver];
        done.
Qed.

(** Reindent puts the indentation at the start of the text and after every
    newline, and changes nothing else. *)
Theorem Reindent_is_line_indent (str : bytes) (depth : Z) :
  Reindent str depth =
    if depth <=? 0 then str
    else repeat x20 (Z.to_nat depth) ++ (str ≫= indent1 (repeat x20 (Z.to_nat depth))).
Proof.
  unfold Reindent. destruct (depth <=? 0); [done|].
  rewrite reindent_loop_spec by lia. done.
Qed.

Lemma document_writes compact members : forallb writable members = true ->
  writes (JSONWriter_init compact) (write_node (JSONWriter_init compact) (Obj None members))
    (print_json (Obj None members)).
Proof.
  intros Hw.
  assert (Hall : Forall node_ok members) by (apply Forall_forall; intros; apply all_node_ok).
  apply (write_container (JSONWriter_init compact) None members x7b x7d json_end Hall Hw); [simpl; lia|done..|].
  intros w1 Hw1. by apply writes_close.
Qed.

Lemma document_prints (members : list node) :
  forallb writable members = true ->
  write_document true members = print_json (Obj None members) /\
  strip Plain (write_document false members) = print_json (Obj None members).
Proof.
  intros Hw. unfold write_document. split.
  - destruct (document_writes true _ Hw) as (t & -> & _ & _ & Ht & _). by apply Ht.
  - destruct (document_writes false _ Hw) as (t & -> & _ & Ht & _). done.
Qed.

(** A document ends outside strings. *)
Lemma document_complete compact members :
  forallb writable members = true -> lex_run Plain (write_document compact members) = Plain.
Proof.
  intros Hw. unfold write_document. by destruct (document_writes compact _ Hw) as (t & -> & Ht & _).
Qed.

(** The streaming writer prints the tree its calls describe: a compact
    document is exactly the printed object, and an indented one is the same text
    once whitespace outside strings is removed. *)
Theorem write_document_prints (members : list node) :
  forallb writable members = true ->
  write_document true members = print_json (Obj None members) /\
  strip Plain (write_document false members) = print_json (Obj None members).
Proof. apply document_prints. Qed.

(** * Witness *)

Definition ex_members : list node :=
  [Scalar (Some [x61]) (VInt (-105)); Obj (Some [x22]) [Scalar (Some [x0a]) (VBool true)];
   Arr (Some [x62]) [Scalar None VNull; Obj None []; Scalar None (VString [x20; x5c])]].

Lemma write_document_prints_witness :
  write_document true ex_members = print_json (Obj None ex_members) /\
  strip Plain (write_document false ex_members) = print_json (Obj None ex_members).
Proof. apply (write_document_prints ex_members). vm_compute. reflexivity. Defined.
