(* ===== verification/JsonGrammar.v ===== *)
(** JSON texts as RFC 8259 defines them, independently of the writers: values, numbers,
    strings, arrays and objects with insignificant whitespace between tokens; and what the
    [JSONWriter] of json_utils.h writes for a tree, compact or indented, is the text of the
    value the tree stands for, when no text in it has a vertical tab. *)

From S2P Require Import Prelude Json JsonUtils.

Module JsonLiterals.
Import String.StringSyntax.
Local Open Scope string_scope.
Definition lit_null := bs "null".
Definition lit_true := bs "true".
Definition lit_false := bs "false".
End JsonLiterals.
Export JsonLiterals.

Lemma byte_eqb_eq a b : byte_eqb a b = true -> a = b.
Proof. by destruct (byte_eqb_spec a b). Qed.

(** * Values *)

Inductive jvalue :=
  | JNull | JBool (b : bool) | JNumber (text : bytes) | JString (s : bytes)
  | JArray (l : list jvalue) | JObject (l : list (bytes * jvalue)).

(** ** Numbers (section 6) *)

Fixpoint skip_digits (s : bytes) : bytes :=
  match s with c :: s' => if is_digit c then skip_digits s' else s | [] => [] end.

Definition one_or_more_digits (s : bytes) : option bytes :=
  match s with c :: s => if is_digit c then Some (skip_digits s) else None | [] => None end.

Definition skip_minus (s : bytes) : bytes :=
  match s with c :: s' => if byte_eqb c x2d then s' else s | [] => [] end.

(** No leading zeros. *)
Definition skip_int (s : bytes) : option bytes :=
  match s with c :: s' => if byte_eqb c x30 then Some s' else one_or_more_digits s | [] => None end.

Definition skip_frac (s : bytes) : option bytes :=
  match s with c :: s' => if byte_eqb c x2e then one_or_more_digits s' else Some s | [] => Some [] end.

Definition skip_sign (s : bytes) : bytes :=
  match s with c :: s' => if (byte_eqb c x2b || byte_eqb c x2d)%bool then s' else s | [] => [] end.

Definition skip_exp (s : bytes) : option bytes :=
  match s with
  | c :: s' => if (byte_eqb c x65 || byte_eqb c x45)%bool then one_or_more_digits (skip_sign s') else Some s
  | [] => Some []
  end.

Definition json_number (s : bytes) : bool :=
  match s ← skip_int (skip_minus s); s ← skip_frac s; skip_exp s with Some [] => true | _ => false end.

(** ** The grammar (sections 2 to 7) *)

Definition json_ws (s : bytes) : Prop := Forall (fun b => is_ws b = true) s.

(** A string token and the text it stands for. *)
Definition json_string (t s : bytes) : Prop := exists body, t = [x22] ++ body ++ [x22] /\ json_unescape body = Some s.

Inductive reads : bytes -> jvalue -> Prop :=
  | reads_null : reads lit_null JNull
  | reads_true : reads lit_true (JBool true)
  | reads_false : reads lit_false (JBool false)
  | reads_number t : json_number t = true -> reads t (JNumber t)
  | reads_string t s : json_string t s -> reads t (JString s)
  | reads_array ts vs w : reads_elements ts vs -> json_ws w -> reads ([x5b] ++ comma_join ts ++ w ++ [x5d]) (JArray vs)
  | reads_object ts kvs w : reads_members ts kvs -> json_ws w -> reads ([x7b] ++ comma_join ts ++ w ++ [x7d]) (JObject kvs)
with reads_elements : list bytes -> list jvalue -> Prop :=
  | elements_nil : reads_elements [] []
  | elements_cons w1 t w2 v ts vs : json_ws w1 -> reads t v -> json_ws w2 -> reads_elements ts vs ->
      reads_elements ((w1 ++ t ++ w2) :: ts) (v :: vs)
with reads_members : list bytes -> list (bytes * jvalue) -> Prop :=
  | members_nil : reads_members [] []
  | members_cons w1 kt k w2 w3 t w4 v ts kvs : json_ws w1 -> json_string kt k -> json_ws w2 -> json_ws w3 -> reads t v ->
      json_ws w4 -> reads_members ts kvs ->
      reads_members ((w1 ++ kt ++ w2 ++ [x3a] ++ w3 ++ t ++ w4) :: ts) ((k, v) :: kvs).

(** A JSON text: a value and whitespace around it. *)
Definition json_text (t : bytes) (v : jvalue) : Prop :=
  exists w1 t' w2, t = w1 ++ t' ++ w2 /\ json_ws w1 /\ reads t' v /\ json_ws w2.

(** * Trees *)

Definition key_of (n : node) : option bytes := match n with Scalar k _ | Obj k _ | Arr k _ => k end.

(** Members of objects have a key, elements of arrays have none. *)
Definition keyed (n : node) : bool := match key_of n with Some _ => true | None => false end.
Fixpoint shaped (n : node) : bool :=
  match n with
  | Scalar _ _ => true
  | Obj _ l => forallb keyed l && forallb shaped l
  | Arr _ l => forallb (fun n => negb (keyed n)) l && forallb shaped l
  end.

(** A method for every node, doubles whose text is a number, no foreign text. *)
Fixpoint formed (n : node) : bool :=
  match n with
  | Scalar _ v => match v with VForeign _ => false | VDouble d => json_number (ostream_double d) | _ => true end
  | Obj _ l => forallb formed l
  | Arr (Some _) l => forallb formed l
  | Arr None _ => false
  end.

(** The keys and strings of a tree. *)
Fixpoint texts (n : node) : list bytes :=
  option_list (key_of n) ++
  match n with
  | Scalar _ (VString s) => [s]
  | Scalar _ _ => []
  | Obj _ l | Arr _ l => l ≫= texts
  end.

Definition no_vtab (s : bytes) : Prop := x0b ∉ s.

(** The value a tree stands for. *)
Definition scalar_value (v : scalar) : jvalue :=
  match v with
  | VNull => JNull | VBool b => JBool b | VInt z => JNumber (dec z) | VDouble d => JNumber (ostream_double d)
  | VString s => JString s | VForeign s => JNull
  end.

Fixpoint value_of (n : node) : jvalue :=
  match n with
  | Scalar _ v => scalar_value v
  | Obj _ l => JObject (map (fun n => (default [] (key_of n), value_of n)) l)
  | Arr _ l => JArray (map value_of l)
  end.

(** * Numbers the writer writes *)

Lemma skip_digits_all s : Forall (fun b => is_digit b) s -> skip_digits s = [].
Proof. induction 1 as [|b s Hb _ IH]; [done|]. cbn. by rewrite (proj1 (Is_true_true _) Hb). Qed.

(** A positive number begins with another digit than zero. *)
Lemma dec_digits_lead fuel : forall z acc, 0 < z < 10 * 2 ^ Z.of_nat fuel -> Forall (fun b => is_digit b) acc ->
  exists d ds, dec_digits (S fuel) z acc = d :: ds /\ is_digit d = true /\ byte_eqb d x30 = false /\ byte_eqb d x2d = false /\
    Forall (fun b => is_digit b) ds.
Proof.
  assert (Hlead : forall z acc, 0 < z < 10 -> Forall (fun b => is_digit b) acc -> exists d ds,
    byte_of (48 + z mod 10) :: acc = d :: ds /\ is_digit d = true /\ byte_eqb d x30 = false /\ byte_eqb d x2d = false /\
    Forall (fun b => is_digit b) ds).
  { intros z acc Hz Ha. eexists _, _. split; [done|]. rewrite Z.mod_small by lia.
    pose proof (bval_digit z ltac:(lia)) as Hv.
    split; [unfold is_digit; rewrite Hv; apply andb_true_intro; split; apply Z.leb_le; lia|].
    split; [|split; [|done]]; apply byte_eqb_ne; intros E; rewrite E in Hv;
      [change (bval x30) with 48 in Hv|change (bval x2d) with 45 in Hv]; lia. }
  induction fuel as [|fuel IH]; intros z acc Hz Ha; cbn [dec_digits]; (destruct (Z.ltb_spec z 10); [apply Hlead; [lia|done]|]).
  - cbn in Hz. lia.
  - rewrite Nat2Z.inj_succ, Z.pow_succ_r in Hz by lia.
    change (if z / 10 <? 10 then _ else _) with (dec_digits (S fuel) (z / 10) (byte_of (48 + z mod 10) :: acc)).
    apply IH; [pose proof (Z.div_mod z 10 ltac:(lia)); pose proof (Z.mod_pos_bound z 10 ltac:(lia));
      pose proof (Z.pow_pos_nonneg 2 (Z.of_nat fuel)); lia|].
    constructor; [|done]. unfold is_digit. rewrite bval_digit by (apply Z.mod_pos_bound; lia).
    pose proof (Z.mod_pos_bound z 10 ltac:(lia)). apply Is_true_true, andb_true_intro. split; apply Z.leb_le; lia.
Qed.

Lemma dec_number z : json_number (dec z) = true.
Proof.
  destruct (Z.eq_dec z 0) as [->|Hz]; [done|]. unfold dec.
  destruct (dec_digits_lead (Z.to_nat (Z.log2 (Z.abs z))) (Z.abs z) []) as (d & ds & E & Hd & H0 & Hm & Hds); [|done|].
  { pose proof (Z.log2_spec (Z.abs z) ltac:(lia)). pose proof (Z.log2_nonneg (Z.abs z)). rewrite Z2Nat.id by done.
    rewrite Z.pow_succ_r in * by lia. lia. }
  rewrite E. assert (Hn : forall s, s = d :: ds -> (s ← skip_int s; s ← skip_frac s; skip_exp s) = Some []).
  { intros s ->. cbn [skip_int]. rewrite H0. cbn [one_or_more_digits]. rewrite Hd. cbn. by rewrite skip_digits_all. }
  unfold json_number. destruct (z <? 0); cbn [skip_minus].
  - rewrite byte_eqb_refl. by rewrite (Hn _ eq_refl).
  - rewrite Hm. by rewrite (Hn _ eq_refl).
Qed.

(** A number has no whitespace and no quote. *)
Definition num_char (b : byte) : Prop := is_ws b = false /\ b <> x22.

Lemma skip_digits_split s : exists p, s = p ++ skip_digits s /\ Forall num_char p.
Proof.
  induction s as [|c s (p & Hs & Hp)]; [by exists []|]. cbn. destruct (is_digit c) eqn:E; [|by exists []].
  exists (c :: p). split; [by rewrite Hs at 1|]. constructor; [by apply is_digit_solid|done].
Qed.

Lemma one_or_more_split s r : one_or_more_digits s = Some r -> exists p, s = p ++ r /\ Forall num_char p.
Proof.
  destruct s as [|c s]; [done|]. cbn. destruct (is_digit c) eqn:E; [|done]. intros [= <-].
  destruct (skip_digits_split s) as (p & Hs & Hp). exists (c :: p). split; [by rewrite Hs at 1|].
  constructor; [by apply is_digit_solid|done].
Qed.

Lemma json_number_chars s : json_number s = true -> Forall num_char s.
Proof.
  unfold json_number. intros H. destruct (skip_int (skip_minus s)) as [s1|] eqn:E1; [|done]. cbn in H.
  destruct (skip_frac s1) as [s2|] eqn:E2; [|done]. cbn in H. destruct (skip_exp s2) as [[|]|] eqn:E3; try done. clear H.
  assert (H3 : Forall num_char s2).
  { unfold skip_exp in E3. destruct s2 as [|c s2]; [done|]. destruct (_ || _)%bool eqn:Ec; [|done].
    apply one_or_more_split in E3 as (p & Hp & HF). rewrite app_nil_r in Hp.
    assert (num_char c) by (apply orb_true_iff in Ec as [?%byte_eqb_eq|?%byte_eqb_eq]; by subst).
    constructor; [done|]. unfold skip_sign in Hp. destruct s2 as [|c' s2]; [done|].
    destruct (byte_eqb c' x2b || byte_eqb c' x2d)%bool eqn:Ec'; [|by subst p]. subst p. constructor; [|done].
    by apply orb_true_iff in Ec' as [?%byte_eqb_eq|?%byte_eqb_eq]; subst. }
  assert (H2 : Forall num_char s1).
  { unfold skip_frac in E2. destruct s1 as [|c s1]; [done|]. destruct (byte_eqb c x2e) eqn:Ec; [|congruence].
    apply byte_eqb_eq in Ec as ->. apply one_or_more_split in E2 as (p & -> & HF). constructor; [done|].
    apply Forall_app. by split. }
  assert (H1 : Forall num_char (skip_minus s)).
  { unfold skip_int in E1. destruct (skip_minus s) as [|c s']; [done|]. destruct (byte_eqb c x30) eqn:Ec.
    - apply byte_eqb_eq in Ec as ->. injection E1 as ->. by constructor.
    - apply one_or_more_split in E1 as (p & Hp & HF). rewrite Hp. apply Forall_app. by split. }
  unfold skip_minus in H1. destruct s as [|c s]; [done|]. destruct (byte_eqb c x2d) eqn:Ec; [|done].
  apply byte_eqb_eq in Ec as ->. by constructor.
Qed.

Lemma formed_writable n : formed n = true -> writable n = true.
Proof.
  induction n as [k v|k l IH|k l IH] using node_ind'; cbn.
  - destruct v as [| | |d| |]; try done. intros H. destruct d as [|[]| |t]; try done.
    apply bool_decide_eq_true_2, solid_forall. eapply Forall_impl; [by apply json_number_chars|]. by intros b [].
  - rewrite !forallb_forall. rewrite Forall_forall in IH. intros H n Hn. apply IH; [by apply list_elem_of_In|auto].
  - destruct k; [|done]. rewrite !forallb_forall. rewrite Forall_forall in IH. intros H n Hn.
    apply IH; [by apply list_elem_of_In|auto].
Qed.

(** * What the writer writes *)

Lemma ws_app a b : json_ws a -> json_ws b -> json_ws (a ++ b).
Proof. intros. apply Forall_app. by split. Qed.

Lemma ws_repeat n : json_ws (repeat x20 n).
Proof. apply Forall_forall. intros b Hb%list_elem_of_In. by apply repeat_spec in Hb as ->. Qed.

(** The text a step adds is whitespace. *)
Definition adds_ws (w w' : Writer) : Prop := exists s, out_ w' = out_ w ++ s /\ json_ws s.

Lemma adds_ws_advance w : adds_ws w (advance w).
Proof.
  unfold advance. destruct (compact_ w); [exists []; rewrite app_nil_r; split; [done|constructor]|]. eexists. split; [done|apply ws_repeat].
Qed.
Lemma adds_ws_newline w : adds_ws w (write_new_line w).
Proof.
  unfold write_new_line. destruct (compact_ w); [exists []; rewrite app_nil_r; split; [done|constructor]|]. eexists. split; [done|]. by repeat constructor.
Qed.
Lemma adds_ws_space w : adds_ws w (write_one_space w).
Proof.
  unfold write_one_space. destruct (compact_ w); [exists []; rewrite app_nil_r; split; [done|constructor]|]. eexists. split; [done|]. by repeat constructor.
Qed.

Lemma adds_ws_begin w : exists s, out_ (begin_value w) = out_ w ++ sep (state_ w) ++ s /\ json_ws s.
Proof.
  unfold begin_value. set (w1 := match state_ w with kObjectStart => w | kAfterValue => put w [x2c] end).
  assert (H1 : out_ w1 = out_ w ++ sep (state_ w)) by (unfold w1; destruct (state_ w); cbn; by rewrite ?app_nil_r).
  destruct (adds_ws_newline w1) as (s1 & E1 & Hs1). destruct (adds_ws_advance (write_new_line w1)) as (s2 & E2 & Hs2).
  exists (s1 ++ s2). rewrite E2, E1, H1, <-!app_assoc. split; [done|by apply ws_app].
Qed.

Lemma quote_string s : no_vtab s -> json_string (quote s) s.
Proof.
  intros Hs. exists (EscapeJsonChars s). split; [done|]. rewrite EscapeJsonChars_spec.
  induction s as [|b s IH]; [done|]. apply not_elem_of_cons in Hs as [Hb Hs].
  rewrite bind_cons, unescape_escape1, IH by done. by rewrite byte_eqb_ne.
Qed.

(** A key, if there is one, before a value. *)
Definition key_text (k : option bytes) (t : bytes) : Prop :=
  match k with None => t = [] | Some k => exists kt w, t = kt ++ [x3a] ++ w /\ json_string kt k /\ json_ws w end.

Lemma open_key_text w k : Forall no_vtab (option_list k) ->
  exists s t, out_ (open_key w k) = out_ w ++ sep (state_ w) ++ s ++ t /\ json_ws s /\ key_text k t.
Proof.
  intros Hk. destruct (adds_ws_begin w) as (s & E & Hs). destruct k as [k|]; cbn [open_key].
  - assert (Hv : no_vtab k) by (by inversion Hk). destruct (adds_ws_space (put (put (begin_value w) (quote k)) [x3a])) as (s2 & E2 & Hs2).
    exists s, (quote k ++ [x3a] ++ s2). split; [rewrite E2; cbn [out_ put]; rewrite E, <-!app_assoc; done|]. split; [done|].
    exists (quote k), s2. split; [done|]. split; [by apply quote_string|done].
  - exists s, []. rewrite app_nil_r. by split.
Qed.

Lemma scalar_text w v : formed (Scalar None v) = true -> Forall no_vtab (texts (Scalar None v)) ->
  exists t, out_ (write_value w v) = out_ w ++ t /\ reads t (scalar_value v).
Proof.
  intros Hf Ht. destruct v as [|[]|z|d|s|s]; cbn in *; eexists; (split; [reflexivity|]); try by constructor.
  - constructor. apply dec_number.
  - constructor. apply quote_string. by inversion Ht.
  - done.
Qed.

(** A node, written: a separator, whitespace, its key and its value. *)
Definition node_text (n : node) (t : bytes) : Prop :=
  exists kt vt, t = kt ++ vt /\ key_text (key_of n) kt /\ reads vt (value_of n).

Definition node_written (n : node) : Prop := forall w,
  formed n = true -> shaped n = true -> Forall no_vtab (texts n) -> 0 < indent_ w ->
  exists s t, out_ (write_node w n) = out_ w ++ sep (state_ w) ++ s ++ t /\ json_ws s /\ node_text n t /\
    indent_ (write_node w n) = indent_ w /\ state_ (write_node w n) = kAfterValue.

(** Nodes with whitespace before them, and with separators between them. *)
Definition spaced_text (n : node) (t : bytes) : Prop := exists s t', t = s ++ t' /\ json_ws s /\ node_text n t'.
Definition joined_after (st : JSONState) (ts : list bytes) : bytes :=
  match st with kObjectStart => comma_join ts | kAfterValue => ts ≫= fun t => x2c :: t end.

Lemma joined_cons st t ts : joined_after st (t :: ts) = sep st ++ t ++ joined_after kAfterValue ts.
Proof. by destruct st. Qed.

Lemma members_written l : Forall node_written l -> forall w,
  forallb formed l = true -> forallb shaped l = true -> Forall no_vtab (l ≫= texts) -> 0 < indent_ w ->
  exists ts, out_ (foldl write_node w l) = out_ w ++ joined_after (state_ w) ts /\ Forall2 spaced_text l ts /\
    indent_ (foldl write_node w l) = indent_ w.
Proof.
  induction 1 as [|n l Hn _ IH]; intros w Hf Hsh Ht Hi.
  - exists []. cbn [foldl]. split; [|done]. by destruct (state_ w); cbn; rewrite app_nil_r.
  - apply andb_prop in Hf as [Hfn Hfl]. apply andb_prop in Hsh as [Hsn Hsl]. rewrite bind_cons in Ht.
    apply Forall_app in Ht as [Htn Htl]. destruct (Hn w Hfn Hsn Htn Hi) as (s & t & E & Hs & Hnt & Hin & Hst).
    destruct (IH (write_node w n) Hfl Hsl Htl ltac:(lia)) as (ts & E' & HF & Hin'). cbn [foldl].
    exists ((s ++ t) :: ts). split; [|split; [|lia]].
    + rewrite E', Hst, E, joined_cons, <-!app_assoc. done.
    + constructor; [|done]. by exists s, t.
Qed.

Lemma Forall2_members l ts : Forall2 spaced_text l ts -> forallb keyed l = true ->
  reads_members ts (map (fun n => (default [] (key_of n), value_of n)) l).
Proof.
  induction 1 as [|n t l ts (s & t' & -> & Hs & kt & vt & -> & Hk & Hv) _ IH]; intros Hl; [constructor|].
  apply andb_prop in Hl as [Hn Hl]. unfold keyed in Hn. destruct (key_of n) as [k|] eqn:E; [|done].
  destruct Hk as (kt' & w & -> & Hks & Hw). cbn [map]. rewrite E. cbn [default].
  replace (s ++ (kt' ++ [x3a] ++ w) ++ vt) with (s ++ kt' ++ [] ++ [x3a] ++ w ++ vt ++ [])
    by (rewrite app_nil_r; cbn; by rewrite <-!app_assoc).
  constructor; try done; [constructor..|]. by apply IH.
Qed.

Lemma Forall2_elements l ts : Forall2 spaced_text l ts -> forallb (fun n => negb (keyed n)) l = true ->
  reads_elements ts (map value_of l).
Proof.
  induction 1 as [|n t l ts (s & t' & -> & Hs & kt & vt & -> & Hk & Hv) _ IH]; intros Hl; [constructor|].
  apply andb_prop in Hl as [Hn Hl]. unfold keyed in Hn. destruct (key_of n) as [k|] eqn:E; [done|].
  cbn in Hk. subst kt. cbn [map app]. replace (s ++ vt) with (s ++ vt ++ []) by (by rewrite app_nil_r).
  constructor; try done; [constructor|]. by apply IH.
Qed.

Lemma close_text w c : exists s, out_ (put (advance (indent (write_new_line w) (-2))) [c]) = out_ w ++ s ++ [c] /\ json_ws s.
Proof.
  destruct (adds_ws_newline w) as (s1 & E1 & Hs1). destruct (adds_ws_advance (indent (write_new_line w) (-2))) as (s2 & E2 & Hs2).
  exists (s1 ++ s2). cbn [out_ put]. rewrite E2. cbn [out_ indent]. rewrite E1, <-!app_assoc. split; [done|by apply ws_app].
Qed.

(** A container between its brackets. *)
Lemma container_written w k l c c' close :
  Forall node_written l -> forallb formed l = true -> forallb shaped l = true -> Forall no_vtab (option_list k ++ (l ≫= texts)) ->
  0 <= indent_ w ->
  (forall w1, indent_ w1 = indent_ w + 2 ->
     close w1 = set_state (put (advance (indent (write_new_line w1) (-2))) [c']) kAfterValue) ->
  let w' := close (foldl write_node (set_state (indent (put (open_key w k) [c]) 2) kObjectStart) l) in
  exists s kt ts s', out_ w' = out_ w ++ sep (state_ w) ++ s ++ kt ++ [c] ++ comma_join ts ++ s' ++ [c'] /\
    json_ws s /\ key_text k kt /\ Forall2 spaced_text l ts /\ json_ws s' /\ indent_ w' = indent_ w /\ state_ w' = kAfterValue.
Proof.
  intros Hl Hf Hsh Ht Hi Hclose w'. apply Forall_app in Ht as [Htk Htl].
  destruct (open_key_text w k Htk) as (s & kt & E & Hs & Hk). destruct (writes_open_key w k) as [_ Hki].
  set (w1 := set_state (indent (put (open_key w k) [c]) 2) kObjectStart) in *.
  assert (Hi1 : indent_ w1 = indent_ w + 2) by (unfold w1; cbn; lia).
  destruct (members_written l Hl w1 Hf Hsh Htl ltac:(lia)) as (ts & E1 & HF & Hin).
  destruct (close_text (foldl write_node w1 l) c') as (s' & E2 & Hs'). exists s, kt, ts, s'.
  assert (Hw' : w' = set_state (put (advance (indent (write_new_line (foldl write_node w1 l)) (-2))) [c']) kAfterValue)
    by (apply Hclose; lia).
  rewrite Hw'. split.
  - cbn [out_ set_state]. rewrite E2, E1. unfold w1. cbn [out_ set_state indent put state_ joined_after].
    rewrite E, <-!app_assoc. done.
  - do 4 (split; [done|]). split; [|done]. cbn [indent_ set_state put].
    destruct (advance_fields (indent (write_new_line (foldl write_node w1 l)) (-2))) as [-> _]. cbn.
    destruct (newline_fields (foldl write_node w1 l)) as [-> _]. lia.
Qed.

Lemma all_node_written n : node_written n.
Proof.
  induction n as [k v|k l IH|k l IH] using node_ind'; intros w Hf Hsh Ht Hi.
  - cbn [texts key_of] in Ht. apply Forall_app in Ht as [Htk Htv].
    assert (write_node w (Scalar k v) = set_state (write_value (open_key w k) v) kAfterValue) as -> by by destruct k.
    destruct (open_key_text w k Htk) as (s & kt & E & Hs & Hk). destruct (scalar_text (open_key w k) v Hf Htv) as (t & E' & Hr).
    destruct (writes_open_key w k) as [_ Hki]. exists s, (kt ++ t). cbn [out_ set_state]. rewrite E', E, <-!app_assoc.
    split; [done|]. split; [done|]. split; [by exists kt, t|]. split; [|done]. cbn. rewrite <-Hki. by destruct v.
  - cbn [shaped] in Hsh. apply andb_prop in Hsh as [Hkd Hsh].
    assert (Hdone : forall close, (forall w1, indent_ w1 = indent_ w + 2 ->
        close w1 = set_state (put (advance (indent (write_new_line w1) (-2))) [x7d]) kAfterValue) ->
      write_node w (Obj k l) = close (foldl write_node (set_state (indent (put (open_key w k) [x7b]) 2) kObjectStart) l) ->
      exists s t, out_ (write_node w (Obj k l)) = out_ w ++ sep (state_ w) ++ s ++ t /\ json_ws s /\ node_text (Obj k l) t /\
        indent_ (write_node w (Obj k l)) = indent_ w /\ state_ (write_node w (Obj k l)) = kAfterValue).
    { intros close Hc ->. destruct (container_written w k l x7b x7d close IH Hf Hsh Ht ltac:(lia) Hc)
        as (s & kt & ts & s' & E & Hs & Hk & HF & Hs' & H1 & H2).
      exists s, (kt ++ [x7b] ++ comma_join ts ++ s' ++ [x7d]). split; [done|]. split; [done|]. split; [|done].
      exists kt, ([x7b] ++ comma_join ts ++ s' ++ [x7d]). split; [done|]. split; [done|]. constructor; [by apply Forall2_members|done]. }
    destruct k as [k|]; [apply (Hdone json_objectend)|apply (Hdone json_end)]; try done.
    intros w1 Hw1. apply json_objectend_close. lia.
  - destruct k as [k|]; [|done]. cbn [shaped] in Hsh. apply andb_prop in Hsh as [Hkd Hsh].
    destruct (container_written w (Some k) l x5b x5d json_arrayend IH Hf Hsh Ht ltac:(lia) ltac:(done))
      as (s & kt & ts & s' & E & Hs & Hk & HF & Hs' & H1 & H2).
    exists s, (kt ++ [x5b] ++ comma_join ts ++ s' ++ [x5d]). split; [exact E|]. split; [done|]. split; [|by split].
    exists kt, ([x5b] ++ comma_join ts ++ s' ++ [x5d]). split; [done|]. split; [done|]. constructor; [by apply Forall2_elements|done].
Qed.

(** A document, compact or indented, is the JSON text of its tree. *)
Lemma document_reads compact members :
  forallb formed members = true -> shaped (Obj None members) = true -> Forall no_vtab (texts (Obj None members)) ->
  json_text (write_document compact members) (value_of (Obj None members)).
Proof.
  intros Hf Hsh Ht. cbn [shaped] in Hsh. apply andb_prop in Hsh as [Hkd Hsh].
  assert (Hall : Forall node_written members) by (apply Forall_forall; intros; apply all_node_written).
  destruct (container_written (JSONWriter_init compact) None members x7b x7d json_end Hall Hf Hsh Ht ltac:(done) ltac:(done))
    as (s & kt & ts & s' & E & Hs & -> & HF & Hs' & _).
  exists s, ([x7b] ++ comma_join ts ++ s' ++ [x7d]), []. rewrite app_nil_r. split; [exact E|]. split; [done|]. split; [|constructor].
  constructor; [by apply Forall2_members|done].
Qed.
