(* ===== verification/TracedValue.v ===== *)
(** src/src/tracing/traced_value.{h,cc}: the JSON text of a trace argument, built
    by appending to [data_].  [trace_node] makes the calls for a tree; names are
    written as they are (the header asks for quoted names), strings are C
    strings. *)

From S2P Require Import Prelude Json JsonUtils JsMessages.

Module TraceText.
Import String.StringSyntax.
Local Open Scope string_scope.
Definition str_nan := [x22] ++ bs "NaN" ++ [x22].
Definition str_inf := [x22] ++ bs "Infinity" ++ [x22].
Definition str_neg_inf := [x22] ++ bs "-Infinity" ++ [x22].
End TraceText.
Export TraceText.

(** Upper case hexadecimal digit. *)
Definition hex_upper (z : Z) : byte := byte_of (if z <? 10 then 48 + z else 55 + z).

(** [src/src/tracing/traced_value.cc 32-66, EscapeString] One character; [char] is
    signed, so a byte from 0x80 on is below the space and is written as an
    escape of its value. *)
Definition escape_char (c : byte) : bytes :=
  match c with
  | x08 => [x5c; x62] | x0c => [x5c; x66] | x0a => [x5c; x6e] | x0d => [x5c; x72]
  | x09 => [x5c; x74] | x5c => [x5c; x5c] | x22 => [x5c; x22]
  | _ =>
      let v := if bval c <? 128 then bval c else bval c - 256 in
      if v <? 32 then
        [x5c; x75; x30; x30; hex_upper (bval c / 16); hex_upper (bval c mod 16)]
      else [c]
  end.

(** [src/src/tracing/traced_value.cc 24-69, EscapeString] [while ( *value)] stops at
    the first NUL. *)
Definition EscapeString (value : bytes) : bytes :=
  [x22] ++ (c_str value ≫= escape_char) ++ [x22].

(** [src/src/tracing/traced_value.cc 71-86, DoubleToCString] *)
Definition DoubleToCString (v : dbl) : bytes :=
  match v with
  | FpNan => str_nan
  | FpInfinite neg => if neg then str_neg_inf else str_inf
  | FpZero => [x30]
  | FpFinite text => text
  end.

(** [src/src/tracing/traced_value.h 62-65, TracedValue] *)
Record TracedValue := mkTraced { data_ : bytes; first_item_ : bool; root_is_array_ : bool }.

(** [src/src/tracing/traced_value.cc 90-99, TracedValue::Create] *)
Definition Create (root_is_array : bool) : TracedValue := mkTraced [] true root_is_array.

Definition append (v : TracedValue) (s : bytes) : TracedValue :=
  mkTraced (data_ v ++ s) (first_item_ v) (root_is_array_ v).
Definition set_first (v : TracedValue) (b : bool) : TracedValue :=
  mkTraced (data_ v) b (root_is_array_ v).

(** [src/src/tracing/traced_value.cc 185-191, TracedValue::WriteComma] *)
Definition WriteComma (v : TracedValue) : TracedValue :=
  if first_item_ v then set_first v false else append v [x2c].

(** [src/src/tracing/traced_value.cc 193-198, TracedValue::WriteName] *)
Definition WriteName (v : TracedValue) (name : bytes) : TracedValue :=
  append (append (append (WriteComma v) [x22]) (c_str name)) [x22; x3a].

(** The text of a value, common to the Set and Append methods. *)
Definition scalar_text (s : scalar) : bytes :=
  match s with
  | VNull => txt_null
  | VBool b => if b then txt_true else txt_false
  | VInt z => dec z
  | VDouble d => DoubleToCString d
  | VString s => EscapeString s
  | VForeign s => s
  end.

(** [src/src/tracing/traced_value.cc 101-124, TracedValue::SetInteger] SetInteger,
    SetDouble, SetBoolean, SetNull and SetString. *)
Definition Set_ (v : TracedValue) (name : bytes) (s : scalar) : TracedValue :=
  append (WriteName v name) (scalar_text s).

(** [src/src/tracing/traced_value.cc 138-161, TracedValue::AppendInteger]
    AppendInteger, AppendDouble, AppendBoolean, AppendNull and AppendString. *)
Definition Append_ (v : TracedValue) (s : scalar) : TracedValue :=
  append (WriteComma v) (scalar_text s).

(** [src/src/tracing/traced_value.cc 126-136, TracedValue::BeginDictionary] and
    BeginArray with a name; [c] is the bracket. *)
Definition Begin_named (v : TracedValue) (name : bytes) (c : byte) : TracedValue :=
  set_first (append (WriteName v name) [c]) true.

(** [src/src/tracing/traced_value.cc 163-173, TracedValue::BeginDictionary] and
    BeginArray without a name. *)
Definition Begin (v : TracedValue) (c : byte) : TracedValue :=
  set_first (append (WriteComma v) [c]) true.

(** [src/src/tracing/traced_value.cc 175-183, TracedValue::EndDictionary] and EndArray. *)
Definition End_ (v : TracedValue) (c : byte) : TracedValue := set_first (append v [c]) false.

(** [src/src/tracing/traced_value.cc 200-204, TracedValue::AppendAsTraceFormat] *)
Definition AppendAsTraceFormat (v : TracedValue) (out : bytes) : bytes :=
  ((out ++ [if root_is_array_ v then x5b else x7b]) ++ data_ v)
    ++ [if root_is_array_ v then x5d else x7d].

(** The calls for a tree. *)
Fixpoint trace_node (v : TracedValue) (n : node) : TracedValue :=
  match n with
  | Scalar (Some k) s => Set_ v k s
  | Scalar None s => Append_ v s
  | Obj (Some k) l => End_ (foldl trace_node (Begin_named v k x7b) l) x7d
  | Obj None l => End_ (foldl trace_node (Begin v x7b) l) x7d
  | Arr (Some k) l => End_ (foldl trace_node (Begin_named v k x5b) l) x5d
  | Arr None l => End_ (foldl trace_node (Begin v x5b) l) x5d
  end.

(** * Lemmas *)

Definition raw_name (k : bytes) : bytes := [x22] ++ c_str k ++ [x22].
Abbreviation print_trace := (print raw_name scalar_text).

Definition comma (v : TracedValue) : bytes := if first_item_ v then [] else [x2c].

Lemma named_begin v k :
  match k with Some k => WriteName v k | None => WriteComma v end
  = mkTraced (data_ v ++ comma v ++ key_prefix raw_name k) false (root_is_array_ v).
Proof.
  unfold WriteName, WriteComma, comma.
  destruct k as [k|], (first_item_ v) eqn:E; simpl; unfold append, set_first; simpl;
    rewrite ?E, ?app_nil_r; f_equal; rewrite <- ?app_assoc; done.
Qed.

Definition traced_ok (n : node) : Prop := forall v,
  trace_node v n = mkTraced (data_ v ++ comma v ++ print_trace n) false (root_is_array_ v).

Definition items (first : bool) (l : list node) : bytes :=
  if first then comma_join (map print_trace l) else l ≫= fun n => x2c :: print_trace n.

Lemma items_cons first n l :
  items first (n :: l) = ((if first then [] else [x2c]) ++ print_trace n) ++ items false l.
Proof.
  destruct first; simpl; [|done]. f_equal.
  induction l as [|a l IH]; [done|]. simpl map. rewrite !bind_cons. by rewrite IH.
Qed.

Lemma trace_members l : Forall traced_ok l -> forall v,
  data_ (foldl trace_node v l) = data_ v ++ items (first_item_ v) l /\
  root_is_array_ (foldl trace_node v l) = root_is_array_ v.
Proof.
  induction 1 as [|n l Hn _ IH]; intros v; simpl.
  - destruct (first_item_ v); by rewrite app_nil_r.
  - rewrite (Hn v). destruct (IH (mkTraced (data_ v ++ comma v ++ print_trace n) false (root_is_array_ v)))
      as [-> ->]. simpl. rewrite items_cons. unfold comma. by rewrite <- !app_assoc.
Qed.

Lemma trace_container l v d c c' :
  Forall traced_ok l ->
  End_ (foldl trace_node (set_first (append (mkTraced d false (root_is_array_ v)) [c]) true) l) c'
  = mkTraced (d ++ [c] ++ comma_join (map print_trace l) ++ [c']) false (root_is_array_ v).
Proof.
  intros Hl. unfold End_, set_first, append. simpl.
  destruct (trace_members l Hl (mkTraced (d ++ [c]) true (root_is_array_ v))) as [-> ->].
  simpl. by rewrite <- !app_assoc.
Qed.

Lemma all_traced_ok n : traced_ok n.
Proof.
  induction n as [k s|k l IH|k l IH] using node_ind'; intros v;
    pose proof (named_begin v k) as Hb; destruct k as [k|];
    cbn [trace_node]; unfold Set_, Append_, Begin, Begin_named; rewrite Hb;
    rewrite ?trace_container by done; unfold append; cbn [data_ first_item_ root_is_array_ print];
    f_equal; by rewrite <- !app_assoc.
Qed.

Lemma unescape_escape_char b t :
  b <> x00 ->
  json_unescape (escape_char b ++ t) = app (utf8_encode (bval b)) <$> json_unescape t.
Proof.
  intros Hb. destruct b; try done; eval_on escape_char; cbn [app json_unescape];
    by destruct (json_unescape t).
Qed.

(** * Properties *)

(** The text of a traced value is the printed tree of its calls: after
    building any tree of named and unnamed scalars, dictionaries and arrays,
    nested in any way, AppendAsTraceFormat appends the bracketed, comma-separated
    text with no comma missing or superfluous. *)
Theorem traced_value_prints (root_is_array : bool) (l : list node) (out : bytes) :
  AppendAsTraceFormat (foldl trace_node (Create root_is_array) l) out =
    out ++ print_trace (if root_is_array then Arr None l else Obj None l).
Proof.
  destruct (trace_members l ltac:(apply Forall_forall; intros; apply all_traced_ok) (Create root_is_array))
    as [Hd Hr].
  unfold AppendAsTraceFormat. rewrite Hd, Hr. simpl.
  destruct root_is_array; simpl; by rewrite <- !app_assoc.
Qed.

(** A traced string reads back as its bytes taken as Latin-1: a JSON reader
    decodes what EscapeString writes to the UTF-8 text in which every byte of the
    string is one code point; a string of ASCII characters reads back unchanged,
    while the bytes of any other UTF-8 text come back as separate characters. *)
Theorem EscapeString_reads_latin1 (value : bytes) :
  exists body, EscapeString value = [x22] ++ body ++ [x22] /\
    json_unescape body = Some (c_str value ≫= fun b => utf8_encode (bval b)).
Proof.
  eexists. split; [done|]. induction value as [|b value IH]; [done|].
  simpl. destruct (byte_eqb_spec b x00) as [->|Hb]; [done|].
  rewrite bind_cons, unescape_escape_char, IH by done. done.
Qed.
