(* ===== verification/Format.v ===== *)
(** src/src/debug_utils-inl.h, debug_utils.{h,cc} and the case conversions of
    util-inl.h: the formatter behind log lines and error messages, and the parsing
    of the debug categories.

    A format is a C string: a list of bytes without NUL, after which the terminator
    stands; what lies behind the terminator must not be read. *)

From S2P Require Import Prelude Json.
Import String.StringSyntax.
Local Open Scope string_scope.
Local Open Scope list_scope.
Local Open Scope Z_scope.

(** * Case conversion *)

(** [src/src/util-inl.h 27-29, ToLower] *)
Definition ToLower_char (c : byte) : byte :=
  if ((bval x41 <=? bval c) && (bval c <=? bval x5a))%bool
  then byte_of (bval c + (bval x61 - bval x41)) else c.

(** [src/src/util-inl.h 31-35, ToLower] *)
Definition ToLower (s : bytes) : bytes := map ToLower_char s.

(** [src/src/util-inl.h 37-39, ToUpper] *)
Definition ToUpper_char (c : byte) : byte :=
  if ((bval x61 <=? bval c) && (bval c <=? bval x7a))%bool
  then byte_of ((bval c - bval x61) + bval x41) else c.

(** [src/src/util-inl.h 41-45, ToUpper] *)
Definition ToUpper (s : bytes) : bytes := map ToUpper_char s.

(** * Arguments *)

(** An argument of the formatter: an integer of [size] bytes, a truth value, a
    [const char*] (the address, 0 for null, and the characters there), a
    [std::string], another pointer. *)
Inductive Arg :=
  | AInt (size : Z) (value : Z)
  | ABool (b : bool)
  | AChars (p : Z) (s : bytes)
  | AString (s : bytes)
  | APointer (p : Z).

Section format.
(** The text snprintf prints for a pointer. *)
Context (pointer_text : Z -> bytes).

(** [src/src/debug_utils-inl.h 33-45, ToStringHelper::Convert] A pointer that is not a
    character pointer converts to a truth value. *)
Definition Convert (a : Arg) : bytes :=
  match a with
  | AInt _ v => dec v
  | ABool b => if b then bs "true" else bs "false"
  | AChars p s => if p =? 0 then bs "(null)" else s
  | AString s => s
  | APointer p => if p =? 0 then bs "false" else bs "true"
  end.

Definition hex_digits : bytes := bs "0123456789abcdef".

(** [src/src/debug_utils-inl.h 55-58, ToStringHelper::BaseConvert] The loop writes
    downwards; [room] is the number of characters below [ptr]. *)
Fixpoint base_loop (fuel : nat) (bits : Z) (v : Z) (room : Z) (acc : bytes) : outcome bytes :=
  match fuel with
  | O => Fault OutOfFuel
  | S fuel =>
      let digit := Z.land v (Z.shiftl 1 bits - 1) in
      let c := if bits <? 4 then byte_of (bval x30 + digit) else nth (Z.to_nat digit) hex_digits x00 in
      if room <=? 0 then Fault OutOfBounds
      else
        let v := Z.shiftr v bits in
        if v =? 0 then Ret (c :: acc) else base_loop fuel bits v (room - 1) (c :: acc)
  end.

(** [src/src/debug_utils-inl.h 46-66, ToStringHelper::BaseConvert] The buffer has
    [3 * sizeof(T)] characters, the last for the terminator; the value is converted
    to 64 bits. *)
Definition BaseConvert (bits : Z) (a : Arg) : outcome bytes :=
  let conv size value := base_loop 64 bits (u64 value) (3 * size - 1) [] in
  match a with
  | AInt size value => conv size value
  | ABool b => conv 1 (if b then 1 else 0)
  | _ => Ret (Convert a)
  end.

(** * The formatter *)

Definition PCT : byte := x25.

(** [strchr(format, '%')]: the text before it and what follows it. *)
Fixpoint find_pct (fmt : bytes) : option (bytes * bytes) :=
  match fmt with
  | [] => None
  | c :: fmt =>
      if byte_eqb c PCT then Some ([], fmt)
      else match find_pct fmt with Some (a, b) => Some (c :: a, b) | None => None end
  end.

(** [src/src/debug_utils-inl.h 79-85, SPrintFImpl] Without arguments. *)
Fixpoint SPrintFImpl0 (fuel : nat) (fmt : bytes) : outcome bytes :=
  match find_pct fmt with
  | None => Ret fmt
  | Some (before, after) =>
      match fuel, after with
      | O, _ => Fault OutOfFuel
      | S fuel, c :: rest =>
          CHECK (byte_eqb c PCT) ;;
          r ← SPrintFImpl0 fuel rest; Ret (before ++ [PCT] ++ r)
      | S _, [] => Fault CheckFailed
      end
  end.

(** [src/src/debug_utils-inl.h 96-97, SPrintFImpl] [while (strchr("lz", *++p))]: the
    terminator is a member of every string, so that it is skipped as well. *)
Fixpoint skip_modifiers (p : bytes) : outcome (byte * bytes) :=
  match p with
  | [] => Fault OutOfBounds
  | c :: p => if (byte_eqb c x6c || byte_eqb c x7a)%bool then skip_modifiers p else Ret (c, p)
  end.

Inductive Conversion := CString | COct | CHex | CHEX | CPtr.

(** [src/src/debug_utils-inl.h 98-133, SPrintFImpl] The cases of the switch. *)
Definition conversion (c : byte) : option Conversion :=
  if (byte_eqb c x64 || byte_eqb c x69 || byte_eqb c x75 || byte_eqb c x73)%bool then Some CString
  else if byte_eqb c x6f then Some COct
  else if byte_eqb c x78 then Some CHex
  else if byte_eqb c x58 then Some CHEX
  else if byte_eqb c x70 then Some CPtr
  else None.

(** [src/src/debug_utils-inl.h 109-132, SPrintFImpl] What a conversion appends. *)
Definition convert (k : Conversion) (a : Arg) : outcome bytes :=
  match k with
  | CString => Ret (Convert a)
  | COct => BaseConvert 3 a
  | CHex => BaseConvert 4 a
  | CHEX => t ← BaseConvert 4 a; Ret (ToUpper t)
  | CPtr =>
      match a with
      | APointer p | AChars p _ => Ret (take 19 (pointer_text p))
      | _ => Fault CheckFailed
      end
  end.

(** [src/src/debug_utils-inl.h 87-135, SPrintFImpl] With the arguments. *)
Fixpoint SPrintFImpl (fuel : nat) (fmt : bytes) (args : list Arg) : outcome bytes :=
  match args with
  | [] => SPrintFImpl0 fuel fmt
  | arg :: args' =>
      match fuel with
      | O => Fault OutOfFuel
      | S fuel =>
          match find_pct fmt with
          | None => Fault CheckFailed
          | Some (ret, after) =>
              '(c, p) ← skip_modifiers after;
              if byte_eqb c PCT
              then r ← SPrintFImpl fuel p args; Ret (ret ++ [PCT] ++ r)
              else
                match conversion c with
                | None => r ← SPrintFImpl fuel (c :: p) args; Ret (ret ++ [PCT] ++ r)
                | Some k =>
                    t ← convert k arg;
                    r ← SPrintFImpl fuel p args'; Ret (ret ++ t ++ r)
                end
          end
      end
  end.

(** [src/src/debug_utils-inl.h 137-142, SPrintF] *)
Definition SPrintF (fmt : bytes) (args : list Arg) : outcome bytes :=
  SPrintFImpl (S (length fmt)) fmt args.

(** * The reference: one pass over the format *)

(** A piece of a format. [PLoose] is a percent sign that stands for itself without
    having been doubled, [PEnd] a percent sign at the end of the format. *)
Inductive piece := PChar (c : byte) | PEscaped | PLoose | PConv (k : Conversion) | PEnd.

(** [None] between directives; [Some exact] behind a percent sign, [exact] as long as
    no modifier has been skipped. *)
Fixpoint tokens (st : option bool) (fmt : bytes) : list piece :=
  match st, fmt with
  | None, [] => []
  | None, c :: fmt => if byte_eqb c PCT then tokens (Some true) fmt else PChar c :: tokens None fmt
  | Some _, [] => [PEnd]
  | Some exact, c :: fmt =>
      if (byte_eqb c x6c || byte_eqb c x7a)%bool then tokens (Some false) fmt
      else if byte_eqb c PCT then (if exact then PEscaped else PLoose) :: tokens None fmt
      else match conversion c with
           | Some k => PConv k :: tokens None fmt
           | None => PLoose :: PChar c :: tokens None fmt
           end
  end.

Definition prefixed (t : bytes) (m : outcome bytes) : outcome bytes := r ← m; Ret (t ++ r).

Fixpoint fill (ps : list piece) (args : list Arg) : outcome bytes :=
  match ps, args with
  | [], [] => Ret []
  | [], _ :: _ => Fault CheckFailed
  | PChar c :: ps, _ => prefixed [c] (fill ps args)
  | PEscaped :: ps, _ => prefixed [PCT] (fill ps args)
  | PLoose :: ps, _ :: _ => prefixed [PCT] (fill ps args)
  | PConv k :: ps, a :: args => t ← convert k a; prefixed t (fill ps args)
  | PEnd :: _, _ :: _ => Fault OutOfBounds
  | _, [] => Fault CheckFailed
  end.

Lemma prefixed_app t u m : prefixed t (prefixed u m) = prefixed (t ++ u) m.
Proof. destruct m; cbn; [by rewrite app_assoc|done]. Qed.

Lemma prefixed_nil m : prefixed [] m = m.
Proof. by destruct m. Qed.

Lemma find_pct_none fmt : find_pct fmt = None -> tokens None fmt = map PChar fmt.
Proof.
  induction fmt as [|c fmt IH]; cbn; [done|].
  destruct (byte_eqb c PCT); [done|]. destruct (find_pct fmt) as [[]|]; [done|]. intros _. by rewrite IH.
Qed.

Lemma find_pct_some fmt a b :
  find_pct fmt = Some (a, b) ->
  tokens None fmt = map PChar a ++ tokens (Some true) b /\ fmt = a ++ PCT :: b.
Proof.
  revert a. induction fmt as [|c fmt IH]; intros a; cbn; [done|].
  destruct (byte_eqb_spec c PCT) as [->|_].
  - intros [= <- <-]. done.
  - destruct (find_pct fmt) as [[a' b']|]; [|done]. intros [= <- <-].
    destruct (IH a' eq_refl) as [-> ->]. done.
Qed.

Lemma fill_chars a ps args : fill (map PChar a ++ ps) args = prefixed a (fill ps args).
Proof.
  induction a as [|c a IH]; cbn; [by rewrite prefixed_nil|].
  rewrite IH, prefixed_app. done.
Qed.

Lemma skip_modifiers_tokens e b :
  match skip_modifiers b with
  | Ret (c, p) =>
      (length (c :: p) <= length b)%nat /\ byte_eqb c x6c = false /\ byte_eqb c x7a = false /\
      exists e', tokens (Some e) b = tokens (Some e') (c :: p)
  | Fault f => f = OutOfBounds /\ tokens (Some e) b = [PEnd]
  end.
Proof.
  revert e. induction b as [|c b IH]; intros e; cbn; [done|].
  destruct (byte_eqb c x6c || byte_eqb c x7a)%bool eqn:E.
  - specialize (IH false). destruct (skip_modifiers b) as [[c' p']|]; [|done].
    destruct IH as (? & ? & ? & ?). cbn in *. split; [lia|]. done.
  - apply orb_false_iff in E as [E1 E2]. cbn. split; [lia|]. do 2 (split; [done|]).
    exists e. by rewrite E1, E2.
Qed.

Lemma SPrintFImpl0_fill fuel fmt :
  (length fmt < fuel)%nat -> SPrintFImpl0 fuel fmt = fill (tokens None fmt) [].
Proof.
  revert fmt. induction fuel as [|fuel IH]; intros fmt Hl; [lia|].
  cbn [SPrintFImpl0]. destruct (find_pct fmt) as [[a b]|] eqn:E.
  - destruct (find_pct_some _ _ _ E) as [-> ->]. rewrite length_app in Hl. cbn in Hl.
    rewrite fill_chars. destruct b as [|c b]; [done|]. cbn in Hl |- *.
    destruct (byte_eqb_spec c PCT) as [->|Hc].
    + cbn. rewrite IH by lia. destruct (fill _ _); done.
    + destruct (byte_eqb c x6c || byte_eqb c x7a)%bool eqn:Em; cbn.
      * assert (H : exists ps, tokens (Some false) b = PLoose :: ps
                    \/ (exists k, tokens (Some false) b = PConv k :: ps)
                    \/ tokens (Some false) b = PEnd :: ps).
        { clear. induction b as [|d b IHb]; cbn; [eauto|].
          destruct (_ || _)%bool; [done|]. destruct (byte_eqb d PCT); [eauto|].
          destruct (conversion d); eauto. }
        destruct H as (ps & [->|[[k ->]| ->]]); done.
      * destruct (conversion c); done.
  - rewrite (find_pct_none _ E), <-(app_nil_r (map PChar fmt)), fill_chars. cbn.
    by rewrite app_nil_r.
Qed.

Lemma tokens_conv e c p :
  byte_eqb c x6c = false -> byte_eqb c x7a = false ->
  tokens (Some e) (c :: p) =
  if byte_eqb c PCT then (if e then PEscaped else PLoose) :: tokens None p
  else match conversion c with
       | Some k => PConv k :: tokens None p
       | None => PLoose :: tokens None (c :: p)
       end.
Proof.
  intros E1 E2. cbn. rewrite E1, E2. cbn. destruct (byte_eqb c PCT); [done|]. done.
Qed.

Lemma SPrintFImpl_fill fuel fmt args :
  (length fmt < fuel)%nat -> SPrintFImpl fuel fmt args = fill (tokens None fmt) args.
Proof.
  revert fmt args. induction fuel as [|fuel IH]; intros fmt args Hl; [lia|].
  destruct args as [|a args]; [by apply SPrintFImpl0_fill|].
  cbn [SPrintFImpl]. destruct (find_pct fmt) as [[t b]|] eqn:E.
  2: { by rewrite (find_pct_none _ E), <-(app_nil_r (map PChar fmt)), fill_chars. }
  destruct (find_pct_some _ _ _ E) as [-> ->]. rewrite length_app in Hl. cbn in Hl.
  rewrite fill_chars. pose proof (skip_modifiers_tokens true b) as Hs.
  destruct (skip_modifiers b) as [[c p]|f]; cbn.
  2: { by destruct Hs as [-> ->]. }
  destruct Hs as (Hlen & E1 & E2 & e & ->). cbn in Hlen. rewrite (tokens_conv e c p E1 E2).
  destruct (byte_eqb c PCT).
  { rewrite IH by lia. destruct e; cbn; by destruct (fill _ _). }
  destruct (conversion c) as [k|].
  - cbn. destruct (convert k a) as [u|]; [|done]. cbn. rewrite IH by lia.
    destruct (fill _ _); [cbn; by rewrite app_assoc|done].
  - rewrite IH by (cbn; lia). cbn [fill]. by destruct (fill _ _).
Qed.

(** The formatter always ends and is the one pass over the format: literals are
    copied, a doubled percent sign is one percent sign, the conversions print the
    arguments in their order with the length modifiers ignored, a percent sign before
    an unknown conversion stands for itself as long as an argument is left, and an
    argument too many or too few is a failed check. The only read outside the format
    is a percent sign (with modifiers) that ends the format while an argument is
    left. *)
Theorem SPrintF_is_one_pass fmt args : SPrintF fmt args = fill (tokens None fmt) args.
Proof. apply SPrintFImpl_fill. lia. Qed.

(** * Digits *)

Definition digit_value (c : byte) : Z :=
  if bval c <=? bval x39 then bval c - bval x30 else bval c - bval x61 + 10.

Definition digits_value (bits : Z) (t : bytes) (n : Z) : Z :=
  fold_left (fun n c => n * 2 ^ bits + digit_value c) t n.

(** A numeral: not empty, without a leading zero unless it is zero itself. *)
Definition numeral (t : bytes) : Prop := t = [x30] \/ exists c r, t = c :: r /\ c <> x30.

Definition digit_char (bits d : Z) : byte :=
  if bits <? 4 then byte_of (bval x30 + d) else nth (Z.to_nat d) hex_digits x00.

Lemma digit_char_value bits d :
  bits = 3 \/ bits = 4 -> 0 <= d < 2 ^ bits ->
  digit_value (digit_char bits d) = d /\ (digit_char bits d = x30 -> d = 0).
Proof.
  intros Hb Hd.
  assert (Hall : forallb (fun k => let d := Z.of_nat k in
            (digit_value (digit_char bits d) =? d) &&
            (negb (byte_eqb (digit_char bits d) x30) || (d =? 0)))%bool
          (seq 0 (Z.to_nat (2 ^ bits))) = true).
  { destruct Hb as [-> | ->]; vm_compute; reflexivity. }
  rewrite forallb_forall in Hall. specialize (Hall (Z.to_nat d)).
  rewrite in_seq in Hall. specialize (Hall ltac:(lia)). rewrite Z2Nat.id in Hall by lia.
  apply andb_true_iff in Hall as [H1 H2]. split; [lia|]. intros E. rewrite E in H2.
  cbn in H2. lia.
Qed.

Lemma base_loop_exact bits fuel v room acc :
  bits = 3 \/ bits = 4 -> 0 <= v < 2 ^ (bits * Z.of_nat fuel) -> 0 <= room -> (0 < fuel)%nat ->
  if (0 <? room) && (v <? 2 ^ (bits * room))
  then exists t, base_loop fuel bits v room acc = Ret (t ++ acc) /\ numeral t /\
                 forall n, digits_value bits t n = n * 2 ^ (bits * Z.of_nat (length t)) + v
  else base_loop fuel bits v room acc = Fault OutOfBounds.
Proof.
  intros Hb. revert v room acc. induction fuel as [|fuel IH]; intros v room acc Hv Hr Hf; [lia|].
  cbn [base_loop]. change (if bits <? 4 then _ else _) with (digit_char bits (Z.land v (Z.shiftl 1 bits - 1))).
  assert (Hbp : 0 < 2 ^ bits) by (apply Z.pow_pos_nonneg; lia).
  replace (Z.land v (Z.shiftl 1 bits - 1)) with (v mod 2 ^ bits).
  2: { rewrite Z.shiftl_1_l, Z.sub_1_r, <-Z.ones_equiv, Z.land_ones; lia. }
  rewrite Z.shiftr_div_pow2 by lia.
  pose proof (Z.mod_pos_bound v (2 ^ bits) Hbp) as Hm.
  destruct (digit_char_value bits (v mod 2 ^ bits) Hb Hm) as [Hdv Hd0].
  pose proof (Z.div_mod v (2 ^ bits) ltac:(lia)) as Hdm.
  assert (Hq : 0 <= v / 2 ^ bits) by (apply Z.div_pos; lia).
  destruct (Z.leb_spec room 0).
  { replace (0 <? room) with false by lia. done. }
  replace (0 <? room) with true by lia. cbn [andb].
  destruct (Z.eqb_spec (v / 2 ^ bits) 0) as [E|E].
  - rewrite E in Hdm. destruct (Z.ltb_spec v (2 ^ (bits * room))).
    2: { exfalso. assert (2 ^ bits <= 2 ^ (bits * room)) by (apply Z.pow_le_mono_r; nia). lia. }
    eexists [_]. split; [reflexivity|]. split.
    + destruct (byte_eqb_spec (digit_char bits (v mod 2 ^ bits)) x30) as [->|]; [by left|right; eauto].
    + intros n. cbn. rewrite Hdv. rewrite Z.mul_1_r. lia.
  - destruct fuel as [|fuel].
    { exfalso. replace (bits * Z.of_nat 1) with bits in Hv by lia. apply E. apply Z.div_small. lia. }
    assert (Hsplit : 2 ^ (bits * room) = 2 ^ bits * 2 ^ (bits * (room - 1))).
    { rewrite <-Z.pow_add_r by nia. f_equal. lia. }
    assert (Hfs : 2 ^ (bits * Z.of_nat (S (S fuel))) = 2 ^ bits * 2 ^ (bits * Z.of_nat (S fuel))).
    { rewrite <-Z.pow_add_r by nia. f_equal. lia. }
    specialize (IH (v / 2 ^ bits) (room - 1) (digit_char bits (v mod 2 ^ bits) :: acc)
                  ltac:(split; [lia|apply Z.div_lt_upper_bound; lia]) ltac:(lia) ltac:(lia)).
    assert (Hcond : (0 <? room - 1) && (v / 2 ^ bits <? 2 ^ (bits * (room - 1))) = (v <? 2 ^ (bits * room))).
    { rewrite Hsplit. destruct (Z.ltb_spec v (2 ^ bits * 2 ^ (bits * (room - 1)))) as [Hlt|Hge].
      - assert (Hx : v / 2 ^ bits < 2 ^ (bits * (room - 1))) by (apply Z.div_lt_upper_bound; lia).
        destruct (Z.eq_dec room 1) as [->|]; [|lia].
        exfalso. change (bits * (1 - 1)) with (bits * 0) in Hx. rewrite Z.mul_0_r in Hx. cbn in Hx. lia.
      - assert (Hx : 2 ^ (bits * (room - 1)) <= v / 2 ^ bits) by (apply Z.div_le_lower_bound; lia). lia. }
    rewrite Hcond in IH. destruct (v <? 2 ^ (bits * room)); [|done].
    destruct IH as (t & -> & Hn & Hval).
    exists (t ++ [digit_char bits (v mod 2 ^ bits)]). split; [by rewrite <-app_assoc|]. split.
    + destruct Hn as [->|(c & r & -> & Hc)]; [|right; exists c, (r ++ [digit_char bits (v mod 2 ^ bits)]); done].
      specialize (Hval 0). cbn in Hval. lia.
    + intros n. unfold digits_value in *. rewrite fold_left_app, Hval. cbn [fold_left]. rewrite Hdv, length_app.
      cbn [length]. rewrite Nat2Z.inj_add, Z.mul_add_distr_l, Z.pow_add_r by lia.
      replace (bits * Z.of_nat 1) with bits by lia. lia.
Qed.
End format.

(** A number printed in base 8 or 16 is the numeral of the value converted to 64
    bits, exactly when that numeral fits into the buffer of [3 * sizeof(T)]
    characters; otherwise the characters below the buffer are written. *)
Theorem BaseConvert_exact bits size value :
  bits = 3 \/ bits = 4 -> 1 <= size ->
  if u64 value <? 2 ^ (bits * (3 * size - 1))
  then exists t, BaseConvert bits (AInt size value) = Ret t /\ numeral t /\ digits_value bits t 0 = u64 value
  else BaseConvert bits (AInt size value) = Fault OutOfBounds.
Proof.
  intros Hb Hs. unfold BaseConvert.
  assert (Hu : 0 <= u64 value < 2 ^ (bits * Z.of_nat 64)).
  { pose proof (wrap_range 64 value ltac:(lia)) as Hw. change (wrap 64 value) with (u64 value) in Hw. assert (2 ^ 64 <= 2 ^ (bits * Z.of_nat 64)) by (apply Z.pow_le_mono_r; lia). lia. }
  pose proof (base_loop_exact bits 64 (u64 value) (3 * size - 1) [] Hb Hu ltac:(lia) ltac:(lia)) as H.
  replace (0 <? 3 * size - 1) with true in H by lia. cbn [andb] in H.
  destruct (_ <? _); [|done]. destruct H as (t & -> & Hn & Hv). exists t. rewrite app_nil_r, Hv. auto with lia.
Qed.

Lemma BaseConvert_exact_witness :
  BaseConvert 4 (AInt 4 48879) = Ret (bs "beef") /\
  exists t, BaseConvert 4 (AInt 4 48879) = Ret t /\ numeral t /\ digits_value 4 t 0 = 48879.
Proof.
  split; [vm_compute; reflexivity|]. apply (BaseConvert_exact 4 4 48879); [by right|lia].
Defined.

(** What the buffer is too short for: a negative [int] in base 16 is widened to 64
    bits with its sign before it is printed, and a [uint8_t] or a [uint16_t] has
    more octal digits than the buffer has characters; in each case the formatter
    writes below its buffer. A single percent sign at the end of the format of a call
    with an argument is read past its terminator. *)
Theorem SPrintF_overruns ptext :
  SPrintF ptext (bs "%x") [AInt 4 (-1)] = Fault OutOfBounds /\
  SPrintF ptext (bs "%o") [AInt 1 255] = Fault OutOfBounds /\
  SPrintF ptext (bs "%o") [AInt 2 65535] = Fault OutOfBounds /\
  SPrintF ptext (bs "100%") [AInt 4 1] = Fault OutOfBounds /\
  SPrintF ptext (bs "%d of %d, 100%%") [AInt 4 (-1); AInt 8 7] = Ret (bs "-1 of 7, 100%").
Proof. repeat split. Qed.

(** * Debug categories *)

(** [src/src/debug_utils.h 24-40, DebugCategory] *)
Inductive DebugCategory :=
  | AGENT_CHANNEL | MACRO_TASK_QUEUE | MKSNAPSHOT | NATIVE_MODULE | OVERRIDE | PLATFORM
  | PERFORMANCE | TRACING | ZLIB.

#[export] Instance DebugCategory_eq_dec : EqDecision DebugCategory.
Proof. solve_decision. Defined.

(** [src/src/debug_utils.h 24-33, DEBUG_CATEGORY_NAMES] *)
Definition DEBUG_CATEGORY_NAMES : list (DebugCategory * bytes) :=
  [(AGENT_CHANNEL, bs "AGENT_CHANNEL"); (MACRO_TASK_QUEUE, bs "MACRO_TASK_QUEUE");
   (MKSNAPSHOT, bs "MKSNAPSHOT"); (NATIVE_MODULE, bs "NATIVE_MODULE"); (OVERRIDE, bs "OVERRIDE");
   (PLATFORM, bs "PLATFORM"); (PERFORMANCE, bs "PERFORMANCE"); (TRACING, bs "TRACING"); (ZLIB, bs "ZLIB")].

(** The categories whose flag in [enabled_] is set. *)
Definition EnabledDebugList := list DebugCategory.

(** [src/src/debug_utils.h 44-49, EnabledDebugList::enabled] *)
Definition enabled (l : EnabledDebugList) (c : DebugCategory) : bool := bool_decide (c ∈ l).

(** [src/src/debug_utils.h 58-63, EnabledDebugList::set_enabled] The argument is not
    used. *)
Definition set_enabled (l : EnabledDebugList) (c : DebugCategory) (enabled : bool) : EnabledDebugList := c :: l.

Fixpoint starts_with (w s : bytes) : bool :=
  match w, s with
  | [], _ => true
  | a :: w, b :: s => byte_eqb a b && starts_with w s
  | _ :: _, [] => false
  end.

(** [s.find(w) != std::string::npos] *)
Fixpoint contains (w s : bytes) : bool :=
  starts_with w s || match s with [] => false | _ :: s => contains w s end.

(** [cats.find(',')]: the text before the comma and, where there is one, after it. *)
Fixpoint find_comma (s : bytes) : bytes * option bytes :=
  match s with
  | [] => ([], None)
  | c :: s =>
      if byte_eqb c x2c then ([], Some s)
      else let '(a, b) := find_comma s in (c :: a, b)
  end.

(** [src/src/debug_utils.cc 79-89, EnabledDebugList::Parse] One name of the list. *)
Definition parse_one (wanted : bytes) (on : bool) (l : EnabledDebugList) : EnabledDebugList :=
  fold_left (fun l '(c, name) => if contains wanted (ToLower name) then set_enabled l c on else l)
    DEBUG_CATEGORY_NAMES l.

(** [src/src/debug_utils.cc 75-95, EnabledDebugList::Parse] *)
Fixpoint Parse (fuel : nat) (cats : bytes) (on : bool) (l : EnabledDebugList) : outcome EnabledDebugList :=
  match cats with
  | [] => Ret l
  | _ =>
      match fuel with
      | O => Fault OutOfFuel
      | S fuel =>
          let '(word, rest) := find_comma cats in
          let l := parse_one (ToLower word) on l in
          match rest with None => Ret l | Some rest => Parse fuel rest on l end
      end
  end.

(** [src/src/debug_utils.cc 66-73, EnabledDebugList::Parse] [value] is the value of
    the environment variable. *)
Definition ParseEnv (value : option bytes) (l : EnabledDebugList) : outcome EnabledDebugList :=
  match value with None => Ret l | Some cats => Parse (length cats) cats true l end.

(** The names of a list: the texts between commas, less an empty one at the end. *)
Fixpoint words (s : bytes) : list bytes :=
  match s with
  | [] => []
  | c :: s =>
      if byte_eqb c x2c then [] :: words s
      else match words s with [] => [[c]] | w :: ws => (c :: w) :: ws end
  end.

Lemma words_find_comma s :
  s <> [] ->
  words s = let '(w, rest) := find_comma s in w :: match rest with None => [] | Some r => words r end.
Proof.
  induction s as [|c s IH]; intros Hs; [done|]. cbn.
  destruct (byte_eqb c x2c) eqn:E; [done|]. destruct s as [|d s]; [done|].
  rewrite (IH ltac:(done)). by destruct (find_comma (d :: s)) as [w [r|]].
Qed.

Lemma find_comma_length s w r : find_comma s = (w, Some r) -> (length r < length s)%nat.
Proof.
  revert w. induction s as [|c s IH]; intros w; cbn; [done|].
  destruct (byte_eqb c x2c); [intros [= <- <-]; lia|].
  destruct (find_comma s) as [w' [r'|]]; intros [= <- <-]. specialize (IH _ eq_refl). lia.
Qed.

Definition category_matches (c : DebugCategory) (w : bytes) : bool :=
  existsb (fun '(d, name) => bool_decide (c = d) && contains (ToLower w) (ToLower name)) DEBUG_CATEGORY_NAMES.

Lemma parse_fold_in names w on l c :
  c ∈ fold_left (fun l '(c, name) => if contains (ToLower w) (ToLower name) then set_enabled l c on else l) names l
  <-> c ∈ l \/ existsb (fun '(d, name) => bool_decide (c = d) && contains (ToLower w) (ToLower name)) names = true.
Proof.
  revert l. induction names as [|[d name] names IH]; intros l; cbn; [intuition discriminate|].
  rewrite IH, orb_true_iff, andb_true_iff, bool_decide_eq_true.
  destruct (contains _ _); unfold set_enabled; [rewrite elem_of_cons|]; intuition congruence.
Qed.

Lemma Parse_in fuel cats on l :
  (length cats <= fuel)%nat ->
  exists l', Parse fuel cats on l = Ret l' /\
             forall c, c ∈ l' <-> c ∈ l \/ existsb (category_matches c) (words cats) = true.
Proof.
  revert cats l. induction fuel as [|fuel IH]; intros cats l Hl; (destruct cats as [|x cats]; [
    exists l; split; [done|]; cbn; intuition discriminate|]); [cbn in Hl; lia|].
  rewrite words_find_comma by done.
  assert (HP : Parse (S fuel) (x :: cats) on l =
    let '(word, rest) := find_comma (x :: cats) in
    match rest with None => Ret (parse_one (ToLower word) on l)
    | Some rest => Parse fuel rest on (parse_one (ToLower word) on l) end) by done.
  rewrite HP. clear HP. destruct (find_comma (x :: cats)) as [w [r|]] eqn:E.
  - apply find_comma_length in E. destruct (IH r (parse_one (ToLower w) on l) ltac:(lia)) as (l' & -> & Hin).
    exists l'. split; [done|]. intros c. rewrite Hin. cbn [existsb]. rewrite orb_true_iff.
    unfold parse_one. rewrite parse_fold_in. unfold category_matches. tauto.
  - eexists. split; [done|]. intros c. cbn [existsb]. rewrite orb_false_r. apply parse_fold_in.
Qed.

(** The parser of the debug categories ends and enables a category exactly when the
    name of it contains, without regard to case, one of the listed names; what was
    enabled stays enabled, whatever the argument that asks for enabling or disabling. *)
Theorem Parse_enables_matching cats on l :
  exists l', Parse (length cats) cats on l = Ret l' /\
             forall c, enabled l' c = (enabled l c || existsb (category_matches c) (words cats))%bool.
Proof.
  destruct (Parse_in (length cats) cats on l ltac:(lia)) as (l' & E & H). exists l'. split; [done|].
  intros c. unfold enabled. apply eq_true_iff_eq. rewrite orb_true_iff, !bool_decide_eq_true. apply H.
Qed.

(** A list whose first name is empty enables every category: each name contains the
    empty name. *)
Theorem empty_name_enables_all cats c :
  exists l', ParseEnv (Some (x2c :: cats)) [] = Ret l' /\ enabled l' c = true.
Proof.
  destruct (Parse_in (length (x2c :: cats)) (x2c :: cats) true [] ltac:(lia)) as (l' & E & H).
  exists l'. split; [done|]. apply bool_decide_eq_true, H. right. cbn [words byte_eqb existsb].
  by destruct c.
Qed.
