(* ===== verification/ErrorHandling.v ===== *)
(** * Error handling

    src/src/error_handling.{h,cc}: what is printed for an exception, the underlined source
    line, and what happens to an exception or a rejected promise nobody handles.

    V8 is an environment: a thrown value is what the code can learn of it (its text, which may
    not exist, and for an object the outcome of reading its properties); a handler of the
    script returns or throws.  What the code does is the list of its effects in order; a
    pointer to text that does not exist, or memory outside a string, is a fault.

    The theorems: the underline is as long as the text it marks and stays inside its buffer,
    and when it reads outside the line; which exceptions end the process, with which code, and
    that the message comes before; what is printed for an error with a stack, and which thrown
    values end the process by an abort instead. *)

From S2P Require Import Prelude Json Format.
Import String.StringSyntax.
Local Open Scope string_scope.
Local Open Scope list_scope.
Local Open Scope Z_scope.

(** * Values that are thrown *)

(** Reading a property: an exception, [undefined], or a value with its text, if it has one. *)
Inductive prop := PThrows | PUndefined | PValue (text : option bytes).

Record object := mkObject { stack : prop; message : prop; name : prop; as_text : option bytes }.

(** [null] or [undefined], a primitive with its text (a symbol has none), an object. *)
Inductive thrown := TNullish (text : bytes) | TPrimitive (text : option bytes) | TObject (o : object).

Definition utf8_of (v : thrown) : option bytes :=
  match v with TNullish t => Some t | TPrimitive t => t | TObject o => as_text o end.

(** Text for a [%s]: a null pointer is a fault. *)
Definition percent_s (t : option bytes) : outcome bytes :=
  match t with Some s => Ret (c_str s) | None => Fault NullDeref end.

(** Text for a [%s] after a test of the pointer. *)
Definition or_else (t : option bytes) (default : bytes) : bytes := match t with Some s => c_str s | None => default end.

Definition newline : bytes := [x0a].

(** [src/src/error_handling.cc 55-83, PrintCaughtException] *)
Definition PrintCaughtException (e : thrown) : outcome bytes :=
  let as_is := Ret (or_else (utf8_of e) (bs "<toString() threw exception>") ++ newline) in
  match e with
  | TObject o =>
      match message o, name o with
      | PValue m, PValue n => n ← percent_s n; m ← percent_s m; Ret (n ++ bs ": " ++ m ++ newline)
      | _, _ => as_is
      end
  | _ => as_is
  end.

(** [src/src/error_handling.h 72-78, ExceptionType] *)
Inductive ExceptionType := kError | kRangeError | kReferenceError | kSyntaxError | kTypeError.

(** [src/src/error_handling.cc 90-121, GenException] The name of the class. *)
Definition GenException (message_ : bytes) (type : ExceptionType) : bytes * bytes :=
  (match type with
   | kRangeError => bs "RangeError" | kReferenceError => bs "ReferenceError" | kSyntaxError => bs "SyntaxError"
   | kTypeError => bs "TypeError" | kError => bs "Error"
   end, message_).

(** * Messages *)

Record frame := mkFrame { function_name : option bytes; script_name : option bytes; line : Z; column : Z }.

(** What V8 knows of the place: [None] for what it may not have.  The stack is there when the
    isolate captures it. *)
Record Message := mkMessage {
  text : option bytes;
  source_line : option bytes;
  resource : option bytes;
  line_number : option Z;
  line_offset : Z;
  column_offset : Z;
  start_column : option Z;
  end_column : option Z;
  frames : option (list frame) }.

Fixpoint print_frames (l : list frame) : outcome bytes :=
  match l with
  | [] => Ret []
  | f :: l =>
      fn ← percent_s (function_name f);
      sn ← percent_s (script_name f);
      rest ← print_frames l;
      Ret (bs "  at " ++ fn ++ bs " (" ++ sn ++ bs ":" ++ dec (line f) ++ bs ":" ++ dec (column f) ++ bs ")" ++ newline ++ rest)
  end.

(** [src/src/error_handling.cc 171-185, PrintStackTrace] *)
Definition PrintStackTrace (m : Message) : outcome bytes :=
  match frames m with None => Fault NullDeref | Some l => print_frames l end.

Definition kUnderlineBufsize : Z := 1020.

(** [sourceline[i]]: the terminator may be read, nothing behind it. *)
Definition at_ (s : bytes) (i : Z) : outcome byte :=
  if (i <? 0) || (Z.of_nat (length s) <? i) then Fault OutOfBounds
  else Ret (nth (Z.to_nat i) s x00).

(** [src/src/error_handling.cc 218-231, GetExceptionSource] One of the loops: from [i], [n]
    times at most; [mark] is the character for a character of the line. *)
Fixpoint underline_loop (mark : byte -> byte) (s : bytes) (n : nat) (i : Z) (buf : bytes) : outcome bytes :=
  match n with
  | O => Ret buf
  | S n =>
      c ← at_ s i;
      if (byte_eqb c x00 || (kUnderlineBufsize <=? Z.of_nat (length buf)))%bool then Ret buf
      else
        CHECK (Z.of_nat (length buf) <? kUnderlineBufsize) ;;
        underline_loop mark s n (i + 1) (buf ++ [mark c])
  end.

Definition blank (c : byte) : byte := if byte_eqb c x09 then x09 else x20.

(** [src/src/error_handling.cc 214-235, GetExceptionSource] The underline and its end of line. *)
Definition underline (s : bytes) (start end_ : Z) : outcome bytes :=
  buf ← underline_loop blank s (Z.to_nat start) 0 [];
  buf ← underline_loop (fun _ => x5e) s (Z.to_nat (end_ - start)) start buf;
  CHECK (Z.of_nat (length buf) <=? kUnderlineBufsize) ;;
  Ret (buf ++ newline).

(** [src/src/error_handling.cc 200-208, GetExceptionSource] The columns within the line. *)
Definition columns (m : Message) (linenum : Z) : outcome (Z * Z) :=
  let script_start := if (linenum - line_offset m) =? 1 then column_offset m else 0 in
  let start := default 0 (start_column m) in
  let end_ := default 0 (end_column m) in
  if script_start <=? start then CHECK (start <=? end_) ;; Ret (start - script_start, end_ - script_start)
  else Ret (start, end_).

Section printing.
Context (pointer_text : Z -> bytes).

(** [src/src/error_handling.cc 187-236, GetExceptionSource] *)
Definition GetExceptionSource (m : Message) : outcome bytes :=
  match source_line m, line_number m with
  | Some sourceline, Some linenum =>
      '(start, end_) ← columns m linenum;
      buf ← SPrintF pointer_text (bs "%s:%i" ++ newline ++ bs "%s" ++ newline)
              [AChars (if resource m is Some _ then 1 else 0) (c_str (default [] (resource m))); AInt 4 linenum;
               AChars 1 (c_str sourceline)];
      CHECK (0 <? Z.of_nat (length buf)) ;;
      u ← underline sourceline start end_;
      Ret (buf ++ u)
  | _, _ => Fault CheckFailed
  end.

(** [src/src/error_handling.cc 258-269, PrintFatalException] What the trace is: the code never
    takes the stack it reads. [None] is an empty handle, [Some None] is [undefined]. *)
Definition trace_value (error : thrown) : option (option bytes) :=
  match error with
  | TNullish _ => Some None
  | TPrimitive t => match t with Some s => Some (Some s) | None => None end
  | TObject o => match stack o with PThrows => Some None | _ => None end
  end.

(** [src/src/error_handling.cc 271-304, PrintFatalException] *)
Definition print_trace (error : thrown) : outcome bytes :=
  match trace_value error with
  | Some (Some (c :: s)) => Ret (c_str (c :: s) ++ newline)
  | _ =>
      let as_is := t ← percent_s (utf8_of error); Ret (t ++ newline) in
      match error with
      | TObject o =>
          match stack o with
          | PThrows => Fault CheckFailed
          | message_ =>
              match name o with
              | PThrows => Fault CheckFailed
              | PUndefined => as_is
              | PValue _ => match message_ with PValue t => t ← percent_s t; Ret (t ++ newline) | _ => as_is end
              end
          end
      | _ => as_is
      end
  end.

(** [src/src/error_handling.cc 247-307, PrintFatalException] [m] is [None] for an empty
    message. *)
Definition PrintFatalException (error : thrown) (m : option Message) : outcome bytes :=
  source ← match m with Some m => t ← GetExceptionSource m; Ret (c_str t) | None => Ret [] end;
  trace ← print_trace error;
  Ret (source ++ trace).

(** * Effects *)

Inductive effect :=
  | EPrint (t : bytes)
  | EInspector
  | EHandler
  | EReport (trigger : bytes)
  | EExit (code : Z)
  | EAbort.

(** [src/src/error_handling.cc 123-139, TryTriggerDiagReport] Whether there is an isolate and an
    instance, and whether reports are asked for. *)
Definition TryTriggerDiagReport (current : option bool) (trigger : bytes) : list effect :=
  match current with Some true => [EReport trigger] | _ => [] end.

(** [src/src/error_handling.cc 141-153, FatalError] *)
Definition FatalError (current : option bool) (location : option bytes) (msg : bytes) : list effect :=
  EPrint (match location with
          | Some l => bs "FATAL ERROR: " ++ l ++ bs " " ++ msg ++ newline
          | None => bs "FATAL ERROR: " ++ msg ++ newline
          end) ::
  TryTriggerDiagReport current (bs "FatalError") ++ [EAbort].

(** [src/src/error_handling.cc 155-169, FatalException] *)
Definition FatalException (current : option bool) (e : thrown) (m : Message) : outcome (list effect) :=
  t ← percent_s (text m);
  p ← PrintCaughtException e;
  s ← PrintStackTrace m;
  Ret (EPrint (bs "FATAL: " ++ t ++ newline) :: EPrint p :: EPrint s ::
       TryTriggerDiagReport current (bs "FatalException") ++ [EAbort]).

(** [src/src/error_handling.cc 37-46, TryCatchScope::~TryCatchScope] What was caught, whether
    execution was terminated; [created] is the message V8 makes of the exception. *)
Definition TryCatchScope_end (current : option bool) (fatal has_terminated : bool) (caught : option (thrown * option Message))
    (created : Message) : outcome (list effect) :=
  match caught with
  | Some (e, m) => if (negb has_terminated && fatal)%bool then FatalException current e (default created m) else Ret []
  | None => Ret []
  end.

(** A handler of the script: a property that throws, no function, one that throws, one that returns [true] or something
    else. *)
Inductive handler := Unreadable | NotAFunction | Throws (e : thrown) (m : Message) | Returns (is_true : bool).

(** [src/src/error_handling.cc 309-365, EmitUncaughtException] *)
Definition EmitUncaughtException (current : option bool) (in_context : bool) (error : option thrown) (m : option Message)
    (created : Message) (h : handler) : outcome (list effect) :=
  match error with
  | None => Fault CheckFailed
  | Some error =>
      let m := default created m in
      CHECK in_context ;;
      match h with
      | Unreadable => Fault CheckFailed
      | NotAFunction => Ret [EInspector; EPrint (bs "process.emitUncaughtException is not a function."); EExit 6]
      | Throws _ _ => Ret [EInspector; EHandler]
      | Returns true => Ret [EInspector; EHandler]
      | Returns false =>
          p ← PrintFatalException error (Some m);
          Ret (EInspector :: EHandler :: EPrint p :: TryTriggerDiagReport current (bs "UncaughtException") ++ [EExit 1])
      end
  end.

(** [src/src/error_handling.cc 367-376, EmitUncaughtException] For what a scope caught. *)
Definition EmitUncaughtException_caught (current : option bool) (in_context verbose has_terminated : bool)
    (caught : option (thrown * option Message)) (created : Message) (h : handler) : outcome (list effect) :=
  if verbose then Ret []
  else
    CHECK (negb has_terminated) ;;
    match caught with
    | None => Fault CheckFailed
    | Some (e, m) => EmitUncaughtException current in_context (Some e) m created h
    end.

(** [src/src/error_handling.cc 382-445, OnPromiseReject] *)
Definition OnPromiseReject (in_context : bool) (promise : bool) (reason : option thrown) (h : handler) : outcome (list effect) :=
  let reason := default (TNullish (bs "undefined")) reason in
  CHECK promise ;;
  CHECK in_context ;;
  match h with
  | Unreadable | NotAFunction => Fault CheckFailed
  | Throws e m => p ← PrintFatalException e (Some m); Ret [EHandler; EPrint p; EAbort]
  | Returns true => Ret [EHandler]
  | Returns false => p ← PrintFatalException reason None; Ret [EHandler; EPrint p; EExit 1]
  end.
End printing.

(** * The underline *)

Lemma at_nth s i c : s !! i = Some c -> at_ s (Z.of_nat i) = Ret c.
Proof.
  intros Hc. pose proof (lookup_lt_Some _ _ _ Hc). unfold at_.
  rewrite (proj2 (Z.ltb_ge _ _)), (proj2 (Z.ltb_ge _ _)) by lia. cbn. rewrite Nat2Z.id.
  by rewrite (nth_lookup_Some _ _ _ _ Hc).
Qed.

Lemma at_end s : at_ s (Z.of_nat (length s)) = Ret x00.
Proof.
  unfold at_. rewrite (proj2 (Z.ltb_ge _ _)), (proj2 (Z.ltb_ge _ _)) by lia. cbn. rewrite Nat2Z.id.
  by rewrite nth_overflow by lia.
Qed.

Lemma at_past s i : Z.of_nat (length s) < i -> at_ s i = Fault OutOfBounds.
Proof. intros Hi. unfold at_. rewrite (proj2 (Z.ltb_lt (Z.of_nat (length s)) i)) by done. by rewrite orb_true_r. Qed.

Lemma underline_loop_spec mark s n : no_nul s -> forall i buf, (i <= length s)%nat -> (length buf <= 1020)%nat ->
  underline_loop mark s n (Z.of_nat i) buf = Ret (take 1020 (buf ++ (mark <$> take n (drop i s)))).
Proof.
  intros Hs. unfold no_nul in Hs. induction n as [|n IH]; intros i buf Hi Hb.
  { cbn [underline_loop]. rewrite take_0. cbn [fmap list_fmap]. by rewrite app_nil_r, take_ge. }
  cbn [underline_loop]. destruct (decide (i = length s)) as [->|Hne].
  { rewrite at_end, outcome_bind_ret. cbn [byte_eqb]. rewrite byte_eqb_refl. cbn [orb].
    rewrite drop_ge by lia. rewrite take_nil. cbn [fmap list_fmap]. by rewrite app_nil_r, take_ge. }
  destruct (lookup_lt_is_Some_2 s i ltac:(lia)) as [c Hc]. rewrite (at_nth _ _ _ Hc), outcome_bind_ret.
  assert (Hnul : byte_eqb c x00 = false).
  { apply byte_eqb_ne. intros ->. apply Hs. by eapply list_elem_of_lookup_2. }
  rewrite Hnul. cbn [orb]. unfold kUnderlineBufsize. destruct (Z.leb_spec 1020 (Z.of_nat (length buf))).
  { by rewrite take_app_le, take_ge by lia. }
  rewrite (proj2 (Z.ltb_lt _ _)) by lia. cbn [CHECK]. rewrite outcome_bind_ret.
  replace (Z.of_nat i + 1) with (Z.of_nat (S i)) by lia.
  rewrite IH by (rewrite ?length_app; cbn; lia). rewrite (drop_S _ _ _ Hc). cbn [take fmap list_fmap].
  by rewrite <-app_assoc.
Qed.

Lemma underline_text s (start end_ : nat) : no_nul s -> (start <= length s)%nat ->
  underline s (Z.of_nat start) (Z.of_nat end_) =
  Ret (take 1020 ((blank <$> take start s) ++ replicate (min end_ (length s) - start) x5e) ++ newline).
Proof.
  intros Hs Hst. unfold underline. rewrite Nat2Z.id. change 0 with (Z.of_nat 0) at 1.
  rewrite underline_loop_spec, outcome_bind_ret by (done || cbn; lia). rewrite drop_0. cbn [app].
  rewrite underline_loop_spec, outcome_bind_ret by (rewrite ?length_take; done || lia).
  set (t := take 1020 (_ ++ _)).
  assert (Ht : t = take 1020 ((blank <$> take start s) ++ replicate (min end_ (length s) - start) x5e)).
  { unfold t. assert (Hr : (fun _ : byte => x5e) <$> take (Z.to_nat (Z.of_nat end_ - Z.of_nat start)) (drop start s) =
      replicate (min end_ (length s) - start) x5e).
    { rewrite (const_fmap _ _ x5e) by done. f_equal. rewrite length_take, length_drop. lia. }
    rewrite Hr. set (a := blank <$> take start s). destruct (decide (length a <= 1020)%nat).
    - by rewrite (take_ge a) by done.
    - rewrite take_app_le by (rewrite length_take; lia). rewrite take_take. by rewrite take_app_le by lia. }
  assert (Hl : (length t <= 1020)%nat) by (unfold t; rewrite length_take; lia).
  rewrite (proj2 (Z.leb_le _ _)) by (unfold kUnderlineBufsize; lia). cbn [CHECK]. rewrite outcome_bind_ret. by rewrite Ht.
Qed.

(** The underline of the source line: for every line, and columns that start within it, it
    has a blank, or a tab under a tab, for each character before the start and a caret for
    each one up to the end or the end of the line, cut at the 1020 characters of its buffer,
    and neither the line nor the buffer is left. *)
Theorem underline_marks_the_columns (s : bytes) (start end_ : nat) : no_nul s -> (start <= length s)%nat ->
  underline s (Z.of_nat start) (Z.of_nat end_) =
  Ret (take 1020 ((blank <$> take start s) ++ replicate (min end_ (length s) - start) x5e) ++ newline).
Proof. apply underline_text. Qed.

Lemma underline_marks_the_columns_witness :
  no_nul (bs "let x = y;") /\ underline (bs "let x = y;") 8 9 = Ret (bs "        ^" ++ newline).
Proof.
  assert (H : no_nul (bs "let x = y;")) by (unfold no_nul; set_solver).
  split; [exact H|]. exact (underline_marks_the_columns (bs "let x = y;") 8 9 H ltac:(vm_compute; lia)).
Defined.

(** A start behind the line, with something to mark: the line is read behind its end. *)
Theorem underline_past_the_line (s : bytes) (start end_ : nat) :
  no_nul s -> (length s < start < end_)%nat -> underline s (Z.of_nat start) (Z.of_nat end_) = Fault OutOfBounds.
Proof.
  intros Hs Hst. unfold underline. rewrite Nat2Z.id. change 0 with (Z.of_nat 0) at 1.
  rewrite underline_loop_spec, outcome_bind_ret by (done || cbn; lia).
  destruct (Z.to_nat (Z.of_nat end_ - Z.of_nat start)) as [|n] eqn:E; [lia|]. cbn [underline_loop].
  by rewrite at_past by lia.
Qed.

(** * What ends the process *)

Section ends.
Context (pointer_text : Z -> bytes).

(** The code it ends with. *)
Definition exit_code (l : list effect) : option Z :=
  match last l with Some (EExit c) => Some c | _ => None end.

(** Why and how an exception is printed, without the code: the place, with the line underlined,
    when V8 knows line and number, the columns are in order and the marked part begins within
    the line; and the text of what was thrown, the stack of an object that has one and a name,
    when there is one and reading it does not throw. *)
Definition source_text (m : Message) : option bytes :=
  s ← source_line m;
  n ← line_number m;
  let off := if n - line_offset m =? 1 then column_offset m else 0 in
  let start := default 0 (start_column m) in
  let stop := default 0 (end_column m) in
  let shift := if off <=? start then off else 0 in
  let a := Z.to_nat (start - shift) in
  let b := Z.to_nat (stop - shift) in
  if ((off <=? start) && (stop <? start) || (length s <? a)%nat && (a <? b)%nat)%bool then None
  else Some (match resource m with Some r => c_str r | None => bs "(null)" end ++ bs ":" ++ dec n ++ newline ++ s ++ newline ++
    take 1020 ((blank <$> take a s) ++ replicate (min b (length s) - a) x5e) ++ newline).

Definition text_of (error : thrown) : option bytes :=
  match error with
  | TNullish t => Some t
  | TPrimitive t => t
  | TObject o =>
      match stack o, name o with
      | PThrows, _ | _, PThrows => None
      | PValue t, PValue _ => t
      | _, _ => as_text o
      end
  end.

(** A source line has no NUL, a column is not negative. *)
Definition message_ok (m : Message) : Prop :=
  match source_line m with Some s => no_nul s | None => True end /\ 0 <= default 0 (start_column m).

Definition aborts {A} (r : outcome A) : Prop := exists f, r = Fault f.

Lemma underline_total s (a b : nat) : no_nul s -> underline s (Z.of_nat a) (Z.of_nat b) =
  if ((length s <? a)%nat && (a <? b)%nat)%bool then Fault OutOfBounds
  else Ret (take 1020 ((blank <$> take a s) ++ replicate (min b (length s) - a) x5e) ++ newline).
Proof.
  intros Hs. destruct (Nat.ltb_spec (length s) a) as [Ha|Ha]; cbn [andb]; [|by apply underline_text].
  destruct (Nat.ltb_spec a b) as [Hb|Hb]; [by apply underline_past_the_line|].
  unfold underline. rewrite Nat2Z.id. replace (Z.to_nat (Z.of_nat b - Z.of_nat a)) with 0%nat by lia.
  change 0 with (Z.of_nat 0) at 1. rewrite underline_loop_spec, outcome_bind_ret by (done || cbn; lia).
  cbn [underline_loop]. rewrite outcome_bind_ret, drop_0. cbn [app]. replace (min b (length s) - a)%nat with 0%nat by lia.
  cbn [replicate]. rewrite app_nil_r. rewrite (proj2 (Z.leb_le _ _)); [by cbn [CHECK]; rewrite outcome_bind_ret|].
  unfold kUnderlineBufsize. rewrite length_take. lia.
Qed.

Lemma underline_neg s start stop : 0 <= start ->
  underline s start stop = underline s (Z.of_nat (Z.to_nat start)) (Z.of_nat (Z.to_nat stop)).
Proof.
  intros Hs. unfold underline. rewrite (Z2Nat.id start) by done.
  replace (Z.to_nat (Z.of_nat (Z.to_nat stop) - start)) with (Z.to_nat (stop - start)) by lia. done.
Qed.

(** Line, number and underline, for columns in the line. *)
Lemma source_printed m s n a b : no_nul s -> 0 <= a ->
  (buf ← SPrintF pointer_text (bs "%s:%i" ++ newline ++ bs "%s" ++ newline)
     [AChars (if resource m is Some _ then 1 else 0) (c_str (default [] (resource m))); AInt 4 n; AChars 1 (c_str s)];
   CHECK (0 <? Z.of_nat (length buf)) ;;
   u ← underline s a b;
   Ret (buf ++ u)) =
  if ((length s <? Z.to_nat a)%nat && (Z.to_nat a <? Z.to_nat b)%nat)%bool then Fault OutOfBounds
  else Ret (match resource m with Some r => c_str r | None => bs "(null)" end ++ bs ":" ++ dec n ++ newline ++ s ++ newline ++
    take 1020 ((blank <$> take (Z.to_nat a) s) ++ replicate (min (Z.to_nat b) (length s) - Z.to_nat a) x5e) ++ newline).
Proof.
  intros Hs Ha. unfold SPrintF. rewrite SPrintFImpl_fill by lia. rewrite (c_str_id s Hs).
  set (r := match resource m with Some r => c_str r | None => bs "(null)" end).
  assert (E : fill pointer_text (tokens None (bs "%s:%i" ++ newline ++ bs "%s" ++ newline))
    [AChars (if resource m is Some _ then 1 else 0) (c_str (default [] (resource m))); AInt 4 n; AChars 1 s] =
    Ret (r ++ bs ":" ++ dec n ++ newline ++ s ++ newline)) by (unfold r; by destruct (resource m)).
  rewrite E, outcome_bind_ret, (proj2 (Z.ltb_lt _ _)) by (rewrite !length_app; cbn; lia). cbn [CHECK]. rewrite outcome_bind_ret.
  rewrite underline_neg, underline_total by done. destruct (_ && _)%bool; [done|]. rewrite outcome_bind_ret.
  by rewrite <-!app_assoc.
Qed.

Lemma GetExceptionSource_spec m : message_ok m ->
  match source_text m with
  | Some t => GetExceptionSource pointer_text m = Ret t
  | None => aborts (GetExceptionSource pointer_text m)
  end.
Proof.
  intros [Hs H0]. unfold source_text, GetExceptionSource. destruct (source_line m) as [s|]; cbn [mbind option_bind]; [|by eexists].
  destruct (line_number m) as [n|]; cbn [mbind option_bind]; [|by eexists]. unfold columns.
  set (off := if n - line_offset m =? 1 then column_offset m else 0). set (start := default 0 (start_column m)) in *.
  set (stop := default 0 (end_column m)). destruct (Z.leb_spec off start) as [Ho|Ho]; cbn [andb].
  - destruct (Z.leb_spec start stop) as [Hst|Hst]; cbn [CHECK].
    + rewrite outcome_bind_ret, outcome_bind_ret, (proj2 (Z.ltb_ge _ _)) by lia. cbn [orb].
      rewrite source_printed by (done || lia). by destruct (_ && _)%bool; [eexists|].
    + rewrite (proj2 (Z.ltb_lt _ _)) by lia. cbn [orb]. by eexists.
  - rewrite outcome_bind_ret, !Z.sub_0_r. cbn [orb]. rewrite source_printed by done.
    by destruct (_ && _)%bool; [eexists|].
Qed.

Lemma print_trace_spec error :
  match text_of error with Some t => print_trace error = Ret (c_str t ++ newline) | None => aborts (print_trace error) end.
Proof.
  unfold text_of, print_trace, trace_value, aborts.
  destruct error as [[|c t]|[[|c t]|]|[st msg [| |nm] [at_|]]]; cbn; eauto;
    destruct st as [| |[s|]]; cbn; eauto.
Qed.


(** The whole of it for a rejected promise: an exception of the handler ends the process. *)
Theorem rejected_promise_ends (reason : option thrown) (h : handler) (l : list effect) :
  OnPromiseReject pointer_text true true reason h = Ret l ->
  match h with
  | Returns true => l = [EHandler]
  | Returns false => exit_code l = Some 1
  | Throws _ _ => last l = Some EAbort
  | _ => False
  end.
Proof.
  unfold OnPromiseReject. cbn [CHECK]. rewrite !outcome_bind_ret. destruct h as [| |e m|[]]; intros H; try done.
  - by apply outcome_bind_inv in H as (p & _ & [= <-]).
  - by injection H as <-.
  - by apply outcome_bind_inv in H as (p & _ & [= <-]).
Qed.

(** An error with a name and a stack: the stack is printed. *)
Theorem stack_is_printed (o : object) (s : bytes) (n : option bytes) :
  stack o = PValue (Some s) -> name o = PValue n -> print_trace (TObject o) = Ret (c_str s ++ newline).
Proof. intros Hs Hn. unfold print_trace, trace_value. by rewrite Hs, Hn. Qed.

(** An object with a stack and no name: its text is printed, the stack is not. *)
Theorem nameless_stack_not_printed (o : object) (s t : bytes) :
  stack o = PValue (Some s) -> name o = PUndefined -> as_text o = Some t ->
  print_trace (TObject o) = Ret (c_str t ++ newline).
Proof. intros Hs Hn Ht. unfold print_trace, trace_value. rewrite Hs, Hn. cbn [utf8_of]. by rewrite Ht. Qed.

(** An object whose stack cannot be read ends the process by a failed check, a symbol by a null
    pointer for text: whatever handler the script has, when it does not handle it. *)
Theorem hostile_throws (current : option bool) (error : thrown) (m : option Message) (created : Message) (src : bytes) :
  GetExceptionSource pointer_text (default created m) = Ret src ->
  (forall o, error = TObject o -> stack o = PThrows ->
    EmitUncaughtException pointer_text current true (Some error) m created (Returns false) = Fault CheckFailed) /\
  (error = TPrimitive None ->
    EmitUncaughtException pointer_text current true (Some error) m created (Returns false) = Fault NullDeref).
Proof.
  intros Hsrc. unfold EmitUncaughtException, PrintFatalException. cbn [CHECK]. rewrite !outcome_bind_ret, Hsrc. split.
  - intros o -> Hs. unfold print_trace, trace_value. by rewrite Hs.
  - by intros ->.
Qed.

(** A fatal exception prints, reports and aborts when the isolate captured the stack; when it
    did not, the process dies of a null pointer before the report. *)
Theorem fatal_exception_needs_stack (current : option bool) (e : thrown) (m : Message) (t p : bytes) :
  text m = Some t -> PrintCaughtException e = Ret p ->
  (frames m = None -> FatalException current e m = Fault NullDeref) /\
  (frames m = Some [] -> exists l, FatalException current e m = Ret l /\ last l = Some EAbort).
Proof.
  intros Ht Hp. unfold FatalException. rewrite Ht, Hp. cbn [percent_s]. rewrite !outcome_bind_ret. unfold PrintStackTrace. split.
  - by intros ->.
  - intros ->. cbn [print_frames]. rewrite outcome_bind_ret. eexists. split; [done|]. by destruct current as [[]|].
Qed.
End ends.

Definition example_message : Message :=
  mkMessage (Some (bs "boom")) (Some (bs "throw e")) (Some (bs "a.js")) (Some 1) 0 0 (Some 6) (Some 7) None.

