(* ===== verification/Snapshot.v ===== *)
(** * Startup snapshots

    src/src/snapshot/snapshot_builder.{h,cc}, the file a snapshot is written to and read
    from and the source text it is embedded as; the caches of native modules in
    src/src/native_module_manager.{h,cc}; the indexes of serialized values and their
    restoring in src/src/immortal.cc; the choice of a snapshot in src/src/aworker.cc.

    A file is the list of its bytes.  An input stream fails when fewer bytes are left than
    are asked for, and gives nothing from then on; a variable that was not read is
    uninitialised, and using it is a fault.  V8's compiler and its snapshot creator are
    environment choices: whether a module compiles, whether its cache was rejected, the
    cache it produces; the creator numbers the values it is given.

    The theorems: what is written is read back; a file of another kind or version is
    refused; what a cut file does; the caches of all modules survive the trip through a
    file; serialized values come back unless their index is zero; all parts of a snapshot
    come from one place; the embedded numbers are those of the snapshot. *)

From S2P Require Import Prelude Json.
Import String.StringSyntax.
Local Open Scope string_scope.
Local Open Scope list_scope.
Local Open Scope Z_scope.

(** * Data *)

(** [src/src/snapshot/snapshot_builder.h 42-45, NativeModuleCache] *)
Record NativeModuleCache := mkCache { cache_id : bytes; cache_data : bytes }.

(** [src/src/snapshot/snapshot_builder.h 47-57, SnapshotData] *)
Record SnapshotData := mkSnapshot {
  blob : bytes;
  isolate_data_indexes : list Z;
  immortal_data_indexes : list Z;
  native_module_caches : list NativeModuleCache }.

Definition kMagic : Z := 0x736e6b69.

(** * Streams *)

(** [src/src/snapshot/snapshot_builder.cc 175-178, Write] *)
Definition write_u32 (z : Z) : bytes := le_bytes 4 (u32 z).
Definition write_u64 (z : Z) : bytes := le_bytes 8 (u64 z).

(** An input stream: what is left, and whether no read has failed. *)
Record stream := mkStream { left : bytes; good : bool }.

(** [input.read]: the bytes that arrive. *)
Definition sread (n : nat) (s : stream) : bytes * stream :=
  if good s then
    if (n <=? length (left s))%nat then (take n (left s), mkStream (drop n (left s)) true)
    else (left s, mkStream [] false)
  else ([], s).

(** [src/src/snapshot/snapshot_builder.cc 180-183, Read] A value that was not read in full is
    not initialised. *)
Definition Read (n : nat) (s : stream) : option Z * stream :=
  let '(b, s) := sread n s in
  (if (length b =? n)%nat then Some (le_value b) else None, s).

Definition initialised (o : option Z) : outcome Z :=
  match o with Some z => Ret z | None => Fault Uninitialised end.

(** Reading into memory that has contents already. *)
Definition read_into (mem : bytes) (s : stream) : bytes * stream :=
  let '(b, s) := sread (length mem) s in (b ++ drop (length b) mem, s).

Fixpoint words (n : nat) (b : bytes) : list Z :=
  match n with O => [] | S n => le_value (take 8 b) :: words n (drop 8 b) end.

Section file.
(** [Version::hash()], a hash of the version's text by the standard library. *)
Context (version_hash : Z).
(** The contents of [new char[n]]. *)
Context (fresh_memory : nat -> bytes).

Definition cache_bytes (c : NativeModuleCache) : bytes :=
  write_u32 (Z.of_nat (length (cache_id c))) ++ write_u32 (Z.of_nat (length (cache_data c))) ++
  cache_id c ++ cache_data c.

(** The six numbers in front. *)
Definition header_bytes (d : SnapshotData) : bytes :=
  write_u32 kMagic ++ write_u64 version_hash ++
  write_u32 (Z.of_nat (length (blob d))) ++
  write_u32 (Z.of_nat (length (isolate_data_indexes d))) ++
  write_u32 (Z.of_nat (length (immortal_data_indexes d))) ++
  write_u32 (Z.of_nat (length (native_module_caches d))).

(** [src/src/snapshot/snapshot_builder.cc 192-224, SnapshotData::WriteToFile] [opens] is
    whether the file could be opened; the contents. *)
Definition WriteToFile (opens : bool) (d : SnapshotData) : outcome bytes :=
  CHECK opens ;;
  Ret (header_bytes d ++
    blob d ++ (isolate_data_indexes d ≫= write_u64) ++ (immortal_data_indexes d ≫= write_u64) ++
    (native_module_caches d ≫= cache_bytes)).

(** [src/src/snapshot/snapshot_builder.cc 286-301, SnapshotData::ReadFromFile] The loop over the
    caches. *)
Fixpoint read_caches (n : nat) (s : stream) : outcome (list NativeModuleCache) :=
  match n with
  | O => Ret []
  | S n =>
      let '(id_size, s) := Read 4 s in
      let '(data_size, s) := Read 4 s in
      id_size ← initialised id_size;
      data_size ← initialised data_size;
      let '(id, s) := read_into (replicate (Z.to_nat id_size) x00) s in
      let '(data, s) := read_into (replicate (Z.to_nat data_size) x00) s in
      rest ← read_caches n s;
      Ret (mkCache id data :: rest)
  end.

(** [src/src/snapshot/snapshot_builder.cc 227-304, SnapshotData::ReadFromFile] [file] is [None]
    when it cannot be opened; the result is [None] for a null pointer. *)
Definition ReadFromFile (file : option bytes) : outcome (option SnapshotData) :=
  match file with
  | None => Ret None
  | Some contents =>
      let s := mkStream contents true in
      let '(magic, s) := Read 4 s in
      let '(version, s) := Read 8 s in
      let '(blob_size, s) := Read 4 s in
      let '(isolate_size, s) := Read 4 s in
      let '(immortal_size, s) := Read 4 s in
      let '(caches_size, s) := Read 4 s in
      magic ← initialised magic;
      if negb (magic =? kMagic) then Ret None
      else
        version ← initialised version;
        if negb (version =? version_hash) then Ret None
        else
          blob_size ← initialised blob_size;
          isolate_size ← initialised isolate_size;
          immortal_size ← initialised immortal_size;
          caches_size ← initialised caches_size;
          let '(blob, s) := read_into (fresh_memory (Z.to_nat blob_size)) s in
          let '(isolate, s) := read_into (replicate (8 * Z.to_nat isolate_size) x00) s in
          let '(immortal, s) := read_into (replicate (8 * Z.to_nat immortal_size) x00) s in
          caches ← read_caches (Z.to_nat caches_size) s;
          Ret (Some (mkSnapshot blob (words (Z.to_nat isolate_size) isolate)
                       (words (Z.to_nat immortal_size) immortal) caches))
  end.

(** What a snapshot is: its sizes fit their fields; that of the blob is an [int]. *)
Definition small (n : nat) : Prop := Z.of_nat n < 2 ^ 32.
Definition word (z : Z) : Prop := 0 <= z < 2 ^ 64.

Definition snapshot_ok (d : SnapshotData) : Prop :=
  Z.of_nat (length (blob d)) < 2 ^ 31 /\
  small (length (isolate_data_indexes d)) /\ Forall word (isolate_data_indexes d) /\
  small (length (immortal_data_indexes d)) /\ Forall word (immortal_data_indexes d) /\
  small (length (native_module_caches d)) /\
  Forall (fun c => small (length (cache_id c)) /\ small (length (cache_data c))) (native_module_caches d).

(** ** Reading what was written *)

Lemma sread_app a b n : length a = n -> sread n (mkStream (a ++ b) true) = (a, mkStream b true).
Proof.
  intros <-. unfold sread. cbn [good left]. rewrite (proj2 (Nat.leb_le _ _)) by (rewrite length_app; lia).
  by rewrite take_app_length, drop_app_length.
Qed.

Lemma Read_app n z b : 0 <= z < 2 ^ (8 * Z.of_nat n) ->
  Read n (mkStream (le_bytes n z ++ b) true) = (Some z, mkStream b true).
Proof.
  intros Hz. unfold Read. rewrite sread_app by apply le_bytes_length.
  by rewrite le_bytes_length, Nat.eqb_refl, le_value_bytes.
Qed.

Lemma Read_u32 z b : 0 <= z < 2 ^ 32 -> Read 4 (mkStream (write_u32 z ++ b) true) = (Some z, mkStream b true).
Proof. intros Hz. unfold write_u32, u32. rewrite wrap_small by done. by apply Read_app. Qed.

Lemma Read_u64 z b : word z -> Read 8 (mkStream (write_u64 z ++ b) true) = (Some z, mkStream b true).
Proof. intros Hz. unfold write_u64, u64. rewrite wrap_small by done. by apply Read_app. Qed.

Lemma read_into_app a b mem : length mem = length a -> read_into mem (mkStream (a ++ b) true) = (a, mkStream b true).
Proof.
  intros Hl. unfold read_into. rewrite sread_app by done. by rewrite drop_ge, app_nil_r by lia.
Qed.

Lemma words_split l n rest : Forall word l -> (length l <= n)%nat ->
  words n ((l ≫= write_u64) ++ rest) = l ++ words (n - length l) rest.
Proof.
  revert n. induction l as [|z l IH]; intros n Hl Hn; [by rewrite Nat.sub_0_r|]. apply Forall_cons in Hl as [Hz Hl].
  destruct n as [|n]; [cbn in Hn; lia|]. cbn [words length mbind list_bind] in *. rewrite <-app_assoc.
  assert (E : length (write_u64 z) = 8%nat) by apply le_bytes_length.
  rewrite take_app_exact, drop_app_exact, IH by (done || lia). cbn [length Nat.sub app]. f_equal.
  unfold write_u64, u64. rewrite wrap_small by done. by apply le_value_bytes.
Qed.

Lemma words_app l b : Forall word l -> words (length l) ((l ≫= write_u64) ++ b) = l.
Proof. intros Hl. rewrite words_split by done. by rewrite Nat.sub_diag, app_nil_r. Qed.

Lemma words_length l : length (l ≫= write_u64) = (8 * length l)%nat.
Proof.
  induction l as [|z l IH]; [done|]. cbn [mbind list_bind]. rewrite length_app, IH.
  assert (E : length (write_u64 z) = 8%nat) by apply le_bytes_length. rewrite E. cbn [length]. lia.
Qed.

Lemma read_caches_app l : forall b,
  Forall (fun c => small (length (cache_id c)) /\ small (length (cache_data c))) l ->
  read_caches (length l) (mkStream ((l ≫= cache_bytes) ++ b) true) = Ret l.
Proof.
  induction l as [|[id data] l IH]; intros b Hl; [done|]. apply Forall_cons in Hl as [[H1 H2] Hl].
  cbn [length mbind list_bind read_caches]. unfold cache_bytes at 1. cbn [cache_id cache_data] in *. unfold small in *.
  rewrite <-!app_assoc, !Read_u32 by lia. cbn [initialised mbind outcome_bind].
  rewrite read_into_app by (rewrite length_replicate; lia).
  rewrite read_into_app by (rewrite length_replicate; lia).
  by rewrite IH.
Qed.

(** The body of the reader after the header. *)
Definition read_body (d : SnapshotData) (s : stream) : outcome (option SnapshotData) :=
  let '(blob, s) := read_into (fresh_memory (length (blob d))) s in
  let '(isolate, s) := read_into (replicate (8 * length (isolate_data_indexes d)) x00) s in
  let '(immortal, s) := read_into (replicate (8 * length (immortal_data_indexes d)) x00) s in
  caches ← read_caches (length (native_module_caches d)) s;
  Ret (Some (mkSnapshot blob (words (length (isolate_data_indexes d)) isolate)
               (words (length (immortal_data_indexes d)) immortal) caches)).

Lemma ReadFromFile_header d b : word version_hash -> snapshot_ok d ->
  ReadFromFile (Some (header_bytes d ++ b)) = read_body d (mkStream b true).
Proof.
  intros Hv (H1 & H2 & _ & H3 & _ & H4 & _). unfold small in *. unfold ReadFromFile, header_bytes.
  rewrite <-!app_assoc, Read_u32 by done. rewrite Read_u64 by done. rewrite !Read_u32 by lia.
  cbn [initialised mbind outcome_bind]. rewrite !Z.eqb_refl. cbn [negb]. by rewrite !Nat2Z.id.
Qed.

End file.

Section file_theorems.
Context (version_hash : Z) (fresh_memory : nat -> bytes).
Context (version_word : word version_hash) (fresh_length : forall n, length (fresh_memory n) = n).

Definition file_bytes (d : SnapshotData) : bytes :=
  header_bytes version_hash d ++ blob d ++ (isolate_data_indexes d ≫= write_u64) ++
  (immortal_data_indexes d ≫= write_u64) ++ (native_module_caches d ≫= cache_bytes).

Lemma header_length d : length (header_bytes version_hash d) = 28%nat.
Proof. unfold header_bytes. rewrite !length_app. unfold write_u32, write_u64. by rewrite !le_bytes_length. Qed.

Lemma roundtrip d : snapshot_ok d -> ReadFromFile version_hash fresh_memory (Some (file_bytes d)) = Ret (Some d).
Proof.
  intros Hd. unfold file_bytes. rewrite ReadFromFile_header by done. destruct Hd as (_ & _ & H1 & _ & H2 & _ & H3).
  unfold read_body. rewrite read_into_app by apply fresh_length.
  rewrite read_into_app by (rewrite length_replicate, words_length; done).
  rewrite read_into_app by (rewrite length_replicate, words_length; done).
  rewrite <-(app_nil_r (native_module_caches d ≫= cache_bytes)), read_caches_app by done. cbn [mbind outcome_bind].
  pose proof (words_app _ [] H1) as E1. pose proof (words_app _ [] H2) as E2. rewrite app_nil_r in E1, E2.
  rewrite E1, E2. by destruct d.
Qed.

(** A snapshot that was written is read back: whatever the blob, the indexes and the caches
    of the native modules, as long as their sizes fit the fields of the header, reading the
    file gives the same data. *)
Theorem snapshot_roundtrip (d : SnapshotData) : snapshot_ok d ->
  exists file, WriteToFile version_hash true d = Ret file /\
    ReadFromFile version_hash fresh_memory (Some file) = Ret (Some d).
Proof. intros Hd. eexists. split; [done|]. by apply roundtrip. Qed.

(** A file with another magic number, or of another version, is refused whatever follows. *)
Theorem foreign_file_refused (magic version : Z) (rest : bytes) :
  0 <= magic < 2 ^ 32 -> word version -> magic <> kMagic \/ version <> version_hash ->
  ReadFromFile version_hash fresh_memory (Some (write_u32 magic ++ write_u64 version ++ rest)) = Ret None.
Proof.
  intros Hm Hv Hne. unfold ReadFromFile. rewrite Read_u32, Read_u64 by done.
  destruct (Read 4 _) as [o1 s1], (Read 4 s1) as [o2 s2], (Read 4 s2) as [o3 s3], (Read 4 s3) as [o4 s4].
  cbn [initialised mbind outcome_bind]. destruct (Z.eqb_spec magic kMagic) as [->|]; [|done]. cbn [negb].
  destruct (Z.eqb_spec version version_hash) as [->|]; [|done]. by destruct Hne.
Qed.

Lemma Read_short n b : (length b < n)%nat -> Read n (mkStream b true) = (None, mkStream [] false).
Proof.
  intros Hl. unfold Read, sread. cbn [good left]. rewrite (proj2 (Nat.leb_gt _ _)) by lia.
  by rewrite (proj2 (Nat.eqb_neq _ _)) by lia.
Qed.

Lemma Read_failed n : (0 < n)%nat -> Read n (mkStream [] false) = (None, mkStream [] false).
Proof. by destruct n; [lia|]. Qed.

Lemma take_write n (w rest : bytes) k : length w = k -> (k <= n)%nat -> take n (w ++ rest) = w ++ take (n - k) rest.
Proof. intros <- Hn. by rewrite take_app_ge by done. Qed.

(** A file that was cut inside its header: the reader compares, or allocates with, variables
    that were never set. *)
Theorem cut_header_uninitialised (d : SnapshotData) (n : nat) : snapshot_ok d -> (n < 28)%nat ->
  ReadFromFile version_hash fresh_memory (Some (take n (file_bytes d))) = Fault Uninitialised.
Proof.
  intros Hd Hn. unfold file_bytes. rewrite take_app_le by (rewrite header_length; lia).
  destruct Hd as (H1 & H2 & _ & H3 & _). unfold small in *. unfold ReadFromFile, header_bytes.
  assert (L4 : forall z, length (write_u32 z) = 4%nat) by (intros; apply le_bytes_length).
  assert (L8 : forall z, length (write_u64 z) = 8%nat) by (intros; apply le_bytes_length).
  destruct (decide (n < 4)%nat) as [?|?].
  { rewrite Read_short by (rewrite length_take; lia). by rewrite !Read_failed by lia. }
  rewrite (take_write _ _ _ 4), Read_u32 by (done || lia).
  destruct (decide (n < 12)%nat) as [?|?].
  { rewrite Read_short by (rewrite length_take; lia). by rewrite !Read_failed by lia. }
  rewrite (take_write _ _ _ 8), Read_u64 by (done || lia).
  destruct (decide (n < 16)%nat) as [?|?].
  { rewrite Read_short by (rewrite length_take; lia). rewrite !Read_failed by lia. cbn. by rewrite Z.eqb_refl. }
  rewrite (take_write _ _ _ 4), Read_u32 by (done || lia).
  destruct (decide (n < 20)%nat) as [?|?].
  { rewrite Read_short by (rewrite length_take; lia). rewrite !Read_failed by lia. cbn. by rewrite Z.eqb_refl. }
  rewrite (take_write _ _ _ 4), Read_u32 by (done || lia).
  destruct (decide (n < 24)%nat) as [?|?].
  { rewrite Read_short by (rewrite length_take; lia). rewrite !Read_failed by lia. cbn. by rewrite Z.eqb_refl. }
  rewrite (take_write _ _ _ 4), Read_u32 by (done || lia).
  rewrite Read_short by (rewrite length_take; lia). cbn. by rewrite Z.eqb_refl.
Qed.

Lemma words_zeros n : words n (replicate (8 * n) x00) = replicate n 0.
Proof.
  induction n as [|n IH]; [done|]. replace (8 * S n)%nat with (8 + 8 * n)%nat by lia. cbn [words].
  rewrite replicate_add, take_app_exact, drop_app_exact by done. by rewrite IH.
Qed.

(** A file that was cut after its header is taken for a snapshot: nothing looks at the state
    of the stream, and the indexes that are missing are zeros. *)
Theorem cut_indexes_are_zero (d : SnapshotData) (k : nat) :
  snapshot_ok d -> native_module_caches d = [] -> (k < length (isolate_data_indexes d))%nat ->
  ReadFromFile version_hash fresh_memory (Some (take (28 + length (blob d) + 8 * k) (file_bytes d))) =
  Ret (Some (mkSnapshot (blob d)
    (take k (isolate_data_indexes d) ++ replicate (length (isolate_data_indexes d) - k) 0)
    (replicate (length (immortal_data_indexes d)) 0) [])).
Proof.
  intros Hd Hc Hk. unfold file_bytes. rewrite Hc. set (iso := isolate_data_indexes d) in *.
  assert (Ht : take (8 * k) (iso ≫= write_u64) = take k iso ≫= write_u64).
  { rewrite <-(take_drop k iso) at 1. rewrite bind_app, take_app_exact; [done|].
    rewrite words_length, length_take. lia. }
  rewrite (take_write _ _ _ 28) by (apply header_length || lia). rewrite ReadFromFile_header by done.
  destruct Hd as (_ & _ & H1 & _). fold iso in H1. unfold read_body. fold iso. rewrite Hc.
  rewrite (take_write _ (blob d) _ (length (blob d))) by lia.
  replace (28 + length (blob d) + 8 * k - 28 - length (blob d))%nat with (8 * k)%nat by lia.
  rewrite take_app_le by (rewrite words_length; lia). rewrite Ht.
  rewrite read_into_app by apply fresh_length. unfold read_into at 1.
  assert (Hs : sread (length (replicate (8 * length iso) x00)) (mkStream (take k iso ≫= write_u64) true) =
    (take k iso ≫= write_u64, mkStream [] false)).
  { unfold sread. cbn [good left]. rewrite (proj2 (Nat.leb_gt _ _)); [done|].
    rewrite length_replicate, words_length, length_take. lia. }
  rewrite Hs. unfold read_into, sread. cbn [good]. cbn [read_caches length mbind outcome_bind app drop].
  rewrite words_zeros. rewrite words_length, length_take. rewrite drop_replicate.
  replace (8 * length iso - 8 * (k `min` length iso))%nat with (8 * (length iso - k))%nat by lia.
  rewrite words_split by (by apply Forall_take || (rewrite length_take; lia)).
  rewrite length_take. replace (length iso - k `min` length iso)%nat with (length iso - k)%nat by lia.
  by rewrite words_zeros.
Qed.
End file_theorems.

(** * Native modules *)

(** The order of std::string: bytes as unsigned numbers, from the left. *)
Fixpoint bytes_leb (a b : bytes) : bool :=
  match a, b with
  | [], _ => true
  | _, [] => false
  | x :: a, y :: b => if bval x <? bval y then true else if bval y <? bval x then false else bytes_leb a b
  end.

Definition name_le {A} (x y : bytes * A) : Prop := bytes_leb x.1 y.1.
#[local] Instance name_le_dec {A} : RelDecision (@name_le A) := fun x y => decide (bytes_leb x.1 y.1).

(** Iteration of a std::map with string keys. *)
Definition name_iter {A} (m : gmap bytes A) : list (bytes * A) := merge_sort name_le (map_to_list m).

Lemma name_iter_perm {A} (m : gmap bytes A) : name_iter m ≡ₚ map_to_list m.
Proof. apply merge_sort_Permutation. Qed.

(** [src/src/native_module_manager.h 19-23, NativeModuleType] *)
Inductive NativeModuleType := TLoader | TBootstrapping | TModule.
#[export] Instance NativeModuleType_eq_dec : EqDecision NativeModuleType := ltac:(solve_decision).

(** [src/src/native_module_manager.h 63-66, NativeModuleManager] *)
Record Manager := mkManager {
  native_module_source_map_ : gmap bytes bytes;
  native_module_types_ : gmap bytes NativeModuleType;
  cached_data_map_ : gmap bytes bytes }.

Definition set_caches (m : Manager) (c : gmap bytes bytes) : Manager :=
  mkManager (native_module_source_map_ m) (native_module_types_ m) c.

Definition LOADER : bytes := bs "bootstrap/loader.js".
Definition BOOTSTRAP : bytes := bs "bootstrap/".

Definition add_type (types : gmap bytes NativeModuleType) (it : bytes * bytes) : gmap bytes NativeModuleType :=
  match types !! it.1 with
  | Some _ => types
  | None => <[it.1 := if bool_decide (take (length BOOTSTRAP) it.1 = BOOTSTRAP) then TBootstrapping else TModule]> types
  end.

(** [src/src/native_module_manager.cc 32-48, NativeModuleManager::InitializeNativeModuleTypes] *)
Definition InitializeNativeModuleTypes (sources : gmap bytes bytes) : gmap bytes NativeModuleType :=
  foldl add_type {[LOADER := TLoader]} (name_iter sources).

(** [src/src/native_module_manager.cc 27-30, NativeModuleManager::NativeModuleManager] *)
Definition new_manager (sources : gmap bytes bytes) : Manager :=
  mkManager sources (InitializeNativeModuleTypes sources) ∅.

(** [src/src/native_module_manager.cc 50-69, NativeModuleManager::InitializeCachedData] *)
Definition InitializeCachedData (m : Manager) (caches : list NativeModuleCache) : Manager :=
  set_caches m (foldl (fun c it => <[cache_id it := cache_data it]> c) (cached_data_map_ m) caches).

(** [src/src/native_module_manager.cc 71-79, NativeModuleManager::GetNativeModuleCaches] *)
Definition GetNativeModuleCaches (m : Manager) : list NativeModuleCache :=
  (fun it => mkCache it.1 it.2) <$> name_iter (cached_data_map_ m).

(** [src/src/native_module_manager.cc 81-89, NativeModuleManager::GetModuleIds] *)
Definition GetModuleIds (m : Manager) : list bytes := fst <$> name_iter (native_module_source_map_ m).

(** [src/src/native_module_manager.cc 91-97, NativeModuleManager::GetCachedData] *)
Definition GetCachedData (m : Manager) (id : bytes) : option bytes := cached_data_map_ m !! id.

(** What V8 makes of a module: an exception, or a function, whether it rejected the cache it
    was given, and the cache of the function, if it could be made. *)
Inductive compilation := Threw | Compiled (rejected : bool) (cache : option bytes).

(** [src/src/native_module_manager.h 25-28, NativeModuleResult] *)
Record NativeModuleResult := mkResult { r_type : NativeModuleType; r_with_cache : bool }.

(** [src/src/native_module_manager.cc 213-227, NativeModuleManager::GetModuleSource] *)
Definition GetModuleSource (m : Manager) (id : bytes) : outcome bytes :=
  match native_module_source_map_ m !! id with Some s => Ret s | None => Fault CheckFailed end.

(** [src/src/native_module_manager.cc 115-126, NativeModuleManager::Compile] The type. *)
Definition module_type (m : Manager) (id : bytes) : NativeModuleType := default TModule (native_module_types_ m !! id).

(** [src/src/native_module_manager.cc 128-149, NativeModuleManager::Compile] The names of the
    parameters. *)
Definition parameters (t : NativeModuleType) : list bytes :=
  match t with
  | TModule => [bs "wrapper"; bs "mod"; bs "load"; bs "loadBinding"]
  | TBootstrapping => [bs "load"; bs "loadBinding"]
  | TLoader => [bs "getNativeModule"; bs "getBinding"]
  end.

(** [src/src/native_module_manager.cc 152-211, NativeModuleManager::Compile] The cache is handed
    over to V8; a new one is kept when the module compiled. *)
Definition Compile (m : Manager) (id : bytes) (v8 : compilation) : outcome (option NativeModuleResult * Manager) :=
  let type := module_type m id in
  source ← GetModuleSource m id;
  let has_cache := bool_decide (is_Some (cached_data_map_ m !! id)) in
  let m := set_caches m (delete id (cached_data_map_ m)) in
  match v8 with
  | Threw => Ret (None, m)
  | Compiled rejected cache =>
      match cache with
      | None => Fault CheckFailed
      | Some c => Ret (Some (mkResult type (has_cache && negb rejected)), set_caches m (<[id := c]> (cached_data_map_ m)))
      end
  end.

Fixpoint compile_all (m : Manager) (v8 : bytes -> compilation) (ids : list bytes) : outcome (bool * Manager) :=
  match ids with
  | [] => Ret (true, m)
  | id :: ids =>
      '(r, m) ← Compile m id (v8 id);
      '(ok, m) ← compile_all m v8 ids;
      Ret (match r with Some _ => ok | None => false end, m)
  end.

(** [src/src/native_module_manager.cc 99-113, NativeModuleManager::CompileAll] An exception of V8
    is caught and printed. *)
Definition CompileAll (m : Manager) (v8 : bytes -> compilation) : outcome (bool * Manager) :=
  compile_all m v8 (GetModuleIds m).

(** The modules an instance has loaded. *)
Record Loaded := mkLoaded { with_cache : gset bytes; without_cache : gset bytes }.

(** [src/src/native_module_manager.cc 229-245, NativeModuleManager::Compile] For an instance. *)
Definition Load (m : Manager) (l : Loaded) (id : bytes) (v8 : compilation) : outcome (option NativeModuleResult * Manager * Loaded) :=
  '(r, m) ← Compile m id v8;
  Ret (r, m, match r with
             | None => l
             | Some r => if r_with_cache r then mkLoaded ({[id]} ∪ with_cache l) (without_cache l)
                         else mkLoaded (with_cache l) ({[id]} ∪ without_cache l)
             end).

(** ** Lemmas *)

Lemma foldl_insert (l : list (bytes * bytes)) : forall m : gmap bytes bytes, NoDup l.*1 ->
  foldl (fun c it => <[cache_id it := cache_data it]> c) m ((fun it => mkCache it.1 it.2) <$> l) = list_to_map l ∪ m.
Proof.
  induction l as [|[k v] l IH]; intros m Hnd; [cbn; by rewrite map_empty_union|].
  apply NoDup_cons in Hnd as [Hk Hnd]. rewrite fmap_cons. cbn [foldl cache_id cache_data fst snd]. rewrite IH by done.
  rewrite list_to_map_cons, <-insert_union_l. symmetry. apply insert_union_r. by apply not_elem_of_list_to_map_1.
Qed.

Lemma caches_read_back (c : gmap bytes bytes) (l : list (bytes * bytes)) : l ≡ₚ map_to_list c ->
  foldl (fun c it => <[cache_id it := cache_data it]> c) ∅ ((fun it => mkCache it.1 it.2) <$> l) = c.
Proof.
  intros Hl. assert (Hnd : NoDup l.*1) by (rewrite Hl; apply NoDup_fst_map_to_list).
  rewrite foldl_insert, map_union_empty by done. rewrite (list_to_map_proper _ _ Hnd Hl). apply list_to_map_to_list.
Qed.

Lemma compile_all_fills v8 ids : forall m m', compile_all m v8 ids = Ret (true, m') ->
  native_module_source_map_ m' = native_module_source_map_ m /\
  forall id, id ∈ ids \/ is_Some (cached_data_map_ m !! id) -> is_Some (cached_data_map_ m' !! id).
Proof.
  induction ids as [|id ids IH]; intros m m'; cbn [compile_all].
  { intros [= <-]. split; [done|]. intros id [?%elem_of_nil|?]; done. }
  intros ([r m1] & H1 & ([ok m2] & H2 & [= Hok <-])%outcome_bind_inv)%outcome_bind_inv.
  destruct r as [r|]; [|done]. subst ok. destruct (IH _ _ H2) as [Hs Hc]. unfold Compile in H1.
  apply outcome_bind_inv in H1 as (src & _ & H1). destruct (v8 id) as [|rej [c|]]; try done. injection H1 as <- <-.
  split; [done|]. intros id' Hid. apply Hc. cbn. destruct (decide (id = id')) as [<-|Hne].
  - right. rewrite lookup_insert_eq. eauto.
  - rewrite lookup_insert_ne, lookup_delete_ne by done. destruct Hid as [[?|?]%elem_of_cons|?]; [congruence|auto..].
Qed.

Lemma module_ids_known m id : id ∈ GetModuleIds m <-> is_Some (native_module_source_map_ m !! id).
Proof.
  unfold GetModuleIds. rewrite name_iter_perm, list_elem_of_fmap. split.
  - intros ([k v] & -> & Hk%elem_of_map_to_list). eauto.
  - intros [v Hv]. exists (id, v). by rewrite elem_of_map_to_list.
Qed.

Lemma CompileAll_fills m v8 m' id : CompileAll m v8 = Ret (true, m') ->
  is_Some (native_module_source_map_ m !! id) -> is_Some (cached_data_map_ m' !! id).
Proof. intros [_ Hc]%compile_all_fills Hid. apply Hc. left. by apply module_ids_known. Qed.

Lemma InitializeCachedData_exported m sources :
  InitializeCachedData (new_manager sources) (GetNativeModuleCaches m) =
  set_caches (new_manager sources) (cached_data_map_ m).
Proof. unfold InitializeCachedData, GetNativeModuleCaches. f_equal. apply caches_read_back, name_iter_perm. Qed.

Section caches_theorems.
Context (version_hash : Z) (fresh_memory : nat -> bytes).
Context (version_word : word version_hash) (fresh_length : forall n, length (fresh_memory n) = n).

(** C25 Building a snapshot and starting from it, for the code of the native modules: when all
    modules compiled, their caches went through the file of the snapshot, and an instance with
    the same modules starts from the file, then every module has the cache it had, and a module
    whose cache V8 accepts is compiled with it. *)
Theorem caches_survive_snapshot (sources : gmap bytes bytes) (v8 : bytes -> compilation) (built : Manager)
    (b : bytes) (isolate immortal : list Z) :
  CompileAll (new_manager sources) v8 = Ret (true, built) ->
  snapshot_ok (mkSnapshot b isolate immortal (GetNativeModuleCaches built)) ->
  exists file d,
    WriteToFile version_hash true (mkSnapshot b isolate immortal (GetNativeModuleCaches built)) = Ret file /\
    ReadFromFile version_hash fresh_memory (Some file) = Ret (Some d) /\
    let m := InitializeCachedData (new_manager sources) (native_module_caches d) in
    cached_data_map_ m = cached_data_map_ built /\
    forall id cache, is_Some (sources !! id) ->
      exists m', Compile m id (Compiled false (Some cache)) = Ret (Some (mkResult (module_type m id) true), m').
Proof.
  intros Hall Hok. eexists _, _. split; [done|]. split; [by apply roundtrip|].
  cbn [native_module_caches]. rewrite InitializeCachedData_exported. split; [done|]. intros id cache [src Hsrc].
  unfold Compile, GetModuleSource. cbn [native_module_source_map_ set_caches new_manager cached_data_map_].
  rewrite Hsrc. cbn [mbind outcome_bind]. eexists. rewrite bool_decide_true; [done|].
  apply (CompileAll_fills _ _ _ _ Hall). cbn. eauto.
Qed.
End caches_theorems.

(** Compiling again leaves the caches of the other modules, and an exception drops the cache of
    the module: the next attempt has none. *)
Theorem exception_drops_cache (m : Manager) (id : bytes) (m' : Manager) :
  Compile m id Threw = Ret (None, m') ->
  GetCachedData m' id = None /\ forall id', id' <> id -> GetCachedData m' id' = GetCachedData m id'.
Proof.
  unfold Compile. intros (s & _ & [= <-])%outcome_bind_inv. unfold GetCachedData. cbn. split.
  - apply lookup_delete_eq.
  - intros id' Hne. by apply lookup_delete_ne.
Qed.

(** The types of modules: the loader is the loader, another module under bootstrap/ is a
    bootstrapping one, all others are plain modules. *)
Lemma types_fold (l : list (bytes * bytes)) : forall types id,
  foldl add_type types l !! id =
  match types !! id with
  | Some t => Some t
  | None => if bool_decide (id ∈ l.*1) then
      Some (if bool_decide (take (length BOOTSTRAP) id = BOOTSTRAP) then TBootstrapping else TModule) else None
  end.
Proof.
  induction l as [|[k v] l IH]; intros types id.
  { rewrite bool_decide_false by (cbn; by intros ?%elem_of_nil). cbn. by destruct (types !! id). }
  cbn [foldl]. rewrite IH. clear IH. unfold add_type. rewrite fmap_cons. cbn [fst].
  rewrite (bool_decide_ext (id ∈ k :: l.*1) (id = k \/ id ∈ l.*1)) by apply elem_of_cons.
  destruct (decide (id = k)) as [->|Hne].
  - destruct (types !! k) as [t|] eqn:Hk; rewrite ?Hk, ?lookup_insert_eq; [done|]. by rewrite (bool_decide_true (k = k \/ k ∈ l.*1)) by auto.
  - rewrite (bool_decide_ext (id = k \/ id ∈ l.*1) (id ∈ l.*1)) by tauto.
    destruct (types !! k) as [t|] eqn:Hk; [done|]. by rewrite lookup_insert_ne.
Qed.

Theorem module_types (sources : gmap bytes bytes) (id : bytes) : is_Some (sources !! id) ->
  module_type (new_manager sources) id =
  if bool_decide (id = LOADER) then TLoader
  else if bool_decide (take (length BOOTSTRAP) id = BOOTSTRAP) then TBootstrapping else TModule.
Proof.
  intros Hid. unfold module_type, new_manager, InitializeNativeModuleTypes. cbn [native_module_types_].
  rewrite types_fold. destruct (decide (id = LOADER)) as [->|Hne].
  - by rewrite lookup_singleton_eq.
  - rewrite lookup_singleton_ne, (bool_decide_false _ Hne), bool_decide_true by done || (apply (module_ids_known (new_manager sources)), Hid).
    done.
Qed.

(** * Serialized values *)

Section values.
Context {A : Type}.

(** V8's creator of snapshots keeps the values it is given, in order, and numbers them from
    [first] on; each can be taken out of the snapshot once, by its number. *)
Context (first : Z).

Definition AddData (added : list A) (v : A) : Z * list A := (first + Z.of_nat (length added), added ++ [v]).
Definition snapshot_of (added : list A) : gmap Z A := map_seqZ first added.
Definition GetDataFromSnapshotOnce (s : gmap Z A) (i : Z) : option A * gmap Z A := (s !! i, delete i s).

(** [src/src/immortal.cc 136-151, IsolateData::Serialize] Every private symbol and string. *)
Fixpoint IsolateData_Serialize (added : list A) (properties : list A) : list Z * list A :=
  match properties with
  | [] => ([], added)
  | v :: properties =>
      let '(i, added) := AddData added v in
      let '(indexes, added) := IsolateData_Serialize added properties in (i :: indexes, added)
  end.

(** [src/src/immortal.cc 153-174, IsolateData::DeserializeProperties] [n] fields; a value that
    is not there leaves the field empty. *)
Fixpoint DeserializeProperties (s : gmap Z A) (n : nat) (indexes : list Z) : outcome (list (option A)) :=
  match n with
  | O => Ret []
  | S n =>
      match indexes with
      | [] => Fault OutOfBounds
      | i :: indexes =>
          let '(v, s) := GetDataFromSnapshotOnce s i in
          rest ← DeserializeProperties s n indexes;
          Ret (v :: rest)
      end
  end.

(** [src/src/immortal.cc 295-302, Immortal::Serialize] The global properties: zero for one that
    is empty. *)
Fixpoint serialize_globals (added : list A) (fields : list (option A)) : list Z * list A :=
  match fields with
  | [] => ([], added)
  | None :: fields => let '(indexes, added) := serialize_globals added fields in (0 :: indexes, added)
  | Some v :: fields =>
      let '(i, added) := AddData added v in
      let '(indexes, added) := serialize_globals added fields in (i :: indexes, added)
  end.

(** [src/src/immortal.cc 304-311, Immortal::Serialize] The objects, with whether they can be
    part of a snapshot. *)
Fixpoint serialize_objects (added : list A) (objects : list (A * bool)) : outcome (list Z * list A) :=
  match objects with
  | [] => Ret ([], added)
  | (v, is_snapshotable) :: objects =>
      CHECK is_snapshotable ;;
      let '(i, added) := AddData added v in
      '(indexes, added) ← serialize_objects added objects;
      Ret (i :: indexes, added)
  end.

(** [src/src/immortal.cc 290-314, Immortal::Serialize] *)
Definition Immortal_Serialize (added : list A) (fields : list (option A)) (objects : list (A * bool)) : outcome (list Z * list A) :=
  let '(is1, added) := serialize_globals added fields in
  '(is2, added) ← serialize_objects added objects;
  Ret (is1 ++ is2, added).

(** [src/src/immortal.cc 331-344, Immortal::Deserialize] [fields] are the values before: that of
    the context is set. *)
Fixpoint deserialize_globals (s : gmap Z A) (fields : list (option A)) (indexes : list Z) : outcome (list (option A)) :=
  match fields with
  | [] => Ret []
  | f :: fields =>
      match indexes with
      | [] => Fault OutOfBounds
      | i :: indexes =>
          if i =? 0 then rest ← deserialize_globals s fields indexes; Ret (f :: rest)
          else
            let '(v, s) := GetDataFromSnapshotOnce s i in
            rest ← deserialize_globals s fields indexes;
            Ret (v :: rest)
      end
  end.

(** ** What comes back *)

Lemma serialize_globals_app fields : forall added,
  (serialize_globals added fields).2 = added ++ omap id fields.
Proof.
  induction fields as [|[v|] fields IH]; intros added; cbn; [by rewrite app_nil_r|..].
  - specialize (IH (added ++ [v])). destruct (serialize_globals _ fields). cbn in *. by rewrite IH, <-app_assoc.
  - specialize (IH added). destruct (serialize_globals _ fields). done.
Qed.

Lemma serialize_objects_app objects : forall added ixs added',
  serialize_objects added objects = Ret (ixs, added') -> added' = added ++ objects.*1.
Proof.
  induction objects as [|[v b] objects IH]; intros added ixs added'; cbn [serialize_objects].
  { intros [= _ <-]. by rewrite app_nil_r. }
  destruct b; [|done]. cbn [CHECK AddData]. rewrite outcome_bind_ret.
  intros ([is1 a1] & H & [= _ <-])%outcome_bind_inv.
  rewrite (IH _ _ _ H). by rewrite <-app_assoc.
Qed.

(** The values from the [k]-th on are in the snapshot. *)
Definition available (s : gmap Z A) (all : list A) (k : nat) : Prop :=
  forall j, (k <= j)%nat -> s !! (first + Z.of_nat j) = all !! j.

Lemma available_all all : available (snapshot_of all) all 0.
Proof.
  intros j _. unfold snapshot_of. rewrite lookup_map_seqZ, option_guard_True by lia. f_equal. lia.
Qed.

Lemma available_next s before v after : available s (before ++ v :: after) (length before) ->
  s !! (first + Z.of_nat (length before)) = Some v /\
  available (delete (first + Z.of_nat (length before)) s) ((before ++ [v]) ++ after) (length (before ++ [v])).
Proof.
  intros H. split.
  - rewrite H by lia. by apply list_lookup_middle.
  - intros j Hj. rewrite length_app in Hj. cbn in Hj. rewrite lookup_delete_ne by lia. rewrite H by lia.
    by rewrite <-app_assoc.
Qed.

Lemma isolate_indexes_read properties : forall added after s,
  available s (added ++ properties ++ after) (length added) ->
  DeserializeProperties s (length properties) (IsolateData_Serialize added properties).1 = Ret (Some <$> properties).
Proof.
  induction properties as [|v properties IH]; intros added after s Hs; [done|].
  apply available_next in Hs as [Hv Hs]. specialize (IH (added ++ [v]) after _ Hs).
  cbn [IsolateData_Serialize AddData length DeserializeProperties]. destruct (IsolateData_Serialize _ properties) as [ixs all].
  cbn [fst snd] in *. unfold GetDataFromSnapshotOnce. by rewrite Hv, IH.
Qed.

Lemma IsolateData_Serialize_app properties : forall added,
  (IsolateData_Serialize added properties).2 = added ++ properties.
Proof.
  induction properties as [|v properties IH]; intros added; cbn; [by rewrite app_nil_r|].
  specialize (IH (added ++ [v])). destruct (IsolateData_Serialize _ properties). cbn in *. by rewrite IH, <-app_assoc.
Qed.

(** What a field holds after it was read: the value that was serialized, or what it held. *)
Definition restored (old fields : list (option A)) : list (option A) :=
  zip_with (fun o f => if f is Some v then Some v else o) old fields.

Lemma globals_indexes_read fields : forall old added after s, 0 < first + Z.of_nat (length added) ->
  length old = length fields -> available s (added ++ omap id fields ++ after) (length added) ->
  forall more,
  deserialize_globals s old ((serialize_globals added fields).1 ++ more) = Ret (restored old fields).
Proof.
  induction fields as [|[v|] fields IH]; intros [|o old] added after s Hpos Hl Hs more; try done;
    cbn [serialize_globals AddData]; injection Hl as Hl.
  - apply available_next in Hs as [Hv Hs]. specialize (IH old (added ++ [v]) after _ ltac:(rewrite length_app; cbn; lia) Hl Hs more).
    destruct (serialize_globals _ fields) as [ixs all]. cbn [fst snd app deserialize_globals] in *.
    rewrite (proj2 (Z.eqb_neq _ _)) by lia. unfold GetDataFromSnapshotOnce. by rewrite Hv, IH.
  - specialize (IH old added after s Hpos Hl Hs more). destruct (serialize_globals _ fields) as [ixs all].
    cbn [fst snd app deserialize_globals] in *. by rewrite Z.eqb_refl, IH.
Qed.

(** The private symbols and strings of an isolate come back, whatever their number. *)
Theorem isolate_properties_restored (properties : list A) :
  let '(indexes, all) := IsolateData_Serialize [] properties in
  DeserializeProperties (snapshot_of all) (length properties) indexes = Ret (Some <$> properties).
Proof.
  destruct (IsolateData_Serialize [] properties) as [ixs all] eqn:E.
  pose proof (IsolateData_Serialize_app properties []) as Hall. rewrite E in Hall. cbn in Hall. subst all.
  pose proof (isolate_indexes_read properties [] [] (snapshot_of properties)) as H. rewrite E in H. apply H.
  cbn. rewrite app_nil_r. apply available_all.
Qed.

(** The fields of the instance come back when the creator does not use the number zero. *)
Theorem immortal_fields_restored (old fields : list (option A)) (objects : list (A * bool)) (indexes : list Z) (all : list A) :
  0 < first -> length old = length fields ->
  Immortal_Serialize [] fields objects = Ret (indexes, all) ->
  deserialize_globals (snapshot_of all) old indexes = Ret (restored old fields).
Proof.
  intros Hpos Hl. unfold Immortal_Serialize. pose proof (serialize_globals_app fields []) as Hall.
  pose proof (globals_indexes_read fields old []) as Hread.
  destruct (serialize_globals [] fields) as [is1 added]. cbn [fst snd app] in *. subst added.
  intros ([is2 a2] & Ho & [= <- <-])%outcome_bind_inv. apply serialize_objects_app in Ho as ->.
  eapply Hread; [cbn; lia|done|]. apply available_all.
Qed.
End values.

Lemma first_field_read {A} (v : A) rest objs more n : forall old, length old = (n + S (length rest))%nat ->
  deserialize_globals (snapshot_of 0 (v :: omap id rest ++ objs)) old
    ((serialize_globals 0 [] (replicate n None ++ Some v :: rest)).1 ++ more) =
  Ret (restored old (replicate n None ++ None :: rest)).
Proof.
  induction n as [|n IH]; intros [|o old] Hl; try done; injection Hl as Hl; cbn [replicate app serialize_globals AddData].
  - pose proof (globals_indexes_read 0 rest old [v] objs) as Hr. destruct (serialize_globals 0 _ rest) as [ixs a].
    change (0 + Z.of_nat (length (@nil A))) with 0. cbn [fst app deserialize_globals] in *. rewrite Z.eqb_refl.
    erewrite Hr; [done|cbn; lia|done|]. intros j _. apply (available_all 0 (v :: omap id rest ++ objs)). lia.
  - specialize (IH old Hl). destruct (serialize_globals 0 [] _) as [ixs a]. cbn [fst app deserialize_globals] in *.
    by rewrite Z.eqb_refl, IH.
Qed.

(** When the creator counts from zero, as that of V8 does, the first field that has a value is
    read as one that had none, and keeps what it held; all others come back. *)
Theorem first_field_lost {A} (n : nat) (v : A) (rest : list (option A)) (old : list (option A))
    (objects : list (A * bool)) (indexes : list Z) (all : list A) :
  length old = (n + S (length rest))%nat ->
  Immortal_Serialize 0 [] (replicate n None ++ Some v :: rest) objects = Ret (indexes, all) ->
  deserialize_globals (snapshot_of 0 all) old indexes = Ret (restored old (replicate n None ++ None :: rest)).
Proof.
  unfold Immortal_Serialize. intros Hl. pose proof (serialize_globals_app 0 (replicate n None ++ Some v :: rest) []) as Hall.
  pose proof (first_field_read v rest objects.*1) as Hread. specialize (fun more => Hread more n old Hl).
  destruct (serialize_globals 0 [] _) as [is1 added]. cbn [fst snd app] in *. subst added.
  intros ([is2 a2] & Ho & [= <- <-])%outcome_bind_inv. apply serialize_objects_app in Ho as ->.
  assert (Hom : omap id (replicate n None ++ Some v :: rest) = v :: omap id rest) by (clear; by induction n).
  rewrite Hom. apply Hread.
Qed.

(** * The snapshot of an instance *)

(** [src/src/aworker.h 22-29, IsolateCreationMode] *)
Inductive IsolateCreationMode := kNormal | kCreateSnapshot | kTesting.
#[export] Instance IsolateCreationMode_eq_dec : EqDecision IsolateCreationMode := ltac:(solve_decision).

(** The command line, what is linked into the program ([None] for the stub), the file that was
    read, and whether it could be. *)
Record Instance_ := mkInstance {
  build_snapshot : bool;
  has_snapshot_blob : bool;
  embedded : option SnapshotData;
  external_snapshot_loaded : bool;
  snapshot_data_ : option SnapshotData }.

Definition part {B} (f : SnapshotData -> B) (i : Instance_) : outcome (option B) :=
  if build_snapshot i then Ret None
  else if (has_snapshot_blob i && external_snapshot_loaded i)%bool then
    match snapshot_data_ i with None => Fault CheckFailed | Some d => Ret (Some (f d)) end
  else Ret (f <$> embedded i).

(** [src/src/aworker.cc 158-167, AworkerMainInstance::GetSnapshotBlob] *)
Definition GetSnapshotBlob : Instance_ -> outcome (option bytes) := part blob.
(** [src/src/aworker.cc 169-178, AworkerMainInstance::GetIsolateDataIndexes] *)
Definition GetIsolateDataIndexes : Instance_ -> outcome (option (list Z)) := part isolate_data_indexes.
(** [src/src/aworker.cc 180-189, AworkerMainInstance::GetImmortalDataIndexes] *)
Definition GetImmortalDataIndexes : Instance_ -> outcome (option (list Z)) := part immortal_data_indexes.
(** [src/src/aworker.cc 191-201, AworkerMainInstance::GetNativeModuleCaches] *)
Definition Instance_GetNativeModuleCaches : Instance_ -> outcome (option (list NativeModuleCache)) := part native_module_caches.

(** What an instance starts from. *)
Record Start := mkStart {
  isolate_blob : option bytes;
  isolate_indexes : option (list Z);
  caches : option (list NativeModuleCache);
  immortal_indexes : option (list Z) }.

Definition unless_testing {B} (mode : IsolateCreationMode) (o : outcome (option B)) : outcome (option B) :=
  if decide (mode = kTesting) then Ret None else o.

Section instance.
Context (version_hash : Z) (fresh_memory : nat -> bytes).

(** [src/src/aworker.cc 248-300, AworkerMainInstance::Initialize] [file] is the contents of the
    file the command line names, if it can be opened.  The isolate gets a blob in the normal
    mode only: in a test there is none, and while a snapshot is built V8's creator sets it up. *)
Definition Initialize (mode : IsolateCreationMode) (file : option bytes) (i : Instance_) : outcome (Start * Instance_) :=
  i ← (if build_snapshot i then CHECK (bool_decide (mode = kCreateSnapshot)) ;; Ret i
       else if has_snapshot_blob i then
         d ← ReadFromFile version_hash fresh_memory file;
         Ret (mkInstance (build_snapshot i) (has_snapshot_blob i) (embedded i) (bool_decide (is_Some d)) d)
       else Ret i);
  blob ← (if decide (mode = kNormal) then GetSnapshotBlob i else Ret None);
  isolate ← unless_testing mode (GetIsolateDataIndexes i);
  modules ← Instance_GetNativeModuleCaches i;
  immortal ← unless_testing mode (GetImmortalDataIndexes i);
  Ret (mkStart blob isolate modules immortal, i).

(** An instance that starts: from the file when it can be used, from what is linked in when
    not. *)
Definition chosen (i : Instance_) (d : option SnapshotData) : option SnapshotData :=
  if has_snapshot_blob i then match d with Some d => Some d | None => embedded i end else embedded i.

(** The four parts always come from one snapshot: the file of the command line when it can be
    read, has the right magic number and the right version, otherwise the embedded one, if
    there is one. *)
Theorem parts_from_one_snapshot (i : Instance_) (file : option bytes) (d : option SnapshotData) :
  build_snapshot i = false -> ReadFromFile version_hash fresh_memory file = Ret d ->
  exists i', Initialize kNormal file i =
    Ret (mkStart (blob <$> chosen i d) (isolate_data_indexes <$> chosen i d)
           (native_module_caches <$> chosen i d) (immortal_data_indexes <$> chosen i d), i').
Proof.
  intros Hb Hd. unfold Initialize, chosen. rewrite Hb, Hd. destruct i as [b h e x o]. cbn in Hb. subst b.
  destruct h; cbn; [|by eexists]. destruct d as [d|]; cbn; by eexists.
Qed.

(** A snapshot is built from nothing: no part of an older one is used, and the mode has to be
    that of building. *)
Theorem build_from_nothing (i : Instance_) (mode : IsolateCreationMode) (file : option bytes) :
  build_snapshot i = true ->
  Initialize mode file i =
  if decide (mode = kCreateSnapshot) then Ret (mkStart None None None None, i) else Fault CheckFailed.
Proof.
  intros Hb. unfold Initialize. destruct i as [b h e x o]. cbn in Hb. subst b. by destruct mode.
Qed.
End instance.

(** * The embedded source *)

Definition quote : bytes := [x22].
Definition nl : bytes := [x0a].

(** [src/src/snapshot/snapshot_builder.cc 48-53, WriteVector] *)
Fixpoint WriteVector (vec : list Z) : bytes :=
  match vec with
  | [] => []
  | [z] => dec z ++ [x0a]
  | z :: vec => dec z ++ [x2c] ++ WriteVector vec
  end.

Definition def_char (c : byte) : byte :=
  if (byte_eqb c x2d || byte_eqb c x2f || byte_eqb c x2e)%bool then x5f else c.

(** [src/src/snapshot/snapshot_builder.cc 55-64, GetDefName] *)
Definition GetDefName (id : bytes) : outcome bytes :=
  CHECK (length id <? 64)%nat ;; Ret (c_str (def_char <$> id)).

(** [src/src/snapshot/snapshot_builder.cc 66-77, FormatSize] The numbers are whole before they
    are converted to doubles, and small enough to be exact. *)
Definition FormatSize (size : Z) : bytes :=
  if size <? 1024 then dec size ++ bs ".00B"
  else if size <? 1024 * 1024 then dec (size / 1024) ++ bs ".00KB"
  else dec (size / 1024 / 1024) ++ bs ".00MB".

(** [src/src/snapshot/snapshot_builder.cc 79-86, WriteCachedDataDefinition] *)
Definition WriteCachedDataDefinition (id data : bytes) : outcome bytes :=
  name ← GetDefName id;
  Ret (bs "static const uint8_t " ++ name ++ bs "[] = {" ++ nl ++ WriteVector (bval <$> data) ++ bs "};").

(** [src/src/snapshot/snapshot_builder.cc 88-95, WriteCachedDataInitializer] *)
Definition WriteCachedDataInitializer (id : bytes) : outcome bytes :=
  name ← GetDefName id;
  Ret (bs "    { " ++ quote ++ id ++ quote ++ bs "," ++ nl ++
       bs "      {" ++ name ++ bs "," ++ nl ++
       bs "       " ++ name ++ bs " + arraysize(" ++ name ++ bs ")," ++ nl ++
       bs "      }" ++ nl ++
       bs "    }," ++ nl).

Fixpoint each (f : NativeModuleCache -> outcome bytes) (l : list NativeModuleCache) : outcome bytes :=
  match l with
  | [] => Ret []
  | c :: l => a ← f c; b ← each f l; Ret (a ++ b)
  end.

Definition lines (l : list bytes) : bytes := l ≫= (fun s => s ++ nl).

(** [src/src/snapshot/snapshot_builder.cc 97-172, SnapshotData::ToSource] *)
Definition ToSource (d : SnapshotData) : outcome bytes :=
  definitions ← each (fun c => t ← WriteCachedDataDefinition (cache_id c) (cache_data c); Ret (t ++ nl ++ nl)) (native_module_caches d);
  initializers ← each (fun c => WriteCachedDataInitializer (cache_id c)) (native_module_caches d);
  Ret (lines [bs "#include <cstddef>";
              bs "#include " ++ quote ++ bs "snapshot/embedded_snapshot_data.h" ++ quote;
              bs "#include " ++ quote ++ bs "v8.h" ++ quote; [];
              bs "// This file is generated by tools/snapshot. Do not edit."; [];
              bs "namespace aworker {"; []; bs "static const char blob_data[] = {"] ++
       WriteVector (schar <$> blob d) ++
       lines [bs "};"; []] ++ bs "static const int blob_size = " ++ dec (Z.of_nat (length (blob d))) ++ bs ";" ++ nl ++
       lines [bs "static v8::StartupData blob = { blob_data, blob_size };";
              bs "v8::StartupData* EmbeddedSnapshotData::GetSnapshotBlob() {";
              bs "  return &blob;"; bs "}"; []; bs "static const std::vector<size_t> isolate_data_indexes {"] ++
       WriteVector (isolate_data_indexes d) ++
       lines [bs "};"; []; bs "const std::vector<size_t>* EmbeddedSnapshotData::GetIsolateDataIndexes() {";
              bs "  return &isolate_data_indexes;"; bs "}"; [];
              bs "static const std::vector<size_t> immortal_data_indexes {"] ++
       WriteVector (immortal_data_indexes d) ++
       lines [bs "};"; []; bs "const std::vector<size_t>* EmbeddedSnapshotData::GetImmortalDataIndexes() {";
              bs "  return &immortal_data_indexes;"; bs "}"; []] ++
       definitions ++
       lines [[]; bs "static const std::vector<NativeModuleCache> native_module_caches {"] ++
       initializers ++
       lines [bs "};"; []; bs "const std::vector<NativeModuleCache>* EmbeddedSnapshotData::GetNativeModuleCaches() {";
              bs "  return &native_module_caches;"; bs "}"; []; bs "}  // namespace aworker"]).

(** ** The numbers in the text *)

(** The value of an integer literal, and of a list of them with commas between and a newline
    at the end. *)
Definition literal (s : bytes) : Z :=
  match s with x2d :: s => - read_dec s | _ => read_dec s end.

Definition separator (c : byte) : bool := byte_eqb c x2c || byte_eqb c x0a.

Fixpoint literals (cur s : bytes) : list Z :=
  match s with
  | [] => []
  | c :: s => if separator c then literal cur :: literals [] s else literals (cur ++ [c]) s
  end.

Lemma dec_digits_all z : Forall (fun b => is_digit b) (dec_digits (S (Z.to_nat (Z.log2 (Z.abs z)))) (Z.abs z) []).
Proof. by apply dec_digits_are_digits. Qed.

Lemma digit_not b c : is_digit b -> bval c < 48 -> byte_eqb b c = false.
Proof.
  unfold is_digit. intros [H%Z.leb_le _]%Is_true_eq_true%andb_prop Hc. apply byte_eqb_ne. intros ->. lia.
Qed.

Lemma literal_dec z : literal (dec z) = z.
Proof.
  unfold dec. destruct (Z.ltb_spec z 0) as [Hz|Hz].
  - unfold literal. rewrite dec_value. lia.
  - pose proof (dec_digits_all z) as Hd. pose proof (dec_value z) as Hv.
    destruct (dec_digits _ _ _) as [|b s]; [cbn in *; lia|]. apply Forall_cons in Hd as [Hb _].
    unfold literal. destruct b; try (rewrite Hv; lia). by destruct Hb.
Qed.

Lemma dec_no_separator z : Forall (fun b => separator b = false) (dec z).
Proof.
  assert (Hd : Forall (fun b => separator b = false) (dec_digits (S (Z.to_nat (Z.log2 (Z.abs z)))) (Z.abs z) [])).
  { eapply Forall_impl; [apply dec_digits_all|]. intros b Hb. unfold separator. by rewrite !digit_not. }
  unfold dec. destruct (z <? 0); [by constructor|done].
Qed.

Lemma literals_word w : forall cur rest, Forall (fun b => separator b = false) w ->
  literals cur (w ++ rest) = literals (cur ++ w) rest.
Proof.
  induction w as [|c w IH]; intros cur rest Hw; [by rewrite app_nil_r|]. apply Forall_cons in Hw as [Hc Hw].
  cbn [app literals]. rewrite Hc, IH by done. by rewrite <-app_assoc.
Qed.

(** The numbers of the generated source are those of the snapshot, signs included. *)
Theorem written_vector_reads_back (vec : list Z) : literals [] (WriteVector vec) = vec.
Proof.
  induction vec as [|z vec IH]; [done|].
  assert (H : exists c, separator c = true /\ WriteVector (z :: vec) = dec z ++ c :: WriteVector vec).
  { destruct vec; [by exists x0a|by exists x2c]. }
  destruct H as (c & Hc & ->). rewrite literals_word by apply dec_no_separator. cbn [app literals].
  by rewrite Hc, literal_dec, IH.
Qed.

(** Distinct modules whose names differ in punctuation alone get one name in the generated
    source, which then has two definitions of it; a name of 64 bytes ends the program. *)
Example def_names_collide :
  GetDefName (bs "a-b.js") = GetDefName (bs "a/b.js") /\ bs "a-b.js" <> bs "a/b.js" /\
  GetDefName (replicate 64 x61) = Fault CheckFailed.
Proof. by split_and!. Qed.

(** The size that is reported never has a fraction. *)
Example sizes_are_truncated : FormatSize 2047 = bs "1.00KB" /\ FormatSize (2 * 1024 * 1024 - 1) = bs "1.00MB".
Proof. by split. Qed.

(** ** Examples *)

Definition example_snapshot : SnapshotData :=
  mkSnapshot (bs "blob") [0; 1; 7] [2; 0] [mkCache (bs "a.js") (bs "code"); mkCache (bs "bootstrap/b.js") []].

Lemma example_snapshot_ok : snapshot_ok example_snapshot.
Proof. by repeat first [split | constructor]. Qed.

Lemma snapshot_roundtrip_witness :
  snapshot_ok example_snapshot /\
  exists file, WriteToFile 99 true example_snapshot = Ret file /\
    ReadFromFile 99 (fun n => replicate n x00) (Some file) = Ret (Some example_snapshot).
Proof.
  split; [apply example_snapshot_ok|].
  apply (snapshot_roundtrip 99 (fun n => replicate n x00)).
  - by split.
  - intros n. apply length_replicate.
  - apply example_snapshot_ok.
Defined.

Definition example_sources : gmap bytes bytes := {[ bs "a.js" := bs "1"; LOADER := bs "2" ]}.
Definition example_v8 (id : bytes) : compilation := Compiled false (Some (id ++ bs ".cache")).
Definition example_built : Manager :=
  match CompileAll (new_manager example_sources) example_v8 with Ret (_, m) => m | _ => new_manager ∅ end.

Lemma example_built_ok : CompileAll (new_manager example_sources) example_v8 = Ret (true, example_built).
Proof.
  assert (E : match CompileAll (new_manager example_sources) example_v8 with Ret (b, _) => b | _ => false end = true)
    by by vm_compute.
  unfold example_built. by destruct (CompileAll _ _) as [[[] m]|f].
Qed.

Lemma example_caches : GetNativeModuleCaches example_built =
  [mkCache (bs "a.js") (bs "a.js.cache"); mkCache LOADER (LOADER ++ bs ".cache")].
Proof. by vm_compute. Qed.

Lemma caches_survive_snapshot_witness :
  CompileAll (new_manager example_sources) example_v8 = Ret (true, example_built) /\
  exists file d,
    WriteToFile 99 true (mkSnapshot (bs "blob") [1] [0] (GetNativeModuleCaches example_built)) = Ret file /\
    ReadFromFile 99 (fun n => replicate n x00) (Some file) = Ret (Some d) /\
    let m := InitializeCachedData (new_manager example_sources) (native_module_caches d) in
    cached_data_map_ m = cached_data_map_ example_built /\
    forall id cache, is_Some (example_sources !! id) ->
      exists m', Compile m id (Compiled false (Some cache)) = Ret (Some (mkResult (module_type m id) true), m').
Proof.
  split; [apply example_built_ok|].
  apply (caches_survive_snapshot 99 (fun n => replicate n x00)) with (v8 := example_v8).
  - by split.
  - intros n. apply length_replicate.
  - apply example_built_ok.
  - rewrite example_caches. by repeat first [split | constructor].
Defined.
