(* ===== verification/I18n.v ===== *)
(** * Text converters

    src/src/utils/resizable_buffer.h, the growing buffers;
    src/src/binding/internal/aworker_i18n.{h,cc}, the converters behind TextDecoder and the
    encoders behind TextEncoder; src/src/snapshot/snapshotable.{h,cc} and the requests of
    src/src/snapshot/snapshot_builder.cc, which bring converters through a snapshot.

    ICU and V8's strings are interfaces: a converter is opened by name, decides what to do with
    bytes that mean nothing, turns bytes into at most as many UTF-16 units as there is room
    for; a string is written as UTF-8 into at most the room there is.  A cell of memory that
    was never written is [None], and reading one is a fault.

    The theorems: a buffer is the sequence its calls build; what [decode] returns, on every
    branch; that it never returns more units than the buffer holds; that it ignores the
    caller's wish to keep byte order marks, reads memory that was never written when a chunk
    yields nothing, and that a converter that comes from a snapshot has forgotten that it was
    fatal; that otherwise what is restored is what was there. *)

From S2P Require Import Prelude.
Import String.StringSyntax.
Local Open Scope string_scope.
Local Open Scope list_scope.
Local Open Scope Z_scope.

(** * Growing buffers *)

Definition cell := option byte.

(** [src/src/utils/resizable_buffer.h 118-121, ResizableBuffer] *)
Record ResizableBuffer := mkBuffer { _buf : option (list cell); _byte_length : nat }.

(** [src/src/utils/resizable_buffer.h 20-20, ResizableBuffer::ResizableBuffer] *)
Definition empty_buffer : ResizableBuffer := mkBuffer None 0.

(** [std::realloc]: the contents are kept as far as they fit, what is new is not set. *)
Definition realloc (old : option (list cell)) (n : nat) : list cell :=
  let old := default [] old in take n old ++ replicate (n - length old) None.

(** [src/src/utils/resizable_buffer.h 55-67, ResizableBuffer::Realloc] There is memory. *)
Definition Realloc (b : ResizableBuffer) (byte_length : nat) : ResizableBuffer :=
  if (byte_length =? _byte_length b)%nat then b
  else if (byte_length =? 0)%nat then mkBuffer None 0
  else mkBuffer (Some (realloc (_buf b) byte_length)) byte_length.

(** [src/src/utils/resizable_buffer.h 22-24, ResizableBuffer::ResizableBuffer] *)
Definition new_buffer (byte_length : nat) : ResizableBuffer := Realloc empty_buffer byte_length.

(** [src/src/utils/resizable_buffer.h 45-53, ResizableBuffer::Release] What is given away, and
    what is left. *)
Definition Release (b : ResizableBuffer) : (option (list cell) * nat) * ResizableBuffer :=
  ((_buf b, _byte_length b), empty_buffer).

(** [src/src/utils/resizable_buffer.h 28-41, ResizableBuffer::operator=] From another buffer,
    which is empty then. *)
Definition move (other : ResizableBuffer) : ResizableBuffer * ResizableBuffer := (other, empty_buffer).

(** [memcpy] of [n] bytes from [src] into [dst] at [at_]. *)
Definition memcpy (dst : option (list cell)) (at_ : nat) (src : option (list cell)) (n : nat) : outcome (list cell) :=
  match dst, src with
  | Some dst, Some src =>
      if ((n <=? length src) && (at_ + n <=? length dst))%nat then
        Ret (take at_ dst ++ take n src ++ drop (at_ + n) dst)
      else Fault OutOfBounds
  | _, _ => Fault NullDeref
  end.

(** [src/src/utils/resizable_buffer.h 73-92, ResizableBuffer::Concat] From a buffer that is
    another object. *)
Definition Concat (b src : ResizableBuffer) (byte_length : nat) : outcome ResizableBuffer :=
  if (byte_length =? 0)%nat then Ret b
  else
    match _buf b with
    | None =>
        let b := Realloc b byte_length in
        m ← memcpy (_buf b) 0 (_buf src) byte_length; Ret (mkBuffer (Some m) (_byte_length b))
    | Some _ =>
        let self_byte_length := _byte_length b in
        let b := Realloc b (self_byte_length + byte_length) in
        m ← memcpy (_buf b) self_byte_length (_buf src) byte_length; Ret (mkBuffer (Some m) (_byte_length b))
    end.

(** [src/src/utils/resizable_buffer.h 94-116, ResizableBuffer::Prepend] *)
Definition Prepend (b src : ResizableBuffer) (byte_length : nat) : outcome ResizableBuffer :=
  if (byte_length =? 0)%nat then Ret b
  else
    match _buf b with
    | None =>
        let b := Realloc b byte_length in
        m ← memcpy (_buf b) 0 (_buf src) byte_length; Ret (mkBuffer (Some m) (_byte_length b))
    | Some _ =>
        let self_byte_length := _byte_length b in
        let b := Realloc b (self_byte_length + byte_length) in
        m ← memcpy (_buf b) byte_length (_buf b) self_byte_length;
        m ← memcpy (Some m) 0 (_buf src) byte_length; Ret (mkBuffer (Some m) (_byte_length b))
    end.

(** What a buffer holds, and what it always is. *)
Definition contents (b : ResizableBuffer) : list cell := default [] (_buf b).

Definition buffer_ok (b : ResizableBuffer) : Prop :=
  match _buf b with None => _byte_length b = 0%nat | Some m => length m = _byte_length b /\ (0 < length m)%nat end.

Lemma contents_length b : buffer_ok b -> length (contents b) = _byte_length b.
Proof. unfold buffer_ok, contents. destruct (_buf b); cbn; [by intros []|done]. Qed.

Lemma Realloc_ok b n : buffer_ok b -> buffer_ok (Realloc b n) /\ _byte_length (Realloc b n) = n /\
  contents (Realloc b n) = take n (contents b) ++ replicate (n - _byte_length b) None.
Proof.
  intros Hb. pose proof (contents_length b Hb) as Hl. unfold Realloc.
  destruct (Nat.eqb_spec n (_byte_length b)) as [->|Hne].
  { split_and!; [done..|]. by rewrite <-Hl, take_ge, Nat.sub_diag, app_nil_r by lia. }
  destruct (Nat.eqb_spec n 0) as [->|Hn]; [done|]. unfold buffer_ok, contents, realloc in *. cbn.
  rewrite length_app, length_take, length_replicate, Hl. split_and!; [lia|lia|done|done].
Qed.

Lemma memcpy_exact (a x rest src : list cell) k n : length a = k -> length x = n -> (n <= length src)%nat ->
  memcpy (Some (a ++ x ++ rest)) k (Some src) n = Ret (a ++ take n src ++ rest).
Proof.
  intros <- <- Hn. cbn. rewrite (proj2 (Nat.leb_le _ _)) by done. rewrite (proj2 (Nat.leb_le _ _)) by (rewrite !length_app; lia).
  cbn. by rewrite take_app_length, <-drop_drop, !drop_app_length.
Qed.

(** A buffer with something in it. *)
Lemma nonempty_buf b : buffer_ok b -> _byte_length b <> 0%nat -> _buf b = Some (contents b).
Proof. unfold buffer_ok, contents. by destruct (_buf b). Qed.

Lemma grown b n : buffer_ok b -> n <> 0%nat ->
  _byte_length (Realloc b (_byte_length b + n)) = (_byte_length b + n)%nat /\
  _buf (Realloc b (_byte_length b + n)) = Some (contents b ++ replicate n None).
Proof.
  intros Hb Hn. destruct (Realloc_ok b (_byte_length b + n) Hb) as (Hok & Hl & Hc). split; [done|].
  rewrite nonempty_buf, Hc by (done || lia). pose proof (contents_length b Hb). rewrite take_ge by lia.
  do 2 f_equal. f_equal. lia.
Qed.

Lemma ok_of_contents m n : length m = n -> n <> 0%nat -> buffer_ok (mkBuffer (Some m) n).
Proof. intros <- Hn. split; cbn; lia. Qed.

(** Appending a part of another buffer: the contents are appended, and the buffer stays what it
    has to be. *)
Lemma Concat_contents b src n : buffer_ok b -> buffer_ok src -> (n <= _byte_length src)%nat ->
  exists b', Concat b src n = Ret b' /\ buffer_ok b' /\ contents b' = contents b ++ take n (contents src).
Proof.
  intros Hb Hs Hn. unfold Concat. destruct (Nat.eqb_spec n 0) as [->|Hn0].
  { exists b. by rewrite take_0, app_nil_r. }
  destruct (grown b n Hb Hn0) as [Hl Hm]. pose proof (contents_length b Hb) as Hlb. pose proof (contents_length src Hs).
  exists (mkBuffer (Some (contents b ++ take n (contents src))) (_byte_length b + n)). split_and!; [|by apply ok_of_contents; [rewrite length_app, length_take; lia|lia]|done].
  rewrite (nonempty_buf src) by (done || lia).
  pose proof (memcpy_exact (contents b) (replicate n None) [] (contents src) (_byte_length b) n Hlb (length_replicate _ _) ltac:(lia)) as E.
  rewrite !app_nil_r in E. destruct (_buf b) as [m|] eqn:Eb.
  - by rewrite Hl, Hm, E.
  - unfold buffer_ok in Hb. rewrite Eb in Hb. rewrite Hb in Hl, Hm, E |- *. cbn [Nat.add] in *. by rewrite Hl, Hm, E.
Qed.

(** Putting a part of another buffer in front. *)
Lemma Prepend_contents b src n : buffer_ok b -> buffer_ok src -> (n <= _byte_length src)%nat ->
  exists b', Prepend b src n = Ret b' /\ buffer_ok b' /\ contents b' = take n (contents src) ++ contents b.
Proof.
  intros Hb Hs Hn. unfold Prepend. destruct (Nat.eqb_spec n 0) as [->|Hn0]; [by exists b|].
  destruct (grown b n Hb Hn0) as [Hl Hm]. pose proof (contents_length b Hb) as Hlb. pose proof (contents_length src Hs).
  exists (mkBuffer (Some (take n (contents src) ++ contents b)) (_byte_length b + n)). split_and!; [|by apply ok_of_contents; [rewrite length_app, length_take; lia|lia]|done].
  rewrite (nonempty_buf src) by (done || lia). destruct (_buf b) as [m|] eqn:Eb.
  - rewrite Hl, Hm. set (c := contents b ++ replicate n None).
    assert (Hc : length c = (_byte_length b + n)%nat) by (unfold c; rewrite length_app, length_replicate; lia).
    pose proof (memcpy_exact (take n c) (drop n c) [] c n (_byte_length b)) as E. rewrite !app_nil_r, take_drop in E.
    rewrite E by (rewrite ?length_take, ?length_drop; lia). clear E. rewrite outcome_bind_ret.
    replace (take (_byte_length b) c) with (contents b) by (unfold c; by rewrite take_app_exact).
    pose proof (memcpy_exact [] (take n c) (contents b) (contents src) 0 n) as E. cbn [app] in E.
    rewrite E by (done || rewrite ?length_take; lia). done.
  - unfold buffer_ok in Hb. rewrite Eb in Hb. unfold contents in *. rewrite Eb in *. cbn [default app] in *.
    rewrite Hb in Hl, Hm |- *. cbn [Nat.add] in *. rewrite Hl, Hm.
    pose proof (memcpy_exact [] (replicate n None) [] (default [] (_buf src)) 0 n eq_refl (length_replicate _ _) ltac:(lia)) as E.
    cbn [app] in E. rewrite !app_nil_r in E. by rewrite E, app_nil_r.
Qed.

(** More than the other buffer has: memory behind it is read. *)
Theorem concat_reads_past (b src : ResizableBuffer) (n : nat) :
  buffer_ok b -> buffer_ok src -> (_byte_length src < n)%nat -> (0 < _byte_length src)%nat ->
  Concat b src n = Fault OutOfBounds.
Proof.
  intros Hb Hs Hn H0. unfold Concat. destruct (Nat.eqb_spec n 0) as [->|Hn0]; [lia|].
  destruct (grown b n Hb Hn0) as [Hl Hm]. pose proof (contents_length src Hs). rewrite (nonempty_buf src) by (done || lia).
  assert (E : (n <=? length (contents src))%nat = false) by (apply Nat.leb_gt; lia).
  destruct (_buf b) as [m|] eqn:Eb.
  - rewrite Hm. cbn. by rewrite E.
  - unfold buffer_ok in Hb. rewrite Eb in Hb. rewrite Hb in Hm. cbn [Nat.add] in Hm. rewrite Hm. cbn. by rewrite E.
Qed.

(** A use of a buffer, and what it does to the sequence of bytes the buffer stands for. *)
Inductive use := UConcat (src : ResizableBuffer) (n : nat) | UPrepend (src : ResizableBuffer) (n : nat) | URealloc (n : nat) | URelease.

Definition use_ok (u : use) : Prop :=
  match u with UConcat src n | UPrepend src n => buffer_ok src /\ (n <= _byte_length src)%nat | _ => True end.

Definition run_use (b : ResizableBuffer) (u : use) : outcome ResizableBuffer :=
  match u with
  | UConcat src n => Concat b src n
  | UPrepend src n => Prepend b src n
  | URealloc n => Ret (Realloc b n)
  | URelease => Ret (Release b).2
  end.

Definition spec_use (s : list cell) (u : use) : list cell :=
  match u with
  | UConcat src n => s ++ take n (contents src)
  | UPrepend src n => take n (contents src) ++ s
  | URealloc n => take n s ++ replicate (n - length s) None
  | URelease => []
  end.

Fixpoint run_uses (b : ResizableBuffer) (l : list use) : outcome ResizableBuffer :=
  match l with [] => Ret b | u :: l => b ← run_use b u; run_uses b l end.

Lemma run_use_spec b u : buffer_ok b -> use_ok u ->
  exists b', run_use b u = Ret b' /\ buffer_ok b' /\ contents b' = spec_use (contents b) u.
Proof.
  intros Hb. destruct u as [src n|src n|n|]; cbn [use_ok run_use spec_use].
  - intros [Hs Hn]. by apply Concat_contents.
  - intros [Hs Hn]. by apply Prepend_contents.
  - intros _. destruct (Realloc_ok b n Hb) as (Hok & _ & Hc). rewrite contents_length by done. eauto.
  - intros _. by exists empty_buffer.
Qed.

Lemma run_uses_spec l : forall b, buffer_ok b -> Forall use_ok l ->
  exists b', run_uses b l = Ret b' /\ buffer_ok b' /\ contents b' = foldl spec_use (contents b) l.
Proof.
  induction l as [|u l IH]; intros b Hb Hl; [by exists b|]. apply Forall_cons in Hl as [Hu Hl].
  destruct (run_use_spec b u Hb Hu) as (b1 & E1 & Hb1 & Hc1). destruct (IH b1 Hb1 Hl) as (b2 & E2 & Hb2 & Hc2).
  exists b2. cbn [run_uses foldl]. rewrite E1, outcome_bind_ret, E2, Hc2, Hc1. done.
Qed.

(** C39 A buffer is the sequence of bytes its calls build: whatever is appended, put in front,
    cut or released in whatever order, with no more asked of another buffer than it has, no
    call reads or writes outside its memory, the pointer is null exactly when the length is
    zero, and the contents are those of a list under the same operations. *)
Theorem buffer_is_its_sequence (l : list use) : Forall use_ok l ->
  exists b, run_uses empty_buffer l = Ret b /\ buffer_ok b /\ contents b = foldl spec_use [] l.
Proof. intros Hl. by apply (run_uses_spec l empty_buffer). Qed.

(** * Converters *)

(** [src/src/binding/internal/aworker_i18n.h 24-29, ConverterFlags] *)
Definition CONVERTER_FLAGS_NONE : Z := 0.
Definition CONVERTER_FLAGS_FATAL : Z := Z.shiftl 1 0.
Definition CONVERTER_FLAGS_IGNORE_BOM : Z := Z.shiftl 1 1.
Definition CONVERTER_FLAGS_STREAM : Z := Z.shiftl 1 2.

(** What is used of ICU.  [open] is [None] when there is no such converter, [set_stop] sets
    what happens to bytes that mean nothing: to stop with an error, or to put a substitute.
    [toUnicode c limit input flush] writes at most [limit] units and reports a failure. *)
Record ICU := mkICU {
  uconv : Type;
  ucnv_open : bytes -> option uconv;
  ucnv_setToUCallBack : uconv -> bool -> uconv;
  ucnv_getMinCharSize : uconv -> nat;
  ucnv_toUnicode : uconv -> nat -> bytes -> bool -> (list Z * bool) * uconv;
  ucnv_resetToUnicode : uconv -> uconv }.

Class ICULaws (icu : ICU) := {
  units_fit : forall c limit input flush, (length (ucnv_toUnicode icu c limit input flush).1.1 <= limit)%nat;
  opened_substitutes : forall name c, ucnv_open icu name = Some c -> ucnv_setToUCallBack icu c false = c;
  units_are : forall c limit input flush, Forall (fun u => 0 <= u < 2 ^ 16) (ucnv_toUnicode icu c limit input flush).1.1 }.

Section converter.
Context (icu : ICU).

(** [src/src/binding/internal/aworker_i18n.h 31-63, ConverterObject] With its name, which the
    object keeps. *)
Record ConverterObject := mkConverter { kName : bytes; conv_ : uconv icu; flags_ : Z }.

(** [src/src/binding/internal/aworker_i18n.h 56-58, ConverterObject::ignore_bom] *)
Definition ignore_bom (co : ConverterObject) : bool :=
  Z.land (flags_ co) CONVERTER_FLAGS_IGNORE_BOM =? CONVERTER_FLAGS_IGNORE_BOM.

(** [src/src/binding/internal/aworker_i18n.cc 89-123, ConverterObject::New] [None] is an
    exception. *)
Definition New (name : bytes) (flags : Z) : option ConverterObject :=
  let fatal := Z.land flags CONVERTER_FLAGS_FATAL =? CONVERTER_FLAGS_FATAL in
  match ucnv_open icu name with
  | None => None
  | Some c => Some (mkConverter name (ucnv_setToUCallBack icu c fatal) CONVERTER_FLAGS_NONE)
  end.

(** What the buffer of [limit] units starts with: what was converted, if anything was. *)
Definition first_unit (limit : nat) (units : list Z) : outcome Z :=
  match _buf (new_buffer (limit * 2)) with
  | None => Fault NullDeref
  | Some _ => match units with [] => Fault Uninitialised | u :: _ => Ret u end
  end.

(** [src/src/binding/internal/aworker_i18n.cc 125-186, ConverterObject::Decode] [input] is
    [None] when the data pointer is null; the result is [None] for an exception. *)
Definition Decode (co : ConverterObject) (input : option bytes) (flags : Z) : outcome (option (list Z) * ConverterObject) :=
  let stream := negb (Z.land flags CONVERTER_FLAGS_STREAM =? 0) in
  match input with
  | None => Fault CheckFailed
  | Some input =>
      let limit := (ucnv_getMinCharSize icu (conv_ co) * length input)%nat in
      let '((units, failed), c) := ucnv_toUnicode icu (conv_ co) limit input (negb stream) in
      let c := if stream then c else ucnv_resetToUnicode icu c in
      let co' := mkConverter (kName co) c (flags_ co) in
      if failed then Ret (None, co')
      else if ignore_bom co then Ret (Some units, co')
      else
        first ← first_unit limit units;
        Ret (Some (if first =? 0xFEFF then drop 1 units else units), co')
  end.

(** ** Snapshots *)

(** [src/src/snapshot/snapshotable.h 20-25, EmbedderFieldObjectType] *)
Inductive EmbedderFieldObjectType := kDefault | kConverterObject.

(** The native object behind a JavaScript object: a converter, or one that cannot be part of a
    snapshot.  The JavaScript object: its pointer to the native one, the field with the name,
    and its other pointer fields. *)
Inductive native := NConverter (co : ConverterObject) | NPlain.
Record holder := mkHolder { kSlot : option native; name_field : bytes }.

(** [src/src/binding/internal/aworker_i18n.cc 59-65, ConverterObject::Serialize] *)
Definition ConverterObject_Serialize (internal_field_index : nat) : option EmbedderFieldObjectType :=
  if negb (internal_field_index =? 0)%nat then None else Some kConverterObject.

(** [src/src/snapshot/snapshotable.cc 8-39, SerializeAworkerInternalFields] [None] is a payload
    of no bytes. *)
Definition SerializeAworkerInternalFields (h : holder) (index : nat) : option EmbedderFieldObjectType :=
  match kSlot h with
  | None => None
  | Some NPlain => None
  | Some (NConverter co) => ConverterObject_Serialize index
  end.

(** The objects of a context, by number, and the requests of a restoring: the object and the
    field. *)
Local Notation heap := (gmap nat holder).
Definition request : Type := nat * nat.

(** [src/src/snapshot/snapshot_builder.cc 26-33, DeserializeContext::EnqueueDeserializeRequest] *)
Definition EnqueueDeserializeRequest (q : list request) (r : request) : list request := q ++ [r].

(** [src/src/snapshot/snapshotable.cc 41-77, DeserializeAworkerInternalFields] *)
Definition DeserializeAworkerInternalFields (hp : heap) (q : list request) (holder index : nat)
    (payload : option EmbedderFieldObjectType) : outcome (heap * list request) :=
  match payload with
  | None =>
      Ret (if (index =? 0)%nat then alter (fun h => mkHolder None (name_field h)) holder hp else hp, q)
  | Some kConverterObject => Ret (hp, EnqueueDeserializeRequest q (holder, index))
  | Some kDefault => Fault CheckFailed
  end.

(** [src/src/binding/internal/aworker_i18n.cc 67-83, ConverterObject::Deserialize] *)
Definition ConverterObject_Deserialize (hp : heap) (r : request) : outcome heap :=
  let '(i, index) := r in
  if negb (index =? 0)%nat then Ret hp
  else
    match hp !! i with
    | None => Fault NullDeref
    | Some h =>
        match ucnv_open icu (name_field h) with
        | None => Fault CheckFailed
        | Some c => Ret (<[i := mkHolder (Some (NConverter (mkConverter (name_field h) c CONVERTER_FLAGS_NONE))) (name_field h)]> hp)
        end
    end.

(** [src/src/snapshot/snapshot_builder.cc 35-46, DeserializeContext::RunDeserializeRequests]
    First come, first served, until none is left. *)
Fixpoint RunDeserializeRequests (hp : heap) (q : list request) : outcome heap :=
  match q with
  | [] => Ret hp
  | r :: q => hp ← ConverterObject_Deserialize hp r; RunDeserializeRequests hp q
  end.

(** V8 restores a context: it calls back for the pointer field of each object, and the requests
    run when all objects are there. *)
Fixpoint restore_fields (hp : heap) (q : list request) (l : list (nat * holder)) : outcome (heap * list request) :=
  match l with
  | [] => Ret (hp, q)
  | (i, h) :: l =>
      '(hp, q) ← DeserializeAworkerInternalFields hp q i 0 (SerializeAworkerInternalFields h 0);
      restore_fields hp q l
  end.

(** The objects as V8 has them before: the fields that are JavaScript values, no pointers. *)
Definition bare (h : holder) : holder := mkHolder None (name_field h).

Definition restore (hp : heap) (order : list (nat * holder)) : outcome heap :=
  '(hp', q) ← restore_fields (bare <$> hp) [] order;
  RunDeserializeRequests hp' q.

(** What an object is after the trip. *)
Definition restored_object (h : holder) : option holder :=
  match kSlot h with
  | Some (NConverter _) =>
      (fun c => mkHolder (Some (NConverter (mkConverter (name_field h) c CONVERTER_FLAGS_NONE))) (name_field h)) <$> ucnv_open icu (name_field h)
  | _ => Some (bare h)
  end.

(** ** What a converter does *)

(** Converters there can be: made by a script or from a snapshot, and used. *)
Inductive reachable : ConverterObject -> Prop :=
  | made name flags co : New name flags = Some co -> reachable co
  | from_snapshot name c : ucnv_open icu name = Some c -> reachable (mkConverter name c CONVERTER_FLAGS_NONE)
  | decoded co input flags out co' : reachable co -> Decode co input flags = Ret (out, co') -> reachable co'.

Lemma Decode_flags co input flags out co' : Decode co input flags = Ret (out, co') ->
  flags_ co' = flags_ co /\ kName co' = kName co.
Proof.
  unfold Decode. destruct input as [input|]; [|done]. destruct (ucnv_toUnicode _ _ _ _ _) as [[units failed] c].
  destruct failed; [by intros [= _ <-]|]. destruct (ignore_bom co); [by intros [= _ <-]|].
  by intros (u & _ & [= _ <-])%outcome_bind_inv.
Qed.

Lemma reachable_flags co : reachable co -> flags_ co = CONVERTER_FLAGS_NONE.
Proof.
  induction 1 as [name flags co H|name c H|co input flags out co' _ IH H]; [|done|].
  - unfold New in H. destruct (ucnv_open icu name); by simplify_eq.
  - apply Decode_flags in H as [-> _]. done.
Qed.

Lemma reachable_strips co : reachable co -> ignore_bom co = false.
Proof. intros H. unfold ignore_bom. by rewrite (reachable_flags co H). Qed.

Lemma first_unit_cons limit u units : (0 < limit)%nat -> first_unit limit (u :: units) = Ret u.
Proof.
  intros Hl. unfold first_unit, new_buffer, Realloc. cbn [_byte_length empty_buffer].
  by rewrite !(proj2 (Nat.eqb_neq _ _)) by lia.
Qed.

Lemma first_unit_nil limit : (0 < limit)%nat -> first_unit limit [] = Fault Uninitialised.
Proof.
  intros Hl. unfold first_unit, new_buffer, Realloc. cbn [_byte_length empty_buffer].
  by rewrite !(proj2 (Nat.eqb_neq _ _)) by lia.
Qed.

Context {laws : ICULaws icu}.

Lemma Decode_some co input flags : reachable co ->
  let limit := (ucnv_getMinCharSize icu (conv_ co) * length input)%nat in
  forall u units c,
  ucnv_toUnicode icu (conv_ co) limit input (Z.land flags CONVERTER_FLAGS_STREAM =? 0) = ((u :: units, false), c) ->
  exists co', Decode co (Some input) flags = Ret (Some (if u =? 0xFEFF then units else u :: units), co').
Proof.
  intros Hr limit u units c E. unfold Decode. fold limit. rewrite negb_involutive, E, (reachable_strips co Hr).
  pose proof (units_fit (conv_ co) limit input (Z.land flags CONVERTER_FLAGS_STREAM =? 0)) as Hfit.
  rewrite E in Hfit. cbn in Hfit. rewrite first_unit_cons by lia. rewrite outcome_bind_ret. by eexists.
Qed.

(** What [decode] returns: whatever flags the converter was made with, asking to keep byte
    order marks included, and whether or not it came from a snapshot, a call that converts
    something returns what ICU converted, less a byte order mark in front: at the start of the
    text and at the start of every later chunk of a stream. *)
Theorem decode_drops_every_mark (co : ConverterObject) (input : bytes) (flags : Z) (u : Z) (units : list Z) (c : uconv icu) :
  reachable co ->
  ucnv_toUnicode icu (conv_ co) (ucnv_getMinCharSize icu (conv_ co) * length input) input
    (Z.land flags CONVERTER_FLAGS_STREAM =? 0) = ((u :: units, false), c) ->
  exists co', reachable co' /\
    Decode co (Some input) flags = Ret (Some (if u =? 0xFEFF then units else u :: units), co').
Proof.
  intros Hr E. destruct (Decode_some co input flags Hr u units c E) as [co' H]. exists co'. split; [|done].
  by eapply decoded.
Qed.

(** A chunk that converts to nothing, such as the first byte of a character of two: the test
    for a mark reads memory that was never written. *)
Theorem empty_chunk_reads_unwritten (co : ConverterObject) (input : bytes) (flags : Z) (c : uconv icu) :
  reachable co -> (0 < ucnv_getMinCharSize icu (conv_ co) * length input)%nat ->
  ucnv_toUnicode icu (conv_ co) (ucnv_getMinCharSize icu (conv_ co) * length input) input
    (Z.land flags CONVERTER_FLAGS_STREAM =? 0) = (([], false), c) ->
  Decode co (Some input) flags = Fault Uninitialised.
Proof.
  intros Hr Hl E. unfold Decode. rewrite negb_involutive, E, (reachable_strips co Hr). by rewrite first_unit_nil.
Qed.

(** No more units than the smallest size of a character times the bytes of the chunk: a
    character of two units whose last byte comes alone cannot be returned. *)
Theorem decode_bounded (co : ConverterObject) (input : bytes) (flags : Z) (out : list Z) (co' : ConverterObject) :
  Decode co (Some input) flags = Ret (Some out, co') ->
  (length out <= ucnv_getMinCharSize icu (conv_ co) * length input)%nat.
Proof.
  unfold Decode. set (limit := (_ * _)%nat). rewrite negb_involutive.
  pose proof (units_fit (conv_ co) limit input (Z.land flags CONVERTER_FLAGS_STREAM =? 0)) as Hfit.
  destruct (ucnv_toUnicode _ _ _ _ _) as [[units failed] c]. destruct failed; [done|]. cbn in Hfit.
  destruct (ignore_bom co); [by intros [= <- _]|]. intros (u & _ & [= <- _])%outcome_bind_inv.
  destruct (u =? 0xFEFF); [rewrite length_drop; lia|done].
Qed.

(** ** Through a snapshot *)

Definition converters (l : list (nat * holder)) : list nat :=
  omap (fun '(i, h) => match kSlot h with Some (NConverter _) => Some i | _ => None end) l.

Lemma restore_fields_queue (hp : heap) l : forall q,
  (forall i h, (i, h) ∈ l -> hp !! i = Some (bare h)) ->
  restore_fields hp q l =
  Ret (hp, q ++ ((fun i => (i, 0%nat)) <$> converters l)).
Proof.
  induction l as [|[i h] l IH]; intros q Hl; [cbn; by rewrite app_nil_r|].
  assert (Hi : hp !! i = Some (bare h)) by (apply Hl; by left).
  assert (Hrest : forall i h, (i, h) ∈ l -> hp !! i = Some (bare h)) by (intros; apply Hl; by right).
  unfold converters in *. cbn [restore_fields omap list_omap]. unfold SerializeAworkerInternalFields.
  destruct (kSlot h) as [[co|]|]; cbn [DeserializeAworkerInternalFields ConverterObject_Serialize Nat.eqb negb];
    rewrite outcome_bind_ret.
  - rewrite IH by done. unfold EnqueueDeserializeRequest. by rewrite <-app_assoc.
  - rewrite alter_id by (intros h' Hh'; rewrite Hi in Hh'; by simplify_eq). by rewrite IH.
  - rewrite alter_id by (intros h' Hh'; rewrite Hi in Hh'; by simplify_eq). by rewrite IH.
Qed.

Definition openable (hp : heap) (i : nat) : Prop := exists h c, hp !! i = Some h /\ ucnv_open icu (name_field h) = Some c.

Definition reopened (h : holder) : holder :=
  match ucnv_open icu (name_field h) with
  | Some c => mkHolder (Some (NConverter (mkConverter (name_field h) c CONVERTER_FLAGS_NONE))) (name_field h)
  | None => h
  end.

Lemma reopen_request hp i : openable hp i ->
  ConverterObject_Deserialize hp (i, 0%nat) = Ret (alter reopened i hp).
Proof.
  intros (h & c & Hh & Hc). unfold ConverterObject_Deserialize. cbn [Nat.eqb negb]. rewrite Hh, Hc. f_equal.
  apply map_eq. intros j. destruct (decide (i = j)) as [<-|Hne].
  - rewrite lookup_insert_eq, lookup_alter_eq, Hh. cbn. unfold reopened. by rewrite Hc.
  - by rewrite lookup_insert_ne, lookup_alter_ne.
Qed.

Lemma openable_alter hp i j : openable hp i -> openable (alter reopened j hp) i.
Proof.
  intros (h & c & Hh & Hc). destruct (decide (j = i)) as [->|Hne].
  - exists (reopened h), c. rewrite lookup_alter_eq, Hh. split; [done|]. unfold reopened. by rewrite Hc.
  - exists h, c. by rewrite lookup_alter_ne.
Qed.

Lemma run_requests ids : forall hp, NoDup ids -> Forall (openable hp) ids ->
  exists hp', RunDeserializeRequests hp ((fun i => (i, 0%nat)) <$> ids) = Ret hp' /\
    forall i, hp' !! i = (if decide (i ∈ ids) then reopened <$> hp !! i else hp !! i).
Proof.
  induction ids as [|i ids IH]; intros hp Hnd Ho.
  { exists hp. split; [done|]. intros i. by rewrite decide_False by (by intros ?%elem_of_nil). }
  apply NoDup_cons in Hnd as [Hi Hnd]. apply Forall_cons in Ho as [Hoi Ho].
  destruct (IH (alter reopened i hp) Hnd) as (hp' & E & Hl).
  { eapply Forall_impl; [exact Ho|]. intros j. apply openable_alter. }
  exists hp'. rewrite fmap_cons. cbn [RunDeserializeRequests]. rewrite reopen_request, outcome_bind_ret by done.
  split; [done|]. intros j. rewrite Hl. destruct (decide (j = i)) as [->|Hne].
  - rewrite decide_False by done. rewrite decide_True by (by left). by rewrite lookup_alter_eq.
  - rewrite lookup_alter_ne by done. by rewrite (decide_ext (j ∈ ids) (j ∈ i :: ids)) by set_solver.
Qed.

Lemma elem_of_converters l i : i ∈ converters l <-> exists h co, (i, h) ∈ l /\ kSlot h = Some (NConverter co).
Proof.
  unfold converters. rewrite list_elem_of_omap. split.
  - intros ([j h] & Hin & Hs). destruct (kSlot h) as [[co|]|] eqn:E; simplify_eq. eauto.
  - intros (h & co & Hin & Hs). exists (i, h). by rewrite Hs.
Qed.

Lemma NoDup_converters l : NoDup l.*1 -> NoDup (converters l).
Proof.
  unfold converters. induction l as [|[i h] l IH]; [done|]. rewrite fmap_cons. intros [Hi Hnd]%NoDup_cons.
  cbn [omap list_omap]. destruct (kSlot h) as [[co|]|]; [|by apply IH..]. apply NoDup_cons. split; [|by apply IH].
  intros (h' & co' & Hin & _)%elem_of_converters. apply Hi, list_elem_of_fmap. by exists (i, h').
Qed.

Lemma restore_objects hp order : order ≡ₚ map_to_list hp ->
  (forall i h co, hp !! i = Some h -> kSlot h = Some (NConverter co) -> is_Some (ucnv_open icu (name_field h))) ->
  exists hp', restore hp order = Ret hp' /\ forall i, hp' !! i = hp !! i ≫= restored_object.
Proof.
  intros Hp Ho. assert (Hin : forall i h, (i, h) ∈ order <-> hp !! i = Some h).
  { intros i h. by rewrite Hp, elem_of_map_to_list. }
  unfold restore. rewrite restore_fields_queue, outcome_bind_ret.
  2:{ intros i h Hi. apply Hin in Hi. by rewrite lookup_fmap, Hi. }
  cbn [app]. destruct (run_requests (converters order) (bare <$> hp)) as (hp' & E & Hl).
  - apply NoDup_converters. rewrite Hp. apply NoDup_fst_map_to_list.
  - apply Forall_forall. intros i (h & co & Hi & Hs)%elem_of_converters. apply Hin in Hi.
    destruct (Ho i h co Hi Hs) as [c Hc]. exists (bare h), c. by rewrite lookup_fmap, Hi.
  - exists hp'. split; [done|]. intros i. rewrite Hl, lookup_fmap. destruct (hp !! i) as [h|] eqn:Hi.
    2:{ by destruct (decide _). }
    cbn. unfold restored_object. destruct (decide _) as [(h' & co & Hi' & Hs)%elem_of_converters|Hn].
    + apply Hin in Hi'. simplify_eq. rewrite Hs. destruct (Ho i h co Hi Hs) as [c Hc]. unfold reopened. cbn. by rewrite Hc.
    + destruct (kSlot h) as [[co|]|] eqn:Hs; [|done..]. destruct Hn. apply elem_of_converters.
      exists h, co. by rewrite Hin.
Qed.

(** Objects through a snapshot: in whatever order V8 visits them, restoring a context calls
    back once for each converter and ends; every object that had a converter has one again,
    opened under the name the object keeps, and every other object has no native part. *)
Theorem objects_restored (hp : gmap nat holder) (order : list (nat * holder)) : order ≡ₚ map_to_list hp ->
  (forall i h co, hp !! i = Some h -> kSlot h = Some (NConverter co) -> is_Some (ucnv_open icu (name_field h))) ->
  exists hp', restore hp order = Ret hp' /\ forall i, hp' !! i = hp !! i ≫= restored_object.
Proof. apply restore_objects. Qed.

(** A converter that was asked to be fatal comes back as one that was not: what is restored is
    what [New] makes of the name with no flags at all. *)
Theorem restored_converter_not_fatal (name : bytes) (flags : Z) (co : ConverterObject) :
  New name flags = Some co ->
  exists co', restored_object (mkHolder (Some (NConverter co)) name) = Some (mkHolder (Some (NConverter co')) name) /\
    New name CONVERTER_FLAGS_NONE = Some co'.
Proof.
  unfold New, restored_object. cbn [kSlot name_field]. destruct (ucnv_open icu name) as [c|] eqn:E; [|done]. intros _.
  eexists. split; [done|]. change (Z.land CONVERTER_FLAGS_NONE _ =? _) with false. by rewrite (opened_substitutes name c E).
Qed.
End converter.

(** * Encoders *)

(** What is used of V8's strings: the length as UTF-8, and writing into at most the room there
    is, none when it is negative: the units read and the bytes. *)
Record Strings := mkStrings {
  str : Type;
  Utf8Length : str -> nat;
  WriteUtf8 : str -> option nat -> nat * bytes }.

Class StringsLaws (v8 : Strings) := {
  written_fits : forall s n, (length (WriteUtf8 v8 s (Some n)).2 <= n)%nat;
  whole_length : forall s, length (WriteUtf8 v8 s None).2 = Utf8Length v8 s }.

Section encoders.
Context (v8 : Strings) {laws : StringsLaws v8}.

(** [src/src/binding/internal/aworker_i18n.cc 188-216, EncodeIntoUtf8] The view starts at
    [offset] in [buffer] and is [dest_length] bytes long; the new contents, and the two results. *)
Definition EncodeIntoUtf8 (s : str v8) (buffer : bytes) (offset dest_length : nat) : outcome (bytes * (Z * Z)) :=
  let '(nchars, written) := WriteUtf8 v8 s (Some dest_length) in
  if (offset + length written <=? length buffer)%nat then
    Ret (take offset buffer ++ written ++ drop (offset + length written) buffer,
         (u32 (Z.of_nat nchars), u32 (Z.of_nat (length written))))
  else Fault OutOfBounds.

(** [src/src/binding/internal/aworker_i18n.cc 218-236, EncodeUtf8] *)
Definition EncodeUtf8 (s : str v8) : outcome bytes :=
  let length_ := Utf8Length v8 s in
  let '(_, written) := WriteUtf8 v8 s None in
  if (length written <=? length_)%nat then Ret (written ++ replicate (length_ - length written) x00)
  else Fault OutOfBounds.

(** Encoding never writes outside the view, leaves the bytes before and behind it, and a whole
    string fills its buffer. *)
Theorem encode_into_view (s : str v8) (before view after : bytes) :
  exists nchars written,
    WriteUtf8 v8 s (Some (length view)) = (nchars, written) /\
    EncodeIntoUtf8 s (before ++ view ++ after) (length before) (length view) =
      Ret (before ++ written ++ drop (length written) view ++ after,
           (u32 (Z.of_nat nchars), u32 (Z.of_nat (length written)))).
Proof.
  unfold EncodeIntoUtf8. pose proof (written_fits s (length view)) as Hfit.
  destruct (WriteUtf8 v8 s (Some (length view))) as [nchars written]. cbn in Hfit. exists nchars, written. split; [done|].
  rewrite (proj2 (Nat.leb_le _ _)) by (rewrite !length_app; lia). rewrite take_app_length, <-drop_drop, drop_app_length.
  by rewrite drop_app_le by lia.
Qed.

Theorem encode_whole (s : str v8) : EncodeUtf8 s = Ret (WriteUtf8 v8 s None).2.
Proof.
  unfold EncodeUtf8. pose proof (whole_length s) as Hl. destruct (WriteUtf8 v8 s None) as [n written]. cbn in *.
  rewrite <-Hl, Nat.leb_refl, Nat.sub_diag. by rewrite app_nil_r.
Qed.
End encoders.

(** * Examples *)

(** A converter of plain ASCII. *)
Definition ascii_units (input : bytes) : list Z := (fun b => if bval b <? 128 then bval b else 0xFFFD) <$> input.

Definition ascii : ICU := {|
  uconv := bool;
  ucnv_open name := if bool_decide (name = bs "us-ascii") then Some false else None;
  ucnv_setToUCallBack _ stop := stop;
  ucnv_getMinCharSize _ := 1%nat;
  ucnv_toUnicode stop limit input _ :=
    if (stop && existsb (fun b => 128 <=? bval b) input)%bool then (([], true), stop)
    else ((take limit (ascii_units input), false), stop);
  ucnv_resetToUnicode c := c |}.

#[export] Instance ascii_laws : ICULaws ascii.
Proof.
  split.
  - intros c limit input flush. cbn. destruct (andb _ _); cbn; [lia|]. rewrite length_take. lia.
  - intros name c. cbn. case_bool_decide; by intros [= <-].
  - intros c limit input flush. cbn. destruct (andb _ _); cbn; [done|]. apply Forall_take, Forall_fmap, Forall_forall.
    intros b _. cbn. pose proof (bval_range b). destruct (bval b <? 128); lia.
Qed.

(** A fatal converter refuses what it does not know; after a snapshot it does not. *)
Example fatal_lost :
  exists co co',
    New ascii (bs "us-ascii") CONVERTER_FLAGS_FATAL = Some co /\
    restored_object ascii (mkHolder ascii (Some (NConverter ascii co)) (bs "us-ascii")) =
      Some (mkHolder ascii (Some (NConverter ascii co')) (bs "us-ascii")) /\
    fst <$> Decode ascii co (Some [xff]) 0 = Ret None /\
    fst <$> Decode ascii co' (Some [xff]) 0 = Ret (Some [0xFFFD]).
Proof. eexists _, _. by split_and!. Qed.

(** A converter of UTF-16, high byte first, which keeps a byte that has no partner yet. *)
Fixpoint pairs (pending : option byte) (input : bytes) : list Z * option byte :=
  match input with
  | [] => ([], pending)
  | b :: input =>
      match pending with
      | None => pairs (Some b) input
      | Some a => let '(us, p) := pairs None input in (256 * bval a + bval b :: us, p)
      end
  end.

Definition utf16be : ICU := {|
  uconv := bool * option byte;
  ucnv_open name := if bool_decide (name = bs "utf-16be") then Some (false, None) else None;
  ucnv_setToUCallBack c stop := (stop, c.2);
  ucnv_getMinCharSize _ := 2%nat;
  ucnv_toUnicode c limit input flush :=
    let '(us, p) := pairs c.2 input in ((take limit us, false), (c.1, if flush then None else p));
  ucnv_resetToUnicode c := (c.1, None) |}.

Lemma pairs_units input : forall p, Forall (fun u => 0 <= u < 2 ^ 16) (pairs p input).1.
Proof.
  induction input as [|b input IH]; intros p; [constructor|]. cbn. destruct p as [a|]; [|apply IH].
  specialize (IH None). destruct (pairs None input). cbn in *. constructor; [|done].
  pose proof (bval_range a). pose proof (bval_range b). lia.
Qed.

#[export] Instance utf16be_laws : ICULaws utf16be.
Proof.
  split.
  - intros c limit input flush. cbn. destruct (pairs c.2 input). cbn. rewrite length_take. lia.
  - intros name c. cbn. case_bool_decide; by intros [= <-].
  - intros c limit input flush. cbn. pose proof (pairs_units input c.2). destruct (pairs c.2 input). by apply Forall_take.
Qed.

Lemma decode_drops_every_mark_witness :
  exists co co', New utf16be (bs "utf-16be") CONVERTER_FLAGS_IGNORE_BOM = Some co /\
    reachable utf16be co' /\
    Decode utf16be co (Some [xfe; xff; x00; x41]) 0 = Ret (Some [65], co').
Proof.
  eexists.
  destruct (decode_drops_every_mark utf16be (mkConverter utf16be (bs "utf-16be") (false, None) 0) [xfe; xff; x00; x41] 0
              0xFEFF [65] (false, None)) as (co' & Hr & Hd).
  - eapply (made utf16be (bs "utf-16be") CONVERTER_FLAGS_IGNORE_BOM). reflexivity.
  - reflexivity.
  - exists co'. split_and!; [reflexivity|exact Hr|exact Hd].
Defined.

(** The first byte of a character, alone. *)
Example half_a_character :
  forall co, New utf16be (bs "utf-16be") 0 = Some co ->
  Decode utf16be co (Some [x00]) CONVERTER_FLAGS_STREAM = Fault Uninitialised.
Proof. intros co H. by injection H as <-. Qed.

Definition ab : ResizableBuffer := mkBuffer (Some [Some x61; Some x62]) 2.

Lemma buffer_is_its_sequence_witness :
  Forall use_ok [UConcat ab 2; UPrepend ab 1; URealloc 2; UConcat ab 1] /\
  exists b, run_uses empty_buffer [UConcat ab 2; UPrepend ab 1; URealloc 2; UConcat ab 1] = Ret b /\ buffer_ok b /\
    contents b = [Some x61; Some x61; Some x61].
Proof.
  assert (H : Forall use_ok [UConcat ab 2; UPrepend ab 1; URealloc 2; UConcat ab 1]).
  { repeat constructor. }
  split; [exact H|]. apply (buffer_is_its_sequence _ H).
Defined.

Definition example_heap : gmap nat (holder ascii) :=
  {[ 1%nat := mkHolder ascii (Some (NConverter ascii (mkConverter ascii (bs "us-ascii") true 0))) (bs "us-ascii");
     2%nat := mkHolder ascii (Some (NPlain ascii)) [] ]}.

Lemma objects_restored_witness :
  exists hp', restore ascii example_heap (map_to_list example_heap) = Ret hp' /\
    forall i, hp' !! i = example_heap !! i ≫= restored_object ascii.
Proof.
  apply (objects_restored ascii example_heap (map_to_list example_heap)); [reflexivity|].
  intros i h co. unfold example_heap. rewrite lookup_insert_Some, lookup_singleton_Some.
  intros [[_ <-]|[_ [_ <-]]] Hs; [by eexists|done].
Defined.
