(* ===== verification/ZeroCopyStream.v ===== *)
(** src/src/zero_copy_file_stream.{h,cc}: files as protobuf zero-copy streams.

    The file system is reached through asynchronous requests of the loop: a read
    returns some bytes at an offset, a write request [in_flight] completes with
    the number of bytes written at its offset.  [file] is what the descriptor
    refers to.  Every theorem holds for any page size; the code's is 65536. *)

From S2P Require Import Prelude.

Section streams.
Context (MAX_PIPE_PAGE : nat).

(** [src/src/zero_copy_file_stream.h 15-36, ZeroCopyStreamBuf] *)
Record ZeroCopyStreamBuf := mkBuf { buf_data : bytes; len : nat; written : nat }.

(** * Output *)

(** [src/src/zero_copy_file_stream.h 100-110, UvZeroCopyOutputFileStream]
    [idle_started] and [in_flight] are the callbacks the loop will make; [file]
    the contents of the file, [closed] and [ended] count the closes of the
    descriptor and the calls of [on_end_]. *)
Record Output := mkOutput {
  queue_ : list ZeroCopyStreamBuf;
  written_count_ : nat;
  waiting_for_write_ : bool;
  waiting_for_dispose_ : bool;
  idle_started : bool;
  in_flight : option (bytes * nat);
  file : bytes;
  closed : nat;
  ended : nat }.

(** [src/src/zero_copy_file_stream.cc 134-151, UvZeroCopyOutputFileStream::Create]
    The file is unlinked and created, so it is empty. *)
Definition Output_create : Output := mkOutput [] 0 false false false None [] 0 0.

(** [src/src/zero_copy_file_stream.cc 246-255, UvZeroCopyOutputFileStream::set_writing_for_write] *)
Definition set_writing_for_write (o : Output) (it : bool) : Output :=
  if Bool.eqb (waiting_for_write_ o) it then o
  else mkOutput (queue_ o) (written_count_ o) it (waiting_for_dispose_ o)
         (if it then true else idle_started o) (in_flight o) (file o) (closed o) (ended o).

(** [src/src/zero_copy_file_stream.cc 215-227, UvZeroCopyOutputFileStream::Next]
    [fill] is what the caller stores into the page it is given. *)
Definition Next_out (o : Output) (fill : bytes) : outcome Output :=
  CHECK (negb (waiting_for_dispose_ o)) ;;
  let o := mkOutput (queue_ o ++ [mkBuf fill MAX_PIPE_PAGE 0]) (written_count_ o) (waiting_for_write_ o)
             (waiting_for_dispose_ o) (idle_started o) (in_flight o) (file o) (closed o) (ended o) in
  Ret (set_writing_for_write o true).

(** [src/src/zero_copy_file_stream.cc 229-233, UvZeroCopyOutputFileStream::BackUp]
    [back()] of an empty list is undefined. *)
Definition BackUp_out (o : Output) (count : nat) : outcome Output :=
  match last (queue_ o) with
  | None => Fault OutOfBounds
  | Some b =>
      CHECK (bool_decide (written b = 0%nat)) ;;
      Ret (mkOutput (take (length (queue_ o) - 1) (queue_ o) ++ [mkBuf (buf_data b) (len b - count) (written b)])
             (written_count_ o) (waiting_for_write_ o) (waiting_for_dispose_ o) (idle_started o)
             (in_flight o) (file o) (closed o) (ended o))
  end.

(** What a buffer still has to write. *)
Definition remaining (b : ZeroCopyStreamBuf) : bytes := drop (written b) (take (len b) (buf_data b)).

(** [src/src/zero_copy_file_stream.cc 188-193, UvZeroCopyOutputFileStream::WriteNext] *)
Definition WriteNext (o : Output) : outcome Output :=
  match queue_ o with
  | [] => Fault OutOfBounds
  | b :: _ =>
      Ret (mkOutput (queue_ o) (written_count_ o) (waiting_for_write_ o) (waiting_for_dispose_ o)
             (idle_started o) (Some (remaining b, written_count_ o)) (file o) (closed o) (ended o))
  end.

(** [src/src/zero_copy_file_stream.cc 239-244, UvZeroCopyOutputFileStream::IdleCb] *)
Definition IdleCb (o : Output) : outcome Output :=
  o ← WriteNext o;
  Ret (mkOutput (queue_ o) (written_count_ o) (waiting_for_write_ o) (waiting_for_dispose_ o)
         false (in_flight o) (file o) (closed o) (ended o)).

(** Closing the descriptor and reporting the end. *)
Definition finish (o : Output) : Output :=
  mkOutput (queue_ o) (written_count_ o) (waiting_for_write_ o) (waiting_for_dispose_ o)
    (idle_started o) (in_flight o) (file o) (closed o + 1) (ended o + 1).

(** [src/src/zero_copy_file_stream.cc 120-132, UvZeroCopyOutputFileStream::DisposeAndDelete] *)
Definition DisposeAndDelete (o : Output) : Output :=
  let o := mkOutput (queue_ o) (written_count_ o) (waiting_for_write_ o) true
             (idle_started o) (in_flight o) (file o) (closed o) (ended o) in
  if waiting_for_write_ o then o else finish o.

(** A write request that completes with [n] bytes stores them at its offset. *)
Definition write_at (f : bytes) (off : nat) (d : bytes) : bytes :=
  take off f ++ d ++ drop (off + length d) f.

(** [src/src/zero_copy_file_stream.cc 153-186, UvZeroCopyOutputFileStream::WriteCb]
    [result] is the request's result: a count, or negative for an error, which is
    only logged. *)
Definition WriteCb (o : Output) (result : Z) : outcome Output :=
  match in_flight o with
  | None => Ret o
  | Some (d, off) =>
      if result <? 0 then
        Ret (mkOutput (queue_ o) (written_count_ o) (waiting_for_write_ o) (waiting_for_dispose_ o)
               (idle_started o) None (file o) (closed o) (ended o))
      else
        let nwrite := Z.to_nat result in
        let f := write_at (file o) off (take nwrite d) in
        match queue_ o with
        | [] => Fault OutOfBounds
        | b :: q =>
            let b := mkBuf (buf_data b) (len b) (written b + nwrite) in
            let queue := if (written b =? len b)%nat then q else b :: q in
            let o := mkOutput queue (written_count_ o + nwrite) (waiting_for_write_ o)
                       (waiting_for_dispose_ o) (idle_started o) None f (closed o) (ended o) in
            match queue with
            | _ :: _ => WriteNext o
            | [] =>
                let o := set_writing_for_write o false in
                Ret (if waiting_for_dispose_ o then finish o else o)
            end
        end
  end.

(** ** Events *)

(** A synchronous use of the stream: pages and, at the end, a [BackUp] (what
    protobuf's writers do), the callbacks of the loop, and the release. *)
Inductive OEvent :=
  | OWrite (pages : list bytes) (backup : nat)
  | OIdle
  | OWritten (result : Z)
  | ODispose.

Fixpoint next_pages (o : Output) (pages : list bytes) : outcome Output :=
  match pages with [] => Ret o | p :: pages' => o ← Next_out o p; next_pages o pages' end.

Definition ostep (o : Output) (e : OEvent) : outcome Output :=
  match e with
  | OWrite pages backup => o ← next_pages o pages; BackUp_out o backup
  | OIdle => if idle_started o then IdleCb o else Ret o
  | OWritten r => WriteCb o r
  | ODispose => Ret (DisposeAndDelete o)
  end.

(** The bytes a write event hands over. *)
Definition payload (pages : list bytes) (backup : nat) : bytes :=
  take (length (mjoin pages) - backup) (mjoin pages).

(** What the environment promises: full pages, a [BackUp] of at most the last
    page, no use after the release and one release, and writes that complete with
    a count within the request (progress for a nonempty one). *)
Definition oallowed (o : Output) (e : OEvent) : Prop :=
  match e with
  | OWrite pages backup =>
      waiting_for_dispose_ o = false /\ pages <> [] /\
      Forall (fun p => length p = MAX_PIPE_PAGE) pages /\ (backup <= MAX_PIPE_PAGE)%nat
  | OWritten r => forall d off, in_flight o = Some (d, off) ->
      0 <= r <= Z.of_nat (length d) /\ (d <> [] -> 0 < r)
  | ODispose => waiting_for_dispose_ o = false
  | OIdle => True
  end.

(** ** Invariant *)

Definition pending (o : Output) : bytes := queue_ o ≫= remaining.

Definition buf_ok (b : ZeroCopyStreamBuf) : Prop :=
  (written b <= len b)%nat /\ (len b <= length (buf_data b))%nat.

Record output_inv (o : Output) (expected : bytes) : Prop := {
  oi_bytes : file o ++ pending o = expected;
  oi_count : written_count_ o = length (file o);
  oi_bufs : Forall buf_ok (queue_ o);
  oi_wait : waiting_for_write_ o = match queue_ o with [] => false | _ => true end;
  oi_flight : match in_flight o with
              | Some (d, off) => idle_started o = false /\ off = written_count_ o /\
                  exists b q, queue_ o = b :: q /\ d = remaining b
              | None => idle_started o = waiting_for_write_ o
              end;
  oi_end : closed o = ended o /\
    ended o = if (waiting_for_dispose_ o && negb (waiting_for_write_ o))%bool then 1%nat else 0%nat }.

Lemma write_at_end f d : write_at f (length f) d = f ++ d.
Proof. unfold write_at. rewrite take_ge by done. rewrite drop_ge by lia. by rewrite app_nil_r. Qed.

Lemma Next_out_inv o exp p :
  output_inv o exp -> waiting_for_dispose_ o = false -> length p = MAX_PIPE_PAGE ->
  exists o', Next_out o p = Ret o' /\ output_inv o' (exp ++ p) /\ waiting_for_dispose_ o' = false /\
    queue_ o' = queue_ o ++ [mkBuf p MAX_PIPE_PAGE 0] /\ in_flight o' = in_flight o.
Proof.
  intros [H1 H2 H3 H4 H5 H6] Hd Hp. unfold Next_out. rewrite Hd. simpl.
  eexists. split; [done|]. unfold set_writing_for_write. simpl.
  assert (Hpend : (queue_ o ++ [mkBuf p MAX_PIPE_PAGE 0]) ≫= remaining = pending o ++ p).
  { rewrite bind_app. f_equal. simpl. unfold remaining. simpl.
    by rewrite drop_0, take_ge, app_nil_r by lia. }
  assert (Hbufs : Forall buf_ok (queue_ o ++ [mkBuf p MAX_PIPE_PAGE 0])).
  { apply Forall_app. split; [done|]. constructor; [|done]. split; simpl; lia. }
  rewrite Hd in H6.
  destruct (waiting_for_write_ o) eqn:Ew; simpl.
  - split_and!; [|done..]. split; simpl; rewrite ?Ew; try done.
    + unfold pending. simpl. by rewrite Hpend, app_assoc, H1.
    + by destruct (queue_ o).
    + destruct (in_flight o) as [[d off]|]; [|done].
      destruct H5 as (? & ? & b & q & Hq & ?). split_and!; try done.
      exists b, (q ++ [mkBuf p MAX_PIPE_PAGE 0]). by rewrite Hq.
  - destruct (queue_ o) eqn:Eq; [|done]. split_and!; [|done..]. split; simpl; try done.
    + unfold pending in *. simpl in *. by rewrite Hpend, app_assoc, H1.
    + destruct (in_flight o) as [[d off]|]; [|done]. by destruct H5 as (? & ? & b & q & ? & ?).
Qed.

Lemma next_pages_inv pages : forall o exp,
  output_inv o exp -> waiting_for_dispose_ o = false ->
  Forall (fun p => length p = MAX_PIPE_PAGE) pages ->
  exists o', next_pages o pages = Ret o' /\ output_inv o' (exp ++ mjoin pages) /\
    waiting_for_dispose_ o' = false /\
    queue_ o' = queue_ o ++ ((fun p => mkBuf p MAX_PIPE_PAGE 0) <$> pages) /\
    in_flight o' = in_flight o.
Proof.
  induction pages as [|p pages IH]; intros o exp Hinv Hd Hp; simpl.
  - rewrite !app_nil_r. by exists o.
  - apply Forall_cons in Hp as [Hp Hps].
    destruct (Next_out_inv o exp p Hinv Hd Hp) as (o1 & -> & Hinv1 & Hd1 & Hq1 & Hf1). simpl.
    destruct (IH o1 _ Hinv1 Hd1 Hps) as (o2 & -> & Hinv2 & Hd2 & Hq2 & Hf2).
    exists o2. split_and!; [done| |done| |congruence].
    + by rewrite <- app_assoc in Hinv2.
    + rewrite Hq2, Hq1. by rewrite <- app_assoc.
Qed.

(** [BackUp] right after [Next]: the last page is neither written nor being
    written unless it is the only one, and then it has not been requested. *)
Lemma BackUp_out_inv o exp q p backup :
  output_inv o exp -> queue_ o = q ++ [mkBuf p MAX_PIPE_PAGE 0] -> length p = MAX_PIPE_PAGE ->
  (backup <= MAX_PIPE_PAGE)%nat -> (q = [] -> in_flight o = None) ->
  exists o', BackUp_out o backup = Ret o' /\ waiting_for_dispose_ o' = waiting_for_dispose_ o /\
    output_inv o' (take (length exp - backup) exp).
Proof.
  intros [H1 H2 H3 H4 H5 H6] Hq Hp Hb Hfl. unfold BackUp_out.
  rewrite Hq, last_snoc. simpl. eexists. split; [done|]. split; [done|].
  rewrite length_app. simpl.
  rewrite (take_app_exact q [mkBuf p MAX_PIPE_PAGE 0]) by lia.
  rewrite Hq in H3, H4. apply Forall_app in H3 as [H3 _]. split; simpl; try done.
  - assert (Hexp : exp = (file o ++ (q ≫= remaining)) ++ p).
    { rewrite <- H1. unfold pending. rewrite Hq, bind_app. simpl. unfold remaining at 2. simpl.
      rewrite drop_0, take_ge, app_nil_r by lia. by rewrite app_assoc. }
    unfold pending. simpl. rewrite bind_app. simpl. unfold remaining at 2. simpl.
    rewrite drop_0, app_nil_r, Hexp, length_app, Hp, app_assoc.
    rewrite take_app_ge by lia. f_equal. f_equal. lia.
  - apply Forall_app. split; [done|]. constructor; [|done]. split; simpl; lia.
  - destruct q; simpl in *; done.
  - destruct (in_flight o) as [[d off]|] eqn:Ef; [|done].
    destruct q as [|b q]; [by specialize (Hfl eq_refl)|].
    destruct H5 as (? & ? & b' & q' & Hq' & ?). split_and!; try done.
    rewrite Hq in Hq'. simpl in Hq'. simplify_eq. eauto.
Qed.

Lemma IdleCb_inv o exp :
  output_inv o exp -> idle_started o = true ->
  exists o', IdleCb o = Ret o' /\ output_inv o' exp /\ waiting_for_dispose_ o' = waiting_for_dispose_ o.
Proof.
  intros [H1 H2 H3 H4 H5 H6] Hi. unfold IdleCb, WriteNext.
  destruct (in_flight o) as [[d off]|] eqn:Ef; [destruct H5 as (H5 & _); congruence|].
  destruct (queue_ o) as [|b q] eqn:Eq; [congruence|]. simpl.
  eexists. split; [done|]. split; [|done]. unfold pending in *. split; simpl; try done; eauto 6.
  unfold pending. cbn [queue_]. by rewrite <- Eq.
Qed.

Lemma remaining_take b n :
  (n <= length (remaining b))%nat ->
  remaining b = take n (remaining b) ++ remaining (mkBuf (buf_data b) (len b) (written b + n)).
Proof.
  intros Hn. unfold remaining. simpl. rewrite <- (take_drop n (drop (written b) _)) at 1.
  by rewrite drop_drop.
Qed.

Lemma length_remaining b : buf_ok b -> length (remaining b) = (len b - written b)%nat.
Proof. intros [? ?]. unfold remaining. rewrite length_drop, length_take. lia. Qed.

Lemma WriteCb_inv o exp r :
  output_inv o exp -> oallowed o (OWritten r) ->
  exists o', WriteCb o r = Ret o' /\ output_inv o' exp /\ waiting_for_dispose_ o' = waiting_for_dispose_ o.
Proof.
  intros Hinv Ha. destruct Hinv as [H1 H2 H3 H4 H5 H6]. unfold WriteCb. simpl in Ha.
  destruct (in_flight o) as [[d off]|] eqn:Ef; [|exists o; split_and!; try done; split; rewrite ?Ef; done].
  destruct H5 as (Hidle & -> & b & q & Hq & ->). destruct (Ha _ _ eq_refl) as [Hr _].
  rewrite (proj2 (Z.ltb_ge _ _)) by lia. rewrite Hq in *.
  apply Forall_cons in H3 as [Hb H3]. pose proof (length_remaining b Hb) as Hlen.
  set (n := Z.to_nat r). assert (Hn : (n <= length (remaining b))%nat) by lia.
  assert (Hfile : write_at (file o) (written_count_ o) (take n (remaining b))
                  = file o ++ take n (remaining b)) by (by rewrite H2, write_at_end).
  rewrite Hfile. simpl.
  assert (Hcount : (written_count_ o + n)%nat = length (file o ++ take n (remaining b))).
  { rewrite length_app, length_take. lia. }
  set (b' := mkBuf (buf_data b) (len b) (written b + n)).
  assert (Hbytes : (file o ++ take n (remaining b)) ++ remaining b' ++ (q ≫= remaining) = exp).
  { rewrite <- H1. unfold pending. rewrite Hq. simpl. rewrite (remaining_take b n Hn) at 2.
    fold b'. by rewrite <- !app_assoc. }
  assert (Hb' : buf_ok b') by (destruct Hb; split; simpl; lia).
  destruct (Nat.eqb_spec (written b + n) (len b)) as [He|He].
  - assert (Hnil : remaining b' = []).
    { apply nil_length_inv. rewrite length_remaining by done. simpl. lia. }
    rewrite Hnil in Hbytes. simpl in Hbytes.
    destruct q as [|b2 q].
    + unfold set_writing_for_write. simpl. rewrite H4. simpl. rewrite H4 in H6. rewrite andb_false_r in H6.
      destruct (waiting_for_dispose_ o) eqn:Ed; eexists; (split; [done|]); (split; [|simpl; done]);
        split; simpl; rewrite ?Hidle; try done; simpl in H6; destruct H6 as [-> ->]; done.
    + eexists. split; [done|]. split; [|done]. split; simpl; rewrite ?H4 in *; try done.
      split_and!; eauto.
  - eexists. split; [done|]. split; [|done]. split; simpl; rewrite ?H4 in *; try done.
    + by constructor.
    + split_and!; eauto.
Qed.

Lemma in_flight_queue o exp : output_inv o exp -> queue_ o = [] -> in_flight o = None.
Proof.
  intros [_ _ _ _ H5 _] Hq. destruct (in_flight o) as [[d off]|]; [|done].
  destruct H5 as (_ & _ & b & q & ? & _). congruence.
Qed.

Lemma OWrite_inv o exp pages backup :
  output_inv o exp -> oallowed o (OWrite pages backup) ->
  exists o', ostep o (OWrite pages backup) = Ret o' /\
    output_inv o' (exp ++ payload pages backup) /\ waiting_for_dispose_ o' = false.
Proof.
  intros Hinv (Hd & Hne & Hp & Hb). simpl.
  destruct (next_pages_inv pages o exp Hinv Hd Hp) as (o1 & -> & Hinv1 & Hd1 & Hq1 & Hf1). simpl.
  destruct pages as [|p0 pages0] using rev_ind; [done|]. clear IHpages0.
  rewrite fmap_app in Hq1. simpl in Hq1. rewrite app_assoc in Hq1.
  apply Forall_app in Hp as [_ Hp]. apply Forall_cons in Hp as [Hp _].
  destruct (BackUp_out_inv o1 _ _ p0 backup Hinv1 Hq1 Hp Hb) as (o2 & -> & Hd2 & Hinv2).
  { intros Hnil. apply app_nil in Hnil as [Hnil _]. rewrite Hf1. by eapply in_flight_queue. }
  exists o2. split_and!; [done| |congruence]. unfold payload.
  assert (Hlen : (backup <= length (mjoin (pages0 ++ [p0])))%nat).
  { rewrite join_app, length_app. simpl. rewrite app_nil_r. lia. }
  rewrite length_app in Hinv2. rewrite take_app_ge in Hinv2 by lia.
  replace (length exp + length (mjoin (pages0 ++ [p0])) - backup - length exp)%nat
    with (length (mjoin (pages0 ++ [p0])) - backup)%nat in Hinv2 by lia. done.
Qed.

Definition written_by (e : OEvent) : bytes :=
  match e with OWrite pages backup => payload pages backup | _ => [] end.

Lemma ostep_inv o exp e :
  output_inv o exp -> oallowed o e ->
  exists o', ostep o e = Ret o' /\ output_inv o' (exp ++ written_by e).
Proof.
  intros Hinv Ha. destruct e as [pages backup| |r|]; cbn [written_by]; rewrite ?app_nil_r.
  - destruct (OWrite_inv o exp pages backup Hinv Ha) as (o' & ? & ? & _). eauto.
  - simpl. destruct (idle_started o) eqn:Hi; [|eauto].
    destruct (IdleCb_inv o exp Hinv Hi) as (o' & ? & ? & _). eauto.
  - destruct (WriteCb_inv o exp r Hinv Ha) as (o' & ? & ? & _). eauto.
  - simpl in *. eexists. split; [done|]. destruct Hinv as [H1 H2 H3 H4 H5 H6].
    unfold DisposeAndDelete. simpl. rewrite Ha in H6. simpl in H6. destruct H6 as [Hc He].
    destruct (waiting_for_write_ o) eqn:Ew; split; simpl; rewrite ?Ew; try done; rewrite Hc, He; done.
Qed.

Fixpoint orun (o : Output) (es : list OEvent) : outcome Output :=
  match es with [] => Ret o | e :: es' => o ← ostep o e; orun o es' end.

Fixpoint oall_allowed (o : Output) (es : list OEvent) : Prop :=
  match es with
  | [] => True
  | e :: es' => oallowed o e /\ forall o', ostep o e = Ret o' -> oall_allowed o' es'
  end.

Lemma orun_inv es : forall o exp,
  output_inv o exp -> oall_allowed o es ->
  exists o', orun o es = Ret o' /\ output_inv o' (exp ++ (es ≫= written_by)).
Proof.
  induction es as [|e es IH]; intros o exp Hinv Hall; [simpl; rewrite app_nil_r; eauto|].
  destruct Hall as [Ha Hall]. destruct (ostep_inv o exp e Hinv Ha) as (o1 & Ho1 & Hinv1).
  destruct (IH o1 _ Hinv1 (Hall o1 Ho1)) as (o2 & Ho2 & Hinv2). exists o2.
  cbn [orun]. rewrite Ho1. split; [done|]. by rewrite bind_cons, app_assoc.
Qed.

(** * Input *)

(** [src/src/zero_copy_file_stream.h 61-70, UvZeroCopyInputFileStream] *)
Record Input := mkInput {
  bufs_ : list bytes; read_chunk_idx_ : nat; last_chunk_read_offset_ : Z }.

(** [src/src/zero_copy_file_stream.cc 32-66, UvZeroCopyInputFileStream::ReadCb]
    ReadNext and ReadCb: pages are read at [fs_read_offset_] until a read returns
    nothing; [nread] is what the file system gives for an offset.  [None] is a
    read that failed (the stream is then never delivered). *)
Fixpoint read_pages (nread : nat -> Z) (f : bytes) (fuel : nat) (bufs : list bytes)
    (fs_read_offset_ : nat) : option (list bytes) :=
  match fuel with
  | O => None
  | S fuel' =>
      let n := nread fs_read_offset_ in
      if n <? 0 then None
      else if n =? 0 then Some bufs
      else read_pages nread f fuel' (bufs ++ [take (Z.to_nat n) (drop fs_read_offset_ f)])
             (fs_read_offset_ + Z.to_nat n)
  end.

(** [src/src/zero_copy_file_stream.cc 75-87, UvZeroCopyInputFileStream::Next] *)
Definition Next_in (i : Input) : Input * option bytes :=
  match bufs_ i !! read_chunk_idx_ i with
  | None => (i, None)
  | Some chunk =>
      (mkInput (bufs_ i) (read_chunk_idx_ i + 1) 0,
       Some (drop (Z.to_nat (last_chunk_read_offset_ i)) chunk))
  end.

(** [src/src/zero_copy_file_stream.cc 89-93, UvZeroCopyInputFileStream::BackUp]
    The index is a [size_t]; going below zero ends outside the vector. *)
Definition BackUp_in (i : Input) (count : Z) : outcome Input :=
  match read_chunk_idx_ i with
  | O => Fault OutOfBounds
  | S idx =>
      match bufs_ i !! idx with
      | None => Fault OutOfBounds
      | Some chunk => Ret (mkInput (bufs_ i) idx (Z.of_nat (length chunk) - count))
      end
  end.

(** [src/src/zero_copy_file_stream.cc 97-101, UvZeroCopyInputFileStream::Skip] *)
Fixpoint skip_loop (fuel : nat) (bufs : list bytes) (off : Z) (rem : Z) (idx : nat) : nat :=
  match fuel with
  | O => idx
  | S fuel' =>
      if rem >=? 0 then
        match bufs !! idx with
        | Some chunk => skip_loop fuel' bufs off (rem - (Z.of_nat (length chunk) - off)) (idx + 1)
        | None => idx
        end
      else idx
  end.

(** [src/src/zero_copy_file_stream.cc 95-106, UvZeroCopyInputFileStream::Skip] *)
Definition Skip (i : Input) (count : Z) : Input * bool :=
  let idx := skip_loop (length (bufs_ i)) (bufs_ i) (last_chunk_read_offset_ i) count (read_chunk_idx_ i) in
  (mkInput (bufs_ i) idx (last_chunk_read_offset_ i), negb (idx =? length (bufs_ i))%nat).

(** [src/src/zero_copy_file_stream.cc 108-118, UvZeroCopyInputFileStream::ByteCount]
    The loop reads [bufs_[read_chunk_idx_]] in every pass. *)
Definition ByteCount_in (i : Input) : outcome Z :=
  count ← (if (0 <? read_chunk_idx_ i)%nat then
             match bufs_ i !! read_chunk_idx_ i with
             | Some chunk => Ret (Z.of_nat (read_chunk_idx_ i) * Z.of_nat (length chunk))
             | None => Fault OutOfBounds
             end
           else Ret 0);
  Ret (if ((read_chunk_idx_ i <=? length (bufs_ i))%nat && (0 <? last_chunk_read_offset_ i))%bool
       then count + last_chunk_read_offset_ i else count).

Definition Input_init (bufs : list bytes) : Input := mkInput bufs 0 0.

(** What is still to be read. *)
Definition unread (i : Input) : bytes :=
  drop (Z.to_nat (last_chunk_read_offset_ i)) (mjoin (drop (read_chunk_idx_ i) (bufs_ i))).

(** The offset lies in the chunk that is read next. *)
Definition input_ok (i : Input) : Prop :=
  0 <= last_chunk_read_offset_ i /\
  match bufs_ i !! read_chunk_idx_ i with
  | Some chunk => last_chunk_read_offset_ i <= Z.of_nat (length chunk)
  | None => last_chunk_read_offset_ i = 0 /\ read_chunk_idx_ i = length (bufs_ i)
  end.

Lemma Next_in_spec i :
  input_ok i ->
  match Next_in i with
  | (i', Some d) => unread i = d ++ unread i' /\ input_ok i' /\
      (0 < read_chunk_idx_ i')%nat /\
      exists chunk, bufs_ i' !! (read_chunk_idx_ i' - 1)%nat = Some chunk /\ d = drop (length chunk - length d) chunk
  | (i', None) => i' = i /\ unread i = []
  end.
Proof.
  intros [H0 Hok]. unfold Next_in, unread.
  destruct (bufs_ i !! read_chunk_idx_ i) as [chunk|] eqn:E.
  - rewrite (drop_S _ _ _ E). simpl. rewrite drop_0, Nat.add_1_r.
    split_and!.
    + rewrite drop_app_le by lia. done.
    + split; simpl; [lia|]. rewrite ?Nat.add_1_r. destruct (bufs_ i !! S (read_chunk_idx_ i)) eqn:E'; [lia|].
      split; [done|]. apply lookup_ge_None in E'. apply lookup_lt_Some in E. lia.
    + lia.
    + replace (S (read_chunk_idx_ i) - 1)%nat with (read_chunk_idx_ i) by lia.
      exists chunk. split; [done|]. rewrite length_drop. f_equal. lia.
  - destruct Hok as [-> ->]. by rewrite drop_all.
Qed.

Lemma BackUp_in_spec i d i' count :
  input_ok i -> Next_in i = (i', Some d) -> 0 <= count <= Z.of_nat (length d) ->
  exists i'', BackUp_in i' count = Ret i'' /\ input_ok i'' /\
    unread i'' = drop (length d - Z.to_nat count) d ++ unread i'.
Proof.
  intros Hok Hn Hc. pose proof (Next_in_spec i Hok) as Hs. rewrite Hn in Hs.
  destruct Hs as (_ & [_ Hok'] & Hpos & chunk & Hch & Hd).
  assert (Hoff : last_chunk_read_offset_ i' = 0).
  { unfold Next_in in Hn. destruct (bufs_ i !! read_chunk_idx_ i); simplify_eq. done. }
  assert (Hlen : (length d <= length chunk)%nat) by (rewrite Hd, length_drop; lia).
  unfold BackUp_in. destruct (read_chunk_idx_ i') as [|idx] eqn:Ei; [lia|].
  simpl in Hch. rewrite Nat.sub_0_r in Hch. rewrite Hch. eexists. split; [done|]. split.
  - split; simpl; [lia|]. rewrite Hch. lia.
  - unfold unread. simpl. rewrite (drop_S _ _ _ Hch), Hoff, Ei. simpl. rewrite drop_0.
    rewrite drop_app_le by lia. f_equal. rewrite Hd at 2. rewrite drop_drop.
    f_equal. lia.
Qed.

(** A file system whose reads make progress until the end of the file. *)
Definition reads (nread : nat -> Z) (f : bytes) : Prop := forall off,
  ((off < length f)%nat -> 0 < nread off <= Z.of_nat (Nat.min MAX_PIPE_PAGE (length f - off))) /\
  (off = length f -> nread off = 0).

Lemma read_pages_spec nread f fuel : forall bufs off,
  reads nread f -> (off <= length f)%nat -> (length f - off < fuel)%nat ->
  mjoin bufs = take off f ->
  exists bufs', read_pages nread f fuel bufs off = Some bufs' /\ mjoin bufs' = f.
Proof.
  induction fuel as [|fuel IH]; intros bufs off Hr Hoff Hfuel Hb; [lia|]. simpl.
  destruct (Hr off) as [Hlt Heq]. destruct (decide (off = length f)) as [He|Hne].
  - rewrite (Heq He). simpl. exists bufs. split; [done|]. by rewrite Hb, He, take_ge.
  - destruct Hlt as [Hn1 Hn2]; [lia|].
    rewrite (proj2 (Z.ltb_ge _ _)), (proj2 (Z.eqb_neq _ _)) by lia.
    apply IH; [done|lia|lia|]. rewrite join_app, Hb. simpl. rewrite app_nil_r.
    by rewrite take_take_drop.
Qed.

(** * Properties *)

(** C5 Nothing written to the stream is lost or reordered: over every allowed
    history of synchronous writes, idle callbacks, partial writes and the
    release, no operation faults, the file followed by what is queued is what was
    written; something queued always has a callback pending that will write it;
    and once the stream is released and drained the file is complete, and it has
    been closed and reported exactly once. *)
Theorem output_stream_complete (es : list OEvent) :
  oall_allowed Output_create es ->
  exists o, orun Output_create es = Ret o /\
    file o ++ pending o = es ≫= written_by /\
    (queue_ o <> [] -> idle_started o = true \/ is_Some (in_flight o)) /\
    (waiting_for_dispose_ o = true -> queue_ o = [] ->
       file o = es ≫= written_by /\ closed o = 1%nat /\ ended o = 1%nat) /\
    (waiting_for_dispose_ o = false \/ queue_ o <> [] -> ended o = 0%nat).
Proof.
  intros Hall.
  destruct (orun_inv es Output_create [] ltac:(split; simpl; try done; constructor) Hall)
    as (o & Ho & [H1 H2 H3 H4 H5 [H6 H7]]).
  exists o. simpl in H1. split_and!; [done|done| | |].
  - intros Hq. rewrite H4 in H5. destruct (queue_ o); [done|].
    destruct (in_flight o) as [[d off]|]; [by right; eexists | by left].
  - intros Hd Hq. rewrite H4, Hq, Hd in H7. simpl in H7. split_and!; [|congruence|done].
    unfold pending in H1. rewrite Hq in H1. by rewrite app_nil_r in H1.
  - rewrite H4 in H7. destruct (waiting_for_dispose_ o), (queue_ o); simpl in *; naive_solver.
Qed.

(** A file is read completely: with reads that make progress, the pages
    collected by ReadNext and ReadCb joined together are the file, whatever the
    sizes of the reads, and one pass per byte and one more is enough. *)
Theorem input_stream_reads_file (nread : nat -> Z) (f : bytes) :
  reads nread f ->
  exists bufs, read_pages nread f (S (length f)) [] 0 = Some bufs /\ mjoin bufs = f.
Proof. intros Hr. apply read_pages_spec; [done|lia|lia|done]. Qed.

(** Next and BackUp of the input stream keep the position: Next returns the
    bytes at the position and moves past them, and a BackUp after it moves back by
    exactly the count, so the bytes backed up are read again. *)
Theorem input_next_backup (i : Input) (count : Z) :
  input_ok i ->
  match Next_in i with
  | (i', Some d) =>
      unread i = d ++ unread i' /\ input_ok i' /\
      (0 <= count <= Z.of_nat (length d) ->
       exists i'', BackUp_in i' count = Ret i'' /\ input_ok i'' /\
         unread i'' = drop (length d - Z.to_nat count) d ++ unread i')
  | (i', None) => i' = i /\ unread i = []
  end.
Proof.
  intros Hok. pose proof (Next_in_spec i Hok) as Hs.
  destruct (Next_in i) as [i' [d|]] eqn:En; [|done].
  destruct Hs as (? & ? & _). split_and!; [done..|]. intros Hc. by apply (BackUp_in_spec i).
Qed.

(** ByteCount of the input stream does not count the bytes read: after [k]
    calls of Next it is [k] times the length of the chunk that comes next, and
    after the last chunk it reads past the vector; and a Skip of zero bytes skips
    a whole chunk. *)
Theorem input_bytecount_wrong (bufs : list bytes) (k : nat) (chunk : bytes) :
  (0 < k)%nat ->
  ByteCount_in (mkInput bufs k 0) =
    match bufs !! k with
    | Some c => Ret (Z.of_nat k * Z.of_nat (length c))
    | None => Fault OutOfBounds
    end /\
  (bufs !! 0%nat = Some chunk -> chunk <> [] -> read_chunk_idx_ (Skip (Input_init bufs) 0).1 = 1%nat).
Proof.
  intros Hk. split.
  - unfold ByteCount_in. cbn [bufs_ read_chunk_idx_ last_chunk_read_offset_]. rewrite (proj2 (Nat.ltb_lt _ _)) by lia.
    destruct (bufs !! k); [|done]. cbn [mbind outcome_bind]. by rewrite andb_false_r.
  - intros Hc Hne. destruct bufs as [|c bufs]; [done|]. simpl in Hc. simplify_eq.
    unfold Skip. simpl. destruct bufs as [|c2 bufs]; [done|]. simpl.
    rewrite Z.geb_leb, (proj2 (Z.leb_gt _ _)); [done|]. destruct chunk; [done|]. simpl. lia.
Qed.

End streams.

(** * Witnesses *)

Definition ex_output : list OEvent :=
  [OWrite [[x61; x62; x63]; [x64; x65; x66]] 1; OIdle; OWritten 2; OWrite [[x67; x68; x69]] 3;
   OWritten 1; ODispose; OWritten 2; OWritten 0].

Lemma output_stream_complete_witness :
  exists o, orun 3 Output_create ex_output = Ret o /\
    file o ++ pending o = ex_output ≫= written_by /\
    (queue_ o <> [] -> idle_started o = true \/ is_Some (in_flight o)) /\
    (waiting_for_dispose_ o = true -> queue_ o = [] ->
       file o = ex_output ≫= written_by /\ closed o = 1%nat /\ ended o = 1%nat) /\
    (waiting_for_dispose_ o = false \/ queue_ o <> [] -> ended o = 0%nat).
Proof.
  apply (output_stream_complete 3 ex_output). unfold ex_output.
  repeat match goal with
  | |- oall_allowed _ _ (_ :: _) => split; [|intros o' Ho; vm_compute in Ho; injection Ho as <-]
  | |- oall_allowed _ _ [] => exact I
  | |- oallowed _ _ (OWrite _ _) => split_and!; [reflexivity|discriminate|repeat constructor|lia]
  | |- oallowed _ _ (OWritten _) => intros d off Hd; vm_compute in Hd; try discriminate; injection Hd as <- <-; simpl; split; [lia|intros; congruence || lia]
  | |- oallowed _ _ ODispose => reflexivity
  | |- oallowed _ _ OIdle => exact I
  end.
Defined.

Lemma input_stream_reads_file_witness :
  exists bufs, read_pages (fun off => if (off <? 3)%nat then 1 else 0) [x61; x62; x63] 4 [] 0 = Some bufs /\
    mjoin bufs = [x61; x62; x63].
Proof.
  apply (input_stream_reads_file 2 (fun off => if (off <? 3)%nat then 1 else 0) [x61; x62; x63]).
  intros off. change (length [x61; x62; x63]) with 3%nat. split; [|by intros ->]. intros Hoff.
  rewrite (proj2 (Nat.ltb_lt _ _)) by lia. lia.
Defined.

Lemma input_next_backup_witness :
  unread (Input_init [[x61; x62]; [x63]]) = [x61; x62] ++ unread (mkInput [[x61; x62]; [x63]] 1 0).
Proof.
  apply (input_next_backup (Input_init [[x61; x62]; [x63]]) 1).
  split; simpl; lia.
Defined.

Lemma input_bytecount_wrong_witness :
  ByteCount_in (mkInput [[x61]; [x62; x63]] 2 0) = Fault OutOfBounds.
Proof. apply (input_bytecount_wrong [[x61]; [x62; x63]] 2 [x61]). lia. Defined.
