(* ===== verification/TraceWriter.v ===== *)
(** src/src/tracing/trace_writer.{h,cc}: trace events as JSON files.

    The writer collects events in memory, hands the text to a file stream of
    [ZeroCopyStream] on every flush, and starts a new file after [kTracesPerFile]
    events.  V8's JSONTraceWriter is a parameter: what it prints when it is
    created and destroyed and for an event (the flag says whether one came before).
    All file streams stay in [streams], a released one until its last byte is
    written, as they do on the loop. *)

From S2P Require Import Prelude Json ZeroCopyStream Format.
Import String.StringSyntax.
Local Open Scope string_scope.
Local Open Scope list_scope.
Local Open Scope nat_scope.

Section writer.
Context (PAGE kTracesPerFile : nat).
Context {Event : Type} (open_text close_text : bytes) (event_text : bool -> Event -> bytes).
(** Whether the file with a number can be created. *)
Context (opens : nat -> bool).
(** How many bytes of a request the file system writes. *)
Context (wr : bytes -> nat).

(** [src/src/tracing/trace_writer.h 28-38, AworkerTraceWriter] [fs_] is an index into
    [streams]; [alive] is false once the object is destroyed; [metadataes_] is the
    member of the agent the writer asks for. *)
Record Writer := mkWriter {
  total_traces_ : nat;
  file_num_ : nat;
  stream_ : bytes;
  json_trace_writer_ : option bool;
  metadata_written_ : bool;
  fs_ : option nat;
  flush_completed_ : bool;
  alive : bool;
  streams : list Output;
  metadataes_ : list Event }.

Definition set_json w t j s m :=
  mkWriter t (file_num_ w) s j m (fs_ w) (flush_completed_ w) (alive w) (streams w) (metadataes_ w).
Definition set_files w n fs c st :=
  mkWriter (total_traces_ w) n (stream_ w) (json_trace_writer_ w) (metadata_written_ w) fs c (alive w) st
    (metadataes_ w).

(** [src/src/tracing/trace_writer.cc 7-10, AworkerTraceWriter::AworkerTraceWriter] *)
Definition Writer_create : Writer := mkWriter 0 0 [] None false None true true [] [].

(** The path of a file. *)
Definition file_path (prefix : bytes) (n : nat) : outcome bytes :=
  SPrintF (fun _ => []) (bs "%s.%d.log") [AString prefix; AInt 8 (Z.of_nat n)].

(** [src/src/tracing/trace_writer.cc 87-89, AworkerTraceWriter::OpenNewFileForStreaming]
    An operation of a stream, and the callback given to it when it was created,
    which is called when the stream ends. *)
Definition on_stream (w : Writer) (i : nat) (f : Output -> outcome Output) : outcome Writer :=
  match streams w !! i with
  | None => Fault UseAfterFree
  | Some o =>
      o' ← f o;
      let w' := set_files w (file_num_ w) (fs_ w) (flush_completed_ w) (<[i := o']> (streams w)) in
      if ended o' =? ended o then Ret w'
      else if alive w then Ret (set_files w' (file_num_ w) (fs_ w) true (streams w'))
      else Fault UseAfterFree
  end.

Definition reset_fs (w : Writer) : outcome Writer :=
  match fs_ w with
  | None => Ret w
  | Some i =>
      on_stream (set_files w (file_num_ w) None (flush_completed_ w) (streams w)) i
        (fun o => Ret (DisposeAndDelete o))
  end.

(** [src/src/tracing/trace_writer.cc 78-90, AworkerTraceWriter::OpenNewFileForStreaming] *)
Definition OpenNewFileForStreaming (w : Writer) : outcome Writer :=
  w ← reset_fs w;
  let n := S (file_num_ w) in
  Ret (if opens n
       then set_files w n (Some (length (streams w))) false (streams w ++ [Output_create])
       else set_files w n None false (streams w)).

(** [src/src/tracing/trace_writer.cc 20-36, AworkerTraceWriter::AppendTraceEvent] The
    new JSON writer is created before the old one is released. *)
Definition AppendTraceEvent (w : Writer) (e : Event) : outcome Writer :=
  w ← (if total_traces_ w =? 0 then
         w ← OpenNewFileForStreaming w;
         Ret (set_json w (total_traces_ w) (Some false)
                (stream_ w ++ open_text ++ match json_trace_writer_ w with Some _ => close_text | None => [] end)
                false)
       else Ret w);
  match json_trace_writer_ w with
  | None => Fault NullDeref
  | Some comma =>
      Ret (set_json w (S (total_traces_ w)) (Some true) (stream_ w ++ event_text comma e) (metadata_written_ w))
  end.

Fixpoint append_all (w : Writer) (es : list Event) : outcome Writer :=
  match es with [] => Ret w | e :: es => w ← AppendTraceEvent w e; append_all w es end.

(** [src/src/tracing/trace_agent.cc 126-130, TraceAgent::RequestMetadataEvents] *)
Definition RequestMetadataEvents (w : Writer) : outcome Writer := append_all w (metadataes_ w).

(** [src/src/tracing/trace_agent.cc 121-124, TraceAgent::AddMetadataEvent] *)
Definition AddMetadataEvent (w : Writer) (e : Event) : Writer :=
  mkWriter (total_traces_ w) (file_num_ w) (stream_ w) (json_trace_writer_ w) (metadata_written_ w) (fs_ w)
    (flush_completed_ w) (alive w) (streams w) (metadataes_ w ++ [e]).

(** [src/src/tracing/trace_writer.cc 92-108, AworkerTraceWriter::WriteToFile] *)
Fixpoint WriteToFile (fuel : nat) (w : Writer) (str : bytes) : outcome Writer :=
  match str with
  | [] => Ret w
  | _ =>
      match fuel, fs_ w with
      | O, _ => Fault OutOfFuel
      | _, None => Fault NullDeref
      | S fuel, Some i =>
          let to_be_written := if PAGE <? length str then PAGE else length str in
          w ← on_stream w i (fun o =>
                o ← Next_out PAGE o (take to_be_written str ++ replicate (PAGE - to_be_written) x00);
                if to_be_written <? PAGE then BackUp_out o (PAGE - to_be_written) else Ret o);
          WriteToFile fuel w (drop to_be_written str)
      end
  end.

(** The text collected so far goes to the file. *)
Definition write_out (w : Writer) : outcome Writer :=
  WriteToFile (length (stream_ w))
    (set_json w (total_traces_ w) (json_trace_writer_ w) [] (metadata_written_ w)) (stream_ w).

Definition close_json (w : Writer) (total : nat) : Writer :=
  set_json w total None
    (stream_ w ++ match json_trace_writer_ w with Some _ => close_text | None => [] end) (metadata_written_ w).

Definition request_metadata (w : Writer) : outcome Writer :=
  if metadata_written_ w then Ret w
  else RequestMetadataEvents (set_json w (total_traces_ w) (json_trace_writer_ w) (stream_ w) true).

(** [src/src/tracing/trace_writer.cc 57-76, AworkerTraceWriter::Flush] *)
Definition Flush (w : Writer) : outcome Writer :=
  if total_traces_ w =? 0 then Ret w
  else
    w ← request_metadata w;
    write_out (if kTracesPerFile <=? total_traces_ w then close_json w 0 else w).

(** [src/src/tracing/trace_writer.cc 38-55, AworkerTraceWriter::FlushOnDetroy] *)
Definition FlushOnDetroy (w : Writer) : outcome Writer :=
  if total_traces_ w =? 0 then Ret w
  else
    w ← request_metadata w;
    w ← write_out (close_json w (total_traces_ w));
    reset_fs w.

(** One callback of the loop for a stream. *)
Definition uv_once (o : Output) : outcome Output :=
  if idle_started o then IdleCb o
  else match in_flight o with
       | Some (d, _) => WriteCb o (Z.of_nat (wr d))
       | None => Ret o
       end.

Definition stream_active (o : Output) : bool :=
  idle_started o || match in_flight o with Some _ => true | None => false end.

(** The streams keep the loop alive; its other handles are unreferenced (the flush timer)
    or closed when the writer is destroyed. *)
Definition uv_loop_alive (w : Writer) : bool := existsb stream_active (streams w).

Fixpoint uv_run_streams (w : Writer) (ids : list nat) : outcome Writer :=
  match ids with [] => Ret w | i :: ids => w ← on_stream w i uv_once; uv_run_streams w ids end.

Definition uv_run (w : Writer) : outcome Writer := uv_run_streams w (seq 0 (length (streams w))).

(** [src/src/tracing/trace_writer.cc 14-16, AworkerTraceWriter::~AworkerTraceWriter] *)
Fixpoint wait_flushed (fuel : nat) (w : Writer) : outcome Writer :=
  if (flush_completed_ w || negb (uv_loop_alive w))%bool then Ret w
  else match fuel with O => Fault OutOfFuel | S fuel => w ← uv_run w; wait_flushed fuel w end.

(** [src/src/tracing/trace_writer.cc 12-18, AworkerTraceWriter::~AworkerTraceWriter] *)
Definition Writer_destroy (fuel : nat) (w : Writer) : outcome Writer :=
  w ← FlushOnDetroy w;
  w ← wait_flushed fuel w;
  CHECK (flush_completed_ w) ;;
  Ret (mkWriter (total_traces_ w) (file_num_ w) (stream_ w) (json_trace_writer_ w) (metadata_written_ w) (fs_ w)
         (flush_completed_ w) false (streams w) (metadataes_ w)).

(** ** Events *)

(** An event of V8's buffer, a flush, a metadata event of the agent, a callback of the
    loop for a stream. *)
Inductive TEvent := TAppend (e : Event) | TFlush | TMetadata (e : Event) | TLoop (i : nat).

Definition tstep (w : Writer) (t : TEvent) : outcome Writer :=
  match t with
  | TAppend e => AppendTraceEvent w e
  | TFlush => Flush w
  | TMetadata e => Ret (AddMetadataEvent w e)
  | TLoop i => if i <? length (streams w) then on_stream w i uv_once else Ret w
  end.

Fixpoint trun (w : Writer) (ts : list TEvent) : outcome Writer :=
  match ts with [] => Ret w | t :: ts => w ← tstep w t; trun w ts end.

(** * Specification

    The documents the history describes: the complete ones, the one being written, and
    whether its metadata has been added; no streams and no buffers. *)

Record Docs := mkDocs { complete : list (list Event); current : list Event; meta_done : bool; metas : list Event }.

Definition add_event (d : Docs) (e : Event) : Docs :=
  mkDocs (complete d) (current d ++ [e]) (match current d with [] => false | _ => meta_done d end) (metas d).

Definition add_meta (d : Docs) : Docs :=
  if meta_done d then d else mkDocs (complete d) (current d ++ metas d) true (metas d).

Definition dstep (d : Docs) (t : TEvent) : Docs :=
  match t with
  | TAppend e => add_event d e
  | TFlush =>
      match current d with
      | [] => d
      | _ =>
          let d := add_meta d in
          if kTracesPerFile <=? length (current d)
          then mkDocs (complete d ++ [current d]) [] (meta_done d) (metas d) else d
      end
  | TMetadata e => mkDocs (complete d) (current d) (meta_done d) (metas d ++ [e])
  | TLoop _ => d
  end.

Definition docs (ts : list TEvent) : Docs := fold_left dstep ts (mkDocs [] [] false []).

Definition events_text (es : list Event) : bytes :=
  match es with [] => [] | e :: es => event_text false e ++ (es ≫= event_text true) end.

Definition open_doc (es : list Event) : bytes := open_text ++ events_text es.
Definition doc_text (es : list Event) : bytes := open_doc es ++ close_text.

(** The texts of all files, the last one possibly unfinished. *)
Definition texts (d : Docs) : list bytes :=
  map doc_text (complete d) ++ match current d with [] => [] | es => [open_doc es] end.

(** * Invariant *)

Definition same_writer (w w' : Writer) : Prop :=
  total_traces_ w' = total_traces_ w /\ file_num_ w' = file_num_ w /\
  json_trace_writer_ w' = json_trace_writer_ w /\ metadata_written_ w' = metadata_written_ w /\
  fs_ w' = fs_ w /\ flush_completed_ w' = flush_completed_ w /\ alive w' = alive w /\
  metadataes_ w' = metadataes_ w.

(** The released streams have the texts of the earlier files; the text of the last file
    is in its stream and in the writer's memory. *)
Definition holds (ss : list Output) (mem : bytes) (ts : list bytes) : Prop :=
  (ss = [] /\ ts = [] /\ mem = []) \/
  exists ss' o ts' x, ss = ss' ++ [o] /\ ts = ts' ++ [x ++ mem] /\
    Forall2 (fun o t => output_inv o t /\ waiting_for_dispose_ o = true) ss' ts' /\
    output_inv o x /\ waiting_for_dispose_ o = false.

Record winv (w : Writer) (d : Docs) : Prop := {
  wi_texts : holds (streams w) (stream_ w) (texts d);
  wi_num : file_num_ w = length (streams w);
  wi_total : total_traces_ w = length (current d);
  wi_json : json_trace_writer_ w = match current d with [] => None | _ => Some true end;
  wi_mem : current d = [] -> stream_ w = [];
  wi_mw : current d <> [] -> metadata_written_ w = meta_done d;
  wi_metas : metadataes_ w = metas d;
  wi_fs : fs_ w = match length (streams w) with O => None | S n => Some n end;
  wi_alive : alive w = true;
  wi_flush : match streams w with [] => flush_completed_ w = true | [_] => flush_completed_ w = false | _ => True end }.

Hypothesis PAGE_pos : 0 < PAGE.
Hypothesis opens_all : forall n, opens n = true.
Hypothesis wr_progress : forall d, wr d <= length d /\ (d <> [] -> 0 < wr d).

Lemma not_ended o x : output_inv o x -> waiting_for_dispose_ o = false -> ended o = 0.
Proof. intros [_ _ _ _ _ [_ ->]] ->. done. Qed.

Lemma uv_once_inv o x :
  output_inv o x ->
  exists o', uv_once o = Ret o' /\ output_inv o' x /\ waiting_for_dispose_ o' = waiting_for_dispose_ o.
Proof.
  intros Hi. unfold uv_once. destruct (idle_started o) eqn:E; [by apply (IdleCb_inv o x)|].
  destruct (in_flight o) as [[d off]|] eqn:Ef; [|eauto].
  apply (WriteCb_inv PAGE o x); [done|]. intros d' off' E'. rewrite Ef in E'. simplify_eq.
  destruct (wr_progress d') as [? Hp]. split; [lia|]. intros Hd. specialize (Hp Hd). lia.
Qed.

Lemma dispose_inv o x :
  output_inv o x -> waiting_for_dispose_ o = false ->
  output_inv (DisposeAndDelete o) x /\ waiting_for_dispose_ (DisposeAndDelete o) = true.
Proof.
  intros Hi Hd. destruct (ostep_inv PAGE o x ODispose Hi Hd) as (o' & [= <-] & Hi').
  cbn [written_by] in Hi'. rewrite app_nil_r in Hi'. split; [done|].
  unfold DisposeAndDelete. cbn. by destruct (waiting_for_write_ o).
Qed.

(** An operation of the stream that is being written does not end it. *)
Lemma on_last_stream w ss o f o' :
  streams w = ss ++ [o] -> f o = Ret o' -> ended o' = ended o ->
  on_stream w (length ss) f =
    Ret (set_files w (file_num_ w) (fs_ w) (flush_completed_ w) (ss ++ [o'])).
Proof.
  intros Hs Hf He. unfold on_stream. rewrite Hs, lookup_app_r, Nat.sub_diag by lia. cbn.
  rewrite Hf. cbn. rewrite He, Nat.eqb_refl. rewrite insert_app_r_alt, Nat.sub_diag by lia. done.
Qed.

Lemma write_page_inv o x t :
  output_inv o x -> waiting_for_dispose_ o = false -> length t <= PAGE ->
  exists o', (o ← Next_out PAGE o (t ++ replicate (PAGE - length t) x00);
              if length t <? PAGE then BackUp_out o (PAGE - length t) else Ret o) = Ret o' /\
             output_inv o' (x ++ t) /\ waiting_for_dispose_ o' = false.
Proof.
  intros Hi Hd Ht.
  destruct (Next_out_inv PAGE o x (t ++ replicate (PAGE - length t) x00) Hi Hd) as (o1 & E & Hi1 & Hd1 & Hq & Hf).
  { rewrite length_app, length_replicate. lia. }
  rewrite E. cbn [mbind outcome_bind]. destruct (Nat.ltb_spec (length t) PAGE).
  - destruct (BackUp_out_inv PAGE o1 _ (queue_ o) _ (PAGE - length t) Hi1 Hq) as (o2 & E2 & Hd2 & Hi2).
    { rewrite length_app, length_replicate. lia. }
    { lia. }
    { intros Hnil. rewrite Hf. by eapply in_flight_queue. }
    exists o2. split; [done|]. split; [|congruence].
    replace (x ++ t) with (take (length (x ++ t ++ replicate (PAGE - length t) x00) - (PAGE - length t)) (x ++ t ++ replicate (PAGE - length t) x00)); [done|].
    rewrite app_assoc, length_app, length_replicate. rewrite take_app_le, take_ge; [done|lia|lia].
  - exists o1. split; [done|]. split; [|done]. replace (PAGE - length t) with 0 in Hi1 by lia.
    cbn in Hi1. by rewrite app_nil_r in Hi1.
Qed.

Lemma WriteToFile_inv fuel : forall w ss o x str,
  streams w = ss ++ [o] -> fs_ w = Some (length ss) -> output_inv o x -> waiting_for_dispose_ o = false ->
  length str <= fuel ->
  exists o', WriteToFile fuel w str = Ret (set_files w (file_num_ w) (fs_ w) (flush_completed_ w) (ss ++ [o'])) /\
    output_inv o' (x ++ str) /\ waiting_for_dispose_ o' = false.
Proof.
  induction fuel as [|fuel IH]; intros w ss o x str Hs Hfs Hi Hd Hl;
    (destruct str as [|c str]; [exists o; cbn; rewrite app_nil_r, <-Hs; by destruct w|]); [cbn in Hl; lia|].
  cbn [WriteToFile]. rewrite Hfs. set (n := if PAGE <? length (c :: str) then PAGE else length (c :: str)).
  assert (Hn : 0 < n <= length (c :: str) /\ n <= PAGE).
  { subst n. destruct (Nat.ltb_spec PAGE (length (c :: str))); cbn [length] in *; lia. }
  assert (Hlen : length (take n (c :: str)) = n) by (rewrite length_take; lia).
  destruct (write_page_inv o x (take n (c :: str)) Hi Hd ltac:(lia)) as (o1 & E1 & Hi1 & Hd1).
  rewrite Hlen in E1.
  rewrite (on_last_stream w ss o _ o1 Hs E1) by (rewrite (not_ended _ _ Hi Hd); by apply (not_ended _ _ Hi1)).
  cbn [mbind outcome_bind]. edestruct (IH (set_files w (file_num_ w) (fs_ w) (flush_completed_ w) (ss ++ [o1])) ss o1 _
    (drop n (c :: str)) eq_refl Hfs Hi1 Hd1) as (o2 & E2 & Hi2 & Hd2).
  { rewrite length_drop. cbn [length] in *. lia. }
  exists o2. rewrite <-Hfs at 1. rewrite E2. split; [by destruct w|]. split; [|done].
  by rewrite <-app_assoc, take_drop in Hi2.
Qed.

(** Reduces the members of a known state. *)
Ltac wcbn := cbn [streams stream_ total_traces_ json_trace_writer_ metadata_written_ metadataes_ fs_ alive
  flush_completed_ file_num_ set_json set_files close_json current complete meta_done metas app].

(** ** Appending *)

Lemma texts_current d : current d <> [] -> texts d = map doc_text (complete d) ++ [open_doc (current d)].
Proof. unfold texts. by destruct (current d). Qed.

Lemma open_doc_snoc es e : es <> [] -> open_doc (es ++ [e]) = open_doc es ++ event_text true e.
Proof.
  destruct es as [|e0 es]; [done|]. intros _. unfold open_doc, events_text. cbn [app].
  rewrite bind_app. cbn. by rewrite app_nil_r, !app_assoc.
Qed.

Lemma holds_more ss mem ts t u :
  holds ss mem (ts ++ [t]) -> holds ss (mem ++ u) (ts ++ [t ++ u]).
Proof.
  intros [(_ & E & _)|(ss' & o & ts' & x & -> & E & H)]; [by apply app_nil in E as [_ E]|].
  apply app_inj_tail in E as [-> ->]. right. exists ss', o, ts', x.
  by rewrite <-app_assoc.
Qed.

Lemma output_create_inv : output_inv Output_create [].
Proof. by split. Qed.

(** The state after a new file has been opened for the first event of it. *)
Lemma open_inv w ts :
  holds (streams w) [] ts -> fs_ w = match length (streams w) with O => None | S n => Some n end ->
  alive w = true ->
  exists w' ss, OpenNewFileForStreaming w = Ret w' /\
    w' = set_files w (S (file_num_ w)) (Some (length (streams w))) false (ss ++ [Output_create]) /\
    length ss = length (streams w) /\
    Forall2 (fun o t => output_inv o t /\ waiting_for_dispose_ o = true) ss ts.
Proof.
  intros [(Hs & -> & _)|(ss' & o & ts' & x & Hs & -> & H & Hi & Hd)] Hfs Ha;
    unfold OpenNewFileForStreaming, reset_fs; rewrite Hfs, Hs.
  - cbn. rewrite opens_all. eexists _, []. split; [done|]. rewrite Hs. done.
  - rewrite length_app, Nat.add_1_r. rewrite app_nil_r.
    destruct (dispose_inv o x Hi Hd) as [Hi' Hd']. unfold on_stream. cbn [streams set_files].
    rewrite lookup_app_r, Nat.sub_diag by lia. cbn [lookup list_lookup mbind outcome_bind].
    rewrite insert_app_r_alt, Nat.sub_diag by lia. cbn [insert list_insert alive set_files].
    rewrite Ha. exists (set_files w (S (file_num_ w)) (Some (length (streams w))) false ((ss' ++ [DisposeAndDelete o]) ++ [Output_create])), (ss' ++ [DisposeAndDelete o]).
    split_and!; [|rewrite Hs, length_app, Nat.add_1_r; done|rewrite ?length_app; cbn; lia|apply Forall2_app; [done|constructor; [done|constructor]]].
    rewrite Hs, length_app. cbn [length].
    destruct (ended _ =? ended o); cbn; rewrite opens_all, length_app; done.
Qed.

Lemma AppendTraceEvent_inv w d e :
  winv w d -> exists w', AppendTraceEvent w e = Ret w' /\ winv w' (add_event d e).
Proof.
  intros [Ht Hn Htot Hj Hm Hmw Hme Hfs Ha Hfl]. unfold AppendTraceEvent, add_event. rewrite Htot.
  destruct (current d) as [|c0 cs] eqn:Ec.
  - specialize (Hm eq_refl). rewrite Hm in Ht.
    destruct (open_inv w (texts d) Ht Hfs Ha) as (w' & ss & -> & -> & Hlen & HF). cbn.
    rewrite Hj. eexists. split; [reflexivity|]. rewrite Hm, app_nil_r.
    assert (Htx : texts (mkDocs (complete d) [e] false (metas d)) = texts d ++ [open_doc [e]]).
    { unfold texts. rewrite Ec. cbn. by rewrite app_nil_r. }
    split; wcbn; try done.
    + right. exists ss, Output_create, (texts d), [].
      split_and!; try done. rewrite Htx. unfold open_doc. cbn. by rewrite app_nil_r.
    + rewrite length_app. cbn. lia.
    + by rewrite Htot.
    + rewrite length_app, Nat.add_1_r, Hlen. done.
    + destruct ss as [|? ss]; [done|]. by destruct ss.
  - cbn. rewrite Hj. eexists. split; [reflexivity|].
    assert (Htx : texts (mkDocs (complete d) (c0 :: cs ++ [e]) (meta_done d) (metas d)) =
                  map doc_text (complete d) ++ [open_doc (current d) ++ event_text true e]).
    { rewrite texts_current by done. cbn [current complete]. rewrite Ec.
      change (c0 :: cs ++ [e]) with ((c0 :: cs) ++ [e]). by rewrite open_doc_snoc. }
    split; wcbn; try done.
    + rewrite Htx. apply holds_more. rewrite <-texts_current by (by rewrite Ec). done.
    + rewrite Htot. cbn. rewrite length_app. cbn. lia.
    + intros _. by apply Hmw.
Qed.

Lemma append_all_inv es : forall w d,
  winv w d -> exists w', append_all w es = Ret w' /\ winv w' (fold_left add_event es d).
Proof.
  induction es as [|e es IH]; intros w d Hw; cbn; [eauto|].
  destruct (AppendTraceEvent_inv w d e Hw) as (w1 & -> & Hw1). by apply IH.
Qed.

Lemma fold_add_event es : forall d, current d <> [] ->
  fold_left add_event es d = mkDocs (complete d) (current d ++ es) (meta_done d) (metas d).
Proof.
  induction es as [|e es IH]; intros d Hd; cbn; [rewrite app_nil_r; by destruct d|].
  rewrite IH; unfold add_event; cbn; [|by destruct (current d)]. rewrite <-app_assoc.
  by destruct (current d).
Qed.

Lemma request_metadata_inv w d :
  winv w d -> current d <> [] -> exists w', request_metadata w = Ret w' /\ winv w' (add_meta d).
Proof.
  intros Hw Hd. unfold request_metadata, add_meta. rewrite (wi_mw _ _ Hw Hd).
  destruct (meta_done d); [eauto|]. unfold RequestMetadataEvents. cbn [metadataes_ set_json].
  rewrite (wi_metas _ _ Hw).
  destruct (append_all_inv (metas d) (set_json w (total_traces_ w) (json_trace_writer_ w) (stream_ w) true)
             (mkDocs (complete d) (current d) true (metas d))) as (w' & -> & Hw').
  { destruct Hw. split; done. }
  rewrite fold_add_event in Hw' by done. eauto.
Qed.

Lemma add_meta_current d : current d <> [] -> current (add_meta d) <> [].
Proof. unfold add_meta. destruct (meta_done d); [done|]. cbn. by destruct (current d). Qed.

(** ** Writing out *)

(** Handing over the text keeps the texts; the memory is empty afterwards. *)
Lemma write_out_holds w ss mem ts :
  holds ss mem ts -> streams w = ss -> stream_ w = mem -> ss <> [] ->
  fs_ w = match length ss with O => None | S n => Some n end ->
  exists ss', write_out w = Ret (set_json (set_files w (file_num_ w) (fs_ w) (flush_completed_ w) ss')
                                   (total_traces_ w) (json_trace_writer_ w) [] (metadata_written_ w)) /\
    holds ss' [] ts /\ length ss' = length ss.
Proof.
  intros [(-> & _)|(ss' & o & ts' & x & -> & -> & H & Hi & Hd)] Hs Hmem Hne Hfs; [done|].
  rewrite length_app, Nat.add_1_r in Hfs. unfold write_out. rewrite Hmem.
  edestruct (WriteToFile_inv (length mem) (set_json w (total_traces_ w) (json_trace_writer_ w) [] (metadata_written_ w))
    ss' o x mem Hs Hfs Hi Hd ltac:(lia)) as (o' & -> & Hi' & Hd').
  exists (ss' ++ [o']). split; [done|]. split; [|by rewrite !length_app].
  right. exists ss', o', ts', (x ++ mem). rewrite app_nil_r. done.
Qed.

Lemma streams_current w d : winv w d -> current d <> [] -> streams w <> [].
Proof.
  intros Hw Hd. destruct (wi_texts _ _ Hw) as [(_ & E & _)|(ss' & o & ? & ? & -> & _)].
  - rewrite texts_current in E by done. by apply app_nil in E as [_ E].
  - by destruct ss'.
Qed.

Lemma flush_flag_length (ss ss' : list Output) (b : bool) :
  length ss' = length ss ->
  match ss with [] => b = true | [_] => b = false | _ => True end ->
  match ss' with [] => b = true | [_] => b = false | _ => True end.
Proof. destruct ss as [|? [|??]], ss' as [|? [|??]]; done. Qed.

Lemma Flush_inv w d : winv w d -> exists w', Flush w = Ret w' /\ winv w' (dstep d TFlush).
Proof.
  intros Hw. unfold Flush. rewrite (wi_total _ _ Hw). cbn [dstep].
  destruct (current d) as [|c0 cs] eqn:Ec; [cbn; eauto|]. rewrite <-Ec.
  replace (length (current d) =? 0) with false by (by rewrite Ec).
  destruct (request_metadata_inv w d Hw ltac:(by rewrite Ec)) as (w1 & -> & Hw1). cbn [mbind outcome_bind].
  assert (Hc : current (add_meta d) <> []) by (apply add_meta_current; by rewrite Ec).
  clear Hw Ec. set (d1 := add_meta d) in *. clearbody d1. clear d c0 cs.
  pose proof (streams_current _ _ Hw1 Hc) as Hne. pose proof (texts_current _ Hc) as Htx.
  destruct Hw1 as [Ht Hn Htot Hj Hm Hmw Hme Hfs Ha Hfl]. rewrite Htot.
  assert (Hj' : json_trace_writer_ w1 = Some true) by (by destruct (current d1)).
  destruct (kTracesPerFile <=? length (current d1)).
  - rewrite Htx in Ht. apply (holds_more _ _ _ _ close_text) in Ht.
    destruct (write_out_holds (close_json w1 0) _ _ _ Ht eq_refl ltac:(cbn; by rewrite Hj') Hne Hfs) as (ss' & -> & Hh & Hl).
    eexists. split; [reflexivity|]. split; wcbn; rewrite ?Hl; try done.
    + unfold texts. cbn. rewrite map_app, app_nil_r. done.
    + by eapply flush_flag_length.
  - destruct (write_out_holds w1 _ _ _ Ht eq_refl eq_refl Hne Hfs) as (ss' & -> & Hh & Hl).
    eexists. split; [reflexivity|]. split; wcbn; rewrite ?Hl; try done.
    by eapply flush_flag_length.
Qed.

(** ** Callbacks of the loop *)

Lemma holds_loop ss mem ts i :
  holds ss mem ts -> i < length ss ->
  exists o o', ss !! i = Some o /\ uv_once o = Ret o' /\ holds (<[i := o']> ss) mem ts /\
    (S i = length ss -> ended o' = ended o).
Proof.
  intros [(-> & _)|(ss' & o & ts' & x & -> & -> & HF & Hi & Hd)] Hlt; [cbn in Hlt; lia|].
  rewrite length_app, Nat.add_1_r in Hlt |- *. destruct (decide (i = length ss')) as [->|Hne].
  - destruct (uv_once_inv o x Hi) as (o' & E & Hi' & Hd'). exists o, o'.
    rewrite lookup_app_r, insert_app_r_alt, Nat.sub_diag by lia. split_and!; [done|done| |].
    + right. exists ss', o', ts', x. split_and!; try done. congruence.
    + intros _. rewrite (not_ended _ _ Hi Hd). apply (not_ended _ _ Hi'). congruence.
  - assert (Hlt' : i < length ss') by lia. apply lookup_lt_is_Some_2 in Hlt' as [oi Hoi].
    destruct (Forall2_lookup_l _ _ _ _ _ HF Hoi) as (t & Ht & Hit & Hdt).
    destruct (uv_once_inv oi t Hit) as (o' & E & Hi' & Hd'). exists oi, o'.
    rewrite lookup_app_l, insert_app_l by lia. split_and!; [done|done| |lia].
    right. exists (<[i:=o']> ss'), o, ts', x. split_and!; try done.
    rewrite <-(list_insert_id ts' i t Ht). apply Forall2_insert; [done|]. split; [done|congruence].
Qed.

Lemma TLoop_inv w d i :
  winv w d -> exists w', tstep w (TLoop i) = Ret w' /\ winv w' d.
Proof.
  intros Hw. cbn [tstep]. destruct (Nat.ltb_spec i (length (streams w))) as [Hlt|]; [|eauto].
  destruct Hw as [Ht Hn Htot Hj Hm Hmw Hme Hfs Ha Hfl].
  destruct (holds_loop _ _ _ i Ht Hlt) as (o & o' & Eo & E & Hh & Hlast).
  unfold on_stream. rewrite Eo. cbn. rewrite E. cbn. rewrite Ha.
  assert (Hl : length (<[i := o']> (streams w)) = length (streams w)) by apply length_insert.
  destruct (ended o' =? ended o) eqn:Ee.
  - eexists. split; [reflexivity|]. split; wcbn; rewrite ?Hl; try done. by eapply flush_flag_length.
  - eexists. split; [reflexivity|]. split; wcbn; rewrite ?Hl; try done.
    destruct (streams w) as [|s1 [|s2 ss]] eqn:Es; [cbn in Hlt; lia| |].
    + apply Nat.eqb_neq in Ee. cbn in Hlt, Hlast. exfalso. apply Ee, Hlast. lia.
    + by destruct i as [|[|i]].
Qed.

Lemma tstep_inv w d t : winv w d -> exists w', tstep w t = Ret w' /\ winv w' (dstep d t).
Proof.
  intros Hw. destruct t as [e| |e|i].
  - by apply AppendTraceEvent_inv.
  - by apply Flush_inv.
  - eexists. split; [done|]. destruct Hw as [Ht Hn Htot Hj Hm Hmw Hme Hfs Ha Hfl].
    split; cbn [dstep]; unfold AddMetadataEvent; wcbn; try done. by rewrite Hme.
  - by apply TLoop_inv.
Qed.

Lemma trun_inv ts : forall w d,
  winv w d -> exists w', trun w ts = Ret w' /\ winv w' (fold_left dstep ts d).
Proof.
  induction ts as [|t ts IH]; intros w d Hw; cbn [trun fold_left]; [eauto|].
  destruct (tstep_inv w d t Hw) as (w1 & -> & Hw1). by apply IH.
Qed.

Lemma create_inv : winv Writer_create (mkDocs [] [] false []).
Proof. split; try done. by left. Qed.

(** ** Destruction *)

Definition work (o : Output) : nat :=
  length (pending o) + length (queue_ o) + (if idle_started o then 1 else 0).

Lemma uv_once_work o x o' :
  output_inv o x -> stream_active o = true -> uv_once o = Ret o' -> work o' < work o.
Proof.
  intros [_ _ Hb Hw Hf _] Hact. unfold uv_once, stream_active, work in *.
  destruct (idle_started o) eqn:Ei.
  - unfold IdleCb, WriteNext. destruct (queue_ o) eqn:Eq; [done|]. intros [= <-].
    unfold pending. cbn [queue_ idle_started]. rewrite Eq. lia.
  - destruct (in_flight o) as [[d off]|] eqn:Ef; [|done].
    destruct Hf as (_ & -> & b & q & Eq & ->). unfold WriteCb. rewrite Ef.
    rewrite (proj2 (Z.ltb_ge _ _)) by lia. rewrite Nat2Z.id, Eq. rewrite Eq in Hb.
    apply Forall_cons in Hb as [Hbk _]. pose proof (length_remaining b Hbk) as Hr.
    destruct (wr_progress (remaining b)) as [Hle Hpos]. set (n := wr (remaining b)) in *.
    unfold pending. rewrite Eq. cbn [written len].
    destruct (Nat.eqb_spec (written b + n) (len b)) as [He|He].
    + destruct q as [|b2 q].
      * unfold set_writing_for_write. cbn. destruct (waiting_for_write_ o), (waiting_for_dispose_ o);
          intros [= <-]; cbn; rewrite ?Ei; rewrite ?app_nil_r; lia.
      * intros [= <-]. cbn -[remaining]. rewrite Ei, !length_app. lia.
    + intros [= <-]. cbn [queue_ idle_started mbind list_bind]. rewrite Ei, !length_app. cbn [length].
      rewrite (length_remaining (mkBuf (buf_data b) (len b) (written b + n)))
        by (destruct Hbk; split; cbn; lia).
      cbn [len written]. destruct (remaining b) eqn:Er; [cbn in Hr; destruct Hbk; lia|].
      specialize (Hpos ltac:(done)). lia.
Qed.

(** A single stream is written completely; it ends if it has been released. *)
Lemma wait_one fuel : forall w o t,
  streams w = [o] -> output_inv o t -> alive w = true ->
  flush_completed_ w = (0 <? ended o) -> work o <= fuel ->
  exists o', wait_flushed fuel w = Ret (set_files w (file_num_ w) (fs_ w) (waiting_for_dispose_ o) [o']) /\
    output_inv o' t /\ queue_ o' = [] /\ waiting_for_dispose_ o' = waiting_for_dispose_ o.
Proof.
  induction fuel as [|fuel IH]; intros w o t Hs Hi Ha Hfl Hw.
  all: assert (Hstop : (flush_completed_ w || negb (uv_loop_alive w))%bool =
                       negb (stream_active o))
    by (unfold uv_loop_alive; rewrite Hs; cbn; rewrite orb_false_r, Hfl;
        destruct Hi as [_ _ _ H4 H5 [_ ->]]; unfold stream_active;
        destruct (in_flight o) as [[d off]|];
        [destruct H5 as (-> & _ & b & q & Hq & _); rewrite H4, Hq, andb_false_r; done
        |rewrite H5; destruct (waiting_for_dispose_ o), (waiting_for_write_ o); done]).
  all: cbn [wait_flushed]; rewrite Hstop; destruct (stream_active o) eqn:Eact; cbn [negb].
  2, 4: exists o; assert (Hq : queue_ o = [] /\ flush_completed_ w = waiting_for_dispose_ o)
    by (rewrite Hfl; destruct Hi as [_ _ _ H4 H5 [_ ->]]; unfold stream_active in Eact;
        destruct (in_flight o) as [[d off]|]; [by rewrite orb_true_r in Eact|];
        rewrite orb_false_r in Eact; rewrite Eact in H5; rewrite <-H5; rewrite <-H5 in H4;
        destruct (queue_ o); [|done]; by destruct (waiting_for_dispose_ o));
    destruct Hq as [Hq <-]; rewrite <-Hs; by destruct w.
  - exfalso. unfold stream_active, work in *. destruct Hi as [_ _ _ H4 H5 _].
    destruct (idle_started o); [lia|]. destruct (in_flight o) as [[d off]|]; [|done].
    destruct H5 as (_ & _ & b & q & Hq & _). rewrite Hq in Hw. cbn in Hw. lia.
  - destruct (uv_once_inv o t Hi) as (o1 & E1 & Hi1 & Hd1).
    pose proof (uv_once_work o t o1 Hi Eact E1) as Hdec.
    assert (He0 : ended o = 0).
    { rewrite Hfl in Hstop. destruct (ended o); [done|]. cbn in Hstop. done. }
    assert (He1 : ended o1 = 0 \/ ended o1 = 1).
    { destruct Hi1 as [_ _ _ _ _ [_ ->]]. destruct (_ && _)%bool; auto. }
    assert (Erun : uv_run w = Ret (set_files w (file_num_ w) (fs_ w) (0 <? ended o1) [o1])).
    { unfold uv_run. rewrite Hs. cbn [length seq uv_run_streams]. unfold on_stream. rewrite Hs.
      cbn [lookup list_lookup]. rewrite E1. cbn. rewrite Ha, He0. rewrite He0 in Hfl. cbn in Hfl.
      destruct He1 as [-> | ->]; cbn; rewrite ?Hfl; done. }
    rewrite Erun. cbn [mbind outcome_bind].
    edestruct (IH (set_files w (file_num_ w) (fs_ w) (0 <? ended o1) [o1]) o1 t eq_refl Hi1 Ha eq_refl)
      as (o2 & E2 & Hi2 & Hq2 & Hd2); [lia|].
    exists o2. rewrite Hd1 in *. by rewrite E2.
Qed.

Lemma files_hold ts :
  exists w, trun Writer_create ts = Ret w /\ holds (streams w) (stream_ w) (texts (docs ts)).
Proof.
  destruct (trun_inv ts _ _ create_inv) as (w & E & Hw). exists w. split; [done|]. apply Hw.
Qed.

(** What the destructor leaves: one complete, closed file per document. *)
Definition all_written (w : Writer) (ds : list (list Event)) : Prop :=
  map file (streams w) = map doc_text ds /\
  Forall (fun o => queue_ o = [] /\ closed o = 1 /\ ended o = 1) (streams w).

Lemma FlushOnDetroy_single w d :
  winv w d -> current d <> [] -> complete d = [] ->
  exists o, output_inv o (doc_text (current (add_meta d))) /\ waiting_for_dispose_ o = true /\
    exists w', FlushOnDetroy w = Ret w' /\ streams w' = [o] /\ alive w' = true /\
      flush_completed_ w' = (0 <? ended o).
Proof.
  intros Hw Hne Hc. unfold FlushOnDetroy. rewrite (wi_total _ _ Hw).
  replace (length (current d) =? 0) with false by (by destruct (current d)).
  destruct (request_metadata_inv w d Hw Hne) as (w1 & -> & Hw1). cbn [mbind outcome_bind].
  pose proof (add_meta_current d Hne) as Hne1.
  assert (Hc1 : complete (add_meta d) = []) by (unfold add_meta; by destruct (meta_done d)).
  pose proof (streams_current _ _ Hw1 Hne1) as Hs1. pose proof (texts_current _ Hne1) as Htx.
  destruct Hw1 as [Ht Hn Htot Hj Hm Hmw Hme Hfs Ha Hfl]. rewrite Hc1 in Htx.
  rewrite Htx in Ht. apply (holds_more _ _ [] _ close_text) in Ht.
  assert (Hj' : json_trace_writer_ w1 = Some true) by (by destruct (current (add_meta d))).
  destruct (write_out_holds (close_json w1 (total_traces_ w1)) _ _ _ Ht eq_refl ltac:(cbn; by rewrite Hj') Hs1 Hfs)
    as (ss' & -> & Hh & Hl). cbn [mbind outcome_bind].
  destruct Hh as [(-> & E' & _)|(ss0 & o & ts0 & x & -> & E' & HF & Hi & Hd)]; [done|].
  destruct ts0 as [|? [|]]; [|done..]. apply Forall2_nil_inv_r in HF as ->. injection E' as E'.
  rewrite app_nil_r in E'. cbn in Hl. rewrite <-Hl in Hfs.
  assert (Hfl' : flush_completed_ w1 = false) by (by destruct (streams w1) as [|? [|]]).
  destruct (dispose_inv o x Hi Hd) as [Hi' Hd']. exists (DisposeAndDelete o). rewrite <-E' in Hi'.
  split_and!; [done..|]. unfold reset_fs, on_stream. cbn. rewrite Hfs. cbn.
  rewrite Ha, (not_ended _ _ Hi Hd). destruct (ended (DisposeAndDelete o)); cbn; eexists; split_and!; done.
Qed.

(** As long as the first file has not been completed, destroying the writer writes
    everything: the destructor ends, its check holds, and the one file, if there is
    one, has all the events, the metadata and the closing text and is closed. *)
Theorem destroy_completes_single_file ts :
  complete (docs ts) = [] ->
  exists w N, trun Writer_create ts = Ret w /\ forall fuel, N <= fuel ->
    exists w', Writer_destroy fuel w = Ret w' /\
      all_written w' (match current (docs ts) with [] => [] | _ => [current (add_meta (docs ts))] end).
Proof.
  intros Hc. destruct (trun_inv ts _ _ create_inv) as (w & E & Hw). change (fold_left _ _ _) with (docs ts) in Hw.
  set (d := docs ts) in *. clearbody d. exists w. unfold Writer_destroy.
  destruct (decide (current d = [])) as [Ec|Hne].
  - exists 0. split; [done|]. intros fuel _. unfold FlushOnDetroy. rewrite (wi_total _ _ Hw), Ec.
    assert (Hs : streams w = []).
    { destruct (wi_texts _ _ Hw) as [(-> & _)|(? & ? & ts' & ? & _ & E' & _)]; [done|].
      unfold texts in E'. rewrite Hc, Ec in E'. by destruct ts'. }
    pose proof (wi_flush _ _ Hw) as Hfl. rewrite Hs in Hfl. cbn. destruct fuel; cbn; rewrite Hfl; cbn; rewrite ?Hfl;
      (eexists; split; [reflexivity|]; unfold all_written; cbn; by rewrite Hs).
  - destruct (FlushOnDetroy_single w d Hw Hne Hc) as (o & Hi & Hd & w1 & -> & Hs & Ha & Hfl).
    exists (work o). split; [done|]. intros fuel Hfuel. cbn [mbind outcome_bind].
    destruct (wait_one fuel w1 o _ Hs Hi Ha Hfl Hfuel) as (o' & -> & [H1 H2 H3 H4 H5 [H6 H7]] & Hq2 & Hd2).
    rewrite Hd. cbn. eexists. split; [reflexivity|]. unfold all_written. cbn.
    unfold pending in H1. rewrite Hq2 in H1, H4. cbn in H1. rewrite app_nil_r in H1.
    rewrite Hd2, Hd, H4 in H7. cbn in H7. rewrite H1. split; [by destruct (current d)|].
    constructor; [|done]. split_and!; congruence.
Qed.

(** Destroying the writer when its first file has just been completed ends the
    process: the stream of that file is not released, so that its end is never
    reported, and the check behind the loop fails. *)
Theorem destroy_after_rotation_aborts ts doc :
  complete (docs ts) = [doc] -> current (docs ts) = [] ->
  exists w N, trun Writer_create ts = Ret w /\ forall fuel, N <= fuel ->
    Writer_destroy fuel w = Fault CheckFailed.
Proof.
  intros Hc Ec. destruct (trun_inv ts _ _ create_inv) as (w & E & Hw). change (fold_left _ _ _) with (docs ts) in Hw.
  set (d := docs ts) in *. clearbody d. exists w.
  destruct (wi_texts _ _ Hw) as [(_ & E' & _)|(ss & o & ts' & x & Hs & E' & HF & Hi & Hd)];
    unfold texts in E'; rewrite Hc, Ec in E'; [done|]. destruct ts' as [|? [|]]; [|done..].
  apply Forall2_nil_inv_r in HF as ->. cbn in Hs.
  assert (Hfl : flush_completed_ w = (0 <? ended o)).
  { pose proof (wi_flush _ _ Hw) as Hfl. rewrite Hs in Hfl. by rewrite (not_ended _ _ Hi Hd). }
  exists (work o). split; [done|]. intros fuel Hfuel. unfold Writer_destroy, FlushOnDetroy.
  rewrite (wi_total _ _ Hw), Ec. cbn [length Nat.eqb mbind outcome_bind].
  destruct (wait_one fuel w o x Hs Hi (wi_alive _ _ Hw) Hfl Hfuel) as (o' & -> & _). by rewrite Hd.
Qed.

End writer.

(** C24 The trace files are the documents of the events, as long as every file can be created
    ([opens]) and every write is a success that writes at least a byte ([wr]): over every
    history of events, flushes, metadata and callbacks of the loop, no operation faults;
    there is one file per [kTracesPerFile] events (checked at a flush), and each file, with
    what its stream still has to write and, for the last one, what is still in memory, is the
    opening text, the events in order with the metadata added once before the first flush
    of the file, and, if the file is complete, the closing text.  A file that cannot be
    created is [unwritable_directory_faults]. *)
Theorem trace_files_in_order {Event} (PAGE kTracesPerFile : nat) (open_text close_text : bytes)
    (event_text : bool -> Event -> bytes) (opens : nat -> bool) (wr : bytes -> nat) ts :
  0 < PAGE -> (forall n, opens n = true) -> (forall d, wr d <= length d /\ (d <> [] -> 0 < wr d)) ->
  exists w, trun PAGE kTracesPerFile open_text close_text event_text opens wr Writer_create ts = Ret w /\
    holds (streams w) (stream_ w) (texts open_text close_text event_text (docs kTracesPerFile ts)).
Proof. intros Hp Ho Hw. by apply files_hold. Qed.

(** A directory in which no file can be created: the first flush uses a null stream. *)
Lemma unwritable_directory_faults {Event} PAGE k (open_text close_text : bytes) (event_text : bool -> Event -> bytes) wr e :
  open_text <> [] ->
  trun PAGE k open_text close_text event_text (fun _ => false) wr Writer_create [TAppend e; TFlush] = Fault NullDeref.
Proof.
  intros Ho. cbn. unfold Flush, request_metadata, write_out. cbn.
  destruct (k <=? 1); cbn; destruct open_text; done.
Qed.

(** The path of a file is the prefix, its number and the extension. *)
Lemma file_path_eq prefix n :
  file_path prefix n = Ret (prefix ++ bs "." ++ dec (Z.of_nat n) ++ bs ".log").
Proof. unfold file_path, SPrintF. rewrite SPrintFImpl_fill by lia. reflexivity. Qed.

(** * Witnesses *)

Definition ex_event (comma : bool) (e : byte) : bytes := (if comma then bs "," else []) ++ [e].
Definition ex_run := trun 4 2 (bs "[") (bs "]") ex_event (fun _ => true) (@length byte).
Definition ex_destroy := Writer_destroy 4 (bs "[") (bs "]") ex_event (fun _ => true) (@length byte).

(** Two events and a flush complete the first file; the next event opens the second
    while the first is still being written, and its end is reported only then. *)
Definition ex_rotated : list (TEvent (Event := byte)) :=
  [TAppend x61; TAppend x62; TFlush; TAppend x63; TLoop 0; TLoop 0; TLoop 0].

(** The flag the destructor waits for is shared by the files: when the first file
    ends after the second was opened, the destructor returns at once and leaves the
    second file empty, and the callback that reports its end uses the destroyed
    writer. *)
Theorem late_end_uses_destroyed_writer :
  exists w w', ex_run Writer_create ex_rotated = Ret w /\ ex_destroy 0 w = Ret w' /\
    map file (streams w') = [bs "[a,b]"; []] /\ alive w' = false /\
    ex_run w' [TLoop 1; TLoop 1] = Fault UseAfterFree.
Proof. eexists _, _. split_and!; vm_compute; reflexivity. Qed.

Lemma wr_all (d : bytes) : length d <= length d /\ (d <> [] -> 0 < length d).
Proof. split; [done|]. destruct d; [done|cbn; lia]. Qed.

Lemma trace_files_in_order_witness :
  exists w, ex_run Writer_create ex_rotated = Ret w /\
    holds (streams w) (stream_ w) (texts (bs "[") (bs "]") ex_event (docs 2 ex_rotated)) /\
    texts (bs "[") (bs "]") ex_event (docs 2 ex_rotated) = [bs "[a,b]"; bs "[c"].
Proof.
  destruct (trace_files_in_order 4 2 (bs "[") (bs "]") ex_event (fun _ => true) (@length byte)
              ex_rotated ltac:(lia) ltac:(done) wr_all) as (w & E & H).
  exists w. split; [exact E|]. split; [exact H|reflexivity].
Defined.

Lemma destroy_completes_single_file_witness :
  exists w N, trun 4 3 (bs "[") (bs "]") ex_event (fun _ => true) (@length byte) Writer_create [TMetadata x6d; TAppend x61; TFlush; TLoop 0] = Ret w /\ forall fuel, N <= fuel ->
    exists w', Writer_destroy 4 (bs "[") (bs "]") ex_event (fun _ => true) (@length byte) fuel w = Ret w' /\
      all_written (bs "[") (bs "]") ex_event w' [[x61; x6d]].
Proof.
  apply (destroy_completes_single_file 4 3 (bs "[") (bs "]") ex_event (fun _ => true) (@length byte)
              ltac:(lia) ltac:(done) wr_all [TMetadata x6d; TAppend x61; TFlush; TLoop 0]). reflexivity.
Defined.

Lemma destroy_after_rotation_aborts_witness :
  exists w N, ex_run Writer_create [TAppend x61; TAppend x62; TFlush] = Ret w /\ forall fuel, N <= fuel ->
    ex_destroy fuel w = Fault CheckFailed.
Proof.
  apply (destroy_after_rotation_aborts 4 2 (bs "[") (bs "]") ex_event (fun _ => true) (@length byte)
              ltac:(lia) ltac:(done) wr_all [TAppend x61; TAppend x62; TFlush] [x61; x62]); reflexivity.
Defined.
