(* ===== verification/TraceAgent.v ===== *)
(** src/src/tracing/trace_agent.{h,cc}: which categories are traced, and when.

    V8's tracing controller is reached through a log of calls; [recording] is what
    they amount to.  The callers are the command line (aworker_platform.cc), the
    diagnostic channel's requests (noslated_diag_channel.cc) and the fork of a warm
    worker (aworker.cc). *)

From S2P Require Import Prelude Json Format.
Import String.StringSyntax.
Local Open Scope string_scope.
Local Open Scope list_scope.

(** [src/src/tracing/trace_agent.h 37-41, TraceAgent::Status] *)
Inductive Status := kStopped | kStarted | kSuspended.

#[export] Instance Status_eq_dec : EqDecision Status.
Proof. solve_decision. Defined.

(** Calls of V8's controller and of the timer. *)
Inductive TraceCall :=
  | StartTracing (config : gset bytes)
  | StopTracing
  | InitializeBuffer (path : bytes)
  | FlushTimerStart.

(** [src/src/tracing/trace_agent.h 90-99, TraceAgent] [calls], the latest first, are the
    calls of the controller and of the timer. *)
Record TraceAgent := mkAgent {
  categories_ : gset bytes;
  status_ : Status;
  timer_started_ : bool;
  calls : list TraceCall }.

(** [src/src/tracing/trace_agent.cc 44-48, TraceAgent::TraceAgent] *)
Definition TraceAgent_create : TraceAgent := mkAgent ∅ kStopped false [].

Definition call (a : TraceAgent) (c : TraceCall) : TraceAgent :=
  mkAgent (categories_ a) (status_ a) (timer_started_ a) (c :: calls a).

Definition set_status (a : TraceAgent) (s : Status) : TraceAgent :=
  mkAgent (categories_ a) s (timer_started_ a) (calls a).

(** [src/src/tracing/trace_agent.cc 57-65, TraceAgent::SetLogDirectory] *)
Definition SetLogDirectory (a : TraceAgent) (log_directory : bytes) (pid : Z) : outcome TraceAgent :=
  path ← SPrintF (fun _ => []) (bs "%s/aworker_trace.%d") [AString log_directory; AInt 4 pid];
  Ret (call a (InitializeBuffer path)).

(** [src/src/tracing/trace_agent.cc 132-138, TraceAgent::CreateTraceConfig] V8 is
    given the names as C strings. *)
Definition CreateTraceConfig (a : TraceAgent) : gset bytes := set_map c_str (categories_ a).

(** [src/src/tracing/trace_agent.cc 95-111, TraceAgent::Start] *)
Definition Start (a : TraceAgent) : TraceAgent :=
  let a := set_status (call a (StartTracing (CreateTraceConfig a))) kStarted in
  if timer_started_ a then a
  else mkAgent (categories_ a) (status_ a) true (FlushTimerStart :: calls a).

(** [src/src/tracing/trace_agent.cc 81-88, TraceAgent::Enable] *)
Definition Enable_set (a : TraceAgent) (categories : gset bytes) : TraceAgent :=
  let a := mkAgent (categories ∪ categories_ a) (status_ a) (timer_started_ a) (calls a) in
  if bool_decide (status_ a <> kStopped) then a else Start a.

(** [src/src/tracing/trace_agent.cc 71-76, TraceAgent::Enable] The words of the string;
    [prev_pos] and [pos] are the beginning of [s]. *)
Fixpoint split_categories (fuel : nat) (s : bytes) : outcome (list bytes) :=
  match find_comma s with
  | (word, None) => Ret [word]
  | (word, Some rest) =>
      match fuel with
      | O => Fault OutOfFuel
      | S fuel => ws ← split_categories fuel rest; Ret (word :: ws)
      end
  end.

(** [src/src/tracing/trace_agent.cc 67-79, TraceAgent::Enable] *)
Definition Enable (a : TraceAgent) (categories : bytes) : outcome TraceAgent :=
  ws ← split_categories (length categories) categories; Ret (Enable_set a (list_to_set ws)).

(** [src/src/tracing/trace_agent.cc 113-119, TraceAgent::Stop] *)
Definition Stop (a : TraceAgent) : TraceAgent :=
  if bool_decide (status_ a <> kStarted) then a else set_status (call a StopTracing) kStopped.

(** [src/src/tracing/trace_agent.h 65-68, SuspendTracingScope::SuspendTracingScope] *)
Definition Suspend (a : TraceAgent) : TraceAgent := call (set_status a kSuspended) StopTracing.

(** [src/src/tracing/trace_agent.h 70-77, SuspendTracingScope::~SuspendTracingScope] *)
Definition Resume (a : TraceAgent) : outcome TraceAgent :=
  CHECK (bool_decide (status_ a = kSuspended)) ;;
  Ret (if bool_decide (categories_ a <> ∅) then Start a else set_status a kStopped).

(** ** The callers *)

Fixpoint enable_all (a : TraceAgent) (cats : list bytes) : outcome TraceAgent :=
  match cats with [] => Ret a | c :: cats => a ← Enable a c; enable_all a cats end.

(** [src/src/agent_channel/noslated_diag_channel.cc 199-205, NoslatedDiagChannel::TracingStart] *)
Definition tracing_start (a : TraceAgent) (cats : list bytes) : outcome TraceAgent :=
  a ← enable_all (Suspend a) cats; Resume a.

(** [src/src/aworker_platform.cc 310-317, AworkerPlatform::EvaluateCommandlineOptions]
    [cats] are the categories where tracing is enabled and has some. *)
Definition EvaluateCommandlineOptions (a : TraceAgent) (dir : bytes) (pid : Z) (cats : option bytes) : outcome TraceAgent :=
  a ← SetLogDirectory a dir pid;
  match cats with Some c => Enable a c | None => Ret a end.

(** [src/src/aworker.cc 206-206, AworkerMainInstance::WarmFork] What it does to the trace
    agent. *)
Definition WarmFork (a : TraceAgent) (dir : bytes) (pid : Z) (cats : option bytes) : outcome TraceAgent :=
  a ← EvaluateCommandlineOptions (Suspend a) dir pid cats; Resume a.

Inductive AgentOp :=
  | OpTracingStart (cats : list bytes)
  | OpTracingStop
  | OpWarmFork (dir : bytes) (pid : Z) (cats : option bytes).

Definition astep (a : TraceAgent) (op : AgentOp) : outcome TraceAgent :=
  match op with
  | OpTracingStart cats => tracing_start a cats
  | OpTracingStop => Ret (Stop a)
  | OpWarmFork dir pid cats => WarmFork a dir pid cats
  end.

Fixpoint arun (a : TraceAgent) (ops : list AgentOp) : outcome TraceAgent :=
  match ops with [] => Ret a | op :: ops => a ← astep a op; arun a ops end.

(** ** What the calls amount to *)

(** The configuration V8 records with, if it records. *)
Fixpoint recording (cs : list TraceCall) : option (gset bytes) :=
  match cs with
  | [] => None
  | StartTracing c :: _ => Some c
  | StopTracing :: _ => None
  | _ :: cs => recording cs
  end.

Definition is_start (c : TraceCall) : bool := match c with StartTracing _ => true | _ => false end.
Definition is_timer (c : TraceCall) : bool := match c with FlushTimerStart => true | _ => false end.

Record agent_inv (a : TraceAgent) : Prop := {
  ai_recording : recording (calls a) = if bool_decide (status_ a = kStarted) then Some (set_map c_str (categories_ a)) else None;
  ai_timer : length (List.filter is_timer (calls a)) = if timer_started_ a then 1%nat else 0%nat;
  ai_started : timer_started_ a = existsb is_start (calls a) }.

Definition joined (ws : list bytes) : bytes :=
  match ws with [] => [] | w :: ws => w ++ (ws ≫= fun w => x2c :: w) end.

Lemma split_categories_spec fuel s :
  (length s <= fuel)%nat ->
  exists w ws, split_categories fuel s = Ret (w :: ws) /\ joined (w :: ws) = s /\ Forall (fun w => x2c ∉ w) (w :: ws).
Proof.
  assert (Hf : forall s, let '(w, r) := find_comma s in
    x2c ∉ w /\ s = w ++ match r with None => [] | Some r => x2c :: r end).
  { clear. induction s as [|c s IH]; cbn; [split; [set_solver|done]|].
    destruct (byte_eqb_spec c x2c) as [->|Hc]; [split; [set_solver|done]|].
    destruct (find_comma s) as [w r]. destruct IH as [Hw ->]. split; [|done].
    rewrite not_elem_of_cons. done. }
  revert s. induction fuel as [|fuel IH]; intros s Hl; specialize (Hf s) as Hs.
  - destruct s; [|cbn in Hl; lia]. exists [], []. cbn. split_and!; [done|done|]. repeat constructor. set_solver.
  - cbn [split_categories]. destruct (find_comma s) as [w [r|]] eqn:E; destruct Hs as [Hw Hs].
    + subst s. rewrite length_app in Hl. cbn in Hl. destruct (IH r ltac:(lia)) as (w' & ws & -> & Hj & HF).
      exists w, (w' :: ws). cbn. split_and!; [done| |by constructor]. rewrite <-Hj. cbn. by rewrite ?app_assoc.
    + exists w, []. rewrite app_nil_r in Hs. cbn. rewrite app_nil_r. split_and!; [done|done|by repeat constructor].
Qed.

Lemma Start_inv a :
  agent_inv a -> agent_inv (Start a) /\ status_ (Start a) = kStarted /\ categories_ (Start a) = categories_ a.
Proof.
  intros [H1 H2 H3]. unfold Start, CreateTraceConfig. cbn. destruct (timer_started_ a) eqn:E; cbn; (split; [|done]);
    split; cbn; rewrite ?E; try done.
  by rewrite H2.
Qed.

(** Between operations the agent is not suspended; inside a scope it is, and nothing
    is recorded. *)
Definition suspended (a : TraceAgent) : Prop := agent_inv a /\ status_ a = kSuspended.

Lemma Suspend_inv a : agent_inv a -> suspended (Suspend a).
Proof. intros [H1 H2 H3]. split; [|done]. split; done. Qed.

Lemma Enable_suspended a c :
  suspended a -> exists a' ws, Enable a c = Ret a' /\ suspended a' /\
    split_categories (length c) c = Ret ws /\ categories_ a' = list_to_set ws ∪ categories_ a.
Proof.
  intros [[H1 H2 H3] Hs]. unfold Enable.
  destruct (split_categories_spec (length c) c ltac:(lia)) as (w & ws & E & _). rewrite E. cbn [mbind outcome_bind].
  unfold Enable_set. cbn [status_]. rewrite Hs, bool_decide_eq_true_2 by done. eexists _, _. split; [done|].
  split; [|done]. split; [|done]. split; cbn [recording calls status_ categories_ timer_started_]; [|done|done].
  rewrite Hs in H1. done.
Qed.

Lemma enable_all_suspended cats : forall a, suspended a -> exists a', enable_all a cats = Ret a' /\ suspended a'.
Proof.
  induction cats as [|c cats IH]; intros a Ha; cbn; [eauto|].
  destruct (Enable_suspended a c Ha) as (a1 & ws & -> & Ha1 & _). by apply IH.
Qed.

Lemma Resume_inv a :
  suspended a -> exists a', Resume a = Ret a' /\ agent_inv a' /\ categories_ a' = categories_ a /\
    status_ a' = (if bool_decide (categories_ a = ∅) then kStopped else kStarted).
Proof.
  intros [Ha Hs]. unfold Resume. rewrite Hs. change (bool_decide (kSuspended = kSuspended)) with true. cbn [mbind outcome_bind].
  destruct (decide (categories_ a = ∅)) as [E|E].
  - rewrite bool_decide_eq_false_2 by (intros Hn; by apply Hn). rewrite bool_decide_eq_true_2 by done.
    eexists. split; [done|]. split_and!; [|done|done]. destruct Ha as [H1 H2 H3]. rewrite Hs in H1. split; done.
  - rewrite bool_decide_eq_true_2 by done. rewrite bool_decide_eq_false_2 by done.
    destruct (Start_inv a Ha) as (? & ? & ?). eauto.
Qed.

Lemma options_suspended a dir pid cats :
  suspended a -> exists a', EvaluateCommandlineOptions a dir pid cats = Ret a' /\ suspended a' /\
    (cats = None -> categories_ a' = categories_ a).
Proof.
  intros Ha. unfold EvaluateCommandlineOptions, SetLogDirectory, SPrintF.
  rewrite SPrintFImpl_fill by lia. cbn [mbind outcome_bind].
  match goal with |- context [fill ?f ?p ?l] => destruct (fill f p l) as [path|] eqn:E; [|by cbn in E] end.
  cbn [mbind outcome_bind].
  assert (Hc : suspended (call a (InitializeBuffer path))).
  { destruct Ha as [[H1 H2 H3] Hs]. split; [|done]. split; done. }
  destruct cats as [c|]; [|eauto].
  destruct (Enable_suspended _ c Hc) as (a' & ws & -> & Ha' & _). eexists. split; [done|]. split; [done|done].
Qed.

Lemma agent_step_inv a op :
  agent_inv a -> status_ a <> kSuspended -> exists a', astep a op = Ret a' /\ agent_inv a' /\ status_ a' <> kSuspended.
Proof.
  intros Ha Hs. destruct op as [cats| |dir pid cats]; cbn [astep].
  - destruct (enable_all_suspended cats _ (Suspend_inv a Ha)) as (a1 & E & H1). unfold tracing_start. rewrite E.
    destruct (Resume_inv a1 H1) as (a2 & E2 & H2 & _ & Hst). exists a2. split_and!; [done|done|].
    rewrite Hst. by case_bool_decide.
  - exists (Stop a). split; [done|]. unfold Stop. case_bool_decide; [done|]. destruct Ha as [H1 H2 H3].
    split; [|done]. split; done.
  - destruct (options_suspended _ dir pid cats (Suspend_inv a Ha)) as (a1 & E & H1 & _). unfold WarmFork. rewrite E.
    destruct (Resume_inv a1 H1) as (a2 & E2 & H2 & _ & Hst). exists a2. split_and!; [done|done|].
    rewrite Hst. by case_bool_decide.
Qed.

Lemma agent_run_inv ops : forall a,
  agent_inv a -> status_ a <> kSuspended -> exists a', arun a ops = Ret a' /\ agent_inv a' /\ status_ a' <> kSuspended.
Proof.
  induction ops as [|op ops IH]; intros a Ha Hs; cbn; [eauto|].
  destruct (agent_step_inv a op Ha Hs) as (a1 & -> & Ha1 & Hs1). by apply IH.
Qed.

Lemma create_agent_inv : agent_inv TraceAgent_create /\ status_ TraceAgent_create <> kSuspended.
Proof. split; [split|]; done. Qed.

(** C31 The state of the trace agent is what V8 does: over every history of requests to
    start and stop tracing and of forks, no operation faults, tracing is never left
    suspended, V8 records exactly when the state is started and then with all the
    categories of the agent (each up to its first NUL), and the flush timer is started once, with the first
    recording. *)
Theorem trace_agent_faithful ops :
  exists a, arun TraceAgent_create ops = Ret a /\ status_ a <> kSuspended /\
    recording (calls a) = (if bool_decide (status_ a = kStarted) then Some (set_map c_str (categories_ a)) else None) /\
    length (List.filter is_timer (calls a)) = (if existsb is_start (calls a) then 1%nat else 0%nat).
Proof.
  destruct create_agent_inv as [Ha Hs]. destruct (agent_run_inv ops _ Ha Hs) as (a & E & [H1 H2 H3] & Hs').
  exists a. split_and!; [done|done|done|]. by rewrite H2, H3.
Qed.

(** The categories of a comma separated string are its words: none contains a comma,
    and joined with commas they are the string; an empty string is one empty
    category. *)
Theorem split_categories_joined s :
  exists w ws, split_categories (length s) s = Ret (w :: ws) /\ joined (w :: ws) = s /\
    Forall (fun w => x2c ∉ w) (w :: ws).
Proof. apply split_categories_spec. lia. Qed.

(** Stopped tracing comes back: stopping does not forget the categories, so that a
    fork without any tracing option starts recording again, and a later request for
    other categories records the stopped ones as well. *)
Theorem stopped_tracing_comes_back a dir pid :
  agent_inv a -> status_ a = kStarted -> categories_ a <> ∅ ->
  status_ (Stop a) = kStopped /\
  exists a', WarmFork (Stop a) dir pid None = Ret a' /\ status_ a' = kStarted /\
    recording (calls a') = Some (set_map c_str (categories_ a)).
Proof.
  intros Ha Hs Hc. assert (HS : Stop a = set_status (call a StopTracing) kStopped).
  { unfold Stop. rewrite bool_decide_eq_false_2; [done|]. rewrite Hs. intros Hn. by apply Hn. }
  assert (Ha' : agent_inv (Stop a)). { rewrite HS. destruct Ha as [H1 H2 H3]. split; done. }
  split; [by rewrite HS|]. unfold WarmFork.
  destruct (options_suspended _ dir pid None (Suspend_inv _ Ha')) as (a1 & -> & H1 & Hcat). cbn [mbind outcome_bind].
  destruct (Resume_inv a1 H1) as (a2 & -> & H2 & Hc2 & Hst). exists a2.
  specialize (Hcat eq_refl). rewrite HS in Hcat. cbn in Hcat. rewrite Hcat in Hc2, Hst.
  rewrite bool_decide_eq_false_2 in Hst by done. split_and!; [done|done|].
  rewrite (ai_recording _ H2), Hst, Hc2. done.
Qed.

Definition ex_agent : TraceAgent := Start (mkAgent {[bs "v8"]} kStopped false []).

Lemma stopped_tracing_comes_back_witness :
  exists a', WarmFork (Stop ex_agent) (bs "/tmp") 1 None = Ret a' /\
    status_ a' = kStarted /\ recording (calls a') = Some {[bs "v8"]}.
Proof.
  apply (stopped_tracing_comes_back ex_agent (bs "/tmp") 1).
  - apply Start_inv. split; reflexivity.
  - reflexivity.
  - apply (non_empty_singleton_L (C := gset bytes) (bs "v8")).
Defined.
