(* ===== verification/Environ.v ===== *)
(** src/src/util.cc (os_environ, os_free_environ, ReadFileSync) and
    src/src/binding/internal/process_env_vars.cc: the environment as a JavaScript object,
    and reading a whole file.

    The environment is the list of its strings; getenv, setenv and unsetenv are POSIX's.
    Buffers are numbered, [live] are those not freed.  JavaScript strings are given by
    their UTF-8 bytes and reach libc as C strings. *)

From S2P Require Import Prelude JsMessages ZeroCopyStream.
Import String.StringSyntax.
Local Open Scope string_scope.
Local Open Scope list_scope.
Local Open Scope nat_scope.

Definition EQ : byte := x3d.

(** [strchr(s, '=')]: the text before it and the text behind it. *)
Fixpoint split_eq (s : bytes) : option (bytes * bytes) :=
  match s with
  | [] => None
  | c :: s =>
      if byte_eqb c EQ then Some ([], s)
      else match split_eq s with Some (a, b) => Some (c :: a, b) | None => None end
  end.

(** * The environment of libc *)

Definition entry (k v : bytes) : bytes := k ++ EQ :: v.

Fixpoint starts_with_bytes (k s : bytes) : option bytes :=
  match k, s with
  | [], _ => Some s
  | a :: k, b :: s => if byte_eqb a b then starts_with_bytes k s else None
  | _ :: _, [] => None
  end.

(** The value of an entry whose name is [k]. *)
Definition entry_value (k e : bytes) : option bytes := starts_with_bytes (k ++ [EQ]) e.

Fixpoint getenv (environ : list bytes) (k : bytes) : option bytes :=
  match environ with
  | [] => None
  | e :: es => match entry_value k e with Some v => Some v | None => getenv es k end
  end.

(** A name that setenv and unsetenv accept. *)
Definition valid_name (k : bytes) : bool :=
  match k with [] => false | _ => match split_eq k with Some _ => false | None => true end end.

Definition unsetenv (environ : list bytes) (k : bytes) : list bytes :=
  if valid_name k then List.filter (fun e => match entry_value k e with Some _ => false | None => true end) environ
  else environ.

Definition setenv (environ : list bytes) (k v : bytes) : list bytes :=
  if valid_name k then
    match getenv environ k with
    | Some _ => map (fun e => match entry_value k e with Some _ => entry k v | None => e end) environ
    | None => environ ++ [entry k v]
    end
  else environ.

(** * The list of the environment *)

(** [src/src/util.h 167-170, env_item_t] The number is the buffer that holds both. *)
Record env_item := mkItem { item_name : bytes; item_value : bytes; item_buf : nat }.

(** What is allocated: the buffers, and whether the array is. *)
Record Heap := mkHeap { live : list nat; array : bool; next_buf : nat }.

Definition Heap_init : Heap := mkHeap [] false 0.

(** [src/src/util.cc 46-68, os_environ] The loop; [strdup_ok] tells whether the strdup of
    an entry succeeds.  [inl] is a failure, with the items made before it. *)
Fixpoint environ_loop (strdup_ok : nat -> bool) (j : nat) (environ : list bytes) (items : list env_item) (h : Heap)
    : (list env_item * Heap) + (list env_item * Heap) :=
  match environ with
  | [] => inr (items, h)
  | e :: es =>
      if strdup_ok j then
        let buf := next_buf h in
        match split_eq e with
        | None => environ_loop strdup_ok (S j) es items (mkHeap (live h) (array h) (S buf))
        | Some (n, v) =>
            environ_loop strdup_ok (S j) es (items ++ [mkItem n v buf]) (mkHeap (buf :: live h) (array h) (S buf))
        end
      else inl (items, h)
  end.

Definition free (h : Heap) (b : nat) : Heap :=
  mkHeap (List.filter (fun x => negb (x =? b)) (live h)) (array h) (next_buf h).

(** [src/src/util.cc 31-83, os_environ] The result is the list of items, or [None] for
    -1. The failure path frees the item at index [cnt] in every pass, which is still
    zero from calloc, so that it frees a null pointer. *)
Definition os_environ (calloc_ok : bool) (strdup_ok : nat -> bool) (environ : list bytes) (h : Heap)
    : option (list env_item) * Heap :=
  if calloc_ok then
    match environ_loop strdup_ok 0 environ [] (mkHeap (live h) true (next_buf h)) with
    | inr (items, h) => (Some items, h)
    | inl (items, h) => (None, mkHeap (live h) false (next_buf h))
    end
  else (None, h).

(** [src/src/util.cc 85-93, os_free_environ] *)
Definition os_free_environ (items : list env_item) (h : Heap) : Heap :=
  let h := fold_left (fun h it => free h (item_buf it)) items h in
  mkHeap (live h) false (next_buf h).

(** * process.env *)

(** [src/src/binding/internal/process_env_vars.cc 40-51, DateTimeConfigurationChangeNotification] *)
Definition is_TZ (key : bytes) : bool :=
  match key with [a; b] => byte_eqb a x54 && byte_eqb b x5a | _ => false end.

(** The strings of the environment and how often V8 has been told to detect the time
    zone. *)
Record EnvStore := mkEnv { environ : list bytes; tz_notified : nat }.

(** [src/src/binding/internal/process_env_vars.cc 53-74, ProcessEnvStore::Get] *)
Definition Get (s : EnvStore) (key : bytes) : option bytes := getenv (environ s) (c_str key).

(** [src/src/binding/internal/process_env_vars.cc 76-87, ProcessEnvStore::Set] The result
    of setenv is not looked at. *)
Definition Set_ (s : EnvStore) (key value : bytes) : EnvStore :=
  mkEnv (setenv (environ s) (c_str key) (c_str value)) (if is_TZ key then S (tz_notified s) else tz_notified s).

(** [src/src/binding/internal/process_env_vars.cc 89-108, ProcessEnvStore::Query] *)
Definition Query (s : EnvStore) (key : bytes) : Z :=
  match getenv (environ s) (c_str key) with None => -1 | Some _ => 0 end.

(** [src/src/binding/internal/process_env_vars.cc 110-114, ProcessEnvStore::Delete] *)
Definition Delete_ (s : EnvStore) (key : bytes) : EnvStore :=
  mkEnv (unsetenv (environ s) (c_str key)) (if is_TZ key then S (tz_notified s) else tz_notified s).

(** [src/src/binding/internal/process_env_vars.cc 116-142, ProcessEnvStore::Enumerate]
    The list is freed on the way out. *)
Definition Enumerate (calloc_ok : bool) (strdup_ok : nat -> bool) (s : EnvStore) (h : Heap) : outcome (list bytes * Heap) :=
  match os_environ calloc_ok strdup_ok (environ s) h with
  | (Some items, h) => Ret (map item_name items, os_free_environ items h)
  | (None, h) => Fault CheckFailed
  end.

(** [src/src/binding/internal/process_env_vars.cc 158-180, EnvSetter] The value is its
    text if it is a string, a number or a boolean; the result is the error's text. *)
Definition EnvSetter (s : EnvStore) (property : bytes) (value : option bytes) : EnvStore + bytes :=
  match value with
  | None => inr (bs "Expects a string, number, or boolean")
  | Some v => inl (Set_ s property v)
  end.

(** [src/src/binding/internal/process_env_vars.cc 192-202, EnvDeleter] Always true. *)
Definition EnvDeleter (s : EnvStore) (property : bytes) : EnvStore * bool := (Delete_ s property, true).

(** * Reading a file *)

(** [src/src/util.cc 115-126, ReadFileSync] [nread] is what a read at an offset returns. *)
Fixpoint read_sync (nread : nat -> Z) (f : bytes) (fuel : nat) (result : bytes) : outcome (bytes + Z) :=
  match fuel with
  | O => Fault OutOfFuel
  | S fuel =>
      let r := nread (length result) in
      if (r <? 0)%Z then Ret (inr r)
      else if (r <=? 0)%Z then Ret (inl result)
      else read_sync nread f fuel (result ++ take (Z.to_nat r) (drop (length result) f))
  end.

(** [src/src/util.cc 95-128, ReadFileSync] [None] for a file that cannot be opened. *)
Definition ReadFileSync (nread : nat -> Z) (f : option bytes) (err : Z) (fuel : nat) : outcome (bytes + Z) :=
  match f with None => Ret (inr err) | Some f => read_sync nread f fuel [] end.

(** * Names and values *)

Lemma starts_with_bytes_spec p s r : starts_with_bytes p s = Some r <-> s = p ++ r.
Proof.
  revert s. induction p as [|a p IH]; intros s; cbn; [split; congruence|].
  destruct s as [|b s]; [done|]. destruct (byte_eqb_spec a b) as [->|Hne]; [rewrite IH|]; split; congruence.
Qed.

Lemma split_eq_entry k v : split_eq k = None -> split_eq (entry k v) = Some (k, v).
Proof.
  unfold entry. induction k as [|c k IH]; cbn; [done|]. destruct (byte_eqb c EQ); [done|].
  destruct (split_eq k) as [[]|]; [done|]. intros _. by rewrite IH.
Qed.

Lemma split_eq_spec e k v : split_eq e = Some (k, v) -> e = entry k v /\ split_eq k = None.
Proof.
  unfold entry. revert k. induction e as [|c e IH]; intros k; cbn; [done|].
  destruct (byte_eqb_spec c EQ) as [->|Hne]; [by intros [= <- <-]|].
  destruct (split_eq e) as [[k' v']|]; [|done]. intros [= <- <-]. destruct (IH _ eq_refl) as [-> Hk]. split; [done|].
  cbn. by rewrite byte_eqb_ne, Hk.
Qed.

Lemma valid_split k : valid_name k = true -> split_eq k = None.
Proof. unfold valid_name. destruct k; [done|]. by destruct (split_eq _). Qed.

(** The entry of a valid name is the one that splits into it. *)
Lemma entry_value_split k e v : valid_name k = true -> entry_value k e = Some v <-> split_eq e = Some (k, v).
Proof.
  intros Hk. unfold entry_value. rewrite starts_with_bytes_spec, <-app_assoc. split.
  - intros ->. by apply split_eq_entry, valid_split.
  - intros H. by apply split_eq_spec in H as [-> _].
Qed.

Lemma entry_value_entry k k' v :
  valid_name k = true -> valid_name k' = true -> entry_value k (entry k' v) = if decide (k = k') then Some v else None.
Proof.
  intros Hk Hk'. destruct (entry_value k (entry k' v)) as [v'|] eqn:E.
  - apply entry_value_split in E; [|done]. rewrite split_eq_entry in E by (by apply valid_split). simplify_eq.
    by rewrite decide_True.
  - destruct (decide (k = k')) as [->|]; [|done]. exfalso.
    assert (H : entry_value k' (entry k' v) = Some v) by (apply entry_value_split; [done|]; by apply split_eq_entry, valid_split).
    congruence.
Qed.

Lemma getenv_app es es' k : getenv (es ++ es') k = match getenv es k with Some v => Some v | None => getenv es' k end.
Proof. induction es as [|e es IH]; cbn; [done|]. destruct (entry_value k e); [done|apply IH]. Qed.

Lemma getenv_map es k k' v :
  valid_name k = true -> valid_name k' = true ->
  getenv (map (fun e => match entry_value k e with Some _ => entry k v | None => e end) es) k' =
  if decide (k' = k) then (match getenv es k with Some _ => Some v | None => None end) else getenv es k'.
Proof.
  intros Hk Hk'. induction es as [|e es IH]; cbn; [by destruct (decide _)|].
  destruct (entry_value k e) as [u|] eqn:E.
  - rewrite entry_value_entry by done. destruct (decide (k' = k)) as [->|Hne]; [done|]. rewrite IH.
    destruct (entry_value k' e) as [u'|] eqn:E'; [|done].
    apply entry_value_split in E, E'; [congruence|done..].
  - destruct (decide (k' = k)) as [->|Hne]; [rewrite E; exact IH|]. destruct (entry_value k' e); [done|exact IH].
Qed.

Lemma getenv_filter es k k' :
  valid_name k = true -> valid_name k' = true ->
  getenv (List.filter (fun e => match entry_value k e with Some _ => false | None => true end) es) k' =
  if decide (k' = k) then None else getenv es k'.
Proof.
  intros Hk Hk'. induction es as [|e es IH]; cbn; [by destruct (decide _)|].
  destruct (entry_value k e) as [u|] eqn:E; cbn; rewrite IH.
  - destruct (decide (k' = k)) as [->|Hne]; [done|].
    destruct (entry_value k' e) as [u'|] eqn:E'; [|done]. apply entry_value_split in E, E'; [congruence|done..].
  - destruct (decide (k' = k)) as [->|Hne]; [by rewrite E|]. by destruct (entry_value k' e).
Qed.

(** process.env is a map from names to values: what is set is read back as a C string
    and other names keep their values, what is deleted is gone; a name that libc does
    not accept, the empty one or one with an equals sign, changes nothing, although the
    setter and the deleter report success. *)
Theorem env_is_map s k v k' :
  valid_name (c_str k') = true ->
  (valid_name (c_str k) = true ->
     Get (Set_ s k v) k' = (if decide (c_str k' = c_str k) then Some (c_str v) else Get s k') /\
     Get (Delete_ s k) k' = (if decide (c_str k' = c_str k) then None else Get s k')) /\
  (valid_name (c_str k) = false ->
     environ (Set_ s k v) = environ s /\ environ (EnvDeleter s k).1 = environ s /\ (EnvDeleter s k).2 = true).
Proof.
  intros Hk'. split.
  - intros Hk. unfold Get, Set_, Delete_, setenv, unsetenv. cbn [environ]. rewrite Hk. split; [|by apply getenv_filter].
    destruct (getenv (environ s) (c_str k)) as [u|] eqn:E.
    + rewrite getenv_map by done. destruct (decide _); [|done]. by rewrite E.
    + rewrite getenv_app. cbn. rewrite entry_value_entry by done. destruct (decide (c_str k' = c_str k)) as [Heq|Hne].
      * by rewrite Heq, E.
      * by destruct (getenv (environ s) (c_str k')).
  - intros Hk. cbn. unfold setenv, unsetenv. by rewrite Hk.
Qed.

(** ** Listing *)

Definition heap_ok (h : Heap) : Prop := Forall (fun b => b < next_buf h) (live h).

Definition items_of (es : list bytes) : list (bytes * bytes) :=
  omap split_eq es.

Lemma environ_loop_spec strdup_ok es : forall j items h,
  match environ_loop strdup_ok j es items h with
  | inr (items', h') => (forall i, i < length es -> strdup_ok (j + i) = true) /\
      exists new, items' = items ++ new /\ map (fun it => (item_name it, item_value it)) new = items_of es /\
        live h' = rev (map item_buf new) ++ live h /\ array h' = array h /\
        Forall (fun it => next_buf h <= item_buf it) new /\ next_buf h <= next_buf h'
  | inl (items', h') => exists i, i < length es /\ strdup_ok (j + i) = false /\
      exists new, items' = items ++ new /\ map (fun it => (item_name it, item_value it)) new = items_of (take i es) /\
        live h' = rev (map item_buf new) ++ live h
  end.
Proof.
  induction es as [|e es IH]; intros j items h; cbn [environ_loop].
  - split; [cbn; lia|]. exists []. rewrite app_nil_r. split_and!; try done; lia.
  - destruct (strdup_ok j) eqn:Ej.
    2: { exists 0. rewrite Nat.add_0_r. split_and!; [cbn; lia|done|]. exists []. by rewrite app_nil_r. }
    destruct (split_eq e) as [[n v]|] eqn:Es.
    + specialize (IH (S j) (items ++ [mkItem n v (next_buf h)]) (mkHeap (next_buf h :: live h) (array h) (S (next_buf h)))).
      destruct (environ_loop _ _ _ _ _) as [[items' h']|[items' h']].
      * destruct IH as (i & Hi & Hsi & new & -> & Hm & Hl). exists (S i). split_and!; [cbn; lia|by rewrite <-plus_n_Sm|].
        exists (mkItem n v (next_buf h) :: new). rewrite <-app_assoc. split_and!; [done|cbn; by rewrite Es; cbn; rewrite Hm|].
        cbn in *. by rewrite Hl, <-app_assoc.
      * destruct IH as (Hall & new & -> & Hm & Hl & Ha & Hf & Hn). cbn in *. split.
        { intros [|i] Hi; [by rewrite Nat.add_0_r|]. rewrite <-plus_n_Sm. apply (Hall i). lia. }
        exists (mkItem n v (next_buf h) :: new). rewrite <-app_assoc. split_and!; [done|cbn; by rewrite Es; cbn; rewrite Hm| |done| |lia].
        { cbn. by rewrite Hl, <-app_assoc. }
        { constructor; [done|]. eapply Forall_impl; [exact Hf|]. cbn. lia. }
    + specialize (IH (S j) items (mkHeap (live h) (array h) (S (next_buf h)))).
      destruct (environ_loop _ _ _ _ _) as [[items' h']|[items' h']].
      * destruct IH as (i & Hi & Hsi & new & -> & Hm & Hl). exists (S i). split_and!; [cbn; lia|by rewrite <-plus_n_Sm|].
        exists new. split_and!; [done|cbn; by rewrite Es|done].
      * destruct IH as (Hall & new & -> & Hm & Hl & Ha & Hf & Hn). cbn in *. split.
        { intros [|i] Hi; [by rewrite Nat.add_0_r|]. rewrite <-plus_n_Sm. apply (Hall i). lia. }
        exists new. split_and!; [done|cbn; by rewrite Es|done|done| |lia]. eapply Forall_impl; [exact Hf|]. cbn. lia.
Qed.

Lemma free_all_live items : forall h,
  live (fold_left (fun h it => free h (item_buf it)) items h) =
  List.filter (fun b => negb (existsb (fun it => b =? item_buf it) items)) (live h).
Proof.
  induction items as [|it items IH]; intros h; cbn.
  - induction (live h) as [|b l IHl]; cbn; [done|by rewrite <-IHl].
  - rewrite IH. cbn. induction (live h) as [|b l IHl]; cbn; [done|].
    destruct (b =? item_buf it); cbn; [done|]. destruct (existsb _ items); cbn; by rewrite IHl.
Qed.

Lemma getenv_items es k : valid_name k = true -> is_Some (getenv es k) <-> k ∈ (items_of es).*1.
Proof.
  intros Hk. induction es as [|e es IH]; cbn; [split; [by intros [? ?]|by intros ?%elem_of_nil]|].
  destruct (split_eq e) as [[n v]|] eqn:Es; cbn.
  - rewrite elem_of_cons, <-IH. destruct (entry_value k e) as [u|] eqn:E.
    + apply entry_value_split in E; [|done]. rewrite Es in E. simplify_eq. split; [by left|eauto].
    + split; [by right|]. intros [->|?]; [|done]. apply (entry_value_split n e v Hk) in Es. congruence.
  - destruct (entry_value k e) as [u|] eqn:E; [|exact IH]. apply entry_value_split in E; [congruence|done].
Qed.

(** Listing process.env gives exactly the names that have a value and frees everything
    it allocated. *)
Theorem Enumerate_lists_names s h strdup_ok :
  heap_ok h -> (forall j, strdup_ok j = true) ->
  exists names h', Enumerate true strdup_ok s h = Ret (names, h') /\ live h' = live h /\ array h' = false /\
    forall k, valid_name (c_str k) = true -> c_str k ∈ names <-> Query s k = 0%Z.
Proof.
  intros Hh Hok. unfold Enumerate, os_environ.
  pose proof (environ_loop_spec strdup_ok (environ s) 0 [] (mkHeap (live h) true (next_buf h))) as H.
  destruct (environ_loop _ _ _ _ _) as [[items h1]|[items h1]].
  { destruct H as (i & _ & Hf & _). by rewrite Hok in Hf. }
  destruct H as (_ & new & -> & Hm & Hl & _ & Hge & _). cbn in Hl, Hge. eexists _, _. split; [done|]. split_and!; [|done|].
  - unfold os_free_environ. cbn. rewrite free_all_live, Hl. rewrite List.filter_app.
    assert (H1 : forall l, (forall b, b ∈ l -> exists it, it ∈ new /\ item_buf it = b) ->
                 List.filter (fun b => negb (existsb (fun it => b =? item_buf it) new)) l = []).
    { clear. induction l as [|b l IH]; intros Hb; cbn; [done|]. destruct (Hb b ltac:(apply list_elem_of_here)) as (it & Hin & <-).
      replace (existsb _ new) with true; [|symmetry; apply existsb_exists; exists it; split; [by apply list_elem_of_In|apply Nat.eqb_refl]].
      cbn. apply IH. intros b Hb'. apply Hb. by right. }
    rewrite H1.
    2: { intros b Hb. apply list_elem_of_In, in_rev, list_elem_of_In, list_elem_of_fmap in Hb as (it & -> & ?). eauto. }
    unfold heap_ok in Hh. cbn. clear -Hh Hge. induction (live h) as [|b l IH]; [done|]. apply Forall_cons in Hh as [Hb Hh]. cbn.
    replace (existsb (fun it => b =? item_buf it) new) with false; [cbn; by rewrite IH|]. symmetry.
    apply not_true_is_false. intros Hx. apply existsb_exists in Hx as (it & Hin & He). apply Nat.eqb_eq in He.
    apply list_elem_of_In in Hin. rewrite Forall_forall in Hge. specialize (Hge _ Hin). lia.
  - intros k Hk. assert (Hn : map item_name new = (items_of (environ s)).*1).
    { rewrite <-Hm. clear. induction new as [|it new IH]; cbn; [done|by rewrite IH]. }
    cbn. rewrite Hn, <-getenv_items by done. unfold Query. destruct (getenv _ _); split; try done; try (by intros [? ?]); eauto.
Qed.

(** When an allocation fails half way, the names copied before it are leaked: the loop
    that should free them frees the item behind the last one each time. *)
Theorem failed_environ_leaks k v es h strdup_ok :
  valid_name k = true -> strdup_ok 0 = true -> strdup_ok 1 = false ->
  exists e, (os_environ true strdup_ok (entry k v :: e :: es) h).1 = None /\
            live (os_environ true strdup_ok (entry k v :: e :: es) h).2 = next_buf h :: live h.
Proof.
  intros Hk H0 H1. exists []. unfold os_environ. cbn [environ_loop].
  rewrite H0, split_eq_entry by (by apply valid_split). by rewrite H1.
Qed.

(** ReadFileSync reads the whole file: with reads that make progress, whatever their
    sizes, one pass per byte and one more is enough and the result is the file. *)
Theorem ReadFileSync_reads_file page nread f err :
  reads page nread f -> ReadFileSync nread (Some f) err (S (length f)) = Ret (inl f).
Proof.
  intros Hr. cbn [ReadFileSync].
  assert (H : forall fuel off, off <= length f -> length f - off < fuel -> read_sync nread f fuel (take off f) = Ret (inl f)).
  { induction fuel as [|fuel IH]; intros off Ho Hf; [lia|]. cbn [read_sync].
    rewrite length_take, Nat.min_l by lia. destruct (Hr off) as [Hlt Heq]. destruct (decide (off = length f)) as [->|Hne].
    - rewrite Heq by done. cbn. by rewrite take_ge.
    - destruct Hlt as [Hpos Hle]; [lia|]. rewrite (proj2 (Z.ltb_ge _ _)), (proj2 (Z.leb_gt _ _)) by lia.
      rewrite take_take_drop. apply IH; lia. }
  apply (H (S (length f)) 0); lia.
Qed.

(** * Witnesses *)

Lemma env_is_map_witness :
  Get (Set_ (mkEnv [bs "A=1"; bs "B=2"] 0) (bs "A") (bs "3")) (bs "A") = Some (bs "3").
Proof.
  apply (env_is_map (mkEnv [bs "A=1"; bs "B=2"] 0) (bs "A") (bs "3") (bs "A")); reflexivity.
Defined.

Lemma Enumerate_lists_names_witness :
  exists names h', Enumerate true (fun _ => true) (mkEnv [bs "A=1"; bs "B=2"] 0) Heap_init = Ret (names, h') /\
    live h' = [] /\ array h' = false /\
    forall k, valid_name (c_str k) = true -> c_str k ∈ names <-> Query (mkEnv [bs "A=1"; bs "B=2"] 0) k = 0%Z.
Proof.
  apply (Enumerate_lists_names (mkEnv [bs "A=1"; bs "B=2"] 0) Heap_init (fun _ => true)); [constructor|done].
Defined.

Lemma failed_environ_leaks_witness :
  exists e, (os_environ true (fun j => j =? 0) (entry (bs "A") (bs "1") :: e :: []) Heap_init).1 = None /\
            live (os_environ true (fun j => j =? 0) (entry (bs "A") (bs "1") :: e :: []) Heap_init).2 = [0].
Proof. apply (failed_environ_leaks (bs "A") (bs "1") [] Heap_init (fun j => j =? 0)); reflexivity. Defined.

Lemma ReadFileSync_reads_file_witness :
  ReadFileSync (fun off => if (off <? 3)%nat then 1%Z else 0%Z) (Some (bs "abc")) (-2) 4 = Ret (inl (bs "abc")).
Proof.
  apply (ReadFileSync_reads_file 4096 (fun off => if (off <? 3)%nat then 1%Z else 0%Z) (bs "abc") (-2)).
  intros off. change (length (bs "abc")) with 3. split; [|by intros ->]. intros Hoff.
  rewrite (proj2 (Nat.ltb_lt _ _)) by lia. lia.
Defined.
