(* ===== verification/Base64.v ===== *)
(** src/src/binding/internal/aworker_cache_data.h: base64 with a path-safe
    alphabet, used for file names of the cache. *)

From S2P Require Import Prelude.

Module B64Text.
Import String.StringSyntax.
Local Open Scope string_scope.
Definition alphabet : bytes :=
  bs "ABCDEFGHIJKLMNOPQRSTUVWXYZabcdefghijklmnopqrstuvwxyz0123456789-_".
End B64Text.
Export B64Text.

(** [src/src/binding/internal/aworker_cache_data.h 10-28, e0] Each of the 64
    characters four times. *)
Definition e0 : bytes := alphabet ≫= fun c => [c; c; c; c].
(** [src/src/binding/internal/aworker_cache_data.h 30-48, e1] The 64 characters
    four times over. *)
Definition e1 : bytes := alphabet ++ alphabet ++ alphabet ++ alphabet.
(** [src/src/binding/internal/aworker_cache_data.h 50-68, e2] *)
Definition e2 : bytes := alphabet ++ alphabet ++ alphabet ++ alphabet.

Definition CHARPAD : byte := x3d.

Definition at_ (tbl : bytes) (i : Z) : byte := nth (Z.to_nat i) tbl x00.

(** [src/src/binding/internal/aworker_cache_data.h 71-111, pathsafe_b64_encode]
    Three bytes per pass, then the one or two that are left; the terminating NUL
    is not part of the text. *)
Fixpoint pathsafe_b64_encode (s : bytes) : bytes :=
  match s with
  | t1 :: t2 :: t3 :: s' =>
      let '(v1, v2, v3) := (bval t1, bval t2, bval t3) in
      at_ e0 v1
      :: at_ e1 (Z.lor (Z.shiftl (Z.land v1 3) 4) (Z.land (Z.shiftr v2 4) 15))
      :: at_ e1 (Z.lor (Z.shiftl (Z.land v2 15) 2) (Z.land (Z.shiftr v3 6) 3))
      :: at_ e2 v3 :: pathsafe_b64_encode s'
  | [t1; t2] =>
      let '(v1, v2) := (bval t1, bval t2) in
      [at_ e0 v1; at_ e1 (Z.lor (Z.shiftl (Z.land v1 3) 4) (Z.land (Z.shiftr v2 4) 15));
       at_ e2 (Z.shiftl (Z.land v2 15) 2); CHARPAD]
  | [t1] => [at_ e0 (bval t1); at_ e1 (Z.shiftl (Z.land (bval t1) 3) 4); CHARPAD; CHARPAD]
  | [] => []
  end.

(** * Decoding, as the specification *)

Definition index_of (c : byte) : option Z :=
  (fun p => Z.of_nat p.1) <$> list_find (fun x => x = c) alphabet.

Fixpoint b64_decode (s : bytes) : option bytes :=
  match s with
  | c1 :: c2 :: c3 :: c4 :: s' =>
      i1 ← index_of c1; i2 ← index_of c2;
      let b1 := byte_of (i1 * 4 + i2 / 16) in
      if byte_eqb c3 CHARPAD then Some [b1]
      else
        i3 ← index_of c3;
        let b2 := byte_of (i2 mod 16 * 16 + i3 / 4) in
        if byte_eqb c4 CHARPAD then Some [b1; b2]
        else
          i4 ← index_of c4; r ← b64_decode s';
          Some (b1 :: b2 :: byte_of (i3 mod 4 * 64 + i4) :: r)
  | _ => Some []
  end.

Definition path_safe (c : byte) : bool := bool_decide (c ∈ alphabet) || byte_eqb c CHARPAD.

(** The characters and their indices, over all bytes. *)
Lemma e0_index b : index_of (at_ e0 (bval b)) = Some (bval b / 4).
Proof. by destruct b. Qed.
Lemma e2_index b : index_of (at_ e2 (bval b)) = Some (bval b mod 64).
Proof. by destruct b. Qed.

Lemma small_index i : 0 <= i < 64 -> index_of (at_ e1 i) = Some i /\ at_ e2 i = at_ e1 i /\ at_ e1 i <> CHARPAD.
Proof.
  intros Hi.
  assert (H : forallb (fun n => bool_decide (index_of (at_ e1 (Z.of_nat n)) = Some (Z.of_nat n)) &&
    negb (byte_eqb (at_ e1 (Z.of_nat n)) CHARPAD))%bool (seq 0 64) = true) by (vm_compute; reflexivity).
  rewrite forallb_forall in H. specialize (H (Z.to_nat i)). rewrite Z2Nat.id in H by lia.
  assert (Hin : In (Z.to_nat i) (seq 0 64)) by (apply in_seq; lia).
  apply H, andb_prop in Hin as [H1 H2]. apply bool_decide_eq_true in H1. apply negb_true_iff in H2.
  split_and!; [done|done|]. intros Hc. by rewrite Hc in H2.
Qed.

Lemma pad_free b : at_ e0 (bval b) <> CHARPAD /\ at_ e2 (bval b) <> CHARPAD.
Proof. by destruct b. Qed.

Lemma mid12 a b :
  Z.lor (Z.shiftl (Z.land (bval a) 3) 4) (Z.land (Z.shiftr (bval b) 4) 15) = bval a mod 4 * 16 + bval b / 16.
Proof.
  pose proof (byte_forall (fun a => forallb (fun b =>
    Z.lor (Z.shiftl (Z.land (bval a) 3) 4) (Z.land (Z.shiftr (bval b) 4) 15) =? bval a mod 4 * 16 + bval b / 16)
    all_bytes) ltac:(vm_compute; reflexivity) a) as H.
  pose proof (byte_forall _ H b) as H'. by apply Z.eqb_eq.
Qed.

Lemma mid23 a b :
  Z.lor (Z.shiftl (Z.land (bval a) 15) 2) (Z.land (Z.shiftr (bval b) 6) 3) = bval a mod 16 * 4 + bval b / 64.
Proof.
  pose proof (byte_forall (fun a => forallb (fun b =>
    Z.lor (Z.shiftl (Z.land (bval a) 15) 2) (Z.land (Z.shiftr (bval b) 6) 3) =? bval a mod 16 * 4 + bval b / 64)
    all_bytes) ltac:(vm_compute; reflexivity) a) as H.
  pose proof (byte_forall _ H b) as H'. by apply Z.eqb_eq.
Qed.

Lemma tail1 a : Z.shiftl (Z.land (bval a) 3) 4 = bval a mod 4 * 16.
Proof. by destruct a. Qed.
Lemma tail2 a : Z.shiftl (Z.land (bval a) 15) 2 = bval a mod 16 * 4.
Proof. by destruct a. Qed.

Lemma byte_of_eq b z : z = bval b -> byte_of z = b.
Proof. intros ->. apply byte_of_bval. Qed.

(** Induction three bytes at a time. *)
Lemma triple_ind (P : bytes -> Prop) :
  P [] -> (forall a, P [a]) -> (forall a b, P [a; b]) ->
  (forall a b c s, P s -> P (a :: b :: c :: s)) -> forall s, P s.
Proof.
  intros H0 H1 H2 H3.
  assert (H : forall n s, (length s <= n)%nat -> P s).
  { induction n as [|n IH]; intros s Hs.
    - by destruct s; [|simpl in Hs; lia].
    - destruct s as [|a [|b [|c s]]]; auto. apply H3, IH. simpl in Hs. lia. }
  intros s. by apply (H (length s)).
Qed.

Lemma alphabet_safe i : 0 <= i < 64 -> path_safe (at_ e1 i) = true.
Proof.
  intros Hi. destruct (small_index i Hi) as (H & _ & _). unfold index_of in H.
  apply fmap_Some in H as ((n & c) & Hf & _). apply list_find_Some in Hf as (Hl & -> & _).
  unfold path_safe. rewrite bool_decide_eq_true_2; [done|]. by eapply list_elem_of_lookup_2.
Qed.

Lemma e0_e2_safe b : path_safe (at_ e0 (bval b)) = true /\ path_safe (at_ e2 (bval b)) = true.
Proof. by destruct b. Qed.

(** [lia] with quotients and remainders by constants. *)
Local Ltac Zify.zify_post_hook ::= Z.to_euclidean_division_equations.

Lemma pathsafe_b64_length s : length (pathsafe_b64_encode s) = (4 * ((length s + 2) / 3))%nat.
Proof.
  induction s as [|a|a b|a b c s IH] using triple_ind; [done..|].
  cbn [pathsafe_b64_encode length]. rewrite IH.
  replace (S (S (S (length s))) + 2)%nat with (length s + 2 + 1 * 3)%nat by lia.
  rewrite Nat.div_add by lia. lia.
Qed.

Lemma pathsafe_b64_safe s : Forall (fun c => path_safe c = true) (pathsafe_b64_encode s).
Proof.
  induction s as [|a|a b|a b c s IH] using triple_ind; [constructor|..];
    cbn [pathsafe_b64_encode]; rewrite ?mid12, ?mid23, ?tail1, ?tail2;
    pose proof (bval_range a); try pose proof (bval_range b); try pose proof (bval_range c);
    destruct (e0_e2_safe a) as [? _]; try destruct (e0_e2_safe c) as [_ ?].
  - repeat constructor; auto using alphabet_safe; apply alphabet_safe; lia.
  - destruct (small_index (bval b mod 16 * 4) ltac:(lia)) as (_ & -> & _).
    repeat constructor; auto; apply alphabet_safe; lia.
  - repeat constructor; auto; apply alphabet_safe; lia.
Qed.

(** * Property *)

(** File names made by pathsafe_b64_encode identify their input and are safe:
    the text decodes back to the bytes, has four characters for every three bytes
    begun, and holds only letters, digits, minus, underscore and padding (no
    slash). *)
Theorem pathsafe_b64_roundtrip (s : bytes) :
  b64_decode (pathsafe_b64_encode s) = Some s /\
  Forall (fun c => path_safe c = true) (pathsafe_b64_encode s) /\
  length (pathsafe_b64_encode s) = (4 * ((length s + 2) / 3))%nat.
Proof.
  induction s as [|a|a b|a b c s (IH1 & _ & _)] using triple_ind; [done|..];
    cbn [pathsafe_b64_encode]; rewrite ?mid12, ?mid23, ?tail1, ?tail2;
    pose proof (bval_range a); try pose proof (bval_range b); try pose proof (bval_range c).
  - destruct (small_index (bval a mod 4 * 16) ltac:(lia)) as (Hi & _ & _). split_and!.
    + cbn [b64_decode]. rewrite e0_index, Hi. cbn [mbind option_bind]. simpl byte_eqb. cbv iota.
      do 2 f_equal. apply byte_of_eq. lia.
    + rewrite <-tail1. apply (pathsafe_b64_safe [a]).
    + done.
  - destruct (small_index (bval a mod 4 * 16 + bval b / 16) ltac:(lia)) as (Hi & _ & _).
    destruct (small_index (bval b mod 16 * 4) ltac:(lia)) as (Hi2 & He2 & Hp2). split_and!.
    + cbn [b64_decode]. rewrite He2, e0_index, Hi. cbn [mbind option_bind].
      rewrite byte_eqb_ne by done. rewrite Hi2. cbn [mbind option_bind].
      rewrite byte_eqb_refl. f_equal. f_equal; [|f_equal]; apply byte_of_eq; lia.
    + rewrite <-mid12, <-tail2. apply (pathsafe_b64_safe [a; b]).
    + done.
  - destruct (small_index (bval a mod 4 * 16 + bval b / 16) ltac:(lia)) as (Hi & _ & _).
    destruct (small_index (bval b mod 16 * 4 + bval c / 64) ltac:(lia)) as (Hi2 & _ & Hp2). split_and!.
    + cbn [b64_decode]. rewrite e0_index, Hi. cbn [mbind option_bind].
      rewrite byte_eqb_ne by done. rewrite Hi2. cbn [mbind option_bind].
      rewrite byte_eqb_ne by apply pad_free. rewrite e2_index. cbn [mbind option_bind]. rewrite IH1.
      cbn [mbind option_bind]. f_equal. f_equal; [|f_equal; [|f_equal]]; apply byte_of_eq; lia.
    + rewrite <-mid12, <-mid23. apply (pathsafe_b64_safe (a :: b :: c :: s)).
    + pose proof (pathsafe_b64_length (a :: b :: c :: s)) as Hl. exact Hl.
Qed.
