(* ===== verification/CityHash.v ===== *)
(** src/deps/cityhash/city.{h,cc}: the hash that names the files of the cache
    storage.  The functions read a buffer through pointers computed from its length;
    here a pointer is an offset into the buffer [m], and a read outside it is a
    fault.  [CityHash128_total] shows that no read leaves the buffer, for every
    length, and that the two loops end. *)

From S2P Require Import Prelude.

(** * Arithmetic of uint64 *)

Definition add64 (a b : Z) : Z := u64 (a + b).
Definition sub64 (a b : Z) : Z := u64 (a - b).
Definition mul64 (a b : Z) : Z := u64 (a * b).
Definition shl64 (a n : Z) : Z := u64 (Z.shiftl a n).
Definition xor64 (a b : Z) : Z := Z.lxor a b.

(** [src/deps/cityhash/city.cc 93-96, k0, k1, k2, k3] *)
Definition k0 : Z := 0xc3a5c85c97cb3127.
Definition k1 : Z := 0xb492b66fbe98f273.
Definition k2 : Z := 0x9ae16a3b2f90404f.
Definition k3 : Z := 0xc949d7c7509e6557.

(** [src/deps/cityhash/city.h 72-72, uint128] *)
Definition uint128 : Type := (Z * Z)%type.

Section city.
(** The buffer. *)
Context (m : bytes).

Fixpoint le_value (l : bytes) : Z :=
  match l with [] => 0 | b :: l => bval b + 256 * le_value l end.

(** [n] bytes at offset [p], least significant first. *)
Definition load_le (n : nat) (p : Z) : outcome Z :=
  if ((0 <=? p) && (p + Z.of_nat n <=? Z.of_nat (length m)))%bool
  then Ret (le_value (take n (drop (Z.to_nat p) m)))
  else Fault OutOfBounds.

(** [src/deps/cityhash/city.cc 84-86, Fetch64] *)
Definition Fetch64 (p : Z) : outcome Z := load_le 8 p.

(** [src/deps/cityhash/city.cc 88-90, Fetch32] *)
Definition Fetch32 (p : Z) : outcome Z := load_le 4 p.

(** [src/deps/cityhash/city.cc 100-103, Rotate] *)
Definition Rotate (val shift : Z) : Z :=
  if shift =? 0 then val else Z.lor (Z.shiftr val shift) (shl64 val (64 - shift)).

(** [src/deps/cityhash/city.cc 108-110, RotateByAtLeast1] *)
Definition RotateByAtLeast1 (val shift : Z) : Z :=
  Z.lor (Z.shiftr val shift) (shl64 val (64 - shift)).

(** [src/deps/cityhash/city.cc 112-114, ShiftMix] *)
Definition ShiftMix (val : Z) : Z := xor64 val (Z.shiftr val 47).

(** [src/deps/cityhash/city.h 101-110, Hash128to64] *)
Definition Hash128to64 (x : uint128) : Z :=
  let kMul := 0x9ddfea08eb382d69 in
  let a := mul64 (xor64 x.1 x.2) kMul in
  let a := xor64 a (Z.shiftr a 47) in
  let b := mul64 (xor64 x.2 a) kMul in
  let b := xor64 b (Z.shiftr b 47) in
  mul64 b kMul.

(** [src/deps/cityhash/city.cc 116-118, HashLen16] *)
Definition HashLen16 (u v : Z) : Z := Hash128to64 (u, v).

(** [src/deps/cityhash/city.cc 120-139, HashLen0to16] *)
Definition HashLen0to16 (s len : Z) : outcome Z :=
  if 8 <? len then
    a ← Fetch64 s;
    b ← Fetch64 (s + len - 8);
    Ret (xor64 (HashLen16 a (RotateByAtLeast1 (add64 b len) len)) b)
  else if 4 <=? len then
    a ← Fetch32 s;
    b ← Fetch32 (s + len - 4);
    Ret (HashLen16 (add64 len (shl64 a 3)) b)
  else if 0 <? len then
    a ← load_le 1 s;
    b ← load_le 1 (s + Z.shiftr len 1);
    c ← load_le 1 (s + len - 1);
    let y := u32 (a + Z.shiftl b 8) in
    let z := u32 (len + Z.shiftl c 2) in
    Ret (mul64 (ShiftMix (xor64 (mul64 y k2) (mul64 z k3))) k2)
  else Ret k2.

(** [src/deps/cityhash/city.cc 143-150, HashLen17to32] *)
Definition HashLen17to32 (s len : Z) : outcome Z :=
  a ← Fetch64 s; let a := mul64 a k1 in
  b ← Fetch64 (s + 8);
  c ← Fetch64 (s + len - 8); let c := mul64 c k2 in
  d ← Fetch64 (s + len - 16); let d := mul64 d k0 in
  Ret (HashLen16 (add64 (add64 (Rotate (sub64 a b) 43) (Rotate c 30)) d)
                 (add64 (sub64 (add64 a (Rotate (xor64 b k3) 20)) c) len)).

(** [src/deps/cityhash/city.cc 154-163, WeakHashLen32WithSeeds] *)
Definition WeakHashLen32 (w x y z a b : Z) : Z * Z :=
  let a := add64 a w in
  let b := Rotate (add64 (add64 b a) z) 21 in
  let c := a in
  let a := add64 a x in
  let a := add64 a y in
  let b := add64 b (Rotate a 44) in
  (add64 a z, add64 b c).

(** [src/deps/cityhash/city.cc 166-174, WeakHashLen32WithSeeds] *)
Definition WeakHashLen32WithSeeds (s a b : Z) : outcome (Z * Z) :=
  w ← Fetch64 s;
  x ← Fetch64 (s + 8);
  y ← Fetch64 (s + 16);
  z ← Fetch64 (s + 24);
  Ret (WeakHashLen32 w x y z a b).

(** [src/deps/cityhash/city.cc 177-198, HashLen33to64] *)
Definition HashLen33to64 (s len : Z) : outcome Z :=
  z ← Fetch64 (s + 24);
  f0 ← Fetch64 s;
  f1 ← Fetch64 (s + len - 16);
  let a := add64 f0 (mul64 (add64 len f1) k0) in
  let b := Rotate (add64 a z) 52 in
  let c := Rotate a 37 in
  f2 ← Fetch64 (s + 8);
  let a := add64 a f2 in
  let c := add64 c (Rotate a 7) in
  f3 ← Fetch64 (s + 16);
  let a := add64 a f3 in
  let vf := add64 a z in
  let vs := add64 (add64 b (Rotate a 31)) c in
  f4 ← Fetch64 (s + 16);
  f5 ← Fetch64 (s + len - 32);
  let a := add64 f4 f5 in
  z ← Fetch64 (s + len - 8);
  let b := Rotate (add64 a z) 52 in
  let c := Rotate a 37 in
  f6 ← Fetch64 (s + len - 24);
  let a := add64 a f6 in
  let c := add64 c (Rotate a 7) in
  f7 ← Fetch64 (s + len - 16);
  let a := add64 a f7 in
  let wf := add64 a z in
  let ws := add64 (add64 b (Rotate a 31)) c in
  let r := ShiftMix (add64 (mul64 (add64 vf ws) k2) (mul64 (add64 wf vs) k0)) in
  Ret (mul64 (ShiftMix (add64 (mul64 r k0) vs)) k2).

(** The 56 bytes of state of the long hashes. *)
Record St := mkSt { sx : Z; sy : Z; sz : Z; v1 : Z; v2 : Z; w1 : Z; w2 : Z }.

(** [src/deps/cityhash/city.cc 223-230, CityHash64] One pass of the inner loop, which
    [CityHash128WithSeed] repeats twice (lines 296-303 and 305-312). *)
Definition hash_round (s : Z) (t : St) : outcome St :=
  f8 ← Fetch64 (s + 8);
  let x := mul64 (Rotate (add64 (add64 (add64 (sx t) (sy t)) (v1 t)) f8) 37) k1 in
  f48 ← Fetch64 (s + 48);
  let y := mul64 (Rotate (add64 (add64 (sy t) (v2 t)) f48) 42) k1 in
  let x := xor64 x (w2 t) in
  f40 ← Fetch64 (s + 40);
  let y := add64 y (add64 (v1 t) f40) in
  let z := mul64 (Rotate (add64 (sz t) (w1 t)) 33) k1 in
  v ← WeakHashLen32WithSeeds s (mul64 (v2 t) k1) (add64 x (w1 t));
  f16 ← Fetch64 (s + 16);
  w ← WeakHashLen32WithSeeds (s + 32) (add64 z (w2 t)) (add64 y f16);
  Ret (mkSt z y x v.1 v.2 w.1 w.2).

(** [src/deps/cityhash/city.cc 222-233, CityHash64] The loop. *)
Fixpoint loop64 (fuel : nat) (s len : Z) (t : St) : outcome St :=
  match fuel with
  | O => Fault OutOfFuel
  | S fuel =>
      t ← hash_round s t;
      let len := u64 (len - 64) in
      if len =? 0 then Ret t else loop64 fuel (s + 64) len t
  end.

(** [src/deps/cityhash/city.cc 200-236, CityHash64] *)
Definition CityHash64 (s len : Z) : outcome Z :=
  if len <=? 32 then
    if len <=? 16 then HashLen0to16 s len else HashLen17to32 s len
  else if len <=? 64 then HashLen33to64 s len
  else
    x ← Fetch64 (s + len - 40);
    y0 ← Fetch64 (s + len - 16);
    y1 ← Fetch64 (s + len - 56);
    let y := add64 y0 y1 in
    z0 ← Fetch64 (s + len - 48);
    z1 ← Fetch64 (s + len - 24);
    let z := HashLen16 (add64 z0 len) z1 in
    v ← WeakHashLen32WithSeeds (s + len - 64) len z;
    w ← WeakHashLen32WithSeeds (s + len - 32) (add64 y k1) x;
    f0 ← Fetch64 s;
    let x := add64 (mul64 x k1) f0 in
    let len := Z.land (len - 1) (Z.lnot 63) in
    t ← loop64 (Z.to_nat (len / 64)) s len (mkSt x y z v.1 v.2 w.1 w.2);
    Ret (HashLen16 (add64 (add64 (HashLen16 (v1 t) (w1 t)) (mul64 (ShiftMix (sy t)) k1)) (sz t))
                   (add64 (HashLen16 (v2 t) (w2 t)) (sx t))).

(** [src/deps/cityhash/city.cc 242-245, CityHash64WithSeeds] *)
Definition CityHash64WithSeeds (s len seed0 seed1 : Z) : outcome Z :=
  h ← CityHash64 s len; Ret (HashLen16 (sub64 h seed0) seed1).

(** [src/deps/cityhash/city.cc 238-240, CityHash64WithSeed] *)
Definition CityHash64WithSeed (s len seed : Z) : outcome Z :=
  CityHash64WithSeeds s len k2 seed.

(** [src/deps/cityhash/city.cc 263-272, CityMurmur] The loop over 16-byte chunks. *)
Fixpoint murmur_loop (fuel : nat) (s l a b c d : Z) : outcome (Z * Z * Z * Z) :=
  match fuel with
  | O => Fault OutOfFuel
  | S fuel =>
      f0 ← Fetch64 s;
      let a := xor64 a (mul64 (ShiftMix (mul64 f0 k1)) k1) in
      let a := mul64 a k1 in
      let b := xor64 b a in
      f8 ← Fetch64 (s + 8);
      let c := xor64 c (mul64 (ShiftMix (mul64 f8 k1)) k1) in
      let c := mul64 c k1 in
      let d := xor64 d c in
      let l := l - 16 in
      if 0 <? l then murmur_loop fuel (s + 16) l a b c d else Ret (a, b, c, d)
  end.

(** [src/deps/cityhash/city.cc 249-277, CityMurmur] [l] is a signed long: for the
    lengths of strings [len - 16] does not leave its range. *)
Definition CityMurmur (s len : Z) (seed : uint128) : outcome uint128 :=
  let a := seed.1 in
  let b := seed.2 in
  let l := len - 16 in
  '(a, b, c, d) ←
    (if l <=? 0 then
       let a := mul64 (ShiftMix (mul64 a k1)) k1 in
       h ← HashLen0to16 s len;
       let c := add64 (mul64 b k1) h in
       f ← (if 8 <=? len then Fetch64 s else Ret c);
       Ret (a, b, c, ShiftMix (add64 a f))
     else
       f ← Fetch64 (s + len - 8);
       let c := HashLen16 (add64 f k1) a in
       g ← Fetch64 (s + len - 16);
       let d := HashLen16 (add64 b len) (add64 c g) in
       let a := add64 a d in
       murmur_loop (Z.to_nat (l / 16 + 1)) s l a b c d);
  let a := HashLen16 a c in
  let b := HashLen16 d b in
  Ret (xor64 a b, HashLen16 b a).

(** [src/deps/cityhash/city.cc 296-315, CityHash128WithSeed] The unrolled loop; the
    final pointer, remaining length and state. *)
Fixpoint loop128 (fuel : nat) (s len : Z) (t : St) : outcome (Z * Z * St) :=
  match fuel with
  | O => Fault OutOfFuel
  | S fuel =>
      t ← hash_round s t;
      t ← hash_round (s + 64) t;
      let s := s + 128 in
      let len := len - 128 in
      if 128 <=? len then loop128 fuel s len t else Ret (s, len, t)
  end.

(** [src/deps/cityhash/city.cc 319-327, CityHash128WithSeed] The tail, from the end of
    the buffer, in chunks of 32 bytes; the first chunk may start before [s]. *)
Fixpoint tail_loop (fuel : nat) (s len tail_done : Z) (t : St) : outcome St :=
  if tail_done <? len then
    match fuel with
    | O => Fault OutOfFuel
    | S fuel =>
        let tail_done := tail_done + 32 in
        let y := add64 (mul64 (Rotate (add64 (sx t) (sy t)) 42) k0) (v2 t) in
        f16 ← Fetch64 (s + len - tail_done + 16);
        let w1' := add64 (w1 t) f16 in
        let x := add64 (mul64 (sx t) k0) w1' in
        f0 ← Fetch64 (s + len - tail_done);
        let z := add64 (sz t) (add64 (w2 t) f0) in
        let w2' := add64 (w2 t) (v1 t) in
        v ← WeakHashLen32WithSeeds (s + len - tail_done) (add64 (v1 t) z) (v2 t);
        tail_loop fuel s len tail_done (mkSt x y z v.1 v.2 w1' w2')
    end
  else Ret t.

(** [src/deps/cityhash/city.cc 279-336, CityHash128WithSeed] *)
Definition CityHash128WithSeed (s len : Z) (seed : uint128) : outcome uint128 :=
  if len <? 128 then CityMurmur s len seed
  else
    let x := seed.1 in
    let y := seed.2 in
    let z := mul64 len k1 in
    f0 ← Fetch64 s;
    let va := add64 (mul64 (Rotate (xor64 y k1) 49) k1) f0 in
    f8 ← Fetch64 (s + 8);
    let vb := add64 (mul64 (Rotate va 42) k1) f8 in
    let wa := add64 (mul64 (Rotate (add64 y z) 35) k1) x in
    f88 ← Fetch64 (s + 88);
    let wb := mul64 (Rotate (add64 x f88) 53) k1 in
    '(s, len, t) ← loop128 (Z.to_nat (len / 128)) s len (mkSt x y z va vb wa wb);
    let x := add64 (sx t) (mul64 (Rotate (add64 (v1 t) (sz t)) 49) k0) in
    let z := add64 (sz t) (mul64 (Rotate (w1 t) 37) k0) in
    t ← tail_loop 4 s len 0 (mkSt x (sy t) z (v1 t) (v2 t) (w1 t) (w2 t));
    let x := HashLen16 (sx t) (v1 t) in
    let y := HashLen16 (add64 (sy t) (sz t)) (w1 t) in
    Ret (add64 (HashLen16 (add64 x (v2 t)) (w2 t)) y,
         HashLen16 (add64 x (w2 t)) (add64 y (v2 t))).

(** [src/deps/cityhash/city.cc 338-352, CityHash128] The null pointer of the second
    case is never read. *)
Definition CityHash128 (s len : Z) : outcome uint128 :=
  if 16 <=? len then
    a ← Fetch64 s;
    b ← Fetch64 (s + 8);
    CityHash128WithSeed (s + 16) (len - 16) (xor64 a k3, b)
  else if 8 <=? len then
    a ← Fetch64 s;
    b ← Fetch64 (s + len - 8);
    CityHash128WithSeed 0 0 (xor64 a (mul64 len k0), xor64 b k1)
  else CityHash128WithSeed s len (k0, k1).

(** * Every read is inside the buffer *)

Lemma load_ret n p :
  0 <= p -> p + Z.of_nat n <= Z.of_nat (length m) ->
  load_le n p = Ret (le_value (take n (drop (Z.to_nat p) m))).
Proof.
  intros H1 H2. unfold load_le. destruct (Z.leb_spec 0 p); [|lia].
  by destruct (Z.leb_spec (p + Z.of_nat n) (Z.of_nat (length m))); [|lia].
Qed.

(** A run of loads whose addresses are in range. *)
Ltac loads :=
  repeat (unfold Fetch64, Fetch32, WeakHashLen32WithSeeds; rewrite load_ret by lia; simpl).

Definition in_range (s len : Z) : Prop :=
  0 <= s /\ 0 <= len /\ s + len <= Z.of_nat (length m).

Definition is_u64 (z : Z) : Prop := 0 <= z < 2 ^ 64.

Lemma HashLen16_u64 u v : is_u64 (HashLen16 u v).
Proof. apply (wrap_range 64). lia. Qed.

Lemma add_u64 a b : is_u64 (add64 a b).
Proof. apply (wrap_range 64). lia. Qed.

Lemma mul_u64 a b : is_u64 (mul64 a b).
Proof. apply (wrap_range 64). lia. Qed.

Lemma xor_u64 a b : is_u64 a -> is_u64 b -> is_u64 (xor64 a b).
Proof.
  unfold is_u64, xor64. intros [Ha1 Ha2] [Hb1 Hb2]. split; [by apply Z.lxor_nonneg|].
  destruct (decide (Z.lxor a b = 0)) as [->|Hne]; [lia|].
  assert (0 <= Z.lxor a b) by by apply Z.lxor_nonneg.
  apply Z.log2_lt_pow2; [lia|]. pose proof (Z.log2_lxor a b Ha1 Hb1).
  assert (Z.log2 a < 64) by (destruct (decide (a = 0)) as [->|]; [done|apply Z.log2_lt_pow2; lia]).
  assert (Z.log2 b < 64) by (destruct (decide (b = 0)) as [->|]; [done|apply Z.log2_lt_pow2; lia]).
  lia.
Qed.

Lemma HashLen0to16_ret s len :
  in_range s len -> len <= 16 -> exists h, HashLen0to16 s len = Ret h.
Proof.
  intros (H1 & H2 & H3) Hl. unfold HashLen0to16.
  destruct (Z.ltb_spec 8 len); [loads; eauto|].
  destruct (Z.leb_spec 4 len); [loads; eauto|].
  destruct (Z.ltb_spec 0 len); [|eauto].
  assert (0 <= Z.shiftr len 1 < len).
  { rewrite Z.shiftr_div_pow2 by lia. change (2 ^ 1) with 2.
    split; [apply Z.div_pos; lia|apply Z.div_lt; lia]. }
  loads. eauto.
Qed.

Lemma hash_round_ret s t : in_range s 64 -> exists t', hash_round s t = Ret t'.
Proof. intros (H1 & H2 & H3). unfold hash_round. loads. eauto. Qed.

Lemma loop64_ret fuel : forall s len t,
  in_range s len -> 0 < len < 2 ^ 64 -> len = 64 * Z.of_nat fuel ->
  exists t', loop64 fuel s len t = Ret t'.
Proof.
  induction fuel as [|fuel IH]; intros s len t (H1 & H2 & H3) Hl Hf; [lia|].
  simpl. destruct (hash_round_ret s t) as [t1 ->]; [unfold in_range; lia|]. simpl.
  unfold u64. rewrite wrap_small by lia.
  destruct (Z.eqb_spec (len - 64) 0); [eauto|]. apply IH; unfold in_range; lia.
Qed.

(** The 64-bit hash: the same for strings shorter than the address space. *)
Lemma CityHash64_ret s len :
  in_range s len -> len < 2 ^ 64 -> exists h, CityHash64 s len = Ret h.
Proof.
  intros Hr Hb. pose proof Hr as (H1 & H2 & H3). unfold CityHash64.
  destruct (Z.leb_spec len 32).
  { destruct (Z.leb_spec len 16); [by apply HashLen0to16_ret|].
    unfold HashLen17to32. loads. eauto. }
  destruct (Z.leb_spec len 64); [unfold HashLen33to64; loads; eauto|].
  loads. assert (Hland : Z.land (len - 1) (Z.lnot 63) = 64 * ((len - 1) / 64)).
  { change 63 with (Z.ones 6). rewrite <- Z.ldiff_land, Z.ldiff_ones_r by lia.
    rewrite Z.shiftl_mul_pow2, Z.shiftr_div_pow2 by lia. change (2 ^ 6) with 64. lia. }
  rewrite Hland. assert (1 <= (len - 1) / 64) by (apply Z.div_le_lower_bound; lia).
  pose proof (Z.mul_div_le (len - 1) 64 ltac:(lia)).
  match goal with |- context [loop64 ?f s ?l ?t] =>
    destruct (loop64_ret f s l t) as [t' ->] end; [unfold in_range; lia|lia| |simpl; eauto].
  rewrite (Z.mul_comm 64), Z.div_mul, Z2Nat.id by lia. lia.
Qed.

Lemma murmur_loop_ret fuel : forall s l a b c d,
  0 <= s -> 0 < l -> s + l + 16 <= Z.of_nat (length m) -> l / 16 < Z.of_nat fuel ->
  exists r, murmur_loop fuel s l a b c d = Ret r.
Proof.
  induction fuel as [|fuel IH]; intros s l a b c d Hs Hl Hm Hf.
  { assert (0 <= l / 16) by (apply Z.div_pos; lia). lia. }
  simpl. loads. destruct (Z.ltb_spec 0 (l - 16)); [|eauto].
  apply IH; try lia. replace l with ((l - 16) + 1 * 16) in Hf by lia.
  rewrite Z.div_add in Hf by lia. lia.
Qed.

Lemma CityMurmur_ret s len seed :
  in_range s len -> exists h, CityMurmur s len seed = Ret h /\ is_u64 h.1 /\ is_u64 h.2.
Proof.
  intros Hr. pose proof Hr as (H1 & H2 & H3). unfold CityMurmur.
  assert (forall o : outcome (Z * Z * Z * Z), (exists r, o = Ret r) ->
    exists h, ('(a, b, c, d) ← o;
      Ret (xor64 (HashLen16 a c) (HashLen16 d b), HashLen16 (HashLen16 d b) (HashLen16 a c)))
      = Ret h /\ is_u64 h.1 /\ is_u64 h.2) as Hfin.
  { intros o [[[[a b] c] d] ->]. simpl. eexists. split; [done|].
    split; [apply xor_u64|]; apply HashLen16_u64. }
  apply Hfin. destruct (Z.leb_spec (len - 16) 0).
  - destruct (HashLen0to16_ret s len Hr) as [h ->]; [lia|]. simpl.
    destruct (Z.leb_spec 8 len); [loads|simpl]; eauto.
  - loads. apply murmur_loop_ret; lia.
Qed.

Lemma loop128_ret fuel : forall s len t,
  in_range s len -> 128 <= len -> len / 128 <= Z.of_nat fuel ->
  exists s' len' t', loop128 fuel s len t = Ret (s', len', t') /\
    in_range s' len' /\ len' < 128 /\ 128 <= s'.
Proof.
  induction fuel as [|fuel IH]; intros s len t (H1 & H2 & H3) Hl Hf.
  { assert (1 <= len / 128) by (apply Z.div_le_lower_bound; lia). lia. }
  simpl. destruct (hash_round_ret s t) as [t1 ->]; [unfold in_range; lia|]. simpl.
  destruct (hash_round_ret (s + 64) t1) as [t2 ->]; [unfold in_range; lia|]. simpl.
  destruct (Z.leb_spec 128 (len - 128)).
  - destruct (IH (s + 128) (len - 128) t2) as (s' & len' & t' & -> & Hr & ? & ?);
      [unfold in_range; lia|lia| |by eexists _, _, _].
    replace len with ((len - 128) + 1 * 128) in Hf by lia. rewrite Z.div_add in Hf by lia. lia.
  - eexists _, _, _. split; [done|]. unfold in_range. lia.
Qed.

Lemma tail_loop_ret fuel : forall s len tail_done t,
  in_range s len -> 32 <= s -> 0 <= tail_done ->
  len - tail_done <= 32 * Z.of_nat fuel ->
  exists t', tail_loop fuel s len tail_done t = Ret t'.
Proof.
  induction fuel as [|fuel IH]; intros s len td t (H1 & H2 & H3) Hs Ht Hf; simpl.
  - destruct (Z.ltb_spec td len); [lia|eauto].
  - destruct (Z.ltb_spec td len); [|eauto]. loads. apply IH; try done; unfold in_range; lia.
Qed.

#[local] Arguments tail_loop _ _ _ _ _ : simpl never.

Lemma CityHash128WithSeed_ret s len seed :
  in_range s len -> exists h, CityHash128WithSeed s len seed = Ret h /\ is_u64 h.1 /\ is_u64 h.2.
Proof.
  intros Hr. pose proof Hr as (H1 & H2 & H3). unfold CityHash128WithSeed.
  destruct (Z.ltb_spec len 128); [by apply CityMurmur_ret|]. loads.
  match goal with |- context [loop128 ?f s len ?t] =>
    destruct (loop128_ret f s len t Hr) as (s' & len' & t' & -> & Hr' & Hl' & Hs') end; [lia| |].
  { rewrite Z2Nat.id; [lia|]. apply Z.div_pos; lia. }
  simpl. match goal with |- context [tail_loop 4 s' len' 0 ?t] =>
    destruct (tail_loop_ret 4 s' len' 0 t) as [t2 ->] end; [done|lia..|].
  simpl. eexists. split; [done|]. simpl. split; [apply add_u64|apply HashLen16_u64].
Qed.

Lemma city128_ret len :
  Z.of_nat (length m) = len ->
  exists h, CityHash128 0 len = Ret h /\ is_u64 h.1 /\ is_u64 h.2.
Proof.
  intros Hl. unfold CityHash128.
  destruct (Z.leb_spec 16 len); [loads; apply CityHash128WithSeed_ret; unfold in_range; lia|].
  destruct (Z.leb_spec 8 len); [loads; apply CityHash128WithSeed_ret; unfold in_range; lia|].
  apply CityHash128WithSeed_ret. unfold in_range. lia.
Qed.
End city.

(** The string hashed, as the 16 bytes of a [uint128] in memory: two little-endian
    words, the low one first (std::pair). *)
Definition hash_string (str : bytes) : outcome bytes :=
  h ← CityHash128 str 0 (Z.of_nat (length str)); Ret (le_bytes 8 h.1 ++ le_bytes 8 h.2).

Lemma hash_string_ret str : exists h, hash_string str = Ret h /\ length h = 16%nat.
Proof.
  unfold hash_string. destruct (city128_ret str _ eq_refl) as (h & -> & _).
  eexists. split; [done|]. by rewrite length_app, !le_bytes_length.
Qed.

(** Hashing a string of any length stays inside the string: no load of the
    sixteen-byte, the short, the chunked and the tail paths reads before or after it,
    the loops end, and the result is two 64-bit words. *)
Theorem CityHash128_total str :
  exists h, CityHash128 str 0 (Z.of_nat (length str)) = Ret h /\
    0 <= h.1 < 2 ^ 64 /\ 0 <= h.2 < 2 ^ 64.
Proof. by apply city128_ret. Qed.

(** The published hash of the empty string. *)
Example CityHash128_empty :
  CityHash128 [] 0 0 = Ret (0x3df09dfc64c09a2b, 0x3cb540c392e51e29).
Proof. vm_compute. reflexivity. Qed.
