(* ===== verification/CacheStorage.v ===== *)
(** src/src/binding/internal/aworker_cache.{h,cc}: the CacheStorage backing store.

    The file system is a map from paths to contents; files are read and written
    through the streams of ZeroCopyStream.v, whose theorems justify that a
    written page becomes the contents of its file and that the chunks of an input
    stream join to the file ([chunks]).  Protobuf's pages and header are an
    interface ([CacheProto]), the hash is [CityHash]'s.  An operation that reads a
    page and then writes it is two asynchronous steps, kept apart here.  Whether a
    file can be opened for writing ([opens]) and whether V8 can make a string of
    some bytes ([too_long]) is up to the system and to V8. *)

From S2P Require Import Prelude IpcMessage JsMessages ZeroCopyStream Base64 CityHash.

Module CacheText.
Import String.StringSyntax.
Local Open Scope string_scope.
Definition slash_cache_storages := bs "/cache-storages".
Definition dot_data := bs ".data".
Definition cache_prefix := bs "cache-".
Definition slash := bs "/".
Definition colon_sp := bs ": ".
Definition msg_too_long := bs "STRING_TOO_LONG".
Definition msg_not_found (path : bytes) := bs "file not found(" ++ path ++ bs ")".
Definition msg_bad_header (path : bytes) := bs "unable to parse page header(" ++ path ++ bs ")".
End CacheText.
Export CacheText.

(** [src/src/binding/internal/aworker_cache.cc 43-46, AWORKER_MAGIC] *)
Definition AWORKER_MAGIC : Z := 1936616297.
Definition CACHE_DATA_VERSION : Z := 1.
Definition CACHE_PAGE_HEADER_SIZE : nat := 10.

(** The fields of a page are in the range of their types. *)
Class Ranged (P : Type) := in_range : P -> Prop.
(** A CacheStoragePage has only strings. *)
#[export] Instance names_ranged : Ranged (list bytes) := fun _ => True.

(** Protobuf: the header as two fixed32 fields (ten bytes) and a page of type
    [P]; [parse_page] gives what parsing leaves in the message, whether or not it
    succeeded.  A page with its fields in range and a text below two gigabytes is
    parsed as it was. *)
Class CacheProto (P : Type) `{Ranged P} := {
  serialize_cache_header : Z -> Z -> bytes;
  parse_cache_header : bytes -> option (Z * Z);
  serialize_page : P -> bytes;
  parse_page : bytes -> P;
  cache_header_size : forall m v,
    0 <= m < 2 ^ 32 -> 0 <= v < 2 ^ 32 -> length (serialize_cache_header m v) = CACHE_PAGE_HEADER_SIZE;
  cache_header_parse : forall m v,
    0 <= m < 2 ^ 32 -> 0 <= v < 2 ^ 32 -> parse_cache_header (serialize_cache_header m v) = Some (m, v);
  page_parse : forall p, in_range p -> Z.of_nat (length (serialize_page p)) < 2 ^ 31 ->
    parse_page (serialize_page p) = p }.

(** The text of the page is below protobuf's limit. *)
Definition fits {P} `{CacheProto P} (p : P) : Prop := Z.of_nat (length (serialize_page p)) < 2 ^ 31.

(** [src/src/binding/internal/aworker_cache.h 21-24, AsyncWorkResult] *)
Record AsyncWorkResult := mkResult { success : bool; message : bytes }.

Definition ok_result : AsyncWorkResult := mkResult true [].

(** The files, and the directories created with [mkdir]. *)
Record FS := mkFS { files : gmap bytes bytes; dirs : gset bytes }.

Section pages.
Context {P : Type} `{CacheProto P}.
(** How an input stream splits a file into chunks. *)
Context (chunks : bytes -> list bytes).
(** Whether [uv_fs_open] of a path for writing succeeds. *)
Context (opens : FS -> bytes -> bool).

(** [src/src/binding/internal/aworker_cache.cc 56-75, ParseCachePageHeader] *)
Definition ParseCachePageHeader (stream : Input) : outcome (option Input) :=
  match Next_in stream with
  | (_, None) => Ret None
  | (stream, Some data) =>
      CHECK (CACHE_PAGE_HEADER_SIZE <=? length data)%nat ;;
      match parse_cache_header (take CACHE_PAGE_HEADER_SIZE data) with
      | None => Ret None
      | Some (magic, version) =>
          if negb (magic =? AWORKER_MAGIC) then Ret None
          else if negb (version =? CACHE_DATA_VERSION) then Ret None
          else
            stream ← BackUp_in stream (Z.of_nat (length data) - Z.of_nat CACHE_PAGE_HEADER_SIZE);
            Ret (Some stream)
      end
  end.

(** [src/src/binding/internal/aworker_cache.cc 77-85, SerializeCachePageHeader] *)
Definition SerializeCachePageHeader : bytes := serialize_cache_header AWORKER_MAGIC CACHE_DATA_VERSION.


(** [src/src/binding/internal/aworker_cache.cc 312-349, CacheStorage::ReadPage]
    What the callback is given; the result of [ParseFromZeroCopyStream] is not
    looked at. *)
Definition ReadPage (fs : FS) (path : bytes) : outcome (AsyncWorkResult * option P) :=
  match files fs !! path with
  | None => Ret (mkResult false (msg_not_found path), None)
  | Some content =>
      header ← ParseCachePageHeader (Input_init (chunks content));
      match header with
      | None => Ret (mkResult false (msg_bad_header path), None)
      | Some stream => Ret (ok_result, Some (parse_page (unread stream)))
      end
  end.

(** [src/src/binding/internal/aworker_cache.cc 351-367, CacheStorage::WritePage]
    CHECK_NE(stream, nullptr): a stream that cannot be created ends the process.
    The file is as it is once the stream has ended. *)
Definition WritePage (fs : FS) (path : bytes) (page : P) : outcome FS :=
  CHECK (opens fs path) ;;
  Ret (mkFS (<[path := SerializeCachePageHeader ++ serialize_page page]> (files fs)) (dirs fs)).

(** A stream gives back its file, and its first chunk holds the header (a page of
    the stream is larger than the header). *)
Definition chunks_ok : Prop := forall f,
  mjoin (chunks f) = f /\
  ((CACHE_PAGE_HEADER_SIZE <= length f)%nat ->
   exists c cs, chunks f = c :: cs /\ (CACHE_PAGE_HEADER_SIZE <= length c)%nat).

(** A file of a header and a body is read as what parsing the body leaves. *)
Lemma ReadPage_body fs path body :
  chunks_ok -> files fs !! path = Some (SerializeCachePageHeader ++ body) ->
  ReadPage fs path = Ret (ok_result, Some (parse_page body)).
Proof.
  intros Hch Hfile. unfold ReadPage. rewrite Hfile. set (hd := SerializeCachePageHeader).
  assert (Hsz : length hd = CACHE_PAGE_HEADER_SIZE).
  { apply cache_header_size; unfold AWORKER_MAGIC, CACHE_DATA_VERSION; lia. }
  destruct (Hch (hd ++ body)) as [Hjoin Hfirst].
  destruct Hfirst as (c & cs & Hc & Hlen); [rewrite length_app; lia|]. rewrite Hc in *.
  assert (Hin : input_ok (Input_init (c :: cs))) by (split; simpl; lia).
  unfold ParseCachePageHeader. cbn [Next_in]. unfold Next_in. simpl bufs_. simpl read_chunk_idx_.
  cbn [lookup list_lookup]. simpl last_chunk_read_offset_. rewrite drop_0.
  unfold CHECK. rewrite (proj2 (Nat.leb_le _ _)) by done. cbn [mbind outcome_bind].
  simpl in Hjoin.
  assert (Htake : take CACHE_PAGE_HEADER_SIZE c = hd).
  { assert (Ht : take CACHE_PAGE_HEADER_SIZE (c ++ mjoin cs) = take CACHE_PAGE_HEADER_SIZE (hd ++ body))
      by (f_equal; exact Hjoin).
    rewrite take_app_le in Ht by done. by rewrite (take_app_exact hd body) in Ht. }
  rewrite Htake. unfold hd, SerializeCachePageHeader at 1.
  rewrite cache_header_parse by (unfold AWORKER_MAGIC, CACHE_DATA_VERSION; lia).
  rewrite !Z.eqb_refl. simpl negb. cbv iota.
  destruct (BackUp_in_spec (Input_init (c :: cs)) c (mkInput (c :: cs) 1 0)
    (Z.of_nat (length c) - Z.of_nat CACHE_PAGE_HEADER_SIZE) Hin ltac:(unfold Next_in; simpl; by rewrite drop_0)
    ltac:(lia)) as (i & Hi & _ & Hu).
  change (0 + 1)%nat with 1%nat. rewrite Hi. cbn [mbind outcome_bind]. do 3 f_equal.
  rewrite Hu. change (unread (mkInput (c :: cs) 1 0)) with (mjoin cs).
  assert (Hrest : drop CACHE_PAGE_HEADER_SIZE (c ++ mjoin cs) = body).
  { transitivity (drop CACHE_PAGE_HEADER_SIZE (hd ++ body)); [by f_equal|]. by rewrite drop_app_exact. }
  rewrite drop_app_le in Hrest by done.
  replace (length c - Z.to_nat (Z.of_nat (length c) - Z.of_nat CACHE_PAGE_HEADER_SIZE))%nat
    with CACHE_PAGE_HEADER_SIZE by lia.
  by rewrite Hrest.
Qed.

Lemma WritePage_ret fs path page fs' :
  WritePage fs path page = Ret fs' ->
  opens fs path = true /\
  fs' = mkFS (<[path := SerializeCachePageHeader ++ serialize_page page]> (files fs)) (dirs fs).
Proof. unfold WritePage. destruct (opens fs path); cbn; [by intros [= <-]|done]. Qed.

(** Reading a file that holds a page. *)
Lemma ReadPage_page fs path page :
  chunks_ok -> in_range page -> fits page ->
  files fs !! path = Some (SerializeCachePageHeader ++ serialize_page page) ->
  ReadPage fs path = Ret (ok_result, Some page).
Proof. intros Hch Hr Hf Hfile. rewrite (ReadPage_body _ _ _ Hch Hfile). by rewrite page_parse. Qed.

End pages.

(** * The storage *)

Section storage.
(** A CacheStoragePage is the list of its cache names. *)
Context `{CP : !CacheProto (list bytes)}.
Context (chunks : bytes -> list bytes) (opens : FS -> bytes -> bool).
(** [String::NewFromUtf8] gives nothing: the text is longer than V8 allows. *)
Context (too_long : bytes -> bool).
(** [--same-origin-shared-data-dir] *)
Context (data_dir : bytes).

(** [src/src/binding/internal/aworker_cache.cc 48-54, CityHash128] *)
Definition CityHash128 (str : bytes) : outcome bytes :=
  hash ← hash_string str;
  let dest := pathsafe_b64_encode hash in
  CHECK (length dest =? 24)%nat ;; Ret dest.

(** [src/src/binding/internal/aworker_cache.cc 221-225, CacheStorage::PathForCacheStorage] *)
Definition PathForCacheStorage : bytes := data_dir ++ slash_cache_storages.
(** [src/src/binding/internal/aworker_cache.cc 227-229, CacheStorage::PathForCacheStoragePage] *)
Definition PathForCacheStoragePage : bytes := PathForCacheStorage ++ dot_data.
(** [src/src/binding/internal/aworker_cache.cc 231-237, CacheStorage::PathForCache] *)
Definition PathForCache (cacheName : bytes) : outcome bytes :=
  h ← CityHash128 cacheName; Ret (data_dir ++ slash ++ cache_prefix ++ h).
(** [src/src/binding/internal/aworker_cache.cc 239-242, CacheStorage::PathForCachePage] *)
Definition PathForCachePage (cacheName : bytes) : outcome bytes :=
  p ← PathForCache cacheName; Ret (p ++ dot_data).
(** [src/src/binding/internal/aworker_cache.cc 244-274, CacheStorage::PathForCacheObjectPage]
    The name of an object's file: the hash of its method, url and headers. *)
Definition PathForCacheObjectPage (cacheName method url : bytes) (headers : list (bytes * bytes))
    : outcome bytes :=
  let ctn := (method ++ [x20] ++ url ++ [x0a]) ++ (headers ≫= fun kv => kv.1 ++ colon_sp ++ kv.2 ++ [x0a]) in
  dir ← PathForCache cacheName; h ← CityHash128 ctn; Ret (dir ++ slash ++ h ++ dot_data).

(** [src/src/binding/internal/aworker_cache.cc 276-279, CacheStorage::ReadCacheStoragePage] *)
Definition read_storage (fs : FS) : outcome (AsyncWorkResult * option (list bytes)) :=
  ReadPage chunks fs PathForCacheStoragePage.
(** [src/src/binding/internal/aworker_cache.cc 281-285, CacheStorage::WriteCacheStoragePage] *)
Definition write_storage (fs : FS) (page : list bytes) : outcome FS :=
  WritePage opens fs PathForCacheStoragePage page.

(** [src/src/binding/internal/aworker_cache.cc 103-131, CacheStorage::List] *)
Definition List_ (fs : FS) : outcome (AsyncWorkResult * list bytes) :=
  r ← read_storage fs;
  match r with
  | (result, Some page) =>
      if negb (success result) then Ret (ok_result, [])
      else if existsb too_long (map c_str page) then Ret (mkResult false msg_too_long, [])
      else Ret (result, map c_str page)
  | (result, None) => if success result then Fault NullDeref else Ret (ok_result, [])
  end.

(** [src/src/binding/internal/aworker_cache.cc 133-151, CacheStorage::Has] *)
Definition Has (fs : FS) (cacheName : bytes) : outcome (AsyncWorkResult * bool) :=
  r ← read_storage fs;
  match r with
  | (result, Some page) => Ret (ok_result, success result && bool_decide (cacheName ∈ page))
  | (result, None) => if success result then Fault NullDeref else Ret (ok_result, false)
  end.

(** [src/src/binding/internal/aworker_cache.cc 153-177, CacheStorage::Ensure] Up to the
    callback of the read: the page to write, if any. *)
Definition Ensure_begin (fs : FS) (cacheName : bytes) : outcome (FS * option (list bytes)) :=
  dir ← PathForCache cacheName;
  let fs := mkFS (files fs) ({[dir]} ∪ dirs fs) in
  r ← read_storage fs;
  match r with
  | (result, Some page) =>
      if success result then
        if bool_decide (cacheName ∈ page) then Ret (fs, None) else Ret (fs, Some (page ++ [cacheName]))
      else Ret (fs, Some [cacheName])
  | (result, None) => if success result then Fault NullDeref else Ret (fs, Some [cacheName])
  end.

(** [src/src/binding/internal/aworker_cache.cc 153-185, CacheStorage::Ensure] *)
Definition Ensure (fs : FS) (cacheName : bytes) : outcome (FS * (AsyncWorkResult * bool)) :=
  r ← Ensure_begin fs cacheName;
  fs ← match r.2 with Some page => write_storage r.1 page | None => Ret r.1 end;
  Ret (fs, (ok_result, true)).

(** [src/src/binding/internal/aworker_cache.cc 198-209, CacheStorage::Delete] The first
    match is swapped with the last element and removed. *)
Definition swap_remove (name : bytes) (page : list bytes) : list bytes * nat :=
  match list_find (fun c => c = name) page with
  | None => (page, 0%nat)
  | Some (idx, c) =>
      let l := (length page - 1)%nat in
      let page := <[l := c]> (<[idx := nth l page []]> page) in
      (take l page, 1%nat)
  end.

(** [src/src/binding/internal/aworker_cache.cc 187-219, CacheStorage::Delete] *)
Definition Delete (fs : FS) (cacheName : bytes) : outcome (FS * (AsyncWorkResult * bool)) :=
  path ← PathForCachePage cacheName;
  let fs := mkFS (delete path (files fs)) (dirs fs) in
  r ← read_storage fs;
  match r with
  | (result, Some page) =>
      if success result then
        let '(page, delete_count) := swap_remove cacheName page in
        fs ← (if (0 <? delete_count)%nat then write_storage fs page else Ret fs);
        Ret (fs, (ok_result, true))
      else Ret (fs, (result, false))
  | (result, None) => if success result then Fault NullDeref else Ret (fs, (result, false))
  end.

(** ** Operations and their specification *)

Inductive COp := CList | CHas (name : bytes) | CEnsure (name : bytes) | CDelete (name : bytes).
Inductive CResult := RNames (l : list bytes) | RBool (b : bool).

Definition exec (fs : FS) (op : COp) : outcome (FS * CResult) :=
  match op with
  | CList => r ← List_ fs; Ret (fs, RNames r.2)
  | CHas n => r ← Has fs n; Ret (fs, RBool r.2)
  | CEnsure n => r ← Ensure fs n; Ret (r.1, RBool r.2.2)
  | CDelete n => r ← Delete fs n; Ret (r.1, RBool r.2.2)
  end.

(** The contract: a set of names, absent until the first one is ensured. *)
Definition spec_names (S : option (gset bytes)) : gset bytes := default ∅ S.

Definition spec_exec (S : option (gset bytes)) (op : COp) : option (gset bytes) :=
  match op with
  | CList | CHas _ => S
  | CEnsure n => Some ({[n]} ∪ spec_names S)
  | CDelete n => (fun s => s ∖ {[n]}) <$> S
  end.

Definition spec_result (S : option (gset bytes)) (op : COp) (r : CResult) : Prop :=
  match op, r with
  | CList, RNames l => NoDup l /\ list_to_set l = spec_names S
  | CHas n, RBool b => b = bool_decide (n ∈ spec_names S)
  | CEnsure _, RBool b => b = true
  | CDelete _, RBool b => b = bool_decide (is_Some S)
  | _, _ => False
  end.

(** The storage page of a file system stands for a set. *)
Definition represents (fs : FS) (S : option (gset bytes)) : Prop :=
  match S with
  | None => files fs !! PathForCacheStoragePage = None
  | Some s => exists page, NoDup page /\ list_to_set page = s /\ fits page /\
      files fs !! PathForCacheStoragePage = Some (SerializeCachePageHeader ++ serialize_page page)
  end.

Context (Hchunks : chunks_ok chunks).
(** The storage file can be opened for writing. *)
Definition storage_opens : Prop := forall fs, opens fs PathForCacheStoragePage = true.
(** A name JavaScript gets back as it was: without a NUL, and not too long. *)
Definition name_ok (n : bytes) : Prop := no_nul n /\ too_long n = false.

Lemma CityHash128_ret s : exists h, CityHash128 s = Ret h /\ length h = 24%nat.
Proof.
  unfold CityHash128. destruct (hash_string_ret s) as (hash & -> & H16). simpl.
  pose proof (pathsafe_b64_length hash) as Hl. rewrite H16 in Hl.
  change (length (pathsafe_b64_encode hash) = 24%nat) in Hl. rewrite Hl. simpl. eauto.
Qed.

Lemma ReadPage_names fs path (page : list bytes) :
  fits page -> files fs !! path = Some (SerializeCachePageHeader ++ serialize_page page) ->
  ReadPage chunks fs path = Ret (ok_result, Some page).
Proof. intros Hfit Hf. apply (ReadPage_page chunks fs path page Hchunks); done. Qed.

Lemma read_spec fs S :
  represents fs S ->
  match S with
  | None => exists m, read_storage fs = Ret (mkResult false m, None)
  | Some s => exists page, NoDup page /\ list_to_set page = s /\ fits page /\ read_storage fs = Ret (ok_result, Some page)
  end.
Proof.
  destruct S as [s|]; simpl.
  - intros (page & Hnd & Hs & Hfit & Hf). exists page. split_and!; [done..|].
    exact (ReadPage_names fs PathForCacheStoragePage page Hfit Hf).
  - intros Hf. unfold read_storage, ReadPage. rewrite Hf. eauto.
Qed.

Lemma swap_remove_spec name page :
  NoDup page ->
  let '(page', n) := swap_remove name page in
  NoDup page' /\ (list_to_set page' : gset bytes) = list_to_set page ∖ {[name]} /\
  (n = 0%nat -> page' = page).
Proof.
  intros Hnd. unfold swap_remove.
  destruct (list_find (fun c => c = name) page) as [[idx c]|] eqn:Hf.
  - apply list_find_Some in Hf as (Hl & -> & _).
    assert (Hp : page ≡ₚ name :: take (length page - 1)
                   (<[(length page - 1)%nat := name]> (<[idx := nth (length page - 1) page []]> page))).
    { destruct page as [|z page0 _] using rev_ind; [done|].
      assert (Hlen : (length (page0 ++ [z]) - 1)%nat = length page0) by (rewrite length_app; simpl; lia).
      rewrite Hlen. rewrite (app_nth2 page0 [z]), Nat.sub_diag by lia. simpl nth.
      destruct (decide (idx = length page0)) as [->|Hne].
      - rewrite list_insert_insert_eq. rewrite lookup_app_r, Nat.sub_diag in Hl by lia. simpl in Hl. simplify_eq.
        rewrite insert_app_r_alt, Nat.sub_diag by lia. simpl. rewrite take_app_length.
        by rewrite Permutation_app_comm.
      - assert (Hlt : (idx < length page0)%nat).
        { apply lookup_lt_Some in Hl. rewrite length_app in Hl. simpl in Hl. lia. }
        rewrite lookup_app_l in Hl by done.
        rewrite insert_app_l by done. rewrite insert_app_r_alt by (rewrite length_insert; lia).
        rewrite length_insert, Nat.sub_diag. simpl. rewrite take_app_exact by (by rewrite length_insert).
        rewrite <- (take_drop_middle page0 idx name Hl) at 1.
        rewrite insert_take_drop by done. rewrite <- !Permutation_middle.
        rewrite app_nil_r. apply Permutation_swap. }
    rewrite Hp in Hnd. apply NoDup_cons in Hnd as [Hni Hnd]. split_and!; [done| |done].
    pose proof (list_to_set_perm_L (C := gset bytes) _ _ Hp) as Hset. rewrite Hset. set_solver.
  - apply list_find_None in Hf. split_and!; [done| |done].
    assert (name ∉ page). { rewrite Forall_forall in Hf. intros Hin. by apply (Hf name). }
    set_solver.
Qed.

Lemma PathForCache_ret name : exists h, PathForCache name = Ret (data_dir ++ slash ++ cache_prefix ++ h) /\
  PathForCachePage name = Ret ((data_dir ++ slash ++ cache_prefix ++ h) ++ dot_data) /\ length h = 24%nat.
Proof.
  destruct (CityHash128_ret name) as (h & Hh & Hl). exists h.
  unfold PathForCachePage, PathForCache. rewrite Hh. simpl. done.
Qed.

(** The page of a cache is never the page of the storage: the names have
    different lengths. *)
Lemma page_paths_differ h :
  length h = 24%nat -> (data_dir ++ slash ++ cache_prefix ++ h) ++ dot_data <> PathForCacheStoragePage.
Proof.
  intros Hh Heq. apply (f_equal length) in Heq. unfold PathForCacheStoragePage, PathForCacheStorage in Heq.
  rewrite !length_app, Hh in Heq. simpl in Heq. lia.
Qed.

Lemma represents_files fs fs' S :
  files fs' !! PathForCacheStoragePage = files fs !! PathForCacheStoragePage ->
  represents fs S -> represents fs' S.
Proof. intros Hf. destruct S as [s|]; simpl; by rewrite Hf. Qed.

Lemma represents_write fs page s :
  storage_opens -> NoDup page -> list_to_set page = s -> fits page ->
  exists fs', write_storage fs page = Ret fs' /\ represents fs' (Some s).
Proof.
  intros Hop Hnd Hs Hfit. unfold write_storage, WritePage. rewrite Hop. eexists. split; [done|].
  exists page. split_and!; [done..|]. apply lookup_insert_eq.
Qed.

(** [U] are all names used; a page has some of them, and fits. *)
Section names.
Context (U : list bytes).
Context (Hop : storage_opens) (HU : Forall name_ok U) (Hfits : forall page, page ⊆+ U -> fits page).

Lemma page_fits (page : list bytes) :
  NoDup page -> list_to_set page ⊆@{gset bytes} list_to_set U -> fits page.
Proof.
  intros Hnd Hsub. apply Hfits. apply NoDup_submseteq; [done|]. intros x Hx.
  assert (x ∈@{gset bytes} list_to_set U) by (apply Hsub; by apply elem_of_list_to_set).
  by apply elem_of_list_to_set in H.
Qed.

Lemma Ensure_refines fs S n :
  represents fs S -> {[n]} ∪ spec_names S ⊆ list_to_set U ->
  exists fs', Ensure fs n = Ret (fs', (ok_result, true)) /\ represents fs' (Some ({[n]} ∪ spec_names S)).
Proof.
  intros Hrep HSU. unfold Ensure, Ensure_begin. destruct (PathForCache_ret n) as (h & -> & _ & _).
  cbn [mbind outcome_bind].
  set (fs1 := mkFS _ _). assert (Hrep1 : represents fs1 S) by (by apply (represents_files fs)).
  pose proof (read_spec fs1 S Hrep1) as Hr. destruct S as [s|]; cbn [spec_names default] in *.
  - destruct Hr as (page & Hnd & Hs & Hfit & ->). cbn [mbind outcome_bind success ok_result].
    destruct (decide (n ∈ page)) as [Hin|Hin];
      [rewrite (bool_decide_eq_true_2 _ Hin) | rewrite (bool_decide_eq_false_2 _ Hin)]; cbn [mbind outcome_bind snd fst].
    + eexists. split; [done|]. replace ({[n]} ∪ s) with s; [done|]. set_solver.
    + assert (Hset : list_to_set (page ++ [n]) = {[n]} ∪ s) by (rewrite list_to_set_app_L; set_solver).
      assert (Hnd' : NoDup (page ++ [n])).
      { apply NoDup_app. split_and!; [done|set_solver|]. by apply NoDup_singleton. }
      destruct (represents_write fs1 (page ++ [n]) ({[n]} ∪ s)) as (fs' & -> & Hrep'); try done.
      * apply page_fits; [done|]. by rewrite Hset.
      * by eexists.
  - destruct Hr as (m & ->). cbn [mbind outcome_bind success snd fst].
    destruct (represents_write fs1 [n] ({[n]} ∪ ∅)) as (fs' & -> & Hrep'); try done.
    + by apply NoDup_singleton.
    + apply page_fits; [by apply NoDup_singleton|]. by rewrite list_to_set_singleton_L, <- (union_empty_r_L {[n]}).
    + by eexists.
Qed.

Lemma Delete_refines fs S n :
  represents fs S -> spec_names S ⊆ list_to_set U ->
  exists fs' res, Delete fs n = Ret (fs', (res, bool_decide (is_Some S))) /\
    represents fs' ((fun s => s ∖ {[n]}) <$> S).
Proof.
  intros Hrep HSU. unfold Delete. destruct (PathForCache_ret n) as (h & _ & -> & Hl).
  cbn [mbind outcome_bind]. set (fs1 := mkFS _ _).
  assert (Hrep1 : represents fs1 S).
  { apply (represents_files fs); [|done]. simpl. rewrite lookup_delete_ne; [done|]. by apply page_paths_differ. }
  pose proof (read_spec fs1 S Hrep1) as Hr. destruct S as [s|]; cbn [spec_names default] in *.
  - destruct Hr as (page & Hnd & Hs & Hfit & ->). cbn [mbind outcome_bind success ok_result].
    pose proof (swap_remove_spec n page Hnd) as Hsw. destruct (swap_remove n page) as [page' k].
    destruct Hsw as (Hnd' & Hs' & Hk). rewrite Hs in Hs'.
    destruct (Nat.ltb_spec 0 k) as [Hpos|Hz].
    + destruct (represents_write fs1 page' (s ∖ {[n]})) as (fs' & -> & Hrep'); try done.
      * apply page_fits; [done|]. set_solver.
      * by eexists _, _.
    + rewrite (Hk ltac:(lia)), Hs in Hs'. eexists _, _. split; [done|]. cbn. rewrite <- Hs'. done.
  - destruct Hr as (m & ->). eexists _, _. by split.
Qed.

Lemma listed_names (page : list bytes) :
  list_to_set page ⊆@{gset bytes} list_to_set U ->
  map c_str page = page /\ existsb too_long page = false.
Proof.
  intros Hsub. assert (Hall : Forall name_ok page).
  { apply Forall_forall. intros x Hx. rewrite Forall_forall in HU. apply HU.
    apply (elem_of_list_to_set (C := gset bytes)), Hsub. by apply elem_of_list_to_set. }
  clear Hsub. induction Hall as [|x page [Hn Ht] _ IH]; [done|]. destruct IH as [IH1 IH2]. simpl.
  by rewrite c_str_id, IH1, Ht, IH2.
Qed.

Definition op_names (op : COp) : list bytes := match op with CEnsure n => [n] | _ => [] end.

Lemma exec_refines fs S op :
  represents fs S -> spec_names S ⊆ list_to_set U -> op_names op ⊆ U ->
  exists fs' r, exec fs op = Ret (fs', r) /\ represents fs' (spec_exec S op) /\ spec_result S op r /\
    spec_names (spec_exec S op) ⊆ list_to_set U.
Proof.
  intros Hrep HSU HopU. destruct op as [|n|n|n]; unfold exec.
  - pose proof (read_spec fs S Hrep) as Hr. unfold List_. destruct S as [s|].
    + destruct Hr as (page & Hnd & Hs & _ & ->). cbn [mbind outcome_bind success ok_result negb].
      destruct (listed_names page) as [-> ->]; [by rewrite Hs|].
      eexists _, _. split_and!; done.
    + destruct Hr as (m & ->). eexists _, _. split_and!; try done. split; [by apply NoDup_nil_2|done].
  - pose proof (read_spec fs S Hrep) as Hr. unfold Has. destruct S as [s|].
    + destruct Hr as (page & Hnd & Hs & _ & ->). eexists _, _. split_and!; try done. simpl.
      apply bool_decide_ext. subst s. by rewrite elem_of_list_to_set.
    + destruct Hr as (m & ->). eexists _, _. by split_and!.
  - assert (Hsub : {[n]} ∪ spec_names S ⊆ list_to_set U).
    { apply union_subseteq. split; [|done]. apply singleton_subseteq_l, elem_of_list_to_set, HopU. by left. }
    destruct (Ensure_refines fs S n Hrep Hsub) as (fs' & -> & ?). by eexists _, _.
  - destruct (Delete_refines fs S n Hrep HSU) as (fs' & res & -> & ?). eexists _, _. split_and!; try done.
    destruct S as [s|]; simpl in *; set_solver.
Qed.

Fixpoint exec_all (fs : FS) (ops : list COp) : outcome (FS * list CResult) :=
  match ops with
  | [] => Ret (fs, [])
  | op :: ops' => r ← exec fs op; rs ← exec_all r.1 ops'; Ret (rs.1, r.2 :: rs.2)
  end.

Fixpoint spec_results (S : option (gset bytes)) (ops : list COp) (rs : list CResult) : Prop :=
  match ops, rs with
  | [], [] => True
  | op :: ops', r :: rs' => spec_result S op r /\ spec_results (spec_exec S op) ops' rs'
  | _, _ => False
  end.

Lemma exec_all_refines ops : forall fs S,
  represents fs S -> spec_names S ⊆ list_to_set U -> ops ≫= op_names ⊆ U ->
  exists fs' rs, exec_all fs ops = Ret (fs', rs) /\ represents fs' (foldl spec_exec S ops) /\
    spec_results S ops rs.
Proof.
  induction ops as [|op ops IH]; intros fs S Hrep HSU HopU; [by eexists _, _|].
  rewrite bind_cons in HopU.
  destruct (exec_refines fs S op Hrep HSU) as (fs1 & r & Hr & Hrep1 & Hres & HSU1); [set_solver|].
  destruct (IH fs1 _ Hrep1 HSU1) as (fs2 & rs & Hrs & Hrep2 & Hress); [set_solver|].
  exists fs2, (r :: rs). cbn [exec_all]. rewrite Hr. cbn [mbind outcome_bind fst snd]. rewrite Hrs. done.
Qed.
End names.

(** * Properties *)

(** C8 The cache storage is a set of names: any sequence of list, has, ensure and
    delete operations, each finished before the next, starting without a storage
    file, never faults, and each operation answers and changes the storage as the
    same operation on a set does (a delete answers whether a storage file
    exists); listing gives every name once.  This holds as long as the storage
    file can be opened for writing (the process ends otherwise, a failed CHECK),
    the ensured names have no NUL and are not too long for V8 (listing cuts names
    at a NUL, and answers nothing when one is too long), and a page of them is
    below protobuf's limit of two gigabytes. *)
Theorem cache_storage_refines_set (ops : list COp) :
  storage_opens ->
  Forall name_ok (ops ≫= op_names) ->
  (forall page, page ⊆+ ops ≫= op_names -> fits page) ->
  exists fs rs, exec_all (mkFS ∅ ∅) ops = Ret (fs, rs) /\
    represents fs (foldl spec_exec None ops) /\ spec_results None ops rs.
Proof.
  intros Hop HU Hfits. by apply (exec_all_refines (ops ≫= op_names)).
Qed.

(** When one of the names is too long for V8, listing answers no name at all. *)
Theorem list_too_long (fs : FS) (page : list bytes) (n : bytes) :
  fits page -> files fs !! PathForCacheStoragePage = Some (SerializeCachePageHeader ++ serialize_page page) ->
  n ∈ page -> too_long (c_str n) = true ->
  List_ fs = Ret (mkResult false msg_too_long, []).
Proof.
  intros Hfit Hf Hn Ht. unfold List_, read_storage.
  rewrite (ReadPage_names _ _ page Hfit Hf). cbn [mbind outcome_bind success ok_result negb].
  rewrite (proj2 (existsb_exists _ _)); [done|]. exists (c_str n). split; [|done].
  apply in_map, list_elem_of_In. done.
Qed.

(** A page reads back as written, through the streams and their chunks and
    past the page header, whatever other files there are. *)
Theorem cache_page_roundtrip (fs fs' : FS) (path : bytes) (page : list bytes) :
  fits page -> WritePage opens fs path page = Ret fs' ->
  ReadPage chunks fs' path = Ret (ok_result, Some page).
Proof.
  intros Hfit [_ ->]%WritePage_ret. apply (ReadPage_names _ _ _ Hfit). apply lookup_insert_eq.
Qed.

(** Two ensure operations in flight lose one of the names: when both have read
    the page before either writes it, the storage holds only the name written
    last, although both report success. *)
Theorem concurrent_ensure_loses_update (a b : bytes) :
  storage_opens -> fits [b] -> a <> b ->
  exists fs1 page1 fs2 page2 fs3 fs4,
    Ensure_begin (mkFS ∅ ∅) a = Ret (fs1, Some page1) /\
    Ensure_begin fs1 b = Ret (fs2, Some page2) /\
    write_storage fs2 page1 = Ret fs3 /\ write_storage fs3 page2 = Ret fs4 /\
    exists r, Has fs4 a = Ret (r, false).
Proof.
  intros Hop Hfit Hab. unfold Ensure_begin.
  destruct (PathForCache_ret a) as (ha & -> & _ & _), (PathForCache_ret b) as (hb & -> & _ & _).
  cbn [mbind outcome_bind]. unfold read_storage at 1 2, ReadPage. cbn [files].
  rewrite !lookup_empty. cbn [mbind outcome_bind success]. eexists _, [a], _, [b], _, _. split; [done|].
  cbn [files]. rewrite lookup_empty. split; [done|].
  unfold write_storage, WritePage. rewrite !Hop. split; [done|]. split; [done|].
  unfold Has, read_storage. rewrite (ReadPage_names _ _ [b] Hfit) by apply lookup_insert_eq.
  cbn. rewrite bool_decide_eq_false_2 by set_solver. eauto.
Qed.

End storage.

(** * Witnesses *)

(** A wire format that satisfies the interface: the header as protobuf writes it,
    a name as its length in unary and its bytes. *)
Definition wire_name (n : bytes) : bytes := repeat x01 (length n) ++ [x00] ++ n.

Fixpoint wire_names (skip : nat) (fuel : nat) (s : bytes) : list bytes :=
  match fuel, s with
  | S fuel', b :: s' =>
      if byte_eqb b x01 then wire_names (S skip) fuel' s'
      else take skip s' :: wire_names 0 fuel' (drop skip s')
  | _, _ => []
  end.

Lemma wire_names_spec l : forall fuel, (length (l ≫= wire_name) <= fuel)%nat ->
  wire_names 0 fuel (l ≫= wire_name) = l.
Proof.
  induction l as [|n l IH]; intros fuel Hf; [by destruct fuel|].
  rewrite bind_cons in *. unfold wire_name at 1 in Hf. unfold wire_name at 1.
  assert (Hgo : forall k skip fuel', (k + S (length n + length (l ≫= wire_name)) <= fuel')%nat ->
    wire_names skip fuel' ((repeat x01 k ++ [x00] ++ n) ++ (l ≫= wire_name)) =
    take (skip + k) (n ++ (l ≫= wire_name)) :: wire_names 0 (fuel' - k - 1) (drop (skip + k) (n ++ (l ≫= wire_name)))).
  { induction k as [|k IHk]; intros skip fuel' Hk; (destruct fuel' as [|fuel']; [lia|]).
    - simpl. rewrite Nat.add_0_r, Nat.sub_0_r. done.
    - simpl. specialize (IHk (S skip) fuel' ltac:(lia)). simpl in IHk. rewrite IHk.
      by replace (skip + S k)%nat with (S (skip + k)) by lia. }
  rewrite !length_app in Hf. simpl in Hf. rewrite repeat_length in Hf.
  rewrite Hgo by lia. simpl. rewrite take_app_length, drop_app_length. f_equal. apply IH. lia.
Qed.

#[export, refine] Instance WireCache : CacheProto (list bytes) := {
  serialize_cache_header m v := fixed32_field x0d m ++ fixed32_field x15 v;
  parse_cache_header s := '(m, s) ← take_field x0d s; '(v, s) ← take_field x15 s; Some (m, v);
  serialize_page p := p ≫= wire_name;
  parse_page s := wire_names 0 (length s) s
}.
Proof.
  - intros m v _ _. reflexivity.
  - intros m v Hm Hv. rewrite take_field_spec by done. cbn [mbind option_bind].
    rewrite <- (app_nil_r (fixed32_field x15 v)), take_field_spec by done. done.
  - intros p _ _. by apply wire_names_spec.
Defined.

Definition ex_chunks (f : bytes) : list bytes := match f with [] => [] | _ => [f] end.

Lemma ex_chunks_ok : chunks_ok ex_chunks.
Proof.
  intros [|b f]; [split; [done|simpl; unfold CACHE_PAGE_HEADER_SIZE; lia]|].
  split; [simpl; by rewrite app_nil_r|]. intros Hl. by exists (b :: f), [].
Qed.

Definition ex_ops : list COp := [CEnsure [x61]; CEnsure [x62]; CEnsure [x61]; CDelete [x61]; CHas [x61]; CList].

Definition ex_opens (fs : FS) (path : bytes) : bool := true.
Definition ex_too_long (s : bytes) : bool := (1000 <? length s)%nat.

Lemma ex_fits : forall page, page ⊆+ ex_ops ≫= op_names -> fits page.
Proof.
  assert (Hl : forall l : list bytes, Forall (fun n => length n = 1%nat) l ->
    length (l ≫= wire_name) = (3 * length l)%nat).
  { induction 1 as [|n l Hn _ IH]; [done|]. rewrite bind_cons, length_app, IH. unfold wire_name.
    rewrite !length_app, repeat_length, Hn. simpl. lia. }
  intros page Hp. unfold fits. cbn [serialize_page WireCache].
  pose proof (submseteq_length _ _ Hp) as Hlen. cbn in Hlen.
  rewrite Hl; [lia|]. apply Forall_forall. intros n Hn.
  pose proof (elem_of_submseteq _ _ _ Hn Hp) as Hin. clear Hn. revert n Hin. apply Forall_forall.
  by repeat constructor.
Qed.

Lemma cache_storage_refines_set_witness :
  exists fs rs, exec_all ex_chunks ex_opens ex_too_long [x2f] (mkFS ∅ ∅) ex_ops = Ret (fs, rs) /\
    represents [x2f] fs (foldl spec_exec None ex_ops) /\ spec_results None ex_ops rs.
Proof.
  apply (cache_storage_refines_set ex_chunks ex_opens ex_too_long [x2f] ex_chunks_ok ex_ops).
  - by intros fs.
  - repeat constructor; unfold no_nul; set_solver.
  - apply ex_fits.
Defined.

Lemma cache_page_roundtrip_witness :
  exists fs', WritePage ex_opens (mkFS ∅ ∅) [x2f] [[x61; x62]; []] = Ret fs' /\
  ReadPage ex_chunks fs' [x2f] = Ret (ok_result, Some [[x61; x62]; []]).
Proof.
  eexists. split; [reflexivity|].
  apply (cache_page_roundtrip ex_chunks ex_opens ex_chunks_ok (mkFS ∅ ∅) _ [x2f] [[x61; x62]; []]);
    [unfold fits; vm_compute; reflexivity|reflexivity].
Defined.

Lemma concurrent_ensure_loses_update_witness :
  exists fs1 page1 fs2 page2 fs3 fs4,
    Ensure_begin ex_chunks [x2f] (mkFS ∅ ∅) [x61] = Ret (fs1, Some page1) /\
    Ensure_begin ex_chunks [x2f] fs1 [x62] = Ret (fs2, Some page2) /\
    write_storage ex_opens [x2f] fs2 page1 = Ret fs3 /\ write_storage ex_opens [x2f] fs3 page2 = Ret fs4 /\
    exists r, Has ex_chunks [x2f] fs4 [x61] = Ret (r, false).
Proof.
  apply (concurrent_ensure_loses_update ex_chunks ex_opens ex_too_long [x2f] ex_chunks_ok [x61] [x62]).
  - by intros fs.
  - unfold fits. vm_compute. reflexivity.
  - discriminate.
Defined.
