(* ===== verification/CacheObjects.v ===== *)
(** src/src/binding/internal/aworker_cache.cc, the pages of a cache and of its objects:
    readCachePage, writeCachePage, readCacheObjectPage and writeCacheObjectPage, on top
    of [CacheStorage].

    A JavaScript string is given by its UTF-8 bytes, which may hold a NUL; the four
    methods take it as a C string, list, has, ensure and delete take all of it.  The
    generated conversions of objects go field by field through the helpers of
    src/src/proto_helper.h. *)

From S2P Require Import Prelude IpcMessage JsMessages ZeroCopyStream Base64 CityHash CacheStorage Json Format.
Import String.StringSyntax.
Local Open Scope string_scope.
Local Open Scope list_scope.

(** * Pages *)

(** [src/src/proto/aworker_cache.proto 28-34, CachedEntry] *)
Record CachedEntry := mkEntry {
  url : bytes;
  req_method : bytes;
  req_headers : list (bytes * bytes);
  vary : bytes;
  cache_object_filename : bytes }.

(** [src/src/proto/aworker_cache.proto 36-39, CachePage] *)
Record CachePage := mkCachePage { name : bytes; entries : list CachedEntry }.

(** [src/src/proto/aworker_cache.proto 44-48, CachedRequest] *)
Record CachedRequest := mkCachedRequest { creq_url : bytes; creq_method : bytes; creq_headers : list (bytes * bytes) }.

(** [src/src/proto/aworker_cache.proto 50-55, CachedResponse] *)
Record CachedResponse := mkCachedResponse {
  cres_url : bytes; cres_status : Z; cres_headers : list (bytes * bytes); cres_body : option bytes }.

(** [src/src/proto/aworker_cache.proto 57-60, CacheObjectPage] A message that has been
    parsed in part lacks fields. *)
Record CacheObjectPage := mkObjectPage { request : option CachedRequest; response : option CachedResponse }.

(** A cache page has only strings; the status of an object is an int32. *)
#[export] Instance page_ranged : Ranged CachePage := fun _ => True.
#[export] Instance object_ranged : Ranged CacheObjectPage := fun p =>
  forall r, response p = Some r -> - 2 ^ 31 <= cres_status r < 2 ^ 31.

(** [src/src/proto_helper.h 36-42, StringHelper::FromValue] *)
Definition FromValue (value_utf8 : bytes) : bytes := c_str value_utf8.

(** [src/src/proto_helper.h 28-34, StringHelper::ToValue] *)
Definition ToValue (item : bytes) : bytes := c_str item.

Definition from_headers (l : list (bytes * bytes)) : list (bytes * bytes) :=
  map (fun kv => (FromValue kv.1, FromValue kv.2)) l.

Definition entry_from_value (e : CachedEntry) : CachedEntry :=
  mkEntry (FromValue (url e)) (FromValue (req_method e)) (from_headers (req_headers e)) (FromValue (vary e))
    (cache_object_filename e).

Definition request_from_value (r : CachedRequest) : CachedRequest :=
  mkCachedRequest (FromValue (creq_url r)) (FromValue (creq_method r)) (from_headers (creq_headers r)).

(** The status of a JavaScript response is a number, taken modulo 2^32
    ([Int32Value]). *)
Definition response_from_value (r : CachedResponse) : CachedResponse :=
  mkCachedResponse (FromValue (cres_url r)) (i32 (cres_status r)) (from_headers (cres_headers r)) (cres_body r).

Definition set_filename (e : CachedEntry) (f : bytes) : CachedEntry :=
  mkEntry (url e) (req_method e) (req_headers e) (vary e) f.

(** What the callback of a read is called with: an error, or a page. *)
Inductive ReadResult (T : Type) := RError (text : bytes) | RPage (page : T).
Arguments RError {T} text.
Arguments RPage {T} page.

Section objects.
Context `{CPn : !CacheProto (list bytes)} `{CPp : !CacheProto CachePage} `{CPo : !CacheProto CacheObjectPage}.
Context (chunks : bytes -> list bytes) (opens : FS -> bytes -> bool) (too_long : bytes -> bool) (data_dir : bytes).

(** [src/src/binding/internal/aworker_cache.cc 256-267, CacheStorage::PathForCacheObjectPage] *)
Definition entry_path (cacheName : bytes) (e : CachedEntry) : outcome bytes :=
  PathForCacheObjectPage data_dir cacheName (req_method e) (url e) (req_headers e).

(** [src/src/binding/internal/aworker_cache.cc 244-254, CacheStorage::PathForCacheObjectPage] *)
Definition request_path (cacheName : bytes) (r : CachedRequest) : outcome bytes :=
  PathForCacheObjectPage data_dir cacheName (creq_method r) (creq_url r) (creq_headers r).

(** [src/src/binding/internal/aworker_cache.cc 519-526, WriteCachePage] *)
Fixpoint page_entries (cacheName : bytes) (es : list CachedEntry) : outcome (list CachedEntry) :=
  match es with
  | [] => Ret []
  | e :: es =>
      let item := entry_from_value e in
      f ← entry_path cacheName item;
      items ← page_entries cacheName es;
      Ret (set_filename item f :: items)
  end.

(** [src/src/binding/internal/aworker_cache.cc 504-542, WriteCachePage] *)
Definition WriteCachePage (fs : FS) (cache_name : bytes) (cache_page : list CachedEntry) : outcome FS :=
  let cacheName := c_str cache_name in
  items ← page_entries cacheName cache_page;
  path ← PathForCachePage data_dir cacheName;
  WritePage opens fs path (mkCachePage cacheName items).

(** [src/src/binding/internal/aworker_cache.cc 460-502, ReadCachePage] *)
Definition ReadCachePage (fs : FS) (cache_name : bytes) : outcome (ReadResult CachePage) :=
  path ← PathForCachePage data_dir (c_str cache_name);
  r ← ReadPage chunks fs path;
  match r with
  | (result, Some page) =>
      if success result then Ret (RPage page)
      else t ← SPrintF (fun _ => []) (bs "unable to read cache page: %s") [AString (message result)]; Ret (RError t)
  | (result, None) =>
      t ← SPrintF (fun _ => []) (bs "unable to read cache page: %s") [AString (message result)]; Ret (RError t)
  end.

(** [src/src/binding/internal/aworker_cache.cc 586-628, WriteCacheObjectPage] The file is
    created in the directory of the cache. *)
Definition WriteCacheObjectPage (fs : FS) (cache_name : bytes) (req : CachedRequest) (res : CachedResponse) : outcome FS :=
  let cacheName := c_str cache_name in
  let req := request_from_value req in
  path ← request_path cacheName req;
  WritePage opens fs path (mkObjectPage (Some req) (Some (response_from_value res))).

(** [src/src/binding/internal/aworker_cache.cc 544-584, ReadCacheObjectPage] *)
Definition ReadCacheObjectPage (fs : FS) (cache_object_filename : bytes) : outcome (ReadResult CacheObjectPage) :=
  r ← ReadPage chunks fs (c_str cache_object_filename);
  match r with
  | (result, Some page) =>
      if success result then
        CHECK (bool_decide (is_Some (request page)) && bool_decide (is_Some (response page)))%bool ;;
        Ret (RPage page)
      else t ← SPrintF (fun _ => []) (bs "unable to read cache object page: %s") [AString (message result)]; Ret (RError t)
  | (result, None) =>
      t ← SPrintF (fun _ => []) (bs "unable to read cache object page: %s") [AString (message result)]; Ret (RError t)
  end.

(** ** Histories *)

Inductive CacheOp :=
  | CStorage (op : COp)
  | CWritePage (cache_name : bytes) (es : list CachedEntry)
  | CWriteObject (cache_name : bytes) (req : CachedRequest) (res : CachedResponse).

Definition cstep (fs : FS) (op : CacheOp) : outcome FS :=
  match op with
  | CStorage op => r ← exec chunks opens too_long data_dir fs op; Ret r.1
  | CWritePage n es => WriteCachePage fs n es
  | CWriteObject n req res => WriteCacheObjectPage fs n req res
  end.

Fixpoint crun (fs : FS) (ops : list CacheOp) : outcome FS :=
  match ops with [] => Ret fs | op :: ops => fs ← cstep fs op; crun fs ops end.

(** * The three kinds of files have different names *)

Definition cache_dir (h : bytes) : bytes := data_dir ++ slash ++ cache_prefix ++ h.
Definition object_path (h h2 : bytes) : bytes := cache_dir h ++ slash ++ h2 ++ dot_data.

Lemma request_path_ret n r :
  exists h h2, PathForCache data_dir n = Ret (cache_dir h) /\ request_path n r = Ret (object_path h h2) /\
    length h = 24%nat /\ length h2 = 24%nat.
Proof.
  destruct (PathForCache_ret data_dir n) as (h & E & _ & Hl).
  unfold request_path, PathForCacheObjectPage. rewrite E. cbn [mbind outcome_bind].
  match goal with |- context [CityHash128 ?t] => destruct (CityHash128_ret t) as (h2 & -> & Hl2) end.
  exists h, h2. done.
Qed.

Lemma object_not_page h h2 h' :
  length h = 24%nat -> length h' = 24%nat -> object_path h h2 <> cache_dir h' ++ dot_data.
Proof.
  intros Hh Hh' E. unfold object_path, cache_dir in E. rewrite <-!app_assoc in E.
  do 3 apply app_inv_head in E. apply app_inj_1 in E as [_ E]; [|congruence]. discriminate E.
Qed.

Lemma object_not_storage h h2 :
  length h = 24%nat -> object_path h h2 <> PathForCacheStoragePage data_dir.
Proof.
  intros Hh E. apply (f_equal length) in E. revert E. unfold object_path, cache_dir, PathForCacheStoragePage, PathForCacheStorage.
  rewrite !length_app, Hh. cbn. lia.
Qed.

Lemma path_safe_nul c : path_safe c = true -> c <> x00.
Proof. intros H ->. vm_compute in H. discriminate. Qed.

Lemma CityHash128_no_nul s h : CityHash128 s = Ret h -> no_nul h.
Proof.
  unfold CityHash128. destruct (hash_string s) as [hash|]; [|done]. cbn.
  destruct (length (pathsafe_b64_encode hash) =? 24)%nat; [|done]. cbn. intros [= <-] Hin.
  pose proof (pathsafe_b64_safe hash) as HF. rewrite Forall_forall in HF. by apply (path_safe_nul x00); [apply HF|].
Qed.

Lemma no_nul_app a b : no_nul a -> no_nul b -> no_nul (a ++ b).
Proof. unfold no_nul. intros ?? Hin. apply elem_of_app in Hin as [?|?]; done. Qed.

Lemma no_nul_cons c s : c <> x00 -> no_nul s -> no_nul (c :: s).
Proof. unfold no_nul. intros ?? Hin. apply elem_of_cons in Hin as [?|?]; congruence. Qed.

Lemma no_nul_decide s : forallb (fun c => negb (byte_eqb c x00)) s = true -> no_nul s.
Proof.
  intros H Hin. rewrite forallb_forall in H. apply list_elem_of_In in Hin. specialize (H _ Hin). discriminate H.
Qed.

(** The path of an object is a C string as it is. *)
Lemma request_path_c_str n r p : no_nul data_dir -> request_path n r = Ret p -> c_str p = p.
Proof.
  intros Hd E. apply c_str_id. revert E. unfold request_path, PathForCacheObjectPage, PathForCache.
  destruct (CityHash128 n) as [h|] eqn:E1; [|done]. cbn [mbind outcome_bind].
  match goal with |- context [CityHash128 ?t] => destruct (CityHash128 t) as [h2|] eqn:E2; [|done] end.
  cbn [mbind outcome_bind]. intros [= <-]. apply CityHash128_no_nul in E1, E2.
  repeat first [apply no_nul_app | apply no_nul_cons; [discriminate|]]; try done; by apply no_nul_decide.
Qed.

(** ** Other operations leave a file alone *)

(** A file that is no page of the storage or of a cache. *)
Definition apart (p : bytes) : Prop :=
  p <> PathForCacheStoragePage data_dir /\ forall n q, PathForCachePage data_dir n = Ret q -> p <> q.

Lemma request_path_apart n r p : request_path n r = Ret p -> apart p.
Proof.
  destruct (request_path_ret n r) as (h & h2 & _ & -> & Hh & Hh2). intros [= <-]. split.
  - by apply object_not_storage.
  - intros m q. destruct (PathForCache_ret data_dir m) as (h' & _ & -> & Hh'). intros [= <-]. by apply object_not_page.
Qed.

(** What an operation on the storage changes: the storage page, and the page of a
    cache that is deleted. *)
Lemma exec_file fs op fs' r p :
  p <> PathForCacheStoragePage data_dir ->
  (forall m, op = CDelete m -> PathForCachePage data_dir m <> Ret p) ->
  exec chunks opens too_long data_dir fs op = Ret (fs', r) -> files fs' !! p = files fs !! p.
Proof.
  intros Hs Hp.
  assert (Hw : forall fs0 pg fs1, write_storage opens data_dir fs0 pg = Ret fs1 -> files fs1 !! p = files fs0 !! p).
  { intros fs0 pg fs1 [_ ->]%WritePage_ret. cbn. by rewrite lookup_insert_ne by (by apply not_eq_sym). }
  unfold exec, List_, Has, Ensure, Ensure_begin, Delete. destruct op as [|n|n|n].
  - destruct (read_storage _ _ _) as [[res [pg|]]|]; cbn; [| |done]; destruct (success res); cbn;
      repeat case_match; cbn; by intros [= <- <-].
  - destruct (read_storage _ _ _) as [[res [pg|]]|]; cbn; [| |done]; [by intros [= <- <-]|].
    destruct (success res); cbn; by intros [= <- <-].
  - destruct (PathForCache data_dir n) as [d|]; [|done]. cbn.
    destruct (read_storage _ _ _) as [[res [pg|]]|]; cbn; [| |done]; destruct (success res); cbn; try done.
    1: destruct (bool_decide _); cbn; [by intros [= <- <-]|].
    all: destruct (write_storage _ _ _ _) as [fs1|] eqn:E; [|done]; cbn; intros [= <- <-]; by apply Hw in E.
  - destruct (PathForCachePage data_dir n) as [q|] eqn:Eq; [|done]. cbn.
    assert (Hne : q <> p) by (intros ->; by apply (Hp n)).
    assert (Hdel : delete q (files fs) !! p = files fs !! p) by (by rewrite lookup_delete_ne).
    destruct (read_storage _ _ _) as [[res [pg|]]|]; cbn; [| |done]; destruct (success res); cbn; try done.
    2, 3: intros [= <- <-]; exact Hdel.
    destruct (swap_remove n pg) as [pg' k]. destruct k as [|k]; cbn; [intros [= <- <-]; exact Hdel|].
    destruct (write_storage _ _ _ _) as [fs1|] eqn:E; [|done]. cbn. intros [= <- <-]. apply Hw in E. by rewrite E.
Qed.

(** ** Without a failed check *)

(** The storage file, if there is one, begins with a header. *)
Definition storage_wf (fs : FS) : Prop :=
  forall content, files fs !! PathForCacheStoragePage data_dir = Some content ->
    exists body, content = SerializeCachePageHeader (P := list bytes) ++ body.

Lemma read_wf fs : chunks_ok chunks -> storage_wf fs ->
  exists r, read_storage chunks data_dir fs = Ret r /\ (success r.1 = true -> is_Some r.2).
Proof.
  intros Hch Hwf. unfold read_storage. destruct (files fs !! PathForCacheStoragePage data_dir) as [c|] eqn:E.
  - destruct (Hwf _ E) as (body & ->). rewrite (ReadPage_body _ _ _ body Hch E). eauto.
  - unfold ReadPage. rewrite E. by eexists.
Qed.

Lemma write_wf fs pg : (forall fs p, opens fs p = true) ->
  exists fs', write_storage opens data_dir fs pg = Ret fs' /\ storage_wf fs'.
Proof.
  intros Ho. unfold write_storage, WritePage. rewrite Ho. eexists. split; [done|].
  intros c. cbn. rewrite lookup_insert_eq. intros [= <-]. eauto.
Qed.

Lemma exec_wf fs op : chunks_ok chunks -> (forall fs p, opens fs p = true) -> storage_wf fs ->
  exists fs' r, exec chunks opens too_long data_dir fs op = Ret (fs', r) /\ storage_wf fs'.
Proof.
  intros Hch Ho Hwf. unfold exec, List_, Has, Ensure, Ensure_begin, Delete. destruct op as [|n|n|n].
  - destruct (read_wf fs Hch Hwf) as ([res pg] & -> & Hs). cbn in *.
    destruct (success res); [destruct (Hs eq_refl) as [l ->]|destruct pg]; cbn; [case_match|..]; by eexists _, _.
  - destruct (read_wf fs Hch Hwf) as ([res pg] & -> & Hs). cbn in *.
    destruct (success res); [destruct (Hs eq_refl) as [l ->]|destruct pg]; cbn; by eexists _, _.
  - destruct (PathForCache_ret data_dir n) as (h & -> & _). cbn [mbind outcome_bind].
    match goal with |- context [read_storage _ _ ?f] => assert (Hwf1 : storage_wf f) by done;
      destruct (read_wf f Hch Hwf1) as ([res pg] & -> & Hs); set (fs1 := f) in * end.
    cbn [mbind outcome_bind fst snd] in *.
    destruct (success res); [destruct (Hs eq_refl) as [l ->]; destruct (bool_decide _)|destruct pg];
      cbn [mbind outcome_bind fst snd]; try (by eexists _, _);
      match goal with |- context [write_storage _ _ ?f ?pg] => destruct (write_wf f pg Ho) as (fs2 & -> & ?) end;
      by eexists _, _.
  - destruct (PathForCache_ret data_dir n) as (h & _ & -> & Hl). cbn [mbind outcome_bind].
    match goal with |- context [read_storage _ _ ?f] => assert (Hwf1 : storage_wf f);
      [|destruct (read_wf f Hch Hwf1) as ([res pg] & -> & Hs); set (fs1 := f) in *] end.
    { intros c. cbn. rewrite lookup_delete_ne by (by apply page_paths_differ). apply Hwf. }
    cbn [mbind outcome_bind fst snd] in *.
    destruct (success res); [destruct (Hs eq_refl) as [l ->]; destruct (swap_remove n l) as [l' k]; destruct (0 <? k)%nat
      |destruct pg]; cbn [mbind outcome_bind fst snd]; try (by eexists _, _).
    destruct (write_wf fs1 l' Ho) as (fs2 & -> & ?). by eexists _, _.
Qed.

(** An operation that does not write this object. *)
Definition not_writing (p : bytes) (op : CacheOp) : Prop :=
  match op with
  | CWriteObject n req _ => request_path (c_str n) (request_from_value req) <> Ret p
  | _ => True
  end.

(** An operation that neither writes nor deletes this page of a cache. *)
Definition keeps_page (q : bytes) (op : CacheOp) : Prop :=
  match op with
  | CWritePage m _ => PathForCachePage data_dir (c_str m) <> Ret q
  | CStorage (CDelete m) => PathForCachePage data_dir m <> Ret q
  | _ => True
  end.

Lemma cstep_file fs op fs' p :
  p <> PathForCacheStoragePage data_dir -> keeps_page p op -> not_writing p op ->
  cstep fs op = Ret fs' -> files fs' !! p = files fs !! p.
Proof.
  intros Ha Hk Hn. destruct op as [op|n es|n req res]; cbn [cstep].
  - destruct (exec _ _ _ _ _ _) as [[fs1 r]|] eqn:E; [|done]. cbn. intros [= <-].
    eapply exec_file; [done| |done]. intros m ->. exact Hk.
  - unfold WriteCachePage. destruct (page_entries _ _) as [items|]; [|done]. cbn.
    cbn in Hk. destruct (PathForCachePage _ _) as [q|]; [|done]. cbn. intros [_ ->]%WritePage_ret. cbn.
    rewrite lookup_insert_ne; [done|]. congruence.
  - cbn in Hn. unfold WriteCacheObjectPage. destruct (request_path _ _) as [q|]; [|done]. cbn.
    intros [_ ->]%WritePage_ret. cbn. rewrite lookup_insert_ne; [done|]. congruence.
Qed.

Lemma apart_keeps p op : apart p -> keeps_page p op.
Proof.
  intros [_ Hp]. destruct op as [[]| |]; try done; cbn; intros E; by apply (Hp _ _ E).
Qed.

Lemma page_not_writing n q op : PathForCachePage data_dir n = Ret q -> not_writing q op.
Proof.
  intros E. destruct op as [| |m req res]; try done. cbn. intros Er.
  by destruct (request_path_apart _ _ _ Er) as [_ Hp]; apply (Hp _ _ E).
Qed.

Lemma page_not_storage n q : PathForCachePage data_dir n = Ret q -> q <> PathForCacheStoragePage data_dir.
Proof.
  destruct (PathForCache_ret data_dir n) as (h & _ & -> & Hl). intros [= <-]. by apply page_paths_differ.
Qed.

Lemma cstep_wf fs op : chunks_ok chunks -> (forall fs p, opens fs p = true) -> storage_wf fs ->
  exists fs', cstep fs op = Ret fs' /\ storage_wf fs'.
Proof.
  intros Hch Ho Hwf. destruct op as [op|n es|n req res]; cbn [cstep].
  - destruct (exec_wf fs op Hch Ho Hwf) as (fs' & r & -> & Hwf'). by eexists.
  - unfold WriteCachePage.
    assert (Hit : exists items, page_entries (c_str n) es = Ret items).
    { clear. induction es as [|e es [items IH]]; cbn; [by eexists|].
      destruct (request_path_ret (c_str n) (mkCachedRequest (url (entry_from_value e)) (req_method (entry_from_value e))
        (req_headers (entry_from_value e)))) as (h & h2 & _ & Ep & _).
      change (request_path _ _) with (entry_path (c_str n) (entry_from_value e)) in Ep. rewrite Ep. cbn. rewrite IH. by eexists. }
    destruct Hit as [items ->]. cbn. destruct (PathForCachePage _ _) as [q|] eqn:E.
    + cbn. unfold WritePage. rewrite Ho. eexists. split; [done|]. intros c. cbn.
      rewrite lookup_insert_ne by (by eapply page_not_storage). apply Hwf.
    + exfalso. destruct (PathForCache_ret data_dir (c_str n)) as (h & _ & E' & _). congruence.
  - unfold WriteCacheObjectPage. destruct (request_path_ret (c_str n) (request_from_value req)) as (h & h2 & _ & E & Hh & _).
    rewrite E. cbn. unfold WritePage. rewrite Ho. eexists. split; [done|]. intros c. cbn.
    rewrite lookup_insert_ne by (by apply object_not_storage). apply Hwf.
Qed.

Lemma crun_wf ops : chunks_ok chunks -> (forall fs p, opens fs p = true) -> forall fs, storage_wf fs ->
  exists fs', crun fs ops = Ret fs' /\ storage_wf fs'.
Proof.
  intros Hch Ho. induction ops as [|op ops IH]; intros fs Hwf; cbn; [by eexists|].
  destruct (cstep_wf fs op Hch Ho Hwf) as (fs1 & -> & Hwf1). cbn. by apply IH.
Qed.

Lemma crun_app ops1 : forall ops2 fs fs', crun fs (ops1 ++ ops2) = Ret fs' ->
  exists fs1, crun fs ops1 = Ret fs1 /\ crun fs1 ops2 = Ret fs'.
Proof.
  induction ops1 as [|op ops1 IH]; intros ops2 fs fs'; cbn; [by eexists|].
  destruct (cstep fs op) as [fs1|]; [|done]. cbn. apply IH.
Qed.

Lemma crun_file ops : forall fs fs' p,
  p <> PathForCacheStoragePage data_dir -> Forall (keeps_page p) ops -> Forall (not_writing p) ops ->
  crun fs ops = Ret fs' -> files fs' !! p = files fs !! p.
Proof.
  induction ops as [|op ops IH]; intros fs fs' p Ha Hk Hn; cbn; [by intros [= <-]|].
  apply Forall_cons in Hk as [Hk Hks]. apply Forall_cons in Hn as [Hn Hns].
  destruct (cstep fs op) as [fs1|] eqn:E; [|done]. cbn. intros Er.
  rewrite (IH _ _ _ Ha Hks Hns Er). by eapply cstep_file.
Qed.

Lemma crun_apart ops fs fs' p :
  apart p -> Forall (not_writing p) ops -> crun fs ops = Ret fs' -> files fs' !! p = files fs !! p.
Proof.
  intros Ha Hn. apply crun_file; [by destruct Ha| |done]. apply Forall_forall. intros op _. by apply apart_keeps.
Qed.

Context (Hchunks : chunks_ok chunks) (Hdir : no_nul data_dir).

(** Reading depends on the file only. *)
Lemma ReadPage_file {P} `{!Ranged P, !CacheProto P} fs fs' p :
  files fs' !! p = files fs !! p -> ReadPage chunks fs' p = ReadPage (P := P) chunks fs p.
Proof. unfold ReadPage. by intros ->. Qed.

Lemma page_entries_lookup n es : exists items, page_entries n es = Ret items /\
  forall i e, es !! i = Some e -> exists f, entry_path n (entry_from_value e) = Ret f /\
    items !! i = Some (set_filename (entry_from_value e) f).
Proof.
  induction es as [|e es (items & E & IH)]; cbn; [by exists []|].
  destruct (request_path_ret n (mkCachedRequest (url (entry_from_value e)) (req_method (entry_from_value e)) (req_headers (entry_from_value e))))
    as (h & h2 & _ & Ep & _). change (request_path n _) with (entry_path n (entry_from_value e)) in Ep.
  rewrite Ep. cbn. rewrite E. cbn. eexists. split; [done|]. intros [|i] e'; cbn; [|apply IH].
  intros [= <-]. rewrite Ep. eauto.
Qed.

Lemma i32_range z : - 2 ^ 31 <= i32 z < 2 ^ 31.
Proof. unfold i32. pose proof (Z.mod_pos_bound (z + 2 ^ 31) (2 ^ 32) ltac:(lia)). lia. Qed.

(** The request an entry of a cache page stands for, and the object of an entry. *)
Definition request_of (e : CachedEntry) : CachedRequest := mkCachedRequest (url e) (req_method e) (req_headers e).
Definition object_of (er : CachedEntry * CachedResponse) : CacheObjectPage :=
  mkObjectPage (Some (request_from_value (request_of er.1))) (Some (response_from_value er.2)).

Lemma page_entries_ret n es : exists items, page_entries n es = Ret items.
Proof. destruct (page_entries_lookup n es) as (items & E & _). eauto. Qed.

Lemma object_kept fs fs1 fs2 n req res p ops :
  request_path (c_str n) (request_from_value req) = Ret p ->
  fits (mkObjectPage (Some (request_from_value req)) (Some (response_from_value res))) ->
  WriteCacheObjectPage fs n req res = Ret fs1 ->
  Forall (not_writing p) ops -> crun fs1 ops = Ret fs2 ->
  ReadCacheObjectPage fs2 p =
    Ret (RPage (mkObjectPage (Some (request_from_value req)) (Some (response_from_value res)))).
Proof.
  intros Ep Hfit Ew Hn Er. unfold ReadCacheObjectPage. rewrite (request_path_c_str _ _ _ Hdir Ep).
  revert Ew. unfold WriteCacheObjectPage. rewrite Ep. cbn [mbind outcome_bind]. intros [_ ->]%WritePage_ret.
  rewrite (ReadPage_page chunks fs2 p
    (mkObjectPage (Some (request_from_value req)) (Some (response_from_value res))) Hchunks); try done.
  - intros r [= <-]. apply i32_range.
  - rewrite (crun_apart _ _ _ p (request_path_apart _ _ _ Ep) Hn Er). apply lookup_insert_eq.
Qed.

(** The history writes this page of the cache, and does not write or delete it later. *)
Definition last_page (ops : list CacheOp) (n : bytes) (es : list CachedEntry) : Prop :=
  exists before after q, ops = before ++ CWritePage n es :: after /\
    PathForCachePage data_dir (c_str n) = Ret q /\ Forall (keeps_page q) after.

(** The history writes the object of this entry, and does not write its file later. *)
Definition last_object (ops : list CacheOp) (n : bytes) (er : CachedEntry * CachedResponse) : Prop :=
  exists before after p, ops = before ++ CWriteObject n (request_of er.1) er.2 :: after /\
    request_path (c_str n) (request_from_value (request_of er.1)) = Ret p /\ Forall (not_writing p) after.

Lemma page_kept ops fs fs' n es items :
  crun fs ops = Ret fs' -> last_page ops n es -> page_entries (c_str n) es = Ret items ->
  fits (mkCachePage (c_str n) items) ->
  ReadCachePage fs' n = Ret (RPage (mkCachePage (c_str n) items)).
Proof.
  intros Hrun (before & after & q & -> & Eq & Hk) Eit Hfit.
  apply crun_app in Hrun as (fs1 & _ & Hrun). cbn [crun cstep] in Hrun.
  apply outcome_bind_inv in Hrun as (fs2 & Hw & Hrun).
  unfold ReadCachePage. rewrite Eq. cbn [mbind outcome_bind].
  revert Hw. unfold WriteCachePage. rewrite Eit, Eq. cbn [mbind outcome_bind]. intros [_ ->]%WritePage_ret.
  rewrite (ReadPage_page chunks fs' q (mkCachePage (c_str n) items)); try done.
  assert (Hn : Forall (not_writing q) after).
  { apply Forall_forall. intros op _. by apply (page_not_writing (c_str n)). }
  rewrite (crun_file _ _ _ q (page_not_storage _ _ Eq) Hk Hn Hrun). apply lookup_insert_eq.
Qed.

Lemma objects_kept ops fs fs' n stored : forall items,
  crun fs ops = Ret fs' -> Forall (last_object ops n) stored ->
  Forall (fun er => fits (object_of er)) stored ->
  page_entries (c_str n) stored.*1 = Ret items ->
  Forall2 (fun er e => e = set_filename (entry_from_value er.1) (cache_object_filename e) /\
             ReadCacheObjectPage fs' (cache_object_filename e) = Ret (RPage (object_of er))) stored items.
Proof.
  intros items Hrun Hobj. revert items. induction Hobj as [|er stored Ho _ IH]; intros items Hfit; cbn.
  - intros [= <-]. constructor.
  - apply Forall_cons in Hfit as [Hf Hfit].
    destruct Ho as (before & after & p & -> & Ep & Hn).
    change (entry_path (c_str n) (entry_from_value er.1)) with
      (request_path (c_str n) (request_from_value (request_of er.1))). rewrite Ep. cbn [mbind outcome_bind].
    intros (its & Eits & [= <-])%outcome_bind_inv. constructor; [|by apply IH].
    split; [done|]. cbn [cache_object_filename set_filename].
    apply crun_app in Hrun as (fs1 & _ & Hrun). cbn [crun cstep] in Hrun.
    apply outcome_bind_inv in Hrun as (fs2 & Hw & Hrun). by eapply object_kept.
Qed.

(** A cached object stays readable: once its page has been written, it reads back as
    written, with strings cut at a NUL, after any further history of opening, deleting
    and listing caches and of writing cache pages and other objects. *)
Theorem cached_object_survives fs fs1 fs2 n req res p ops :
  request_path (c_str n) (request_from_value req) = Ret p ->
  fits (mkObjectPage (Some (request_from_value req)) (Some (response_from_value res))) ->
  WriteCacheObjectPage fs n req res = Ret fs1 ->
  Forall (not_writing p) ops -> crun fs1 ops = Ret fs2 ->
  ReadCacheObjectPage fs2 p =
    Ret (RPage (mkObjectPage (Some (request_from_value req)) (Some (response_from_value res)))).
Proof. apply object_kept. Qed.

(** C30 What put stores, match finds: after any history of operations on the cache
    storage, starting without files, in which every stream could be created, the
    last page written for a cache and not deleted since is read back with all its
    entries in order and all their fields, and the file name in each of these
    entries reads as the whole object last written for this entry: request,
    response status, headers and body.  Strings are cut at a NUL and the status is
    taken as an int32, as when they were written; the page and the objects are
    below protobuf's limit of two gigabytes. *)
Theorem cache_put_match ops n (stored : list (CachedEntry * CachedResponse)) :
  (forall fs p, opens fs p = true) ->
  last_page ops n stored.*1 -> Forall (last_object ops n) stored ->
  (forall items, page_entries (c_str n) stored.*1 = Ret items -> fits (mkCachePage (c_str n) items)) ->
  Forall (fun er => fits (object_of er)) stored ->
  exists fs page, crun (mkFS ∅ ∅) ops = Ret fs /\
    ReadCachePage fs n = Ret (RPage page) /\ name page = c_str n /\
    Forall2 (fun er e => e = set_filename (entry_from_value er.1) (cache_object_filename e) /\
               ReadCacheObjectPage fs (cache_object_filename e) = Ret (RPage (object_of er)))
      stored (entries page).
Proof.
  intros Ho Hp Hobj Hfp Hfo.
  destruct (crun_wf ops Hchunks Ho (mkFS ∅ ∅)) as (fs & Hrun & _); [by intros c|].
  destruct (page_entries_ret (c_str n) stored.*1) as (items & Hit).
  exists fs, (mkCachePage (c_str n) items). split_and!; try done.
  - exact (page_kept _ _ _ _ _ _ Hrun Hp Hit (Hfp _ Hit)).
  - exact (objects_kept _ _ _ _ _ _ Hrun Hobj Hfo Hit).
Qed.
(** A name with a NUL ends the process: opening a cache makes the directory of the
    whole name, writing an object looks for the directory of the name cut at the NUL,
    and the stream that cannot be created (no file can be opened in a directory that
    does not exist) fails a check; writing the cache page of
    such a name writes the page of the cut name. *)
Theorem nul_name_aborts n req res fs es :
  storage_opens opens data_dir ->
  (forall fs h h2, length h = 24%nat -> length h2 = 24%nat ->
     opens fs (object_path h h2) = true -> cache_dir h ∈ dirs fs) ->
  PathForCache data_dir n <> PathForCache data_dir (c_str n) ->
  (exists fs', Ensure chunks opens data_dir (mkFS ∅ ∅) n = Ret (fs', (ok_result, true)) /\
     WriteCacheObjectPage fs' n req res = Fault CheckFailed) /\
  WriteCachePage fs n es = WriteCachePage fs (c_str n) es.
Proof.
  intros Hop Hlaw Hne. split.
  - unfold Ensure, Ensure_begin. destruct (PathForCache_ret data_dir n) as (h & E & _). rewrite E.
    cbn [mbind outcome_bind]. unfold read_storage, ReadPage. cbn [files]. rewrite lookup_empty.
    cbn [mbind outcome_bind success fst snd]. unfold write_storage, WritePage. rewrite Hop. cbn [CHECK mbind outcome_bind].
    eexists. split; [done|]. unfold WriteCacheObjectPage.
    destruct (request_path_ret (c_str n) (request_from_value req)) as (h' & h2 & E' & -> & Hh & Hh2). cbn [mbind outcome_bind].
    unfold WritePage. destruct (opens _ (object_path h' h2)) eqn:Eo; [|done]. apply Hlaw in Eo; [|done..]. exfalso. revert Eo. cbn.
    rewrite elem_of_union, elem_of_singleton, elem_of_empty. intros [Heq|[]]. apply Hne. rewrite E, E'. by f_equal.
  - unfold WriteCachePage. rewrite (c_str_id (c_str n)); [done|]. clear. induction n as [|c n IH]; cbn.
    + unfold no_nul. apply not_elem_of_nil.
    + destruct (byte_eqb_spec c x00); [unfold no_nul; apply not_elem_of_nil|]. by apply no_nul_cons.
Qed.

(** A truncated object file ends the process: a file that ends behind its header is
    accepted, because the result of parsing the page is not looked at, and the check
    that the page has a request and a response fails. *)
Theorem truncated_object_aborts fs p :
  parse_page [] = mkObjectPage None None -> c_str p = p ->
  files fs !! p = Some (SerializeCachePageHeader (P := CacheObjectPage)) ->
  ReadCacheObjectPage fs p = Fault CheckFailed.
Proof.
  intros Hempty Hp Hf. unfold ReadCacheObjectPage. rewrite Hp.
  rewrite (ReadPage_body _ _ _ [] Hchunks) by (by rewrite app_nil_r). rewrite Hempty. done.
Qed.
End objects.

(** * Witnesses

    A wire format for any countable type of messages: the code of the message in
    binary; a text that is no code is the empty message. *)

Fixpoint pos_bytes (p : positive) : bytes :=
  match p with xH => [x02] | xO p => x00 :: pos_bytes p | xI p => x01 :: pos_bytes p end.

Fixpoint bytes_pos (s : bytes) : option positive :=
  match s with
  | [] => None
  | c :: s =>
      if byte_eqb c x02 then Some xH
      else p ← bytes_pos s; Some (if byte_eqb c x00 then xO p else xI p)
  end.

Lemma bytes_pos_bytes p : bytes_pos (pos_bytes p) = Some p.
Proof. induction p as [p IH|p IH|]; cbn; rewrite ?IH; done. Qed.

Definition WireCountable {P} `{Countable P, !Ranged P} (empty : P) : CacheProto P.
Proof.
  refine {| serialize_cache_header := serialize_cache_header (CacheProto := WireCache);
            parse_cache_header := parse_cache_header (CacheProto := WireCache);
            serialize_page p := pos_bytes (encode p);
            parse_page s := default empty (q ← bytes_pos s; decode q) |}.
  - apply (cache_header_size (CacheProto := WireCache)).
  - apply (cache_header_parse (CacheProto := WireCache)).
  - intros p _ _. rewrite bytes_pos_bytes. cbn. by rewrite decode_encode.
Defined.

#[export] Instance CachedEntry_eq_dec : EqDecision CachedEntry.
Proof. solve_decision. Defined.
#[export] Instance CachedEntry_countable : Countable CachedEntry.
Proof.
  refine (inj_countable' (fun e => (url e, req_method e, req_headers e, vary e, cache_object_filename e))
            (fun '(a, b, c, d, e) => mkEntry a b c d e) _). by intros [].
Defined.
#[export] Instance CachePage_eq_dec : EqDecision CachePage.
Proof. solve_decision. Defined.
#[export] Instance CachePage_countable : Countable CachePage.
Proof. refine (inj_countable' (fun p => (name p, entries p)) (fun '(a, b) => mkCachePage a b) _). by intros []. Defined.
#[export] Instance CachedRequest_eq_dec : EqDecision CachedRequest.
Proof. solve_decision. Defined.
#[export] Instance CachedRequest_countable : Countable CachedRequest.
Proof.
  refine (inj_countable' (fun r => (creq_url r, creq_method r, creq_headers r)) (fun '(a, b, c) => mkCachedRequest a b c) _).
  by intros [].
Defined.
#[export] Instance CachedResponse_eq_dec : EqDecision CachedResponse.
Proof. solve_decision. Defined.
#[export] Instance CachedResponse_countable : Countable CachedResponse.
Proof.
  refine (inj_countable' (fun r => (cres_url r, cres_status r, cres_headers r, cres_body r))
            (fun '(a, b, c, d) => mkCachedResponse a b c d) _). by intros [].
Defined.
#[export] Instance CacheObjectPage_eq_dec : EqDecision CacheObjectPage.
Proof. solve_decision. Defined.
#[export] Instance CacheObjectPage_countable : Countable CacheObjectPage.
Proof. refine (inj_countable' (fun p => (request p, response p)) (fun '(a, b) => mkObjectPage a b) _). by intros []. Defined.

#[export] Instance WireCachePage : CacheProto CachePage := WireCountable (mkCachePage [] []).
#[export] Instance WireObjectPage : CacheProto CacheObjectPage := WireCountable (mkObjectPage None None).

Definition ex_entry : CachedEntry := mkEntry (bs "http://a/") (bs "GET") [(bs "accept", bs "text/html")] [] [].
Definition ex_response : CachedResponse := mkCachedResponse (bs "http://a/") 200 [] (Some (bs "body")).
Lemma ex_dir_no_nul : no_nul (bs "/d").
Proof. by apply no_nul_decide. Qed.

Definition ex_stored : list (CachedEntry * CachedResponse) :=
  [(ex_entry, ex_response); (mkEntry (bs "http://b/") (bs "GET") [] [] [], mkCachedResponse (bs "http://b/") 404 [] None)].
Definition ex_cache_ops : list CacheOp :=
  [CStorage (CEnsure (bs "c")); CWritePage (bs "c") ex_stored.*1] ++
  map (fun er => CWriteObject (bs "c") (request_of er.1) er.2) ex_stored ++ [CStorage CList].

Lemma cache_put_match_witness :
  exists fs page, crun ex_chunks ex_opens ex_too_long (bs "/d") (mkFS ∅ ∅) ex_cache_ops = Ret fs /\
    ReadCachePage ex_chunks (bs "/d") fs (bs "c") = Ret (RPage page) /\ name page = bs "c" /\
    Forall2 (fun er e => e = set_filename (entry_from_value er.1) (cache_object_filename e) /\
               ReadCacheObjectPage ex_chunks fs (cache_object_filename e) = Ret (RPage (object_of er)))
      ex_stored (entries page).
Proof.
  apply (cache_put_match ex_chunks ex_opens ex_too_long (bs "/d") ex_chunks_ok ex_dir_no_nul ex_cache_ops (bs "c") ex_stored).
  - done.
  - eexists [CStorage (CEnsure (bs "c"))], _, _. split; [reflexivity|]. split; [vm_compute; reflexivity|].
    by repeat constructor.
  - constructor; [|constructor; [|constructor]].
    + eexists [CStorage (CEnsure (bs "c")); CWritePage (bs "c") ex_stored.*1], _, _.
      split; [reflexivity|]. split; [vm_compute; reflexivity|]. repeat constructor. vm_compute. discriminate.
    + eexists [CStorage (CEnsure (bs "c")); CWritePage (bs "c") ex_stored.*1; _], _, _.
      split; [reflexivity|]. split; [vm_compute; reflexivity|]. by repeat constructor.
  - intros items E. vm_compute in E. injection E as <-. unfold fits. vm_compute. reflexivity.
  - repeat constructor; unfold fits; vm_compute; reflexivity.
Defined.

Definition ex_object_path : bytes :=
  default [] (match request_path (bs "/d") (bs "c") (request_of ex_entry) with Ret p => Some p | Fault _ => None end).
Definition ex_object_fs : FS :=
  match WriteCacheObjectPage ex_opens (bs "/d") (mkFS ∅ ∅) (bs "c") (request_of ex_entry) ex_response with
  | Ret fs => fs | Fault _ => mkFS ∅ ∅ end.

Lemma cached_object_survives_witness :
  ReadCacheObjectPage ex_chunks ex_object_fs ex_object_path =
    Ret (RPage (object_of (ex_entry, ex_response))).
Proof.
  apply (cached_object_survives ex_chunks ex_opens ex_too_long (bs "/d") ex_chunks_ok ex_dir_no_nul (mkFS ∅ ∅) ex_object_fs ex_object_fs (bs "c")
           (request_of ex_entry) ex_response ex_object_path []).
  - vm_compute. reflexivity.
  - unfold fits. vm_compute. reflexivity.
  - vm_compute. reflexivity.
  - constructor.
  - reflexivity.
Defined.

(** A system in which the storage file can be opened, and an object's file when the
    directory of its cache was made. *)
Definition ex_dir_opens (fs : FS) (p : bytes) : bool :=
  bool_decide (p = PathForCacheStoragePage (bs "/d") \/ take (length p - 30) p ∈ dirs fs).

Lemma nul_name_aborts_witness :
  (exists fs', Ensure ex_chunks ex_dir_opens (bs "/d") (mkFS ∅ ∅) [x61; x00; x62] = Ret (fs', (ok_result, true)) /\
     WriteCacheObjectPage ex_dir_opens (bs "/d") fs' [x61; x00; x62] (request_of ex_entry) ex_response = Fault CheckFailed) /\
  WriteCachePage ex_dir_opens (bs "/d") (mkFS ∅ ∅) [x61; x00; x62] [] =
    WriteCachePage ex_dir_opens (bs "/d") (mkFS ∅ ∅) [x61] [].
Proof.
  apply (nul_name_aborts ex_chunks ex_dir_opens (bs "/d") [x61; x00; x62] (request_of ex_entry) ex_response (mkFS ∅ ∅) []).
  - intros fs. apply bool_decide_eq_true_2. by left.
  - intros fs h h2 Hh Hh2 Ho. apply bool_decide_eq_true_1 in Ho as [Ho|Ho].
    { by apply object_not_storage in Ho. }
    unfold object_path in Ho. rewrite take_app_exact in Ho; [done|].
    rewrite !length_app, Hh2. simpl. lia.
  - vm_compute. discriminate.
Defined.

Lemma truncated_object_aborts_witness :
  ReadCacheObjectPage ex_chunks (mkFS {[ bs "/o" := SerializeCachePageHeader (P := CacheObjectPage) ]} ∅) (bs "/o") = Fault CheckFailed.
Proof.
  apply (truncated_object_aborts ex_chunks ex_chunks_ok); [reflexivity|reflexivity|].
  cbn [files]. apply lookup_singleton_eq.
Defined.
