(* ===== verification/ModpBase64.v ===== *)
(** src/deps/modp_b64/modp_b64.{h,cc} and modp_b64_data.h: base64 of the bytes
    binding, with its tables.  The destination is a buffer of [cap] bytes that is
    written from its start; a write past it or a read past the source is a fault.
    The tables are those of a little-endian machine. *)

From S2P Require Import Prelude.

Module ModpTables.
Import String.StringSyntax.
Import String.
Local Open Scope string_scope.

(** [src/deps/modp_b64/modp_b64_data.h 6-33, e0] *)
Definition modp_e0 : bytes := bs
  ("AAAABBBBCCCCDDDDEEEEFFFFGGGGHHHHIIIIJJJJKKKKLLLLMMMMNNNNOOOOPPPP" ++
   "QQQQRRRRSSSSTTTTUUUUVVVVWWWWXXXXYYYYZZZZaaaabbbbccccddddeeeeffff" ++
   "gggghhhhiiiijjjjkkkkllllmmmmnnnnooooppppqqqqrrrrssssttttuuuuvvvv" ++
   "wwwwxxxxyyyyzzzz0000111122223333444455556666777788889999++++////").

(** [src/deps/modp_b64/modp_b64_data.h 35-62, e1] *)
Definition modp_e1 : bytes := bs
  ("ABCDEFGHIJKLMNOPQRSTUVWXYZabcdefghijklmnopqrstuvwxyz0123456789+/" ++
   "ABCDEFGHIJKLMNOPQRSTUVWXYZabcdefghijklmnopqrstuvwxyz0123456789+/" ++
   "ABCDEFGHIJKLMNOPQRSTUVWXYZabcdefghijklmnopqrstuvwxyz0123456789+/" ++
   "ABCDEFGHIJKLMNOPQRSTUVWXYZabcdefghijklmnopqrstuvwxyz0123456789+/").

(** [src/deps/modp_b64/modp_b64_data.h 64-91, e2] *)
Definition modp_e2 : bytes := bs
  ("ABCDEFGHIJKLMNOPQRSTUVWXYZabcdefghijklmnopqrstuvwxyz0123456789+/" ++
   "ABCDEFGHIJKLMNOPQRSTUVWXYZabcdefghijklmnopqrstuvwxyz0123456789+/" ++
   "ABCDEFGHIJKLMNOPQRSTUVWXYZabcdefghijklmnopqrstuvwxyz0123456789+/" ++
   "ABCDEFGHIJKLMNOPQRSTUVWXYZabcdefghijklmnopqrstuvwxyz0123456789+/").

End ModpTables.
Export ModpTables.

(** [src/deps/modp_b64/modp_b64_data.h 293-337, d0] *)
Definition modp_d0 : list Z := [
   0x01ffffff; 0x01ffffff; 0x01ffffff; 0x01ffffff; 0x01ffffff; 0x01ffffff; 0x01ffffff; 0x01ffffff;
   0x01ffffff; 0x01ffffff; 0x01ffffff; 0x01ffffff; 0x01ffffff; 0x01ffffff; 0x01ffffff; 0x01ffffff;
   0x01ffffff; 0x01ffffff; 0x01ffffff; 0x01ffffff; 0x01ffffff; 0x01ffffff; 0x01ffffff; 0x01ffffff;
   0x01ffffff; 0x01ffffff; 0x01ffffff; 0x01ffffff; 0x01ffffff; 0x01ffffff; 0x01ffffff; 0x01ffffff;
   0x01ffffff; 0x01ffffff; 0x01ffffff; 0x01ffffff; 0x01ffffff; 0x01ffffff; 0x01ffffff; 0x01ffffff;
   0x01ffffff; 0x01ffffff; 0x01ffffff; 0x000000f8; 0x01ffffff; 0x01ffffff; 0x01ffffff; 0x000000fc;
   0x000000d0; 0x000000d4; 0x000000d8; 0x000000dc; 0x000000e0; 0x000000e4; 0x000000e8; 0x000000ec;
   0x000000f0; 0x000000f4; 0x01ffffff; 0x01ffffff; 0x01ffffff; 0x01ffffff; 0x01ffffff; 0x01ffffff;
   0x01ffffff; 0x00000000; 0x00000004; 0x00000008; 0x0000000c; 0x00000010; 0x00000014; 0x00000018;
   0x0000001c; 0x00000020; 0x00000024; 0x00000028; 0x0000002c; 0x00000030; 0x00000034; 0x00000038;
   0x0000003c; 0x00000040; 0x00000044; 0x00000048; 0x0000004c; 0x00000050; 0x00000054; 0x00000058;
   0x0000005c; 0x00000060; 0x00000064; 0x01ffffff; 0x01ffffff; 0x01ffffff; 0x01ffffff; 0x01ffffff;
   0x01ffffff; 0x00000068; 0x0000006c; 0x00000070; 0x00000074; 0x00000078; 0x0000007c; 0x00000080;
   0x00000084; 0x00000088; 0x0000008c; 0x00000090; 0x00000094; 0x00000098; 0x0000009c; 0x000000a0;
   0x000000a4; 0x000000a8; 0x000000ac; 0x000000b0; 0x000000b4; 0x000000b8; 0x000000bc; 0x000000c0;
   0x000000c4; 0x000000c8; 0x000000cc; 0x01ffffff; 0x01ffffff; 0x01ffffff; 0x01ffffff; 0x01ffffff;
   0x01ffffff; 0x01ffffff; 0x01ffffff; 0x01ffffff; 0x01ffffff; 0x01ffffff; 0x01ffffff; 0x01ffffff;
   0x01ffffff; 0x01ffffff; 0x01ffffff; 0x01ffffff; 0x01ffffff; 0x01ffffff; 0x01ffffff; 0x01ffffff;
   0x01ffffff; 0x01ffffff; 0x01ffffff; 0x01ffffff; 0x01ffffff; 0x01ffffff; 0x01ffffff; 0x01ffffff;
   0x01ffffff; 0x01ffffff; 0x01ffffff; 0x01ffffff; 0x01ffffff; 0x01ffffff; 0x01ffffff; 0x01ffffff;
   0x01ffffff; 0x01ffffff; 0x01ffffff; 0x01ffffff; 0x01ffffff; 0x01ffffff; 0x01ffffff; 0x01ffffff;
   0x01ffffff; 0x01ffffff; 0x01ffffff; 0x01ffffff; 0x01ffffff; 0x01ffffff; 0x01ffffff; 0x01ffffff;
   0x01ffffff; 0x01ffffff; 0x01ffffff; 0x01ffffff; 0x01ffffff; 0x01ffffff; 0x01ffffff; 0x01ffffff;
   0x01ffffff; 0x01ffffff; 0x01ffffff; 0x01ffffff; 0x01ffffff; 0x01ffffff; 0x01ffffff; 0x01ffffff;
   0x01ffffff; 0x01ffffff; 0x01ffffff; 0x01ffffff; 0x01ffffff; 0x01ffffff; 0x01ffffff; 0x01ffffff;
   0x01ffffff; 0x01ffffff; 0x01ffffff; 0x01ffffff; 0x01ffffff; 0x01ffffff; 0x01ffffff; 0x01ffffff;
   0x01ffffff; 0x01ffffff; 0x01ffffff; 0x01ffffff; 0x01ffffff; 0x01ffffff; 0x01ffffff; 0x01ffffff;
   0x01ffffff; 0x01ffffff; 0x01ffffff; 0x01ffffff; 0x01ffffff; 0x01ffffff; 0x01ffffff; 0x01ffffff;
   0x01ffffff; 0x01ffffff; 0x01ffffff; 0x01ffffff; 0x01ffffff; 0x01ffffff; 0x01ffffff; 0x01ffffff;
   0x01ffffff; 0x01ffffff; 0x01ffffff; 0x01ffffff; 0x01ffffff; 0x01ffffff; 0x01ffffff; 0x01ffffff;
   0x01ffffff; 0x01ffffff; 0x01ffffff; 0x01ffffff; 0x01ffffff; 0x01ffffff; 0x01ffffff; 0x01ffffff;
   0x01ffffff; 0x01ffffff; 0x01ffffff; 0x01ffffff; 0x01ffffff; 0x01ffffff; 0x01ffffff; 0x01ffffff].

(** [src/deps/modp_b64/modp_b64_data.h 340-384, d1] *)
Definition modp_d1 : list Z := [
   0x01ffffff; 0x01ffffff; 0x01ffffff; 0x01ffffff; 0x01ffffff; 0x01ffffff; 0x01ffffff; 0x01ffffff;
   0x01ffffff; 0x01ffffff; 0x01ffffff; 0x01ffffff; 0x01ffffff; 0x01ffffff; 0x01ffffff; 0x01ffffff;
   0x01ffffff; 0x01ffffff; 0x01ffffff; 0x01ffffff; 0x01ffffff; 0x01ffffff; 0x01ffffff; 0x01ffffff;
   0x01ffffff; 0x01ffffff; 0x01ffffff; 0x01ffffff; 0x01ffffff; 0x01ffffff; 0x01ffffff; 0x01ffffff;
   0x01ffffff; 0x01ffffff; 0x01ffffff; 0x01ffffff; 0x01ffffff; 0x01ffffff; 0x01ffffff; 0x01ffffff;
   0x01ffffff; 0x01ffffff; 0x01ffffff; 0x0000e003; 0x01ffffff; 0x01ffffff; 0x01ffffff; 0x0000f003;
   0x00004003; 0x00005003; 0x00006003; 0x00007003; 0x00008003; 0x00009003; 0x0000a003; 0x0000b003;
   0x0000c003; 0x0000d003; 0x01ffffff; 0x01ffffff; 0x01ffffff; 0x01ffffff; 0x01ffffff; 0x01ffffff;
   0x01ffffff; 0x00000000; 0x00001000; 0x00002000; 0x00003000; 0x00004000; 0x00005000; 0x00006000;
   0x00007000; 0x00008000; 0x00009000; 0x0000a000; 0x0000b000; 0x0000c000; 0x0000d000; 0x0000e000;
   0x0000f000; 0x00000001; 0x00001001; 0x00002001; 0x00003001; 0x00004001; 0x00005001; 0x00006001;
   0x00007001; 0x00008001; 0x00009001; 0x01ffffff; 0x01ffffff; 0x01ffffff; 0x01ffffff; 0x01ffffff;
   0x01ffffff; 0x0000a001; 0x0000b001; 0x0000c001; 0x0000d001; 0x0000e001; 0x0000f001; 0x00000002;
   0x00001002; 0x00002002; 0x00003002; 0x00004002; 0x00005002; 0x00006002; 0x00007002; 0x00008002;
   0x00009002; 0x0000a002; 0x0000b002; 0x0000c002; 0x0000d002; 0x0000e002; 0x0000f002; 0x00000003;
   0x00001003; 0x00002003; 0x00003003; 0x01ffffff; 0x01ffffff; 0x01ffffff; 0x01ffffff; 0x01ffffff;
   0x01ffffff; 0x01ffffff; 0x01ffffff; 0x01ffffff; 0x01ffffff; 0x01ffffff; 0x01ffffff; 0x01ffffff;
   0x01ffffff; 0x01ffffff; 0x01ffffff; 0x01ffffff; 0x01ffffff; 0x01ffffff; 0x01ffffff; 0x01ffffff;
   0x01ffffff; 0x01ffffff; 0x01ffffff; 0x01ffffff; 0x01ffffff; 0x01ffffff; 0x01ffffff; 0x01ffffff;
   0x01ffffff; 0x01ffffff; 0x01ffffff; 0x01ffffff; 0x01ffffff; 0x01ffffff; 0x01ffffff; 0x01ffffff;
   0x01ffffff; 0x01ffffff; 0x01ffffff; 0x01ffffff; 0x01ffffff; 0x01ffffff; 0x01ffffff; 0x01ffffff;
   0x01ffffff; 0x01ffffff; 0x01ffffff; 0x01ffffff; 0x01ffffff; 0x01ffffff; 0x01ffffff; 0x01ffffff;
   0x01ffffff; 0x01ffffff; 0x01ffffff; 0x01ffffff; 0x01ffffff; 0x01ffffff; 0x01ffffff; 0x01ffffff;
   0x01ffffff; 0x01ffffff; 0x01ffffff; 0x01ffffff; 0x01ffffff; 0x01ffffff; 0x01ffffff; 0x01ffffff;
   0x01ffffff; 0x01ffffff; 0x01ffffff; 0x01ffffff; 0x01ffffff; 0x01ffffff; 0x01ffffff; 0x01ffffff;
   0x01ffffff; 0x01ffffff; 0x01ffffff; 0x01ffffff; 0x01ffffff; 0x01ffffff; 0x01ffffff; 0x01ffffff;
   0x01ffffff; 0x01ffffff; 0x01ffffff; 0x01ffffff; 0x01ffffff; 0x01ffffff; 0x01ffffff; 0x01ffffff;
   0x01ffffff; 0x01ffffff; 0x01ffffff; 0x01ffffff; 0x01ffffff; 0x01ffffff; 0x01ffffff; 0x01ffffff;
   0x01ffffff; 0x01ffffff; 0x01ffffff; 0x01ffffff; 0x01ffffff; 0x01ffffff; 0x01ffffff; 0x01ffffff;
   0x01ffffff; 0x01ffffff; 0x01ffffff; 0x01ffffff; 0x01ffffff; 0x01ffffff; 0x01ffffff; 0x01ffffff;
   0x01ffffff; 0x01ffffff; 0x01ffffff; 0x01ffffff; 0x01ffffff; 0x01ffffff; 0x01ffffff; 0x01ffffff;
   0x01ffffff; 0x01ffffff; 0x01ffffff; 0x01ffffff; 0x01ffffff; 0x01ffffff; 0x01ffffff; 0x01ffffff].

(** [src/deps/modp_b64/modp_b64_data.h 387-431, d2] *)
Definition modp_d2 : list Z := [
   0x01ffffff; 0x01ffffff; 0x01ffffff; 0x01ffffff; 0x01ffffff; 0x01ffffff; 0x01ffffff; 0x01ffffff;
   0x01ffffff; 0x01ffffff; 0x01ffffff; 0x01ffffff; 0x01ffffff; 0x01ffffff; 0x01ffffff; 0x01ffffff;
   0x01ffffff; 0x01ffffff; 0x01ffffff; 0x01ffffff; 0x01ffffff; 0x01ffffff; 0x01ffffff; 0x01ffffff;
   0x01ffffff; 0x01ffffff; 0x01ffffff; 0x01ffffff; 0x01ffffff; 0x01ffffff; 0x01ffffff; 0x01ffffff;
   0x01ffffff; 0x01ffffff; 0x01ffffff; 0x01ffffff; 0x01ffffff; 0x01ffffff; 0x01ffffff; 0x01ffffff;
   0x01ffffff; 0x01ffffff; 0x01ffffff; 0x00800f00; 0x01ffffff; 0x01ffffff; 0x01ffffff; 0x00c00f00;
   0x00000d00; 0x00400d00; 0x00800d00; 0x00c00d00; 0x00000e00; 0x00400e00; 0x00800e00; 0x00c00e00;
   0x00000f00; 0x00400f00; 0x01ffffff; 0x01ffffff; 0x01ffffff; 0x01ffffff; 0x01ffffff; 0x01ffffff;
   0x01ffffff; 0x00000000; 0x00400000; 0x00800000; 0x00c00000; 0x00000100; 0x00400100; 0x00800100;
   0x00c00100; 0x00000200; 0x00400200; 0x00800200; 0x00c00200; 0x00000300; 0x00400300; 0x00800300;
   0x00c00300; 0x00000400; 0x00400400; 0x00800400; 0x00c00400; 0x00000500; 0x00400500; 0x00800500;
   0x00c00500; 0x00000600; 0x00400600; 0x01ffffff; 0x01ffffff; 0x01ffffff; 0x01ffffff; 0x01ffffff;
   0x01ffffff; 0x00800600; 0x00c00600; 0x00000700; 0x00400700; 0x00800700; 0x00c00700; 0x00000800;
   0x00400800; 0x00800800; 0x00c00800; 0x00000900; 0x00400900; 0x00800900; 0x00c00900; 0x00000a00;
   0x00400a00; 0x00800a00; 0x00c00a00; 0x00000b00; 0x00400b00; 0x00800b00; 0x00c00b00; 0x00000c00;
   0x00400c00; 0x00800c00; 0x00c00c00; 0x01ffffff; 0x01ffffff; 0x01ffffff; 0x01ffffff; 0x01ffffff;
   0x01ffffff; 0x01ffffff; 0x01ffffff; 0x01ffffff; 0x01ffffff; 0x01ffffff; 0x01ffffff; 0x01ffffff;
   0x01ffffff; 0x01ffffff; 0x01ffffff; 0x01ffffff; 0x01ffffff; 0x01ffffff; 0x01ffffff; 0x01ffffff;
   0x01ffffff; 0x01ffffff; 0x01ffffff; 0x01ffffff; 0x01ffffff; 0x01ffffff; 0x01ffffff; 0x01ffffff;
   0x01ffffff; 0x01ffffff; 0x01ffffff; 0x01ffffff; 0x01ffffff; 0x01ffffff; 0x01ffffff; 0x01ffffff;
   0x01ffffff; 0x01ffffff; 0x01ffffff; 0x01ffffff; 0x01ffffff; 0x01ffffff; 0x01ffffff; 0x01ffffff;
   0x01ffffff; 0x01ffffff; 0x01ffffff; 0x01ffffff; 0x01ffffff; 0x01ffffff; 0x01ffffff; 0x01ffffff;
   0x01ffffff; 0x01ffffff; 0x01ffffff; 0x01ffffff; 0x01ffffff; 0x01ffffff; 0x01ffffff; 0x01ffffff;
   0x01ffffff; 0x01ffffff; 0x01ffffff; 0x01ffffff; 0x01ffffff; 0x01ffffff; 0x01ffffff; 0x01ffffff;
   0x01ffffff; 0x01ffffff; 0x01ffffff; 0x01ffffff; 0x01ffffff; 0x01ffffff; 0x01ffffff; 0x01ffffff;
   0x01ffffff; 0x01ffffff; 0x01ffffff; 0x01ffffff; 0x01ffffff; 0x01ffffff; 0x01ffffff; 0x01ffffff;
   0x01ffffff; 0x01ffffff; 0x01ffffff; 0x01ffffff; 0x01ffffff; 0x01ffffff; 0x01ffffff; 0x01ffffff;
   0x01ffffff; 0x01ffffff; 0x01ffffff; 0x01ffffff; 0x01ffffff; 0x01ffffff; 0x01ffffff; 0x01ffffff;
   0x01ffffff; 0x01ffffff; 0x01ffffff; 0x01ffffff; 0x01ffffff; 0x01ffffff; 0x01ffffff; 0x01ffffff;
   0x01ffffff; 0x01ffffff; 0x01ffffff; 0x01ffffff; 0x01ffffff; 0x01ffffff; 0x01ffffff; 0x01ffffff;
   0x01ffffff; 0x01ffffff; 0x01ffffff; 0x01ffffff; 0x01ffffff; 0x01ffffff; 0x01ffffff; 0x01ffffff;
   0x01ffffff; 0x01ffffff; 0x01ffffff; 0x01ffffff; 0x01ffffff; 0x01ffffff; 0x01ffffff; 0x01ffffff].

(** [src/deps/modp_b64/modp_b64_data.h 434-478, d3] *)
Definition modp_d3 : list Z := [
   0x01ffffff; 0x01ffffff; 0x01ffffff; 0x01ffffff; 0x01ffffff; 0x01ffffff; 0x01ffffff; 0x01ffffff;
   0x01ffffff; 0x01ffffff; 0x01ffffff; 0x01ffffff; 0x01ffffff; 0x01ffffff; 0x01ffffff; 0x01ffffff;
   0x01ffffff; 0x01ffffff; 0x01ffffff; 0x01ffffff; 0x01ffffff; 0x01ffffff; 0x01ffffff; 0x01ffffff;
   0x01ffffff; 0x01ffffff; 0x01ffffff; 0x01ffffff; 0x01ffffff; 0x01ffffff; 0x01ffffff; 0x01ffffff;
   0x01ffffff; 0x01ffffff; 0x01ffffff; 0x01ffffff; 0x01ffffff; 0x01ffffff; 0x01ffffff; 0x01ffffff;
   0x01ffffff; 0x01ffffff; 0x01ffffff; 0x003e0000; 0x01ffffff; 0x01ffffff; 0x01ffffff; 0x003f0000;
   0x00340000; 0x00350000; 0x00360000; 0x00370000; 0x00380000; 0x00390000; 0x003a0000; 0x003b0000;
   0x003c0000; 0x003d0000; 0x01ffffff; 0x01ffffff; 0x01ffffff; 0x01ffffff; 0x01ffffff; 0x01ffffff;
   0x01ffffff; 0x00000000; 0x00010000; 0x00020000; 0x00030000; 0x00040000; 0x00050000; 0x00060000;
   0x00070000; 0x00080000; 0x00090000; 0x000a0000; 0x000b0000; 0x000c0000; 0x000d0000; 0x000e0000;
   0x000f0000; 0x00100000; 0x00110000; 0x00120000; 0x00130000; 0x00140000; 0x00150000; 0x00160000;
   0x00170000; 0x00180000; 0x00190000; 0x01ffffff; 0x01ffffff; 0x01ffffff; 0x01ffffff; 0x01ffffff;
   0x01ffffff; 0x001a0000; 0x001b0000; 0x001c0000; 0x001d0000; 0x001e0000; 0x001f0000; 0x00200000;
   0x00210000; 0x00220000; 0x00230000; 0x00240000; 0x00250000; 0x00260000; 0x00270000; 0x00280000;
   0x00290000; 0x002a0000; 0x002b0000; 0x002c0000; 0x002d0000; 0x002e0000; 0x002f0000; 0x00300000;
   0x00310000; 0x00320000; 0x00330000; 0x01ffffff; 0x01ffffff; 0x01ffffff; 0x01ffffff; 0x01ffffff;
   0x01ffffff; 0x01ffffff; 0x01ffffff; 0x01ffffff; 0x01ffffff; 0x01ffffff; 0x01ffffff; 0x01ffffff;
   0x01ffffff; 0x01ffffff; 0x01ffffff; 0x01ffffff; 0x01ffffff; 0x01ffffff; 0x01ffffff; 0x01ffffff;
   0x01ffffff; 0x01ffffff; 0x01ffffff; 0x01ffffff; 0x01ffffff; 0x01ffffff; 0x01ffffff; 0x01ffffff;
   0x01ffffff; 0x01ffffff; 0x01ffffff; 0x01ffffff; 0x01ffffff; 0x01ffffff; 0x01ffffff; 0x01ffffff;
   0x01ffffff; 0x01ffffff; 0x01ffffff; 0x01ffffff; 0x01ffffff; 0x01ffffff; 0x01ffffff; 0x01ffffff;
   0x01ffffff; 0x01ffffff; 0x01ffffff; 0x01ffffff; 0x01ffffff; 0x01ffffff; 0x01ffffff; 0x01ffffff;
   0x01ffffff; 0x01ffffff; 0x01ffffff; 0x01ffffff; 0x01ffffff; 0x01ffffff; 0x01ffffff; 0x01ffffff;
   0x01ffffff; 0x01ffffff; 0x01ffffff; 0x01ffffff; 0x01ffffff; 0x01ffffff; 0x01ffffff; 0x01ffffff;
   0x01ffffff; 0x01ffffff; 0x01ffffff; 0x01ffffff; 0x01ffffff; 0x01ffffff; 0x01ffffff; 0x01ffffff;
   0x01ffffff; 0x01ffffff; 0x01ffffff; 0x01ffffff; 0x01ffffff; 0x01ffffff; 0x01ffffff; 0x01ffffff;
   0x01ffffff; 0x01ffffff; 0x01ffffff; 0x01ffffff; 0x01ffffff; 0x01ffffff; 0x01ffffff; 0x01ffffff;
   0x01ffffff; 0x01ffffff; 0x01ffffff; 0x01ffffff; 0x01ffffff; 0x01ffffff; 0x01ffffff; 0x01ffffff;
   0x01ffffff; 0x01ffffff; 0x01ffffff; 0x01ffffff; 0x01ffffff; 0x01ffffff; 0x01ffffff; 0x01ffffff;
   0x01ffffff; 0x01ffffff; 0x01ffffff; 0x01ffffff; 0x01ffffff; 0x01ffffff; 0x01ffffff; 0x01ffffff;
   0x01ffffff; 0x01ffffff; 0x01ffffff; 0x01ffffff; 0x01ffffff; 0x01ffffff; 0x01ffffff; 0x01ffffff;
   0x01ffffff; 0x01ffffff; 0x01ffffff; 0x01ffffff; 0x01ffffff; 0x01ffffff; 0x01ffffff; 0x01ffffff].

(** [src/deps/modp_b64/modp_b64.cc 61-61, BADCHAR] *)
Definition BADCHAR : Z := 0x01ffffff.
Definition PAD : byte := x3d.

(** * Encoding *)

(** [*p++ = b] *)
Definition put (cap : Z) (out : bytes) (b : byte) : outcome bytes :=
  if Z.of_nat (length out) <? cap then Ret (out ++ [b]) else Fault OutOfBounds.

Fixpoint puts (cap : Z) (out l : bytes) : outcome bytes :=
  match l with [] => Ret out | b :: l => out ← put cap out b; puts cap out l end.

Definition e_at (tbl : bytes) (i : Z) : byte := nth (Z.to_nat i) tbl x00.

(** [src/deps/modp_b64/modp_b64.cc 89-95, modp_b64_encode] One group: the characters of
    three bytes. *)
Definition encode3 (t1 t2 t3 : byte) : bytes :=
  let '(t1, t2, t3) := (bval t1, bval t2, bval t3) in
  [e_at modp_e0 t1;
   e_at modp_e1 (Z.lor (Z.shiftl (Z.land t1 3) 4) (Z.land (Z.shiftr t2 4) 15));
   e_at modp_e1 (Z.lor (Z.shiftl (Z.land t2 15) 2) (Z.land (Z.shiftr t3 6) 3));
   e_at modp_e2 t3].

Fixpoint encode_loop (n : nat) (cap : Z) (str out : bytes) : outcome (bytes * bytes) :=
  match n with
  | O => Ret (str, out)
  | S n =>
      match str with
      | t1 :: t2 :: t3 :: str =>
          out ← puts cap out (encode3 t1 t2 t3);
          encode_loop n cap str out
      | _ => Fault OutOfBounds
      end
  end.

(** [src/deps/modp_b64/modp_b64.cc 80-118, modp_b64_encode] [str] is the memory from the
    source pointer on; the result is what stands in the destination before the
    terminating NUL, which is written too. *)
Definition modp_b64_encode (cap : Z) (str : bytes) (len : Z) : outcome bytes :=
  '(str, out) ← encode_loop (Z.to_nat (len / 3)) cap str [];
  out ← (if len mod 3 =? 0 then Ret out
         else if len mod 3 =? 1 then
           match str with
           | t1 :: _ =>
               let t1 := bval t1 in
               puts cap out [e_at modp_e0 t1; e_at modp_e1 (Z.shiftl (Z.land t1 3) 4); PAD; PAD]
           | _ => Fault OutOfBounds
           end
         else
           match str with
           | t1 :: t2 :: _ =>
               let '(t1, t2) := (bval t1, bval t2) in
               puts cap out
                 [e_at modp_e0 t1;
                  e_at modp_e1 (Z.lor (Z.shiftl (Z.land t1 3) 4) (Z.land (Z.shiftr t2 4) 15));
                  e_at modp_e2 (Z.shiftl (Z.land t2 15) 2); PAD]
           | _ => Fault OutOfBounds
           end);
  _ ← put cap out x00;
  Ret out.

(** [src/deps/modp_b64/modp_b64/modp_b64.h 93-93, modp_b64_encode_len] in the width of its
    argument, here [uint32_t]; for [size_t] the operations do not wrap. *)
Definition modp_b64_encode_len32 (a : Z) : Z := u32 (u32 (u32 (a + 2) / 3 * 4) + 1).
Definition modp_b64_encode_strlen (a : Z) : Z := (a + 2) / 3 * 4.

(** [src/deps/modp_b64/modp_b64/modp_b64.h 104-104, modp_b64_decode_len] *)
Definition modp_b64_decode_len (a : Z) : Z := a / 4 * 3 + 2.

(** * Decoding *)

Definition d_at (tbl : list Z) (c : byte) : Z := nth (Z.to_nat (bval c)) tbl 0.

(** [((uint8_t* )(&x))[k]] *)
Definition byte_at (x k : Z) : byte := byte_of (Z.shiftr x (8 * k)).

(** [src/deps/modp_b64/modp_b64.cc 215-221, modp_b64_decode] The loop over all groups but
    the last; [None] is MODP_B64_ERROR. *)
Fixpoint decode_chunks (chunks : nat) (cap : Z) (y out : bytes)
    : outcome (option (bytes * bytes)) :=
  match chunks with
  | O => Ret (Some (y, out))
  | S chunks =>
      match y with
      | y0 :: y1 :: y2 :: y3 :: y =>
          let x := Z.lor (Z.lor (Z.lor (d_at modp_d0 y0) (d_at modp_d1 y1)) (d_at modp_d2 y2))
                     (d_at modp_d3 y3) in
          if BADCHAR <=? x then Ret None
          else
            out ← puts cap out [byte_at x 0; byte_at x 1; byte_at x 2];
            decode_chunks chunks cap y out
      | _ => Fault OutOfBounds
      end
  end.

(** [src/deps/modp_b64/modp_b64.cc 223-251, modp_b64_decode] The last group. *)
Definition decode_last (leftover chunks : Z) (cap : Z) (y out : bytes)
    : outcome (option (Z * bytes)) :=
  let finish x out :=
    if BADCHAR <=? x then Ret None else Ret (Some (3 * chunks + 6 * leftover / 8, out)) in
  if leftover =? 0 then
    match y with
    | y0 :: y1 :: y2 :: y3 :: _ =>
        let x := Z.lor (Z.lor (Z.lor (d_at modp_d0 y0) (d_at modp_d1 y1)) (d_at modp_d2 y2))
                   (d_at modp_d3 y3) in
        if BADCHAR <=? x then Ret None
        else
          out ← puts cap out [byte_at x 0; byte_at x 1; byte_at x 2];
          Ret (Some ((chunks + 1) * 3, out))
    | _ => Fault OutOfBounds
    end
  else if leftover =? 1 then
    match y with
    | y0 :: _ => let x := d_at modp_d0 y0 in out ← puts cap out [byte_at x 0]; finish x out
    | _ => Fault OutOfBounds
    end
  else if leftover =? 2 then
    match y with
    | y0 :: y1 :: _ =>
        let x := Z.lor (d_at modp_d0 y0) (d_at modp_d1 y1) in
        out ← puts cap out [byte_at x 0]; finish x out
    | _ => Fault OutOfBounds
    end
  else
    match y with
    | y0 :: y1 :: y2 :: _ =>
        let x := Z.lor (Z.lor (d_at modp_d0 y0) (d_at modp_d1 y1)) (d_at modp_d2 y2) in
        out ← puts cap out [byte_at x 0; byte_at x 1]; finish x out
    | _ => Fault OutOfBounds
    end.

(** [src/deps/modp_b64/modp_b64.cc 189-251, modp_b64_decode] The returned length and what
    was written. *)
Definition modp_b64_decode (cap : Z) (src : bytes) : outcome (option (Z * bytes)) :=
  let len := Z.of_nat (length src) in
  if len =? 0 then Ret (Some (0, []))
  else if ((len <? 4) || negb (len mod 4 =? 0))%bool then Ret None
  else
    let at_ i := nth (Z.to_nat i) src x00 in
    let len :=
      if byte_eqb (at_ (len - 1)) PAD
      then if byte_eqb (at_ (len - 1 - 1)) PAD then len - 2 else len - 1
      else len in
    let leftover := len mod 4 in
    let chunks := if leftover =? 0 then len / 4 - 1 else len / 4 in
    r ← decode_chunks (Z.to_nat chunks) cap src [];
    match r with
    | None => Ret None
    | Some (y, out) => decode_last leftover chunks cap y out
    end.

(** * The specification: sextets *)

Module B64Alphabet.
Import String.StringSyntax.
Local Open Scope string_scope.
Definition standard : bytes :=
  bs "ABCDEFGHIJKLMNOPQRSTUVWXYZabcdefghijklmnopqrstuvwxyz0123456789+/".
End B64Alphabet.
Export B64Alphabet.

Definition six (c : byte) : option Z :=
  (fun p => Z.of_nat p.1) <$> list_find (fun x => x = c) standard.

Definition oct1 (i0 i1 : Z) : byte := byte_of (i0 * 4 + i1 / 16).
Definition oct2 (i1 i2 : Z) : byte := byte_of (i1 mod 16 * 16 + i2 / 4).
Definition oct3 (i2 i3 : Z) : byte := byte_of (i2 mod 4 * 64 + i3).

Definition spec_full (c0 c1 c2 c3 : byte) : option bytes :=
  i0 ← six c0; i1 ← six c1; i2 ← six c2; i3 ← six c3;
  Some [oct1 i0 i1; oct2 i1 i2; oct3 i2 i3].

Definition spec_last (c0 c1 c2 c3 : byte) : option bytes :=
  if byte_eqb c3 PAD then
    if byte_eqb c2 PAD then i0 ← six c0; i1 ← six c1; Some [oct1 i0 i1]
    else i0 ← six c0; i1 ← six c1; i2 ← six c2; Some [oct1 i0 i1; oct2 i1 i2]
  else spec_full c0 c1 c2 c3.

(** Base64 with padding: groups of four characters of the alphabet, of which only
    the last may end in one or two pad characters. *)
Fixpoint b64_spec (s : bytes) : option bytes :=
  match s with
  | [] => Some []
  | c0 :: c1 :: c2 :: c3 :: s' =>
      match s' with
      | [] => spec_last c0 c1 c2 c3
      | _ => g ← spec_full c0 c1 c2 c3; r ← b64_spec s'; Some (g ++ r)
      end
  | _ => None
  end.

(** ** The tables hold shifted sextets, or BADCHAR *)

Definition entry_ok (c : byte) : bool :=
  match six c with
  | Some i =>
      ((0 <=? i) && (i <? 64) && (d_at modp_d0 c =? 4 * i) &&
       (d_at modp_d1 c =? i / 16 + 256 * (i mod 16 * 16)) &&
       (d_at modp_d2 c =? 256 * (i / 4 + 256 * (i mod 4 * 64))) &&
       (d_at modp_d3 c =? 256 * (256 * i)))%bool
  | None =>
      ((d_at modp_d0 c =? BADCHAR) && (d_at modp_d1 c =? BADCHAR) &&
       (d_at modp_d2 c =? BADCHAR) && (d_at modp_d3 c =? BADCHAR))%bool
  end.

Lemma entries_ok c : entry_ok c = true.
Proof. revert c. apply byte_forall. vm_compute. reflexivity. Qed.

Lemma six_some c i :
  six c = Some i -> 0 <= i < 64 /\ d_at modp_d0 c = 4 * i /\
    d_at modp_d1 c = i / 16 + 256 * (i mod 16 * 16) /\
    d_at modp_d2 c = 256 * (i / 4 + 256 * (i mod 4 * 64)) /\
    d_at modp_d3 c = 256 * (256 * i).
Proof.
  intros Hi. pose proof (entries_ok c) as H. unfold entry_ok in H. rewrite Hi in H.
  bool_to_prop. lia.
Qed.

Lemma six_none c :
  six c = None -> d_at modp_d0 c = BADCHAR /\ d_at modp_d1 c = BADCHAR /\
    d_at modp_d2 c = BADCHAR /\ d_at modp_d3 c = BADCHAR.
Proof.
  intros Hi. pose proof (entries_ok c) as H. unfold entry_ok in H. rewrite Hi in H.
  by bool_to_prop.
Qed.

Definition small (z : Z) : Prop := 0 <= z <= BADCHAR.

Lemma entry_small c :
  small (d_at modp_d0 c) /\ small (d_at modp_d1 c) /\
  small (d_at modp_d2 c) /\ small (d_at modp_d3 c).
Proof.
  unfold small, BADCHAR. destruct (six c) as [i|] eqn:E.
  - apply six_some in E as (Hi & -> & -> & -> & ->).
    pose proof (Z.div_pos i 16). pose proof (Z.div_lt_upper_bound i 16 4).
    pose proof (Z.div_pos i 4). pose proof (Z.div_lt_upper_bound i 4 16).
    pose proof (Z.mod_pos_bound i 16). pose proof (Z.mod_pos_bound i 4). lia.
  - apply six_none in E as (-> & -> & -> & ->). unfold BADCHAR. lia.
Qed.

Lemma small_log a : small a -> Z.log2 a < 25.
Proof.
  intros [H1 H2]. destruct (decide (a = 0)) as [->|]; [done|].
  apply Z.log2_lt_pow2; unfold BADCHAR in *; lia.
Qed.

Lemma lor_small a b : small a -> small b -> small (Z.lor a b).
Proof.
  intros Ha Hb. pose proof (small_log a Ha). pose proof (small_log b Hb).
  destruct Ha, Hb. assert (0 <= Z.lor a b) by by apply Z.lor_nonneg.
  split; [done|]. destruct (decide (Z.lor a b = 0)) as [->|]; [unfold BADCHAR; lia|].
  assert (Z.lor a b < 2 ^ 25); [|unfold BADCHAR; lia].
  apply Z.log2_lt_pow2; [lia|]. rewrite Z.log2_lor by done. lia.
Qed.

Lemma lor_bad_r a : small a -> Z.lor a BADCHAR = BADCHAR.
Proof. intros Ha. apply (Z.lor_ones_low a 25); [apply Ha|by apply small_log]. Qed.

Lemma lor_bad_l a : small a -> Z.lor BADCHAR a = BADCHAR.
Proof. rewrite Z.lor_comm. apply lor_bad_r. Qed.

(** Bytewise disjunction. *)
Lemma lor_bytes a b r q :
  0 <= a < 256 -> 0 <= b < 256 -> Z.lor (a + 256 * r) (b + 256 * q) = Z.lor a b + 256 * Z.lor r q.
Proof.
  intros Ha Hb.
  assert (Hsplit : forall x y, 0 <= x < 256 -> x + 256 * y = Z.lor x (Z.shiftl y 8)).
  { intros x y Hx. pose proof (Z.add_lor_land x (Z.shiftl y 8)) as Hadd.
    assert (Z.land x (Z.shiftl y 8) = 0) as Hland.
    { apply Z.bits_inj'. intros n Hn. rewrite Z.land_spec, Z.bits_0, Z.shiftl_spec by done.
      destruct (Z.ltb_spec n 8).
      - rewrite (Z.testbit_neg_r y) by lia. by rewrite andb_false_r.
      - rewrite (Z.bits_above_log2 x); [done|lia|].
        destruct (decide (x = 0)) as [->|]; [simpl; lia|]. apply Z.log2_lt_pow2; [lia|].
        eapply Z.lt_le_trans; [apply Hx|]. change 256 with (2 ^ 8). apply Z.pow_le_mono_r; lia. }
    rewrite Hland, (Z.shiftl_mul_pow2 y) in Hadd by lia.
    rewrite Z.shiftl_mul_pow2 by lia. change (2 ^ 8) with 256 in *. lia. }
  assert (0 <= Z.lor a b < 256).
  { assert (0 <= Z.lor a b) by (apply Z.lor_nonneg; lia). split; [done|].
    destruct (decide (Z.lor a b = 0)) as [->|]; [lia|].
    change 256 with (2 ^ 8). apply Z.log2_lt_pow2; [lia|]. rewrite Z.log2_lor by lia.
    apply Z.max_lub_lt.
    - destruct (decide (a = 0)) as [->|]; [simpl; lia|apply Z.log2_lt_pow2; lia].
    - destruct (decide (b = 0)) as [->|]; [simpl; lia|apply Z.log2_lt_pow2; lia]. }
  rewrite !Hsplit by done. rewrite Z.shiftl_lor.
  rewrite <- !Z.lor_assoc. f_equal. rewrite !Z.lor_assoc. f_equal. apply Z.lor_comm.
Qed.

(** ** Groups *)

Definition sextets : list Z := map Z.of_nat (seq 0 64).

Lemma sextets_elem i : 0 <= i < 64 -> In i sextets.
Proof.
  intros. unfold sextets. apply in_map_iff. exists (Z.to_nat i). split; [lia|].
  apply in_seq. lia.
Qed.

(** The bits of neighbouring sextets do not overlap. *)
Definition no_overlap : bool :=
  forallb (fun i => forallb (fun j =>
    ((Z.lor (4 * i) (j / 16) =? i * 4 + j / 16) &&
     (Z.lor (i mod 16 * 16) (j / 4) =? i mod 16 * 16 + j / 4) &&
     (Z.lor (i mod 4 * 64) j =? i mod 4 * 64 + j))%bool) sextets) sextets.

Lemma no_overlap_ok : no_overlap = true.
Proof. vm_compute. reflexivity. Qed.

Lemma overlap i j :
  0 <= i < 64 -> 0 <= j < 64 ->
  Z.lor (4 * i) (j / 16) = i * 4 + j / 16 /\
  Z.lor (i mod 16 * 16) (j / 4) = i mod 16 * 16 + j / 4 /\
  Z.lor (i mod 4 * 64) j = i mod 4 * 64 + j.
Proof.
  intros Hi Hj. pose proof no_overlap_ok as H. unfold no_overlap in H.
  rewrite forallb_forall in H. specialize (H i (sextets_elem i Hi)).
  rewrite forallb_forall in H. specialize (H j (sextets_elem j Hj)). by bool_to_prop.
Qed.

Ltac sextet_bounds i :=
  pose proof (Z.div_pos i 16); pose proof (Z.div_lt_upper_bound i 16 4);
  pose proof (Z.div_pos i 4); pose proof (Z.div_lt_upper_bound i 4 16);
  pose proof (Z.mod_pos_bound i 16); pose proof (Z.mod_pos_bound i 4).

Lemma lor2_good i0 i1 :
  0 <= i0 < 64 -> 0 <= i1 < 64 ->
  Z.lor (4 * i0) (i1 / 16 + 256 * (i1 mod 16 * 16)) =
  (i0 * 4 + i1 / 16) + 256 * (i1 mod 16 * 16).
Proof.
  intros H0 H1. sextet_bounds i1. replace (4 * i0) with (4 * i0 + 256 * 0) at 1 by lia.
  rewrite lor_bytes by lia. destruct (overlap i0 i1) as (-> & _); [done..|].
  by rewrite Z.lor_0_l.
Qed.

Lemma lor3_good i0 i1 i2 :
  0 <= i0 < 64 -> 0 <= i1 < 64 -> 0 <= i2 < 64 ->
  Z.lor ((i0 * 4 + i1 / 16) + 256 * (i1 mod 16 * 16)) (256 * (i2 / 4 + 256 * (i2 mod 4 * 64))) =
  (i0 * 4 + i1 / 16) + 256 * ((i1 mod 16 * 16 + i2 / 4) + 256 * (i2 mod 4 * 64)).
Proof.
  intros H0 H1 H2. sextet_bounds i1. sextet_bounds i2.
  replace (256 * (i2 / 4 + 256 * (i2 mod 4 * 64))) with (0 + 256 * (i2 / 4 + 256 * (i2 mod 4 * 64))) at 1 by lia.
  rewrite lor_bytes, Z.lor_0_r by lia. do 2 f_equal.
  replace (i1 mod 16 * 16) with (i1 mod 16 * 16 + 256 * 0) at 1 by lia.
  rewrite lor_bytes by lia. destruct (overlap i1 i2) as (_ & -> & _); [done..|].
  by rewrite Z.lor_0_l.
Qed.

Lemma lor4_good i0 i1 i2 i3 :
  0 <= i0 < 64 -> 0 <= i1 < 64 -> 0 <= i2 < 64 -> 0 <= i3 < 64 ->
  Z.lor ((i0 * 4 + i1 / 16) + 256 * ((i1 mod 16 * 16 + i2 / 4) + 256 * (i2 mod 4 * 64)))
        (256 * (256 * i3)) =
  (i0 * 4 + i1 / 16) + 256 * ((i1 mod 16 * 16 + i2 / 4) + 256 * (i2 mod 4 * 64 + i3)).
Proof.
  intros H0 H1 H2 H3. sextet_bounds i1. sextet_bounds i2.
  replace (256 * (256 * i3)) with (0 + 256 * (0 + 256 * i3)) at 1 by lia.
  rewrite lor_bytes, Z.lor_0_r by lia. do 2 f_equal.
  rewrite lor_bytes, Z.lor_0_r by lia. do 2 f_equal.
  by destruct (overlap i2 i3) as (_ & _ & ->).
Qed.

Lemma byte_at_0 a r : 0 <= a < 256 -> byte_at (a + 256 * r) 0 = byte_of a.
Proof.
  intros Ha. unfold byte_at. simpl. rewrite Z.shiftr_0_r. unfold byte_of, u8, wrap.
  change (2 ^ 8) with 256. rewrite (Z.mul_comm 256), Z.mod_add by lia. done.
Qed.

Lemma byte_at_S a r k : 0 <= a < 256 -> 0 <= k -> byte_at (a + 256 * r) (k + 1) = byte_at r k.
Proof.
  intros Ha Hk. unfold byte_at. replace (8 * (k + 1)) with (8 + 8 * k) by lia.
  rewrite <- Z.shiftr_shiftr by lia. do 2 f_equal. rewrite Z.shiftr_div_pow2 by lia.
  change (2 ^ 8) with 256. rewrite (Z.mul_comm 256), Z.div_add, Z.div_small by lia. lia.
Qed.

Lemma byte_at_1 a b r : 0 <= a < 256 -> 0 <= b < 256 ->
  byte_at (a + 256 * (b + 256 * r)) 1 = byte_of b.
Proof. intros Ha Hb. change 1 with (0 + 1). rewrite byte_at_S, byte_at_0 by lia. done. Qed.

Lemma byte_at_2 a b c : 0 <= a < 256 -> 0 <= b < 256 ->
  byte_at (a + 256 * (b + 256 * c)) 2 = byte_of c.
Proof.
  intros Ha Hb. change 2 with (0 + 1 + 1). rewrite !byte_at_S by lia.
  unfold byte_at. simpl. by rewrite Z.shiftr_0_r.
Qed.

(** ** The C expressions for a group *)

Definition x2 c0 c1 := Z.lor (d_at modp_d0 c0) (d_at modp_d1 c1).
Definition x3 c0 c1 c2 := Z.lor (x2 c0 c1) (d_at modp_d2 c2).
Definition x4 c0 c1 c2 c3 := Z.lor (x3 c0 c1 c2) (d_at modp_d3 c3).

Lemma x_small c0 c1 c2 c3 : small (x2 c0 c1) /\ small (x3 c0 c1 c2) /\ small (x4 c0 c1 c2 c3).
Proof.
  destruct (entry_small c0) as (? & _ & _ & _), (entry_small c1) as (_ & ? & _ & _),
    (entry_small c2) as (_ & _ & ? & _), (entry_small c3) as (_ & _ & _ & ?).
  unfold x4, x3, x2. auto 10 using lor_small.
Qed.

Lemma x2_bad c0 c1 : six c0 = None \/ six c1 = None -> x2 c0 c1 = BADCHAR.
Proof.
  destruct (entry_small c0) as (? & _), (entry_small c1) as (_ & ? & _). unfold x2.
  intros [Hn%six_none|Hn%six_none]; [destruct Hn as (-> & _)|destruct Hn as (_ & -> & _)];
    [by apply lor_bad_l|by apply lor_bad_r].
Qed.

Lemma x3_bad c0 c1 c2 : x2 c0 c1 = BADCHAR \/ six c2 = None -> x3 c0 c1 c2 = BADCHAR.
Proof.
  destruct (x_small c0 c1 c2 c2) as (? & _), (entry_small c2) as (_ & _ & ? & _). unfold x3.
  intros [->|Hn%six_none]; [by apply lor_bad_l|]. destruct Hn as (_ & _ & -> & _). by apply lor_bad_r.
Qed.

Lemma x4_bad c0 c1 c2 c3 : x3 c0 c1 c2 = BADCHAR \/ six c3 = None -> x4 c0 c1 c2 c3 = BADCHAR.
Proof.
  destruct (x_small c0 c1 c2 c3) as (_ & ? & _), (entry_small c3) as (_ & _ & _ & ?). unfold x4.
  intros [->|Hn%six_none]; [by apply lor_bad_l|]. destruct Hn as (_ & _ & _ & ->). by apply lor_bad_r.
Qed.

Lemma x2_ok c0 c1 :
  match (i0 ← six c0; i1 ← six c1; Some [oct1 i0 i1]) with
  | Some g => (BADCHAR <=? x2 c0 c1) = false /\ [byte_at (x2 c0 c1) 0] = g
  | None => (BADCHAR <=? x2 c0 c1) = true
  end.
Proof.
  destruct (six c0) as [i0|] eqn:E0; simpl; [|rewrite x2_bad by auto; done].
  destruct (six c1) as [i1|] eqn:E1; simpl; [|rewrite x2_bad by auto; done].
  apply six_some in E0 as (H0 & Ea & _). apply six_some in E1 as (H1 & _ & Eb & _).
  unfold x2. rewrite Ea, Eb, lor2_good by done. sextet_bounds i1. split.
  - apply Z.leb_gt. unfold BADCHAR. lia.
  - rewrite byte_at_0 by lia. done.
Qed.

Lemma x3_ok c0 c1 c2 :
  match (i0 ← six c0; i1 ← six c1; i2 ← six c2; Some [oct1 i0 i1; oct2 i1 i2]) with
  | Some g => (BADCHAR <=? x3 c0 c1 c2) = false /\
              [byte_at (x3 c0 c1 c2) 0; byte_at (x3 c0 c1 c2) 1] = g
  | None => (BADCHAR <=? x3 c0 c1 c2) = true
  end.
Proof.
  destruct (six c0) as [i0|] eqn:E0; simpl; [|rewrite x3_bad by auto 12 using x2_bad; done].
  destruct (six c1) as [i1|] eqn:E1; simpl; [|rewrite x3_bad by auto 12 using x2_bad; done].
  destruct (six c2) as [i2|] eqn:E2; simpl; [|rewrite x3_bad by auto; done].
  apply six_some in E0 as (H0 & Ea & _). apply six_some in E1 as (H1 & _ & Eb & _).
  apply six_some in E2 as (H2 & _ & _ & Ec & _).
  unfold x3, x2. rewrite Ea, Eb, Ec, lor2_good, lor3_good by done.
  sextet_bounds i1. sextet_bounds i2. split.
  - apply Z.leb_gt. unfold BADCHAR. lia.
  - by rewrite byte_at_0, byte_at_1 by lia.
Qed.

Lemma x4_ok c0 c1 c2 c3 :
  match spec_full c0 c1 c2 c3 with
  | Some g => (BADCHAR <=? x4 c0 c1 c2 c3) = false /\
      [byte_at (x4 c0 c1 c2 c3) 0; byte_at (x4 c0 c1 c2 c3) 1; byte_at (x4 c0 c1 c2 c3) 2] = g
  | None => (BADCHAR <=? x4 c0 c1 c2 c3) = true
  end.
Proof.
  unfold spec_full.
  destruct (six c0) as [i0|] eqn:E0; simpl; [|rewrite x4_bad by auto 12 using x2_bad, x3_bad; done].
  destruct (six c1) as [i1|] eqn:E1; simpl; [|rewrite x4_bad by auto 12 using x2_bad, x3_bad; done].
  destruct (six c2) as [i2|] eqn:E2; simpl; [|rewrite x4_bad by auto 12 using x3_bad; done].
  destruct (six c3) as [i3|] eqn:E3; simpl; [|rewrite x4_bad by auto; done].
  apply six_some in E0 as (H0 & Ea & _). apply six_some in E1 as (H1 & _ & Eb & _).
  apply six_some in E2 as (H2 & _ & _ & Ec & _). apply six_some in E3 as (H3 & _ & _ & _ & Ed).
  unfold x4, x3, x2. rewrite Ea, Eb, Ec, Ed, lor2_good, lor3_good, lor4_good by done.
  sextet_bounds i1. sextet_bounds i2. split.
  - apply Z.leb_gt. unfold BADCHAR. lia.
  - by rewrite byte_at_0, byte_at_1, byte_at_2 by lia.
Qed.

(** ** The whole text *)

Lemma puts_ret cap l : forall out,
  Z.of_nat (length out + length l) <= cap -> puts cap out l = Ret (out ++ l).
Proof.
  induction l as [|b l IH]; intros out Hc; simpl; [by rewrite app_nil_r|]. simpl in Hc.
  unfold put. destruct (Z.ltb_spec (Z.of_nat (length out)) cap); [|lia]. simpl.
  rewrite IH by (rewrite length_app; simpl; lia). by rewrite <- app_assoc.
Qed.

#[local] Arguments puts : simpl never.

Definition lo (c2 c3 : byte) : Z :=
  if byte_eqb c3 PAD then if byte_eqb c2 PAD then 2 else 3 else 0.

Definition decoded_length (leftover chunks : Z) : Z :=
  if leftover =? 0 then (chunks + 1) * 3 else 3 * chunks + 6 * leftover / 8.

Lemma decode_last_ok cap chunks out c0 c1 c2 c3 :
  Z.of_nat (length out) + 3 <= cap ->
  decode_last (lo c2 c3) chunks cap [c0; c1; c2; c3] out =
  Ret ((fun g => (decoded_length (lo c2 c3) chunks, out ++ g)) <$> spec_last c0 c1 c2 c3).
Proof.
  intros Hc. unfold decode_last, lo, spec_last.
  destruct (byte_eqb c3 PAD); [destruct (byte_eqb c2 PAD)|]; simpl.
  - fold (x2 c0 c1). rewrite puts_ret by (simpl; lia). simpl.
    pose proof (x2_ok c0 c1) as Hx. destruct (i0 ← six c0; _) as [g|]; [|by rewrite Hx].
    destruct Hx as [-> <-]. done.
  - fold (x2 c0 c1). fold (x3 c0 c1 c2). rewrite puts_ret by (simpl; lia). simpl.
    pose proof (x3_ok c0 c1 c2) as Hx. destruct (i0 ← six c0; _) as [g|]; [|by rewrite Hx].
    destruct Hx as [-> <-]. done.
  - fold (x2 c0 c1). fold (x3 c0 c1 c2). fold (x4 c0 c1 c2 c3).
    pose proof (x4_ok c0 c1 c2 c3) as Hx. destruct (spec_full c0 c1 c2 c3) as [g|]; [|by rewrite Hx].
    destruct Hx as [-> <-]. rewrite puts_ret by (simpl; lia). done.
Qed.

Lemma decode_groups n : forall pre out cap chunks c0 c1 c2 c3,
  length pre = (4 * n)%nat -> Z.of_nat (length out) + 3 * (Z.of_nat n + 1) <= cap ->
  (r ← decode_chunks n cap (pre ++ [c0; c1; c2; c3]) out;
   match r with
   | None => Ret None
   | Some (y, o) => decode_last (lo c2 c3) chunks cap y o
   end) =
  Ret ((fun g => (decoded_length (lo c2 c3) chunks, out ++ g)) <$> b64_spec (pre ++ [c0; c1; c2; c3])).
Proof.
  induction n as [|n IH]; intros pre out cap chunks c0 c1 c2 c3 Hl Hc.
  { destruct pre; [|done]. simpl. rewrite decode_last_ok by lia. done. }
  destruct pre as [|b0 [|b1 [|b2 [|b3 pre]]]]; simpl in Hl; try lia.
  cbn [decode_chunks app]. fold (x2 b0 b1). fold (x3 b0 b1 b2). fold (x4 b0 b1 b2 b3).
  pose proof (x4_ok b0 b1 b2 b3) as Hx. cbn [b64_spec].
  assert (Hm : forall X (a b : X),
    match pre ++ [c0; c1; c2; c3] with [] => a | _ :: _ => b end = b) by (intros; by destruct pre).
  rewrite Hm. destruct (spec_full b0 b1 b2 b3) as [g|]; [|by rewrite Hx].
  destruct Hx as [-> <-]. rewrite puts_ret by (simpl; lia). simpl.
  rewrite IH by (rewrite ?length_app; simpl; lia).
  destruct (b64_spec (pre ++ _)); simpl; [|done]. by rewrite <- app_assoc.
Qed.

Lemma spec_decoded_length n : forall pre c0 c1 c2 c3 g,
  length pre = (4 * n)%nat -> b64_spec (pre ++ [c0; c1; c2; c3]) = Some g ->
  decoded_length (lo c2 c3) (Z.of_nat n) = Z.of_nat (length g).
Proof.
  induction n as [|n IH]; intros pre c0 c1 c2 c3 g Hl.
  - destruct pre; [|done]. simpl. unfold spec_last, spec_full, lo. intros H.
    destruct (byte_eqb c3 PAD); [destruct (byte_eqb c2 PAD)|];
      repeat match type of H with context [six ?c] => destruct (six c); [simpl in H|done] end;
      by injection H as <-.
  - destruct pre as [|b0 [|b1 [|b2 [|b3 pre]]]]; simpl in Hl; try lia. cbn [app b64_spec].
    destruct (spec_full b0 b1 b2 b3) as [h|] eqn:Ef; [|by destruct pre].
    destruct (b64_spec (pre ++ [c0; c1; c2; c3])) as [r|] eqn:Er; [|by destruct pre].
    intros Hg. assert (g = h ++ r) as -> by (destruct pre; simpl in Hg; congruence).
    assert (length h = 3%nat) as Hh.
    { unfold spec_full in Ef.
      repeat match type of Ef with context [six ?c] => destruct (six c); [simpl in Ef|done] end.
      by injection Ef as <-. }
    rewrite length_app, Hh. specialize (IH pre c0 c1 c2 c3 r ltac:(lia) Er).
    unfold decoded_length in *. destruct (lo c2 c3 =? 0); lia.
Qed.

Lemma spec_length s : forall g, b64_spec s = Some g -> (length s mod 4 = 0)%nat.
Proof.
  induction s as [s IH] using (induction_ltof1 _ (@length byte)). unfold ltof in IH.
  destruct s as [|b0 [|b1 [|b2 [|b3 s]]]]; try done. intros g.
  assert (length (b0 :: b1 :: b2 :: b3 :: s) = (length s + 1 * 4)%nat) as -> by (simpl; lia).
  rewrite Nat.Div0.mod_add. cbn [b64_spec]. destruct s as [|b s0]; [done|].
  destruct (spec_full b0 b1 b2 b3); [|done]. destruct (b64_spec (b :: s0)) as [r|] eqn:E; [|done].
  intros _. eapply (IH (b :: s0)); [simpl; lia|done].
Qed.

Lemma last_group (s : bytes) :
  s <> [] -> (length s mod 4 = 0)%nat ->
  exists n pre c0 c1 c2 c3, s = pre ++ [c0; c1; c2; c3] /\ length pre = (4 * n)%nat.
Proof.
  intros Hne Hm. apply Nat.mod_divides in Hm as [k Hk]; [|done].
  destruct k as [|n]; [destruct s; [done|simpl in Hk; lia]|].
  destruct (list_split_at s (4 * n)) as (pre & l & -> & Hp); [lia|].
  rewrite length_app in Hk.
  destruct l as [|c0 [|c1 [|c2 [|c3 [|c4 l]]]]]; simpl in Hk; try lia. eauto 10.
Qed.

(** The decoder computes the specification into a buffer of the size callers use. *)
Lemma decode_is_spec cap s :
  modp_b64_decode_len (Z.of_nat (length s)) <= cap ->
  modp_b64_decode cap s = Ret ((fun g => (Z.of_nat (length g), g)) <$> b64_spec s).
Proof.
  intros Hcap. unfold modp_b64_decode.
  destruct (Z.eqb_spec (Z.of_nat (length s)) 0) as [H0|H0]; [by destruct s|].
  destruct ((Z.of_nat (length s) <? 4) || negb (Z.of_nat (length s) mod 4 =? 0))%bool eqn:Eb.
  { destruct (b64_spec s) as [g|] eqn:Es; [|done]. exfalso.
    apply spec_length in Es. rewrite orb_true_iff, negb_true_iff, Z.ltb_lt, Z.eqb_neq in Eb.
    rewrite <- (Nat2Z.inj_mod _ 4), Es in Eb. destruct Eb; [|done].
    apply Nat.mod_divides in Es as [k Hk]; lia. }
  bool_to_prop. rewrite <- (Nat2Z.inj_mod _ 4) in H1.
  destruct (last_group s) as (n & pre & c0 & c1 & c2 & c3 & -> & Hp); [by destruct s|lia|].
  rewrite !length_app, Hp in *. simpl (length [_; _; _; _]) in *.
  assert (nth (Z.to_nat (Z.of_nat (4 * n + 4) - 1)) (pre ++ [c0; c1; c2; c3]) x00 = c3) as ->.
  { rewrite app_nth2 by lia. rewrite Hp. by replace (_ - _)%nat with 3%nat by lia. }
  assert (nth (Z.to_nat (Z.of_nat (4 * n + 4) - 1 - 1)) (pre ++ [c0; c1; c2; c3]) x00 = c2) as ->.
  { rewrite app_nth2 by lia. rewrite Hp. by replace (_ - _)%nat with 2%nat by lia. }
  set (len' := if byte_eqb c3 PAD then _ else _).
  assert (len' mod 4 = lo c2 c3 /\
    (if len' mod 4 =? 0 then len' / 4 - 1 else len' / 4) = Z.of_nat n) as [Hlo Hch].
  { unfold len', lo. destruct (byte_eqb c3 PAD); [destruct (byte_eqb c2 PAD)|].
    - replace (Z.of_nat (4 * n + 4) - 2) with (2 + Z.of_nat n * 4) by lia.
      rewrite Z.mod_add, Z.div_add by lia. done.
    - replace (Z.of_nat (4 * n + 4) - 1) with (3 + Z.of_nat n * 4) by lia.
      rewrite Z.mod_add, Z.div_add by lia. done.
    - replace (Z.of_nat (4 * n + 4)) with (0 + (Z.of_nat n + 1) * 4) by lia.
      rewrite Z.mod_add, Z.div_add by lia. split; [done|].
      change (0 mod 4 =? 0) with true. change (0 / 4) with 0. cbv iota. lia. }
  rewrite Hch, Hlo, Nat2Z.id.
  assert (Z.of_nat (4 * n + 4) / 4 = Z.of_nat n + 1) as Hq.
  { replace (Z.of_nat (4 * n + 4)) with ((Z.of_nat n + 1) * 4) by lia. by apply Z.div_mul. }
  unfold modp_b64_decode_len in Hcap. rewrite Hq in Hcap.
  rewrite decode_groups by (simpl; lia || done).
  destruct (b64_spec _) as [g|] eqn:Es; simpl; [|done]. by rewrite (spec_decoded_length n pre c0 c1 c2 c3 g).
Qed.

(** * Encoding is the inverse *)

(** The text of the specification. *)
Fixpoint b64_text (s : bytes) : bytes :=
  match s with
  | t1 :: t2 :: t3 :: s' => encode3 t1 t2 t3 ++ b64_text s'
  | [t1; t2] =>
      [e_at modp_e0 (bval t1);
       e_at modp_e1 (Z.lor (Z.shiftl (Z.land (bval t1) 3) 4) (Z.land (Z.shiftr (bval t2) 4) 15));
       e_at modp_e2 (Z.shiftl (Z.land (bval t2) 15) 2); PAD]
  | [t1] => [e_at modp_e0 (bval t1); e_at modp_e1 (Z.shiftl (Z.land (bval t1) 3) 4); PAD; PAD]
  | [] => []
  end.

Definition enc_ok (b : byte) : bool :=
  let v := bval b in
  (bool_decide (six (e_at modp_e0 v) = Some (v / 4)) &&
   bool_decide (six (e_at modp_e1 v) = Some (v mod 64)) &&
   bool_decide (six (e_at modp_e2 v) = Some (v mod 64)) &&
   (Z.shiftl (Z.land v 3) 4 =? v mod 4 * 16) &&
   (Z.shiftl (Z.land v 15) 2 =? v mod 16 * 4) &&
   negb (byte_eqb (e_at modp_e1 v) PAD) && negb (byte_eqb (e_at modp_e2 v) PAD) &&
   forallb (fun c =>
     let w := bval c in
     (Z.lor (Z.shiftl (Z.land v 3) 4) (Z.land (Z.shiftr w 4) 15) =? v mod 4 * 16 + w / 16) &&
     (Z.lor (Z.shiftl (Z.land v 15) 2) (Z.land (Z.shiftr w 6) 3) =? v mod 16 * 4 + w / 64))%bool
     all_bytes)%bool.

Lemma enc_entries b : enc_ok b = true.
Proof. revert b. apply byte_forall. vm_compute. reflexivity. Qed.

Record enc_facts (b : byte) : Prop := {
  en0 : six (e_at modp_e0 (bval b)) = Some (bval b / 4);
  en1 : six (e_at modp_e1 (bval b)) = Some (bval b mod 64);
  en2 : six (e_at modp_e2 (bval b)) = Some (bval b mod 64);
  en_hi : Z.shiftl (Z.land (bval b) 3) 4 = bval b mod 4 * 16;
  en_lo : Z.shiftl (Z.land (bval b) 15) 2 = bval b mod 16 * 4;
  en1_pad : byte_eqb (e_at modp_e1 (bval b)) PAD = false;
  en2_pad : byte_eqb (e_at modp_e2 (bval b)) PAD = false;
  en_12 c : Z.lor (Z.shiftl (Z.land (bval b) 3) 4) (Z.land (Z.shiftr (bval c) 4) 15)
            = bval b mod 4 * 16 + bval c / 16;
  en_23 c : Z.lor (Z.shiftl (Z.land (bval b) 15) 2) (Z.land (Z.shiftr (bval c) 6) 3)
            = bval b mod 16 * 4 + bval c / 64 }.

Lemma enc_facts_all b : enc_facts b.
Proof.
  pose proof (enc_entries b) as H. unfold enc_ok in H.
  repeat (apply andb_true_iff in H as [H ?]). rewrite forallb_forall in H0.
  bool_to_prop.
  assert (forall c, In c all_bytes) as Hall by (intros; apply list_elem_of_In, all_bytes_elem).
  constructor; try (by eapply bool_decide_eq_true_1); try done.
  - intros c. specialize (H0 c (Hall c)). by bool_to_prop.
  - intros c. specialize (H0 c (Hall c)). by bool_to_prop.
Qed.

Lemma index_facts z : 0 <= z < 64 ->
  six (e_at modp_e1 z) = Some z /\ six (e_at modp_e2 z) = Some z /\
  byte_eqb (e_at modp_e1 z) PAD = false /\ byte_eqb (e_at modp_e2 z) PAD = false.
Proof.
  intros Hz. assert (bval (byte_of z) = z) as E.
  { rewrite bval_byte_of. unfold u8. apply wrap_small. change (2 ^ 8) with 256. lia. }
  destruct (enc_facts_all (byte_of z)) as [_ H1 H2 _ _ H3 H4 _ _].
  rewrite E, Z.mod_small in H1, H2 by lia. rewrite E in H3, H4. done.
Qed.

Lemma bval_eq z b : z = bval b -> byte_of z = b.
Proof. intros ->. apply byte_of_bval. Qed.

Ltac div_lia := Z.div_mod_to_equations; lia.

Lemma spec_encode3 t1 t2 t3 :
  match encode3 t1 t2 t3 with
  | [c0; c1; c2; c3] => spec_full c0 c1 c2 c3 = Some [t1; t2; t3] /\ byte_eqb c3 PAD = false
  | _ => False
  end.
Proof.
  unfold encode3. cbv zeta iota beta.
  destruct (enc_facts_all t1) as [E0 _ _ _ _ _ _ E12 _], (enc_facts_all t2) as [_ _ _ _ _ _ _ _ E23],
    (enc_facts_all t3) as [_ _ E3 _ _ _ P3 _ _].
  pose proof (bval_range t1). pose proof (bval_range t2). pose proof (bval_range t3).
  rewrite E12, E23. split; [|done]. unfold spec_full. rewrite E0. simpl.
  destruct (index_facts (bval t1 mod 4 * 16 + bval t2 / 16)) as (-> & _); [div_lia|]. simpl.
  destruct (index_facts (bval t2 mod 16 * 4 + bval t3 / 64)) as (-> & _); [div_lia|]. simpl.
  rewrite E3. simpl. unfold oct1, oct2, oct3.
  rewrite (bval_eq _ t1), (bval_eq _ t2), (bval_eq _ t3); [done|div_lia..].
Qed.

Lemma spec_text s : b64_spec (b64_text s) = Some s.
Proof.
  induction s as [s IH] using (induction_ltof1 _ (@length byte)). unfold ltof in IH.
  destruct s as [|t1 [|t2 [|t3 s]]]; [done| | |].
  - destruct (enc_facts_all t1) as [E0 _ _ E1 _ _ _ _ _]. pose proof (bval_range t1).
    cbn [b64_text b64_spec]. unfold spec_last. rewrite E1. simpl. rewrite E0. simpl.
    destruct (index_facts (bval t1 mod 4 * 16)) as (-> & _); [div_lia|]. simpl.
    unfold oct1. rewrite (bval_eq _ t1); [done|div_lia].
  - destruct (enc_facts_all t1) as [E0 _ _ _ _ _ _ E12 _], (enc_facts_all t2) as [_ _ _ _ E2 _ _ _ _].
    pose proof (bval_range t1). pose proof (bval_range t2).
    cbn [b64_text b64_spec]. unfold spec_last. rewrite E12, E2. simpl. rewrite E0. simpl.
    destruct (index_facts (bval t2 mod 16 * 4)) as (_ & -> & _ & ->); [div_lia|]. simpl.
    destruct (index_facts (bval t1 mod 4 * 16 + bval t2 / 16)) as (-> & _); [div_lia|]. simpl.
    unfold oct1, oct2. rewrite (bval_eq _ t1), (bval_eq _ t2); [done|div_lia..].
  - pose proof (spec_encode3 t1 t2 t3) as H. unfold encode3 in H. cbv zeta iota beta in H.
    cbn [b64_text]. unfold encode3. cbv zeta iota beta. cbn [app b64_spec].
    destruct H as [Hf Hp].
    destruct (b64_text s) as [|c l] eqn:Et.
    + assert (s = []) as -> by (destruct s as [|a [|b [|d s]]]; done).
      unfold spec_last. by rewrite Hp.
    + rewrite Hf. cbn [mbind option_bind]. rewrite <- Et, IH by (simpl; lia). done.
Qed.

Lemma b64_text_length s : Z.of_nat (length (b64_text s)) = (Z.of_nat (length s) + 2) / 3 * 4.
Proof.
  induction s as [s IH] using (induction_ltof1 _ (@length byte)). unfold ltof in IH.
  destruct s as [|t1 [|t2 [|t3 s]]]; [done..|].
  cbn [b64_text]. rewrite length_app. unfold encode3. cbn [length].
  rewrite Nat2Z.inj_add, IH by (simpl; lia). cbn [length].
  replace (Z.of_nat (S (S (S (length s)))) + 2) with (Z.of_nat (length s) + 2 + 1 * 3) by lia.
  rewrite Z.div_add by lia. lia.
Qed.

Lemma encode_loop_ret n : forall s rest cap out,
  length s = (3 * n)%nat -> Z.of_nat (length out) + 4 * Z.of_nat n <= cap ->
  encode_loop n cap (s ++ rest) out = Ret (rest, out ++ b64_text s).
Proof.
  induction n as [|n IH]; intros s rest cap out Hs Hc.
  - destruct s; [|done]. simpl. by rewrite app_nil_r.
  - destruct s as [|t1 [|t2 [|t3 s]]]; simpl in Hs; try lia. cbn [encode_loop app].
    rewrite puts_ret by (unfold encode3; simpl; lia). simpl.
    rewrite IH by (rewrite ?length_app; simpl; lia). cbn [b64_text]. by rewrite <- app_assoc.
Qed.

Lemma b64_text_app s r n :
  length s = (3 * n)%nat -> b64_text (s ++ r) = b64_text s ++ b64_text r.
Proof.
  revert s. induction n as [|n IH]; intros s Hs; [by destruct s|].
  destruct s as [|t1 [|t2 [|t3 s]]]; simpl in Hs; try lia. cbn [b64_text app].
  rewrite IH by lia. by rewrite app_assoc.
Qed.

(** The encoder writes the text and a NUL, and nothing more. *)
Lemma encode_is_text cap s rest :
  modp_b64_encode_strlen (Z.of_nat (length s)) < cap ->
  modp_b64_encode cap (s ++ rest) (Z.of_nat (length s)) = Ret (b64_text s).
Proof.
  intros Hc. unfold modp_b64_encode_strlen in Hc. rewrite <- b64_text_length in Hc.
  unfold modp_b64_encode.
  rewrite <- (Nat2Z.inj_div _ 3), <- (Nat2Z.inj_mod _ 3), Nat2Z.id.
  pose proof (Nat.div_mod_eq (length s) 3) as Hd.
  pose proof (Nat.mod_upper_bound (length s) 3 ltac:(lia)) as Hm.
  set (n := (length s / 3)%nat) in *. set (k := (length s mod 3)%nat) in *.
  destruct (list_split_at s (3 * n)) as (a & r & -> & Ha); [lia|].
  rewrite length_app in *. rewrite (b64_text_app a r n) in * by done.
  rewrite length_app in Hc.
  assert (Z.of_nat (length (b64_text a)) = 4 * Z.of_nat n) as Hla.
  { rewrite b64_text_length, Ha. replace (Z.of_nat (3 * n) + 2) with (2 + Z.of_nat n * 3) by lia.
    rewrite Z.div_add by lia. change (2 / 3) with 0. lia. }
  rewrite <- app_assoc, (encode_loop_ret n a) by (simpl; lia || done). cbn [mbind outcome_bind].
  assert (length r = k) as Hr by lia. cbn [app].
  destruct r as [|t1 [|t2 [|t3 r]]]; simpl in Hr; rewrite <- Hr; cbn [Z.of_nat];
    cbn [app]; simpl (_ =? _); cbv iota; try lia.
  - cbn [mbind outcome_bind]. unfold put. cbn [b64_text] in *. rewrite app_nil_r.
    simpl in Hc. destruct (Z.ltb_spec (Z.of_nat (length (b64_text a))) cap); [done|lia].
  - rewrite puts_ret by (cbn [b64_text] in Hc; simpl in *; lia). cbn [mbind outcome_bind].
    unfold put. rewrite length_app. cbn [b64_text] in *. simpl in *.
    destruct (Z.ltb_spec (Z.of_nat (length (b64_text a) + 4)) cap); [done|lia].
  - rewrite puts_ret by (cbn [b64_text] in Hc; simpl in *; lia). cbn [mbind outcome_bind].
    unfold put. rewrite length_app. cbn [b64_text] in *. simpl in *.
    destruct (Z.ltb_spec (Z.of_nat (length (b64_text a) + 4)) cap); [done|lia].
Qed.

(** C34 The base64 decoder is the specification: it fails exactly on texts that are not
    groups of four alphabet characters with at most two pad characters at the end,
    otherwise it returns the number of bytes it wrote and the bytes, and it never
    writes outside the buffer its callers allocate (also before it fails). *)
Theorem modp_decode_is_base64 cap s :
  modp_b64_decode_len (Z.of_nat (length s)) <= cap ->
  modp_b64_decode cap s = Ret ((fun g => (Z.of_nat (length g), g)) <$> b64_spec s).
Proof. apply decode_is_spec. Qed.

Example modp_decode_is_base64_witness :
  modp_b64_decode 8 [x51; x55; x49; x3d] = Ret (Some (2, [x41; x42])).
Proof.
  rewrite modp_decode_is_base64; [vm_compute; reflexivity|vm_compute; discriminate].
Defined.
