(* ===== verification/Bytes.v ===== *)
(** src/src/binding/internal/aworker_bytes.cc: hexadecimal and base64 text of
    buffers, atob and btoa, and the conversion of JavaScript strings to strings of
    scalar values.  Strings of JavaScript are lists of 16-bit units; [AToB] and
    [BToA] are given the UTF-8 text V8 makes of their argument and return the bytes
    that V8 reads as UTF-8. *)

From S2P Require Import Prelude ModpBase64.

(** * Hexadecimal *)

Module HexText.
Import String.StringSyntax.
Local Open Scope string_scope.
Definition hex : bytes := bs "0123456789abcdef".
End HexText.
Export HexText.

(** [src/src/binding/internal/aworker_bytes.cc 37-42, hex_encode] The loop; its two
    counters are 32 bits wide. *)
Fixpoint hex_loop (fuel : nat) (i k : Z) (src dst : bytes) (dlen : Z) : outcome bytes :=
  if k <? dlen then
    match fuel with
    | O => Fault OutOfFuel
    | S fuel =>
        c ← tbl_get src i;
        let val := bval c in
        h ← tbl_get hex (Z.shiftr val 4);
        dst ← buf_set dst (Z.to_nat k) h;
        l ← tbl_get hex (Z.land val 15);
        dst ← buf_set dst (Z.to_nat (k + 1)) l;
        hex_loop fuel (u32 (i + 1)) (u32 (k + 2)) src dst dlen
    end
  else Ret dst.

(** [src/src/binding/internal/aworker_bytes.cc 32-45, hex_encode] [src] is the memory
    from the source pointer on. *)
Definition hex_encode (fuel : nat) (src : bytes) (slen : Z) (dst : bytes) (dlen : Z)
    : outcome bytes :=
  CHECK (slen * 2 <=? dlen) ;;
  hex_loop fuel 0 0 src dst (slen * 2).

(** [src/src/binding/internal/aworker_bytes.cc 135-154, BufferEncodeHex] The sum of the
    CHECK and the doubled length are 32-bit operations. *)
Definition BufferEncodeHex (fuel : nat) (data : bytes) (offset byte_length : Z) : outcome bytes :=
  CHECK (u32 (offset + byte_length) <=? Z.of_nat (length data)) ;;
  let dlen := u32 (byte_length * 2) in
  hex_encode fuel (drop (Z.to_nat offset) data) byte_length (repeat x00 (Z.to_nat dlen)) dlen.

(** * Base64 *)

(** [src/src/binding/internal/aworker_bytes.cc 156-185, BufferEncodeBase64] The array
    buffer has the allocation's size less one. *)
Definition BufferEncodeBase64 (data : bytes) (offset byte_length : Z) : outcome bytes :=
  CHECK (u32 (offset + byte_length) <=? Z.of_nat (length data)) ;;
  let dlen := modp_b64_encode_len32 byte_length in
  out ← modp_b64_encode dlen (drop (Z.to_nat offset) data) byte_length;
  Ret (take (Z.to_nat (dlen - 1)) (out ++ repeat x00 (Z.to_nat dlen - length out))).

(** [src/src/binding/internal/aworker_bytes.cc 187-218, AToB] [None] is the exception. *)
Definition AToB (utf8 : bytes) : outcome (option bytes) :=
  let orig_len := Z.of_nat (length utf8) in
  let size := modp_b64_decode_len orig_len + 1 in
  r ← modp_b64_decode size utf8;
  match r with
  | None => Ret None
  | Some (dest_len, out) =>
      CHECK (dest_len <=? size) ;;
      Ret (Some (take (Z.to_nat dest_len) out))
  end.

(** [src/src/binding/internal/aworker_bytes.cc 220-244, BToA] *)
Definition BToA (utf8 : bytes) : outcome bytes :=
  let orig_len := Z.of_nat (length utf8) in
  let size := modp_b64_encode_strlen orig_len + 1 in
  out ← modp_b64_encode size utf8 orig_len;
  CHECK (Z.of_nat (length out) <=? size) ;;
  Ret out.

(** * Scalar value strings *)

(** [src/src/binding/internal/aworker_bytes.cc 65-65, IsUnicodeTrail] *)
Definition IsUnicodeTrail (ch : Z) : bool := Z.land ch 0xFC00 =? 0xDC00.
(** [src/src/binding/internal/aworker_bytes.cc 68-68, IsUnicodeSurrogate] *)
Definition IsUnicodeSurrogate (ch : Z) : bool := Z.land ch 0xF800 =? 0xD800.
(** [src/src/binding/internal/aworker_bytes.cc 71-71, IsUnicodeSurrogateTrail] *)
Definition IsUnicodeSurrogateTrail (ch : Z) : bool := negb (Z.land ch 0x400 =? 0).
(** [src/src/binding/internal/aworker_bytes.cc 54-54, kUnicodeReplacementCharacter] *)
Definition kUnicodeReplacementCharacter : Z := 0xFFFD.

(** [src/src/binding/internal/aworker_bytes.cc 114-128, ToUSVString] The loop. *)
Fixpoint usv_loop (fuel : nat) (i : nat) (value : list Z) : outcome (list Z) :=
  match value !! i with
  | None => Ret value
  | Some c =>
      match fuel with
      | O => Fault OutOfFuel
      | S fuel =>
          if negb (IsUnicodeSurrogate c) then usv_loop fuel (S i) value
          else if (IsUnicodeSurrogateTrail c || (i =? length value - 1)%nat)%bool
          then usv_loop fuel (S i) (<[i := kUnicodeReplacementCharacter]> value)
          else
            match value !! S i with
            | None => Fault OutOfBounds
            | Some d =>
                if IsUnicodeTrail d then usv_loop fuel (S (S i)) value
                else usv_loop fuel (S i) (<[i := kUnicodeReplacementCharacter]> value)
            end
      end
  end.

(** [src/src/binding/internal/aworker_bytes.cc 95-133, ToUSVString] *)
Definition ToUSVString (value : list Z) (start : Z) : outcome (list Z) :=
  CHECK (0 <=? start) ;;
  usv_loop (length value) (Z.to_nat start) value.

(** ** The specification *)

Definition lead (c : Z) : Prop := 0xD800 <= c <= 0xDBFF.
Definition trail (c : Z) : Prop := 0xDC00 <= c <= 0xDFFF.
#[export] Instance lead_dec c : Decision (lead c) := _.
#[export] Instance trail_dec c : Decision (trail c) := _.

(** The standard's conversion: every surrogate that is not part of a pair is
    replaced. *)
Fixpoint usv (l : list Z) : list Z :=
  match l with
  | [] => []
  | c :: l' =>
      if decide (lead c) then
        match l' with
        | d :: l'' => if decide (trail d) then c :: d :: usv l'' else 0xFFFD :: usv l'
        | [] => [0xFFFD]
        end
      else if decide (trail c) then 0xFFFD :: usv l' else c :: usv l'
  end.

(** No unpaired surrogate. *)
Fixpoint well_formed (l : list Z) : bool :=
  match l with
  | [] => true
  | c :: l' =>
      if decide (lead c) then
        match l' with
        | d :: l'' => if decide (trail d) then well_formed l'' else false
        | [] => false
        end
      else if decide (trail c) then false else well_formed l'
  end.

(** * Hexadecimal: proofs *)

Definition hex_digit (z : Z) : byte := nth (Z.to_nat z) hex x00.
Definition hex2 (b : byte) : bytes := [hex_digit (bval b / 16); hex_digit (bval b mod 16)].
Definition hex_text (s : bytes) : bytes := s ≫= hex2.

Lemma hex_tables b :
  tbl_get hex (Z.shiftr (bval b) 4) = Ret (hex_digit (bval b / 16)) /\
  tbl_get hex (Z.land (bval b) 15) = Ret (hex_digit (bval b mod 16)).
Proof.
  pose proof (bval_range b). rewrite Z.shiftr_div_pow2 by lia. change (2 ^ 4) with 16.
  change 15 with (Z.ones 4). rewrite Z.land_ones by lia. change (2 ^ 4) with 16.
  assert (forall z, 0 <= z < 16 -> tbl_get hex z = Ret (hex_digit z)) as Hz.
  { intros z Hz. unfold tbl_get, hex_digit.
    destruct (Z.leb_spec 0 z); [|lia].
    assert (Z.to_nat z < length hex)%nat as Hl by (simpl; lia).
    destruct (lookup_lt_is_Some_2 hex (Z.to_nat z) Hl) as [c Hc]. rewrite Hc.
    by rewrite (nth_lookup_Some _ _ _ _ Hc). }
  split; apply Hz; Z.div_mod_to_equations; lia.
Qed.

Lemma hex_loop_ret : forall todo done_ rest tail_ fuel,
  (length todo < fuel)%nat -> 2 * Z.of_nat (length done_ + length todo) < 2 ^ 32 ->
  length tail_ = (2 * length todo)%nat ->
  hex_loop fuel (Z.of_nat (length done_)) (2 * Z.of_nat (length done_))
    ((done_ ++ todo) ++ rest) (hex_text done_ ++ tail_)
    (Z.of_nat (length done_ + length todo) * 2) = Ret (hex_text (done_ ++ todo)).
Proof.
  assert (forall l, length (hex_text l) = (2 * length l)%nat) as Hlen.
  { induction l as [|b l IH]; [done|]. unfold hex_text in *. rewrite bind_cons, length_app, IH. simpl. lia. }
  induction todo as [|b todo IH]; intros d rest tl fuel Hf Hb Ht.
  - destruct tl; [|done]. rewrite !app_nil_r. simpl (length []). rewrite Nat.add_0_r.
    destruct fuel; simpl; destruct (Z.ltb_spec (2 * Z.of_nat (length d)) (Z.of_nat (length d) * 2)); lia || done.
  - destruct fuel as [|fuel]; [simpl in Hf; lia|]. simpl (length (_ :: _)) in *.
    destruct tl as [|u [|v tl]]; simpl in Ht; try lia. cbn [hex_loop].
    destruct (Z.ltb_spec (2 * Z.of_nat (length d)) (Z.of_nat (length d + S (length todo)) * 2)); [|lia].
    assert (tbl_get ((d ++ b :: todo) ++ rest) (Z.of_nat (length d)) = Ret b) as ->.
    { unfold tbl_get. rewrite Nat2Z.id, <- app_assoc, lookup_app_r by lia.
      rewrite Nat.sub_diag. simpl. by destruct (Z.leb_spec 0 (Z.of_nat (length d))); [|lia]. }
    cbn [mbind outcome_bind]. destruct (hex_tables b) as [-> ->]. cbn [mbind outcome_bind].
    replace (Z.to_nat (2 * Z.of_nat (length d))) with (length (hex_text d)) by (rewrite Hlen; lia).
    rewrite buf_set_app. cbn [mbind outcome_bind].
    replace (Z.to_nat (2 * Z.of_nat (length d) + 1))
      with (length (hex_text d ++ [hex_digit (bval b / 16)])) by (rewrite length_app, Hlen; simpl; lia).
    change (hex_text d ++ hex_digit (bval b / 16) :: v :: tl)
      with (hex_text d ++ [hex_digit (bval b / 16)] ++ v :: tl). rewrite app_assoc, buf_set_app.
    cbn [mbind outcome_bind].
    assert (hex_text (d ++ [b]) = (hex_text d ++ [hex_digit (bval b / 16)]) ++ [hex_digit (bval b mod 16)]) as Hd.
    { unfold hex_text. rewrite bind_app. simpl. by rewrite <- app_assoc. }
    specialize (IH (d ++ [b]) rest tl fuel). rewrite !length_app, Hd in IH. simpl (length [b]) in IH.
    unfold u32. rewrite !wrap_small by lia.
    replace (Z.of_nat (length d) + 1) with (Z.of_nat (length d + 1)) by lia.
    replace (2 * Z.of_nat (length d) + 2) with (2 * Z.of_nat (length d + 1)) by lia.
    replace (length d + S (length todo))%nat with (length d + 1 + length todo)%nat by lia.
    rewrite <- !app_assoc in *. simpl in *. apply IH; lia.
Qed.

Lemma hex_encode_ret fuel s rest dst :
  (length s < fuel)%nat -> Z.of_nat (length s) < 2 ^ 31 -> length dst = (2 * length s)%nat ->
  hex_encode fuel (s ++ rest) (Z.of_nat (length s)) dst (Z.of_nat (length s) * 2) = Ret (hex_text s).
Proof.
  intros Hf Hs Hd. unfold hex_encode. rewrite Z.leb_refl. simpl.
  apply (hex_loop_ret s [] rest dst fuel); simpl; lia.
Qed.

(** The part of a buffer a view describes. *)
Definition view (data : bytes) (offset n : Z) : bytes :=
  take (Z.to_nat n) (drop (Z.to_nat offset) data).

Lemma view_split data offset n :
  0 <= offset -> 0 <= n -> offset + n <= Z.of_nat (length data) ->
  drop (Z.to_nat offset) data = view data offset n ++ drop (Z.to_nat n) (drop (Z.to_nat offset) data) /\
  length (view data offset n) = Z.to_nat n.
Proof.
  intros H1 H2 H3. unfold view. rewrite take_drop. split; [done|].
  rewrite length_take, length_drop. lia.
Qed.

(** The text of a view: inside the buffer and below 2 GiB, both encoders read
    exactly the view and return its hexadecimal and base64 text, and the base64 text
    decodes to the view. *)
Theorem buffer_text_of_view data offset n :
  0 <= offset -> 0 <= n < 2 ^ 31 -> offset + n <= Z.of_nat (length data) ->
  offset + n < 2 ^ 32 ->
  BufferEncodeHex (S (Z.to_nat n)) data offset n = Ret (hex_text (view data offset n)) /\
  BufferEncodeBase64 data offset n = Ret (b64_text (view data offset n)) /\
  AToB (b64_text (view data offset n)) = Ret (Some (view data offset n)).
Proof.
  intros Ho Hn Hs Hw.
  destruct (view_split data offset n Ho ltac:(lia) Hs) as [Hd Hl].
  assert (Z.of_nat (length (view data offset n)) = n) as HlZ by lia.
  split_and!.
  - unfold BufferEncodeHex. unfold u32. rewrite !wrap_small by lia.
    destruct (Z.leb_spec (offset + n) (Z.of_nat (length data))); [|lia]. cbn [CHECK mbind outcome_bind].
    rewrite Hd. pose proof (hex_encode_ret (S (Z.to_nat n)) (view data offset n)
      (drop (Z.to_nat n) (drop (Z.to_nat offset) data)) (repeat x00 (Z.to_nat (n * 2)))) as H1.
    rewrite HlZ, repeat_length in H1. apply H1; lia.
  - unfold BufferEncodeBase64. unfold u32 at 1. rewrite wrap_small by lia.
    destruct (Z.leb_spec (offset + n) (Z.of_nat (length data))); [|lia]. cbn [CHECK mbind outcome_bind].
    assert (modp_b64_encode_len32 n = modp_b64_encode_strlen n + 1) as ->.
    { unfold modp_b64_encode_len32, modp_b64_encode_strlen.
      assert (0 <= (n + 2) / 3 * 4 < 2 ^ 32 - 1) by (Z.div_mod_to_equations; lia).
      unfold u32. rewrite (wrap_small 32 (n + 2)) by lia. rewrite (wrap_small 32 ((n + 2) / 3 * 4)) by lia.
      by rewrite wrap_small by lia. }
    rewrite Hd. pose proof (encode_is_text (modp_b64_encode_strlen n + 1) (view data offset n)
      (drop (Z.to_nat n) (drop (Z.to_nat offset) data))) as H1.
    rewrite HlZ in H1. rewrite H1 by lia. cbn [mbind outcome_bind]. f_equal.
    assert (Z.to_nat (modp_b64_encode_strlen n + 1 - 1) = length (b64_text (view data offset n))) as Hk.
    { pose proof (b64_text_length (view data offset n)) as Hbl. rewrite HlZ in Hbl.
      unfold modp_b64_encode_strlen. lia. }
    rewrite Hk. by apply take_app_exact.
  - unfold AToB. rewrite decode_is_spec by lia. rewrite spec_text. simpl.
    assert (Z.of_nat (length (view data offset n)) <=?
      modp_b64_decode_len (Z.of_nat (length (b64_text (view data offset n)))) + 1 = true) as ->.
    { apply Z.leb_le. unfold modp_b64_decode_len. rewrite b64_text_length.
      Z.div_mod_to_equations; lia. }
    simpl. by rewrite Nat2Z.id, firstn_all.
Qed.

Example buffer_text_of_view_witness :
  BufferEncodeBase64 [x00; x41; x42; x00] 1 2 = Ret (b64_text [x41; x42]) /\
  AToB (b64_text [x41; x42]) = Ret (Some [x41; x42]).
Proof.
  apply (buffer_text_of_view [x00; x41; x42; x00] 1 2); vm_compute; intuition discriminate.
Defined.

(** btoa and atob: the text of any bytes decodes to them, without touching memory
    outside the buffers that are allocated. *)
Theorem btoa_atob_roundtrip s :
  exists t, BToA s = Ret t /\ AToB t = Ret (Some s).
Proof.
  exists (b64_text s). split.
  - unfold BToA. rewrite <- (app_nil_r s) at 2. rewrite encode_is_text by lia.
    cbn [mbind outcome_bind]. unfold modp_b64_encode_strlen. rewrite <- b64_text_length.
    by destruct (Z.leb_spec (Z.of_nat (length (b64_text s))) (Z.of_nat (length (b64_text s)) + 1)); [|lia].
  - unfold AToB. rewrite decode_is_spec by lia. rewrite spec_text. simpl.
    assert (Z.of_nat (length s) <=?
      modp_b64_decode_len (Z.of_nat (length (b64_text s))) + 1 = true) as ->.
    { apply Z.leb_le. unfold modp_b64_decode_len. rewrite b64_text_length.
      Z.div_mod_to_equations; lia. }
    simpl. by rewrite Nat2Z.id, firstn_all.
Qed.

(** * The CHECK that wraps around *)

(** A defect: the sum of offset and length wraps around 32 bits before it is
    compared with the size of the buffer, and so does the size of the text: with
    offset 1 and the largest length the CHECK holds for every buffer, one byte is
    allocated, and the encoder leaves its buffers. *)
Theorem encode_base64_offset_overflow data :
  BufferEncodeBase64 data 1 (2 ^ 32 - 1) = Fault OutOfBounds.
Proof.
  unfold BufferEncodeBase64.
  change (u32 (1 + (2 ^ 32 - 1))) with 0. change (modp_b64_encode_len32 (2 ^ 32 - 1)) with 1.
  destruct (Z.leb_spec 0 (Z.of_nat (length data))); [|lia]. cbn [CHECK mbind outcome_bind].
  unfold modp_b64_encode.
  assert (exists n, Z.to_nat ((2 ^ 32 - 1) / 3) = S n) as [n ->].
  { exists (Z.to_nat ((2 ^ 32 - 1) / 3 - 1)).
    assert (1 <= (2 ^ 32 - 1) / 3) by (apply Z.div_le_lower_bound; lia). lia. }
  cbn [encode_loop]. destruct (drop _ data) as [|t1 [|t2 [|t3 l]]]; reflexivity.
Qed.

(** A defect: the counters of the hexadecimal encoder are 32 bits wide and the
    length is not, so that from 2 GiB of input on the loop never reaches its end,
    however long it runs. *)
Theorem hex_encode_never_ends fuel src slen dst dlen :
  2 ^ 31 <= slen -> is_ret (hex_encode fuel src slen dst dlen) = false.
Proof.
  intros Hs. unfold hex_encode. destruct (slen * 2 <=? dlen); [|done]. simpl.
  assert (forall fuel i k dst, 0 <= k < 2 ^ 32 ->
    is_ret (hex_loop fuel i k src dst (slen * 2)) = false) as Hl.
  { clear fuel dst. induction fuel as [|fuel IH]; intros i k dst Hk; simpl;
      (destruct (Z.ltb_spec k (slen * 2)); [|lia]); [done|].
    destruct (tbl_get src i) as [c|]; [|done]. simpl. destruct (hex_tables c) as [-> ->]. simpl.
    destruct (buf_set dst _ _); [|done]. simpl.
    destruct (buf_set _ _ _); [|done]. simpl. apply IH. apply (wrap_range 32). lia. }
  apply Hl. lia.
Qed.

Example hex_encode_never_ends_witness :
  is_ret (hex_encode 5 [x00; x01] (2 ^ 31) [x00; x00; x00; x00] (2 ^ 32)) = false.
Proof. apply hex_encode_never_ends. lia. Defined.

(** * Scalar values: proofs *)

(** The bit tests are the ranges of the standard. *)
Definition ranges_ok (c : Z) : bool :=
  (Bool.eqb (IsUnicodeTrail c) (bool_decide (trail c)) &&
   Bool.eqb (IsUnicodeSurrogate c) (bool_decide (lead c) || bool_decide (trail c)) &&
   (negb (IsUnicodeSurrogate c) || Bool.eqb (IsUnicodeSurrogateTrail c) (bool_decide (trail c))))%bool.

Lemma land_shift c h : 0 <= c < 2 ^ 16 -> 0 <= h -> Z.land c (h * 2 ^ 10) = Z.land (c / 2 ^ 10) h * 2 ^ 10.
Proof.
  intros Hc Hh. rewrite <- !Z.shiftl_mul_pow2 by lia. rewrite <- Z.shiftr_div_pow2 by lia.
  apply Z.bits_inj'. intros n Hn.
  rewrite Z.land_spec, !Z.shiftl_spec by lia. destruct (Z.ltb_spec n 10).
  - rewrite (Z.testbit_neg_r h (n - 10)), (Z.testbit_neg_r (Z.land _ _) (n - 10)) by lia.
    by rewrite andb_false_r.
  - rewrite Z.land_spec, Z.shiftr_spec by lia. by replace (n - 10 + 10) with n by lia.
Qed.

Lemma ranges c : 0 <= c < 2 ^ 16 -> ranges_ok c = true.
Proof.
  intros Hc. unfold ranges_ok, IsUnicodeTrail, IsUnicodeSurrogate, IsUnicodeSurrogateTrail.
  change 0xFC00 with (63 * 2 ^ 10). change 0xF800 with (62 * 2 ^ 10). change 0x400 with (1 * 2 ^ 10).
  rewrite !land_shift by lia.
  assert (0 <= c / 2 ^ 10 < 64) as Hq by (Z.div_mod_to_equations; lia).
  assert (bool_decide (trail c) = (c / 2 ^ 10 =? 55)) as ->.
  { apply eq_true_iff_eq. rewrite bool_decide_eq_true, Z.eqb_eq. unfold trail.
    Z.div_mod_to_equations; lia. }
  assert (bool_decide (lead c) = (c / 2 ^ 10 =? 54)) as ->.
  { apply eq_true_iff_eq. rewrite bool_decide_eq_true, Z.eqb_eq. unfold lead.
    Z.div_mod_to_equations; lia. }
  revert Hq. generalize (c / 2 ^ 10). intros q Hq.
  assert (forallb (fun q => (Bool.eqb (Z.land q 63 * 2 ^ 10 =? 0xDC00) (q =? 55) &&
    Bool.eqb (Z.land q 62 * 2 ^ 10 =? 0xD800) ((q =? 54) || (q =? 55)) &&
    (negb (Z.land q 62 * 2 ^ 10 =? 0xD800) ||
     Bool.eqb (negb (Z.land q 1 * 2 ^ 10 =? 0)) (q =? 55)))%bool) sextets = true) as Hall
    by (vm_compute; reflexivity).
  rewrite forallb_forall in Hall. by apply Hall, sextets_elem.
Qed.

Lemma range_cases c : 0 <= c < 2 ^ 16 ->
  IsUnicodeTrail c = bool_decide (trail c) /\
  IsUnicodeSurrogate c = (bool_decide (lead c) || bool_decide (trail c))%bool /\
  (IsUnicodeSurrogate c = true -> IsUnicodeSurrogateTrail c = bool_decide (trail c)).
Proof.
  intros Hc. pose proof (ranges c Hc) as H. unfold ranges_ok in H. bool_to_prop.
  apply eqb_prop in H, H1. split_and!; try done. intros Hs. rewrite Hs in H0. simpl in H0.
  by apply eqb_prop in H0.
Qed.

Lemma usv_loop_ret : forall todo done_ fuel,
  Forall (fun c => 0 <= c < 2 ^ 16) todo -> (length todo <= fuel)%nat ->
  usv_loop fuel (length done_) (done_ ++ todo) = Ret (done_ ++ usv todo).
Proof.
  induction todo as [todo IH] using (induction_ltof1 _ (@length Z)). unfold ltof in IH.
  intros d fuel Hall Hf.
  destruct todo as [|c todo].
  { rewrite !app_nil_r. destruct fuel; simpl; by rewrite lookup_ge_None_2 by lia. }
  inversion Hall as [|? ? Hc Hall']; subst. destruct fuel as [|fuel]; [simpl in Hf; lia|]. simpl in Hf.
  assert (forall x, usv_loop fuel (S (length d)) (d ++ x :: todo) = Ret (d ++ x :: usv todo)) as Hnext.
  { intros x. specialize (IH todo ltac:(simpl; lia) (d ++ [x]) fuel Hall' ltac:(lia)).
    rewrite length_app, Nat.add_1_r, <- !app_assoc in IH. done. }
  cbn [usv_loop]. rewrite lookup_app_r, Nat.sub_diag by lia. cbn [lookup list_lookup].
  rewrite insert_app_r_alt, Nat.sub_diag by lia. cbn [insert list_insert].
  destruct (range_cases c Hc) as (_ & Es & Et). rewrite Es. cbn [usv].
  destruct (decide (lead c)) as [Hlc|Hlc].
  - assert (~ trail c) as Hnt by (unfold lead, trail in *; lia).
    rewrite (bool_decide_eq_true_2 _ Hlc) in *. simpl in *.
    rewrite Et, (bool_decide_eq_false_2 _ Hnt) by done. simpl.
    rewrite length_app. simpl. destruct todo as [|e todo].
    + simpl. destruct (Nat.eqb_spec (length d) (length d + 1 - 1)); [|lia]. rewrite Hnext. done.
    + simpl (length (e :: todo)).
      destruct (Nat.eqb_spec (length d) (length d + S (S (length todo)) - 1)); [lia|].
      rewrite lookup_app_r by lia. replace (S (length d) - length d)%nat with 1%nat by lia.
      cbn [lookup list_lookup]. inversion Hall' as [|? ? He Hall'']; subst.
      destruct (range_cases e He) as (-> & _). destruct (decide (trail e)) as [Hte|Hte].
      * rewrite (bool_decide_eq_true_2 _ Hte).
        specialize (IH todo ltac:(simpl; lia) (d ++ [c; e]) fuel Hall'' ltac:(simpl in *; lia)).
        rewrite length_app, <- !app_assoc in IH. simpl in IH.
        by replace (length d + 2)%nat with (S (S (length d))) in IH by lia.
      * rewrite (bool_decide_eq_false_2 _ Hte). apply Hnext.
  - rewrite (bool_decide_eq_false_2 _ Hlc) in *. simpl in *.
    destruct (decide (trail c)) as [Htc|Htc].
    + rewrite (bool_decide_eq_true_2 _ Htc) in *. simpl. rewrite Et by done. simpl. apply Hnext.
    + rewrite (bool_decide_eq_false_2 _ Htc). simpl. apply Hnext.
Qed.

Lemma usv_well_formed l : well_formed (usv l) = true.
Proof.
  induction l as [l IH] using (induction_ltof1 _ (@length Z)). unfold ltof in IH.
  assert (forall l', well_formed (0xFFFD :: l') = well_formed l') as Hr by done.
  destruct l as [|c l]; [done|]. cbn [usv]. destruct (decide (lead c)) as [Hl|Hl].
  - destruct l as [|d l]; [done|]. destruct (decide (trail d)) as [Ht|Ht].
    + cbn [well_formed]. rewrite decide_True, decide_True by done. apply IH. simpl. lia.
    + rewrite Hr. apply IH. simpl. lia.
  - destruct (decide (trail c)) as [Ht|Ht].
    + rewrite Hr. apply IH. simpl. lia.
    + cbn [well_formed]. rewrite decide_False, decide_False by done. apply IH. simpl. lia.
Qed.

(** C35 The conversion to scalar values is the standard's: from the start index on,
    exactly the surrogates that are not part of a pair become U+FFFD, everything
    else and everything before the index is kept, and a conversion from the start
    leaves no unpaired surrogate.  The loop never reads past the string. *)
Theorem ToUSVString_is_standard value start :
  Forall (fun c => 0 <= c < 2 ^ 16) value -> 0 <= start ->
  ToUSVString value start =
    Ret (take (Z.to_nat start) value ++ usv (drop (Z.to_nat start) value)) /\
  well_formed (usv value) = true.
Proof.
  intros Hv Hs. split; [|apply usv_well_formed]. unfold ToUSVString.
  destruct (Z.leb_spec 0 start); [|lia]. simpl.
  destruct (decide (Z.to_nat start <= length value)%nat) as [Hle|Hgt].
  - rewrite <- (take_drop (Z.to_nat start) value) at 2.
    assert (length (take (Z.to_nat start) value) = Z.to_nat start) as Hlen by (rewrite length_take; lia).
    rewrite <- Hlen at 1. apply usv_loop_ret.
    + by apply Forall_drop.
    + rewrite length_drop. lia.
  - rewrite take_ge, drop_ge by lia. simpl. rewrite app_nil_r.
    destruct (length value) eqn:E; simpl; by rewrite lookup_ge_None_2 by lia.
Qed.

Example ToUSVString_is_standard_witness :
  ToUSVString [0x61; 0xD800; 0xD801; 0xDC00; 0xDC01] 0 = Ret [0x61; 0xFFFD; 0xD801; 0xDC00; 0xFFFD].
Proof.
  destruct (ToUSVString_is_standard [0x61; 0xD800; 0xD801; 0xDC00; 0xDC01] 0) as [H _].
  - repeat constructor; lia.
  - lia.
  - exact H.
Defined.
