(* ===== verification/Zlib.v ===== *)
(** src/src/zlib/: streaming compression and decompression for JavaScript.

    zlib itself is an interface ([Zlib]): a stream state, one call that consumes
    input and produces output, and the calls that create and end a stream.
    [Engine] and [Wrapper] together are ZlibWrapper with the members of its two
    subclasses; [Wrapper] also records its tasks in the macro task queue
    ([macro], in order), the callbacks JavaScript handed over ([offered]) and
    the calls of them.  A stream without
    a state (all zero, or ended) is [None].  [z_fed] and [z_made] record what the
    stream has consumed and produced. *)

From S2P Require Import Prelude.

(** The return codes of zlib. *)
Inductive status :=
  | Z_OK | Z_STREAM_END | Z_NEED_DICT | Z_ERRNO | Z_STREAM_ERROR | Z_DATA_ERROR
  | Z_MEM_ERROR | Z_BUF_ERROR | Z_VERSION_ERROR.
#[export] Instance status_eq_dec : EqDecision status.
Proof. solve_decision. Defined.

(** The flush modes that matter below; Z_PARTIAL_FLUSH is 1, Z_FULL_FLUSH 3,
    Z_BLOCK 5 and Z_TREES 6. *)
Definition Z_NO_FLUSH : Z := 0.
Definition Z_SYNC_FLUSH : Z := 2.
Definition Z_FINISH : Z := 4.

(** Compression (deflate) or decompression (inflate). *)
Inductive Kind := Zip | Unzip.

(** The calls of zlib: [deflateInit2]/[inflateInit2] give a state or fail;
    [deflate]/[inflate] on a state, the input and the room for output give the
    new state, the return code, the number of bytes consumed and the bytes
    produced; [deflateEnd]/[inflateEnd] free a state. *)
Class Zlib (St : Type) := {
  zinit : Kind -> Z -> Z * Z * Z -> option St;
  zcall : Kind -> St -> bytes -> nat -> Z -> St * status * nat * bytes;
  zend : Kind -> St -> status }.

(** [src/src/zlib/unzip.h 9-9, UnzipType] *)
Inductive UnzipType := GUNZIP | INFLATE | UNZIP.
(** [src/src/zlib/zip.h 9-9, ZipType] *)
Inductive ZipType := GZIP | DEFLATE.
(** [src/src/zlib/unzip.h 10-14, UnzipFirstTwoBytesParsedStatus] *)
Inductive UnzipFirstTwoBytesParsedStatus := kNonParsed | kFirstParsed | kSecondParsed.
#[export] Instance UnzipType_eq_dec : EqDecision UnzipType.
Proof. solve_decision. Defined.

(** The [int _type] of a wrapper, with the subclass it belongs to. *)
Inductive WrapperType := TUnzip (t : UnzipType) | TZip (t : ZipType).
#[export] Instance ZipType_eq_dec : EqDecision ZipType.
Proof. solve_decision. Defined.
#[export] Instance WrapperType_eq_dec : EqDecision WrapperType.
Proof. solve_decision. Defined.
Definition kind_of (t : WrapperType) : Kind :=
  match t with TUnzip _ => Unzip | TZip _ => Zip end.

(** The error messages; the text zlib adds to a failed call is left out. *)
Inductive ZError := AlreadyDone | AlreadyFailed | UnexpectedEof | CallFailed (st : status).

(** [src/src/zlib/zlib_task.h 45-52, ZlibTask] with the flags of MacroTask; the
    task is named by a number instead of its address. *)
Record Task := mkTask {
  tid : nat; input : bytes; flush_mode : Z;
  prepared : bool; out : bytes;
  t_done : bool; t_error : option ZError }.

Section zlib.
Context {St : Type} `{Zlib St} (pagesize : nat).

(** [z_stream]: [z_avail_in] is the input at [next_in]. *)
Record Stream := mkStream {
  z_state : option St; z_avail_in : bytes; z_fed : bytes; z_made : bytes }.

(** [src/src/zlib/zlib_wrapper.h 94-104, ZlibWrapper] The members the tasks work
    on. *)
Record Engine := mkEngine {
  stream : Stream; running : bool; errored : bool; finished : bool;
  error : option ZError; inited : bool; ended : bool }.

(** What JavaScript receives. *)
Inductive CallResult := Failed (e : ZError) | Buffer (b : bytes).
Inductive PushResult :=
  | RNone | RBuffer (b : bytes) | RPair (b1 b2 : bytes)
  | RThrow (e : option ZError) | RInitFailed.

(** [src/src/zlib/zlib_wrapper.h 90-104, ZlibWrapper] *)
Record Wrapper := mkWrapper {
  type : WrapperType; is_sync : bool; window_bits : Z; options : Z * Z * Z;
  engine : Engine;
  first_two : UnzipFirstTwoBytesParsedStatus; head_task : option Task;
  task_queue : list Task; callback_map : gmap nat (option nat);
  offered : list nat; macro : list Task;
  immediate : list nat; called : list (nat * CallResult) }.

Definition set_engine (w : Wrapper) (e : Engine) : Wrapper :=
  mkWrapper (type w) (is_sync w) (window_bits w) (options w) e (first_two w) (head_task w)
    (task_queue w) (callback_map w) (offered w) (macro w) (immediate w) (called w).
Definition set_type (w : Wrapper) (t : UnzipType) (f : UnzipFirstTwoBytesParsedStatus) : Wrapper :=
  mkWrapper (TUnzip t) (is_sync w) (window_bits w) (options w) (engine w) f (head_task w)
    (task_queue w) (callback_map w) (offered w) (macro w) (immediate w) (called w).
Definition set_head (w : Wrapper) (h : option Task) : Wrapper :=
  mkWrapper (type w) (is_sync w) (window_bits w) (options w) (engine w) (first_two w) h
    (task_queue w) (callback_map w) (offered w) (macro w) (immediate w) (called w).
Definition set_queues (w : Wrapper) (q m : list Task) : Wrapper :=
  mkWrapper (type w) (is_sync w) (window_bits w) (options w) (engine w) (first_two w) (head_task w)
    q (callback_map w) (offered w) m (immediate w) (called w).
Definition set_calls (w : Wrapper) (cbs : gmap nat (option nat)) (i : list nat)
    (c : list (nat * CallResult)) : Wrapper :=
  mkWrapper (type w) (is_sync w) (window_bits w) (options w) (engine w) (first_two w) (head_task w)
    (task_queue w) cbs (offered w) (macro w) i c.
Definition set_running (e : Engine) (b : bool) : Engine :=
  mkEngine (stream e) b (errored e) (finished e) (error e) (inited e) (ended e).
Definition set_stream (e : Engine) (s : Stream) : Engine :=
  mkEngine s (running e) (errored e) (finished e) (error e) (inited e) (ended e).

Definition kind (w : Wrapper) : Kind := kind_of (type w).

(** [src/src/zlib/zlib_wrapper.cc 174-201, ZlibWrapper::ZlibWrapper] *)
Definition New (t : WrapperType) (sync : bool) (window_bits : Z) (options : Z * Z * Z) : Wrapper :=
  mkWrapper t sync window_bits options
    (mkEngine (mkStream None [] [] []) false false false None false false)
    kNonParsed None [] ∅ [] [] [] [].

(** ** The stream *)

(** [src/src/zlib/unzip.cc 43-47, UnzipWrapper::DoZlibEnd] [inflateEnd] of a
    stream without a state is a Z_STREAM_ERROR; zip.cc has the same with
    [deflateEnd]. *)
Definition DoZlibEnd (k : Kind) (s : Stream) : outcome Stream :=
  let ret := match z_state s with Some st => zend k st | None => Z_STREAM_ERROR end in
  CHECK (bool_decide (ret = Z_OK \/ ret = Z_DATA_ERROR));;
  Ret (mkStream None (z_avail_in s) (z_fed s) (z_made s)).

(** [src/src/zlib/zlib_wrapper.cc 254-260, ZlibWrapper::OccurError] *)
Definition OccurError (k : Kind) (e : Engine) (err : ZError) : outcome Engine :=
  s ← DoZlibEnd k (stream e);
  Ret (mkEngine s false true (finished e) (Some err) (inited e) true).

(** [src/src/zlib/zlib_wrapper.cc 262-267, ZlibWrapper::End] *)
Definition End_ (k : Kind) (e : Engine) : outcome Engine :=
  s ← DoZlibEnd k (stream e);
  Ret (mkEngine s false (errored e) true (error e) (inited e) true).

(** [src/src/zlib/unzip.cc 49-70, UnzipWrapper::Init] *)
Definition Unzip_Init (w : Wrapper) (t : UnzipType) : Wrapper * bool :=
  let wb := window_bits w + (if bool_decide (t = GUNZIP) then 16 else 0) in
  let st := zinit Unzip wb (options w) in
  let e := engine w in
  let s := stream e in
  (set_engine w (mkEngine (mkStream st [] (z_fed s) (z_made s)) (running e) (errored e)
                   (finished e) (error e) true (ended e)),
   match st with Some _ => true | None => false end).

(** [src/src/zlib/zip.cc 83-109, ZipWrapper::Init] *)
Definition Zip_Init (w : Wrapper) (t : ZipType) : Wrapper * bool :=
  let wb := window_bits w + (match t with GZIP => 16 | DEFLATE => 0 end) in
  let st := zinit Zip wb (options w) in
  let e := engine w in
  let s := stream e in
  (set_engine w (mkEngine (mkStream st [] (z_fed s) (z_made s)) (running e) (errored e)
                   (finished e) (error e) true (ended e)),
   match st with Some _ => true | None => false end).

Definition Init (w : Wrapper) : Wrapper * bool :=
  match type w with TUnzip t => Unzip_Init w t | TZip t => Zip_Init w t end.

(** [inflate]/[deflate] with the whole chunk buffer as output room: the stream
    afterwards, the return code and the bytes produced. *)
Definition call (k : Kind) (s : Stream) (flush : Z) : Stream * status * bytes :=
  match z_state s with
  | None => (s, Z_STREAM_ERROR, [])
  | Some st =>
      let '(st', ret, n, o) := zcall k st (z_avail_in s) pagesize flush in
      (mkStream (Some st') (drop n (z_avail_in s)) (z_fed s ++ take n (z_avail_in s)) (z_made s ++ o),
       ret, o)
  end.

(** ** Tasks *)

Definition Fail_ (t : Task) (e : ZError) : Task :=
  mkTask (tid t) (input t) (flush_mode t) (prepared t) (out t) (t_done t) (Some e).
Definition Done_ (t : Task) : Task :=
  mkTask (tid t) (input t) (flush_mode t) (prepared t) (out t) true (t_error t).

(** [src/src/zlib/zlib_task.cc 75-82, ZlibTask::Prepare] *)
Definition Prepare (e : Engine) (t : Task) : Engine * Task :=
  let s := stream e in
  (set_stream e (mkStream (z_state s) (input t) (z_fed s) (z_made s)),
   mkTask (tid t) (input t) (flush_mode t) true (out t) (t_done t) (t_error t)).

(** [src/src/zlib/zlib_task.cc 91-105, ZlibTask::ConcatChunkToResult] and
    [ResizableBuffer::Concat]; the chunk buffer holds what the call produced. *)
Definition ConcatChunkToResult (t : Task) (produced : bytes) : outcome Task :=
  CHECK (length produced <=? pagesize)%nat;;
  Ret (mkTask (tid t) (input t) (flush_mode t) (prepared t) (out t ++ produced) (t_done t) (t_error t)).

(** [src/src/zlib/zlib_task.cc 84-89, ZlibTask::Done] *)
Definition Done (k : Kind) (e : Engine) (t : Task) (all_done : bool) : outcome (Engine * Task) :=
  e ← (if all_done then End_ k e else Ret e);
  Ret (e, Done_ t).

(** [src/src/zlib/unzip_task.cc 98-119, UnzipTask::OnWorkTick] *)
Definition Unzip_error (st : status) : option ZError :=
  match st with
  | Z_STREAM_ERROR => Some UnexpectedEof
  | Z_NEED_DICT => Some (CallFailed Z_DATA_ERROR)
  | Z_DATA_ERROR | Z_MEM_ERROR => Some (CallFailed st)
  | _ => None
  end.

(** [src/src/zlib/unzip_task.cc 67-159, UnzipTask::OnWorkTick] *)
Definition Unzip_OnWorkTick (e : Engine) (t : Task) : outcome (Engine * Task) :=
  if finished e then Ret (e, Fail_ t AlreadyDone)
  else if errored e then Ret (e, Fail_ t AlreadyFailed)
  else
    let '(e, t) := if prepared t then (e, t) else Prepare e t in
    let '(s, st, produced) := call Unzip (stream e) (flush_mode t) in
    let e := set_stream e s in
    match Unzip_error st with
    | Some err => Ret (e, Fail_ t err)
    | None =>
        t ← ConcatChunkToResult t produced;
        if decide (st = Z_STREAM_END) then Done Unzip e t true
        else if (length produced <? pagesize)%nat then Done Unzip e t false
        else CHECK (bool_decide (st = Z_OK));; Ret (e, t)
    end.

(** [src/src/zlib/zip_task.cc 90-110, ZipTask::OnWorkTick] *)
Definition Zip_error (st : status) : option ZError :=
  match st with
  | Z_STREAM_ERROR => Some UnexpectedEof
  | Z_BUF_ERROR | Z_DATA_ERROR | Z_MEM_ERROR => Some (CallFailed st)
  | _ => None
  end.

(** [src/src/zlib/zip_task.cc 59-141, ZipTask::OnWorkTick] *)
Definition Zip_OnWorkTick (e : Engine) (t : Task) : outcome (Engine * Task) :=
  if finished e then Ret (e, Fail_ t AlreadyDone)
  else if errored e then Ret (e, Fail_ t AlreadyFailed)
  else
    let '(e, t) := if prepared t then (e, t) else Prepare e t in
    let '(s, st, produced) := call Zip (stream e) (flush_mode t) in
    let e := set_stream e s in
    match Zip_error st with
    | Some err => Ret (e, Fail_ t err)
    | None =>
        t ← ConcatChunkToResult t produced;
        if decide (st = Z_STREAM_END /\ flush_mode t = Z_FINISH) then Done Zip e t true
        else if (length produced <? pagesize)%nat then Done Zip e t false
        else CHECK (bool_decide (st = Z_OK));; Ret (e, t)
    end.

Definition OnWorkTick (k : Kind) : Engine -> Task -> outcome (Engine * Task) :=
  match k with Unzip => Unzip_OnWorkTick | Zip => Zip_OnWorkTick end.

Definition over (t : Task) : bool := t_done t || match t_error t with Some _ => true | None => false end.

(** [src/src/zlib/unzip.cc 193-195, UnzipWrapper::Push] The loop that ticks a task
    until it is done or failed; also lines 170-172, and in zip.cc. *)
Fixpoint run_task (fuel : nat) (k : Kind) (e : Engine) (t : Task) : outcome (Engine * Task) :=
  if over t then Ret (e, t)
  else match fuel with
       | O => Fault OutOfFuel
       | S fuel => '(e, t) ← OnWorkTick k e t; run_task fuel k e t
       end.

(** ** Callbacks *)

(** [src/src/zlib/zlib_wrapper.cc 244-252, ZlibWrapper::ClearTaskCallback] *)
Definition ClearTaskCallback (w : Wrapper) (key : nat) : Wrapper :=
  set_calls w (delete key (callback_map w)) (immediate w) (called w).

(** [src/src/zlib/zlib_wrapper.cc 203-214, ZlibWrapper::ReturnEmptyResultSyncOrAsync] *)
Definition ReturnEmptyResultSyncOrAsync (w : Wrapper) (callback : nat) (t : Task)
    : Wrapper * PushResult :=
  if is_sync w then (ClearTaskCallback w (tid t), RBuffer [])
  else
    let w := set_calls w (callback_map w) (immediate w ++ [callback]) (called w) in
    (ClearTaskCallback w (tid t), RNone).

(** [src/src/zlib/zlib_wrapper.cc 216-223, ZlibWrapper::TryTriggerNextTask] *)
Definition TryTriggerNextTask (w : Wrapper) : Wrapper :=
  match task_queue w with
  | t :: q => set_queues w q (macro w ++ [t])
  | [] => set_engine w (set_running (engine w) false)
  end.

(** [src/src/zlib/zlib_wrapper.cc 225-242, ZlibWrapper::DoTaskCallback] *)
Definition DoTaskCallback (w : Wrapper) (key : nat) (res : CallResult) : Wrapper :=
  match callback_map w !! key with
  | None => w
  | Some None => ClearTaskCallback w key
  | Some (Some callback) =>
      let w := ClearTaskCallback w key in
      set_calls w (callback_map w) (immediate w) (called w ++ [(callback, res)])
  end.

(** ** Push *)

(** The arguments of [push]: the bytes, the flush mode and the callback. *)
Record PushArgs := mkPush { p_data : bytes; p_flush : Z; p_callback : nat }.

(** [src/src/zlib/zlib_task.cc 22-41, ZlibTask::ZlibTask] *)
Definition new_task (w : Wrapper) (a : PushArgs) : Wrapper * Task :=
  (mkWrapper (type w) (is_sync w) (window_bits w) (options w) (engine w) (first_two w) (head_task w)
     (task_queue w) (callback_map w) (offered w ++ [p_callback a]) (macro w) (immediate w) (called w),
   mkTask (length (offered w)) (p_data a) (p_flush a) false [] false None).

(** [src/src/zlib/unzip.cc 228-232, UnzipWrapper::Push] The first queued task is
    handed to the macro task queue unless one is running. *)
Definition start_if_idle (w : Wrapper) : Wrapper :=
  if running (engine w) then w
  else
    let w := set_engine w (set_running (engine w) true) in
    match task_queue w with
    | t :: q => set_queues w q (macro w ++ [t])
    | [] => w
    end.
(** [src/src/zlib/unzip.cc 222-232, UnzipWrapper::Push] The end of both [Push]
    functions: the callback is stored and the tasks are queued. *)
Definition enqueue (w : Wrapper) (ts : list Task) (key callback : nat) : Wrapper :=
  let w := set_calls w (<[key := Some callback]> (callback_map w)) (immediate w) (called w) in
  start_if_idle (set_queues w (task_queue w ++ ts) (macro w)).

(** [src/src/zlib/unzip.cc 93-137, UnzipWrapper::Push] The sniffing of the first
    two bytes; [true] when the task is kept for later. *)
Definition sniff (w : Wrapper) (t : Task) : outcome (Wrapper * bool) :=
  let second w nread :=
    b ← match input t !! nread with Some b => Ret b | None => Fault OutOfBounds end;
    Ret (set_type w (if decide (b = x8b) then GUNZIP else INFLATE) kSecondParsed, false) in
  match first_two w with
  | kNonParsed =>
      b ← match input t !! 0%nat with Some b => Ret b | None => Fault OutOfBounds end;
      if decide (b = x1f) then
        let w := set_type w UNZIP kFirstParsed in
        if (length (input t) =? 1)%nat then Ret (set_head w (Some t), true)
        else second w 1%nat
      else Ret (set_type w INFLATE kNonParsed, false)
  | kFirstParsed => second w 0%nat
  | kSecondParsed => Fault CheckFailed
  end.

(** [src/src/zlib/unzip.cc 197-198, UnzipWrapper::Push] Errors of a synchronous
    push: the wrapper fails unless it already ended. *)
Definition fail_sync (k : Kind) (e : Engine) (err : ZError) : outcome Engine :=
  if ended e then Ret e else OccurError k e err.

(** [src/src/zlib/unzip.cc 193-211, UnzipWrapper::Push] *)
Definition run_last (fuel : nat) (w : Wrapper) (t : Task) (result : bytes -> PushResult)
    : outcome (Wrapper * PushResult) :=
  '(e, t) ← run_task fuel (kind w) (engine w) t;
  match t_error t with
  | Some err => e ← fail_sync (kind w) e err; Ret (set_engine w e, RThrow (Some err))
  | None => Ret (set_engine w e, result (out t))
  end.

(** [src/src/zlib/unzip.cc 144-220, UnzipWrapper::Push] The synchronous part. *)
Definition Unzip_sync (fuel : nat) (w : Wrapper) (t : Task) : outcome (Wrapper * PushResult) :=
  match head_task w with
  | Some h =>
      '(e, h) ← run_task fuel (kind w) (engine w) h;
      let w := set_head (set_engine w e) None in
      match t_error h with
      | Some err => e ← OccurError (kind w) e err; Ret (set_engine w e, RThrow (t_error t))
      | None => run_last fuel w t (RPair (out t))
      end
  | None => run_last fuel w t RBuffer
  end.

(** [src/src/zlib/unzip.cc 72-235, UnzipWrapper::Push] *)
Definition Unzip_Push (fuel : nat) (w : Wrapper) (a : PushArgs) : outcome (Wrapper * PushResult) :=
  let '(w, t) := new_task w a in
  if (length (input t) =? 0)%nat then Ret (ReturnEmptyResultSyncOrAsync w (p_callback a) t)
  else
    '(w, parked) ← match type w with TUnzip UNZIP => sniff w t | _ => Ret (w, false) end;
    if (parked : bool) then Ret (ReturnEmptyResultSyncOrAsync w (p_callback a) t)
    else
      let '(w, ok) := if inited (engine w) then (w, true) else Init w in
      if negb ok then Ret (w, RInitFailed)
      else if is_sync w then Unzip_sync fuel w t
      else
        let ts := match head_task w with Some h => [h; t] | None => [t] end in
        Ret (enqueue (set_head w None) ts (tid t) (p_callback a), RNone).

(** [src/src/zlib/zip.cc 111-170, ZipWrapper::Push] *)
Definition Zip_Push (fuel : nat) (w : Wrapper) (a : PushArgs) : outcome (Wrapper * PushResult) :=
  let '(w, t) := new_task w a in
  if ((length (input t) =? 0)%nat && negb (p_flush a =? Z_FINISH))%bool
  then Ret (ReturnEmptyResultSyncOrAsync w (p_callback a) t)
  else
    let '(w, ok) := if inited (engine w) then (w, true) else Init w in
    if negb ok then Ret (w, RInitFailed)
    else if is_sync w then run_last fuel w t RBuffer
    else Ret (enqueue w [t] (tid t) (p_callback a), RNone).

Definition Push (fuel : nat) (w : Wrapper) (a : PushArgs) : outcome (Wrapper * PushResult) :=
  match type w with TUnzip _ => Unzip_Push fuel w a | TZip _ => Zip_Push fuel w a end.

(** [src/src/zlib/unzip.cc 36-41, UnzipWrapper::~UnzipWrapper] *)
Definition Unzip_destroy (w : Wrapper) : outcome Wrapper :=
  let e := engine w in
  if (inited e && negb (ended e))%bool then
    s ← DoZlibEnd Unzip (stream e);
    Ret (set_engine w (mkEngine s (running e) (errored e) (finished e) (error e) (inited e) true))
  else Ret w.

(** [src/src/zlib/zip.cc 64-75, ZipWrapper::~ZipWrapper] *)
Definition Zip_destroy (w : Wrapper) : outcome Wrapper :=
  let e := engine w in
  w ← (if (inited e && negb (ended e))%bool then
         s ← DoZlibEnd Zip (stream e);
         Ret (set_engine w (mkEngine s (running e) (errored e) (finished e) (error e) (inited e) true))
       else Ret w);
  Ret (set_calls w ∅ (immediate w) (called w)).

Definition destroy (w : Wrapper) : outcome Wrapper :=
  match type w with TUnzip _ => Unzip_destroy w | TZip _ => Zip_destroy w end.

(** ** The event loop *)

Fixpoint push_all (fuel : nat) (w : Wrapper) (l : list PushArgs) : outcome (Wrapper * list PushResult) :=
  match l with
  | [] => Ret (w, [])
  | a :: l => '(w, r) ← Push fuel w a; '(w, rs) ← push_all fuel w l; Ret (w, r :: rs)
  end.

(** [src/src/zlib/zlib_task.cc 47-73, ZlibTask::OnDone] [js] are the pushes the
    callback makes before it returns. *)
Definition OnDone (fuel : nat) (w : Wrapper) (t : Task) (js : list PushArgs) : outcome Wrapper :=
  w ← match t_error t with
      | Some err =>
          e ← (if ended (engine w) then Ret (engine w) else OccurError (kind w) (engine w) err);
          Ret (DoTaskCallback (set_engine w e) (tid t) (Failed err))
      | None => Ret (DoTaskCallback w (tid t) (Buffer (out t)))
      end;
  '(w, _) ← push_all fuel w js;
  Ret (TryTriggerNextTask w).

(** One tick of the macro task queue that meets a task of this wrapper: the
    first of them (macro_task_queue.cc, TickMacroTaskQueue). *)
Definition tick (fuel : nat) (w : Wrapper) (js : list PushArgs) : outcome Wrapper :=
  match macro w with
  | [] => Ret w
  | t :: m =>
      let w := set_queues w (task_queue w) m in
      '(e, t) ← OnWorkTick (kind w) (engine w) t;
      let w := set_engine w e in
      if over t then OnDone fuel w t js
      else Ret (set_queues w (task_queue w) (macro w ++ [t]))
  end.

(** JavaScript calls [push], or a task of the wrapper gets a tick. *)
Inductive ZEvent := ZPush (a : PushArgs) | ZTick (js : list PushArgs).

Definition zstep (fuel : nat) (w : Wrapper) (ev : ZEvent) : outcome Wrapper :=
  match ev with
  | ZPush a => '(w, _) ← Push fuel w a; Ret w
  | ZTick js => tick fuel w js
  end.

Fixpoint zrun (fuel : nat) (w : Wrapper) (es : list ZEvent) : outcome Wrapper :=
  match es with
  | [] => Ret w
  | ev :: es => w ← zstep fuel w ev; zrun fuel w es
  end.

End zlib.
Arguments Stream : clear implicits.
Arguments Engine : clear implicits.
Arguments Wrapper : clear implicits.

(** * What zlib promises (zlib.h)

    An end call on a state succeeds or says that data was discarded.  A call
    consumes at most its input and produces at most the room; deflate ends a
    stream only when asked to finish.  The output still to come from a state and
    its input is bounded, as long as a call has more than six bytes of room (a
    flush marker is repeated otherwise).  One byte of input is not a whole header.

    Two laws hold for the plain flush modes only: a call that leaves room and
    does not end or fail has consumed all input, and a buffer error of inflate
    means that nothing could be done.  Inflate with Z_FINISH answers Z_BUF_ERROR
    also when the output filled the room, and Z_BLOCK and Z_TREES stop at the
    boundary of a block or of a header with input left. *)

(** inflate: Z_NO_FLUSH and Z_SYNC_FLUSH; deflate: from Z_NO_FLUSH to Z_FINISH. *)
Definition plain_flush (k : Kind) (f : Z) : bool :=
  match k with
  | Unzip => (f =? Z_NO_FLUSH) || (f =? Z_SYNC_FLUSH)
  | Zip => (Z_NO_FLUSH <=? f) && (f <=? Z_FINISH)
  end.

Class ZlibLaws (St : Type) `{Zlib St} := {
  zrem : Kind -> St -> bytes -> Z -> nat;
  zend_ok k s : zend k s = Z_OK \/ zend k s = Z_DATA_ERROR;
  zcall_bounds k s i n f s' ret c o :
    zcall k s i n f = (s', ret, c, o) -> (c <= length i)%nat /\ (length o <= n)%nat;
  zcall_consumes k s i n f s' ret c o :
    zcall k s i n f = (s', ret, c, o) -> ret = Z_OK \/ ret = Z_BUF_ERROR ->
    plain_flush k f = true -> (length o < n)%nat -> c = length i;
  zcall_codes k s i n f s' ret c o :
    zcall k s i n f = (s', ret, c, o) ->
    ret <> Z_ERRNO /\ ret <> Z_VERSION_ERROR /\
    (k = Unzip -> plain_flush k f = true -> ret = Z_BUF_ERROR -> o = []) /\
    (k = Zip -> ret <> Z_NEED_DICT /\ (ret = Z_STREAM_END -> f = Z_FINISH));
  zcall_rem k s i n f s' ret c o :
    zcall k s i n f = (s', ret, c, o) -> (6 < n)%nat ->
    (length o + zrem k s' (drop c i) f <= zrem k s i f)%nat;
  zcall_header wb opt s n f s' ret c o :
    zinit Unzip wb opt = Some s -> zcall Unzip s [x1f] n f = (s', ret, c, o) -> o = [] }.

Section theorems.
Context {St : Type} `{Zlib St} {laws : ZlibLaws St} (pagesize : nat) (page_ok : (6 < pagesize)%nat).

Implicit Types (e : Engine St) (t : Task) (w : Wrapper St) (s : Stream St).

(** ** One tick *)

Definition live e : Prop :=
  inited e = true /\ ended e = false /\ finished e = false /\ errored e = false /\
  is_Some (z_state (stream e)).
Definition dead e : Prop := inited e = true /\ ended e = true /\ (finished e || errored e)%bool = true.

(** What the task works on next. *)
Definition rest e t : bytes := if prepared t then z_avail_in (stream e) else input t.

Definition error_of (k : Kind) : status -> option ZError :=
  match k with Unzip => Unzip_error | Zip => Zip_error end.
Definition ends (k : Kind) (st : status) (f : Z) : bool :=
  match k with
  | Unzip => bool_decide (st = Z_STREAM_END)
  | Zip => bool_decide (st = Z_STREAM_END /\ f = Z_FINISH)
  end.

(** How a tick on a live stream can go: it fails, ends the stream, finishes the
    input, or fills the chunk buffer and goes on. *)
Inductive tick_result (k : Kind) (e : Engine St) (t : Task) : Engine St -> Task -> Prop :=
  | tick_fails e' t' err :
      live e' -> running e' = running e -> t_error t' = Some err -> tick_result k e t e' t'
  | tick_ends e' t' o :
      dead e' -> finished e' = true -> errored e' = false ->
      t_done t' = true -> t_error t' = None -> out t' = out t ++ o ->
      z_made (stream e') = z_made (stream e) ++ o -> tick_result k e t e' t'
  | tick_consumes e' t' o :
      live e' -> running e' = running e ->
      t_done t' = true -> t_error t' = None -> out t' = out t ++ o ->
      z_made (stream e') = z_made (stream e) ++ o -> z_avail_in (stream e') = [] ->
      tick_result k e t e' t'
  | tick_continues e' t' o (st st' : St) :
      live e' -> running e' = running e ->
      prepared t' = true -> over t' = false -> out t' = out t ++ o ->
      z_made (stream e') = z_made (stream e) ++ o -> length o = pagesize ->
      z_state (stream e) = Some st -> z_state (stream e') = Some st' ->
      (length o + zrem k st' (rest e' t') (flush_mode t) <= zrem k st (rest e t) (flush_mode t))%nat ->
      tick_result k e t e' t'.

Lemma OnWorkTick_live k e t :
  live e ->
  OnWorkTick pagesize k e t =
    let '(e, t) := if prepared t then (e, t) else Prepare e t in
    let '(s, st, produced) := call pagesize k (stream e) (flush_mode t) in
    let e := set_stream e s in
    match error_of k st with
    | Some err => Ret (e, Fail_ t err)
    | None =>
        t ← ConcatChunkToResult pagesize t produced;
        if ends k st (flush_mode t) then Done k e t true
        else if (length produced <? pagesize)%nat then Done k e t false
        else CHECK (bool_decide (st = Z_OK));; Ret (e, t)
    end.
Proof.
  intros (_ & _ & Hf & He & _).
  destruct k; simpl; unfold Unzip_OnWorkTick, Zip_OnWorkTick; rewrite Hf, He;
    destruct (if prepared t then _ else _) as [e1 t1];
    destruct (call _ _ _ _) as [[s st] o]; simpl; destruct st; simpl; try done;
    unfold ConcatChunkToResult, CHECK; destruct (_ <=? _)%nat; simpl; try done;
    repeat case_decide; simpl; repeat case_bool_decide; tauto.
Qed.

Lemma DoZlibEnd_live k s : is_Some (z_state s) ->
  DoZlibEnd k s = Ret (mkStream None (z_avail_in s) (z_fed s) (z_made s)).
Proof.
  intros [st Hst]. unfold DoZlibEnd. rewrite Hst.
  rewrite bool_decide_true by apply zend_ok. done.
Qed.

Record tick_frame (k : Kind) e t e' t' : Prop := {
  tf_tid : tid t' = tid t;
  tf_flush : flush_mode t' = flush_mode t;
  tf_fed : z_fed (stream e') ++ z_avail_in (stream e') = z_fed (stream e) ++ rest e t;
  tf_call : exists st st' ret c o, z_state (stream e) = Some st /\
    zcall k st (rest e t) pagesize (flush_mode t) = (st', ret, c, o) /\
    z_made (stream e') = z_made (stream e) ++ o }.

Lemma prepare_spec e t :
  live e -> over t = false ->
  exists e1 t1 st, (if prepared t then (e, t) else Prepare e t) = (e1, t1) /\
    stream e1 = mkStream (Some st) (rest e t) (z_fed (stream e)) (z_made (stream e)) /\
    z_state (stream e) = Some st /\ live e1 /\ running e1 = running e /\
    t1 = mkTask (tid t) (input t) (flush_mode t) true (out t) false None.
Proof.
  intros (? & ? & ? & ? & [st Hst]) Ho. unfold over in Ho. apply orb_false_iff in Ho as [Hdone Herr].
  assert (t_error t = None) as Herr' by (by destruct (t_error t)).
  assert (is_Some (Some st)) by eauto.
  unfold rest. destruct e as [[] ? ? ? ? ? ?], t; simpl in *; subst.
  destruct prepared0; eexists _, _, _; split_and!; repeat split; simpl; done.
Qed.

(** The codes that are not failures. *)
Lemma ok_codes k i n f (st st' : St) ret c o :
  zcall k st i n f = (st', ret, c, o) -> plain_flush k f = true ->
  error_of k ret = None -> ends k ret f = false ->
  ret = Z_OK \/ ret = Z_BUF_ERROR /\ o = [].
Proof.
  intros Hc Hpl Her Hen. destruct (zcall_codes _ _ _ _ _ _ _ _ _ Hc) as (? & ? & Hbuf & Hzip).
  destruct k, ret; simpl in *; try done; auto; try tauto; case_bool_decide; naive_solver.
Qed.

(** The tasks the theorems are about: not over yet, with a plain flush mode. *)
Definition todo (k : Kind) t : Prop := over t = false /\ plain_flush k (flush_mode t) = true.

Lemma OnWorkTick_spec k e t :
  live e -> todo k t ->
  exists e' t', OnWorkTick pagesize k e t = Ret (e', t') /\ tick_frame k e t e' t' /\ tick_result k e t e' t'.
Proof.
  intros Hl [Ho Hpl]. rewrite OnWorkTick_live by done.
  destruct (prepare_spec e t Hl Ho) as (e1 & t1 & st & -> & Hs1 & Hst & Hl1 & Hr & ->).
  unfold call. rewrite Hs1. cbn [z_state z_avail_in z_fed z_made flush_mode].
  destruct (zcall _ _ _ _ _) as [[[st' ret] c] o] eqn:Hc.
  destruct (zcall_bounds _ _ _ _ _ _ _ _ _ Hc) as [Hc1 Hc2].
  pose proof (ok_codes _ _ _ _ _ _ _ _ _ Hc Hpl) as Hok.
  set (e2 := set_stream e1 _).
  assert (live e2) as Hl2 by (destruct Hl1 as (? & ? & ? & ? & ?); unfold live, e2; simpl; eauto 10).
  assert (Hfr : forall e' t', z_fed (stream e') = z_fed (stream e2) ->
    z_avail_in (stream e') = z_avail_in (stream e2) -> z_made (stream e') = z_made (stream e2) ->
    tid t' = tid t -> flush_mode t' = flush_mode t -> tick_frame k e t e' t').
  { intros e' t' H1 H2 H3 ? ?; split; try done; rewrite ?H1, ?H2, ?H3; simpl; [by rewrite <- (assoc_L (++)), take_drop|].
    by eexists _, _, _, _, _. }
  destruct (error_of k ret) as [err|] eqn:Herk.
  { eexists _, _. split; [done|]. split; [by apply Hfr|]. by eapply tick_fails. }
  unfold ConcatChunkToResult. destruct (Nat.leb_spec (length o) pagesize); [simpl|lia].
  destruct (ends k ret (flush_mode t)) eqn:Hends.
  { unfold Done, End_. rewrite DoZlibEnd_live by (simpl; eauto). destruct Hl2 as (? & ? & ? & ? & ?).
    simpl. eexists _, _. split; [done|]. split; [by apply Hfr|]. by eapply (tick_ends _ _ _ _ _ o). }
  specialize (Hok eq_refl eq_refl).
  destruct (Nat.ltb_spec (length o) pagesize) as [Hlt|Hge].
  { simpl. eexists _, _. split; [done|]. split; [by apply Hfr|].
    eapply (tick_consumes _ _ _ _ _ o); try done; simpl.
    rewrite (zcall_consumes _ _ _ _ _ _ _ _ _ Hc); [by rewrite drop_all|tauto|done|lia]. }
  destruct Hok as [-> | [_ ->]]; [|simpl in Hge; lia].
  simpl. eexists _, _. split; [done|]. split; [by apply Hfr|].
  eapply (tick_continues _ _ _ _ _ o st st'); try done; simpl; [lia|].
  apply (zcall_rem _ _ _ _ _ _ _ _ _ Hc page_ok).
Qed.

(** ** Running a task to its end *)

Record run_result e t e' t' : Prop := {
  rr_tid : tid t' = tid t;
  rr_running : live e' -> running e' = running e;
  rr_fed : z_fed (stream e') ++ z_avail_in (stream e') = z_fed (stream e) ++ rest e t;
  rr_made : z_made (stream e) `prefix_of` z_made (stream e');
  rr_over : over t' = true;
  rr_case :
    (exists err, t_error t' = Some err /\ live e') \/
    (t_error t' = None /\
     (exists o, out t' = out t ++ o /\ z_made (stream e') = z_made (stream e) ++ o) /\
     (dead e' /\ finished e' = true /\ errored e' = false \/ live e' /\ z_avail_in (stream e') = [])) }.

Lemma live_not_dead e : live e -> dead e -> False.
Proof. intros (_ & Hd & _) (_ & Hd' & _). congruence. Qed.

(** The end of a task in one tick. *)
Lemma tick_over k e t e' t' :
  tick_frame k e t e' t' -> tick_result k e t e' t' -> over t' = true -> run_result e t e' t'.
Proof.
  intros [Ht _ Hf (st & st' & ret & c & o & _ & _ & Hm)] Hres Hov.
  split; try done; [|by rewrite Hm; apply prefix_app_r|].
  - intros Hl. inversion Hres; subst; try done. exfalso. eauto using live_not_dead.
  - inversion Hres; subst; try congruence; [left|right..]; eauto 10.
Qed.

(** Continuing after a tick that filled the chunk buffer. *)
Lemma tick_then k e t e1 t1 e' t' :
  tick_frame k e t e1 t1 -> tick_result k e t e1 t1 -> over t1 = false ->
  run_result e1 t1 e' t' -> run_result e t e' t'.
Proof.
  intros [Ht _ Hf _] Hres Hov [Ht' Hr' Hf' Hm' Ho' Hc].
  inversion Hres as [? ? err Hl1 ? Herr|? ? ? ? ? ? Hd|? ? ? ? ? Hd|? ? o st st' Hl1 Hrun Hp Ho Hout Hmade];
    subst; try (unfold over in Hov; rewrite ?Herr, ?Hd in Hov; by destruct (t_done t1)).
  unfold rest at 1 in Hf'. rewrite Hp in Hf'.
  split; try congruence; [intros; rewrite Hr'; congruence| |].
  - etrans; [|done]. rewrite Hmade. by apply prefix_app_r.
  - destruct Hc as [Hc|(He & (o' & Ho1 & Ho2) & Hc)]; [by left|right]. split_and!; try done.
    exists (o ++ o'). rewrite Ho1, Ho2, Hout, Hmade. by rewrite !(assoc_L (++)).
Qed.

Lemma run_task_live k e t :
  live e -> todo k t ->
  exists e' t' N, (forall fuel, (N <= fuel)%nat -> run_task pagesize fuel k e t = Ret (e', t')) /\
    run_result e t e' t'.
Proof.
  intros Hl. pose proof Hl as (_ & _ & _ & _ & [st Hst]).
  remember (zrem k st (rest e t) (flush_mode t)) as n eqn:Hn.
  revert e t st Hl Hst Hn. induction (lt_wf n) as [n _ IH]. intros e t st Hl Hst Hn Htd.
  pose proof Htd as [Ho Hpl].
  destruct (OnWorkTick_spec k e t Hl Htd) as (e1 & t1 & Heq & Hfr & Hres).
  destruct (over t1) eqn:Ho1.
  - exists e1, t1, 1%nat. split; [|by eapply tick_over]. intros [|fuel] ?; [lia|]. simpl. rewrite Ho, Heq.
    simpl. destruct fuel; simpl; by rewrite Ho1.
  - inversion Hres as [? ? err Hl1 ? Herr|? ? ? ? ? ? Hd|? ? ? ? ? Hd|? ? o st0 st' Hl1 Hrun Hp _ Hout Hmade Hlen Hst0 Hst' Hrem];
      subst; try (unfold over in Ho1; rewrite ?Herr, ?Hd in Ho1; by destruct (t_done t1)).
    simplify_eq. rewrite <- (tf_flush _ _ _ _ _ Hfr) in Hrem at 1.
    destruct (IH (zrem k st' (rest e1 t1) (flush_mode t1)) ltac:(lia) e1 t1 st' Hl1 Hst' eq_refl) as (e' & t' & N & Hrun' & Hr').
    { split; [done|]. by rewrite (tf_flush _ _ _ _ _ Hfr). }
    exists e', t', (S N). split; [|by eapply tick_then].
    intros [|fuel] ?; [lia|]. simpl. rewrite Ho, Heq. simpl. apply Hrun'. lia.
Qed.

Definition already e : ZError := if finished e then AlreadyDone else AlreadyFailed.

Lemma OnWorkTick_dead k e t :
  dead e -> OnWorkTick pagesize k e t = Ret (e, Fail_ t (already e)).
Proof.
  intros (_ & _ & Hfe). unfold already.
  destruct k; simpl; unfold Unzip_OnWorkTick, Zip_OnWorkTick; destruct (finished e), (errored e); done.
Qed.

Lemma over_Fail t err : over (Fail_ t err) = true.
Proof. unfold over. simpl. by destruct (t_done t). Qed.

Lemma run_task_dead fuel k e t :
  dead e -> over t = false -> (1 <= fuel)%nat ->
  run_task pagesize fuel k e t = Ret (e, Fail_ t (already e)).
Proof.
  intros Hd Ho Hf. destruct fuel as [|fuel]; [lia|]. simpl.
  rewrite Ho, OnWorkTick_dead by done. simpl. destruct fuel; simpl; by rewrite over_Fail.
Qed.

(** ** Synchronous pushes *)

Section of_kind.
(** The kind of the wrapper, which no operation changes. *)
Context (K : Kind).

(** The stream can be created, with and without a gzip header. *)
Definition inits (k : Kind) (wb : Z) (opt : Z * Z * Z) : Prop :=
  is_Some (zinit k wb opt) /\ is_Some (zinit k (wb + 16) opt).

(** No call of zlib has been made yet. *)
Definition blank e : Prop :=
  e = mkEngine (mkStream None [] [] []) (running e) false false None false false.

Definition fresh (t : Task) : Prop :=
  prepared t = false /\ out t = [] /\ t_done t = false /\ t_error t = None /\
  plain_flush K (flush_mode t) = true.

(** The first byte of a stream of unknown type waits in [head_task]. *)
Definition sniffing w : Prop :=
  match first_two w, head_task w with
  | kNonParsed, None => True
  | kFirstParsed, Some h => fresh h /\ input h = [x1f]
  | _, _ => False
  end.

Definition parked w : bytes := match head_task w with Some h => input h | None => [] end.

(** [ins] has been handed to the stream and [outs] returned. *)
Definition engine_inv e (ins outs : bytes) : Prop :=
  (live e /\ ins = z_fed (stream e) /\ outs = z_made (stream e) /\ z_avail_in (stream e) = []) \/
  (dead e /\ z_fed (stream e) `prefix_of` ins /\ outs `prefix_of` z_made (stream e) /\
   (errored e = false -> outs = z_made (stream e))).

Definition result_bytes (r : PushResult) : bytes :=
  match r with RBuffer b => b | RPair b1 b2 => b1 ++ b2 | _ => [] end.

Lemma fresh_over t : fresh t -> over t = false.
Proof. intros (_ & _ & Hd & He & _). unfold over. by rewrite Hd, He. Qed.

Lemma fresh_todo t : fresh t -> todo K t.
Proof. intros Hf. split; [by apply fresh_over|]. by destruct Hf as (_ & _ & _ & _ & ?). Qed.

Lemma OccurError_live k e err : live e ->
  exists e', OccurError k e err = Ret e' /\ dead e' /\ errored e' = true /\
    z_fed (stream e') = z_fed (stream e) /\ z_made (stream e') = z_made (stream e).
Proof.
  intros (Hi & _ & _ & _ & Hs). unfold OccurError. rewrite DoZlibEnd_live by done. simpl.
  eexists. split; [done|]. unfold dead. simpl. rewrite orb_true_r. done.
Qed.

Lemma live_not_ended e : live e -> ended e = false.
Proof. by intros (_ & ? & _). Qed.

Lemma run_last_inv w t result ins outs :
  kind w = K -> engine_inv (engine w) ins outs -> fresh t -> (forall b, result_bytes (result b) = b) ->
  exists e' r N, (forall fuel, (N <= fuel)%nat ->
      run_last pagesize fuel w t result = Ret (set_engine w e', r)) /\
    engine_inv e' (ins ++ input t) (outs ++ result_bytes r).
Proof.
  intros Hk Hinv Hfr Hres. pose proof Hfr as (Hp & Hout & _). unfold run_last. rewrite Hk.
  destruct Hinv as [(Hl & -> & -> & Ha)|(Hd & Hfed & Hmade & Herr)].
  - destruct (run_task_live K _ t Hl (fresh_todo _ Hfr)) as (e1 & t1 & N & Hrun & [_ _ Hf Hm _ Hcase]).
    unfold rest in Hf. rewrite Hp in Hf.
    destruct Hcase as [(err & He & Hl1)|(He & (o & Ho & Hmo) & Hcase)].
    + destruct (OccurError_live K e1 err Hl1) as (e2 & Heq & Hd & Her & Hf2 & Hm2).
      exists e2, (RThrow (Some err)), N. split.
      * intros fuel Hfu. rewrite Hrun by done. simpl. rewrite He. unfold fail_sync.
        rewrite (live_not_ended e1 Hl1), Heq. done.
      * right. rewrite Hf2, Hm2, Her, <- Hf. simpl. rewrite app_nil_r.
        split_and!; try done. by apply prefix_app_r.
    + exists e1, (result (out t1)), N. split.
      * intros fuel Hfu. rewrite Hrun by done. simpl. by rewrite He.
      * rewrite Hres, Ho, Hout, <- Hf. simpl. destruct Hcase as [(Hd & Hfi & Her)|(Hl1 & Ha1)].
        -- right. rewrite Hmo. split_and!; try done. by apply prefix_app_r.
        -- left. rewrite Hmo, Ha1, app_nil_r. done.
  - exists (engine w), (RThrow (Some (already (engine w)))), 1%nat. split.
    + intros fuel Hfu. rewrite run_task_dead by auto using fresh_over. simpl.
      unfold fail_sync. destruct Hd as (_ & -> & _). done.
    + right. simpl. rewrite app_nil_r. split_and!; try done. by apply prefix_app_r.
Qed.

(** A parked first byte is consumed in one tick and produces nothing. *)
Lemma run_head e h wb opt (st : St) :
  K = Unzip -> live e -> z_state (stream e) = Some st -> zinit Unzip wb opt = Some st ->
  fresh h -> input h = [x1f] ->
  exists e' h', (forall fuel, (1 <= fuel)%nat -> run_task pagesize fuel Unzip e h = Ret (e', h')) /\
    OnWorkTick pagesize Unzip e h = Ret (e', h') /\ over h' = true /\
    run_result e h e' h' /\ z_made (stream e') = z_made (stream e).
Proof.
  intros HK Hl Hst Hin Hfr Hi. pose proof (fresh_todo _ Hfr) as Htd. pose proof Hfr as (Hp & _).
  pose proof (fresh_over _ Hfr) as Ho. rewrite HK in Htd.
  destruct (OnWorkTick_spec Unzip e h Hl Htd) as (e1 & h1 & Heq & Hf & Hres).
  destruct (tf_call _ _ _ _ _ Hf) as (st0 & st' & ret & c & o & Hst0 & Hc & Hm).
  unfold rest in Hc. rewrite Hp, Hi in Hc. simplify_eq.
  apply (zcall_header wb opt) in Hc as ->; [|done]. rewrite app_nil_r in Hm.
  assert (over h1 = true) as Ho1.
  { inversion Hres as [? ? err ? ? Herr|? ? ? ? ? ? Hd|? ? ? ? ? Hd|? ? o ? ? ? ? ? ? ? Hm' Hlen]; subst;
      unfold over; rewrite ?Herr, ?Hd; try done; [by destruct (t_done h1)|].
    rewrite Hm in Hm'. apply (f_equal length) in Hm'. rewrite length_app in Hm'. lia. }
  exists e1, h1. split_and!; try done; [|by eapply tick_over].
  intros [|fuel] ?; [lia|]. cbn [run_task]. rewrite Ho, Heq. simpl. destruct fuel; simpl; by rewrite Ho1.
Qed.

(** [Init] on a blank wrapper. *)
Lemma Init_spec w :
  blank (engine w) -> inits (kind w) (window_bits w) (options w) ->
  exists st wb, zinit (kind w) wb (options w) = Some st /\
    Init w = (set_engine w (mkEngine (mkStream (Some st) [] [] []) (running (engine w)) false false None true false), true).
Proof.
  intros Hb [[s1 H1] [s2 H2]]. unfold Init, kind, kind_of in *.
  destruct (type w) as [ty|ty]; unfold Unzip_Init, Zip_Init; rewrite Hb; simpl.
  - case_bool_decide; simpl; [rewrite H2 | rewrite Z.add_0_r, H1]; eauto.
  - destruct ty; simpl; [rewrite H2 | rewrite Z.add_0_r, H1]; eauto.
Qed.

Lemma Unzip_sync_inv w t ins :
  fresh t -> kind w = K -> K = Unzip ->
  match head_task w with
  | Some h => fresh h /\ input h = [x1f] /\ ins = [x1f] /\
      live (engine w) /\ z_fed (stream (engine w)) = [] /\ z_made (stream (engine w)) = [] /\
      exists st wb opt, z_state (stream (engine w)) = Some st /\ zinit Unzip wb opt = Some st
  | None => True
  end ->
  forall outs, (head_task w = None -> engine_inv (engine w) ins outs) -> (head_task w <> None -> outs = []) ->
  exists e' r N, (forall fuel, (N <= fuel)%nat ->
      Unzip_sync pagesize fuel w t = Ret (set_engine (set_head w None) e', r)) /\
    engine_inv e' (ins ++ input t) (outs ++ result_bytes r).
Proof.
  intros Hfr HwK HK Hh outs Hinv Houts. pose proof (eq_trans HwK HK) as Hk. unfold Unzip_sync. destruct (head_task w) as [h|] eqn:Hhd.
  - destruct Hh as (Hfh & Hih & -> & Hl & Hf0 & Hm0 & st & wb & opt & Hst & Hin). rewrite (Houts ltac:(done)).
    destruct (run_head _ h _ _ _ HK Hl Hst Hin Hfh Hih) as (e1 & h1 & Hrun & _ & _ & [_ _ Hf _ _ Hcase] & Hm).
    rewrite Hk. unfold rest in Hf. pose proof Hfh as (Hp & _). rewrite Hp, Hih, Hf0 in Hf. simpl in Hf.
    rewrite Hm0 in Hm. destruct Hcase as [(err & He & Hl1)|(He & _ & Hcase)].
    + destruct (OccurError_live Unzip e1 err Hl1) as (e2 & Heq & Hd & Her & Hf2 & Hm2).
      exists e2, (RThrow (t_error t)), 1%nat. split.
      * intros fuel Hfu. rewrite Hrun by done. simpl. rewrite He. unfold kind. simpl. fold (kind w).
        rewrite Hk, Heq. done.
      * right. rewrite Hf2, Hm2, Hm, Her. split_and!; try done.
        apply prefix_app_r. rewrite <- Hf. by apply prefix_app_r.
    + destruct (run_last_inv (set_head (set_engine w e1) None) t (RPair (out t)) [x1f] []) as (e' & r & N & Hlast & Hi').
      { done. }
      { simpl. destruct Hcase as [(Hd & _ & Her)|(Hl1 & Ha)].
        - right. rewrite Hm. split_and!; try done. rewrite <- Hf. by apply prefix_app_r.
        - left. rewrite Ha, app_nil_r in Hf. done. }
      { done. }
      { intros b. simpl. destruct Hfr as (_ & -> & _). done. }
      exists e', r, (S N). split; [|done]. intros fuel Hfu. rewrite Hrun by lia. simpl. rewrite He.
      rewrite Hlast by lia. done.
  - destruct (run_last_inv w t RBuffer ins outs) as (e' & r & N & Hlast & Hi'); auto.
    exists e', r, N. split; [|done]. intros fuel Hfu. rewrite Hlast by done.
    destruct w; simpl in *; by subst.
Qed.

Lemma sniff_spec w t :
  sniffing w -> input t <> [] ->
  (first_two w = kNonParsed /\ input t = [x1f] /\
     sniff w t = Ret (set_head (set_type w UNZIP kFirstParsed) (Some t), true)) \/
  (exists ty f, ty <> UNZIP /\ sniff w t = Ret (set_type w ty f, false)).
Proof.
  unfold sniffing, sniff. intros Hs Ht.
  destruct (input t) as [|b [|b2 l]]; [done|..];
    destruct (first_two w), (head_task w) as [h|]; try done; simpl;
    repeat (case_decide; simpl); subst; auto; right; eexists _, _; (split; [|reflexivity]); done.
Qed.

(** The wrapper before a task runs: nothing happened yet, except perhaps the
    parking of the first byte, or the stream is in use. *)
Definition ready w (ins outs : bytes) : Prop :=
  (blank (engine w) /\ ins = parked w /\ outs = [] /\
   match head_task w with Some h => kind w = Unzip /\ fresh h /\ input h = [x1f] | None => True end) \/
  (head_task w = None /\ engine_inv (engine w) ins outs).

(** [if (!_inited && !Init())] *)
Definition ensure_init w : Wrapper St * bool := if inited (engine w) then (w, true) else Init w.

Lemma inited_engine_inv e ins outs : engine_inv e ins outs -> inited e = true.
Proof. by intros [((? & _) & _)|((? & _) & _)]. Qed.

Lemma ensure_init_ready w ins outs :
  ready w ins outs -> inits (kind w) (window_bits w) (options w) ->
  exists e, ensure_init w = (set_engine w e, true) /\
    (head_task w = None -> engine_inv e ins outs) /\
    (forall h, head_task w = Some h ->
       kind w = Unzip /\ fresh h /\ input h = [x1f] /\ ins = [x1f] /\ outs = [] /\
       live e /\ z_fed (stream e) = [] /\ z_made (stream e) = [] /\
       exists st wb, z_state (stream e) = Some st /\ zinit Unzip wb (options w) = Some st).
Proof.
  intros Hr Hi. unfold ensure_init. destruct Hr as [(Hb & -> & -> & Hh)|(Hh & He)].
  - destruct (Init_spec w Hb Hi) as (st & wb & Hst & ->). rewrite Hb. simpl. eexists. split; [done|].
    assert (is_Some (Some st)) by eauto. unfold parked. split.
    + intros ->. left. done.
    + intros h Hhd. rewrite Hhd in *. destruct Hh as (Hk & Hf & Hin). rewrite Hk in Hst.
      split_and!; try done. by exists st, wb.
  - rewrite (inited_engine_inv _ _ _ He). exists (engine w). split; [by destruct w|].
    split; [done|]. intros h. by rewrite Hh.
Qed.

(** What a synchronous push does once the type of the stream is known. *)
Lemma after_sniff_sync w t ins outs :
  kind w = K -> ready w ins outs -> inits (kind w) (window_bits w) (options w) -> fresh t ->
  exists w1 e' r N, ensure_init w = (w1, true) /\
    (forall fuel, (N <= fuel)%nat ->
      (match type w with TUnzip _ => Unzip_sync pagesize fuel w1 t | TZip _ => run_last pagesize fuel w1 t RBuffer end)
       = Ret (set_engine (set_head w None) e', r)) /\
    is_sync w1 = is_sync w /\
    engine_inv e' (ins ++ input t) (outs ++ result_bytes r).
Proof.
  intros HK Hr Hi Hf. destruct (ensure_init_ready w ins outs Hr Hi) as (e & Heq & Hnone & Hsome).
  destruct (type w) as [ty|ty] eqn:Hty.
  - destruct (Unzip_sync_inv (set_engine w e) t ins) with (outs := outs) as (e' & r & N & Hrun & Hinv).
    + done.
    + done.
    + rewrite <- HK. unfold kind. simpl. by rewrite Hty.
    + simpl. destruct (head_task w) as [h|] eqn:Hh; [|done].
      destruct (Hsome h eq_refl) as (? & ? & ? & ? & ? & ? & ? & ? & st & wb & ? & ?). split_and!; eauto.
    + done.
    + simpl. destruct (head_task w) as [h|] eqn:Hh; [|done]. by destruct (Hsome h eq_refl) as (? & ? & ? & ? & ? & ?).
    + exists (set_engine w e), e', r, N. split_and!; try done. 
  - destruct (head_task w) as [h|] eqn:Hh.
    { destruct (Hsome h eq_refl) as (Hk & _). unfold kind in Hk. by rewrite Hty in Hk. }
    destruct (run_last_inv (set_engine w e) t RBuffer ins outs) as (e' & r & N & Hrun & Hinv); auto.
    exists (set_engine w e), e', r, N. split_and!; try done.
    intros fuel Hfu. rewrite Hrun by done. destruct w; simpl in *; by subst.
Qed.

Record sync_inv w (ins outs : bytes) : Prop := {
  si_kind : kind w = K;
  si_sync : is_sync w = true;
  si_inits : inits (kind w) (window_bits w) (options w);
  si_state :
    (type w = TUnzip UNZIP /\ sniffing w /\ blank (engine w) /\ ins = parked w /\ outs = []) \/
    (type w <> TUnzip UNZIP /\ head_task w = None /\
     (blank (engine w) /\ ins = [] /\ outs = [] \/ engine_inv (engine w) ins outs)) }.

Lemma sync_inv_same w w' ins outs :
  sync_inv w ins outs ->
  type w' = type w -> is_sync w' = is_sync w -> window_bits w' = window_bits w -> options w' = options w ->
  engine w' = engine w -> first_two w' = first_two w -> head_task w' = head_task w ->
  sync_inv w' ins outs.
Proof.
  intros [HK Hs Hi Hst] Ht Hy Hw Ho He Hf Hh. split; unfold kind, sniffing, parked in *;
    rewrite ?Ht, ?Hy, ?Hw, ?Ho, ?He, ?Hf, ?Hh; done.
Qed.

Lemma sync_inv_run w e ins outs :
  kind w = K -> is_sync w = true -> inits (kind w) (window_bits w) (options w) -> type w <> TUnzip UNZIP ->
  engine_inv e ins outs -> sync_inv (set_engine (set_head w None) e) ins outs.
Proof. intros. split; [done..|]. right. auto. Qed.

(** A push once the empty and the parked cases are excluded. *)
Definition push_rest (fuel : nat) w (a : PushArgs) (t : Task) : outcome (Wrapper St * PushResult) :=
  let '(w, ok) := ensure_init w in
  if negb ok then Ret (w, RInitFailed)
  else if is_sync w then
    match type w with TUnzip _ => Unzip_sync pagesize fuel w t | TZip _ => run_last pagesize fuel w t RBuffer end
  else
    let ts := match head_task w with Some h => [h; t] | None => [t] end in
    Ret (enqueue (set_head w None) ts (tid t) (p_callback a), RNone).

Lemma type_ensure_init w : type (ensure_init w).1 = type w.
Proof. unfold ensure_init, Init. destruct (inited _), (type w) eqn:E; simpl; done. Qed.
Lemma head_ensure_init w : head_task (ensure_init w).1 = head_task w.
Proof. unfold ensure_init, Init. destruct (inited _), (type w) eqn:E; simpl; done. Qed.

Definition quiet (w : Wrapper St) (a : PushArgs) : bool :=
  match type w with
  | TUnzip _ => bool_decide (p_data a = [])
  | TZip _ => bool_decide (p_data a = [] /\ p_flush a <> Z_FINISH)
  end.

Lemma sniff_type w t w' b : sniff w t = Ret (w', b) -> exists ty, type w' = TUnzip ty.
Proof.
  unfold sniff. destruct (first_two w), (input t) as [|b1 [|b2 l]]; simpl; try done;
    repeat (case_decide; simpl); intros [= <- <-]; simpl; eauto.
Qed.

Lemma Unzip_Push_rest fuel w a t ty :
  type w = TUnzip ty ->
  (let '(w, ok) := if inited (engine w) then (w, true) else Init w in
   if negb ok then Ret (w, RInitFailed)
   else if is_sync w then Unzip_sync pagesize fuel w t
   else Ret (enqueue (set_head w None) (match head_task w with Some h => [h; t] | None => [t] end)
               (tid t) (p_callback a), RNone)) = push_rest fuel w a t.
Proof.
  intros Hty. unfold push_rest. fold (ensure_init w).
  pose proof (type_ensure_init w) as Ht. destruct (ensure_init w) as [w1 ok]. simpl in Ht.
  by rewrite Ht, Hty.
Qed.

Lemma Zip_Push_rest fuel w a t ty :
  type w = TZip ty -> head_task w = None ->
  (let '(w, ok) := if inited (engine w) then (w, true) else Init w in
   if negb ok then Ret (w, RInitFailed)
   else if is_sync w then run_last pagesize fuel w t RBuffer
   else Ret (enqueue w [t] (tid t) (p_callback a), RNone)) = push_rest fuel w a t.
Proof.
  intros Hty Hh. unfold push_rest. fold (ensure_init w).
  pose proof (type_ensure_init w) as Ht. pose proof (head_ensure_init w) as Hh0.
  destruct (ensure_init w) as [w1 ok]. simpl in Ht, Hh0. rewrite Hh in Hh0. rewrite Ht, Hh0, Hty.
  destruct ok, (is_sync w1); try done. destruct w1; simpl in *; by subst.
Qed.

(** Both [Push] functions: an empty push, a push that parks the first byte, or
    one that runs or queues a task. *)
Lemma Push_eq fuel w a :
  (match type w with TZip _ => head_task w = None | _ => True end) ->
  Push pagesize fuel w a =
    let '(w0, t) := new_task w a in
    if quiet w a then Ret (ReturnEmptyResultSyncOrAsync w0 (p_callback a) t)
    else
      '(w1, parked) ← match type w with TUnzip UNZIP => sniff w0 t | _ => Ret (w0, false) end;
      if (parked : bool) then Ret (ReturnEmptyResultSyncOrAsync w1 (p_callback a) t)
      else push_rest fuel w1 a t.
Proof.
  intros Hh. unfold Push, Unzip_Push, Zip_Push, quiet.
  pose proof (eq_refl : input (new_task w a).2 = p_data a) as Hin.
  pose proof (eq_refl : type (new_task w a).1 = type w) as Ht.
  pose proof (eq_refl : head_task (new_task w a).1 = head_task w) as Hh'.
  destruct (new_task w a) as [w0 t]. simpl in Hin, Ht, Hh'. rewrite Hin, Ht.
  destruct (type w) as [ty|ty] eqn:Hty.
  - rewrite (bool_decide_ext _ (length (p_data a) = 0%nat)) by (by rewrite length_zero_iff_nil).
    destruct (Nat.eqb_spec (length (p_data a)) 0); [by rewrite bool_decide_true|].
    rewrite bool_decide_false by done.
    destruct ty; try by eapply Unzip_Push_rest.
    destruct (sniff w0 t) as [[w1 [|]]|] eqn:Hs; simpl; try done.
    apply sniff_type in Hs as [ty Hs]. by eapply Unzip_Push_rest.
  - rewrite (bool_decide_ext _ (length (p_data a) = 0%nat /\ p_flush a <> Z_FINISH)) by (by rewrite length_zero_iff_nil).
    destruct (Nat.eqb_spec (length (p_data a)) 0), (Z.eqb_spec (p_flush a) Z_FINISH);
      first [rewrite bool_decide_true by tauto | rewrite bool_decide_false by tauto]; simpl; try done;
      apply (Zip_Push_rest _ _ _ _ ty); congruence.
Qed.

Lemma sync_inv_new w a ins outs :
  sync_inv w ins outs -> plain_flush K (p_flush a) = true ->
  sync_inv (new_task w a).1 ins outs /\ fresh (new_task w a).2.
Proof. intros Hinv Hp. split; [by eapply sync_inv_same|done]. Qed.

Lemma push_rest_sync w a t ins outs :
  kind w = K -> ready w ins outs -> is_sync w = true -> inits (kind w) (window_bits w) (options w) ->
  type w <> TUnzip UNZIP -> fresh t ->
  exists w' r N, (forall fuel, (N <= fuel)%nat -> push_rest fuel w a t = Ret (w', r)) /\
    sync_inv w' (ins ++ input t) (outs ++ result_bytes r).
Proof.
  intros HK Hr Hs Hi Hne Hft. unfold push_rest. pose proof (type_ensure_init w) as Ht.
  destruct (after_sniff_sync w t ins outs HK Hr Hi Hft) as (w2 & e' & r & N & Hen & Hrun & Hs2 & He).
  rewrite Hen in *. simpl in Ht. rewrite Hs2, Hs, Ht. eexists _, r, N. split; [exact Hrun|].
  by apply sync_inv_run.
Qed.

Lemma sniff_sync w a t :
  kind w = K -> is_sync w = true -> inits (kind w) (window_bits w) (options w) -> type w = TUnzip UNZIP ->
  sniffing w -> blank (engine w) -> fresh t -> input t <> [] ->
  exists w' r N, (forall fuel, (N <= fuel)%nat ->
      ('(w1, parked) ← sniff w t;
       if (parked : bool) then Ret (ReturnEmptyResultSyncOrAsync w1 (p_callback a) t)
       else push_rest fuel w1 a t) = Ret (w', r)) /\
    sync_inv w' (parked w ++ input t) (result_bytes r).
Proof.
  intros HK Hs Hi Hty Hsn Hb Hft Hne.
  assert (kind w = Unzip) as Hk by (unfold kind; by rewrite Hty).
  destruct (sniff_spec w t Hsn Hne) as [(Hf & Hin & ->)|(ty & f & Hty' & ->)]; simpl.
  - unfold ReturnEmptyResultSyncOrAsync. simpl. rewrite Hs.
    eexists _, _, 0%nat. split; [done|]. unfold sniffing in Hsn. rewrite Hf in Hsn.
    unfold parked. destruct (head_task w) as [h|]; [done|]. simpl. rewrite Hk in Hi.
    split; [by rewrite <- HK, Hk|done..|]. left. unfold sniffing, parked. simpl. done.
  - destruct (push_rest_sync (set_type w ty f) a t (parked w) []) as (w' & r & N & Hrun & Hinv); simpl; eauto.
    + by rewrite <- HK, Hk.
    + left. unfold parked, sniffing in *. simpl. split_and!; try done.
      destruct (head_task w) as [h|]; [|done]. split; [done|]. by destruct (first_two w).
    + rewrite Hk in Hi. done.
    + congruence.
Qed.

Lemma Push_sync w a ins outs :
  sync_inv w ins outs -> plain_flush K (p_flush a) = true ->
  exists w' r N, (forall fuel, (N <= fuel)%nat -> Push pagesize fuel w a = Ret (w', r)) /\
    sync_inv w' (ins ++ p_data a) (outs ++ result_bytes r).
Proof.
  intros Hinv Hpl. destruct (sync_inv_new w a ins outs Hinv Hpl) as [Hinv0 Hft].
  assert (Hz : match type w with TZip _ => head_task w = None | _ => True end).
  { destruct (si_state _ _ _ Hinv) as [(-> & _)|(_ & Hh & _)]; [done|]. by destruct (type w). }
  setoid_rewrite (fun fuel => Push_eq fuel w a Hz).
  pose proof (eq_refl : input (new_task w a).2 = p_data a) as Hin.
  pose proof (eq_refl : type (new_task w a).1 = type w) as Hty.
  destruct (new_task w a) as [w0 t]. simpl in *. clear Hinv Hz.
  destruct (quiet w a) eqn:Hq.
  { assert (p_data a = []) as Hd by (unfold quiet in Hq; destruct (type w); case_bool_decide; naive_solver).
    rewrite Hd, app_nil_r. unfold ReturnEmptyResultSyncOrAsync. rewrite (si_sync _ _ _ Hinv0).
    eexists _, _, 0%nat. split; [done|]. simpl. rewrite app_nil_r. by eapply sync_inv_same. }
  destruct Hinv0 as [HK Hs Hi Hstate]. rewrite <- Hin.
  destruct Hstate as [(Hty0 & Hsn & Hb & -> & ->)|(Hne & Hh & Hst)].
  - rewrite <- Hty, Hty0. apply sniff_sync; try done. rewrite Hin. intros Hd.
    unfold quiet in Hq. rewrite <- Hty, Hty0 in Hq. by case_bool_decide.
  - destruct (push_rest_sync w0 a t ins outs) as (w' & r & N & Hrun & Hinv'); try done.
    { destruct Hst as [(Hb & -> & ->)|He]; [left|by right]. unfold parked. rewrite Hh. done. }
    exists w', r, N. split; [|done]. intros fuel Hf. rewrite <- (Hrun fuel Hf). rewrite <- Hty.
    by destruct (type w0) as [[]|].
Qed.

Lemma push_all_sync l : forall w ins outs,
  sync_inv w ins outs -> Forall (fun a => plain_flush K (p_flush a) = true) l ->
  exists w' rs N, (forall fuel, (N <= fuel)%nat -> push_all pagesize fuel w l = Ret (w', rs)) /\
    sync_inv w' (ins ++ mjoin (p_data <$> l)) (outs ++ mjoin (result_bytes <$> rs)).
Proof.
  induction l as [|a l IH]; intros w ins outs Hinv Hl; simpl.
  - exists w, [], 0%nat. rewrite !app_nil_r. done.
  - apply Forall_cons in Hl as [Hpl Hl].
    destruct (Push_sync w a ins outs Hinv Hpl) as (w1 & r & N1 & Hrun1 & Hinv1).
    destruct (IH _ _ _ Hinv1 Hl) as (w2 & rs & N2 & Hrun2 & Hinv2).
    exists w2, (r :: rs), (N1 + N2)%nat. split; [|simpl; by rewrite !(assoc_L (++))].
    intros fuel Hf. rewrite Hrun1 by lia. simpl. rewrite Hrun2 by lia. done.
Qed.

Lemma destroy_ok w :
  blank (engine w) \/ live (engine w) \/ dead (engine w) -> is_ret (destroy w) = true.
Proof.
  intros Hw. unfold destroy, Unzip_destroy, Zip_destroy. destruct Hw as [Hb|[Hl|Hd]].
  - rewrite Hb. by destruct (type w).
  - pose proof Hl as (Hi & He & _ & _ & Hs). rewrite Hi, He. simpl. rewrite !DoZlibEnd_live by done.
    by destruct (type w).
  - destruct Hd as (Hi & He & _). rewrite Hi, He. by destruct (type w).
Qed.

(** ** Asynchronous pushes *)

Definition pend (cbs : gmap nat (option nat)) (l : list Task) : list nat :=
  omap (fun t => mjoin (cbs !! tid t)) l.
(** The callbacks of the tasks that wait, in order. *)
Definition pending w : list nat := pend (callback_map w) (macro w ++ task_queue w).

(** Names of tasks are in use once; a task that waits in [head_task] has no
    callback any more.  [l] are the callbacks of the pushes so far. *)
Record names_ok w (l : list nat) : Prop := {
  no_nodup : NoDup (tid <$> (macro w ++ task_queue w));
  no_bound : Forall (fun t => tid t < length l)%nat (macro w ++ task_queue w);
  no_keys : forall key, is_Some (callback_map w !! key) -> (key < length l)%nat;
  no_head : forall h, head_task w = Some h ->
    (tid h < length l)%nat /\ callback_map w !! tid h = None /\
    tid h ∉ tid <$> (macro w ++ task_queue w) }.

(** Every callback handed over was called at once, has been called, or is
    pending; those not called at once are called in order. *)
Definition accounted w (l : list nat) : Prop :=
  immediate w ++ (called w).*1 ++ pending w ≡ₚ l /\ (called w).*1 ++ pending w `sublist_of` l.

(** [busy] is whether a task of the wrapper is being worked on right now, outside
    the queues. *)
Definition scheduled (busy : bool) w : Prop :=
  let e := engine w in
  (blank e /\ running e = false /\ macro w = [] /\ task_queue w = [] /\ busy = false) \/
  (live e /\ running e = true /\ (if busy then macro w = [] else exists t, macro w = [t])) \/
  (live e /\ running e = false /\ macro w = [] /\ task_queue w = [] /\ busy = false) \/
  (dead e /\ (busy = false -> macro w = [] -> running e = false /\ task_queue w = [])).

Record async_core (busy : bool) w (l : list nat) : Prop := {
  ai_kind : kind w = K;
  ai_sync : is_sync w = false;
  ai_inits : inits (kind w) (window_bits w) (options w);
  ai_type : if decide (type w = TUnzip UNZIP) then sniffing w /\ blank (engine w) else head_task w = None;
  ai_sched : scheduled busy w;
  ai_tasks : Forall (todo K) (macro w ++ task_queue w);
  ai_names : names_ok w l;
  ai_acc : accounted w l }.

Definition async_inv (busy : bool) w : Prop := async_core busy w (offered w).

Lemma pend_ext m m' l :
  (forall t, t ∈ l -> m !! tid t = m' !! tid t) -> pend m l = pend m' l.
Proof.
  intros Hm. apply list_omap_ext, Forall_Forall2_diag, Forall_forall. intros t Ht. by rewrite Hm.
Qed.

Lemma pend_app m l k : pend m (l ++ k) = pend m l ++ pend m k.
Proof. apply omap_app. Qed.

Lemma pend_cons m t l : pend m (t :: l) = option_list (mjoin (m !! tid t)) ++ pend m l.
Proof. unfold pend. simpl. by destruct (mjoin _). Qed.

Lemma pend_delete m t l : tid t ∉ tid <$> l -> pend (delete (tid t) m) l = pend m l.
Proof.
  intros Hnt. apply pend_ext. intros x Hx. apply lookup_delete_ne. intros Heq. apply Hnt. rewrite Heq.
  by apply list_elem_of_fmap_2.
Qed.

(** A new name is not in use. *)
Lemma names_new w l key : names_ok w l -> (length l <= key)%nat ->
  key ∉ tid <$> (macro w ++ task_queue w) /\ callback_map w !! key = None.
Proof.
  intros [_ Hb Hk _] Hlt. split.
  - intros (t & -> & Ht)%list_elem_of_fmap. rewrite Forall_forall in Hb. specialize (Hb t Ht). lia.
  - destruct (callback_map w !! key) eqn:E; [|done]. specialize (Hk key ltac:(eauto)). lia.
Qed.

(** A push that is answered at once. *)
Lemma answered busy w (l : list nat) cb t :
  async_core busy w l -> tid t = length l -> offered w = l ++ [cb] ->
  async_inv busy (ReturnEmptyResultSyncOrAsync w cb t).1.
Proof.
  intros [HK Hs Hi Hty Hsc Ht Hn [Ha1 Ha2]] Htid Ho.
  destruct (names_new w l (tid t) Hn ltac:(lia)) as [_ Hnone].
  unfold ReturnEmptyResultSyncOrAsync, ClearTaskCallback, async_inv. rewrite Hs. cbn [fst].
  cbn [callback_map offered set_calls]. rewrite Ho, (delete_id _ _ Hnone). destruct Hn as [H1 H2 H3 H4].
  split; try done.
  - split; simpl; rewrite ?length_app; simpl; try done.
    + eapply Forall_impl; [exact H2|]. simpl. lia.
    + intros key Hk. specialize (H3 key Hk). lia.
    + intros h Hh. destruct (H4 h Hh) as (? & ? & ?). split_and!; [lia|done..].
  - split; simpl.
    + rewrite <- Ha1. unfold pending. simpl. solve_Permutation.
    + etrans; [exact Ha2|]. by apply sublist_inserts_r.
Qed.

Lemma enqueue_lists w ts key cb :
  macro (enqueue w ts key cb) ++ task_queue (enqueue w ts key cb) = macro w ++ task_queue w ++ ts.
Proof.
  unfold enqueue, start_if_idle. simpl. destruct (running (engine w)); [done|]. simpl.
  destruct (task_queue w ++ ts) as [|x q]; [done|]. simpl. by rewrite <- (assoc_L (++)).
Qed.

Lemma enqueue_same w ts key cb :
  let w' := enqueue w ts key cb in
  type w' = type w /\ is_sync w' = is_sync w /\ window_bits w' = window_bits w /\ options w' = options w /\
  head_task w' = head_task w /\ offered w' = offered w /\ immediate w' = immediate w /\ called w' = called w /\
  callback_map w' = <[key := Some cb]> (callback_map w).
Proof.
  unfold enqueue, start_if_idle. simpl. destruct (running (engine w)); [done|]. simpl.
  by destruct (task_queue w ++ ts).
Qed.

Lemma live_running e b : live e -> live (set_running e b).
Proof. by intros (? & ? & ? & ? & ?). Qed.
Lemma dead_running e b : dead e -> dead (set_running e b).
Proof. by intros (? & ? & ?). Qed.

Lemma blank_not_live e : blank e -> live e -> False.
Proof. intros Hb (Hi & _). rewrite Hb in Hi. done. Qed.
Lemma blank_not_dead e : blank e -> dead e -> False.
Proof. intros Hb (Hi & _). rewrite Hb in Hi. done. Qed.

Lemma enqueue_scheduled busy w ts key cb :
  scheduled busy w -> live (engine w) \/ dead (engine w) -> ts <> [] ->
  scheduled busy (enqueue w ts key cb).
Proof.
  intros Hsc Hld Hts. unfold scheduled, enqueue, start_if_idle in *. simpl.
  destruct Hsc as [(Hb & _)|[(Hl & Hr & Hm)|[(Hl & Hr & Hm & Hq & ->)|(Hd & Hq)]]].
  - exfalso. destruct Hld; eauto using blank_not_live, blank_not_dead.
  - rewrite Hr. simpl. right. left. done.
  - rewrite Hr, Hm, Hq. simpl. destruct ts as [|x ts]; [done|]. simpl. right. left.
    split_and!; eauto using live_running.
  - destruct (running (engine w)) eqn:Hr; simpl; right; right; right.
    + split; [done|]. intros -> Hm. by destruct (Hq eq_refl Hm).
    + destruct (task_queue w ++ ts) as [|x q] eqn:E; [by destruct (task_queue w)|]. simpl.
      split; [by apply dead_running|]. intros _ Hm. by destruct (macro w).
Qed.

(** The parked task, which a push queues before its own. *)
Definition extra w : list Task := match head_task w with Some h => [h] | None => [] end.

(** A parked task is known, has no callback and is in no queue. *)
Lemma extra_spec w l h : names_ok w l -> h ∈ extra w ->
  (tid h < length l)%nat /\ callback_map w !! tid h = None /\ tid h ∉ tid <$> (macro w ++ task_queue w).
Proof.
  intros Hn. unfold extra. destruct (head_task w) as [h'|] eqn:Hh; [|by intros ?%not_elem_of_nil].
  intros ->%list_elem_of_singleton. by apply (no_head _ _ Hn).
Qed.

Lemma names_queued w w' (l : list nat) cb t :
  names_ok w l -> tid t = length l -> offered w' = l ++ [cb] -> head_task w' = None ->
  macro w' ++ task_queue w' = macro w ++ task_queue w ++ extra w ++ [t] ->
  callback_map w' = <[tid t := Some cb]> (callback_map w) ->
  names_ok w' (offered w').
Proof.
  intros Hn Htid Ho Hhead El E9. pose proof (fun h => extra_spec w l h Hn) as Hex.
  destruct (names_new w l (tid t) Hn ltac:(lia)) as [Hnew _].
  destruct Hn as [H1 H2 H3 _]. split.
  - rewrite El, (assoc_L (++)), fmap_app. apply NoDup_app. split_and!; [done| |].
    + intros x Hx Hx'. rewrite fmap_app, elem_of_app in Hx'.
      destruct Hx' as [(h & -> & Hh)%list_elem_of_fmap|Hx']; [by apply (Hex h)|].
      apply list_elem_of_singleton in Hx' as ->. done.
    + unfold extra in *. destruct (head_task w) as [h|]; simpl; [|apply NoDup_singleton].
      apply NoDup_cons. split; [|apply NoDup_singleton]. destruct (Hex h) as (? & _); [by left|].
      intros Hin%list_elem_of_singleton. lia.
  - rewrite El, Ho, (assoc_L (++)), length_app. simpl. apply Forall_app. split.
    + eapply Forall_impl; [exact H2|]. simpl. lia.
    + apply Forall_app. split; [|repeat constructor; lia]. apply Forall_forall. intros h Hh.
      destruct (Hex h Hh). lia.
  - rewrite Ho, E9, length_app. simpl. intros key Hk.
    destruct (decide (key = tid t)) as [->|]; [lia|]. rewrite lookup_insert_ne in Hk by done.
    specialize (H3 key Hk). lia.
  - by rewrite Hhead.
Qed.

(** A push that queues its task. *)
Lemma queued busy w (l : list nat) cb t :
  kind w = K ->
  is_sync w = false -> inits (kind w) (window_bits w) (options w) -> type w <> TUnzip UNZIP ->
  scheduled busy w -> live (engine w) \/ dead (engine w) ->
  Forall (todo K) (macro w ++ task_queue w ++ extra w ++ [t]) ->
  names_ok w l -> accounted w l -> tid t = length l -> offered w = l ++ [cb] ->
  async_inv busy (enqueue (set_head w None) (extra w ++ [t]) (tid t) cb).
Proof.
  intros HK Hs Hi Hty Hsc Hld Hov Hn [Ha1 Ha2] Htid Ho.
  destruct (names_new w l (tid t) Hn ltac:(lia)) as [Hnew Hnone].
  pose proof (enqueue_same (set_head w None) (extra w ++ [t]) (tid t) cb) as (E1 & E2 & E3 & E4 & E5 & E6 & E7 & E8 & E9).
  pose proof (enqueue_lists (set_head w None) (extra w ++ [t]) (tid t) cb) as El.
  pose proof (enqueue_scheduled busy (set_head w None) (extra w ++ [t]) (tid t) cb Hsc Hld ltac:(by destruct (extra w))) as Hsc'.
  set (w' := enqueue _ _ _ _) in *. clearbody w'. simpl in *.
  pose proof (fun h => extra_spec w l h Hn) as Hex.
  assert (Hpend : pending w' = pending w ++ [cb]).
  { unfold pending. rewrite El, E9, (assoc_L (++)), pend_app. f_equal.
    - apply pend_ext. intros x Hx. rewrite lookup_insert_ne; [done|].
      intros Heq. apply Hnew. rewrite Heq. by apply list_elem_of_fmap_2.
    - rewrite pend_app. assert (pend (<[tid t:=Some cb]> (callback_map w)) (extra w) = []) as ->.
      { unfold extra in *. destruct (head_task w) as [h|]; [|done]. simpl.
        destruct (Hex h) as (? & Hk & _); [by left|]. rewrite lookup_insert_ne by lia. by rewrite Hk. }
      simpl. by rewrite lookup_insert_eq. }
  split.
  - unfold kind. by rewrite E1.
  - congruence.
  - unfold kind. rewrite E1, E3, E4. done.
  - rewrite decide_False by congruence. done.
  - done.
  - rewrite El. done.
  - apply (names_queued w w' l cb t); try done. by rewrite E6.
  - rewrite E6, Ho. split; rewrite ?E7, E8, Hpend.
    + rewrite <- Ha1, <- !(assoc_L (++)). done.
    + rewrite (assoc_L (++)). by apply sublist_app.
Qed.

Lemma ensure_init_async busy w :
  scheduled busy w -> inits (kind w) (window_bits w) (options w) ->
  exists e, ensure_init w = (set_engine w e, true) /\ scheduled busy (set_engine w e) /\ (live e \/ dead e).
Proof.
  intros Hsc Hi. unfold ensure_init. destruct Hsc as [(Hb & Hr & Hm & Hq & ->)|Hsc].
  - destruct (Init_spec w Hb Hi) as (st & wb & _ & ->). rewrite Hb. simpl. eexists. split; [done|].
    assert (live (mkEngine (mkStream (Some st) [] [] []) (running (engine w)) false false None true false)) as Hl.
    { by repeat split. }
    split; [|by left]. right. right. left. done.
  - assert (inited (engine w) = true /\ (live (engine w) \/ dead (engine w))) as [-> Hld].
    { destruct Hsc as [(Hl & _)|[(Hl & _)|(Hd & _)]]; split; auto; by destruct Hl || by destruct Hd. }
    exists (engine w). split; [by destruct w|]. split; [|done]. right. done.
Qed.

(** Queueing once the type is known: [w] still has the parked task. *)
Lemma push_rest_async fuel busy w (l : list nat) a t :
  kind w = K ->
  is_sync w = false -> inits (kind w) (window_bits w) (options w) -> type w <> TUnzip UNZIP ->
  scheduled busy w -> Forall (todo K) (macro w ++ task_queue w ++ extra w) -> fresh t ->
  names_ok w l -> accounted w l -> tid t = length l -> offered w = l ++ [p_callback a] ->
  exists w', push_rest fuel w a t = Ret (w', RNone) /\ async_inv busy w'.
Proof.
  intros HK Hs Hi Hty Hsc Hov Hft Hn Ha Htid Ho.
  destruct (ensure_init_async busy w Hsc Hi) as (e & Heq & Hsc' & Hld).
  unfold push_rest. rewrite Heq. simpl. rewrite Hs. eexists. split; [done|].
  replace (match head_task w with Some h => [h; t] | None => [t] end) with (extra w ++ [t])
    by (unfold extra; by destruct (head_task w)).
  apply (queued busy (set_engine w e) l (p_callback a) t); try done; simpl.
  - rewrite !(assoc_L (++)) in *. apply Forall_app. split; [done|]. repeat constructor; by apply fresh_todo.
  - destruct Hn as [H1 H2 H3 H4]. by split.
Qed.

Lemma fresh_head_over w : sniffing w -> Forall (todo K) (extra w).
Proof.
  unfold sniffing, extra. destruct (first_two w), (head_task w); try done.
  intros [Hf _]. repeat constructor; by apply fresh_todo.
Qed.

(** Keeping the first byte of a stream of unknown type. *)
Lemma park busy w t :
  K = Unzip -> async_inv busy w -> blank (engine w) -> inits Unzip (window_bits w) (options w) -> fresh t -> input t = [x1f] ->
  (tid t < length (offered w))%nat -> callback_map w !! tid t = None -> tid t ∉ tid <$> (macro w ++ task_queue w) ->
  async_inv busy (set_head (set_type w UNZIP kFirstParsed) (Some t)).
Proof.
  intros HU [HK Hs Hi Hsn Hsc Hov [H1 H2 H3 H4] Ha] Hb Hi' Hft Hin Hlt Hnone Hnot. split; try done.
  split; try done. simpl. intros h [= <-]. done.
Qed.

Lemma sniff_async fuel busy w (l : list nat) a t :
  async_core busy w l -> type w = TUnzip UNZIP -> fresh t -> input t <> [] ->
  tid t = length l -> offered w = l ++ [p_callback a] ->
  exists w', ('(w1, parked) ← sniff w t;
       if (parked : bool) then Ret (ReturnEmptyResultSyncOrAsync w1 (p_callback a) t)
       else push_rest fuel w1 a t) = Ret (w', RNone) /\ async_inv busy w'.
Proof.
  intros [HK Hs Hi Hsn Hsc Hov Hn Ha] Hty Hft Hne Htid Ho.
  rewrite decide_True in Hsn by done. destruct Hsn as [Hsn Hb].
  assert (kind w = Unzip) as Hk by (unfold kind; by rewrite Hty). rewrite Hk in Hi.
  assert (K = Unzip) as HU by congruence.
  destruct (sniff_spec w t Hsn Hne) as [(Hf & Hin & ->)|(ty & f & Hty' & ->)]; simpl.
  - unfold ReturnEmptyResultSyncOrAsync. simpl. rewrite Hs. eexists. split; [done|].
    pose proof (answered busy w l (p_callback a) t ltac:(split; try done; [by rewrite Hk|by rewrite decide_True]) Htid Ho) as Hans.
    destruct (names_new w l (tid t) Hn ltac:(lia)) as [Hnew Hnone].
    unfold ReturnEmptyResultSyncOrAsync in Hans. rewrite Hs in Hans.
    apply (park busy _ t) in Hans; try done; simpl.
    + rewrite Ho, length_app. simpl. lia.
    + by rewrite lookup_delete_eq.
  - apply (push_rest_async fuel busy (set_type w ty f) l); try done; simpl.
    + congruence.
    + rewrite (assoc_L (++)). apply Forall_app. split; [done|]. exact (fresh_head_over w Hsn).
    + destruct Hn as [H1 H2 H3 H4]. by split.
Qed.

Lemma Push_async fuel busy w a :
  async_inv busy w -> plain_flush K (p_flush a) = true ->
  exists w', Push pagesize fuel w a = Ret (w', RNone) /\ async_inv busy w'.
Proof.
  intros Hinv Hpl.
  assert (Hz : match type w with TZip _ => head_task w = None | _ => True end).
  { pose proof (ai_type _ _ _ Hinv) as Hh. case_decide as Hd; [by rewrite Hd|]. by destruct (type w). }
  rewrite Push_eq by done.
  assert (async_core busy (new_task w a).1 (offered w)) as Hinv0.
  { destruct Hinv as [? ? ? ? ? ? [] ?]. by split. }
  assert (fresh (new_task w a).2) as Hft by done.
  pose proof (eq_refl : input (new_task w a).2 = p_data a) as Hin.
  pose proof (eq_refl : type (new_task w a).1 = type w) as Hty.
  pose proof (eq_refl : tid (new_task w a).2 = length (offered w)) as Htid.
  pose proof (eq_refl : offered (new_task w a).1 = offered w ++ [p_callback a]) as Ho.
  destruct (new_task w a) as [w0 t]. simpl in *. set (l := offered w) in *. clearbody l. clear Hinv Hz.
  destruct (quiet w a) eqn:Hq.
  { pose proof (answered busy w0 l (p_callback a) t Hinv0 Htid Ho) as Hans.
    unfold ReturnEmptyResultSyncOrAsync in *. rewrite (ai_sync _ _ _ Hinv0) in *. eauto. }
  destruct (decide (type w0 = TUnzip UNZIP)) as [Hu|Hu].
  - rewrite <- Hty, Hu. apply (sniff_async fuel busy w0 l); try done. rewrite Hin. intros Hd.
    unfold quiet in Hq. rewrite <- Hty, Hu in Hq. by case_bool_decide.
  - replace (match type w with TUnzip UNZIP => sniff w0 t | _ => Ret (w0, false) end) with (Ret (w0, false))
      by (rewrite <- Hty; by destruct (type w0) as [[]|]). simpl.
    destruct Hinv0 as [HK Hs Hi Hh Hsc Hov Hn Ha]. rewrite decide_False in Hh by done.
    apply (push_rest_async fuel busy w0 l); try done. unfold extra. by rewrite Hh, app_nil_r.
Qed.

Lemma push_all_async fuel busy l : forall w,
  async_inv busy w -> Forall (fun a => plain_flush K (p_flush a) = true) l ->
  exists w' rs, push_all pagesize fuel w l = Ret (w', rs) /\ async_inv busy w'.
Proof.
  induction l as [|a l IH]; intros w Hinv Hl; simpl; [eauto|].
  apply Forall_cons in Hl as [Hpl Hl].
  destruct (Push_async fuel busy w a Hinv Hpl) as (w1 & -> & Hinv1). simpl.
  destruct (IH w1 Hinv1 Hl) as (w2 & rs & -> & Hinv2). simpl. eauto.
Qed.

(** What [DoTaskCallback] does to the calls. *)
Lemma DoTaskCallback_calls w key res :
  DoTaskCallback w key res =
    set_calls w (delete key (callback_map w)) (immediate w)
      (called w ++ ((fun cb => (cb, res)) <$> option_list (mjoin (callback_map w !! key)))).
Proof.
  unfold DoTaskCallback, ClearTaskCallback. destruct (callback_map w !! key) as [[cb|]|] eqn:E; simpl.
  - done.
  - by rewrite app_nil_r.
  - rewrite app_nil_r, delete_id by done. by destruct w.
Qed.

Lemma accounted_front w w' t l res :
  accounted w l -> macro w ++ task_queue w = t :: (macro w' ++ task_queue w') ->
  tid t ∉ tid <$> (macro w' ++ task_queue w') ->
  immediate w' = immediate w -> callback_map w' = delete (tid t) (callback_map w) ->
  called w' = called w ++ ((fun cb => (cb, res)) <$> option_list (mjoin (callback_map w !! tid t))) ->
  accounted w' l.
Proof.
  intros [Ha1 Ha2] Hl Hnt Hi Hc Hca. unfold accounted, pending in *.
  rewrite Hl, pend_cons in Ha1, Ha2. rewrite Hi, Hc, Hca, pend_delete, fmap_app by done.
  assert (forall o : option nat, ((fun cb => (cb, res)) <$> option_list o).*1 = option_list o) as Ho by (by intros []).
  rewrite Ho. by rewrite <- !(assoc_L (++)).
Qed.

(** The callback of the task at the front is called, and the task leaves. *)
Lemma DoTaskCallback_inv w m t e res :
  async_inv false w -> macro w = t :: m -> ~ blank (engine w) ->
  (live e /\ running e = true /\ m = []) \/ dead e ->
  async_inv true (DoTaskCallback (set_engine (set_queues w (task_queue w) m) e) (tid t) res).
Proof.
  intros [HK Hs Hi Hty Hsc Hov [H1 H2 H3 H4] Ha] Hm Hnb He.
  assert (Hnu : type w <> TUnzip UNZIP) by (intros Hu; rewrite decide_True in Hty by done; by destruct Hty).
  rewrite decide_False in Hty by done. rewrite Hm in H1, H2, Hov. simpl in H1, H2, Hov.
  apply NoDup_cons in H1 as [Hnt H1]. apply Forall_cons in H2 as [_ H2]. apply Forall_cons in Hov as [_ Hov].
  rewrite DoTaskCallback_calls. split; simpl; try done.
  - by rewrite decide_False.
  - unfold scheduled. simpl. destruct He as [(? & ? & ?)|?]; [right; left|right; right; right]; done.
  - split; simpl; try done.
    + intros key Hk. apply H3. by destruct Hk as [? [_ ?]%lookup_delete_Some].
    + by rewrite Hty.
  - eapply (accounted_front w _ t); try done. simpl. by rewrite Hm.
Qed.

(** Moving tasks between the queues, and changes of the engine. *)
Lemma async_rescheduled b b' w q m e :
  async_inv b w -> type w <> TUnzip UNZIP -> m ++ q = macro w ++ task_queue w ->
  scheduled b' (set_engine (set_queues w q m) e) -> async_inv b' (set_engine (set_queues w q m) e).
Proof.
  intros [HK Hs Hi Hty Hsc Hov [H1 H2 H3 H4] Ha] Hnu Hl Hsc'. rewrite decide_False in Hty by done.
  split; simpl; try done; rewrite ?Hl; try done.
  - by rewrite decide_False.
  - split; simpl; rewrite ?Hl; done.
  - unfold accounted, pending in *. simpl. by rewrite Hl.
Qed.

Lemma known_type b w : async_inv b w -> b = true \/ macro w <> [] -> type w <> TUnzip UNZIP /\ ~ blank (engine w).
Proof.
  intros [_ _ _ Hty Hsc _ _ _] Hb.
  assert (~ blank (engine w)) as Hnb.
  { intros Hbl. destruct Hsc as [(_ & _ & ? & _ & ?)|[(Hl & _)|[(Hl & _)|(Hd & _)]]];
      eauto using blank_not_live, blank_not_dead. destruct Hb; congruence. }
  split; [|done]. intros Hu. rewrite decide_True in Hty by done. by destruct Hty.
Qed.

Lemma TryTriggerNextTask_inv w : async_inv true w ->
  async_inv false (TryTriggerNextTask w) /\
  macro (TryTriggerNextTask w) ++ task_queue (TryTriggerNextTask w) = macro w ++ task_queue w.
Proof.
  intros Hinv. destruct (known_type true w Hinv (or_introl eq_refl)) as [Hnu Hnb].
  pose proof (ai_sched _ _ _ Hinv) as Hsc.
  assert (live (engine w) /\ running (engine w) = true /\ macro w = [] \/ dead (engine w)) as Hc.
  { destruct Hsc as [(? & _)|[(? & ? & ?)|[(_ & _ & _ & _ & ?)|(? & _)]]]; auto; done. }
  unfold TryTriggerNextTask. destruct (task_queue w) as [|t q] eqn:Hq.
  - split; [|by simpl; rewrite Hq].
    replace (set_engine w (set_running (engine w) false))
      with (set_engine (set_queues w (task_queue w) (macro w)) (set_running (engine w) false)) by (by destruct w).
    apply (async_rescheduled true); try done.
    unfold scheduled. simpl. rewrite Hq. destruct Hc as [(? & ? & ?)|?]; [right; right; left|right; right; right];
      eauto 10 using live_running, dead_running.
  - split; [|by simpl; rewrite <- (assoc_L (++))].
    replace (set_queues w q (macro w ++ [t])) with (set_engine (set_queues w q (macro w ++ [t])) (engine w)) by (by destruct w).
    apply (async_rescheduled true); try done; [by rewrite Hq, <- (assoc_L (++))|].
    unfold scheduled. simpl. destruct Hc as [(? & ? & ->)|?]; [right; left|right; right; right]; [simpl; eauto|].
    split; [done|]. intros _ Hm. by destruct (macro w).
Qed.

(** [OnDone] of the task at the front, after its last tick. *)
Lemma OnDone_inv fuel w m t e t' js :
  async_inv false w -> Forall (fun a => plain_flush K (p_flush a) = true) js ->
  macro w = t :: m -> tid t' = tid t ->
  (live e /\ running e = true /\ m = []) \/ dead e ->
  exists w', OnDone pagesize fuel (set_engine (set_queues w (task_queue w) m) e) t' js = Ret w' /\
    async_inv false w' /\ (js = [] -> macro w' ++ task_queue w' = m ++ task_queue w).
Proof.
  intros Hinv Hjs Hm Htid He. unfold OnDone.
  destruct (known_type false w Hinv ltac:(right; by rewrite Hm)) as [_ Hnb].
  assert (exists e' res, 
    match t_error t' with
    | Some err =>
        e0 ← (if ended e then Ret e else OccurError (kind w) e err);
        Ret (DoTaskCallback (set_engine (set_engine (set_queues w (task_queue w) m) e) e0) (tid t') (Failed err))
    | None => Ret (DoTaskCallback (set_engine (set_queues w (task_queue w) m) e) (tid t') (Buffer (out t')))
    end = Ret (DoTaskCallback (set_engine (set_queues w (task_queue w) m) e') (tid t) res) /\
    (live e' /\ running e' = true /\ m = [] \/ dead e')) as (e' & res & Heq & He').
  { rewrite Htid. destruct (t_error t') as [err|]; [|eauto].
    destruct He as [(Hl & _ & _)|Hd].
    - rewrite (live_not_ended _ Hl). destruct (OccurError_live (kind w) e err Hl) as (e' & -> & Hd & _). simpl. eauto.
    - destruct Hd as (? & Hend & ?). rewrite Hend. simpl. exists e, (Failed err). split; [done|]. by right. }
  change (kind (set_engine (set_queues w (task_queue w) m) e)) with (kind w).
  change (engine (set_engine (set_queues w (task_queue w) m) e)) with e. rewrite Heq. simpl.
  pose proof (DoTaskCallback_inv w m t e' res Hinv Hm Hnb He') as Hinv1.
  destruct (push_all_async fuel true js _ Hinv1 Hjs) as (w2 & rs & Hpush & Hinv2). rewrite Hpush. simpl.
  destruct (TryTriggerNextTask_inv w2 Hinv2) as [Hinv3 Hl]. eexists. split; [done|]. split; [done|].
  intros ->. rewrite Hl. simpl in Hpush. injection Hpush as <- <-. by rewrite DoTaskCallback_calls.
Qed.

(** The output that can still come for the task at the front. *)
Definition front_rem w : nat :=
  match macro w, z_state (stream (engine w)) with
  | t :: _, Some st => zrem (kind w) st (rest (engine w) t) (flush_mode t)
  | _, _ => 0%nat
  end.

Definition waiting w : nat := length (macro w ++ task_queue w).

(** The task at the front goes back to the queue after a tick. *)
Lemma requeue w t t1 e1 :
  async_inv false w -> macro w = [t] -> tid t1 = tid t -> todo K t1 -> live e1 -> running e1 = true ->
  async_inv false (set_queues (set_engine (set_queues w (task_queue w) []) e1) (task_queue w) [t1]).
Proof.
  intros Hinv Hm Htid Hov Hl Hr.
  destruct (known_type false w Hinv ltac:(right; by rewrite Hm)) as [Hnu _].
  destruct Hinv as [HK Hs Hi Hty Hsc Hovs [H1 H2 H3 H4] Ha]. rewrite decide_False in Hty by done.
  rewrite Hm in *. apply Forall_cons in Hovs as [_ Hovs]. apply Forall_cons in H2 as [Ht H2].
  split; simpl; try done.
  - by rewrite decide_False.
  - right. left. simpl. eauto.
  - by constructor.
  - split; simpl; try done; [by rewrite Htid | constructor; [by rewrite Htid|done] | by rewrite Hty].
  - assert (forall m, pend m ([t1] ++ task_queue w) = pend m ([t] ++ task_queue w)) as Hp.
    { intros m'. cbn [app]. by rewrite !pend_cons, Htid. }
    unfold accounted, pending in *. rewrite Hm in Ha.
    cbn [macro task_queue callback_map immediate called set_queues set_engine]. by rewrite Hp.
Qed.

Lemma tick_inv fuel w js :
  async_inv false w -> Forall (fun a => plain_flush K (p_flush a) = true) js ->
  exists w', tick pagesize fuel w js = Ret w' /\ async_inv false w' /\
    (js = [] -> macro w <> [] ->
     (waiting w' < waiting w)%nat \/ waiting w' = waiting w /\ (front_rem w' < front_rem w)%nat).
Proof.
  intros Hinv Hjs. unfold tick. destruct (macro w) as [|t m] eqn:Hm; [exists w; by split_and!|].
  destruct (known_type false w Hinv ltac:(right; by rewrite Hm)) as [Hnu Hnb].
  pose proof (ai_tasks _ _ _ Hinv) as Hov. rewrite Hm in Hov. apply Forall_cons in Hov as [Hov _].
  change (kind (set_queues w (task_queue w) m)) with (kind w).
  change (engine (set_queues w (task_queue w) m)) with (engine w).
  assert (Hfin : forall e' t', tid t' = tid t -> over t' = true ->
    (live e' /\ running e' = true /\ m = [] \/ dead e') ->
    OnWorkTick pagesize (kind w) (engine w) t = Ret (e', t') ->
    exists w', ('(e, t) ← OnWorkTick pagesize (kind w) (engine w) t;
      let w := set_engine (set_queues w (task_queue w) m) e in
      if over t then OnDone pagesize fuel w t js
      else Ret (set_queues w (task_queue w) (macro w ++ [t]))) = Ret w' /\ async_inv false w' /\
      (js = [] -> t :: m <> [] -> (waiting w' < waiting w)%nat \/ waiting w' = waiting w /\ (front_rem w' < front_rem w)%nat)).
  { intros e' t' Htid Ho He Heq. rewrite Heq. simpl. rewrite Ho.
    destruct (OnDone_inv fuel w m t e' t' js Hinv Hjs Hm Htid He) as (w' & -> & Hinv' & Hl).
    exists w'. split_and!; try done. intros Hnil _. left. unfold waiting. rewrite Hl, Hm by done. simpl. lia. }
  destruct (ai_sched _ _ _ Hinv) as [(_ & _ & Hm' & _)|[(Hl & Hr & [t0 Hm'])|[(_ & _ & Hm' & _)|(Hd & _)]]]; try congruence.
  - rewrite Hm in Hm'. injection Hm' as <- ->.
    rewrite <- (ai_kind _ _ _ Hinv) in Hov.
    destruct (OnWorkTick_spec (kind w) _ t Hl Hov) as (e1 & t1 & Heq & Hf & Hres).
    destruct (over t1) eqn:Ho1.
    { apply (Hfin e1 t1); try done; [apply (tf_tid _ _ _ _ _ Hf)|].
      pose proof (tick_over _ _ _ _ _ Hf Hres Ho1) as [_ Hrun _ _ _ Hcase].
      assert (live e1 \/ dead e1) as [Hl1|Hd1] by naive_solver; [left|by right].
      rewrite Hrun by done. done. }
    inversion Hres as [? ? err Hl1 ? Herr|? ? ? ? ? ? Hd|? ? ? ? ? Hd|? ? o st st' Hl1 Hrun Hp _ Hout Hmade Hlen Hst Hst' Hrem];
      subst; try (unfold over in Ho1; rewrite ?Herr, ?Hd in Ho1; by destruct (t_done t1)).
    rewrite Heq. simpl. rewrite Ho1. eexists. split; [done|].
    split; [apply (requeue w t); try done; [apply (tf_tid _ _ _ _ _ Hf)| |congruence]|].
    { split; [done|]. rewrite (tf_flush _ _ _ _ _ Hf), <- (ai_kind _ _ _ Hinv). apply Hov. }
    intros _ _. right. unfold waiting, front_rem. simpl. rewrite Hm, Hst, Hst', (tf_flush _ _ _ _ _ Hf).
    change (kind (set_queues (set_engine (set_queues w (task_queue w) []) e1) (task_queue w) [t1])) with (kind w).
    split; [done|]. lia.
  - apply (Hfin (engine w) (Fail_ t (already (engine w)))); auto using over_Fail.
    by apply OnWorkTick_dead.
Qed.

(** The pushes of an event have plain flush modes. *)
Definition plain_event (ev : ZEvent) : Prop :=
  match ev with
  | ZPush a => plain_flush K (p_flush a) = true
  | ZTick js => Forall (fun a => plain_flush K (p_flush a) = true) js
  end.

Lemma zstep_inv fuel w ev : async_inv false w -> plain_event ev ->
  exists w', zstep pagesize fuel w ev = Ret w' /\ async_inv false w'.
Proof.
  intros Hinv. destruct ev as [a|js]; simpl; intros Hpl.
  - destruct (Push_async fuel false w a Hinv Hpl) as (w' & -> & Hinv'). simpl. eauto.
  - destruct (tick_inv fuel w js Hinv Hpl) as (w' & Heq & Hinv' & _). eauto.
Qed.

Lemma zrun_inv fuel es : forall w, async_inv false w -> Forall plain_event es ->
  exists w', zrun pagesize fuel w es = Ret w' /\ async_inv false w'.
Proof.
  induction es as [|ev es IH]; intros w Hinv; simpl; [eauto|]. intros [Hpl Hes]%Forall_cons.
  destruct (zstep_inv fuel w ev Hinv Hpl) as (w1 & -> & Hinv1). simpl. by apply IH.
Qed.

Lemma tick_offered fuel w w' : tick pagesize fuel w [] = Ret w' -> offered w' = offered w.
Proof.
  unfold tick. destruct (macro w) as [|t m]; [by intros [= <-]|].
  intros ((e & t1) & _ & Heq)%outcome_bind_inv. cbv zeta in Heq. destruct (over t1); [|by injection Heq as <-].
  unfold OnDone in Heq. apply outcome_bind_inv in Heq as (w1 & Hw1 & Heq). injection Heq as <-.
  assert (offered w1 = offered w) as <-.
  { destruct (t_error t1); [apply outcome_bind_inv in Hw1 as (? & _ & Hw1)|]; injection Hw1 as <-;
      by rewrite DoTaskCallback_calls. }
  unfold TryTriggerNextTask. by destruct (task_queue w1).
Qed.

(** Ticks make progress until no task waits. *)
Lemma drain fuel w :
  async_inv false w ->
  exists n w', zrun pagesize fuel w (replicate n (ZTick [])) = Ret w' /\ async_inv false w' /\
    macro w' = [] /\ offered w' = offered w.
Proof.
  remember (waiting w) as k eqn:Hk. revert w Hk. induction (lt_wf k) as [k _ IHk]. intros w Hk.
  remember (front_rem w) as r eqn:Hr. revert w Hk Hr. induction (lt_wf r) as [r _ IHr]. intros w Hk Hr Hinv.
  destruct (macro w) as [|t m] eqn:Hm; [by exists 0%nat, w|].
  destruct (tick_inv fuel w [] Hinv (Forall_nil_2 _)) as (w1 & Heq & Hinv1 & Hdec).
  assert (Hoff : offered w1 = offered w) by (by apply (tick_offered fuel)).
  destruct (Hdec eq_refl ltac:(by rewrite Hm)) as [Hlt|[Hw Hlt]].
  - destruct (IHk (waiting w1) ltac:(lia) w1 eq_refl Hinv1) as (n & w' & Hrun & Hinv' & Hm' & Ho').
    exists (S n), w'. simpl. rewrite Heq. simpl. split_and!; try done; congruence.
  - destruct (IHr (front_rem w1) ltac:(lia) w1 ltac:(congruence) eq_refl Hinv1) as (n & w' & Hrun & Hinv' & Hm' & Ho').
    exists (S n), w'. simpl. rewrite Heq. simpl. split_and!; try done; congruence.
Qed.

End of_kind.

(** C7 Synchronous streaming is faithful: for every sequence of pushes, cut in any
    way, to a wrapper whose stream can be created, with the flush modes for which
    zlib.h promises that a call uses its input up ([plain_flush]: no flush and
    sync flush for decompression, every mode up to Z_FINISH for compression),
    every push returns (the tick
    loop ends) without a failed check and so does the destructor; the stream is
    fed a prefix of the pushed bytes, in order and each once, and all of them but
    a parked first byte while it neither ended nor failed; the buffers returned
    are, joined, what the stream produced, up to the call that failed. *)
Theorem zlib_sync_faithful (ty : WrapperType) (wb : Z) (opt : Z * Z * Z) (ps : list PushArgs) :
  inits (kind_of ty) wb opt ->
  Forall (fun a => plain_flush (kind_of ty) (p_flush a) = true) ps ->
  exists w rs N,
    (forall fuel, (N <= fuel)%nat -> push_all pagesize fuel (New ty true wb opt) ps = Ret (w, rs)) /\
    is_ret (destroy w) = true /\
    let s := stream (engine w) in
    let ins := mjoin (p_data <$> ps) in
    let outs := mjoin (result_bytes <$> rs) in
    z_fed s `prefix_of` ins /\ outs `prefix_of` z_made s /\
    (errored (engine w) = false -> outs = z_made s) /\
    (errored (engine w) = false -> finished (engine w) = false -> ins = z_fed s ++ parked w).
Proof.
  intros Hi Hpl. destruct (push_all_sync (kind_of ty) ps (New ty true wb opt) [] []) as (w & rs & N & Hrun & Hinv).
  { split; [done..|]. simpl. destruct (decide (ty = TUnzip UNZIP)) as [->|]; [by left|right; split_and!; auto]. by left. }
  { done. }
  exists w, rs, N. split; [exact Hrun|]. destruct Hinv as [_ Hs Hin Hst]. simpl in Hst.
  set (outs := mjoin (result_bytes <$> rs)) in *. set (ins := mjoin (p_data <$> ps)) in *. clearbody ins outs.
  assert ((blank (engine w) /\ ins = parked w /\ outs = []) \/
          (engine_inv (engine w) ins outs /\ parked w = [])) as [(Hb & -> & ->)|[He Hp]].
  { unfold parked. destruct Hst as [(_ & _ & ? & ? & ?)|(_ & -> & [(? & ? & ?)|?])]; auto. }
  - split; [apply destroy_ok; auto|]. rewrite Hb. simpl. split_and!; try done; apply prefix_nil.
  - cbv zeta. rewrite Hp, app_nil_r. destruct He as [(Hl & -> & -> & _)|(Hd & Hf & Ho & He)].
    + split; [apply destroy_ok; auto|]. simpl. done.
    + split; [apply destroy_ok; auto|]. split_and!; try done.
      destruct Hd as (_ & _ & Hd). intros Hne Hnf. by rewrite Hne, Hnf in Hd.
Qed.


(** ** Failure to create the stream *)

(** A stream that cannot be created ends the process: the push that tries to
    create it throws, but leaves the wrapper marked as initialised, so the
    destructor ends a stream that does not exist and its check fails; a second
    synchronous push with data fails the same way. *)
Theorem failed_init_aborts (t : ZipType) (sync : bool) (wb : Z) (opt : Z * Z * Z) (fuel : nat) (a b : PushArgs) :
  zinit Zip (wb + match t with GZIP => 16 | DEFLATE => 0 end) opt = None ->
  p_data a <> [] -> p_data b <> [] ->
  exists w, Push pagesize fuel (New (TZip t) sync wb opt) a = Ret (w, RInitFailed) /\
    destroy w = Fault CheckFailed /\
    (sync = true -> Push pagesize (S fuel) w b = Fault CheckFailed).
Proof.
  intros Hi Ha Hb. unfold Push. simpl. unfold Zip_Push. simpl.
  destruct (p_data a) as [|a1 l1] eqn:Ea; [done|]. unfold Init. simpl. unfold Zip_Init. simpl.
  destruct t; rewrite Hi; simpl; eexists; (split; [done|]); (split; [done|]); intros ->; simpl;
    (destruct (p_data b) as [|b1 l2] eqn:Eb; [done|]); simpl; unfold run_last; simpl; by destruct fuel.
Qed.
(** ** Flush modes outside the plain ones *)

(** Decompression asked to finish: when the output fills the chunk buffer,
    inflate answers Z_BUF_ERROR (there was not enough room), the task is not
    over and CHECK_EQ(status, Z_OK) ends the process. *)
Theorem inflate_finish_full_chunk_aborts (wb : Z) (opt : Z * Z * Z) (fuel : nat) (data : bytes)
    (cb : nat) (st st' : St) (c : nat) (o : bytes) :
  zinit Unzip wb opt = Some st -> data <> [] ->
  zcall Unzip st data pagesize Z_FINISH = (st', Z_BUF_ERROR, c, o) -> length o = pagesize ->
  Push pagesize (S fuel) (New (TUnzip INFLATE) true wb opt) (mkPush data Z_FINISH cb) =
    Fault CheckFailed.
Proof.
  intros Hi Hd Hc Ho. unfold Push. simpl. unfold Unzip_Push. simpl.
  destruct data as [|b l]; [done|]. simpl. unfold Init. simpl. unfold Unzip_Init. simpl.
  rewrite Z.add_0_r, Hi. simpl. unfold Unzip_sync. simpl. unfold run_last. simpl.
  unfold Unzip_OnWorkTick, call. simpl. rewrite Hc. simpl.
  unfold ConcatChunkToResult. rewrite Ho, Nat.leb_refl, Nat.ltb_irrefl. done.
Qed.

(** With a mode that stops before the end of its input (Z_BLOCK), a push that
    leaves room in the chunk buffer succeeds, although the stream was given only
    the bytes before the stop: the next task points the stream at its own input
    and the rest is never decompressed. *)
Theorem inflate_stop_drops_input (wb : Z) (opt : Z * Z * Z) (fuel : nat) (data : bytes) (f : Z)
    (cb : nat) (st st' : St) (c : nat) (o : bytes) :
  zinit Unzip wb opt = Some st -> data <> [] ->
  zcall Unzip st data pagesize f = (st', Z_OK, c, o) -> (length o < pagesize)%nat ->
  exists w, Push pagesize (S fuel) (New (TUnzip INFLATE) true wb opt) (mkPush data f cb) = Ret (w, RBuffer o) /\
    errored (engine w) = false /\ z_fed (stream (engine w)) = take c data /\
    z_avail_in (stream (engine w)) = drop c data /\
    forall t, prepared t = false ->
      z_avail_in (stream (Prepare (engine w) t).1) = input t /\
      z_fed (stream (Prepare (engine w) t).1) = take c data.
Proof.
  intros Hi Hd Hc Ho. unfold Push. simpl. unfold Unzip_Push. simpl.
  destruct data as [|b l]; [done|]. simpl. unfold Init. simpl. unfold Unzip_Init. simpl.
  rewrite Z.add_0_r, Hi. simpl. unfold Unzip_sync. simpl. unfold run_last. simpl.
  unfold Unzip_OnWorkTick, call. simpl. rewrite Hc. simpl.
  unfold ConcatChunkToResult. rewrite (proj2 (Nat.leb_le _ _)) by lia.
  rewrite (proj2 (Nat.ltb_lt _ _)) by lia. simpl. destruct fuel; simpl; eexists; (split; [done|]); done.
Qed.
End theorems.

(** * Detection of gzip

    What the type of a stream of unknown type must be, from all bytes pushed. *)
Definition detect (l : bytes) : UnzipType :=
  match l with
  | [] => UNZIP
  | b :: l =>
      if decide (b = x1f) then
        match l with [] => UNZIP | c :: _ => if decide (c = x8b) then GUNZIP else INFLATE end
      else INFLATE
  end.

Section detection.
Context {St : Type} `{Zlib St} (pagesize : nat).
Implicit Types (w : Wrapper St).

Lemma run_last_type fuel w t f w' r :
  run_last pagesize fuel w t f = Ret (w', r) -> type w' = type w.
Proof.
  unfold run_last. intros ((e & t1) & _ & Heq)%outcome_bind_inv.
  destruct (t_error t1); [apply outcome_bind_inv in Heq as (? & _ & Heq)|]; by injection Heq as <- <-.
Qed.

Lemma Unzip_sync_type fuel w t w' r : Unzip_sync pagesize fuel w t = Ret (w', r) -> type w' = type w.
Proof.
  unfold Unzip_sync. destruct (head_task w); [|apply run_last_type].
  intros ((e & h) & _ & Heq)%outcome_bind_inv.
  destruct (t_error h); [|by apply run_last_type in Heq].
  apply outcome_bind_inv in Heq as (? & _ & Heq). by injection Heq as <- <-.
Qed.

Lemma push_rest_type fuel w a t w' r : push_rest pagesize fuel w a t = Ret (w', r) -> type w' = type w.
Proof.
  unfold push_rest. pose proof (type_ensure_init w) as <-. destruct (ensure_init w) as [w1 ok]. simpl.
  destruct ok; simpl; [|by intros [= <- <-]]. destruct (is_sync w1).
  - destruct (type w1) eqn:E; rewrite <- E; [apply Unzip_sync_type|apply run_last_type].
  - intros [= <- <-]. by destruct (enqueue_same (set_head w1 None) (match head_task w1 with Some h => [h; t] | None => [t] end) (tid t) (p_callback a)).
Qed.

(** The type is what the bytes so far say, and the parser's state follows it. *)
Definition detected w (l : bytes) : Prop :=
  type w = TUnzip (detect l) /\
  match l with
  | [] => first_two w = kNonParsed
  | [b] => b = x1f -> first_two w = kFirstParsed
  | _ => True
  end.

Lemma detect_more l b k : detect l <> UNZIP -> detect (l ++ b :: k) = detect l.
Proof. destruct l as [|c [|d l]]; simpl; try done. by case_decide. Qed.

Lemma detected_known w l k :
  type w = TUnzip (detect l) -> detect l <> UNZIP -> detected w (l ++ k).
Proof.
  intros Ht Hd. destruct k as [|b k]; [rewrite app_nil_r|]; split; rewrite ?detect_more; try done.
  - destruct l as [|c [|d l]]; simpl in *; try done. by case_decide.
  - by destruct l as [|c [|d l]].
Qed.

Lemma ReturnEmpty_type w cb t :
  type (ReturnEmptyResultSyncOrAsync w cb t).1 = type w /\
  first_two (ReturnEmptyResultSyncOrAsync w cb t).1 = first_two w.
Proof. unfold ReturnEmptyResultSyncOrAsync. by destruct (is_sync w). Qed.

Lemma sniff_detect w t l w1 pk :
  detected w l -> detect l = UNZIP -> input t <> [] -> sniff w t = Ret (w1, pk) ->
  detected w1 (l ++ input t) /\ (pk = false -> detect (l ++ input t) <> UNZIP).
Proof.
  intros [Hty Hf] Hu Hne. unfold sniff, detected.
  destruct (input t) as [|b k]; [done|]. destruct l as [|c [|d l]]; simpl in *.
  - rewrite Hf. simpl. case_decide as Hb; subst.
    + destruct k as [|b2 k]; simpl; [by intros [= <- <-]|]. intros [= <- <-]. simpl. by case_decide.
    + intros [= <- <-]. simpl. by destruct k.
  - case_decide as Hc; [|done]. rewrite Hf by done. simpl. intros [= <- <-]. simpl.
    by case_decide.
  - case_decide; [|done]. by case_decide.
Qed.

Lemma Push_detected fuel w l a w' r :
  detected w l -> Push pagesize fuel w a = Ret (w', r) -> detected w' (l ++ p_data a).
Proof.
  intros [Hty Hf] HP. rewrite Push_eq in HP by (by rewrite Hty).
  pose proof (eq_refl : input (new_task w a).2 = p_data a) as Hin.
  pose proof (eq_refl : type (new_task w a).1 = type w) as Ht0.
  pose proof (eq_refl : first_two (new_task w a).1 = first_two w) as Hf0.
  destruct (new_task w a) as [w0 t]. simpl in Hin, Ht0, Hf0. unfold quiet in HP. rewrite Hty in HP.
  case_bool_decide as Hd.
  { rewrite Hd, app_nil_r. destruct (ReturnEmpty_type w0 (p_callback a) t) as [E1 E2].
    injection HP as HP. rewrite HP in E1, E2. simpl in *. split; congruence || (rewrite E2, Hf0; done). }
  destruct (decide (detect l = UNZIP)) as [Hu|Hu].
  - rewrite Hu in HP. apply outcome_bind_inv in HP as ((w1 & pk) & Hs & HP).
    destruct (sniff_detect w0 t l w1 pk) as [Hd1 Hk]; try done.
    { unfold detected. by rewrite Ht0, Hf0. }
    { by rewrite Hin. }
    rewrite Hin in *. destruct pk.
    + destruct (ReturnEmpty_type w1 (p_callback a) t) as [E1 E2].
      injection HP as HP. rewrite HP in E1, E2. simpl in *. unfold detected. by rewrite E1, E2.
    + apply push_rest_type in HP. rewrite <- (app_nil_r (l ++ p_data a)).
      apply detected_known; [|by apply Hk]. rewrite HP. by destruct Hd1.
  - assert (push_rest pagesize fuel w0 a t = Ret (w', r)) as HP' by (by destruct (detect l)).
    apply push_rest_type in HP'. apply detected_known; congruence.
Qed.

(** Detection of gzip does not depend on how the input is cut: after any
    pushes to a wrapper of unknown type, synchronous or not, the type is GUNZIP
    exactly when the first two bytes pushed are 1f 8b, still unknown before two
    bytes when the first may be 1f, and INFLATE otherwise. *)
Theorem unzip_detects_gzip (sync : bool) (wb : Z) (opt : Z * Z * Z) (fuel : nat) (ps : list PushArgs)
    (w : Wrapper St) (rs : list PushResult) :
  push_all pagesize fuel (New (TUnzip UNZIP) sync wb opt) ps = Ret (w, rs) ->
  type w = TUnzip (detect (mjoin (p_data <$> ps))).
Proof.
  assert (forall l w0 rs w', detected w0 l -> push_all pagesize fuel w0 ps = Ret (w', rs) ->
    detected w' (l ++ mjoin (p_data <$> ps))) as Hall.
  { induction ps as [|a ps IH]; intros l w0 rs' w' Hd Hrun; simpl in *.
    - injection Hrun as <- <-. by rewrite app_nil_r.
    - apply outcome_bind_inv in Hrun as ((w1 & r1) & H1 & Hrun).
      apply outcome_bind_inv in Hrun as ((w2 & rs2) & H2 & Hrun). injection Hrun as <- <-.
      rewrite (assoc_L (++)). eapply IH; [|exact H2]. by eapply Push_detected. }
  intros Hrun. apply (Hall [] _ _ _) in Hrun; [|done]. by destruct Hrun.
Qed.
End detection.

(** * A concrete stream: two header bytes are dropped and the rest is copied *)

Definition copy_zcall (k : Kind) (s : nat) (i : bytes) (n : nat) (f : Z) : nat * status * nat * bytes :=
  let h := Nat.min s (length i) in
  let o := take n (drop h i) in
  (s - h, (match k with
           | Zip => if decide (f = Z_FINISH /\ length o < n)%nat then Z_STREAM_END else Z_OK
           | Unzip => if decide (f = Z_FINISH) then Z_BUF_ERROR else Z_OK
           end), h + length o, o)%nat.

#[local] Instance CopyZlib : Zlib nat := {
  zinit k wb opt := if 0 <=? wb then Some 2%nat else None;
  zcall := copy_zcall;
  zend k s := Z_OK }.

#[local] Program Instance CopyZlibLaws : ZlibLaws nat := { zrem k s i f := length i }.
Next Obligation. auto. Qed.
Next Obligation.
  simpl. unfold copy_zcall. intros k s i n f s' ret c o [= <- <- <- <-].
  rewrite length_take, length_drop. lia.
Qed.
Next Obligation.
  simpl. unfold copy_zcall. intros k s i n f s' ret c o [= <- <- <- <-].
  rewrite length_take, length_drop. lia.
Qed.
Next Obligation.
  simpl. unfold copy_zcall. intros k s i n f s' ret c o [= <- <- <- <-].
  split_and!; destruct k; try done; intros; try split; intros; case_decide; subst; try done; tauto.
Qed.
Next Obligation.
  simpl. unfold copy_zcall. intros k s i n f s' ret c o [= <- <- <- <-] _.
  rewrite length_drop, length_take, length_drop. lia.
Qed.
Next Obligation.
  simpl. unfold copy_zcall. intros wb opt s n f s' ret c o Hi [= <- <- <- <-].
  destruct (0 <=? wb); [|done]. injection Hi as <-. simpl. by rewrite take_nil.
Qed.

Definition copy_pushes : list PushArgs :=
  [mkPush [x1f] 0 1; mkPush [x8b; x41] 0 2; mkPush [] 0 3; mkPush [x42; x43] 0 4].

Lemma copy_inits k : inits k 15 (0, 0, 0).
Proof. split; simpl; eauto. Defined.

Lemma zlib_sync_faithful_witness :
  inits Unzip 15 (0, 0, 0) /\
  exists w rs N,
    (forall fuel, (N <= fuel)%nat -> push_all 8 fuel (New (TUnzip UNZIP) true 15 (0, 0, 0)) copy_pushes = Ret (w, rs)) /\
    is_ret (destroy w) = true /\
    let s := stream (engine w) in
    let ins := mjoin (p_data <$> copy_pushes) in
    let outs := mjoin (result_bytes <$> rs) in
    z_fed s `prefix_of` ins /\ outs `prefix_of` z_made s /\
    (errored (engine w) = false -> outs = z_made s) /\
    (errored (engine w) = false -> finished (engine w) = false -> ins = z_fed s ++ parked w).
Proof.
  split; [apply copy_inits|].
  apply (zlib_sync_faithful 8 ltac:(lia) (TUnzip UNZIP) 15 (0, 0, 0) copy_pushes); [apply copy_inits|].
  by repeat constructor.
Defined.


Lemma inflate_finish_full_chunk_aborts_witness :
  Push 2 1 (New (TUnzip INFLATE) true 15 (0, 0, 0)) (mkPush [x78; x9c; x41; x42; x43] Z_FINISH 1) =
    Fault CheckFailed.
Proof.
  apply (inflate_finish_full_chunk_aborts 2 15 (0, 0, 0) 0 [x78; x9c; x41; x42; x43] 1
           2%nat 0%nat 4%nat [x41; x42]); [reflexivity|discriminate|vm_compute; reflexivity|reflexivity].
Defined.

Lemma failed_init_aborts_witness :
  zinit (St := nat) Zip (-100 + 16) (0, 0, 0) = None /\
  exists w, Push 8 1 (New (TZip GZIP) true (-100) (0, 0, 0)) (mkPush [x41] 0 1) = Ret (w, RInitFailed) /\
    destroy w = Fault CheckFailed /\
    (true = true -> Push 8 2 w (mkPush [x42] 0 2) = Fault CheckFailed).
Proof.
  split; [reflexivity|].
  apply (failed_init_aborts 8 GZIP true (-100) (0, 0, 0) 1 (mkPush [x41] 0 1) (mkPush [x42] 0 2)); [reflexivity|discriminate..].
Defined.

Lemma unzip_detects_gzip_witness :
  exists w rs, push_all 8 3 (New (TUnzip UNZIP) true 15 (0, 0, 0)) copy_pushes = Ret (w, rs) /\
    type w = TUnzip GUNZIP /\ rs = [RBuffer []; RPair [] [x41]; RBuffer []; RBuffer [x42; x43]].
Proof.
  eexists _, _. split; [vm_compute; reflexivity|]. split; [|reflexivity].
  apply (unzip_detects_gzip 8 true 15 (0, 0, 0) 3 copy_pushes _ [RBuffer []; RPair [] [x41]; RBuffer []; RBuffer [x42; x43]]).
  vm_compute. reflexivity.
Defined.
