(* ===== verification/GetOpt.v ===== *)
(** * getopt_long: the options of a command line, one at a time

    The embedded getopt of src/deps/argtable/argtable3.c: [gcd] and [permute_args],
    which exchanges two neighbouring blocks of the argument vector in place along
    the cycles of a rotation, [parse_long_options] and [getopt_internal].  The
    function's static variables are the record [gstate].  The specification is
    [scan]: one pass over the arguments from left to right that lists the options
    with their arguments and sets the other arguments aside.  The theorems: the
    exchange is an exchange; calling getopt_long until it returns -1 gives the
    options of [scan], after finitely many calls and without leaving the vector, and
    leaves the other arguments, in their order, from optind on. *)

From S2P Require Import Prelude.
From Stdlib Require Import Znumtheory.
Import String.StringSyntax.

(** * Exchanging two blocks *)

(** The loop of [gcd] after its first division; the second argument decreases. *)
Fixpoint gcd_loop (fuel : nat) (a b : Z) : outcome Z :=
  match fuel with
  | O => Fault OutOfFuel
  | S fuel =>
      let c := Z.rem a b in
      if c =? 0 then Ret b else gcd_loop fuel b c
  end.

(** [src/deps/argtable/argtable3.c 1452-1463, gcd] Greatest common divisor by
    Euclid; the remainder by zero is undefined. *)
Definition gcd (a b : Z) : outcome Z :=
  if b =? 0 then Fault BadArithmetic else gcd_loop (S (Z.to_nat (Z.abs b))) a b.

Section permute.
Context {A : Type}.

(** [nargv[i]], inside the vector. *)
Definition vec_get (v : list A) (i : Z) : outcome A :=
  if i <? 0 then Fault OutOfBounds
  else match v !! Z.to_nat i with Some a => Ret a | None => Fault OutOfBounds end.

(** [nargv[i] = a], inside the vector. *)
Definition vec_set (v : list A) (i : Z) (a : A) : outcome (list A) :=
  if (i <? 0) || (Z.of_nat (length v) <=? i) then Fault OutOfBounds
  else Ret (<[Z.to_nat i := a]> v).

(** [src/deps/argtable/argtable3.c 1486-1496, permute_args] The inner loop, one
    cycle: the entry at [cstart] is the hand that carries each value to its place. *)
Fixpoint permute_cycle (j : nat) (panonopt_end nnonopts nopts cstart pos : Z)
    (nargv : list A) : outcome (list A) :=
  match j with
  | O => Ret nargv
  | S j =>
      let pos := if panonopt_end <=? pos then pos - nnonopts else pos + nopts in
      swap ← vec_get nargv pos;
      c ← vec_get nargv cstart;
      nargv ← vec_set nargv pos c;
      nargv ← vec_set nargv cstart swap;
      permute_cycle j panonopt_end nnonopts nopts cstart pos nargv
  end.

(** [src/deps/argtable/argtable3.c 1483-1497, permute_args] The outer loop over the
    cycles, from [i] on. *)
Fixpoint permute_cycles (k : nat) (i panonopt_end nnonopts nopts cyclelen : Z)
    (nargv : list A) : outcome (list A) :=
  match k with
  | O => Ret nargv
  | S k =>
      let cstart := panonopt_end + i in
      nargv ← permute_cycle (Z.to_nat cyclelen) panonopt_end nnonopts nopts cstart cstart nargv;
      permute_cycles k (i + 1) panonopt_end nnonopts nopts cyclelen nargv
  end.

(** [src/deps/argtable/argtable3.c 1470-1498, permute_args] *)
Definition permute_args (panonopt_start panonopt_end opt_end : Z) (nargv : list A)
    : outcome (list A) :=
  let nnonopts := panonopt_end - panonopt_start in
  let nopts := opt_end - panonopt_end in
  ncycle ← gcd nnonopts nopts;
  let cyclelen := Z.quot (opt_end - panonopt_start) ncycle in
  permute_cycles (Z.to_nat ncycle) 0 panonopt_end nnonopts nopts cyclelen nargv.
End permute.

Example permute_args_6 :
  permute_args 1 5 7 [0; 1; 2; 3; 4; 10; 11; 99] = Ret [0; 10; 11; 1; 2; 3; 4; 99].
Proof. reflexivity. Qed.

(** ** Euclid's loop is the greatest common divisor *)

Lemma gcd_loop_spec fuel a b :
  0 <= a -> 0 < b -> (Z.to_nat b <= fuel)%nat -> gcd_loop fuel a b = Ret (Z.gcd a b).
Proof.
  revert a b. induction fuel as [|fuel IH]; intros a b Ha Hb Hf; [lia|].
  simpl. rewrite Z.rem_mod_nonneg by lia.
  pose proof (Z.mod_pos_bound a b Hb) as Hm.
  rewrite (Z.gcd_comm a b), <-(Z.gcd_mod a b) by lia.
  destruct (Z.eqb_spec (a mod b) 0) as [->|Hz].
  - rewrite Z.gcd_0_l. f_equal. lia.
  - rewrite IH by lia. f_equal. apply Z.gcd_comm.
Qed.

Lemma gcd_spec a b : 0 <= a -> 0 < b -> gcd a b = Ret (Z.gcd a b).
Proof.
  intros. unfold gcd. destruct (Z.eqb_spec b 0); [lia|].
  apply gcd_loop_spec; lia.
Qed.

(** ** The cycles of a rotation

    The two blocks have [nn] and [no] entries and start at [P].  The loops move the
    entry at relative position [p] to [(p - nn) mod n].  The cycle that starts at
    [nn + i] visits the positions congruent to [i] modulo the greatest common
    divisor [g], each once. *)
Section cycles.
Context (nn no : Z).
Hypothesis Hnn : 0 < nn.
Hypothesis Hno : 0 < no.
Let n := nn + no.
Let g := Z.gcd nn no.
Let L := n / g.

Definition orbit (i m : Z) : Z := (nn + i - m * nn) mod (nn + no).

Lemma g_pos : 0 < g.
Proof. pose proof (Z.gcd_nonneg nn no). assert (g <> 0); [|lia]. intros E%Z.gcd_eq_0_l. lia. Qed.

Lemma n_gL : n = g * L.
Proof.
  unfold L. apply Z.div_exact; [pose proof g_pos; lia|]. apply Z.mod_divide; [pose proof g_pos; lia|].
  apply Z.divide_add_r; [apply Z.gcd_divide_l | apply Z.gcd_divide_r].
Qed.

Lemma L_pos : 0 < L.
Proof. pose proof n_gL. pose proof g_pos. unfold n in *. nia. Qed.

Lemma g_le_no : g <= no.
Proof. apply Z.divide_pos_le; [done | apply Z.gcd_divide_r]. Qed.

Lemma gcd_n_nn : Z.gcd n nn = g.
Proof.
  unfold g, n. replace (nn + no) with (no + 1 * nn) by lia.
  by rewrite Z.gcd_comm, Z.gcd_add_mult_diag_r.
Qed.

Lemma orbit_range i m : 0 <= orbit i m < n.
Proof. apply Z.mod_pos_bound. unfold n. lia. Qed.

Lemma orbit_succ i m :
  orbit i (m + 1) = if nn <=? orbit i m then orbit i m - nn else orbit i m + no.
Proof.
  pose proof (orbit_range i m) as Hr. unfold n in Hr.
  unfold orbit in *. set (x := nn + i - m * nn) in *.
  replace (nn + i - (m + 1) * nn) with (x - nn) by (unfold x; lia).
  rewrite <-Zminus_mod_idemp_l. set (y := x mod (nn + no)) in *.
  destruct (Z.leb_spec nn y).
  - rewrite Z.mod_small; lia.
  - replace (y - nn) with (y + no + (-1) * (nn + no)) by lia.
    rewrite Z.mod_add, Z.mod_small; lia.
Qed.

Lemma orbit_0 i : 0 <= i < g -> orbit i 0 = nn + i.
Proof. intros. unfold orbit. pose proof g_le_no. rewrite Z.mod_small; lia. Qed.

Lemma orbit_class i m : 0 <= i < g -> orbit i m mod g = i.
Proof.
  intros Hi. unfold orbit. fold n.
  assert (Hdn : (g | nn)) by apply Z.gcd_divide_l. destruct Hdn as [u Hu].
  rewrite n_gL, Z.rem_mul_r by (pose proof g_pos; pose proof L_pos; lia).
  rewrite (Z.mul_comm g), Z.mod_add, Z.mod_mod by (pose proof g_pos; lia).
  replace (nn + i - m * nn) with (i + ((1 - m) * u) * g) by (rewrite Hu; ring).
  rewrite Z.mod_add by (pose proof g_pos; lia). by apply Z.mod_small.
Qed.

Lemma orbit_period i m m' : orbit i m = orbit i m' <-> (L | m - m').
Proof.
  pose proof g_pos. pose proof L_pos. pose proof n_gL as Hn.
  assert (Hdn : (g | nn)) by apply Z.gcd_divide_l. destruct Hdn as [u Hu].
  unfold orbit. fold n.
  transitivity (n | (m - m') * nn).
  - assert (Hn0 : n <> 0) by (unfold n; lia). split; intros Hx.
    + apply Z.mod_divide; [done|].
      replace ((m - m') * nn) with ((nn + i - m' * nn) - (nn + i - m * nn)) by ring.
      rewrite Zminus_mod, <-Hx, Z.sub_diag. by apply Z.mod_0_l.
    + destruct Hx as [k Hk].
      replace (nn + i - m' * nn) with (nn + i - m * nn + k * n) by (rewrite <-Hk; ring).
      by rewrite Z.mod_add.
  - rewrite Hn. rewrite Hu at 1. replace ((m - m') * (u * g)) with (g * ((m - m') * u)) by ring.
    rewrite Z.mul_divide_cancel_l by lia. split; intros Hd.
    + apply (Z.gauss _ u); [by rewrite Z.mul_comm|].
      apply (Z.mul_reg_r _ _ g); [lia|]. rewrite Z.mul_1_l, <-Z.gcd_mul_mono_r_nonneg by lia.
      rewrite (Z.mul_comm L), <-Hn, <-Hu. apply gcd_n_nn.
    + by apply Z.divide_mul_l.
Qed.

Lemma orbit_inj i m m' : 0 <= m < L -> 0 <= m' < L -> orbit i m = orbit i m' -> m = m'.
Proof.
  intros Hm Hm' [k Hk]%orbit_period. assert (k = 0) by nia. subst. lia.
Qed.

Lemma orbit_cover i p :
  0 <= i < g -> 0 <= p < n -> p mod g = i -> exists m, 0 <= m < L /\ p = orbit i m.
Proof.
  intros Hi Hp Hc. pose proof g_pos. pose proof L_pos. pose proof n_gL as Hn.
  destruct (Z.gcd_bezout nn n g) as (a & b & Hab); [by rewrite Z.gcd_comm, gcd_n_nn|].
  assert (Hdn : (g | nn)) by apply Z.gcd_divide_l. destruct Hdn as [u Hu].
  set (t := u - p / g).
  assert (Ht : nn + i - p = t * g).
  { unfold t. rewrite Hu at 1. rewrite <-Hc. pose proof (Z.div_mod p g). lia. }
  exists ((t * a) mod L). split; [apply Z.mod_pos_bound; lia|].
  transitivity (orbit i (t * a)).
  - unfold orbit. fold n.
    replace (nn + i - t * a * nn) with (p + (t * b) * n).
    + rewrite Z.mod_add, Z.mod_small; unfold n in *; lia.
    + assert (t * g = t * a * nn + t * b * n) by (rewrite <-Hab; ring). lia.
  - apply orbit_period. exists (t * a / L). pose proof (Z.div_mod (t * a) L). lia.
Qed.
End cycles.

(** ** The loops of [permute_args] *)
Section rotation.
Context {A : Type} (nn no P : Z).
Hypothesis Hnn : 0 < nn.
Hypothesis Hno : 0 < no.
Hypothesis HP : 0 <= P.
Let n := nn + no.
Let g := Z.gcd nn no.
Let L := n / g.
Implicit Types v w : list A.

(** The entry at relative position [p]. *)
Definition at_rel v (p : Z) : option A := v !! Z.to_nat (P + p).

(** Entries outside the two blocks are the same. *)
Definition same_outside v w : Prop :=
  length v = length w /\
  forall q : nat, ~ (P <= Z.of_nat q < P + (nn + no)) -> v !! q = w !! q.

Lemma same_outside_trans u v w :
  same_outside u v -> same_outside v w -> same_outside u w.
Proof. intros [? H1] [? H2]. split; [congruence|]. intros. by rewrite H1, H2. Qed.

Lemma vec_get_at v p : 0 <= p -> P + p < Z.of_nat (length v) ->
  exists a, vec_get v (P + p) = Ret a /\ at_rel v p = Some a.
Proof.
  intros. unfold vec_get, at_rel. destruct (Z.ltb_spec (P + p) 0); [lia|].
  destruct (lookup_lt_is_Some_2 v (Z.to_nat (P + p))) as [a Ha]; [lia|].
  exists a. by rewrite Ha.
Qed.

Lemma vec_set_at v p a : 0 <= p -> P + p < Z.of_nat (length v) ->
  vec_set v (P + p) a = Ret (<[Z.to_nat (P + p) := a]> v).
Proof.
  intros. unfold vec_set. destruct (Z.ltb_spec (P + p) 0); [lia|].
  destruct (Z.leb_spec (Z.of_nat (length v)) (P + p)); [lia|done].
Qed.

(** One step of a cycle: positions [c] (the hand) and [p] exchange their entries. *)
Lemma cycle_step v j c p p' :
  p' = (if nn <=? p then p - nn else p + no) ->
  0 <= c < n -> 0 <= p < n -> P + n <= Z.of_nat (length v) ->
  exists w,
    permute_cycle (S j) (P + nn) nn no (P + c) (P + p) v
      = permute_cycle j (P + nn) nn no (P + c) (P + p') w /\
    same_outside v w /\
    (forall q, 0 <= q < n ->
       at_rel w q = if q =? c then at_rel v p' else if q =? p' then at_rel v c else at_rel v q).
Proof.
  intros Hp' Hc Hp Hlen. simpl.
  replace (if P + nn <=? P + p then P + p - nn else P + p + no) with (P + p').
  2:{ subst. destruct (Z.leb_spec nn p), (Z.leb_spec (P + nn) (P + p)); lia. }
  assert (0 <= p' < n) by (subst; unfold n in *; destruct (Z.leb_spec nn p); lia). clear Hp' Hp.
  destruct (vec_get_at v p') as (a & -> & Ha); [lia..|].
  destruct (vec_get_at v c) as (b & -> & Hb); [lia..|]. simpl.
  rewrite vec_set_at by lia. simpl. rewrite vec_set_at by (rewrite ?length_insert; lia). simpl.
  eexists. split; [reflexivity|]. split.
  - split; [by rewrite !length_insert|]. intros q Hq. unfold n in *.
    rewrite !list_lookup_insert_ne by lia. done.
  - intros q Hq. rewrite Ha, Hb. unfold at_rel.
    destruct (Z.eqb_spec q c) as [->|].
    + rewrite list_lookup_insert_eq; [done|]. rewrite length_insert. lia.
    + rewrite list_lookup_insert_ne by lia. destruct (Z.eqb_spec q p') as [->|].
      * rewrite list_lookup_insert_eq; [done|]. lia.
      * by rewrite list_lookup_insert_ne by lia.
Qed.

(** Where the rotation moves the entry at [p]. *)
Definition moved (p : Z) : Z := if nn <=? p then p - nn else p + no.

Lemma cycle_prefix i v (Hi : 0 <= i < g) (Hlen : P + n <= Z.of_nat (length v)) (k : nat) :
  Z.of_nat k < L -> forall j, exists w,
    permute_cycle (k + j) (P + nn) nn no (P + (nn + i)) (P + (nn + i)) v
      = permute_cycle j (P + nn) nn no (P + (nn + i)) (P + orbit nn no i (Z.of_nat k)) w /\
    same_outside v w /\
    at_rel w (nn + i) = at_rel v (orbit nn no i (Z.of_nat k)) /\
    (forall m, 1 <= m <= Z.of_nat k ->
       at_rel w (orbit nn no i m) = at_rel v (orbit nn no i (m - 1))) /\
    (forall q, 0 <= q < n -> (forall m, 0 <= m <= Z.of_nat k -> q <> orbit nn no i m) ->
       at_rel w q = at_rel v q).
Proof.
  pose proof (orbit_0 nn no Hnn Hno i Hi) as H0.
  pose proof (orbit_range nn no Hnn Hno i) as Hr. fold n in Hr.
  induction k as [|k IH]; intros Hk j.
  { exists v. change (Z.of_nat 0) with 0. rewrite H0. repeat split; intros; try lia; done. }
  destruct (IH ltac:(lia) (S j)) as (w & Hrun & Hout & Ha & Hb & Hc). clear IH.
  replace (S k + j)%nat with (k + S j)%nat by lia.
  destruct (cycle_step w j (nn + i) (orbit nn no i (Z.of_nat k)) (orbit nn no i (Z.of_nat (S k))))
    as (w' & Hrun' & Hout' & Hq).
  - rewrite <-orbit_succ by done. f_equal. lia.
  - rewrite <-H0. apply Hr.
  - apply Hr.
  - by destruct Hout as [<- _].
  - set (o := orbit nn no i) in *.
    assert (Hne : forall m m', 0 <= m < L -> 0 <= m' < L -> m <> m' -> o m <> o m').
    { intros m m' ? ? Hmm He. apply Hmm. by eapply (orbit_inj nn no Hnn Hno i). }
    assert (Hfresh : at_rel w (o (Z.of_nat (S k))) = at_rel v (o (Z.of_nat (S k)))).
    { apply Hc; [apply Hr|]. intros m Hm. apply Hne; lia. }
    exists w'. rewrite Hrun, Hrun'. split; [done|]. split; [by eapply same_outside_trans|].
    rewrite <-H0 in *. repeat split.
    + by rewrite Hq, Z.eqb_refl by apply Hr.
    + intros m Hm. rewrite Hq by apply Hr.
      destruct (Z.eqb_spec (o m) (o 0)) as [He|_]; [exfalso; by apply (Hne m 0) in He; lia|].
      destruct (Z.eqb_spec (o m) (o (Z.of_nat (S k)))) as [He|Hd].
      * destruct (decide (m = Z.of_nat (S k))) as [->|]; [|exfalso; by apply (Hne m (Z.of_nat (S k))) in He; lia].
        rewrite Ha. do 2 f_equal. lia.
      * apply Hb. assert (m <> Z.of_nat (S k)) by (by intros ->). lia.
    + intros q Hqr Hm. rewrite Hq by done.
      destruct (Z.eqb_spec q (o 0)) as [->|_]; [by destruct (Hm 0); lia|].
      destruct (Z.eqb_spec q (o (Z.of_nat (S k)))) as [->|_]; [by destruct (Hm (Z.of_nat (S k))); lia|].
      apply Hc; [done|]. intros m ?. apply Hm. lia.
Qed.

(** A whole cycle rotates the positions of its class and no other. *)
Lemma cycle_rotates i v :
  0 <= i < g -> P + n <= Z.of_nat (length v) ->
  exists w, permute_cycle (Z.to_nat L) (P + nn) nn no (P + nn + i) (P + nn + i) v = Ret w /\
    same_outside v w /\
    (forall p, 0 <= p < n -> p mod g = i -> at_rel w (moved p) = at_rel v p) /\
    (forall p, 0 <= p < n -> p mod g <> i -> at_rel w p = at_rel v p).
Proof.
  intros Hi Hlen. pose proof (L_pos nn no Hnn Hno) as HL. fold n g L in HL.
  pose proof (orbit_0 nn no Hnn Hno i Hi) as H0.
  pose proof (orbit_range nn no Hnn Hno i) as Hr. fold n in Hr.
  destruct (cycle_prefix i v Hi Hlen (Z.to_nat (L - 1)) ltac:(lia) 1) as (w & Hrun & Hout & Ha & Hb & Hc).
  rewrite Z2Nat.id in * by lia.
  replace (Z.to_nat (L - 1) + 1)%nat with (Z.to_nat L) in Hrun by lia.
  assert (Hlast : orbit nn no i L = nn + i).
  { rewrite <-H0. apply (orbit_period nn no Hnn Hno). exists 1. fold n g L. lia. }
  destruct (cycle_step w 0 (nn + i) (orbit nn no i (L - 1)) (nn + i)) as (w' & Hrun' & Hout' & Hq).
  { rewrite <-orbit_succ, <-Hlast by done. f_equal. lia. }
  { rewrite <-H0. apply Hr. } { apply Hr. } { by destruct Hout as [<- _]. }
  rewrite <-!Z.add_assoc, Hrun, Hrun'. exists w'. split; [done|].
  split; [by eapply same_outside_trans|].
  assert (Hid : forall q, 0 <= q < n -> at_rel w' q = at_rel w q).
  { intros q ?. rewrite Hq by done. by destruct (Z.eqb_spec q (nn + i)) as [->|]. }
  split; intros p Hp Hcl.
  - destruct (orbit_cover nn no Hnn Hno i p Hi Hp Hcl) as (m & Hm & ->).
    unfold moved. rewrite <-orbit_succ, Hid by (done || apply Hr).
    destruct (decide (m = L - 1)) as [->|].
    + replace (L - 1 + 1) with L by lia. by rewrite Hlast, Ha.
    + fold n g L in Hm. rewrite Hb by lia. do 2 f_equal. lia.
  - rewrite Hid by done. apply Hc; [done|]. intros m _ ->. apply Hcl.
    by apply (orbit_class nn no Hnn Hno).
Qed.

Lemma moved_class p : 0 <= p < n -> 0 <= moved p < n /\ moved p mod g = p mod g.
Proof.
  intros Hp. unfold moved, n in *. assert (Hg : g <> 0) by (pose proof (g_pos nn no Hnn); unfold g; lia).
  destruct (Z.gcd_divide_l nn no) as [u Hu], (Z.gcd_divide_r nn no) as [u' Hu']. fold g in Hu, Hu'.
  destruct (Z.leb_spec nn p); split; try lia.
  - replace (p - nn) with (p + (- u) * g) by lia. by apply Z.mod_add.
  - replace (p + no) with (p + u' * g) by lia. by apply Z.mod_add.
Qed.

(** After the cycles from [i] on, the classes from [i] on are rotated. *)
Lemma cycles_rotate (k : nat) i v :
  0 <= i -> i + Z.of_nat k = g -> P + n <= Z.of_nat (length v) ->
  exists w, permute_cycles k i (P + nn) nn no L v = Ret w /\ same_outside v w /\
    (forall p, 0 <= p < n -> i <= p mod g -> at_rel w (moved p) = at_rel v p) /\
    (forall p, 0 <= p < n -> p mod g < i -> at_rel w p = at_rel v p).
Proof.
  revert i v. induction k as [|k IH]; intros i v Hi Hk Hlen.
  { exists v. repeat split; auto. intros p _ Hpg.
    pose proof (Z.mod_pos_bound p g ltac:(apply g_pos; done)). lia. }
  destruct (cycle_rotates i v ltac:(lia) Hlen) as (w & Hrun & Hout & Hin & Hnot).
  destruct (IH (i + 1) w) as (w' & Hrun' & Hout' & Hin' & Hnot'); [lia..|by destruct Hout as [<- _]|].
  simpl. rewrite Hrun. simpl. exists w'. split; [done|]. split; [by eapply same_outside_trans|].
  split; intros p Hp Hpg.
  - destruct (decide (p mod g = i)) as [He|].
    + pose proof (moved_class p Hp) as [? Hm]. rewrite Hnot' by lia. by apply Hin.
    + rewrite Hin' by lia. by apply Hnot.
  - rewrite Hnot' by lia. apply Hnot; lia.
Qed.
End rotation.

Lemma permute_args_blocks {A} (pre nonopts opts post : list A) :
  nonopts <> [] -> opts <> [] ->
  permute_args (Z.of_nat (length pre))
               (Z.of_nat (length pre + length nonopts))
               (Z.of_nat (length pre + length nonopts + length opts))
               (pre ++ nonopts ++ opts ++ post)
  = Ret (pre ++ opts ++ nonopts ++ post).
Proof.
  intros Hn Ho. unfold permute_args.
  set (P := Z.of_nat (length pre)). set (nn := Z.of_nat (length nonopts)).
  set (no := Z.of_nat (length opts)).
  assert (Hnn : 0 < nn) by (destruct nonopts; [done | unfold nn; simpl; lia]).
  assert (Hno : 0 < no) by (destruct opts; [done | unfold no; simpl; lia]).
  rewrite !Nat2Z.inj_add. fold P nn no.
  replace (P + nn - P) with nn by lia. replace (P + nn + no - (P + nn)) with no by lia.
  replace (P + nn + no - P) with (nn + no) by lia.
  rewrite gcd_spec by lia. simpl. pose proof (g_pos nn no Hnn).
  rewrite Z.quot_div_nonneg by lia. set (v := pre ++ nonopts ++ opts ++ post).
  destruct (cycles_rotate nn no P Hnn Hno ltac:(lia) (Z.to_nat (Z.gcd nn no)) 0 v)
    as (w & -> & [Hlen Hout] & Hin & _); [lia..| |].
  { unfold v. rewrite !length_app. lia. }
  f_equal. apply list_eq. intros q.
  destruct (decide (P <= Z.of_nat q < P + (nn + no))) as [Hq|Hq].
  - set (r := Z.of_nat q - P).
    set (p := if r <? no then r + nn else r - no).
    assert (Hp : 0 <= p < nn + no) by (unfold p, r; destruct (Z.ltb_spec (Z.of_nat q - P) no); lia).
    assert (Hm : moved nn no p = r).
    { unfold moved, p. destruct (Z.ltb_spec r no).
      - destruct (Z.leb_spec nn (r + nn)); lia.
      - destruct (Z.leb_spec nn (r - no)); lia. }
    specialize (Hin p Hp). rewrite Hm in Hin. unfold at_rel in Hin.
    replace (Z.to_nat (P + r)) with q in Hin by lia.
    rewrite Hin by (apply Z.mod_pos_bound; lia). unfold v, p.
    destruct (Z.ltb_spec r no).
    + rewrite lookup_app_r by lia. rewrite lookup_app_r by lia.
      rewrite (lookup_app_l opts) by lia. rewrite (lookup_app_r pre) by lia.
      rewrite lookup_app_l by lia. f_equal. lia.
    + rewrite lookup_app_r by lia. rewrite lookup_app_l by lia.
      rewrite (lookup_app_r pre) by lia. rewrite (lookup_app_r opts) by lia.
      rewrite lookup_app_l by lia. f_equal. lia.
  - rewrite <-Hout by done. unfold v. destruct (decide (Z.of_nat q < P)).
    + by rewrite !lookup_app_l by lia.
    + rewrite !(lookup_app_r pre), (lookup_app_r nonopts), (lookup_app_r opts _ (q - _ - _)),
        (lookup_app_r opts), (lookup_app_r nonopts) by lia. f_equal. lia.
Qed.

(** [permute_args] exchanges two non-empty neighbouring blocks and keeps the order
    inside each of them and every other entry: its cycles along the greatest common
    divisor of the lengths are the plain exchange of two slices, and never leave the
    vector. *)
Theorem permute_args_exchanges {A} (pre nonopts opts post : list A) :
  nonopts <> [] -> opts <> [] ->
  permute_args (Z.of_nat (length pre))
               (Z.of_nat (length pre + length nonopts))
               (Z.of_nat (length pre + length nonopts + length opts))
               (pre ++ nonopts ++ opts ++ post)
  = Ret (pre ++ opts ++ nonopts ++ post).
Proof. apply permute_args_blocks. Qed.

Lemma permute_args_exchanges_witness :
  permute_args 1 4 6 [10; 1; 2; 3; 7; 8; 9] = Ret [10; 7; 8; 1; 2; 3; 9].
Proof. by apply (permute_args_exchanges [10] [1; 2; 3] [7; 8] [9]). Defined.

(** * The state of getopt *)

(** The element type of the vector [char* const* nargv]: its last entry is NULL. *)
Abbreviation arg := (option bytes).

(** [src/deps/argtable/argtable3.c 1257-1269, option] A long option; [flag] says
    whether the pointer to the caller's variable is set. *)
Record loption := mkLoption { name : bytes; has_arg : Z; flag : bool; val : Z }.

(** [src/deps/argtable/argtable3.c 1253-1255, required_argument] *)
Definition no_argument : Z := 0.
Definition required_argument : Z := 1.
Definition optional_argument : Z := 2.

(** [src/deps/argtable/argtable3.c 1362-1393, optind] The variables of getopt.
    [place] is the argument it points into with the offset, or [None] for EMSG;
    [getoptval] is the variable the long options' flags point to. *)
Record gstate := mkG {
  nargv : list arg;
  optind : Z;
  optopt : Z;
  optreset : bool;
  optarg : arg;
  place : option (bytes * nat);
  nonopt_start : Z;
  nonopt_end : Z;
  getoptval : Z }.

Definition set_nargv s x := mkG x (optind s) (optopt s) (optreset s) (optarg s) (place s) (nonopt_start s) (nonopt_end s) (getoptval s).
Definition set_optind s x := mkG (nargv s) x (optopt s) (optreset s) (optarg s) (place s) (nonopt_start s) (nonopt_end s) (getoptval s).
Definition set_optopt s x := mkG (nargv s) (optind s) x (optreset s) (optarg s) (place s) (nonopt_start s) (nonopt_end s) (getoptval s).
Definition set_optreset s x := mkG (nargv s) (optind s) (optopt s) x (optarg s) (place s) (nonopt_start s) (nonopt_end s) (getoptval s).
Definition set_optarg s x := mkG (nargv s) (optind s) (optopt s) (optreset s) x (place s) (nonopt_start s) (nonopt_end s) (getoptval s).
Definition set_place s x := mkG (nargv s) (optind s) (optopt s) (optreset s) (optarg s) x (nonopt_start s) (nonopt_end s) (getoptval s).
Definition set_nonopt s x y := mkG (nargv s) (optind s) (optopt s) (optreset s) (optarg s) (place s) x y (getoptval s).
Definition set_getoptval s x := mkG (nargv s) (optind s) (optopt s) (optreset s) (optarg s) (place s) (nonopt_start s) (nonopt_end s) x.

(** ** C strings: no NUL inside, one after the end *)

Definition NUL : byte := x00.
(** [s[k]] for [k] up to the terminator. *)
Definition ch (s : bytes) (k : nat) : byte := default NUL (s !! k).

(** The first index of [c]. *)
Fixpoint index_of (c : byte) (s : bytes) : option nat :=
  match s with
  | [] => None
  | x :: s => if byte_eqb x c then Some O else S <$> index_of c s
  end.

(** [strchr(s, c)] as an index; the terminator is part of the string. *)
Definition strchr (s : bytes) (c : byte) : option nat := index_of c (s ++ [NUL]).

(** [strncmp(a, b, len) == 0]. *)
Definition strncmp_eq (a b : bytes) (len : nat) : bool := bool_decide (take len a = take len b).

(** The text [place] points to. *)
Definition place_str (p : option (bytes * nat)) : bytes :=
  match p with None => [] | Some (s, k) => drop k s end.
(** [place + k]. *)
Definition place_adv (p : option (bytes * nat)) (k : nat) : option (bytes * nat) :=
  match p with None => None | Some (s, j) => Some (s, j + k)%nat end.

(** [src/deps/argtable/argtable3.c 1376-1376, BADCH] *)
Definition BADCH : Z := 63.
(** [src/deps/argtable/argtable3.c 1377-1377, BADARG] *)
Definition BADARG (options : bytes) : Z := if byte_eqb (ch options 0) x3a then 58 else 63.
Definition INORDER : Z := 1.
(** [src/deps/argtable/argtable3.c 1371-1373, FLAG_PERMUTE] *)
Definition FLAG_PERMUTE : Z := 1.
Definition FLAG_ALLARGS : Z := 2.
Definition FLAG_LONGONLY : Z := 4.

(** ** Long options *)

Inductive lookup_result := Match (i : Z) | NoMatch | Ambiguous.

(** [src/deps/argtable/argtable3.c 1521-1549, parse_long_options] The search: an
    exact name ends it, a prefix is remembered, a second prefix is an error. *)
Fixpoint find_long (opts : list loption) (i : Z) (mtch : option Z) (cur : bytes) (len : nat)
    (short_too : bool) : lookup_result :=
  match opts with
  | [] => match mtch with Some m => Match m | None => NoMatch end
  | o :: opts =>
      if negb (strncmp_eq cur (name o) len) then find_long opts (i + 1) mtch cur len short_too
      else if (length (name o) =? len)%nat then Match i
      else if short_too && (len =? 1)%nat then find_long opts (i + 1) mtch cur len short_too
      else match mtch with
           | None => find_long opts (i + 1) (Some i) cur len short_too
           | Some _ => Ambiguous
           end
  end.

(** [src/deps/argtable/argtable3.c 1504-1605, parse_long_options] Messages are
    printed only when opterr is set, which the caller clears; they are left out. *)
Definition parse_long_options (options : bytes) (long_options : list loption) (short_too : bool)
    (s : gstate) : outcome (Z * gstate) :=
  let current_argv := place_str (place s) in
  let s := set_optind s (optind s + 1) in
  let has_equal := index_of x3d current_argv in
  let current_argv_len := match has_equal with Some k => k | None => length current_argv end in
  match find_long long_options 0 None current_argv current_argv_len short_too with
  | Ambiguous => Ret (BADCH, set_optopt s 0)
  | NoMatch =>
      if short_too then Ret (-1, set_optind s (optind s - 1))
      else Ret (BADCH, set_optopt s 0)
  | Match m =>
      o ← vec_get long_options m;
      if (has_arg o =? no_argument) && bool_decide (is_Some has_equal) then
        Ret (BADARG options, set_optopt s (if flag o then 0 else val o))
      else
        s ← (if (has_arg o =? required_argument) || (has_arg o =? optional_argument) then
               match has_equal with
               | Some k => Ret (set_optarg s (Some (drop (S k) current_argv)))
               | None =>
                   if has_arg o =? required_argument then
                     a ← vec_get (nargv s) (optind s);
                     Ret (set_optind (set_optarg s a) (optind s + 1))
                   else Ret s
               end
             else Ret s);
        if (has_arg o =? required_argument) && bool_decide (optarg s = None) then
          Ret (BADARG options,
               set_optind (set_optopt s (if flag o then 0 else val o)) (optind s - 1))
        else if flag o then Ret (0, set_getoptval s (val o)) else Ret (val o, s)
  end.

(** ** One option *)

(** What the code from [start:] to the option does: returns to the caller, or goes
    on with an option at [place]. *)
Inductive started := Returned (r : Z) | AtOption.

(** [src/deps/argtable/argtable3.c 1650-1718, getopt_internal] The block at [start:],
    with its jumps back.  Each jump advances optind. *)
Fixpoint getopt_start (fuel : nat) (nargc : Z) (options : bytes) (flags : Z) (s : gstate)
    : outcome (started * gstate) :=
  match fuel with
  | O => Fault OutOfFuel
  | S fuel =>
      if optreset s || bool_decide (place_str (place s) = []) then
        let s := set_optreset s false in
        if nargc <=? optind s then
          let s := set_place s None in
          s ← (if negb (nonopt_end s =? -1) then
                 v ← permute_args (nonopt_start s) (nonopt_end s) (optind s) (nargv s);
                 Ret (set_optind (set_nargv s v) (optind s - (nonopt_end s - nonopt_start s)))
               else if negb (nonopt_start s =? -1) then Ret (set_optind s (nonopt_start s))
               else Ret s);
          Ret (Returned (-1), set_nonopt s (-1) (-1))
        else
          p ← vec_get (nargv s) (optind s);
          match p with
          | None => Fault NullDeref
          | Some p =>
              if negb (byte_eqb (ch p 0) x2d)
                 || (byte_eqb (ch p 1) NUL && negb (bool_decide (is_Some (strchr options x2d)))) then
                let s := set_place s None in
                if negb (Z.land flags FLAG_ALLARGS =? 0) then
                  Ret (Returned INORDER, set_optind (set_optarg s (Some p)) (optind s + 1))
                else if Z.land flags FLAG_PERMUTE =? 0 then Ret (Returned (-1), s)
                else
                  s ← (if nonopt_start s =? -1 then Ret (set_nonopt s (optind s) (nonopt_end s))
                       else if negb (nonopt_end s =? -1) then
                         v ← permute_args (nonopt_start s) (nonopt_end s) (optind s) (nargv s);
                         Ret (set_nonopt (set_nargv s v)
                                (optind s - (nonopt_end s - nonopt_start s)) (-1))
                       else Ret s);
                  getopt_start fuel nargc options flags (set_optind s (optind s + 1))
              else
                let s := set_place s (Some (p, O)) in
                let s := if negb (nonopt_start s =? -1) && (nonopt_end s =? -1)
                         then set_nonopt s (nonopt_start s) (optind s) else s in
                if byte_eqb (ch p 1) NUL then Ret (AtOption, s)
                else
                  let s := set_place s (Some (p, 1%nat)) in
                  if byte_eqb (ch p 1) x2d && byte_eqb (ch p 2) NUL then
                    let s := set_place (set_optind s (optind s + 1)) None in
                    s ← (if negb (nonopt_end s =? -1) then
                           v ← permute_args (nonopt_start s) (nonopt_end s) (optind s) (nargv s);
                           Ret (set_optind (set_nargv s v)
                                  (optind s - (nonopt_end s - nonopt_start s)))
                         else Ret s);
                    Ret (Returned (-1), set_nonopt s (-1) (-1))
                  else Ret (AtOption, s)
          end
      else Ret (AtOption, s)
  end.

(** [src/deps/argtable/argtable3.c 1771-1792, getopt_internal] A known letter: its
    argument is the rest of the word or the next word. *)
Definition getopt_letter (nargc : Z) (options : bytes) (oli : nat) (optchar : Z) (at_end : bool)
    (s : gstate) : outcome (Z * gstate) :=
  if negb (byte_eqb (ch options (S oli)) x3a) then
    Ret (optchar, if at_end then set_optind s (optind s + 1) else s)
  else
    let s := set_optarg s None in
    let finish s := Ret (optchar, set_optind (set_place s None) (optind s + 1)) in
    if negb at_end then finish (set_optarg s (Some (place_str (place s))))
    else if negb (byte_eqb (ch options (S (S oli))) x3a) then
      let s := set_optind s (optind s + 1) in
      if nargc <=? optind s then Ret (BADARG options, set_optopt (set_place s None) optchar)
      else a ← vec_get (nargv s) (optind s); finish (set_optarg s a)
    else finish s.

(** [src/deps/argtable/argtable3.c 1740-1770, getopt_internal] The letter at
    [place]: unknown, "-W", without or with an argument. *)
Definition getopt_short (nargc : Z) (options : bytes) (long_options : option (list loption))
    (s : gstate) : outcome (Z * gstate) :=
  let c := ch (place_str (place s)) 0 in
  let optchar := schar c in
  let s := set_place s (place_adv (place s) 1) in
  let at_end := bool_decide (place_str (place s) = []) in
  let unknown := Ret (BADCH, set_optopt (if at_end then set_optind s (optind s + 1) else s) optchar) in
  if byte_eqb c x3a || (byte_eqb c x2d && negb at_end) then unknown
  else match strchr options c with
  | None => if byte_eqb c x2d && at_end then Ret (-1, s) else unknown
  | Some oli =>
      let missing s := Ret (BADARG options, set_optopt (set_place s None) optchar) in
      match long_options with
      | Some long_options =>
          if byte_eqb c x57 && byte_eqb (ch options (S oli)) x3b then
            if at_end then
              let s := set_optind s (optind s + 1) in
              if nargc <=? optind s then missing s
              else
                p ← vec_get (nargv s) (optind s);
                match p with
                | None => Fault NullDeref
                | Some p =>
                    '(r, s) ← parse_long_options options long_options false (set_place s (Some (p, O)));
                    Ret (r, set_place s None)
                end
            else
              '(r, s) ← parse_long_options options long_options false s;
              Ret (r, set_place s None)
          else getopt_letter nargc options oli optchar at_end s
      | None => getopt_letter nargc options oli optchar at_end s
      end
  end.

(** [src/deps/argtable/argtable3.c 1612-1794, getopt_internal] [posixly_correct] is
    whether the environment has POSIXLY_CORRECT; [long_options] is [None] for NULL. *)
Definition getopt_internal (posixly_correct : bool) (nargc : Z) (options : bytes)
    (long_options : option (list loption)) (flags : Z) (s : gstate) : outcome (Z * gstate) :=
  let flags := if posixly_correct || byte_eqb (ch options 0) x2b
               then Z.land flags (Z.lnot FLAG_PERMUTE)
               else if byte_eqb (ch options 0) x2d then Z.lor flags FLAG_ALLARGS else flags in
  let options := if byte_eqb (ch options 0) x2b || byte_eqb (ch options 0) x2d
                 then drop 1 options else options in
  let s := if optind s =? 0 then set_optreset (set_optind s 1) true else s in
  let s := set_optarg s None in
  let s := if optreset s then set_nonopt s (-1) (-1) else s in
  '(r, s) ← getopt_start (S (Z.to_nat (nargc - optind s))) nargc options flags s;
  match r with
  | Returned r => Ret (r, s)
  | AtOption =>
      let p := place_str (place s) in
      (* [place != nargv[optind]]: not at the start of the argument *)
      let inside := match place s with Some (_, k) => negb (k =? 0)%nat | None => true end in
      match long_options with
      | Some lo =>
          if inside && (byte_eqb (ch p 0) x2d || negb (Z.land flags FLAG_LONGONLY =? 0)) then
            let dash := byte_eqb (ch p 0) x2d in
            let short_too := negb dash && negb (byte_eqb (ch p 0) x3a)
                             && bool_decide (is_Some (strchr options (ch p 0))) in
            let s := if dash then set_place s (place_adv (place s) 1) else s in
            '(optchar, s) ← parse_long_options options lo short_too s;
            if negb (optchar =? -1) then Ret (optchar, set_place s None)
            else getopt_short nargc options long_options s
          else getopt_short nargc options long_options s
      | None => getopt_short nargc options long_options s
      end
  end.

(** [src/deps/argtable/argtable3.c 1818-1820, getopt_long] *)
Definition getopt_long (posixly_correct : bool) (nargc : Z) (options : bytes)
    (long_options : list loption) (s : gstate) : outcome (Z * gstate) :=
  getopt_internal posixly_correct nargc options (Some long_options) FLAG_PERMUTE s.

(** [src/deps/argtable/argtable3.c 1826-1828, getopt_long_only] *)
Definition getopt_long_only (posixly_correct : bool) (nargc : Z) (options : bytes)
    (long_options : list loption) (s : gstate) : outcome (Z * gstate) :=
  getopt_internal posixly_correct nargc options (Some long_options)
    (Z.lor FLAG_PERMUTE FLAG_LONGONLY) s.

(** [src/deps/argtable/argtable3.c 1801-1812, getopt] *)
Definition getopt (posixly_correct : bool) (nargc : Z) (options : bytes) (s : gstate)
    : outcome (Z * gstate) :=
  getopt_internal posixly_correct nargc options None 0 s.

(** * The caller's loop and the items it sees *)

(** [while ((copt = getopt_long(...)) != -1) body]. *)
Fixpoint getopt_while {X : Type} (next : gstate -> outcome (Z * gstate))
    (body : Z -> gstate -> X -> outcome X) (fuel : nat) (s : gstate) (x : X)
    : outcome (gstate * X) :=
  match fuel with
  | O => Fault OutOfFuel
  | S fuel =>
      '(copt, s) ← next s;
      if copt =? -1 then Ret (s, x)
      else x ← body copt s x; getopt_while next body fuel s x
  end.

(** What one return of getopt means to its caller; [text] is the word it
    shows in a message. *)
Inductive item :=
  | LongOpt (tab : Z) (value : arg) (text : arg)
  | ShortOpt (c : Z) (value : arg)
  | MissingArg (text : arg)
  | BadLong (text : arg)
  | BadShort (c : Z).

(** The item of a return value and the variables of getopt. *)
Definition item_of (copt : Z) (s : gstate) : item :=
  let text := mjoin (nargv s !! Z.to_nat (optind s - 1)) in
  if copt =? 0 then LongOpt (getoptval s) (optarg s) text
  else if copt =? BADCH then
    if optopt s =? 0 then BadLong text else BadShort (optopt s)
  else if copt =? 58 then MissingArg text
  else ShortOpt copt (optarg s).

(** * The specification: one pass from left to right *)
Section spec.
(** [posix]: POSIXLY_CORRECT is in the environment. *)
Context (posix : bool) (options : bytes) (long_options : list loption).

(** An option that waits for its argument. *)
Inductive want := WantLong (tab : Z) (text : bytes) | WantShort (c : Z) (text : bytes).

(** The long option named by [cur]; [a] is the whole word. *)
Definition long_items (cur a : bytes) : list item * option want :=
  let eq := index_of x3d cur in
  let len := match eq with Some k => k | None => length cur end in
  let value := (fun k => drop (S k) cur) <$> eq in
  match find_long long_options 0 None cur len false with
  | Ambiguous | NoMatch => ([BadLong (Some a)], None)
  | Match m =>
      match long_options !! Z.to_nat m with
      | None => ([], None)
      | Some o =>
          if has_arg o =? required_argument then
            match value with
            | Some v => ([LongOpt (val o) (Some v) (Some a)], None)
            | None => ([], Some (WantLong (val o) a))
            end
          else if has_arg o =? optional_argument then ([LongOpt (val o) value (Some a)], None)
          else if has_arg o =? no_argument then
            match value with
            | Some _ => ([MissingArg (Some a)], None)
            | None => ([LongOpt (val o) None (Some a)], None)
            end
          else ([LongOpt (val o) None (Some a)], None)
      end
  end.

(** The letters [cs] of the word [a]; a dash among them starts a long name. *)
Fixpoint word_items (cs a : bytes) : list item * option want :=
  match cs with
  | [] => ([], None)
  | c :: cs' =>
      let continue i := let '(its, w) := word_items cs' a in (i :: its, w) in
      if byte_eqb c x2d then long_items cs' a
      else match (if byte_eqb c x3a then None else strchr options c) with
      | None => continue (BadShort (schar c))
      | Some k =>
          if negb (byte_eqb (ch options (S k)) x3a) then continue (ShortOpt (schar c) None)
          else match cs' with
          | _ :: _ => ([ShortOpt (schar c) (Some cs')], None)
          | [] => if negb (byte_eqb (ch options (S (S k))) x3a)
                  then ([], Some (WantShort (schar c) a))
                  else ([ShortOpt (schar c) None], None)
          end
      end
  end.

(** A word that is no option: it does not start with a dash, or is just one. *)
Definition is_operand (a : bytes) : bool :=
  match a with
  | c :: _ :: _ => negb (byte_eqb c x2d)
  | _ => true
  end.

(** The items of a command line and its operands; [w] is the option that waits
    for an argument, [acc] the operands so far. *)
Fixpoint scan (w : option want) (acc args : list bytes) : list item * list bytes :=
  match args with
  | [] =>
      (match w with
       | Some (WantLong _ t) | Some (WantShort _ t) => [MissingArg (Some t)]
       | None => []
       end, acc)
  | a :: rest =>
      match w with
      | Some (WantLong tab _) =>
          let '(its, ops) := scan None acc rest in (LongOpt tab (Some a) (Some a) :: its, ops)
      | Some (WantShort c _) =>
          let '(its, ops) := scan None acc rest in (ShortOpt c (Some a) :: its, ops)
      | None =>
          if is_operand a then
            (* without permutation the first operand ends the options *)
            if posix then ([], acc ++ a :: rest) else scan None (acc ++ [a]) rest
          else if bool_decide (a = [x2d; x2d]) then ([], acc ++ rest)
          else
            let '(its, w) := word_items (drop 1 a) a in
            let '(its', ops) := scan w acc rest in (its ++ its', ops)
      end
  end.
End spec.

(** * getopt_long meets the specification *)

#[local] Arguments getopt_start : simpl never.
#[local] Arguments permute_args : simpl never.
#[local] Arguments getopt_short : simpl never.
#[local] Arguments parse_long_options : simpl never.

(** A C string has no NUL inside. *)
Definition cstr (a : bytes) : Prop := NUL ∉ a.

#[export] Instance cstr_dec a : Decision (cstr a).
Proof. unfold cstr. apply _. Defined.

(** Letters that cannot be mistaken for a code of getopt. *)
Definition good_letter (c : byte) : bool :=
  (32 <? bval c) && (bval c <? 127)
  && negb (byte_eqb c x2d || byte_eqb c x3b || byte_eqb c x3f || byte_eqb c x2b).

Lemma index_of_spec c s k : index_of c s = Some k -> s !! k = Some c.
Proof.
  revert k. induction s as [|x s IH]; simpl; [done|]. intros k.
  destruct (byte_eqb_spec x c) as [->|]; [by intros [= <-]|].
  destruct (index_of c s) as [j|]; simpl; [|done]. intros [= <-]. by apply IH.
Qed.

Lemma index_of_None c s : index_of c s = None <-> c ∉ s.
Proof.
  induction s as [|x s IH]; simpl; [split; [intros _; apply not_elem_of_nil|done]|].
  rewrite not_elem_of_cons. destruct (byte_eqb_spec x c) as [->|].
  - split; [done|]. by intros [? _].
  - destruct (index_of c s); simpl; naive_solver.
Qed.

Lemma find_long_index opts i m cur len st k :
  (forall j, m = Some j -> 0 <= j < i) -> 0 <= i ->
  find_long opts i m cur len st = Match k -> 0 <= k < i + Z.of_nat (length opts).
Proof.
  revert i m. induction opts as [|o opts IH]; intros i m Hm Hi; simpl.
  { destruct m as [j|]; [|done]. intros [= <-]. specialize (Hm j eq_refl). lia. }
  assert (Hm' : forall j, m = Some j -> 0 <= j < i + 1) by (intros j ?; specialize (Hm j); naive_solver lia).
  destruct (negb _); [intros H%IH; [lia|done|lia]|].
  destruct (_ =? _)%nat; [intros [= <-]; lia|].
  destruct (st && _)%bool; [intros H%IH; [lia|done|lia]|].
  destruct m; [done|]. intros H%IH; [lia| |lia]. intros j [= <-]. lia.
Qed.

Lemma schar_letter c : good_letter c = true -> schar c = bval c /\ 32 < bval c < 127.
Proof.
  unfold good_letter, schar. intros H. bool_to_prop. split; [|lia].
  destruct (Z.ltb_spec (bval c) 128); lia.
Qed.

Lemma schar_nonzero c : c <> NUL -> schar c <> 0.
Proof.
  intros Hc H. apply Hc, bval_inj. unfold schar in H. pose proof (bval_range c).
  change (bval NUL) with 0. destruct (Z.ltb_spec (bval c) 128); lia.
Qed.

Section refinement.
Context (posix : bool) (options : bytes) (long_options : list loption).
Hypothesis Hcolon : ch options 0 = x3a.
Hypothesis Hletters : Forall (fun c => c = x3a \/ good_letter c = true) options.
Hypothesis Hflags : Forall (fun o => flag o = true) long_options.
Context (nargc : Z).

Let next := getopt_long posix nargc options long_options.

Lemma options_char k c : options !! k = Some c -> c = x3a \/ good_letter c = true.
Proof. intros H. by eapply Forall_lookup_1 in H; [|exact Hletters]. Qed.

Lemma strchr_option c k :
  c <> NUL -> c <> x3a -> strchr options c = Some k -> good_letter c = true.
Proof.
  unfold strchr. intros Hn Hc Hk%index_of_spec. apply lookup_app_Some in Hk as [Hk|[_ Hk]].
  - apply options_char in Hk as [|]; done.
  - apply list_lookup_singleton_Some in Hk as [_ ?]. congruence.
Qed.

Lemma strchr_dash : strchr options x2d = None.
Proof.
  apply index_of_None. rewrite elem_of_app, list_elem_of_singleton. intros [H|]; [|done].
  rewrite Forall_forall in Hletters. by destruct (Hletters _ H).
Qed.

Lemma ch_options_not k c : c <> NUL -> c <> x3a -> good_letter c = false -> byte_eqb (ch options k) c = false.
Proof.
  intros Hn Hc Hg. apply byte_eqb_ne. unfold ch. destruct (options !! k) as [x|] eqn:E; simpl; [|congruence].
  intros ->. apply options_char in E as [|]; congruence.
Qed.

(** The flags getopt_long scans with. *)
Let fl : Z := if posix then 0 else FLAG_PERMUTE.

(** The second half of [getopt_internal], for getopt_long. *)
Definition option_at (s : gstate) : outcome (Z * gstate) :=
  let p := place_str (place s) in
  let inside := match place s with Some (_, k) => negb (k =? 0)%nat | None => true end in
  if inside && byte_eqb (ch p 0) x2d then
    '(optchar, s) ← parse_long_options options long_options false
                      (set_place s (place_adv (place s) 1));
    if negb (optchar =? -1) then Ret (optchar, set_place s None)
    else getopt_short nargc options (Some long_options) s
  else getopt_short nargc options (Some long_options) s.

Definition after_start (r : started * gstate) : outcome (Z * gstate) :=
  match r with (Returned r, s) => Ret (r, s) | (AtOption, s) => option_at s end.

Lemma next_unfold s : optind s <> 0 -> optreset s = false ->
  next s = getopt_start (S (Z.to_nat (nargc - optind s))) nargc options fl
             (set_optarg s None) ≫= after_start.
Proof.
  intros Hi Hr. unfold next, fl, getopt_long, getopt_internal. rewrite Hcolon, orb_false_r. simpl.
  destruct (Z.eqb_spec (optind s) 0); [done|]. simpl. rewrite Hr. simpl.
  replace (Z.land (if posix then _ else _) FLAG_LONGONLY =? 0) with true by (by destruct posix).
  change (if posix then Z.land FLAG_PERMUTE (Z.lnot FLAG_PERMUTE) else FLAG_PERMUTE) with fl.
  destruct (getopt_start _ _ _ _ _) as [[[r|] s']|]; simpl; [done| |done].
  unfold option_at. rewrite orb_false_r. destruct (_ && byte_eqb _ _)%bool eqn:E; [|done].
  apply andb_true_iff in E as [_ E]. by rewrite E.
Qed.

(** Between two words: [pre] is done with, [ops] are operands, [opts] options that
    came after them, [rest] is to come. *)
Definition marks (s : gstate) (pre : list arg) (ops opts : list arg) : Prop :=
  (ops = [] /\ nonopt_start s = -1 /\ nonopt_end s = -1) \/
  (ops <> [] /\ nonopt_start s = Z.of_nat (length pre) /\
   ((opts = [] /\ nonopt_end s = -1) \/
    (opts <> [] /\ nonopt_end s = Z.of_nat (length pre + length ops)))).

Definition between (s : gstate) (pre ops opts : list arg) (rest : list bytes) : Prop :=
  nargv s = pre ++ ops ++ opts ++ (Some <$> rest) ++ [None] /\
  optind s = Z.of_nat (length pre + length ops + length opts) /\
  nargc = Z.of_nat (length pre + length ops + length opts + length rest) /\
  (0 < length pre)%nat /\
  optreset s = false /\ place_str (place s) = [] /\ marks s pre ops opts.

(** Inside the word [a], before its letter number [k]. *)
Definition inside (s : gstate) (pre ops opts : list arg) (a : bytes) (k : nat) (rest : list bytes) : Prop :=
  nargv s = pre ++ ops ++ opts ++ Some a :: (Some <$> rest) ++ [None] /\
  optind s = Z.of_nat (length pre + length ops + length opts) /\
  nargc = Z.of_nat (length pre + length ops + length opts + S (length rest)) /\
  (0 < length pre)%nat /\
  optreset s = false /\ place s = Some (a, k) /\ (0 < k)%nat /\ drop k a <> [] /\
  ((ops = [] /\ nonopt_start s = -1 /\ nonopt_end s = -1) \/
   (ops <> [] /\ nonopt_start s = Z.of_nat (length pre) /\
    nonopt_end s = Z.of_nat (length pre + length ops))).

(** The end of the words: the operands are from optind on. *)
Definition finished (s : gstate) (ops : list bytes) : Prop :=
  exists pre, nargv s = pre ++ (Some <$> ops) ++ [None] /\ optind s = Z.of_nat (length pre) /\
    nargc = Z.of_nat (length pre + length ops) /\ (0 < length pre)%nat.

Lemma vec_get_mid {A} (l1 : list A) a l2 i :
  i = Z.of_nat (length l1) -> vec_get (l1 ++ a :: l2) i = Ret a.
Proof.
  intros ->. unfold vec_get. destruct (Z.ltb_spec (Z.of_nat (length l1)) 0); [lia|].
  by rewrite Nat2Z.id, list_lookup_middle.
Qed.

(** The word read by the block at [start:]. *)
Lemma between_word s pre ops opts a rest :
  between s pre ops opts (a :: rest) -> vec_get (nargv s) (optind s) = Ret (Some a).
Proof.
  intros (Hv & Hi & _). rewrite Hv, Hi. simpl. rewrite !app_assoc. apply vec_get_mid.
  rewrite !length_app. lia.
Qed.

Lemma ch_0_1 (a : bytes) : cstr a ->
  (negb (byte_eqb (ch a 0) x2d) || byte_eqb (ch a 1) NUL)%bool = is_operand a.
Proof.
  unfold cstr. intros Ha. destruct a as [|c [|d a]]; [done|by rewrite orb_true_r|].
  change (ch (c :: d :: a) 0) with c. change (ch (c :: d :: a) 1) with d. simpl.
  rewrite !not_elem_of_cons in Ha. rewrite (byte_eqb_ne d) by naive_solver. apply orb_false_r.
Qed.

Lemma of_nat_mark k : (Z.of_nat k =? -1) = false.
Proof. apply Z.eqb_neq. lia. Qed.

(** One turn of the block at [start:]. *)
Ltac start_turn := unfold getopt_start; fold getopt_start; cbn [optreset place set_optarg].

Lemma call_end s pre ops opts :
  between s pre (Some <$> ops) opts [] -> exists s', next s = Ret (-1, s') /\ finished s' ops.
Proof.
  destruct s as [v oi oo orr oa pl ns ne gv].
  intros (Hv & Hi & Hn & Hpre & Hr & Hp & Hm). simpl in *. rewrite Nat.add_0_r in Hn.
  rewrite next_unfold by (simpl; lia || done). start_turn. rewrite Hp, Hr. simpl.
  destruct (Z.leb_spec nargc oi); [|lia].
  destruct Hm as [(Hops & Hns & Hne) | (Hops & Hns & [(-> & Hne)|(Hopts & Hne)])]; simpl in Hns, Hne; rewrite ?Hns, ?Hne.
  - simpl. eexists. split; [reflexivity|]. exists (pre ++ opts). simpl.
    apply fmap_nil_inv in Hops. subst ops. simpl in *.
    rewrite Hv, Hi, Hn, !length_app, <-app_assoc. repeat split; lia || done.
  - rewrite !of_nat_mark. simpl.
    eexists. split; [reflexivity|]. exists pre. simpl in *. rewrite length_fmap in *.
    rewrite Hv, Hn. repeat split; lia || done.
  - rewrite ?of_nat_mark. simpl. rewrite ?of_nat_mark. simpl.
    rewrite Hv, Hi, permute_args_blocks by done. simpl. eexists. split; [reflexivity|].
    exists (pre ++ opts). rewrite !length_app, length_fmap in *.
    rewrite <-!app_assoc, Hn. repeat split; simpl; lia || done.
Qed.

(** With POSIXLY_CORRECT the first operand ends the options. *)
Lemma call_operand_posix s pre opts a rest :
  posix = true -> cstr a -> is_operand a = true ->
  between s pre [] opts (a :: rest) ->
  exists s', next s = Ret (-1, s') /\ finished s' (a :: rest).
Proof.
  intros Hpx Hc Ha Hb. pose proof (between_word _ _ _ _ _ _ Hb) as Hw.
  destruct s as [v oi oo orr oa pl ns ne gv].
  destruct Hb as (Hv & Hi & Hn & Hpre & Hr & Hp & Hm). simpl in *.
  rewrite next_unfold by (simpl; lia || done). start_turn. rewrite Hp, Hr. simpl.
  destruct (Z.leb_spec nargc oi); [lia|]. rewrite Hw. simpl.
  rewrite (bool_decide_eq_false_2 (is_Some (strchr options x2d))) by (rewrite strchr_dash; by intros [? [=]]).
  simpl. rewrite andb_true_r, ch_0_1, Ha by done. unfold fl. rewrite Hpx. simpl.
  eexists. split; [reflexivity|]. exists (pre ++ opts). simpl.
  rewrite Hv, Hi, Hn, !length_app. simpl. rewrite <-app_assoc. repeat split; lia || done.
Qed.

Lemma call_operand s pre ops opts a rest :
  posix = false -> cstr a -> is_operand a = true ->
  between s pre (Some <$> ops) opts (a :: rest) ->
  exists s' pre', between s' pre' (Some <$> (ops ++ [a])) [] rest /\ next s = next s'.
Proof.
  intros Hpx Hc Ha Hb. pose proof (between_word _ _ _ _ _ _ Hb) as Hw.
  assert (Hfl : fl = FLAG_PERMUTE) by (unfold fl; by rewrite Hpx).
  destruct s as [v oi oo orr oa pl ns ne gv].
  destruct Hb as (Hv & Hi & Hn & Hpre & Hr & Hp & Hm). simpl in *.
  assert (Hstep : forall pre' v' ns',
    v' = pre' ++ (Some <$> (ops ++ [a])) ++ (Some <$> rest) ++ [None] ->
    oi + 1 = Z.of_nat (length pre' + S (length ops)) -> (0 < length pre')%nat ->
    ns' = Z.of_nat (length pre') ->
    exists s' pre'', between s' pre'' (Some <$> (ops ++ [a])) [] rest /\
      getopt_start (S (Z.to_nat (nargc - (oi + 1)))) nargc options fl
        (mkG v' (oi + 1) oo false None None ns' (-1) gv) ≫= after_start = next s').
  { intros pre' v' ns' -> Ho Hp' ->. eexists (mkG _ (oi + 1) oo false None None _ (-1) gv), pre'.
    split; [|rewrite next_unfold by (simpl; lia || done); reflexivity].
    rewrite fmap_app in *. repeat split; simpl; rewrite ?length_app, ?length_fmap in *; simpl in *; try lia.
    right. split; [by intros [? [=]]%app_nil|]. split; [done|]. by left. }
  rewrite next_unfold by (simpl; lia || done). cbn [optind].
  replace (S (Z.to_nat (nargc - oi))) with (S (S (Z.to_nat (nargc - (oi + 1))))) by lia.
  remember (S (Z.to_nat (nargc - (oi + 1)))) as fuel. start_turn. simpl. rewrite Hr, Hp. simpl.
  destruct (Z.leb_spec nargc oi); [lia|]. rewrite Hw. simpl.
  rewrite (bool_decide_eq_false_2 (is_Some (strchr options x2d))) by (rewrite strchr_dash; by intros [? [=]]).
  simpl. rewrite andb_true_r, ch_0_1, Ha by done.
  replace (negb (Z.land fl FLAG_ALLARGS =? 0)) with false by (by rewrite Hfl).
  replace (Z.land fl FLAG_PERMUTE =? 0) with false by (by rewrite Hfl).
  destruct Hm as [(Hops & Hns & Hne) | (Hops & Hns & [(-> & Hne)|(Hopts & Hne)])]; simpl in Hns, Hne; rewrite ?Hns, ?Hne; simpl.
  - apply fmap_nil_inv in Hops. subst ops. apply (Hstep (pre ++ opts)).
    + rewrite Hv. simpl. by rewrite <-app_assoc.
    + rewrite length_app. simpl in *. lia.
    + rewrite length_app. lia.
    + rewrite Hi, length_app. simpl. f_equal. lia.
  - rewrite !of_nat_mark. simpl. apply (Hstep pre); try done.
    + rewrite Hv, fmap_app. simpl. by rewrite <-!app_assoc.
    + rewrite length_fmap in *. simpl in *. lia.
  - rewrite !of_nat_mark.
    rewrite ?of_nat_mark. simpl. rewrite ?of_nat_mark. simpl.
    rewrite Hv, Hi, permute_args_blocks by done. simpl. rewrite <-Hi.
    rewrite length_fmap in *. apply (Hstep (pre ++ opts)).
    + rewrite fmap_app. simpl. by rewrite <-!app_assoc.
    + rewrite length_app. lia.
    + rewrite length_app. lia.
    + rewrite length_app. simpl. lia.
Qed.

(** A word "--" at optind: the block at [start:] ends the options. *)
Lemma start_dashdash fuel s :
  optreset s = false -> place_str (place s) = [] -> optind s < nargc ->
  vec_get (nargv s) (optind s) = Ret (Some [x2d; x2d]) ->
  getopt_start (S fuel) nargc options fl s =
    (let ne := if negb (nonopt_start s =? -1) && (nonopt_end s =? -1) then optind s else nonopt_end s in
     s ← (if negb (ne =? -1) then
            v ← permute_args (nonopt_start s) ne (optind s + 1) (nargv s);
            Ret (mkG v (optind s + 1 - (ne - nonopt_start s)) (optopt s) false (optarg s) None
                     (nonopt_start s) ne (getoptval s))
          else Ret (mkG (nargv s) (optind s + 1) (optopt s) false (optarg s) None
                        (nonopt_start s) ne (getoptval s)));
     Ret (Returned (-1), set_nonopt s (-1) (-1))).
Proof.
  destruct s as [v oi oo orr oa pl ns ne gv]. simpl. intros Hr Hp Hlt Hw.
  start_turn. rewrite Hp, Hr. simpl. destruct (Z.leb_spec nargc oi); [lia|]. rewrite Hw. simpl.
  destruct (negb (ns =? -1) && (ne =? -1)); reflexivity.
Qed.

Lemma call_dashdash s pre ops opts rest :
  between s pre (Some <$> ops) opts ([x2d; x2d] :: rest) ->
  exists s', next s = Ret (-1, s') /\ finished s' (ops ++ rest).
Proof.
  intros Hb. pose proof (between_word _ _ _ _ _ _ Hb) as Hw.
  destruct Hb as (Hv & Hi & Hn & Hpre & Hr & Hp & Hm). simpl in Hn.
  rewrite next_unfold by (lia || done). rewrite start_dashdash by (simpl; lia || done). simpl.
  destruct Hm as [(Hops & Hns & Hne) | (Hops & Hns & Hm)].
  - rewrite Hns, Hne. simpl. eexists. split; [reflexivity|].
    apply fmap_nil_inv in Hops. subst ops. simpl in *.
    exists (pre ++ opts ++ [Some [x2d; x2d]]). simpl.
    rewrite Hv, !length_app. simpl. rewrite <-!app_assoc. repeat split; lia || done.
  - replace (if negb (nonopt_start s =? -1) && (nonopt_end s =? -1) then optind s else nonopt_end s)
      with (Z.of_nat (length pre + length (Some <$> ops))).
    2:{ rewrite Hns, of_nat_mark. simpl. destruct Hm as [(-> & ->)|(_ & ->)]; [|by rewrite of_nat_mark].
        rewrite Hi. simpl. lia. }
    rewrite of_nat_mark, Hns. simpl.
    assert (Hperm : permute_args (Z.of_nat (length pre))
              (Z.of_nat (length pre + length (Some <$> ops))) (optind s + 1) (nargv s)
            = Ret (pre ++ (opts ++ [Some [x2d; x2d]]) ++ (Some <$> ops) ++ (Some <$> rest) ++ [None])).
    { rewrite <-permute_args_blocks by (done || by intros [? [=]]%app_nil).
      f_equal; [rewrite length_app; simpl; lia | rewrite Hv; by rewrite <-!app_assoc]. }
    rewrite Hperm. simpl. eexists. split; [reflexivity|].
    exists (pre ++ opts ++ [Some [x2d; x2d]]). simpl.
    rewrite fmap_app, !length_app, length_fmap in *. simpl. rewrite <-!app_assoc. repeat split; lia || done.
Qed.

Lemma call_enter s pre ops opts a rest :
  cstr a -> is_operand a = false -> a <> [x2d; x2d] ->
  between s pre ops opts (a :: rest) ->
  exists s', inside s' pre ops opts a 1 rest /\ next s = next s'.
Proof.
  intros Hc Ha Hdd Hb. pose proof (between_word _ _ _ _ _ _ Hb) as Hw.
  destruct s as [v oi oo orr oa pl ns ne gv].
  destruct Hb as (Hv & Hi & Hn & Hpre & Hr & Hp & Hm). simpl in *.
  rewrite next_unfold by (simpl; lia || done). start_turn. rewrite Hp, Hr. simpl.
  destruct (Z.leb_spec nargc oi); [lia|]. rewrite Hw. simpl.
  rewrite (bool_decide_eq_false_2 (is_Some (strchr options x2d))) by (rewrite strchr_dash; by intros [? [=]]).
  simpl. rewrite andb_true_r, ch_0_1, Ha by done.
  assert (H1 : byte_eqb (ch a 1) NUL = false).
  { rewrite <-ch_0_1 in Ha by done. by apply orb_false_iff in Ha as [_ ?]. }
  rewrite H1. assert (H2 : byte_eqb (ch a 1) x2d && byte_eqb (ch a 2) NUL = false).
  { destruct a as [|c [|d [|e a]]]; try done.
    - change (ch [c; d] 1) with d. apply andb_false_iff. left. apply byte_eqb_ne. intros ->.
      simpl in Ha. apply negb_false_iff in Ha. by destruct (byte_eqb_spec c x2d); subst.
    - apply andb_false_iff. right. apply byte_eqb_ne. change (ch (c :: d :: e :: a) 2) with e.
      unfold cstr in Hc. rewrite !not_elem_of_cons in Hc. naive_solver. }
  rewrite H2. simpl.
  set (ne' := if bool_decide (ops = []) then -1 else Z.of_nat (length pre + length ops)).
  exists (mkG v oi oo false None (Some (a, 1%nat)) ns ne' gv). split.
  - repeat split; simpl; try lia || done.
    + by destruct a as [|? [|? ?]].
    + unfold ne'. destruct Hm as [(? & ? & ?)|(? & ? & _)]; [left|right];
        [rewrite bool_decide_eq_true_2 by done | rewrite bool_decide_eq_false_2 by done]; done.
  - rewrite next_unfold by (simpl; lia || done).
    unfold getopt_start. simpl. rewrite bool_decide_eq_false_2 by (by destruct a as [|? [|? ?]]). simpl.
    f_equal. unfold ne'. destruct Hm as [(? & Hns & Hne)|(? & Hns & Hm)]; simpl in *; subst.
    + by rewrite bool_decide_eq_true_2.
    + rewrite bool_decide_eq_false_2 by done.
      rewrite !of_nat_mark.
      destruct Hm as [(-> & ->)|(? & ->)]; simpl.
      * by rewrite Nat.add_0_r.
      * by rewrite of_nat_mark.
Qed.

Lemma inside_next s pre ops opts a k rest :
  inside s pre ops opts a k rest -> next s = option_at (set_optarg s None).
Proof.
  intros (Hv & Hi & Hn & Hpre & Hr & Hp & Hk & Hd & _).
  rewrite next_unfold by (lia || done). start_turn. rewrite Hp, Hr. simpl.
  by rewrite bool_decide_eq_false_2.
Qed.

(** The word is used up; with [bs], the next one too. *)
Lemma inside_close s s' pre ops opts a k bs rest :
  inside s pre ops opts a k (bs ++ rest) ->
  nargv s' = nargv s -> optind s' = optind s + 1 + Z.of_nat (length bs) ->
  optreset s' = optreset s -> place_str (place s') = [] ->
  nonopt_start s' = nonopt_start s -> nonopt_end s' = nonopt_end s ->
  between s' pre ops (opts ++ (Some <$> (a :: bs))) rest.
Proof.
  intros (Hv & Hi & Hn & Hpre & Hr & Hp & Hk & Hd & Hm) Hv' Hi' Hr' Hp' Hns Hne.
  unfold between, marks. rewrite Hv', Hi', Hr', Hns, Hne, Hv, fmap_app.
  rewrite !length_app in *. rewrite length_fmap. simpl. rewrite <-!app_assoc.
  repeat split; try lia; try done.
  destruct Hm as [?|(? & ? & ?)]; [by left|]. right. repeat split; try done.
  right. split; [|done]. by intros [_ [=]]%app_nil.
Qed.

Lemma last_text s pre ops opts a bs rest b :
  between s pre ops (opts ++ (Some <$> (a :: bs))) rest -> last (a :: bs) = Some b ->
  mjoin (nargv s !! Z.to_nat (optind s - 1)) = Some b.
Proof.
  intros (Hv & Hi & _) Hl. apply last_Some in Hl as [l Hl].
  rewrite Hv, Hi, Hl, fmap_app. simpl.
  replace (pre ++ ops ++ (opts ++ (Some <$> l) ++ [Some b]) ++ (Some <$> rest) ++ [None])
    with ((pre ++ ops ++ opts ++ (Some <$> l)) ++ Some b :: (Some <$> rest) ++ [None])
    by (by rewrite <-!app_assoc).
  rewrite list_lookup_middle; [done|]. rewrite !length_app. simpl. lia.
Qed.

(** The word of an option that waits, and the item its argument makes. *)
Definition want_text (w : want) : bytes := match w with WantLong _ t | WantShort _ t => t end.
Definition want_item (w : want) (b : bytes) : item :=
  match w with
  | WantLong tab _ => LongOpt tab (Some b) (Some b)
  | WantShort c _ => ShortOpt c (Some b)
  end.

(** What a call inside a word returns: the item is the first of the word's, or
    waits for the next word. *)
Inductive reply (pre ops opts : list arg) (a : bytes) (k : nat) (cs : bytes) (rest : list bytes)
    (its : list item * option want) (i : item) (s' : gstate) : Prop :=
  | reply_more :
      cs <> [] -> inside s' pre ops opts a (S k) rest ->
      its = (i :: fst (word_items options long_options cs a), snd (word_items options long_options cs a)) ->
      reply pre ops opts a k cs rest its i s'
  | reply_end :
      its = ([i], None) -> between s' pre ops (opts ++ (Some <$> [a])) rest ->
      reply pre ops opts a k cs rest its i s'
  | reply_missing w :
      its = ([], Some w) -> rest = [] -> i = MissingArg (Some (want_text w)) ->
      between s' pre ops (opts ++ (Some <$> [a])) [] ->
      reply pre ops opts a k cs rest its i s'
  | reply_next w b rest' :
      its = ([], Some w) -> rest = b :: rest' -> i = want_item w b ->
      between s' pre ops (opts ++ (Some <$> [a; b])) rest' ->
      reply pre ops opts a k cs rest its i s'.

Lemma BADARG_colon : BADARG options = 58.
Proof. unfold BADARG. by rewrite Hcolon. Qed.

(** The word after [a], NULL at the end. *)
Lemma inside_second s pre ops opts a k rest :
  inside s pre ops opts a k rest -> vec_get (nargv s) (optind s + 1) = Ret (head rest).
Proof.
  intros (Hv & Hi & _). rewrite Hv, Hi.
  replace (pre ++ ops ++ opts ++ Some a :: (Some <$> rest) ++ [None])
    with ((pre ++ ops ++ opts ++ [Some a]) ++ (Some <$> rest) ++ [None]) by (by rewrite <-!app_assoc).
  destruct rest as [|b rest]; apply vec_get_mid; rewrite !length_app; simpl; lia.
Qed.

Lemma call_long s pre ops opts a k cs rest :
  inside s pre ops opts a k rest -> drop k a = x2d :: cs ->
  exists copt s', next s = Ret (copt, s') /\ copt <> -1 /\
    reply pre ops opts a k cs rest (long_items long_options cs a) (item_of copt s') s'.
Proof.
  intros Hin Hd. rewrite (inside_next _ _ _ _ _ _ _ Hin).
  assert (Hcs : drop (k + 1) a = cs) by (rewrite <-drop_drop, Hd; done).
  pose proof Hin as (Hv & Hi & Hn & Hpre & Hr & Hp & Hk & _).
  unfold option_at. simpl. rewrite Hp. simpl. rewrite Hd.
  destruct (Nat.eqb_spec k 0); [lia|]. simpl.
  unfold parse_long_options, long_items. simpl. rewrite Hcs.
  set (len := match index_of x3d cs with Some k => k | None => length cs end).
  (* the three ways a long option ends with its own word *)
  assert (Hend : forall s' copt i, nargv s' = nargv s -> optind s' = optind s + 1 ->
            optreset s' = optreset s -> place s' = None -> nonopt_start s' = nonopt_start s ->
            nonopt_end s' = nonopt_end s ->
            (mjoin (nargv s' !! Z.to_nat (optind s' - 1)) = Some a -> item_of copt s' = i) ->
            reply pre ops opts a k cs rest ([i], None) (item_of copt s') s').
  { intros s' copt i Hv' Hi' Hr' Hp' Hns Hne Hit.
    assert (Hb : between s' pre ops (opts ++ (Some <$> [a])) rest).
    { apply (inside_close s s' pre ops opts a k [] rest); try done; simpl; [lia|by rewrite Hp']. }
    rewrite Hit; [by apply reply_end|]. by apply (last_text s' pre ops opts a [] rest a). }
  destruct (find_long long_options 0 None cs len false) as [m| |] eqn:Hf.
  2,3: eexists _, _; split; [reflexivity|]; split; [done|]; apply Hend; try done; unfold item_of; simpl; by intros ->.
  assert (Hm : 0 <= m < Z.of_nat (length long_options)).
  { apply find_long_index in Hf; [lia|done|done]. }
  destruct (lookup_lt_is_Some_2 long_options (Z.to_nat m)) as [o Ho]; [lia|].
  assert (Hfl : flag o = true) by (by eapply Forall_lookup_1 in Ho; [|exact Hflags]).
  assert (Hg : vec_get long_options m = Ret o).
  { unfold vec_get. destruct (Z.ltb_spec m 0); [lia|]. by rewrite Ho. }
  rewrite Hg, Ho, BADARG_colon. simpl. rewrite Hfl.
  destruct (Z.eqb_spec (has_arg o) required_argument) as [Hreq|Hreq].
  - rewrite Hreq. simpl. destruct (index_of x3d cs) as [e|]; simpl.
    { eexists _, _. split; [reflexivity|]. split; [done|].
      apply Hend; try done. unfold item_of; simpl; by intros ->. }
    rewrite (inside_second _ _ _ _ _ _ _ Hin).
    destruct rest as [|b rest]; simpl.
    + eexists _, _. split; [reflexivity|]. split; [done|].
      match goal with |- reply _ _ _ _ _ _ _ _ _ ?s' =>
        assert (Hb : between s' pre ops (opts ++ (Some <$> [a])) []) end.
      { apply (inside_close s _ pre ops opts a k [] []); try done; simpl; lia. }
      eapply reply_missing; [done..| |done]. pose proof (last_text _ pre ops opts a [] [] a Hb eq_refl) as Hl.
      unfold item_of. simpl in *. by rewrite Hl.
    + eexists _, _. split; [reflexivity|]. split; [done|].
      match goal with |- reply _ _ _ _ _ _ _ _ _ ?s' =>
        assert (Hb : between s' pre ops (opts ++ (Some <$> [a; b])) rest) end.
      { apply (inside_close s _ pre ops opts a k [b] rest); try done; simpl; lia. }
      eapply reply_next; [done..| |done]. pose proof (last_text _ pre ops opts a [b] rest b Hb eq_refl) as Hl.
      unfold item_of. simpl in *. by rewrite Hl.
  - destruct (Z.eqb_spec (has_arg o) optional_argument) as [Hopt|Hopt].
    + rewrite Hopt. simpl. destruct (index_of x3d cs) as [e|]; simpl;
        (eexists _, _; split; [reflexivity|]; split; [done|];
         apply Hend; try done; unfold item_of; simpl; by intros ->).
    + destruct (Z.eqb_spec (has_arg o) no_argument) as [Hno|Hno];
        destruct (index_of x3d cs) as [e|]; simpl;
        (eexists _, _; split; [reflexivity|]; split; [done|];
         apply Hend; try done; unfold item_of; simpl; by intros ->).
Qed.

Lemma item_letter c s : good_letter c = true -> c <> x3a ->
  schar c <> -1 /\ item_of (schar c) s = ShortOpt (schar c) (optarg s).
Proof.
  intros Hg Hc. destruct (schar_letter c Hg) as [-> Hr]. split; [lia|].
  unfold item_of. destruct (Z.eqb_spec (bval c) 0); [lia|].
  destruct (Z.eqb_spec (bval c) BADCH) as [E|_].
  { change BADCH with (bval x3f) in E. apply bval_inj in E. by subst. }
  destruct (Z.eqb_spec (bval c) 58) as [E|_]; [|done].
  change 58 with (bval x3a) in E. by apply bval_inj in E.
Qed.

(** A letter that leaves the rest of the word to the next calls. *)
Lemma reply_letter s s' pre ops opts a k c cs rest i :
  inside s pre ops opts a k rest -> drop k a = c :: cs ->
  nargv s' = nargv s -> optreset s' = optreset s -> place s' = Some (a, (k + 1)%nat) ->
  nonopt_start s' = nonopt_start s -> nonopt_end s' = nonopt_end s ->
  optind s' = (if bool_decide (cs = []) then optind s + 1 else optind s) ->
  reply pre ops opts a k cs rest
    (i :: fst (word_items options long_options cs a), snd (word_items options long_options cs a)) i s'.
Proof.
  intros Hin Hd Hv' Hr' Hp' Hns Hne Hi'.
  assert (Hcs : drop (k + 1) a = cs) by (rewrite <-drop_drop, Hd; done).
  destruct cs as [|c' cs].
  - apply reply_end; [done|]. apply (inside_close s s' pre ops opts a k [] rest); try done.
    + simpl in *. lia.
    + by rewrite Hp'.
  - apply reply_more; [done| |done]. rewrite bool_decide_eq_false_2 in Hi' by done.
    destruct Hin as (Hv & Hi & Hn & Hpre & Hr & Hp & Hk & _ & Hm).
    unfold inside. rewrite Hv', Hi', Hr', Hns, Hne, Hp', Nat.add_1_r in *.
    rewrite Hcs. repeat split; try done; lia.
Qed.

Lemma call_short s pre ops opts a k c cs rest :
  cstr a -> inside s pre ops opts a k rest -> drop k a = c :: cs -> c <> x2d ->
  exists copt s', next s = Ret (copt, s') /\ copt <> -1 /\
    reply pre ops opts a k cs rest (word_items options long_options (c :: cs) a) (item_of copt s') s'.
Proof.
  intros Ha Hin Hd Hdash. rewrite (inside_next _ _ _ _ _ _ _ Hin).
  assert (Hcs : drop (k + 1) a = cs) by (rewrite <-drop_drop, Hd; done).
  assert (Hnul : c <> NUL).
  { intros ->. apply Ha. rewrite <-(take_drop k a), Hd. set_solver. }
  pose proof Hin as (Hv & Hi & Hn & Hpre & Hr & Hp & Hk & _).
  unfold option_at. simpl. rewrite Hp. simpl. rewrite Hd.
  destruct (Nat.eqb_spec k 0); [lia|]. simpl.
  change (ch (c :: cs) 0) with c. rewrite (byte_eqb_ne c x2d) by done.
  unfold getopt_short. simpl. rewrite Hp. simpl. rewrite Hd, Hcs. simpl.
  change (ch (c :: cs) 0) with c. rewrite !(byte_eqb_ne c x2d) by done. simpl. rewrite orb_false_r.
  pose (s1 := set_place (set_optarg s None) (Some (a, (k + 1)%nat))).
  pose (s2 := if bool_decide (cs = []) then set_optind s1 (optind s + 1) else s1).
  (* a letter that is unknown, and one that takes no argument *)
  assert (Hcont : forall i s', s' = set_optopt s2 (schar c) \/ s' = s2 ->
    reply pre ops opts a k cs rest
      (let '(its, w) := word_items options long_options cs a in (i :: its, w)) i s').
  { intros i s' Hs'. rewrite (surjective_pairing (word_items options long_options cs a)).
    apply (reply_letter s s' pre ops opts a k c); try done;
      destruct Hs' as [-> | ->]; unfold s2; by case_bool_decide. }
  assert (Hbad : exists copt s', Ret (BADCH, set_optopt s2 (schar c)) = Ret (copt, s') /\ copt <> -1 /\
    reply pre ops opts a k cs rest
      (let '(its, w) := word_items options long_options cs a in (BadShort (schar c) :: its, w))
      (item_of copt s') s').
  { eexists _, _. split; [reflexivity|]. split; [done|].
    replace (item_of BADCH (set_optopt s2 (schar c))) with (BadShort (schar c)); [by apply Hcont; left|].
    unfold item_of. simpl. by destruct (Z.eqb_spec (schar c) 0) as [E|]; [apply schar_nonzero in E|]. }
  destruct (byte_eqb_spec c x3a) as [->|Hcol]; [exact Hbad|]. simpl.
  destruct (strchr options c) as [oli|] eqn:Hs; [|exact Hbad].
  pose proof (strchr_option c oli Hnul Hcol Hs) as Hgood.
  rewrite (ch_options_not (S oli) x3b), andb_false_r by done.
  unfold getopt_letter. simpl. destruct (byte_eqb (ch options (S oli)) x3a); simpl.
  2:{ destruct (item_letter c s2 Hgood Hcol) as [Hm1 Hit]. exists (schar c), s2.
      split; [done|]. split; [done|]. rewrite Hit.
      replace (optarg s2) with (@None bytes) by (unfold s2; by case_bool_decide).
      by apply Hcont; right. }
  destruct cs as [|c' cs]; simpl.
  2:{ eexists (schar c), _. split; [reflexivity|]. 
      match goal with |- _ /\ reply _ _ _ _ _ _ _ _ _ ?s' =>
        destruct (item_letter c s' Hgood Hcol) as [Hm1 ->] end.
      split; [done|]. apply reply_end; [by rewrite Hcs|].
      apply (inside_close s _ pre ops opts a k [] rest); try done; simpl; lia. }
  destruct (byte_eqb (ch options (S (S oli))) x3a); simpl.
  { eexists (schar c), _. split; [reflexivity|]. 
    match goal with |- _ /\ reply _ _ _ _ _ _ _ _ _ ?s' =>
      destruct (item_letter c s' Hgood Hcol) as [Hm1 ->] end.
    split; [done|]. apply reply_end; [done|].
    apply (inside_close s _ pre ops opts a k [] rest); try done; simpl; lia. }
  rewrite (inside_second _ _ _ _ _ _ _ Hin). destruct rest as [|b rest]; simpl in *.
  - destruct (Z.leb_spec nargc (optind s + 1)); [|lia]. rewrite BADARG_colon.
    eexists _, _. split; [reflexivity|]. split; [done|].
    match goal with |- reply _ _ _ _ _ _ _ _ _ ?s' =>
      assert (Hb : between s' pre ops (opts ++ (Some <$> [a])) []) end.
    { apply (inside_close s _ pre ops opts a k [] []); try done; simpl; lia. }
    eapply reply_missing; [done..| |done]. pose proof (last_text _ pre ops opts a [] [] a Hb eq_refl) as Hl.
    unfold item_of. simpl in *. by rewrite Hl.
  - destruct (Z.leb_spec nargc (optind s + 1)); [lia|].
    eexists (schar c), _. split; [reflexivity|].
    match goal with |- _ /\ reply _ _ _ _ _ _ _ _ _ ?s' =>
      destruct (item_letter c s' Hgood Hcol) as [Hm1 ->] end.
    split; [done|]. eapply reply_next; [done..|].
    apply (inside_close s _ pre ops opts a k [b] rest); try done; simpl; lia.
Qed.

Lemma call_inside s pre ops opts a k c cs rest :
  cstr a -> inside s pre ops opts a k rest -> drop k a = c :: cs ->
  exists copt s', next s = Ret (copt, s') /\ copt <> -1 /\
    reply pre ops opts a k cs rest (word_items options long_options (c :: cs) a) (item_of copt s') s'.
Proof.
  intros Ha Hin Hd. destruct (byte_eqb_spec c x2d) as [->|Hc].
  - apply (call_long s pre ops opts a k cs rest Hin Hd).
  - by apply (call_short s pre ops opts a k c cs rest).
Qed.

(** ** The loop *)
Section loop.
Context {X : Type} (body : Z -> gstate -> X -> outcome X) (handle : item -> X -> outcome X).

(** The body of the loop sees the item alone, as long as optind is in the vector. *)
Hypothesis Hbody : forall copt s x,
  copt <> -1 -> 0 < optind s <= nargc -> Z.of_nat (length (nargv s)) = nargc + 1 ->
  body copt s x = handle (item_of copt s) x.

Fixpoint handle_all (its : list item) (x : X) : outcome X :=
  match its with [] => Ret x | i :: its => x ← handle i x; handle_all its x end.

(** The loop started in [s] handles the items and ends before the operands. *)
Definition meets (r : list item * list bytes) (fuel : nat) (s : gstate) (x : X) : Prop :=
  match handle_all (fst r) x with
  | Ret x' => exists s', getopt_while next body fuel s x = Ret (s', x') /\ finished s' (snd r)
  | Fault f => getopt_while next body fuel s x = Fault f
  end.

Lemma meets_next r fuel s s' x : next s = next s' -> meets r fuel s' x -> meets r fuel s x.
Proof. unfold meets. intros Hn. by destruct fuel as [|fuel]; simpl; rewrite ?Hn. Qed.

Lemma meets_done ops fuel s s' x :
  next s = Ret (-1, s') -> finished s' ops -> meets ([], ops) (S fuel) s x.
Proof. unfold meets. intros Hn Hf. simpl. rewrite Hn. simpl. by exists s'. Qed.

Lemma meets_item i its ops fuel s copt s' x :
  next s = Ret (copt, s') -> copt <> -1 -> i = item_of copt s' ->
  0 < optind s' <= nargc -> Z.of_nat (length (nargv s')) = nargc + 1 ->
  (forall x, meets (its, ops) fuel s' x) -> meets (i :: its, ops) (S fuel) s x.
Proof.
  intros Hn Hc -> Ho Hl Hm. unfold meets. simpl. rewrite Hn. simpl.
  destruct (Z.eqb_spec copt (-1)); [done|]. rewrite Hbody by done.
  destruct (handle (item_of copt s') x) as [x'|f]; simpl; [apply Hm|done].
Qed.

Lemma between_bounds s pre ops opts rest :
  between s pre ops opts rest -> 0 < optind s <= nargc /\ Z.of_nat (length (nargv s)) = nargc + 1.
Proof.
  intros (Hv & Hi & Hn & Hpre & _). rewrite Hv, !length_app, length_fmap. simpl. lia.
Qed.

Lemma inside_bounds s pre ops opts a k rest :
  inside s pre ops opts a k rest -> 0 < optind s <= nargc /\ Z.of_nat (length (nargv s)) = nargc + 1.
Proof.
  intros (Hv & Hi & Hn & Hpre & _). rewrite Hv, !length_app. simpl. rewrite length_app, length_fmap. simpl. lia.
Qed.

(** From between two words the loop does what [scan] says. *)
Definition args_ok (rest : list bytes) : Prop :=
  forall s pre ops opts x fuel, (posix = true -> ops = []) ->
    between s pre (Some <$> ops) opts rest ->
    (length (fst (scan posix options long_options None ops rest)) < fuel)%nat ->
    meets (scan posix options long_options None ops rest) fuel s x.

Lemma run_word a rest (Ha : cstr a) (Hrest : args_ok rest)
    (Hnext : forall b rest', rest = b :: rest' -> args_ok rest') cs :
  forall c k s pre ops opts x fuel its its' w ops', (posix = true -> ops = []) ->
    inside s pre (Some <$> ops) opts a k rest -> drop k a = c :: cs ->
    word_items options long_options (c :: cs) a = (its, w) ->
    scan posix options long_options w ops rest = (its', ops') ->
    (length (its ++ its') < fuel)%nat -> meets (its ++ its', ops') fuel s x.
Proof.
  induction cs as [cs IH] using (induction_ltof1 _ (@length byte)). unfold ltof in IH.
  intros c k s pre ops opts x fuel its its' w ops' Hpx Hin Hd Hw Hsc Hf.
  destruct (call_inside s pre (Some <$> ops) opts a k c cs rest Ha Hin Hd) as (copt & s' & Hn & Hc & Hr).
  destruct fuel as [|fuel]; [lia|]. rewrite Hw in Hr.
  destruct Hr as [Hne Hin' Hits | Hits Hb | w' Hits -> Hi Hb | w' b rest' Hits -> Hi Hb].
  - apply pair_eq in Hits as [-> ->]. destruct (inside_bounds _ _ _ _ _ _ _ Hin').
    simpl in *. eapply meets_item; [done..|]. intros x'.
    destruct cs as [|c' cs]; [done|].
    eapply (IH cs); [simpl; lia|exact Hpx|exact Hin'| |apply surjective_pairing|exact Hsc|lia].
    by rewrite <-Nat.add_1_r, <-drop_drop, Hd.
  - apply pair_eq in Hits as [-> ->]. destruct (between_bounds _ _ _ _ _ Hb). simpl in *.
    eapply meets_item; [done..|]. intros x'. rewrite <-Hsc in *.
    eapply Hrest; [exact Hpx|exact Hb|]. rewrite Hsc. simpl. lia.
  - apply pair_eq in Hits as [-> ->]. destruct (between_bounds _ _ _ _ _ Hb).
    simpl in Hsc. assert ((its', ops') = ([MissingArg (Some (want_text w'))], ops)) as [= -> ->]
      by (rewrite <-Hsc; by destruct w').
    simpl in *. eapply meets_item; [done..|]. intros x'.
    apply (Hrest s' pre ops _ x' fuel Hpx Hb). simpl. lia.
  - apply pair_eq in Hits as [-> ->]. destruct (between_bounds _ _ _ _ _ Hb).
    destruct (scan posix options long_options None ops rest') as [its'' ops''] eqn:Hsc'.
    assert ((its', ops') = (want_item w' b :: its'', ops'')) as [= -> ->]
      by (rewrite <-Hsc; destruct w'; simpl; by rewrite Hsc').
    simpl in *. eapply meets_item; [done..|]. intros x'. rewrite <-Hsc'.
    eapply Hnext; [done|exact Hpx|exact Hb|]. rewrite Hsc'. simpl. lia.
Qed.

Lemma run_args rest : Forall cstr rest -> args_ok rest.
Proof.
  induction rest as [rest IH] using (induction_ltof1 _ (@length bytes)). unfold ltof in IH.
  intros Hc s pre ops opts x fuel Hpx Hb Hf. destruct fuel as [|fuel]; [lia|].
  destruct rest as [|a rest].
  { destruct (call_end s pre ops opts Hb) as (s' & Hn & Hfin). by eapply meets_done. }
  apply Forall_cons in Hc as [Ha Hc].
  assert (Hrest : args_ok rest) by (apply IH; [simpl; lia|done]).
  simpl in *. destruct (is_operand a) eqn:Hop.
  { destruct (Bool.bool_dec posix true) as [E|E%not_true_is_false].
    - rewrite (Hpx E) in *. destruct (call_operand_posix s pre opts a rest E Ha Hop Hb) as (s' & Hn & Hfin).
      replace (if posix then _ else _) with ([] : list item, a :: rest) by (by rewrite E).
      by eapply meets_done.
    - destruct (call_operand s pre ops opts a rest E Ha Hop Hb) as (s' & pre' & Hb' & Hn).
      eapply meets_next; [exact Hn|].
      assert (Hsc : (if posix then ([], ops ++ a :: rest) else scan posix options long_options None (ops ++ [a]) rest) =
        scan posix options long_options None (ops ++ [a]) rest) by (by rewrite E).
      rewrite Hsc in *. eapply Hrest; [congruence|exact Hb'|done]. }
  case_bool_decide as Hdd.
  { subst a. destruct (call_dashdash s pre ops opts rest Hb) as (s' & Hn & Hfin). by eapply meets_done. }
  destruct (word_items options long_options (drop 1 a) a) as [its w] eqn:Hw.
  destruct (scan posix options long_options w ops rest) as [its' ops'] eqn:Hsc.
  destruct (call_enter s pre (Some <$> ops) opts a rest Ha Hop Hdd Hb) as (s' & Hin & Hn).
  eapply meets_next; [exact Hn|].
  destruct (drop 1 a) as [|c cs] eqn:Hd; [by destruct a as [|? [|? ?]]|].
  eapply run_word; try done. intros b rest' ->. apply Forall_cons in Hc as [_ Hc].
  apply IH; [simpl; lia|done].
Qed.

(** The first call: optind is 0, everything but the vector is set anew. *)
Lemma next_first s v : optind s = 0 -> nargv s = v ->
  next s = next (mkG v 1 (optopt s) false None None (-1) (-1) (getoptval s)).
Proof.
  destruct s as [v' oi oo orr oa pl ns ne gv]. simpl. intros -> ->.
  unfold next, getopt_long, getopt_internal. rewrite Hcolon. by destruct posix.
Qed.

Lemma getopt_loop_scan s a0 args x fuel :
  optind s = 0 -> nargv s = Some a0 :: (Some <$> args) ++ [None] -> Forall cstr args ->
  nargc = Z.of_nat (S (length args)) ->
  (length (fst (scan posix options long_options None [] args)) < fuel)%nat ->
  meets (scan posix options long_options None [] args) fuel s x.
Proof.
  intros H0 Hv Hc Hn Hf. eapply meets_next; [by apply next_first|].
  apply (run_args args Hc _ [Some a0] [] [] x fuel); [done| |done].
  rewrite ?Hv. repeat split; simpl; try done; try lia. by left.
Qed.
End loop.
End refinement.

(** ** How many calls there are *)

(** The characters of a command line. *)
Definition chars (args : list bytes) : nat := foldr (fun a n => length a + n)%nat O args.

Definition waits (w : option want) : nat := match w with Some _ => 1 | None => 0 end.

Lemma long_items_bound lo cur a :
  (length (fst (long_items lo cur a)) + waits (snd (long_items lo cur a)) <= 1)%nat.
Proof. unfold long_items. by repeat (case_match; simpl; try lia). Qed.

Lemma word_items_bound options lo cs a :
  (length (fst (word_items options lo cs a)) + waits (snd (word_items options lo cs a)) <= length cs)%nat.
Proof.
  induction cs as [|c cs IH]; simpl; [lia|].
  pose proof (long_items_bound lo cs a). destruct (word_items options lo cs a) as [its w].
  simpl in *. repeat (case_match; simpl in *; try lia).
Qed.

Lemma scan_bound posix options lo w acc args :
  (length (fst (scan posix options lo w acc args)) <= waits w + chars args)%nat.
Proof.
  revert w acc. induction args as [|a args IH]; intros w acc; simpl.
  { destruct w as [[]|]; simpl; lia. }
  destruct w as [[tab t|c t]|].
  1,2: specialize (IH None acc); destruct (scan posix options lo None acc args); simpl in *; lia.
  destruct (is_operand a) eqn:Hop.
  { destruct posix; [simpl; lia|]. specialize (IH None (acc ++ [a])). simpl in *. lia. }
  case_bool_decide; [simpl; lia|].
  pose proof (word_items_bound options lo (drop 1 a) a) as Hw. rewrite length_drop in Hw.
  destruct (word_items options lo (drop 1 a) a) as [its w]. specialize (IH w acc).
  destruct (scan posix options lo w acc args) as [its' ops]. simpl in *. rewrite length_app. lia.
Qed.

(** The caller that keeps the items. *)
Definition collect (copt : Z) (s : gstate) (acc : list item) : outcome (list item) :=
  Ret (acc ++ [item_of copt s]).

Lemma handle_all_collect its acc :
  handle_all (fun i acc => Ret (acc ++ [i])) its acc = Ret (acc ++ its).
Proof.
  revert acc. induction its as [|i its IH]; intros acc; simpl; [by rewrite app_nil_r|].
  by rewrite IH, <-app_assoc.
Qed.


Local Open Scope string_scope.
Local Open Scope list_scope.

Definition lo_ex : list loption :=
  [mkLoption (bs "help") 0 true 0; mkLoption (bs "mode") 1 true 1; mkLoption (bs "module") 0 true 2].
Definition args_ex : list bytes :=
  map bs ["s.js"; "--mod=3"; "x"; "--mode"; "seed"; "-he"; "--"; "-e"].
Definition start_ex : gstate :=
  mkG (Some (bs "aworker") :: (Some <$> args_ex) ++ [None]) 0 0 false None None (-1) (-1) 0.

