(* ===== verification/Argtable.v ===== *)
(** * argtable: the table of options and its parsing

    The part of src/deps/argtable/argtable3.c that aworker's command line uses: the
    constructors of flags, numbers, strings and file names, their reset, scan and
    check functions, and [arg_parse], which runs getopt_long (file [GetOpt]) over a
    copy of the arguments for the options and then gives the operands to the entries
    without a name.

    A table is the list of its entries and its terminator, the record [arg_end] that
    collects errors.  The theorems: every entry keeps its arrays in bounds and its
    numbers in the range of [int]; a number is what its literal says, with its sign,
    base and unit, or an overflow error; [arg_parse] is the specification
    [parse_words], which has no state of getopt; the terminator never holds more
    errors than it has room for. *)

From S2P Require Import Prelude GetOpt.
Import String.StringSyntax.
Local Open Scope string_scope.
Local Open Scope list_scope.

(** [src/deps/argtable/argtable3.h 53-53, ARG_TERMINATOR] *)
Definition ARG_TERMINATOR : Z := 1.
Definition ARG_HASVALUE : Z := 2.
Definition ARG_HASOPTVALUE : Z := 4.

(** [src/deps/argtable/argtable3.c 79-79, ARG_ERR_MINCOUNT] *)
Definition ARG_ERR_MINCOUNT : Z := 1.
Definition ARG_ERR_MAXCOUNT : Z := 2.
Definition ARG_ERR_BADINT : Z := 3.
Definition ARG_ERR_OVERFLOW : Z := 4.

(** [src/deps/argtable/argtable3.h 159-159, ARG_ELIMIT] *)
Definition ARG_ELIMIT : Z := 1.
Definition ARG_EMALLOC : Z := 2.
Definition ARG_ENOMATCH : Z := 3.
Definition ARG_ELONGOPT : Z := 4.
Definition ARG_EMISSARG : Z := 5.

(** * The entries *)

(** [src/deps/argtable/argtable3.h 95-109, arg_hdr] The function pointers are the
    constructor of [arg_data]; [parent] is the entry itself. *)
Record arg_hdr := mkHdr {
  hdr_flag : Z;
  shortopts : arg;
  longopts : arg;
  datatype : arg;
  glossary : arg;
  mincount : Z;
  maxcount : Z }.

(** [src/deps/argtable/argtable3.h 115-151, arg_lit] The four kinds of entries, with the arrays
    behind their structures; an element of [ival] is not initialised at first. *)
Inductive arg_data :=
  | ArgLit
  | ArgInt (ival : list (option Z))
  | ArgStr (sval : list bytes)
  | ArgFile (filename basename extension : list bytes).

Record arg_entry := mkEntry { hdr : arg_hdr; count : Z; data : arg_data }.

(** [src/deps/argtable/argtable3.h 160-166, arg_end] The three arrays are one list of
    the errors so far; an error names the entry it belongs to by its index, or the
    terminator. *)
Record arg_error := mkErr { e_code : Z; e_parent : option nat; e_argval : arg }.
Record arg_end := mkEnd { end_maxcount : Z; errors : list arg_error }.

Definition end_count (e : arg_end) : Z := Z.of_nat (length (errors e)).

Definition set_count (e : arg_entry) (c : Z) : arg_entry := mkEntry (hdr e) c (data e).
Definition set_data (e : arg_entry) (c : Z) (d : arg_data) : arg_entry := mkEntry (hdr e) c d.

(** ** Constructors *)

Definition new_hdr (flag : Z) (so lo : arg) (dt gl : arg) (minc maxc : Z) : arg_hdr :=
  mkHdr flag so lo dt gl minc (if maxc <? minc then minc else maxc).

(** [src/deps/argtable/argtable3.c 3276-3304, arg_litn] *)
Definition arg_litn (so lo : arg) (minc maxc : Z) (gl : arg) : arg_entry :=
  mkEntry (new_hdr 0 so lo None gl minc maxc) 0 ArgLit.

(** [src/deps/argtable/argtable3.c 3268-3270, arg_lit0] *)
Definition arg_lit0 (so lo gl : arg) : arg_entry := arg_litn so lo 0 1 gl.

(** [src/deps/argtable/argtable3.c 3152-3186, arg_intn] *)
Definition arg_intn (so lo dt : arg) (minc maxc : Z) (gl : arg) : arg_entry :=
  let h := new_hdr ARG_HASVALUE so lo (Some (default (bs "<int>") dt)) gl minc maxc in
  mkEntry h 0 (ArgInt (replicate (Z.to_nat (maxcount h)) None)).

(** [src/deps/argtable/argtable3.c 3144-3146, arg_int0] *)
Definition arg_int0 (so lo dt gl : arg) : arg_entry := arg_intn so lo dt 0 1 gl.

(** [src/deps/argtable/argtable3.c 4474-4515, arg_strn] *)
Definition arg_strn (so lo dt : arg) (minc maxc : Z) (gl : arg) : arg_entry :=
  let h := new_hdr ARG_HASVALUE so lo (Some (default (bs "<string>") dt)) gl minc maxc in
  mkEntry h 0 (ArgStr (replicate (Z.to_nat (maxcount h)) [])).

(** [src/deps/argtable/argtable3.c 2851-2898, arg_filen] *)
Definition arg_filen (so lo dt : arg) (minc maxc : Z) (gl : arg) : arg_entry :=
  let h := new_hdr ARG_HASVALUE so lo (Some (default (bs "<file>") dt)) gl minc maxc in
  let empty := replicate (Z.to_nat (maxcount h)) [] in
  mkEntry h 0 (ArgFile empty empty empty).

(** [src/deps/argtable/argtable3.c 2635-2670, arg_end] *)
Definition new_end (maxc : Z) : arg_end := mkEnd maxc [].

(** * Numbers *)

Definition is_space (b : byte) : bool := (bval b =? 32) || ((9 <=? bval b) && (bval b <=? 13)).
Definition toupper (b : byte) : byte :=
  if (97 <=? bval b) && (bval b <=? 122) then byte_of (bval b - 32) else b.

(** The value of a digit in bases up to 16, as [strtol] reads it. *)
Definition digit_val (b : byte) : option Z :=
  let z := bval b in
  if (48 <=? z) && (z <=? 57) then Some (z - 48)
  else if (97 <=? z) && (z <=? 102) then Some (z - 87)
  else if (65 <=? z) && (z <=? 70) then Some (z - 55)
  else None.
Definition digit_in (base : Z) (b : byte) : option Z :=
  d ← digit_val b; if d <? base then Some d else None.

(** The longest run of digits: its value and its length. *)
Fixpoint read_digits (base acc : Z) (n : nat) (s : bytes) : Z * nat :=
  match s with
  | [] => (acc, n)
  | c :: s' =>
      match digit_in base c with
      | Some d => read_digits base (acc * base + d) (S n) s'
      | None => (acc, n)
      end
  end.

Fixpoint skip_spaces (s : bytes) : nat :=
  match s with [] => O | c :: s => if is_space c then S (skip_spaces s) else O end.

Definition LONG_MAX : Z := 2 ^ 63 - 1.
Definition LONG_MIN : Z := - 2 ^ 63.
Definition INT_MAX : Z := 2 ^ 31 - 1.
Definition INT_MIN : Z := - 2 ^ 31.
Definition clamp_long (z : Z) : Z := Z.max LONG_MIN (Z.min LONG_MAX z).

(** A sign: its factor and its length. *)
Definition read_sign (s : bytes) : Z * nat :=
  match s with
  | c :: _ => if byte_eqb c x2b then (1, 1%nat) else if byte_eqb c x2d then (-1, 1%nat) else (1, O)
  | [] => (1, O)
  end.

(** The standard's [strtol]: the value and how many characters were used, 0 when
    there is no number.  White space, a sign, for base 16 an optional "0x" before a
    digit, digits; out of range is clamped. *)
Definition strtol (s : bytes) (base : Z) : Z * nat :=
  let w := skip_spaces s in
  let s1 := drop w s in
  let '(sg, k) := read_sign s1 in
  let s2 := drop k s1 in
  let p := match s2 with
           | z :: x :: d :: _ =>
               if (base =? 16) && byte_eqb z x30 && byte_eqb (toupper x) x58
                  && bool_decide (is_Some (digit_in 16 d)) then 2%nat else O
           | _ => O
           end in
  let '(v, n) := read_digits base 0 O (drop p s2) in
  if (n =? 0)%nat then (0, O) else (clamp_long (sg * v), (w + k + p + n)%nat).

Example strtol_ex : strtol (bs "  -0x1fz") 16 = (-31, 7%nat).
Proof. reflexivity. Qed.

(** [src/deps/argtable/argtable3.c 2953-3003, strtol0X] The number and how many
    characters were used; the product of the sign and LONG_MIN overflows. *)
Definition strtol0X (str : bytes) (X : byte) (base : Z) : outcome (Z * nat) :=
  let w := skip_spaces str in
  let '(s, k) := read_sign (drop w str) in
  let ptr := (w + k)%nat in
  if negb (byte_eqb (ch str ptr) x30) then Ret (0, O)
  else if negb (byte_eqb (toupper (ch str (S ptr))) (toupper X)) then Ret (0, O)
  else
    let '(val, n) := strtol (drop (S (S ptr)) str) base in
    if (n =? 0)%nat then Ret (0, O)
    else if (s =? -1) && (val =? LONG_MIN) then Fault BadArithmetic
    else Ret (s * val, (S (S ptr) + n)%nat).

(** [src/deps/argtable/argtable3.c 3007-3032, detectsuffix] *)
Fixpoint detectsuffix (str suffix : bytes) : bool :=
  match str, suffix with
  | [], [] => true
  | c :: str', x :: suffix' =>
      if byte_eqb (toupper c) (toupper x) then detectsuffix str' suffix' else false
  | _, [] => (skip_spaces str =? length str)%nat
  | [], _ :: _ => false
  end.

(** [src/deps/argtable/argtable3.c 3045-3065, arg_int_scanfn] The four attempts;
    [None] when all fail. *)
Definition scan_number (argval : bytes) : outcome (option (Z * nat)) :=
  '(val, n) ← strtol0X argval x58 16;
  if negb (n =? 0)%nat then Ret (Some (val, n)) else
  '(val, n) ← strtol0X argval x4f 8;
  if negb (n =? 0)%nat then Ret (Some (val, n)) else
  '(val, n) ← strtol0X argval x42 2;
  if negb (n =? 0)%nat then Ret (Some (val, n)) else
  let '(val, n) := strtol argval 10 in
  if negb (n =? 0)%nat then Ret (Some (val, n)) else Ret None.

(** [src/deps/argtable/argtable3.c 3075-3094, arg_int_scanfn] One unit: the factor is
    applied when the product is an [int]. *)
Definition apply_unit (val errorcode m : Z) : Z * Z :=
  if (Z.quot INT_MAX m <? val) || (val <? Z.quot INT_MIN m) then (val, ARG_ERR_OVERFLOW)
  else (val * m, errorcode).

(** [src/deps/argtable/argtable3.c 3034-3103, arg_int_scanfn] *)
Definition arg_int_scanfn (e : arg_entry) (ival : list (option Z)) (argval : arg)
    : outcome (Z * arg_entry) :=
  if count e =? maxcount (hdr e) then Ret (ARG_ERR_MAXCOUNT, e)
  else match argval with
  | None => Ret (0, set_count e (count e + 1))
  | Some argval =>
      r ← scan_number argval;
      match r with
      | None => Ret (ARG_ERR_BADINT, e)
      | Some (val, n) =>
          let errorcode := if (INT_MAX <? val) || (val <? INT_MIN) then ARG_ERR_OVERFLOW else 0 in
          let rest := drop n argval in
          let '(val, errorcode) :=
            if detectsuffix rest (bs "KB") then apply_unit val errorcode 1024
            else if detectsuffix rest (bs "MB") then apply_unit val errorcode 1048576
            else if detectsuffix rest (bs "GB") then apply_unit val errorcode 1073741824
            else if negb (detectsuffix rest []) then (val, ARG_ERR_BADINT)
            else (val, errorcode) in
          if errorcode =? 0 then
            v ← vec_set ival (count e) (Some (i32 val));
            Ret (0, set_data e (count e + 1) (ArgInt v))
          else Ret (errorcode, e)
      end
  end.

(** * File names *)

(** [strrchr(s, c)] as an index, [c] not the terminator. *)
Fixpoint strrchr (s : bytes) (c : byte) : option nat :=
  match s with
  | [] => None
  | x :: s => match strrchr s c with
              | Some k => Some (S k)
              | None => if byte_eqb x c then Some O else None
              end
  end.

(** [src/deps/argtable/argtable3.c 2743-2766, arg_basename] A pointer into the name
    is the text it points to; both separators are '/'. *)
Definition arg_basename (filename : bytes) : bytes :=
  let result := match strrchr filename x2f with Some k => drop (S k) filename | None => filename end in
  if bool_decide (result = bs ".") || bool_decide (result = bs "..") then [] else result.

(** [src/deps/argtable/argtable3.c 2769-2786, arg_extension] The last test reads the
    character after [result], which for a name without an extension is the one after
    the terminator; its value does not change the result then. *)
Definition arg_extension (basename : bytes) : bytes :=
  let result := match strrchr basename x2e with Some k => k | None => length basename end in
  let result := if (result =? 0)%nat then length basename else result in
  let result := if byte_eqb (ch basename (S result)) NUL then length basename else result in
  drop result basename.

(** * Scanning, checking and resetting an entry *)

(** [src/deps/argtable/argtable3.c 3230-3239, arg_lit_scanfn] *)
Definition arg_lit_scanfn (e : arg_entry) : Z * arg_entry :=
  if count e <? maxcount (hdr e) then (0, set_count e (count e + 1)) else (ARG_ERR_MAXCOUNT, e).

(** [src/deps/argtable/argtable3.c 4418-4435, arg_str_scanfn] *)
Definition arg_str_scanfn (e : arg_entry) (sval : list bytes) (argval : arg)
    : outcome (Z * arg_entry) :=
  if count e =? maxcount (hdr e) then Ret (ARG_ERR_MAXCOUNT, e)
  else match argval with
  | None => Ret (0, set_count e (count e + 1))
  | Some argval =>
      v ← vec_set sval (count e) argval;
      Ret (0, set_data e (count e + 1) (ArgStr v))
  end.

(** [src/deps/argtable/argtable3.c 2788-2809, arg_file_scanfn] *)
Definition arg_file_scanfn (e : arg_entry) (filename basename extension : list bytes) (argval : arg)
    : outcome (Z * arg_entry) :=
  if count e =? maxcount (hdr e) then Ret (ARG_ERR_MAXCOUNT, e)
  else match argval with
  | None => Ret (0, set_count e (count e + 1))
  | Some argval =>
      f ← vec_set filename (count e) argval;
      b ← vec_set basename (count e) (arg_basename argval);
      x ← vec_set extension (count e) (arg_extension (arg_basename argval));
      Ret (0, set_data e (count e + 1) (ArgFile f b x))
  end.

(** [table[i]->scanfn(parent, argval)]: every kind has one. *)
Definition scanfn (e : arg_entry) (argval : arg) : outcome (Z * arg_entry) :=
  match data e with
  | ArgLit => Ret (arg_lit_scanfn e)
  | ArgInt ival => arg_int_scanfn e ival argval
  | ArgStr sval => arg_str_scanfn e sval argval
  | ArgFile f b x => arg_file_scanfn e f b x argval
  end.

(** [src/deps/argtable/argtable3.c 3241-3245, arg_lit_checkfn] The same test for the
    four kinds. *)
Definition checkfn (e : arg_entry) : Z :=
  if count e <? mincount (hdr e) then ARG_ERR_MINCOUNT else 0.

(** [src/deps/argtable/argtable3.c 4408-4416, arg_str_resetfn] The strings that were
    set become empty. *)
Fixpoint clear_strings (n : nat) (sval : list bytes) : list bytes :=
  match n, sval with
  | S n, _ :: sval => [] :: clear_strings n sval
  | _, _ => sval
  end.

(** [src/deps/argtable/argtable3.c 4408-4416, arg_str_resetfn] The other kinds only
    forget their count. *)
Definition resetfn (e : arg_entry) : arg_entry :=
  match data e with
  | ArgStr sval => set_data e 0 (ArgStr (clear_strings (Z.to_nat (count e)) sval))
  | _ => set_count e 0
  end.

(** [src/deps/argtable/argtable3.c 4845-4857, arg_register_error] *)
Definition arg_register_error (e : arg_end) (parent : option nat) (error : Z) (argval : arg)
    : outcome arg_end :=
  if end_count e <? end_maxcount e then Ret (mkEnd (end_maxcount e) (errors e ++ [mkErr error parent argval]))
  else
    l ← vec_set (errors e) (end_maxcount e - 1) (mkErr ARG_ELIMIT None None);
    Ret (mkEnd (end_maxcount e) l).

(** * Parsing *)

Abbreviation table := (list arg_entry).

(** The table and its terminator, as they change while arguments are read. *)
Definition pstate : Type := table * arg_end.

(** [src/deps/argtable/argtable3.c 4863-4870, find_shortoption] *)
Fixpoint find_shortoption (t : table) (i : nat) (shortopt : byte) : option nat :=
  match t with
  | [] => None
  | e :: t =>
      if bool_decide (is_Some (s ← shortopts (hdr e); strchr s shortopt)) then Some i
      else find_shortoption t (S i) shortopt
  end.

(** The names of a comma separated list, empty ones only in the middle. *)
Fixpoint split_names (cur s : bytes) : list bytes :=
  match s with
  | [] => match cur with [] => [] | _ => [cur] end
  | c :: s => if byte_eqb c x2c then cur :: split_names [] s else split_names (cur ++ [c]) s
  end.

(** The argument of getopt for an entry. *)
Definition entry_has_arg (e : arg_entry) : Z :=
  if negb (Z.land (hdr_flag (hdr e)) ARG_HASOPTVALUE =? 0) then 2
  else if negb (Z.land (hdr_flag (hdr e)) ARG_HASVALUE =? 0) then 1 else 0.

(** [src/deps/argtable/argtable3.c 4897-4972, alloc_longoptions] The options without
    the zero-filled entry at the end. *)
Fixpoint alloc_longoptions (tabindex : nat) (t : table) : list loption :=
  match t with
  | [] => []
  | e :: t =>
      map (fun n => mkLoption n (entry_has_arg e) true (Z.of_nat tabindex))
          (split_names [] (default [] (longopts (hdr e))))
      ++ alloc_longoptions (S tabindex) t
  end.

(** [src/deps/argtable/argtable3.c 4993-5004, alloc_shortoptions] One entry's letters. *)
Definition entry_letters (e : arg_entry) : bytes :=
  let f := hdr_flag (hdr e) in
  concat (map (fun c => [c] ++ (if Z.land f ARG_HASVALUE =? 0 then [] else [x3a])
                            ++ (if Z.land f ARG_HASOPTVALUE =? 0 then [] else [x3a]))
              (default [] (shortopts (hdr e)))).

(** [src/deps/argtable/argtable3.c 4974-5010, alloc_shortoptions] *)
Definition alloc_shortoptions (t : table) : bytes := x3a :: concat (map entry_letters t).

(** Scan an argument with entry [i] and register its error. *)
Definition scan_entry (i : nat) (argval : arg) (p : pstate) : outcome pstate :=
  let '(t, e) := p in
  ent ← vec_get t (Z.of_nat i);
  '(errorcode, ent) ← scanfn ent argval;
  let t := <[i := ent]> t in
  if errorcode =? 0 then Ret (t, e)
  else e ← arg_register_error e (Some i) errorcode argval; Ret (t, e).

(** An error of the terminator itself. *)
Definition end_error (error : Z) (argval : arg) (p : pstate) : outcome pstate :=
  let '(t, e) := p in e ← arg_register_error e None error argval; Ret (t, e).

(** [src/deps/argtable/argtable3.c 5046-5105, arg_parse_tagged] The switch on the
    return value of getopt_long. *)
Definition tagged_switch (copt : Z) (s : gstate) (p : pstate) : outcome pstate :=
  if copt =? 0 then
    let tabindex := getoptval s in
    ent ← vec_get (fst p) tabindex;
    p ← (if bool_decide (optarg s = Some []) && negb (Z.land (hdr_flag (hdr ent)) ARG_HASVALUE =? 0)
         then a ← vec_get (nargv s) (optind s - 1); end_error ARG_EMISSARG a p
         else Ret p);
    scan_entry (Z.to_nat tabindex) (optarg s) p
  else if copt =? 63 then
    if optopt s =? 0 then a ← vec_get (nargv s) (optind s - 1); end_error ARG_ELONGOPT a p
    else end_error (optopt s) None p
  else if copt =? 58 then a ← vec_get (nargv s) (optind s - 1); end_error ARG_EMISSARG a p
  else match find_shortoption (fst p) 0 (byte_of copt) with
       | None => end_error copt None p
       | Some tabindex => scan_entry tabindex (optarg s) p
       end.

(** [src/deps/argtable/argtable3.c 5020-5112, arg_parse_tagged] optind is set to 0,
    so that getopt starts anew; its other variables are those of the last run. *)
Definition arg_parse_tagged (posixly_correct : bool) (fuel : nat) (argc : Z) (argv : list arg)
    (g : gstate) (p : pstate) : outcome (gstate * pstate) :=
  let longoptions := alloc_longoptions 0 (fst p) in
  let shortoptions := alloc_shortoptions (fst p) in
  getopt_while (getopt_long posixly_correct argc shortoptions longoptions) tagged_switch fuel
    (set_optind (set_nargv g argv) 0) p.

(** Is the entry without a name? *)
Definition untagged (e : arg_entry) : bool :=
  bool_decide (longopts (hdr e) = None) && bool_decide (shortopts (hdr e) = None).

(** The loop over the arguments no entry took. *)
Fixpoint unmatched (args : list arg) (p : pstate) : outcome pstate :=
  match args with
  | [] => Ret p
  | a :: args => p ← end_error ARG_ENOMATCH a p; unmatched args p
  end.

(** [src/deps/argtable/argtable3.c 5114-5183, arg_parse_untagged] [k] entries are left
    from [tabindex] on; [args] are the arguments from optind to argc; [last] is the
    tentative error (errorlast, optarglast, parentlast). *)
Fixpoint arg_parse_untagged (fuel : nat) (tabindex : nat) (args : list arg)
    (last : option (Z * arg * nat)) (p : pstate) : outcome pstate :=
  match fuel with
  | O => Fault OutOfFuel
  | S fuel =>
      match fst p !! tabindex with
      | None =>
          (* the terminator *)
          match last with
          | Some (errorlast, optarglast, parentlast) =>
              e ← arg_register_error (snd p) (Some parentlast) errorlast optarglast;
              unmatched (tail args) (fst p, e)
          | None => unmatched args p
          end
      | Some ent =>
          match args with
          | [] => Ret p
          | a :: args' =>
              if negb (untagged ent) then arg_parse_untagged fuel (S tabindex) args last p
              else
                '(errorcode, ent) ← scanfn ent a;
                let p := (<[tabindex := ent]> (fst p), snd p) in
                if errorcode =? 0 then arg_parse_untagged fuel tabindex args' None p
                else arg_parse_untagged fuel (S tabindex) args (Some (errorcode, a, tabindex)) p
          end
      end
  end.

(** [src/deps/argtable/argtable3.c 5185-5196, arg_parse_check] The terminator has no
    check function. *)
Fixpoint arg_parse_check (i : nat) (t : table) (e : arg_end) : outcome arg_end :=
  match t with
  | [] => Ret e
  | ent :: t =>
      e ← (if checkfn ent =? 0 then Ret e else arg_register_error e (Some i) (checkfn ent) None);
      arg_parse_check (S i) t e
  end.

(** [src/deps/argtable/argtable3.c 5198-5206, arg_reset] *)
Definition arg_reset (p : pstate) : pstate := (map resetfn (fst p), mkEnd (end_maxcount (snd p)) []).

(** [src/deps/argtable/argtable3.c 5208-5262, arg_parse] The arguments are C strings;
    the result is the number of errors.  [g] holds the static variables of getopt. *)
Definition arg_parse (posixly_correct : bool) (argv : list bytes) (g : gstate) (p : pstate)
    : outcome (Z * gstate * pstate) :=
  let p := arg_reset p in
  let argc := Z.of_nat (length argv) in
  if argc =? 0 then
    e ← arg_parse_check 0 (fst p) (snd p); Ret (end_count e, g, (fst p, e))
  else
    let argvcopy := (Some <$> argv) ++ [None] in
    '(g, p) ← arg_parse_tagged posixly_correct (S (chars argv)) argc argvcopy g p;
    let operands := take (Z.to_nat (argc - optind g)) (drop (Z.to_nat (optind g)) (nargv g)) in
    p ← arg_parse_untagged (S (length (fst p) + length operands)) 0 operands None p;
    e ← (if end_count (snd p) =? 0 then arg_parse_check 0 (fst p) (snd p) else Ret (snd p));
    Ret (end_count e, g, (fst p, e)).

#[local] Arguments arg_parse_untagged : simpl never.
#[local] Arguments getopt_while : simpl never.

(** * What parsing means, without getopt *)

(** One option or mistake of the command line. *)
Definition handle_item (i : item) (p : pstate) : outcome pstate :=
  match i with
  | LongOpt tab value text =>
      ent ← vec_get (fst p) tab;
      p ← (if bool_decide (value = Some []) && negb (Z.land (hdr_flag (hdr ent)) ARG_HASVALUE =? 0)
           then end_error ARG_EMISSARG text p else Ret p);
      scan_entry (Z.to_nat tab) value p
  | ShortOpt c value =>
      match find_shortoption (fst p) 0 (byte_of c) with
      | None => end_error c None p
      | Some tabindex => scan_entry tabindex value p
      end
  | MissingArg text => end_error ARG_EMISSARG text p
  | BadLong text => end_error ARG_ELONGOPT text p
  | BadShort c => end_error c None p
  end.

(** The words of a command line, after the program's name. *)
Definition parse_words (posix : bool) (args : list bytes) (p : pstate) : outcome pstate :=
  let '(items, operands) := scan posix (alloc_shortoptions (fst p)) (alloc_longoptions 0 (fst p)) None [] args in
  p ← handle_all handle_item items p;
  p ← arg_parse_untagged (S (length (fst p) + length operands)) 0 (Some <$> operands) None p;
  e ← (if end_count (snd p) =? 0 then arg_parse_check 0 (fst p) (snd p) else Ret (snd p));
  Ret (fst p, e).

(** Letters of options that getopt's return values cannot be confused with. *)
Definition letters_ok (t : table) : Prop :=
  Forall (fun e => Forall (fun c => good_letter c = true) (default [] (shortopts (hdr e)))) t.

Lemma alloc_longoptions_flags i t : Forall (fun o => flag o = true) (alloc_longoptions i t).
Proof.
  revert i. induction t as [|e t IH]; intros i; simpl; [constructor|].
  apply Forall_app. split; [|apply IH]. by apply Forall_fmap, Forall_true.
Qed.

Lemma alloc_shortoptions_letters t :
  letters_ok t -> Forall (fun c => c = x3a \/ good_letter c = true) (alloc_shortoptions t).
Proof.
  intros Ht. unfold alloc_shortoptions. constructor; [by left|].
  apply Forall_concat, Forall_fmap. eapply Forall_impl; [exact Ht|]. intros e He.
  unfold compose, entry_letters. apply Forall_concat, Forall_fmap. eapply Forall_impl; [exact He|].
  intros c Hc. simpl. constructor; [by right|]. apply Forall_app.
  split; case_match; repeat constructor.
Qed.

(** The switch sees the item and nothing else. *)
Lemma tagged_switch_item argc copt s p :
  0 < optind s <= argc -> Z.of_nat (length (nargv s)) = argc + 1 ->
  tagged_switch copt s p = handle_item (item_of copt s) p.
Proof.
  intros Ho Hl. unfold tagged_switch, item_of.
  destruct (lookup_lt_is_Some_2 (nargv s) (Z.to_nat (optind s - 1))) as [a Ha]; [lia|].
  assert (Hg : vec_get (nargv s) (optind s - 1) = Ret a).
  { unfold vec_get. destruct (Z.ltb_spec (optind s - 1) 0); [lia|]. by rewrite Ha. }
  rewrite Ha. simpl. destruct (copt =? 0); [simpl; by rewrite Hg|].
  change (copt =? 63) with (copt =? BADCH). destruct (copt =? BADCH).
  { destruct (optopt s =? 0); [by rewrite Hg|done]. }
  destruct (copt =? 58); [by rewrite Hg|done].
Qed.

Lemma arg_parse_words posix a0 args g p :
  letters_ok (fst p) -> Forall cstr args ->
  match parse_words posix args (arg_reset p) with
  | Ret p' => exists g', arg_parse posix (a0 :: args) g p = Ret (end_count (snd p'), g', p')
  | Fault f => arg_parse posix (a0 :: args) g p = Fault f
  end.
Proof.
  intros Hlet Hc. unfold arg_parse, parse_words. set (p0 := arg_reset p).
  assert (Hlet' : letters_ok (fst p0)).
  { unfold letters_ok, p0. simpl. apply Forall_fmap. eapply Forall_impl; [exact Hlet|].
    intros e He. unfold compose, resetfn. by destruct (data e). }
  destruct (Z.eqb_spec (Z.of_nat (length (a0 :: args))) 0); [simpl in *; lia|].
  unfold arg_parse_tagged.
  set (so := alloc_shortoptions (fst p0)). set (lo := alloc_longoptions 0 (fst p0)).
  pose proof (scan_bound posix so lo None [] args) as Hb.
  pose proof (getopt_loop_scan posix so lo eq_refl (alloc_shortoptions_letters _ Hlet')
    (alloc_longoptions_flags 0 _) (Z.of_nat (length (a0 :: args))) tagged_switch handle_item
    (fun copt s x _ => tagged_switch_item _ copt s x)
    (set_optind (set_nargv g ((Some <$> a0 :: args) ++ [None])) 0) a0 args p0
    (S (chars (a0 :: args))) eq_refl eq_refl Hc eq_refl ltac:(simpl in *; lia)) as Hm.
  unfold meets in Hm. destruct (scan posix so lo None [] args) as [items ops]. simpl in Hm.
  destruct (handle_all handle_item items p0) as [p1|f]; simpl; [|by rewrite Hm].
  destruct Hm as (g' & Hrun & pre & Hv & Hi & Hn & _). simpl in Hrun. rewrite Hrun. simpl.
  assert (Hops : take (Z.to_nat (Z.of_nat (S (length args)) - optind g')) (drop (Z.to_nat (optind g')) (nargv g'))
                 = Some <$> ops).
  { simpl in Hn. rewrite Hv, Hi, Nat2Z.id, drop_app_length. apply take_app_exact. rewrite length_fmap. lia. }
  rewrite Hops, length_fmap.
  destruct (arg_parse_untagged _ 0 (Some <$> ops) None p1) as [p2|f]; simpl; [|done].
  destruct (if end_count (snd p2) =? 0 then _ else _) as [e|f]; simpl; [|done]. by exists g'.
Qed.

(** * The invariant of a table *)

Definition int_range (z : Z) : Prop := INT_MIN <= z <= INT_MAX.

(** The arrays have [maxcount] elements, the count is in bounds, numbers are [int]s. *)
Definition wf_entry (e : arg_entry) : Prop :=
  let m := maxcount (hdr e) in
  0 <= count e <= m /\
  match data e with
  | ArgLit => True
  | ArgInt ival => Z.of_nat (length ival) = m /\ Forall (fun v => forall z, v = Some z -> int_range z) ival
  | ArgStr sval => Z.of_nat (length sval) = m
  | ArgFile f b x =>
      Z.of_nat (length f) = m /\ Z.of_nat (length b) = m /\ Z.of_nat (length x) = m
  end.

Definition wf_end (e : arg_end) : Prop := 0 < end_maxcount e /\ end_count e <= end_maxcount e.

(** The table keeps the headers [hs]. *)
Definition wf_state (hs : list arg_hdr) (p : pstate) : Prop :=
  Forall wf_entry (fst p) /\ map hdr (fst p) = hs /\ wf_end (snd p).

(** The computation gives a result in [P]; the only fault left is the overflow of a
    signed product. *)
Definition safe {A} (P : A -> Prop) (m : outcome A) : Prop :=
  match m with Ret a => P a | Fault f => f = BadArithmetic end.

Lemma safe_bind {A B} (P : A -> Prop) (Q : B -> Prop) m (f : A -> outcome B) :
  safe P m -> (forall a, P a -> safe Q (f a)) -> safe Q (m ≫= f).
Proof. destruct m as [a|]; simpl; auto. Qed.

Lemma safe_impl {A} (P Q : A -> Prop) m : safe P m -> (forall a, P a -> Q a) -> safe Q m.
Proof. destruct m as [a|]; simpl; auto. Qed.

Lemma vec_set_safe {A} (l : list A) i a :
  0 <= i < Z.of_nat (length l) -> vec_set l i a = Ret (<[Z.to_nat i := a]> l).
Proof.
  intros. unfold vec_set. destruct (Z.ltb_spec i 0); [lia|].
  destruct (Z.leb_spec (Z.of_nat (length l)) i); [lia|done].
Qed.

Lemma strtol0X_safe s X base : safe (fun _ => True) (strtol0X s X base).
Proof. unfold strtol0X. repeat case_match; done. Qed.

Lemma scan_number_safe s : safe (fun _ => True) (scan_number s).
Proof.
  unfold scan_number.
  do 3 (eapply safe_bind; [apply strtol0X_safe|]; intros [? n] _; destruct (negb (n =? 0)%nat); [done|]; clear n).
  repeat case_match; done.
Qed.

Lemma apply_unit_range val err m v :
  0 < m -> (err = 0 -> int_range val) -> m <= 2 ^ 30 ->
  apply_unit val err m = (v, 0) -> int_range v.
Proof.
  unfold apply_unit, int_range, INT_MIN, INT_MAX. intros Hm Hv Hm30.
  destruct ((Z.quot (2 ^ 31 - 1) m <? val) || (val <? Z.quot (- 2 ^ 31) m))%bool eqn:E; intros [= <- ?].
  bool_to_prop. rewrite Z.quot_opp_l, !Z.quot_div_nonneg in * by lia.
  pose proof (Z.mul_div_le (2 ^ 31 - 1) m Hm). pose proof (Z.mul_div_le (2 ^ 31) m Hm). nia.
Qed.

Lemma i32_id z : int_range z -> i32 z = z.
Proof. unfold int_range, INT_MIN, INT_MAX. intros. apply i32_small. lia. Qed.

(** The number a successful scan stores is the one computed, never truncated. *)
Lemma int_scan_stores val rest v err :
  (let errorcode := if (INT_MAX <? val) || (val <? INT_MIN) then ARG_ERR_OVERFLOW else 0 in
   if detectsuffix rest (bs "KB") then apply_unit val errorcode 1024
   else if detectsuffix rest (bs "MB") then apply_unit val errorcode 1048576
   else if detectsuffix rest (bs "GB") then apply_unit val errorcode 1073741824
   else if negb (detectsuffix rest []) then (val, ARG_ERR_BADINT)
   else (val, errorcode)) = (v, err) ->
  err = 0 -> int_range v.
Proof.
  intros H ->. cbv zeta in H.
  assert (Hv : (if (INT_MAX <? val) || (val <? INT_MIN) then ARG_ERR_OVERFLOW else 0) = 0 -> int_range val).
  { destruct ((INT_MAX <? val) || (val <? INT_MIN))%bool eqn:E; [done|]. bool_to_prop. unfold int_range. lia. }
  repeat case_match; try (refine (apply_unit_range _ _ _ _ _ _ _ H); [lia|exact Hv|lia]).
  all: simplify_eq; auto.
Qed.

Lemma scanfn_safe e a :
  wf_entry e -> safe (fun r => wf_entry (snd r) /\ hdr (snd r) = hdr e) (scanfn e a).
Proof.
  intros (Hc & Hd). unfold scanfn. destruct (data e) as [|ival|sval|f b x] eqn:He.
  - simpl. unfold arg_lit_scanfn. destruct (Z.ltb_spec (count e) (maxcount (hdr e))); simpl;
      (split; [|done]); split; simpl; rewrite ?He; lia || done.
  - unfold arg_int_scanfn. destruct (Z.eqb_spec (count e) (maxcount (hdr e))).
    { simpl. split; [|done]. split; [lia|]. by rewrite He. }
    destruct a as [a|]; [|simpl; split; [|done]; split; [simpl; lia|]; simpl; by rewrite He].
    eapply safe_bind; [apply scan_number_safe|]. intros [[z n']|] _; cbn beta iota zeta.
    2:{ simpl. split; [|done]. split; [lia|]. by rewrite He. }
    match goal with |- context [match ?m with (_, _) => _ end] => destruct m as [v err] eqn:Hm end.
    destruct (Z.eqb_spec err 0) as [Herr|]; simpl.
    2:{ split; [|done]. split; [lia|]. by rewrite He. }
    pose proof (int_scan_stores z (drop n' a) v err Hm Herr) as Hr. destruct Hd as [Hl Hf].
    rewrite vec_set_safe by lia. simpl. split; [|done]. split; simpl; [lia|]. rewrite length_insert.
    split; [done|]. apply Forall_insert; [done|]. intros ? [= <-]. by rewrite i32_id.
  - unfold arg_str_scanfn. destruct (Z.eqb_spec (count e) (maxcount (hdr e))).
    { simpl. split; [|done]. split; [lia|]. by rewrite He. }
    destruct a as [a|]; [|simpl; split; [|done]; split; [simpl; lia|]; simpl; by rewrite He].
    rewrite vec_set_safe by lia. simpl. split; [|done]. split; simpl; [lia|]. by rewrite length_insert.
  - unfold arg_file_scanfn. destruct (Z.eqb_spec (count e) (maxcount (hdr e))).
    { simpl. split; [|done]. split; [lia|]. by rewrite He. }
    destruct a as [a|]; [|simpl; split; [|done]; split; [simpl; lia|]; simpl; by rewrite He].
    destruct Hd as (? & ? & ?). repeat (rewrite vec_set_safe by lia; simpl).
    split; [|done]. split; simpl; [lia|]. by rewrite !length_insert.
Qed.

Lemma arg_register_error_ok e parent err a :
  wf_end e -> exists e', arg_register_error e parent err a = Ret e' /\ wf_end e' /\ 0 < end_count e'.
Proof.
  intros [Hm Hc]. unfold arg_register_error, wf_end, end_count in *.
  destruct (Z.ltb_spec (Z.of_nat (length (errors e))) (end_maxcount e)).
  - eexists. split; [done|]. simpl. rewrite length_app. simpl. lia.
  - rewrite vec_set_safe by lia. simpl. eexists. split; [done|]. simpl. rewrite length_insert. lia.
Qed.

Lemma end_error_safe hs err a p : wf_state hs p -> safe (wf_state hs) (end_error err a p).
Proof.
  destruct p as [t e]. intros (Ht & Hh & He). simpl.
  destruct (arg_register_error_ok e None err a He) as (e' & -> & He' & _). done.
Qed.

Lemma wf_insert hs t e i ent ent' :
  wf_state hs (t, e) -> t !! i = Some ent -> wf_entry ent' -> hdr ent' = hdr ent ->
  wf_state hs (<[i := ent']> t, e).
Proof.
  intros (Ht & Hh & He) Hi Hw Hd. split; [by apply Forall_insert|]. split; [|done].
  simpl in *. rewrite <-Hh. change (map hdr) with (fmap (M := list) hdr).
  rewrite list_fmap_insert, Hd. apply list_insert_id. by rewrite list_lookup_fmap, Hi.
Qed.

Lemma scan_entry_safe hs i a p :
  wf_state hs p -> (i < length hs)%nat -> safe (wf_state hs) (scan_entry i a p).
Proof.
  destruct p as [t e]. intros Hw Hi. pose proof Hw as (Ht & Hh & He). simpl.
  assert (Hlen : length t = length hs) by (rewrite <-Hh; by rewrite length_map).
  destruct (lookup_lt_is_Some_2 t i) as [ent Hent]; [lia|].
  assert (Hg : vec_get t (Z.of_nat i) = Ret ent).
  { unfold vec_get. destruct (Z.ltb_spec (Z.of_nat i) 0); [lia|]. by rewrite Nat2Z.id, Hent. }
  rewrite Hg. simpl. eapply safe_bind; [apply scanfn_safe; by eapply Forall_lookup_1|].
  intros [code ent'] [Hw' Hd]. simpl in *.
  destruct (code =? 0); [by eapply wf_insert|].
  destruct (arg_register_error_ok e (Some i) code a He) as (e' & -> & He' & _).
  by eapply wf_insert.
Qed.

(** ** Options name entries of the table *)

Definition item_in (P : Z -> Prop) (i : item) : Prop :=
  match i with LongOpt tab _ _ => P tab | _ => True end.
Definition want_in (P : Z -> Prop) (w : option want) : Prop :=
  match w with Some (WantLong tab _) => P tab | _ => True end.
Abbreviation item_ok n := (item_in (fun tab => 0 <= tab < Z.of_nat n)).

Lemma alloc_longoptions_val k t :
  Forall (fun o => Z.of_nat k <= val o < Z.of_nat (k + length t)) (alloc_longoptions k t).
Proof.
  revert k. induction t as [|e t IH]; intros k; simpl; [constructor|].
  apply Forall_app. split.
  - apply Forall_fmap, Forall_true. intros n. simpl. lia.
  - eapply Forall_impl; [apply IH|]. simpl. intros o ?. lia.
Qed.

Section items_ok.
Context (so : bytes) (lo : list loption) (P : Z -> Prop).
Hypothesis Hlo : Forall (fun o => P (val o)) lo.

Lemma long_items_ok cur a :
  Forall (item_in P) (fst (long_items lo cur a)) /\ want_in P (snd (long_items lo cur a)).
Proof.
  unfold long_items.
  repeat case_match; simpl; (split; [repeat constructor|]); try done;
    (eapply Forall_lookup_1 in Hlo; [|eassumption]); done.
Qed.

Lemma word_items_ok cs a :
  Forall (item_in P) (fst (word_items so lo cs a)) /\ want_in P (snd (word_items so lo cs a)).
Proof.
  induction cs as [|c cs IH]; simpl; [done|]. pose proof (long_items_ok cs a).
  destruct (word_items so lo cs a) as [its w]. simpl in *.
  repeat case_match; simpl; try done; destruct IH; split; repeat constructor; done.
Qed.

Lemma scan_items_ok posix w acc args :
  want_in P w -> Forall (item_in P) (fst (scan posix so lo w acc args)).
Proof.
  revert w acc. induction args as [|a args IH]; intros w acc Hw; simpl.
  { destruct w as [[]|]; repeat constructor. }
  destruct w as [[tab t|c t]|]; simpl in *.
  1,2: specialize (IH None acc I); destruct (scan posix so lo None acc args); simpl in *; by constructor.
  destruct (is_operand a); [destruct posix; [constructor|by apply IH]|]. case_bool_decide; [constructor|].
  destruct (word_items_ok (drop 1 a) a) as [Hi Hw'].
  destruct (word_items so lo (drop 1 a) a) as [its w]. specialize (IH w acc Hw').
  destruct (scan posix so lo w acc args). simpl in *. by apply Forall_app.
Qed.
End items_ok.

Lemma find_shortoption_lt t k c i : find_shortoption t k c = Some i -> (i < k + length t)%nat.
Proof.
  revert k. induction t as [|e t IH]; intros k; simpl; [done|].
  case_bool_decide; [intros [= <-]; lia|]. intros ?%IH. lia.
Qed.

Lemma wf_length hs p : wf_state hs p -> length (fst p) = length hs.
Proof. intros (_ & <- & _). by rewrite length_map. Qed.

Lemma handle_item_safe hs i p :
  item_ok (length hs) i -> wf_state hs p -> safe (wf_state hs) (handle_item i p).
Proof.
  intros Hi Hp. pose proof (wf_length hs p Hp) as Hlen.
  destruct i as [tab v t|c v|t|t|c]; simpl in *; try by apply end_error_safe.
  - destruct (lookup_lt_is_Some_2 (fst p) (Z.to_nat tab)) as [ent Hent]; [lia|].
    unfold vec_get. destruct (Z.ltb_spec tab 0); [lia|]. rewrite Hent. simpl.
    eapply (safe_bind (wf_state hs)); [case_match; [by apply end_error_safe|done]|].
    intros p' Hp'. apply scan_entry_safe; [done|lia].
  - destruct (find_shortoption (fst p) 0 (byte_of c)) as [k|] eqn:E; [|by apply end_error_safe].
    apply find_shortoption_lt in E. apply scan_entry_safe; [done|lia].
Qed.

Lemma handle_all_safe hs its p :
  Forall (item_ok (length hs)) its -> wf_state hs p -> safe (wf_state hs) (handle_all handle_item its p).
Proof.
  intros Hi. revert p. induction Hi as [|i its Hi _ IH]; intros p Hp; simpl; [done|].
  eapply safe_bind; [by apply handle_item_safe|]. auto.
Qed.

Lemma unmatched_safe hs args p : wf_state hs p -> safe (wf_state hs) (unmatched args p).
Proof.
  revert p. induction args as [|a args IH]; intros p Hp; simpl; [done|].
  eapply safe_bind; [by apply end_error_safe|]. auto.
Qed.

Lemma arg_parse_untagged_safe hs fuel k args last p :
  wf_state hs p -> (length hs - k + length args < fuel)%nat ->
  safe (wf_state hs) (arg_parse_untagged fuel k args last p).
Proof.
  revert k args last p. induction fuel as [|fuel IH]; intros k args last p Hp Hf; [lia|].
  unfold arg_parse_untagged; fold arg_parse_untagged. pose proof (wf_length hs p Hp) as Hlen.
  destruct (fst p !! k) as [ent|] eqn:Hent.
  - apply lookup_lt_Some in Hent as Hk. destruct args as [|a args]; [done|]. simpl in *.
    destruct (untagged ent); simpl; [|apply IH; [done|simpl; lia]].
    eapply safe_bind; [apply scanfn_safe; destruct Hp as [Hp _]; by eapply Forall_lookup_1|].
    intros [code ent'] [Hw Hd]. cbn beta iota zeta.
    assert (wf_state hs (<[k := ent']> (fst p), snd p)) by (destruct p; by eapply wf_insert).
    destruct (code =? 0); apply IH; simpl; done || lia.
  - destruct last as [[[code a] par]|]; [|by apply unmatched_safe].
    destruct Hp as (? & ? & He). destruct (arg_register_error_ok _ (Some par) code a He) as (e' & -> & ? & _).
    apply unmatched_safe. done.
Qed.

Lemma arg_parse_check_ok k t e : wf_end e -> exists e', arg_parse_check k t e = Ret e' /\ wf_end e'.
Proof.
  revert k e. induction t as [|ent t IH]; intros k e He; simpl; [eauto|].
  destruct (checkfn ent =? 0); simpl; [by apply IH|].
  destruct (arg_register_error_ok e (Some k) (checkfn ent) None He) as (e' & -> & He' & _). by apply IH.
Qed.

Lemma parse_words_safe posix hs args p :
  wf_state hs p -> safe (wf_state hs) (parse_words posix args p).
Proof.
  intros Hp. unfold parse_words. pose proof (wf_length hs p Hp) as Hlen.
  pose proof (scan_items_ok (alloc_shortoptions (fst p)) (alloc_longoptions 0 (fst p)) (fun tab => 0 <= tab < Z.of_nat (length hs))
    ltac:(rewrite <-Hlen; apply (alloc_longoptions_val 0)) posix None [] args I) as Hi.
  destruct (scan posix _ _ None [] args) as [items ops]. simpl in Hi.
  eapply safe_bind; [by apply handle_all_safe|]. intros p1 Hp1.
  eapply safe_bind; [apply (arg_parse_untagged_safe hs); [done|]|].
  { rewrite (wf_length hs p1 Hp1), length_fmap. lia. }
  intros p2 Hp2. destruct Hp2 as (Ht & Hh & He). destruct (end_count (snd p2) =? 0); [|done].
  destruct (arg_parse_check_ok 0 (fst p2) (snd p2) He) as (e' & -> & He'). done.
Qed.

Lemma resetfn_wf e : wf_entry e -> wf_entry (resetfn e) /\ hdr (resetfn e) = hdr e.
Proof.
  assert (Hcl : forall n l, length (clear_strings n l) = length l).
  { induction n as [|n IH]; intros [|x l]; simpl; auto. }
  intros (Hc & Hd). unfold resetfn, wf_entry. destruct (data e) eqn:He; simpl; rewrite ?He, ?Hcl;
    repeat split; try lia; by destruct Hd.
Qed.

Lemma arg_reset_wf hs p : wf_state hs p -> wf_state hs (arg_reset p).
Proof.
  intros (Ht & Hh & Hm & _). split; [|split].
  - simpl. apply Forall_fmap. eapply Forall_impl; [exact Ht|]. intros e He. by apply resetfn_wf.
  - simpl. rewrite <-Hh, map_map. apply map_ext_in. intros e He%list_elem_of_In.
    rewrite Forall_forall in Ht. by apply resetfn_wf, Ht.
  - unfold wf_end, end_count. simpl. lia.
Qed.

(** What the constructors make is well formed. *)
Lemma constructors_wf so lo dt gl minc maxc : 0 <= maxc ->
  wf_entry (arg_litn so lo minc maxc gl) /\ wf_entry (arg_intn so lo dt minc maxc gl) /\
  wf_entry (arg_strn so lo dt minc maxc gl) /\ wf_entry (arg_filen so lo dt minc maxc gl).
Proof.
  intros. unfold wf_entry, arg_litn, arg_intn, arg_strn, arg_filen, new_hdr. simpl.
  rewrite !length_replicate. destruct (Z.ltb_spec maxc minc); repeat split; try lia.
  all: apply Forall_replicate; done.
Qed.

Lemma new_end_wf m : 0 < m -> wf_end (new_end m).
Proof. unfold wf_end, new_end, end_count. simpl. lia. Qed.

(** * Every word is counted *)

(** The counts of the entries whose header is in [w] added up, and their capacity. *)
Definition total (w : arg_hdr -> bool) (t : table) : Z :=
  foldr (fun e n => (if w (hdr e) then count e else 0) + n) 0 t.
Definition capacity (w : arg_hdr -> bool) (hs : list arg_hdr) : Z :=
  foldr (fun h n => (if w h then maxcount h else 0) + n) 0 hs.
Definition everything (_ : arg_hdr) : bool := true.

Lemma total_insert w t i e e' : t !! i = Some e -> hdr e' = hdr e ->
  total w (<[i := e']> t) = total w t + (if w (hdr e) then count e' - count e else 0).
Proof.
  intros Hi Hh. revert i Hi. induction t as [|x t IH]; intros [|i]; simpl; [done|done| |].
  - intros [= ->]. rewrite Hh. destruct (w (hdr e)); lia.
  - intros H. rewrite (IH i H). lia.
Qed.

Lemma total_bounds w hs p : wf_state hs p -> 0 <= total w (fst p) <= capacity w hs.
Proof.
  intros (Hw & <- & _). induction Hw as [|e t [Hc _] _ IH]; simpl; [done|].
  simpl in IH. destruct (w (hdr e)); lia.
Qed.

(** A scan that succeeds counts one more, one that fails changes nothing. *)
Lemma scanfn_counts e a c e' : scanfn e a = Ret (c, e') ->
  if c =? 0 then count e' = count e + 1 /\ hdr e' = hdr e else e' = e.
Proof.
  unfold scanfn, arg_lit_scanfn, arg_int_scanfn, arg_str_scanfn, arg_file_scanfn.
  destruct (data e) as [|ival|sval|f b x].
  - destruct (count e <? maxcount (hdr e)); by intros [= <- <-].
  - destruct (count e =? maxcount (hdr e)); [by intros [= <- <-]|].
    destruct a as [a|]; [|by intros [= <- <-]].
    destruct (scan_number a) as [[[z n]|]|]; simpl; [|by intros [= <- <-]|done].
    match goal with |- context [match ?m with (_, _) => _ end] => destruct m as [v err] end.
    destruct (Z.eqb_spec err 0); [|intros [= <- <-]; by rewrite (proj2 (Z.eqb_neq err 0))].
    destruct (vec_set ival (count e) _); simpl; [|done]. by intros [= <- <-].
  - destruct (count e =? maxcount (hdr e)); [by intros [= <- <-]|].
    destruct a as [a|]; [|by intros [= <- <-]].
    destruct (vec_set sval _ _); simpl; [|done]. by intros [= <- <-].
  - destruct (count e =? maxcount (hdr e)); [by intros [= <- <-]|].
    destruct a as [a|]; [|by intros [= <- <-]].
    destruct (vec_set f _ _); simpl; [|done]. destruct (vec_set b _ _); simpl; [|done].
    destruct (vec_set x _ _); simpl; [|done]. by intros [= <- <-].
Qed.

(** From [p] to [p'] the entries in [w] counted [n] more words, or there is an error. *)
Definition counted (w : arg_hdr -> bool) (n : Z) (p p' : pstate) : Prop :=
  0 < end_maxcount (snd p') /\
  (end_count (snd p') = 0 -> end_count (snd p) = 0 /\ total w (fst p') = total w (fst p) + n).

Lemma counted_trans w n m p q r : counted w n p q -> counted w m q r -> counted w (n + m) p r.
Proof. unfold counted. intros [_ H1] [? H2]. split; [done|]. intros [Hq ?]%H2. apply H1 in Hq. lia. Qed.

Lemma register_error_counts e par err a e' : 0 < end_maxcount e ->
  arg_register_error e par err a = Ret e' -> 0 < end_maxcount e' /\ end_count e' <> 0.
Proof.
  intros Hm. unfold arg_register_error, end_count.
  destruct (Z.ltb_spec (Z.of_nat (length (errors e))) (end_maxcount e)).
  - intros [= <-]. simpl. rewrite length_app. simpl. lia.
  - unfold vec_set. destruct (_ || _)%bool eqn:E; simpl; [done|]. intros [= <-]. simpl.
    rewrite length_insert. bool_to_prop. lia.
Qed.

Lemma end_error_counts w n err a p p' : 0 < end_maxcount (snd p) ->
  end_error err a p = Ret p' -> counted w n p p'.
Proof.
  destruct p as [t e]. simpl. intros Hm. destruct (arg_register_error _ _ _ _) eqn:E; simpl; [|done].
  intros [= <-]. apply register_error_counts in E as [? ?]; [|done]. by split.
Qed.

Lemma scan_entry_counts i a p p' : 0 < end_maxcount (snd p) ->
  scan_entry i a p = Ret p' -> counted everything 1 p p'.
Proof.
  destruct p as [t e]. simpl. intros Hm. unfold vec_get.
  destruct (Z.ltb_spec (Z.of_nat i) 0); [lia|]. rewrite Nat2Z.id.
  destruct (t !! i) as [ent|] eqn:Hi; simpl; [|done].
  destruct (scanfn ent a) as [[c ent']|] eqn:Hs; simpl; [|done]. apply scanfn_counts in Hs.
  destruct (c =? 0).
  - intros [= <-]. split; [done|]. simpl. intros He. split; [done|]. destruct Hs as [Hs Hh].
    rewrite (total_insert _ t i ent ent' Hi Hh). simpl. lia.
  - destruct (arg_register_error _ _ _ _) eqn:E; simpl; [|done]. intros [= <-].
    apply register_error_counts in E as [? ?]; [|done]. by split.
Qed.

Lemma handle_item_counts i p p' : 0 < end_maxcount (snd p) ->
  handle_item i p = Ret p' -> counted everything 1 p p'.
Proof.
  intros Hm. destruct i as [tab v t|c v|t|t|c]; simpl; try by apply end_error_counts.
  - destruct (vec_get (fst p) tab) as [ent|]; simpl; [|done]. case_match.
    + destruct (end_error ARG_EMISSARG t p) as [q|] eqn:E; simpl; [|done].
      apply (end_error_counts everything 0) in E; [|done]. intros Hq. apply scan_entry_counts in Hq; [|apply E].
      apply (counted_trans everything 0 1 p q p' E Hq).
    + by apply scan_entry_counts.
  - case_match; [by apply scan_entry_counts|by apply end_error_counts].
Qed.

Lemma handle_all_counts its p p' : 0 < end_maxcount (snd p) ->
  handle_all handle_item its p = Ret p' -> counted everything (Z.of_nat (length its)) p p'.
Proof.
  revert p. induction its as [|i its IH]; intros p Hm; simpl.
  - intros [= <-]. split; [done|]. intros; lia.
  - destruct (handle_item i p) as [q|] eqn:E; simpl; [|done]. apply handle_item_counts in E; [|done].
    intros Hq%IH; [|apply E]. rewrite Nat2Z.inj_succ, <-Z.add_1_l. by eapply counted_trans.
Qed.

Lemma unmatched_counts w args p p' : 0 < end_maxcount (snd p) ->
  unmatched args p = Ret p' -> counted w (Z.of_nat (length args)) p p'.
Proof.
  revert p. induction args as [|a args IH]; intros p Hm; simpl.
  - intros [= <-]. split; [done|]. intros; lia.
  - destruct (end_error ARG_ENOMATCH a p) as [q|] eqn:E; simpl; [|done].
    apply (end_error_counts w 1) in E; [|done].
    intros Hq%IH; [|apply E]. rewrite Nat2Z.inj_succ, <-Z.add_1_l. by eapply counted_trans.
Qed.

Lemma untagged_counts w fuel k args last p p' :
  (forall e, untagged e = true -> w (hdr e) = true) -> 0 < end_maxcount (snd p) ->
  arg_parse_untagged fuel k args last p = Ret p' -> counted w (Z.of_nat (length args)) p p'.
Proof.
  intros Hwu. revert k args last p. induction fuel as [|fuel IH]; intros k args last p Hm; [done|].
  unfold arg_parse_untagged; fold arg_parse_untagged.
  destruct (fst p !! k) as [ent|] eqn:Hent.
  - destruct args as [|a args]; [intros [= <-]; split; [done|]; intros; simpl; lia|].
    destruct (untagged ent) eqn:Hu; simpl negb; [|by apply IH].
    destruct (scanfn ent a) as [[c ent']|] eqn:Hs; simpl; [|done]. apply scanfn_counts in Hs.
    destruct (c =? 0).
    + intros Hq%IH; [|done]. rewrite Nat2Z.inj_succ, <-Z.add_1_l. eapply counted_trans; [|exact Hq].
      split; [done|]. intros He. simpl in *. split; [done|]. destruct Hs as [Hs Hh].
      rewrite (total_insert w _ _ _ _ Hent Hh), (Hwu ent Hu). lia.
    + subst ent'. rewrite list_insert_id by done. destruct p as [t e]. intros Hq%IH; done.
  - destruct last as [[[c a] par]|]; [|by apply unmatched_counts].
    destruct (arg_register_error _ _ _ _) as [e'|] eqn:E; simpl; [|done].
    apply register_error_counts in E as [? ?]; [|done]. intros Hq%(unmatched_counts w); [|done].
    destruct Hq as [? Hq]. split; [done|]. intros [? _]%Hq. simpl in *. done.
Qed.

(** The entries without a name have room for the operands, or there is an error. *)
Definition nameless (h : arg_hdr) : bool :=
  bool_decide (longopts h = None) && bool_decide (shortopts h = None).

Lemma operands_fit posix hs args p p' :
  wf_state hs p -> parse_words posix args p = Ret p' -> end_count (snd p') = 0 ->
  Z.of_nat (length (snd (scan posix (alloc_shortoptions (fst p)) (alloc_longoptions 0 (fst p)) None [] args)))
  <= capacity nameless hs.
Proof.
  intros Hp. unfold parse_words. pose proof (wf_length hs p Hp) as Hlen.
  pose proof (scan_items_ok (alloc_shortoptions (fst p)) (alloc_longoptions 0 (fst p)) (fun tab => 0 <= tab < Z.of_nat (length hs))
    ltac:(rewrite <-Hlen; apply (alloc_longoptions_val 0)) posix None [] args I) as Hi.
  destruct (scan posix _ _ None [] args) as [items ops]. simpl in Hi |- *.
  pose proof (handle_all_safe hs items p Hi Hp) as H1.
  destruct (handle_all handle_item items p) as [p1|]; simpl; [|done]. simpl in H1.
  pose proof (arg_parse_untagged_safe hs (S (length (fst p1) + length ops)) 0 (Some <$> ops) None p1 H1) as H2.
  rewrite (wf_length hs p1 H1), length_fmap in H2. specialize (H2 ltac:(lia)).
  rewrite (wf_length hs p1 H1).
  destruct (arg_parse_untagged _ 0 (Some <$> ops) None p1) as [p2|] eqn:E2; simpl; [|done]. simpl in H2.
  apply (untagged_counts nameless) in E2 as [_ Hc]; [|done|apply H1]. rewrite length_fmap in Hc.
  pose proof (total_bounds nameless hs p1 H1). pose proof (total_bounds nameless hs p2 H2).
  destruct (Z.eqb_spec (end_count (snd p2)) 0) as [He|He].
  - destruct (arg_parse_check 0 (fst p2) (snd p2)); simpl; [|done]. intros [= <-] _.
    apply Hc in He as [_ Ht]. lia.
  - by intros [= <-].
Qed.

Lemma words_counted posix args p p' :
  0 < end_maxcount (snd p) -> parse_words posix args (arg_reset p) = Ret p' -> end_count (snd p') = 0 ->
  let '(items, operands) :=
    scan posix (alloc_shortoptions (fst (arg_reset p))) (alloc_longoptions 0 (fst (arg_reset p))) None [] args in
  total everything (fst p') = Z.of_nat (length items + length operands).
Proof.
  intros Hm. set (p0 := arg_reset p). assert (H0 : total everything (fst p0) = 0).
  { unfold p0. simpl. clear. induction (fst p) as [|e t IH]; simpl; [done|]. rewrite IH.
    unfold resetfn, everything. by destruct (data e). }
  unfold parse_words. destruct (scan posix _ _ None [] args) as [items ops].
  destruct (handle_all handle_item items p0) as [p1|] eqn:E1; simpl; [|done].
  apply handle_all_counts in E1; [|done].
  destruct (arg_parse_untagged _ 0 (Some <$> ops) None p1) as [p2|] eqn:E2; simpl; [|done].
  apply (untagged_counts everything) in E2; [|done|apply E1]. rewrite length_fmap in E2.
  pose proof (counted_trans _ _ _ _ _ _ E1 E2) as [_ Hc].
  destruct (Z.eqb_spec (end_count (snd p2)) 0) as [He|He].
  - destruct (arg_parse_check 0 (fst p2) (snd p2)); simpl; [|done]. intros [= <-] _. simpl.
    apply Hc in He as [_ ->]. lia.
  - intros [= <-] Hz. simpl in *. done.
Qed.

(** No word of a command line is ignored or counted twice: when parsing ends without
    an error, the counts of the entries add up to the options and operands that the
    command line has. *)
Theorem every_word_counted posix args p p' :
  0 < end_maxcount (snd p) -> parse_words posix args (arg_reset p) = Ret p' -> end_count (snd p') = 0 ->
  let '(items, operands) :=
    scan posix (alloc_shortoptions (fst (arg_reset p))) (alloc_longoptions 0 (fst (arg_reset p))) None [] args in
  total everything (fst p') = Z.of_nat (length items + length operands).
Proof. apply words_counted. Qed.

(** * What the entries hold after a command line without errors *)

(** The first entry with this letter. *)
Fixpoint letter_index (hs : list arg_hdr) (i : nat) (c : byte) : option nat :=
  match hs with
  | [] => None
  | h :: hs => if bool_decide (is_Some (s ← shortopts h; strchr s c)) then Some i else letter_index hs (S i) c
  end.

(** The value an option of the command line gives to entry [i], if it is one of its
    options: its long names give the index, a letter the first entry that has it. *)
Definition gives (hs : list arg_hdr) (i : nat) (it : item) : list arg :=
  match it with
  | LongOpt tab v _ => if decide (tab = Z.of_nat i) then [v] else []
  | ShortOpt c v => if decide (letter_index hs 0 (byte_of c) = Some i) then [v] else []
  | _ => []
  end.

(** It is an option, and not a mistake. *)
Definition is_option (it : item) : bool :=
  match it with LongOpt _ _ _ | ShortOpt _ _ => true | _ => false end.

(** The entry holds the values [l]: it counts them, and keeps the texts in order. *)
Definition holds (e : arg_entry) (l : list arg) : Prop :=
  count e = Z.of_nat (length l) /\
  match data e with
  | ArgStr texts | ArgFile texts _ _ => forall j v, l !! j = Some (Some v) -> texts !! j = Some v
  | _ => True
  end.

Lemma find_shortoption_index t k c : find_shortoption t k c = letter_index (map hdr t) k c.
Proof. revert k. induction t as [|e t IH]; intros k; simpl; [done|]. case_bool_decide; [done|apply IH]. Qed.

Lemma stored_snoc (texts : list bytes) l (a v : bytes) j i :
  i = length l -> (i < length texts)%nat ->
  (forall j v, l !! j = Some (Some v) -> texts !! j = Some v) ->
  (l ++ [Some a]) !! j = Some (Some v) -> <[i := a]> texts !! j = Some v.
Proof.
  intros -> Hlt Hl [Hj|[Hj Hv]]%lookup_app_Some.
  - rewrite list_lookup_insert_ne; [by apply Hl|]. apply lookup_lt_Some in Hj. lia.
  - apply list_lookup_singleton_Some in Hv as [Hz [= ->]].
    replace j with (length l) by lia. by apply list_lookup_insert_eq.
Qed.

Lemma stored_none (texts : list bytes) l (v : bytes) j :
  (forall j v, l !! j = Some (Some v) -> texts !! j = Some v) ->
  (l ++ [None]) !! j = Some (Some v) -> texts !! j = Some v.
Proof.
  intros Hl [Hj|[_ Hv]]%lookup_app_Some; [by apply Hl|].
  by apply list_lookup_singleton_Some in Hv as [_ [=]].
Qed.

Lemma scanfn_holds e a e' l :
  wf_entry e -> holds e l -> scanfn e a = Ret (0, e') -> holds e' (l ++ [a]).
Proof.
  intros Hwf [Hc Hd] Hs. pose proof (scanfn_counts _ _ _ _ Hs) as Hcnt. simpl in Hcnt. destruct Hcnt as [Hcnt _].
  split; [rewrite Hcnt, Hc, length_app; simpl; lia|]. revert Hs Hwf.
  unfold wf_entry, scanfn, arg_lit_scanfn, arg_int_scanfn, arg_str_scanfn, arg_file_scanfn.
  destruct (data e) as [|ival|sval|f b x] eqn:Ed.
  - destruct (count e <? maxcount (hdr e)); intros [= <-] _; simpl; by rewrite ?Ed.
  - destruct (count e =? maxcount (hdr e)); [done|].
    destruct a as [a|]; [|intros [= <-] _; simpl; by rewrite Ed].
    destruct (scan_number a) as [[[z n]|]|]; simpl; [|done|done].
    match goal with |- context [match ?m with (_, _) => _ end] => destruct m as [v err] end.
    destruct (Z.eqb_spec err 0); [|intros [= ? _]; congruence].
    destruct (vec_set ival (count e) _); simpl; [|done]. by intros [= <-] _.
  - destruct (Z.eqb_spec (count e) (maxcount (hdr e))) as [|Hne]; [done|].
    destruct a as [a|]; [|intros [= <-] _; simpl; rewrite Ed; intros j v; by apply stored_none].
    intros Hs (Hb & Hlen). rewrite vec_set_safe in Hs by lia. injection Hs as <-. simpl.
    intros j v. apply stored_snoc; [lia|lia|done].
  - destruct (Z.eqb_spec (count e) (maxcount (hdr e))) as [|Hne]; [done|].
    destruct a as [a|]; [|intros [= <-] _; simpl; rewrite Ed; intros j v; by apply stored_none].
    intros Hs (Hb & Hlen & Hlen2 & Hlen3). rewrite !vec_set_safe in Hs by lia. injection Hs as <-. simpl.
    intros j v. apply stored_snoc; [lia|lia|done].
Qed.

(** Every entry holds what the options [its] gave to it. *)
Definition all_hold (hs : list arg_hdr) (its : list item) (t : table) : Prop :=
  forall i ent, t !! i = Some ent -> holds ent (its ≫= gives hs i).

(** An error once registered stays. *)
Definition clean (p : pstate) : Prop := end_count (snd p) = 0.

Lemma end_error_not_clean err a p p' : 0 < end_maxcount (snd p) -> end_error err a p = Ret p' -> ~ clean p'.
Proof.
  destruct p as [t e]. simpl. intros Hm. destruct (arg_register_error _ _ _ _) eqn:E; simpl; [|done].
  intros [= <-]. by apply register_error_counts in E as [_ ?].
Qed.

Lemma scan_entry_holds hs its i a p p' l :
  wf_state hs p -> all_hold hs its (fst p) ->
  (forall j, l j = if decide (j = i) then [a] else []) ->
  scan_entry i a p = Ret p' -> clean p' ->
  clean p /\ forall j ent, fst p' !! j = Some ent -> holds ent ((its ≫= gives hs j) ++ l j).
Proof.
  destruct p as [t e]. simpl. intros Hp Hall Hl. unfold vec_get.
  destruct (Z.ltb_spec (Z.of_nat i) 0); [lia|]. rewrite Nat2Z.id.
  destruct (t !! i) as [ent|] eqn:Hi; simpl; [|done].
  destruct (scanfn ent a) as [[c ent']|] eqn:Hs; simpl; [|done].
  destruct (Z.eqb_spec c 0) as [->|Hc].
  - intros [= <-] Hcl. split; [done|]. simpl. intros j ent0 Hj. rewrite Hl.
    destruct (decide (j = i)) as [->|Hne].
    + rewrite list_lookup_insert_eq in Hj by (by eapply lookup_lt_Some). injection Hj as <-.
      eapply scanfn_holds; [|by apply Hall|exact Hs]. destruct Hp as [Hw _]. by eapply Forall_lookup_1.
    + rewrite list_lookup_insert_ne in Hj by done. rewrite app_nil_r. by apply Hall.
  - destruct (arg_register_error _ _ _ _) eqn:E; simpl; [|done]. intros [= <-] Hcl. exfalso.
    destruct Hp as (_ & _ & Hm & _). by apply register_error_counts in E as [_ ?].
Qed.

Lemma handle_item_holds hs its it p p' :
  wf_state hs p -> all_hold hs its (fst p) -> item_ok (length hs) it ->
  handle_item it p = Ret p' -> clean p' ->
  clean p /\ is_option it = true /\ all_hold hs (its ++ [it]) (fst p').
Proof.
  intros Hp Hall Hok. pose proof Hp as (_ & Hh & Hm & _).
  assert (Hsplit : forall j, (its ++ [it]) ≫= gives hs j = (its ≫= gives hs j) ++ gives hs j it).
  { intros j. rewrite bind_app. simpl. by rewrite app_nil_r. }
  destruct it as [tab v tx|c v|tx|tx|c]; simpl in *.
  - destruct (vec_get (fst p) tab) as [ent|]; simpl; [|done]. case_match.
    + destruct (end_error ARG_EMISSARG tx p) as [q|] eqn:E; simpl; [|done]. intros Hs Hcl. exfalso.
      pose proof (end_error_counts everything 0 _ _ _ _ Hm E) as [Hm' _].
      apply scan_entry_counts in Hs as [_ Hs]; [|done]. apply Hs in Hcl as [Hcl _].
      by apply (end_error_not_clean _ _ _ _ Hm E).
    + intros Hs Hcl. destruct (scan_entry_holds hs its (Z.to_nat tab) v p p'
        (fun j => gives hs j (LongOpt tab v tx)) Hp Hall) as [Hc' Hr]; try done.
      { intros j. simpl. repeat case_decide; try done; lia. }
      split_and!; try done. intros j ent' Hj. rewrite Hsplit. by apply Hr.
  - rewrite find_shortoption_index, Hh. destruct (letter_index hs 0 (byte_of c)) as [k|] eqn:Ek.
    + intros Hs Hcl. destruct (scan_entry_holds hs its k v p p' (fun j => gives hs j (ShortOpt c v)) Hp Hall) as [Hc' Hr]; try done.
      { intros j. simpl. rewrite Ek. repeat case_decide; congruence. }
      split_and!; try done. intros j ent' Hj. specialize (Hr j ent' Hj). simpl in Hr. rewrite Ek in Hr. by rewrite Hsplit.
    + intros E Hcl. by destruct (end_error_not_clean _ _ _ _ Hm E).
  - intros E Hcl. by destruct (end_error_not_clean _ _ _ _ Hm E).
  - intros E Hcl. by destruct (end_error_not_clean _ _ _ _ Hm E).
  - intros E Hcl. by destruct (end_error_not_clean _ _ _ _ Hm E).
Qed.

Lemma handle_all_holds hs its : forall did p p',
  wf_state hs p -> all_hold hs did (fst p) -> Forall (item_ok (length hs)) its ->
  handle_all handle_item its p = Ret p' -> clean p' ->
  clean p /\ Forall (fun it => is_option it = true) its /\ all_hold hs (did ++ its) (fst p').
Proof.
  induction its as [|it its IH]; intros did p p' Hp Hall Hok; simpl.
  - intros [= <-] Hcl. by rewrite app_nil_r.
  - apply Forall_cons in Hok as [Hi Hok].
    pose proof (handle_item_safe hs it p Hi Hp) as Hs.
    destruct (handle_item it p) as [q|] eqn:E; simpl; [|done]. simpl in Hs. intros Hq Hcl.
    assert (Hcq : clean q).
    { pose proof (handle_all_counts its q p' ltac:(by destruct Hs as (_ & _ & ? & _)) Hq) as [_ Hc]. by apply Hc. }
    destruct (handle_item_holds hs did it p q Hp Hall Hi E Hcq) as (Hcp & Ho & Hall').
    destruct (IH (did ++ [it]) q p' Hs Hall' Hok Hq Hcl) as (_ & Hos & Hr).
    rewrite <-app_assoc in Hr. split_and!; [done|by constructor|done].
Qed.

(** Operands go to the entries without a name only. *)
Lemma unmatched_keeps args : forall p p', unmatched args p = Ret p' -> fst p' = fst p.
Proof.
  induction args as [|a args IH]; intros p p'; simpl; [by intros [= <-]|].
  destruct p as [t e]. simpl. destruct (arg_register_error _ _ _ _); simpl; [|done]. intros H%IH. done.
Qed.

Lemma untagged_keeps fuel : forall k args last p p' i ent,
  arg_parse_untagged fuel k args last p = Ret p' -> fst p !! i = Some ent -> untagged ent = false ->
  fst p' !! i = Some ent.
Proof.
  induction fuel as [|fuel IH]; intros k args last p p' i ent; [done|].
  unfold arg_parse_untagged; fold arg_parse_untagged.
  destruct (fst p !! k) as [entk|] eqn:Hk.
  - destruct args as [|a args]; [by intros [= <-]|].
    destruct (untagged entk) eqn:Hu; simpl negb; [|apply IH].
    destruct (scanfn entk a) as [[c entk']|]; simpl; [|done]. intros H Hi Hn.
    assert (Hne : k <> i) by (intros ->; congruence).
    destruct (c =? 0); (eapply IH; [exact H| |done]); simpl; by rewrite list_lookup_insert_ne.
  - destruct last as [[[c a] par]|].
    + destruct (arg_register_error _ _ _ _); simpl; [|done]. by intros ->%unmatched_keeps.
    + by intros ->%unmatched_keeps.
Qed.

Lemma check_clean t : forall k e e', 0 < end_maxcount e -> arg_parse_check k t e = Ret e' -> end_count e' = 0 ->
  end_count e = 0 /\ Forall (fun ent => mincount (hdr ent) <= count ent) t.
Proof.
  induction t as [|ent t IH]; intros k e e' Hm; simpl; [by intros [= <-]|].
  unfold checkfn. destruct (Z.ltb_spec (count ent) (mincount (hdr ent))); simpl.
  - destruct (arg_register_error _ _ _ _) as [e1|] eqn:E; simpl; [|done].
    apply register_error_counts in E as [Hm1 Hne]; [|done]. intros Hc Hz.
    destruct (IH _ _ _ Hm1 Hc Hz) as [? _]. done.
  - intros Hc Hz. destruct (IH _ _ _ Hm Hc Hz). split; [done|]. by constructor.
Qed.

(** A long option belongs to an entry with a long name. *)
Definition has_long (hs : list arg_hdr) (tab : Z) : Prop :=
  exists h, hs !! Z.to_nat tab = Some h /\ longopts h <> None.

Lemma alloc_longoptions_named t : forall k hs,
  (forall i e, t !! i = Some e -> hs !! (k + i)%nat = Some (hdr e)) ->
  Forall (fun o => has_long hs (val o)) (alloc_longoptions k t).
Proof.
  induction t as [|e t IH]; intros k hs Hk; simpl; [constructor|]. apply Forall_app. split.
  - apply Forall_forall. intros o (nm & -> & Hnm)%list_elem_of_fmap. simpl. unfold has_long.
    rewrite Nat2Z.id. exists (hdr e). split; [rewrite <-(Nat.add_0_r k); by apply (Hk 0%nat)|].
    intros Hn. rewrite Hn in Hnm. by apply not_elem_of_nil in Hnm.
  - apply IH. intros i e' Hi. rewrite Nat.add_succ_comm. by apply (Hk (S i)).
Qed.

Lemma letter_index_named hs : forall k c i, letter_index hs k c = Some i ->
  exists h, hs !! (i - k)%nat = Some h /\ (k <= i)%nat /\ shortopts h <> None.
Proof.
  induction hs as [|h hs IH]; intros k c i; simpl; [done|]. case_bool_decide as Hd.
  - intros [= <-]. exists h. rewrite Nat.sub_diag. split_and!; [done|lia|]. intros Hn. rewrite Hn in Hd. by destruct Hd.
  - intros (h' & Hh & Hle & Hs)%IH. exists h'. replace (i - k)%nat with (S (i - S k)) by lia. split_and!; [done|lia|done].
Qed.

(** No option gives a value to an entry without a name. *)
Lemma gives_nameless hs i h its :
  Forall (item_in (has_long hs)) its -> Forall (item_ok (length hs)) its ->
  hs !! i = Some h -> nameless h = true -> its ≫= gives hs i = [].
Proof.
  intros Hn Hok Hi Hl. unfold nameless in Hl. apply andb_true_iff in Hl as [Hlo Hso].
  apply bool_decide_eq_true_1 in Hlo, Hso.
  induction Hn as [|it its Hit _ IH]; [done|]. apply Forall_cons in Hok as [Ho Hok].
  rewrite bind_cons, IH by done. rewrite app_nil_r. destruct it as [tab v tx|c v| | |]; simpl in *; try done.
  - case_decide as Ht; [|done]. subst tab. destruct Hit as (h' & Hh & Hne). rewrite Nat2Z.id in Hh. congruence.
  - case_decide as Hc; [|done]. apply letter_index_named in Hc as (h' & Hh & _ & Hne).
    rewrite Nat.sub_0_r in Hh. congruence.
Qed.

Lemma entries_total_zero w t : (forall i e, t !! i = Some e -> w (hdr e) = true -> count e = 0) -> total w t = 0.
Proof.
  induction t as [|e t IH]; intros H; simpl; [done|]. rewrite IH by (intros i e' Hi; by apply (H (S i))).
  destruct (w (hdr e)) eqn:Hw; [|done]. rewrite (H 0%nat e eq_refl Hw). done.
Qed.

(** The last two passes: the named entries stay, the nameless count the operands. *)
Lemma operands_hold hs items ops p1 p2 fuel :
  wf_state hs p1 -> all_hold hs items (fst p1) ->
  Forall (item_in (has_long hs)) items -> Forall (item_ok (length hs)) items ->
  (length hs + length ops < fuel)%nat ->
  arg_parse_untagged fuel 0 (Some <$> ops) None p1 = Ret p2 -> clean p2 ->
  clean p1 /\ total nameless (fst p2) = Z.of_nat (length ops) /\
  forall i ent, fst p2 !! i = Some ent -> nameless (hdr ent) = false -> holds ent (items ≫= gives hs i).
Proof.
  intros H1 Hh Hnm Hok Hf E2 Hcl.
  pose proof (arg_parse_untagged_safe hs fuel 0 (Some <$> ops) None p1 H1) as H2.
  rewrite length_fmap, Nat.sub_0_r in H2. specialize (H2 Hf). rewrite E2 in H2. simpl in H2.
  pose proof (untagged_counts nameless _ _ _ _ _ _ (fun _ H => H) ltac:(by destruct H1 as (_ & _ & ? & _)) E2) as [_ Hc2].
  destruct (Hc2 Hcl) as [Hz1 Ht]. rewrite length_fmap in Ht. pose proof H1 as (_ & Hh1 & _).
  assert (Hhs : forall i e, fst p1 !! i = Some e -> hs !! i = Some (hdr e)).
  { intros i e Hi. rewrite <-Hh1. by rewrite list_lookup_fmap, Hi. }
  split_and!; [done| |].
  - rewrite Ht, entries_total_zero; [lia|]. intros i e Hi Hw. destruct (Hh i e Hi) as [-> _].
    by rewrite (gives_nameless hs i (hdr e)) by eauto.
  - intros i ent Hent Hn.
    assert (Hlt : (i < length (fst p1))%nat).
    { rewrite (wf_length hs p1 H1), <-(wf_length hs p2 H2). by eapply lookup_lt_Some. }
    destruct (lookup_lt_is_Some_2 (fst p1) i Hlt) as [ent1 Hent1].
    assert (Hhdr : hdr ent1 = hdr ent).
    { apply Hhs in Hent1. destruct H2 as (_ & Hh2 & _). rewrite <-Hh2, list_lookup_fmap, Hent in Hent1.
      by injection Hent1. }
    assert (Hu : untagged ent1 = false) by (unfold untagged, nameless in *; by rewrite Hhdr).
    pose proof (untagged_keeps _ _ _ _ _ _ _ _ E2 Hent1 Hu) as Hk. rewrite Hk in Hent. injection Hent as <-.
    by apply Hh.
Qed.

Lemma parse_words_holds posix hs args p p' :
  wf_state hs p -> all_hold hs [] (fst p) -> parse_words posix args p = Ret p' -> clean p' ->
  let '(items, operands) := scan posix (alloc_shortoptions (fst p)) (alloc_longoptions 0 (fst p)) None [] args in
  Forall (fun it => is_option it = true) items /\ total nameless (fst p') = Z.of_nat (length operands) /\
  (forall i ent, fst p' !! i = Some ent -> mincount (hdr ent) <= count ent /\
     (nameless (hdr ent) = false -> holds ent (items ≫= gives hs i))).
Proof.
  intros Hp Hall. unfold parse_words. pose proof (wf_length hs p Hp) as Hlen.
  pose proof (scan_items_ok (alloc_shortoptions (fst p)) (alloc_longoptions 0 (fst p)) (fun tab => 0 <= tab < Z.of_nat (length hs))
    ltac:(rewrite <-Hlen; apply (alloc_longoptions_val 0)) posix None [] args I) as Hi.
  assert (Hnm : Forall (item_in (has_long hs)) (fst (scan posix (alloc_shortoptions (fst p)) (alloc_longoptions 0 (fst p)) None [] args))).
  { apply scan_items_ok; [|done]. apply alloc_longoptions_named. intros i e He. destruct Hp as (_ & <- & _).
    simpl. by rewrite list_lookup_fmap, He. }
  destruct (scan posix _ _ None [] args) as [items ops]. simpl in Hi, Hnm |- *.
  pose proof (handle_all_safe hs items p Hi Hp) as H1.
  destruct (handle_all handle_item items p) as [p1|] eqn:E1; simpl; [|done]. simpl in H1.
  destruct (arg_parse_untagged _ 0 (Some <$> ops) None p1) as [p2|] eqn:E2; simpl; [|done].
  rewrite (wf_length hs p1 H1) in E2.
  pose proof (untagged_counts everything _ _ _ _ _ _ (fun _ _ => eq_refl) ltac:(by destruct H1 as (_ & _ & ? & _)) E2) as [Hm2 Hc2].
  destruct (Z.eqb_spec (end_count (snd p2)) 0) as [He|He]; [|by intros [= <-] Hcl].
  destruct (arg_parse_check 0 (fst p2) (snd p2)) as [e|] eqn:Ech; simpl; [|done]. intros [= <-] Hcl.
  destruct (check_clean _ _ _ _ Hm2 Ech Hcl) as [_ Hmin].
  assert (Hc1 : clean p1) by (by apply Hc2).
  destruct (handle_all_holds hs items [] p p1 Hp Hall Hi E1 Hc1) as (_ & Ho & Hh).
  destruct (operands_hold hs items ops p1 p2 (S (length hs + length ops)) H1 Hh Hnm Hi ltac:(lia) E2 He) as (_ & Ht & Hn).
  split_and!; [done|done|]. intros i ent Hent. split; [by eapply Forall_lookup_1 in Hmin|by apply Hn].
Qed.

Lemma alloc_longoptions_hdr t t' : map hdr t = map hdr t' -> forall k, alloc_longoptions k t = alloc_longoptions k t'.
Proof.
  revert t'. induction t as [|e t IH]; intros [|e' t']; simpl; try done. intros [= He Ht] k.
  unfold entry_has_arg. rewrite He. by rewrite (IH t' Ht).
Qed.

Lemma alloc_shortoptions_hdr t t' : map hdr t = map hdr t' -> alloc_shortoptions t = alloc_shortoptions t'.
Proof.
  unfold alloc_shortoptions. intros H. f_equal. revert t' H.
  induction t as [|e t IH]; intros [|e' t']; simpl; try done. intros [= He Ht].
  unfold entry_letters at 1 3. rewrite He. f_equal. by apply IH.
Qed.

Lemma reset_holds hs p : wf_state hs p -> all_hold hs [] (fst (arg_reset p)).
Proof.
  intros (Hw & _) i ent. simpl. rewrite list_lookup_fmap. destruct (fst p !! i) as [e|]; [|done].
  intros [= <-]. split.
  - unfold resetfn. by destruct (data e).
  - unfold resetfn. destruct (data e) eqn:Ed; simpl; rewrite ?Ed; intros; done.
Qed.


(** * Numbers are what their literals say *)

Inductive radix := Dec | Hex | Oct | Bin.
Inductive unit_name := NoUnit | KB | MB | GB.
#[export] Instance unit_name_eq_dec : EqDecision unit_name.
Proof. solve_decision. Defined.

Definition radix_base (r : radix) : Z := match r with Dec => 10 | Hex => 16 | Oct => 8 | Bin => 2 end.
Definition radix_prefix (r : radix) : bytes :=
  match r with Dec => [] | Hex => bs "0x" | Oct => bs "0o" | Bin => bs "0b" end.
Definition unit_text (u : unit_name) : bytes :=
  match u with NoUnit => [] | KB => bs "KB" | MB => bs "MB" | GB => bs "GB" end.
Definition unit_factor (u : unit_name) : Z :=
  match u with NoUnit => 1 | KB => 2 ^ 10 | MB => 2 ^ 20 | GB => 2 ^ 30 end.
Definition sign_text (neg : bool) : bytes := if neg then bs "-" else [].

(** "-0x1fKB": a sign, a prefix, digits, a unit, and spaces at the end. *)
Definition literal (neg : bool) (r : radix) (ds : bytes) (u : unit_name) (spaces : bytes) : bytes :=
  sign_text neg ++ radix_prefix r ++ ds ++ unit_text u ++ spaces.

Definition digits_of (base : Z) (ds : bytes) : Z :=
  foldl (fun acc c => acc * base + default 0 (digit_in base c)) 0 ds.
Definition literal_value (neg : bool) (r : radix) (ds : bytes) (u : unit_name) : Z :=
  (if neg then -1 else 1) * digits_of (radix_base r) ds * unit_factor u.

(** A text that ends a run of digits of any base. *)
Definition stops (tl : bytes) : Prop :=
  match tl with
  | [] => True
  | c :: _ => digit_in 16 c = None /\ toupper c <> x58 /\ toupper c <> x4f /\ toupper c <> x42
  end.

Lemma unit_stops u spaces : Forall (fun c => is_space c = true) spaces -> stops (unit_text u ++ spaces).
Proof.
  intros Hs. destruct u; simpl; try done.
  destruct Hs as [|c l Hc _]; simpl; [done|]. revert Hc.
  assert (H : forallb (fun c => negb (is_space c) || (bool_decide (digit_in 16 c = None)
     && negb (byte_eqb (toupper c) x58) && negb (byte_eqb (toupper c) x4f)
     && negb (byte_eqb (toupper c) x42))) all_bytes = true) by (vm_compute; reflexivity).
  pose proof (byte_forall _ H c) as Hb. cbv beta in Hb. clear H. intros Hsp. rewrite Hsp in Hb. simpl in Hb.
  bool_to_prop. case_bool_decide; [|done].
  repeat match goal with H : byte_eqb ?a ?b = false |- _ => destruct (byte_eqb_spec a b); [done|] end. done.
Qed.

Lemma digit_in_mono b c : b <= 16 -> digit_in 16 c = None -> digit_in b c = None.
Proof.
  unfold digit_in. intros Hb. destruct (digit_val c) as [d|]; simpl; [|done].
  destruct (Z.ltb_spec d 16); [done|]. destruct (Z.ltb_spec d b); [lia|done].
Qed.

Lemma digit_facts b c : b <= 16 -> is_Some (digit_in b c) ->
  is_space c = false /\ byte_eqb c x2b = false /\ byte_eqb c x2d = false /\
  byte_eqb (toupper c) x58 = false /\ byte_eqb (toupper c) x4f = false.
Proof.
  intros Hb Hd. assert (is_Some (digit_in 16 c)) as H16.
  { destruct (digit_in 16 c) eqn:E; [done|]. apply (digit_in_mono b) in E; [|done]. rewrite E in Hd. by destruct Hd. }
  assert (H : forallb (fun c => negb (bool_decide (is_Some (digit_in 16 c))) || (negb (is_space c)
     && negb (byte_eqb c x2b) && negb (byte_eqb c x2d)
     && negb (byte_eqb (toupper c) x58) && negb (byte_eqb (toupper c) x4f))) all_bytes = true)
     by (vm_compute; reflexivity).
  pose proof (byte_forall _ H c) as Hc. cbv beta in Hc. clear H. rewrite bool_decide_eq_true_2 in Hc by done. simpl in Hc.
  bool_to_prop. done.
Qed.

Lemma decimal_not_B b c : b <= 10 -> is_Some (digit_in b c) -> byte_eqb (toupper c) x42 = false.
Proof.
  intros Hb Hd. assert (Hc : bval c <= 57).
  { destruct Hd as [d Hd]. unfold digit_in, digit_val in Hd.
    repeat case_match; simpl in *; repeat case_match; simplify_eq; bool_to_prop; lia. }
  apply byte_eqb_ne. unfold toupper. destruct (Z.leb_spec 97 (bval c)); [lia|]. simpl.
  intros ->. vm_compute in Hc. done.
Qed.

Lemma read_digits_run base ds tl acc n :
  base <= 16 -> Forall (fun c => is_Some (digit_in base c)) ds -> stops tl ->
  read_digits base acc n (ds ++ tl)
  = (foldl (fun acc c => acc * base + default 0 (digit_in base c)) acc ds, (n + length ds)%nat).
Proof.
  intros Hb Hd Ht. revert acc n. induction Hd as [|c ds [d Hc] _ IH]; intros acc n; simpl.
  - rewrite Nat.add_0_r. destruct tl as [|c tl]; simpl; [done|].
    destruct Ht as [Ht _]. by rewrite (digit_in_mono base c) by done.
  - rewrite Hc. simpl. rewrite IH. f_equal. lia.
Qed.

Lemma digit_nonneg base c : 0 <= default 0 (digit_in base c).
Proof.
  unfold digit_in. destruct (digit_val c) as [d|] eqn:E; simpl; [|lia].
  assert (0 <= d).
  { unfold digit_val in E. repeat case_match; simplify_eq; bool_to_prop; lia. }
  by destruct (d <? base); simpl.
Qed.

Lemma digits_nonneg base ds : 0 <= base -> 0 <= digits_of base ds.
Proof.
  intros Hb. unfold digits_of. assert (H : forall acc, 0 <= acc ->
    0 <= foldl (fun acc c => acc * base + default 0 (digit_in base c)) acc ds); [|by apply H].
  induction ds as [|c ds IH]; intros acc Ha; simpl; [done|]. apply IH.
  pose proof (digit_nonneg base c). nia.
Qed.

Section literals.
Context (ds tl : bytes) (base : Z).
Hypothesis Hbase : 2 <= base <= 16.
Hypothesis Hds : Forall (fun c => is_Some (digit_in base c)) ds.
Hypothesis Hne : ds <> [].
Hypothesis Htl : stops tl.

Lemma head_digit : exists c s, ds ++ tl = c :: s /\ is_Some (digit_in base c) /\
  (forall x s', s = x :: s' -> byte_eqb (toupper x) x58 = false /\ byte_eqb (toupper x) x4f = false /\
     (base <= 10 -> byte_eqb (toupper x) x42 = false)).
Proof.
  destruct Hds as [|c ds' Hc Hds']; [done|]. exists c, (ds' ++ tl). split; [done|]. split; [done|].
  intros x s' Hx. destruct Hds' as [|d ds' Hd _]; simpl in Hx.
  - rewrite Hx in Htl. destruct Htl as (_ & ? & ? & ?). by rewrite !byte_eqb_ne.
  - injection Hx as -> _. destruct (digit_facts base x) as (_ & _ & _ & ? & ?); [lia|done|].
    repeat split; try done. intros. by eapply decimal_not_B.
Qed.

(** White space and a sign before a digit. *)
Lemma sign_read neg c s : is_Some (digit_in base c) ->
  skip_spaces (sign_text neg ++ c :: s) = O /\
  read_sign (sign_text neg ++ c :: s) = (if neg then -1 else 1, length (sign_text neg)).
Proof.
  intros Hc. destruct (digit_facts base c) as (Hs & Hp & Hm & _); [lia|done|].
  destruct neg; simpl; [done|]. by rewrite Hs, Hp, Hm.
Qed.

Lemma strtol_run neg :
  strtol (sign_text neg ++ ds ++ tl) base
  = (clamp_long ((if neg then -1 else 1) * digits_of base ds), (length (sign_text neg) + length ds)%nat).
Proof.
  destruct head_digit as (c & s & Hs & Hc & Hx). unfold strtol.
  destruct (sign_read neg c s Hc) as [Hsp Hsg]. rewrite Hs, Hsp. rewrite drop_0. rewrite Hsg.
  rewrite drop_app_length.
  match goal with |- context [drop ?p (c :: s)] => replace p with O end.
  2:{ destruct s as [|x [|d s']]; [done..|]. destruct (Hx x (d :: s')) as [-> _]; [done|].
      by rewrite andb_false_r. }
  rewrite drop_0. rewrite <-Hs, read_digits_run by (lia || done). simpl.
  destruct (Nat.eqb_spec (length ds) 0) as [H%nil_length_inv|]; [done|]. f_equal. lia.
Qed.

Lemma strtol0X_hit neg p X :
  byte_eqb (toupper p) (toupper X) = true -> 
  strtol0X (sign_text neg ++ [x30; p] ++ ds ++ tl) X base
  = Ret ((if neg then -1 else 1) * clamp_long (digits_of base ds),
         (length (sign_text neg) + 2 + length ds)%nat).
Proof.
  intros Hp. unfold strtol0X.
  assert (Hsp : skip_spaces (sign_text neg ++ [x30; p] ++ ds ++ tl) = O) by (by destruct neg).
  assert (Hsg : read_sign (sign_text neg ++ [x30; p] ++ ds ++ tl)
                = (if neg then -1 else 1, length (sign_text neg))) by (by destruct neg).
  rewrite Hsp. rewrite drop_0. rewrite Hsg. cbn [Nat.add].
  assert (H0 : ch (sign_text neg ++ [x30; p] ++ ds ++ tl) (length (sign_text neg)) = x30) by (by destruct neg).
  assert (H1 : ch (sign_text neg ++ [x30; p] ++ ds ++ tl) (S (length (sign_text neg))) = p) by (by destruct neg).
  assert (H2 : drop (S (S (length (sign_text neg)))) (sign_text neg ++ [x30; p] ++ ds ++ tl) = sign_text false ++ ds ++ tl)
    by (by destruct neg).
  rewrite H0, H1, H2, Hp, strtol_run. rewrite Z.mul_1_l. cbn [negb length sign_text Nat.add].
  pose proof (digits_nonneg base ds ltac:(lia)) as Hv.
  destruct (Nat.eqb_spec (length ds) 0) as [H%nil_length_inv|]; [done|].
  assert (Hc : clamp_long (digits_of base ds) =? LONG_MIN = false)
    by (apply Z.eqb_neq; unfold clamp_long, LONG_MAX, LONG_MIN; lia).
  rewrite Hc, andb_false_r. do 2 f_equal. lia.
Qed.
End literals.

Lemma strtol0X_miss neg c s X base b :
  b <= 16 -> is_Some (digit_in b c) ->
  (byte_eqb c x30 = true -> byte_eqb (toupper (ch s 0)) (toupper X) = false) ->
  strtol0X (sign_text neg ++ c :: s) X base = Ret (0, O).
Proof.
  intros Hb Hc Hm. destruct (digit_facts b c Hb Hc) as (Hs & Hp & Hd & _).
  unfold strtol0X. destruct neg; simpl; rewrite ?Hs; simpl; rewrite ?Hp, ?Hd; simpl;
    change (ch (c :: s) 0) with c; change (ch (x2d :: c :: s) 1) with c;
    change (ch (c :: s) 1) with (ch s 0); change (ch (x2d :: c :: s) 2) with (ch s 0);
    destruct (byte_eqb c x30); simpl; try done; by rewrite Hm.
Qed.

(** What [strtol]'s clamping leaves of a number, for the tests that follow. *)
Definition near (z w : Z) : Prop :=
  z = w \/ (INT_MAX < w /\ INT_MAX < z) \/ (w < INT_MIN /\ z < INT_MIN).

Lemma near_clamp neg v : 0 <= v ->
  near ((if neg : bool then -1 else 1) * clamp_long v) ((if neg then -1 else 1) * v) /\
  near (clamp_long ((if neg then -1 else 1) * v)) ((if neg then -1 else 1) * v).
Proof. unfold near, clamp_long, LONG_MAX, LONG_MIN, INT_MAX, INT_MIN. intros. destruct neg; lia. Qed.

Section literal_scan.
Context (neg : bool) (r : radix) (ds : bytes) (u : unit_name) (spaces : bytes).
Hypothesis Hds : Forall (fun c => is_Some (digit_in (radix_base r) c)) ds.
Hypothesis Hne : ds <> [].
Hypothesis Hsp : Forall (fun c => is_space c = true) spaces.

Let tl := unit_text u ++ spaces.
Let v := digits_of (radix_base r) ds.
Let Htl : stops tl := unit_stops u spaces Hsp.

Lemma scan_number_literal :
  exists z n, scan_number (literal neg r ds u spaces) = Ret (Some (z, n)) /\
    near z ((if neg then -1 else 1) * v) /\ drop n (literal neg r ds u spaces) = tl.
Proof.
  assert (Hb : 2 <= radix_base r <= 16) by (by destruct r).
  assert (Hv : 0 <= v) by (apply digits_nonneg; lia).
  destruct (near_clamp neg v Hv) as [Hn1 Hn2].
  assert (Hlen : length ds <> O) by (by destruct ds).
  assert (Hdrop : forall p, drop (length (sign_text neg) + length p + length ds)
                    (sign_text neg ++ p ++ ds ++ tl) = tl).
  { intros p. rewrite !app_assoc, <-!length_app. apply drop_app_length. }
  unfold scan_number, literal. fold tl. destruct r; simpl radix_prefix.
  - rewrite app_nil_l. destruct (head_digit ds tl 10 Hb Hds Hne Htl) as (c & s & Hs & Hc & Hx).
    rewrite Hs.
    assert (Hmiss : forall X b, X = x58 \/ X = x4f \/ X = x42 ->
              strtol0X (sign_text neg ++ c :: s) X b = Ret (0, O)).
    { intros X b HX. apply (strtol0X_miss neg c s X b 10); [done|done|]. intros _.
      destruct s as [|x s']; [by destruct HX as [->|[->| ->]]|].
      change (ch (x :: s') 0) with x. destruct (Hx x s' eq_refl) as (? & ? & HB).
      destruct HX as [->|[->| ->]]; [done|done|by apply HB]. }
    rewrite !Hmiss by auto. simpl. rewrite <-Hs, (strtol_run ds tl 10) by done.
    destruct (Nat.eqb_spec (length (sign_text neg) + length ds) 0); [lia|]. simpl.
    eexists _, _. split; [reflexivity|]. split; [done|]. 
    pose proof (Hdrop []) as H. simpl in H. by rewrite Nat.add_0_r in H.
  - change (sign_text neg ++ bs "0x" ++ ds ++ tl) with (sign_text neg ++ [x30; x78] ++ ds ++ tl).
    rewrite (strtol0X_hit ds tl 16) by done. simpl.
    destruct (Nat.eqb_spec (length (sign_text neg) + 2 + length ds) 0); [lia|]. simpl.
    eexists _, _. split; [reflexivity|]. split; [done|]. apply (Hdrop [x30; x78]).
  - change (sign_text neg ++ bs "0o" ++ ds ++ tl) with (sign_text neg ++ [x30; x6f] ++ ds ++ tl).
    assert (H1 : strtol0X (sign_text neg ++ [x30; x6f] ++ ds ++ tl) x58 16 = Ret (0, O))
      by (by apply (strtol0X_miss neg x30 ([x6f] ++ ds ++ tl) x58 16 10)).
    rewrite H1, outcome_bind_ret. cbn beta iota. rewrite (strtol0X_hit ds tl 8) by done. simpl.
    destruct (Nat.eqb_spec (length (sign_text neg) + 2 + length ds) 0); [lia|]. simpl.
    eexists _, _. split; [reflexivity|]. split; [done|]. apply (Hdrop [x30; x6f]).
  - change (sign_text neg ++ bs "0b" ++ ds ++ tl) with (sign_text neg ++ [x30; x62] ++ ds ++ tl).
    assert (H1 : strtol0X (sign_text neg ++ [x30; x62] ++ ds ++ tl) x58 16 = Ret (0, O))
      by (by apply (strtol0X_miss neg x30 ([x62] ++ ds ++ tl) x58 16 10)).
    assert (H2 : strtol0X (sign_text neg ++ [x30; x62] ++ ds ++ tl) x4f 8 = Ret (0, O))
      by (by apply (strtol0X_miss neg x30 ([x62] ++ ds ++ tl) x4f 8 10)).
    rewrite H1, outcome_bind_ret. cbn beta iota. rewrite H2, outcome_bind_ret. cbn beta iota. rewrite (strtol0X_hit ds tl 2) by done. simpl.
    destruct (Nat.eqb_spec (length (sign_text neg) + 2 + length ds) 0); [lia|]. simpl.
    eexists _, _. split; [reflexivity|]. split; [done|]. apply (Hdrop [x30; x62]).
Qed.
End literal_scan.

Lemma skip_all_spaces spaces :
  Forall (fun c => is_space c = true) spaces -> skip_spaces spaces = length spaces.
Proof. induction 1 as [|c l Hc _ IH]; simpl; [done|]. by rewrite Hc, IH. Qed.

Lemma space_not_letter c x : is_space c = true -> x = x4b \/ x = x4d \/ x = x47 ->
  byte_eqb (toupper c) (toupper x) = false.
Proof.
  intros Hc Hx. apply byte_eqb_ne. intros He.
  assert (Hb : bval (toupper c) <= 32).
  { unfold is_space in Hc. unfold toupper.
    assert (bval c <= 32) by (apply orb_true_iff in Hc as [?|?]; bool_to_prop; lia).
    destruct (Z.leb_spec 97 (bval c)); [lia|done]. }
  rewrite He in Hb. destruct Hx as [->|[->| ->]]; vm_compute in Hb; done.
Qed.

Lemma detectsuffix_space c l x s : is_space c = true -> x = x4b \/ x = x4d \/ x = x47 ->
  detectsuffix (c :: l) (x :: s) = false.
Proof. intros. cbn [detectsuffix]. by rewrite space_not_letter. Qed.

(** The unit is recognised, and it alone. *)
Lemma detectsuffix_unit u u' spaces :
  Forall (fun c => is_space c = true) spaces ->
  detectsuffix (unit_text u ++ spaces) (unit_text u') = bool_decide (u = u').
Proof.
  intros Hs. assert (Hend : detectsuffix spaces [] = true).
  { destruct Hs as [|c l Hc Hl]; [done|]. apply Nat.eqb_eq. apply skip_all_spaces. by constructor. }
  destruct u, u'; try done.
  all: destruct Hs as [|c l Hc Hl]; [done|]; apply detectsuffix_space; auto.
Qed.

Lemma unit_applied z w m : 1 <= m -> m <= 2 ^ 30 -> (m | 2 ^ 31) -> near z w ->
  apply_unit z (if (INT_MAX <? z) || (z <? INT_MIN) then ARG_ERR_OVERFLOW else 0) m
  = if bool_decide (int_range (w * m)) then (w * m, 0) else (z, ARG_ERR_OVERFLOW).
Proof.
  intros Hm Hm30 [k Hk] Hn. unfold apply_unit, int_range, near, INT_MAX, INT_MIN in *.
  rewrite Z.quot_opp_l by lia. rewrite !Z.quot_div_nonneg by lia.
  assert (H31 : 2 ^ 31 / m = k) by (rewrite Hk; apply Z.div_mul; lia).
  assert (Hmax : (2 ^ 31 - 1) / m = k - 1).
  { replace (2 ^ 31 - 1) with ((m - 1) + (k - 1) * m) by lia.
    rewrite Z.div_add, Z.div_small; lia. }
  rewrite H31, Hmax.
  destruct (Z.ltb_spec (k - 1) z), (Z.ltb_spec z (- k)); simpl; case_bool_decide; try nia; try done.
  destruct Hn as [->|Hn]; [|nia].
  destruct (Z.ltb_spec (2 ^ 31 - 1) w), (Z.ltb_spec w (- 2 ^ 31)); simpl; done || nia.
Qed.

Lemma arg_int_scan neg r ds u spaces e ival :
  Forall (fun c => is_Some (digit_in (radix_base r) c)) ds -> ds <> [] ->
  Forall (fun c => is_space c = true) spaces ->
  wf_entry e -> data e = ArgInt ival ->
  scanfn e (Some (literal neg r ds u spaces)) =
    Ret (if count e =? maxcount (hdr e) then (ARG_ERR_MAXCOUNT, e)
         else if bool_decide (int_range (literal_value neg r ds u))
         then (0, set_data e (count e + 1)
                    (ArgInt (<[Z.to_nat (count e) := Some (literal_value neg r ds u)]> ival)))
         else (ARG_ERR_OVERFLOW, e)).
Proof.
  intros Hds Hne Hsp (Hc & Hd) He. rewrite He in Hd. destruct Hd as [Hl _].
  unfold scanfn. rewrite He. unfold arg_int_scanfn.
  destruct (Z.eqb_spec (count e) (maxcount (hdr e))); [done|].
  destruct (scan_number_literal neg r ds u spaces Hds Hne Hsp) as (z & n' & Hscan & Hn & Hdrop).
  rewrite Hscan, outcome_bind_ret. cbn beta iota zeta. rewrite Hdrop.
  set (w := (if neg then -1 else 1) * digits_of (radix_base r) ds) in *.
  pose proof (detectsuffix_unit u) as Hu. unfold literal_value. fold w.
  change (bs "KB") with (unit_text KB). change (bs "MB") with (unit_text MB).
  change (bs "GB") with (unit_text GB).
  change (detectsuffix (unit_text u ++ spaces) []) with (detectsuffix (unit_text u ++ spaces) (unit_text NoUnit)).
  rewrite !Hu by done.
  replace (if bool_decide (u = KB) then _ else _)
    with (if bool_decide (int_range (w * unit_factor u)) then (w * unit_factor u, 0) else (z, ARG_ERR_OVERFLOW)).
  - case_bool_decide as Hr; simpl; [|done].
    rewrite vec_set_safe by lia. simpl. by rewrite i32_id.
  - destruct u; simpl unit_factor; repeat (rewrite bool_decide_eq_false_2 by done || rewrite (bool_decide_eq_true_2 (_ = _)) by done).
    + rewrite Z.mul_1_r. unfold near, int_range in *.
      destruct (Z.ltb_spec INT_MAX z), (Z.ltb_spec z INT_MIN); simpl; case_bool_decide; try done;
        try (unfold INT_MAX, INT_MIN in *; lia). destruct Hn as [->|Hn]; [done|lia].
    + symmetry. apply unit_applied; try done. by exists (2 ^ 21).
    + symmetry. apply unit_applied; try done. by exists (2 ^ 11).
    + symmetry. apply unit_applied; try done. by exists 2.
Qed.

(** C38 A number of the command line is what its literal says: a sign, decimal digits or
    digits after 0x, 0o or 0b, a unit KB, MB or GB and spaces are stored as the product
    of their values when that is an [int], and are an overflow error otherwise, however
    many digits there are; an entry that is full stays as it is. *)
Theorem arg_int_literal neg r ds u spaces e ival :
  Forall (fun c => is_Some (digit_in (radix_base r) c)) ds -> ds <> [] ->
  Forall (fun c => is_space c = true) spaces ->
  wf_entry e -> data e = ArgInt ival ->
  scanfn e (Some (literal neg r ds u spaces)) =
    Ret (if count e =? maxcount (hdr e) then (ARG_ERR_MAXCOUNT, e)
         else if bool_decide (int_range (literal_value neg r ds u))
         then (0, set_data e (count e + 1)
                    (ArgInt (<[Z.to_nat (count e) := Some (literal_value neg r ds u)]> ival)))
         else (ARG_ERR_OVERFLOW, e)).
Proof. apply arg_int_scan. Qed.

Definition int_entry_ex : arg_entry := arg_int0 None (Some (bs "limit")) None None.

Lemma arg_int_literal_witness :
  scanfn int_entry_ex (Some (bs "-0x1fKB ")) = Ret (0, set_data int_entry_ex 1 (ArgInt [Some (-31744)])).
Proof.
  apply (arg_int_literal true Hex (bs "1f") KB (bs " ") int_entry_ex [None]); try done.
  - repeat constructor; eexists; reflexivity.
  - repeat constructor.
  - split; [done|]. split; [done|]. by repeat constructor.
Defined.

(** Texts that are no literals: a second sign or prefix after the prefix is accepted,
    and a negative prefix before the smallest number overflows. *)
Example int_second_prefix : scan_number (bs "0x0x10") = Ret (Some (16, 6%nat)).
Proof. reflexivity. Qed.
Example int_second_sign : scan_number (bs "-0x-5") = Ret (Some (5, 5%nat)).
Proof. reflexivity. Qed.
Example int_product_overflow : scan_number (bs "-0x-8000000000000000") = Fault BadArithmetic.
Proof. reflexivity. Qed.

(** ** A table for the examples: a flag, a number, a string and an operand *)
Definition table_ex : table :=
  [arg_lit0 (Some (bs "h")) (Some (bs "help")) None; int_entry_ex;
   arg_strn None (Some (bs "mode")) None 0 1 None; arg_strn None None None 0 1 None].
Definition getopt_ex : gstate := mkG [] 1 63 false None None (-1) (-1) 0.


Lemma every_word_counted_witness :
  exists p', parse_words false (map bs ["a.js"; "--mode"; "seed"; "-h"]) (arg_reset (table_ex, new_end 20)) = Ret p' /\
    total everything (fst p') = 3.
Proof.
  eexists. split; [vm_compute; reflexivity|].
  refine (every_word_counted false (map bs ["a.js"; "--mode"; "seed"; "-h"]) (table_ex, new_end 20) _ _ _ _); reflexivity.
Defined.
