(* ===== verification/ArgText.v ===== *)
(** * argtable: messages and usage texts

    The dynamic strings of src/deps/argtable/argtable3.c ([arg_dstr]), the
    concatenation into a fixed buffer ([arg_cat]), the syntax of an option, the
    messages of the entries and the usage text.

    The theorems: a dynamic string is the concatenation of what was appended to it;
    the syntax of an option is its specification as long as it is shorter than the
    buffer of 200 characters, and [arg_cat] writes its terminator behind the buffer
    as soon as it is not.  Since the message about an option given too often shows the
    offending argument, a long argument gets there. *)

From S2P Require Import Prelude GetOpt Argtable.
Import String.StringSyntax.
Local Open Scope string_scope.
Local Open Scope list_scope.

(** The C string at the start of a buffer; a buffer without NUL is read past its end. *)
Fixpoint c_text (b : bytes) : outcome bytes :=
  match b with
  | [] => Fault OutOfBounds
  | c :: b => if byte_eqb c NUL then Ret [] else t ← c_text b; Ret (c :: t)
  end.

(** [memcpy(b + i, s, strlen(s))]: inside the buffer. *)
Definition write_at (b : bytes) (i : nat) (s : bytes) : outcome bytes :=
  if (i + length s <=? length b)%nat then Ret (take i b ++ s ++ drop (i + length s) b)
  else Fault OutOfBounds.

Definition zeros (n : nat) : bytes := replicate n NUL.

(** * Dynamic strings *)

(** [src/deps/argtable/argtable3.h 44-44, ARG_DSTR_SIZE] *)
Definition ARG_DSTR_SIZE : nat := 200.

(** [src/deps/argtable/argtable3.c 961-968, _internal_arg_dstr] [sbuf] and the append
    buffer; [in_append] says whether [data] is the append buffer.  free_proc is the
    static one throughout, since arg_dstr_set is not called. *)
Record dstr := mkDstr {
  d_sbuf : bytes;
  d_append : option bytes;
  d_used : nat;
  d_in_append : bool }.

Definition d_data (d : dstr) : bytes :=
  if d_in_append d then default [] (d_append d) else d_sbuf d.

(** [src/deps/argtable/argtable3.c 972-979, arg_dstr_create] *)
Definition arg_dstr_create : dstr := mkDstr (zeros (S ARG_DSTR_SIZE)) None O false.

(** [src/deps/argtable/argtable3.c 1125-1177, setup_append_buf] *)
Definition setup_append_buf (d : dstr) (new_space : nat) : outcome dstr :=
  t ← c_text (d_data d);
  let append := if d_in_append d then d_append d
                else a ← d_append d; if (500 <? length a)%nat then None else Some a in
  let used := if d_in_append d && byte_eqb (ch (d_data d) (d_used d)) NUL then d_used d
              else length t in
  let total := (new_space + used)%nat in
  if (length (default [] append) <=? total)%nat then
    let size := (if total <? 100 then 200 else total * 2)%nat in
    newbuf ← write_at (zeros size) 0 (t ++ [NUL]);
    Ret (mkDstr (d_sbuf d) (Some newbuf) used true)
  else if d_in_append d then Ret (mkDstr (d_sbuf d) append used true)
  else
    b ← write_at (default [] append) 0 (t ++ [NUL]);
    Ret (mkDstr (d_sbuf d) (Some b) used true).

(** [src/deps/argtable/argtable3.c 1040-1043, arg_dstr_cat] *)
Definition arg_dstr_cat (d : dstr) (str : bytes) : outcome dstr :=
  d ← setup_append_buf d (length str + 1);
  t ← c_text (d_data d);
  b ← write_at (d_data d) (length t) str;
  Ret (mkDstr (d_sbuf d) (Some b) (d_used d) true).

(** [src/deps/argtable/argtable3.c 1045-1048, arg_dstr_catc] *)
Definition arg_dstr_catc (d : dstr) (c : byte) : outcome dstr :=
  d ← setup_append_buf d 2;
  t ← c_text (d_data d);
  b ← write_at (d_data d) (length t) [c];
  Ret (mkDstr (d_sbuf d) (Some b) (d_used d) true).

(** [src/deps/argtable/argtable3.c 1100-1117, arg_dstr_catf] The search for a buffer
    that is long enough for the formatted [text], which vsnprintf truncates to [n]. *)
Fixpoint catf_loop (fuel n : nat) (text : bytes) : outcome bytes :=
  match fuel with
  | O => Fault OutOfFuel
  | S fuel =>
      let buff := take n text in
      if (length buff <? n)%nat then Ret buff
      else catf_loop fuel (if n <? length text then length text else n + n)%nat text
  end.

(** [src/deps/argtable/argtable3.c 1083-1121, arg_dstr_catf] [text] is what the format
    and its arguments make, [fmtlen] the length of the format. *)
Definition arg_dstr_catf (d : dstr) (fmtlen : nat) (text : bytes) : outcome dstr :=
  buff ← catf_loop 3 (Nat.max (2 * fmtlen) 16) text;
  arg_dstr_cat d buff.

(** [src/deps/argtable/argtable3.c 1190-1200, arg_dstr_reset] *)
Definition arg_dstr_reset (d : dstr) : dstr :=
  mkDstr (NUL :: drop 1 (d_sbuf d)) None (d_used d) false.

(** ** A dynamic string is a text *)

(** [data] holds the text [t] and zeros after it, so that the next text appended
    needs no terminator of its own. *)
Definition holds (d : dstr) (t : bytes) : Prop :=
  cstr t /\ exists k, (0 < k)%nat /\ d_data d = t ++ zeros k /\
  (d_in_append d = false -> d_append d = None) /\
  (d_in_append d = true -> (d_used d <= length t)%nat).

Lemma c_text_zeros t k : cstr t -> (0 < k)%nat -> c_text (t ++ zeros k) = Ret t.
Proof.
  intros Ht Hk. induction t as [|c t IH]; simpl.
  - by destruct k; [lia|].
  - unfold cstr in *. rewrite not_elem_of_cons in Ht. rewrite byte_eqb_ne by naive_solver.
    by rewrite IH by naive_solver.
Qed.

Lemma write_at_zeros t s k : (length s <= k)%nat ->
  write_at (t ++ zeros k) (length t) s = Ret (t ++ s ++ zeros (k - length s)).
Proof.
  intros Hk. unfold write_at, zeros. rewrite length_app, length_replicate.
  destruct (Nat.leb_spec (length t + length s) (length t + k)); [|lia].
  rewrite take_app_length, drop_app_ge by lia.
  replace (length t + length s - length t)%nat with (length s) by lia.
  rewrite drop_replicate. done.
Qed.

Lemma ch_holds t k i : cstr t -> (i <= length t)%nat ->
  byte_eqb (ch (t ++ zeros k) i) NUL = true -> i = length t \/ (i < length t)%nat /\ False.
Proof.
  intros Ht Hi. destruct (decide (i = length t)) as [->|Hne]; [by left|].
  unfold ch. rewrite lookup_app_l by lia. destruct (lookup_lt_is_Some_2 t i) as [c Hc]; [lia|].
  rewrite Hc. simpl. destruct (byte_eqb_spec c NUL) as [->|]; [|done].
  intros _. exfalso. apply Ht. by eapply list_elem_of_lookup_2.
Qed.

Lemma setup_append_buf_holds d t n : holds d t -> (0 < n)%nat ->
  exists d' k, setup_append_buf d n = Ret d' /\ d_data d' = t ++ zeros k /\ (n <= k)%nat /\
    d_in_append d' = true /\ (d_used d' <= length t)%nat /\ d_sbuf d' = d_sbuf d.
Proof.
  intros (Ht & k & Hk & Hd & Hout & Hin) Hn. unfold setup_append_buf.
  rewrite Hd, c_text_zeros by done. simpl.
  set (used := if d_in_append d && _ then _ else _).
  assert (Hu : used = length t).
  { unfold used. destruct (d_in_append d) eqn:E; simpl; [|done].
    destruct (byte_eqb (ch (t ++ zeros k) (d_used d)) NUL) eqn:E2; [|done].
    apply ch_holds in E2 as [|[_ []]]; auto. }
  clearbody used. subst used.
  assert (Hnew : exists d' k', (newbuf ← write_at (zeros (if n + length t <? 100 then 200 else (n + length t) * 2)%nat) 0 (t ++ [NUL]);
      Ret (mkDstr (d_sbuf d) (Some newbuf) (length t) true)) = Ret d' /\
      d_data d' = t ++ zeros k' /\ (n <= k')%nat /\
    d_in_append d' = true /\ (d_used d' <= length t)%nat /\ d_sbuf d' = d_sbuf d).
  { set (size := (if n + length t <? 100 then 200 else (n + length t) * 2)%nat).
    assert (Hs : (n + length t <= size)%nat) by (unfold size; destruct (Nat.ltb_spec (n + length t) 100); lia).
    pose proof (write_at_zeros [] (t ++ [NUL]) size) as Hw. simpl in Hw.
    rewrite Hw by (rewrite length_app; simpl; lia). simpl.
    eexists _, (S (size - length (t ++ [NUL]))). split; [reflexivity|]. simpl.
    rewrite <-app_assoc. simpl. rewrite length_app. simpl. repeat split; done || lia. }
  destruct (d_in_append d) eqn:E.
  - destruct (Nat.leb_spec (length (default [] (d_append d))) (n + length t)); [exact Hnew|].
    unfold d_data in Hd. rewrite E in Hd. rewrite Hd in *. rewrite length_app in *. unfold zeros in *.
    rewrite length_replicate in *. eexists _, k. split; [reflexivity|]. simpl.
    unfold d_data. simpl. rewrite Hd. repeat split; done || lia.
  - rewrite Hout by done. simpl. exact Hnew.
Qed.

Lemma write_holds d t k s :
  d_data d = t ++ zeros k -> (length s < k)%nat -> cstr t -> cstr s -> d_in_append d = true ->
  (d_used d <= length t)%nat ->
  exists d', (t ← c_text (d_data d); b ← write_at (d_data d) (length t) s;
              Ret (mkDstr (d_sbuf d) (Some b) (d_used d) true)) = Ret d' /\ holds d' (t ++ s).
Proof.
  intros Hd Hk Ht Hs Hin Hu. rewrite Hd, c_text_zeros by (done || lia). simpl.
  rewrite write_at_zeros by lia. simpl. eexists. split; [reflexivity|]. split.
  - unfold cstr in *. rewrite elem_of_app. naive_solver.
  - exists (k - length s)%nat. simpl. unfold d_data. simpl. rewrite <-app_assoc, length_app.
    repeat split; done || lia.
Qed.

Lemma arg_dstr_cat_holds d t s : holds d t -> cstr s ->
  exists d', arg_dstr_cat d s = Ret d' /\ holds d' (t ++ s).
Proof.
  intros Hd Hs. pose proof Hd as [Ht _]. unfold arg_dstr_cat.
  destruct (setup_append_buf_holds d t (length s + 1) Hd ltac:(lia)) as (d' & k & -> & Hdat & Hk & Hin & Hu & _).
  simpl. apply (write_holds d' t k s); done || lia.
Qed.

Lemma catf_loop_grow f n text : (n <= length text)%nat ->
  catf_loop (S f) n text = catf_loop f (if n <? length text then length text else n + n)%nat text.
Proof.
  intros Hn. simpl. rewrite length_take. destruct (Nat.ltb_spec (n `min` length text) n); [lia|done].
Qed.

Lemma catf_loop_text n text : (16 <= n)%nat -> catf_loop 3 n text = Ret text.
Proof.
  intros Hn. assert (Hok : forall f m, (length text < m)%nat -> catf_loop (S f) m text = Ret text).
  { intros f m Hm. simpl. rewrite take_ge by lia. destruct (Nat.ltb_spec (length text) m); [done|lia]. }
  destruct (decide (length text < n)%nat) as [Hlt|Hge]; [by apply Hok|].
  rewrite catf_loop_grow by lia. destruct (Nat.ltb_spec n (length text)); [|apply Hok; lia].
  rewrite catf_loop_grow by lia. destruct (Nat.ltb_spec (length text) (length text)); [lia|].
  apply Hok. lia.
Qed.

(** The calls that append to a dynamic string. *)
Inductive dstr_op := Cat (s : bytes) | Catc (c : byte) | Catf (fmtlen : nat) (text : bytes).

Definition op_text (o : dstr_op) : bytes :=
  match o with Cat s => s | Catc c => [c] | Catf _ t => t end.

Definition dstr_run1 (o : dstr_op) (d : dstr) : outcome dstr :=
  match o with Cat s => arg_dstr_cat d s | Catc c => arg_dstr_catc d c | Catf n t => arg_dstr_catf d n t end.

Fixpoint dstr_run (os : list dstr_op) (d : dstr) : outcome dstr :=
  match os with [] => Ret d | o :: os => d ← dstr_run1 o d; dstr_run os d end.

Lemma dstr_run1_holds o d t : holds d t -> cstr (op_text o) ->
  exists d', dstr_run1 o d = Ret d' /\ holds d' (t ++ op_text o).
Proof.
  intros Hd Ho. pose proof Hd as [Ht _]. destruct o as [s|c|n text]; simpl in *.
  - by apply arg_dstr_cat_holds.
  - unfold arg_dstr_catc.
    destruct (setup_append_buf_holds d t 2 Hd ltac:(lia)) as (d' & k & -> & Hdat & Hk & Hin & Hu & _).
    simpl. apply (write_holds d' t k [c]); done || (simpl; lia).
  - unfold arg_dstr_catf. rewrite catf_loop_text by lia. simpl. by apply arg_dstr_cat_holds.
Qed.

Lemma dstr_run_holds os d t : holds d t -> Forall (fun o => cstr (op_text o)) os ->
  exists d', dstr_run os d = Ret d' /\ holds d' (t ++ concat (map op_text os)).
Proof.
  intros Hd Ho. revert d t Hd. induction Ho as [|o os Ho _ IH]; intros d t Hd; simpl.
  - exists d. by rewrite app_nil_r.
  - destruct (dstr_run1_holds o d t Hd Ho) as (d' & -> & Hd'). simpl.
    destruct (IH d' _ Hd') as (d2 & -> & Hd2). exists d2. by rewrite app_assoc.
Qed.

Lemma create_holds : holds arg_dstr_create [].
Proof. split; [apply not_elem_of_nil|]. exists (S ARG_DSTR_SIZE). repeat split; try done. unfold ARG_DSTR_SIZE. lia. Qed.

(** A dynamic string is the concatenation of what was appended: any sequence of
    arg_dstr_cat, arg_dstr_catc and arg_dstr_catf on a new string stays inside its
    buffers, which grow as needed, and its text is the texts in order. *)
Theorem dstr_is_concatenation os :
  Forall (fun o => cstr (op_text o)) os ->
  exists d, dstr_run os arg_dstr_create = Ret d /\ c_text (d_data d) = Ret (concat (map op_text os)).
Proof.
  intros Ho. destruct (dstr_run_holds os _ _ create_holds Ho) as (d & Hr & Ht & k & Hk & Hd & _).
  exists d. split; [done|]. simpl in *. by rewrite Hd, c_text_zeros.
Qed.

Lemma dstr_is_concatenation_witness :
  exists d, dstr_run [Cat (bs "a"); Catc x62; Catf 2 (bs "0123456789abcdefghij")] arg_dstr_create = Ret d /\
    c_text (d_data d) = Ret (bs "ab0123456789abcdefghij").
Proof.
  apply (dstr_is_concatenation [Cat (bs "a"); Catc x62; Catf 2 (bs "0123456789abcdefghij")]).
  repeat constructor; by apply (bool_decide_unpack (cstr _)).
Defined.

(** * The syntax of an option, in a fixed buffer *)

(** The buffer, [dest] and [ndest] of the concatenation. *)
Definition cursor : Type := bytes * nat * nat.

(** [src/deps/argtable/argtable3.c 5287-5289, arg_cat] Skip the text that is there. *)
Fixpoint cat_seek (room : nat) (buf : bytes) (dest : nat) : outcome nat :=
  match room with
  | O => Ret dest
  | S room =>
      match buf !! dest with
      | None => Fault OutOfBounds
      | Some c => if byte_eqb c NUL then Ret dest else cat_seek room buf (S dest)
      end
  end.

(** [src/deps/argtable/argtable3.c 5291-5293, arg_cat] Copy while there is room. *)
Fixpoint cat_copy (src : bytes) (room : nat) (buf : bytes) (dest : nat) : outcome (bytes * nat) :=
  match room, src with
  | S room, c :: src => buf ← buf_set buf dest c; cat_copy src room buf (S dest)
  | _, _ => Ret (buf, dest)
  end.

(** [src/deps/argtable/argtable3.c 5283-5301, arg_cat] *)
Definition arg_cat (st : cursor) (src : bytes) : outcome cursor :=
  let '(buf, dest, ndest) := st in
  let stop := (dest + ndest)%nat in
  dest ← cat_seek ndest buf dest;
  '(buf, dest) ← cat_copy src (stop - dest) buf dest;
  buf ← buf_set buf dest NUL;
  Ret (buf, dest, (stop - dest)%nat).

(** [strncat(dest, src, k)] of the standard: up to [k] characters and a terminator. *)
Definition strncat (buf : bytes) (dest : nat) (src : bytes) (k : nat) : outcome bytes :=
  t ← c_text (drop dest buf);
  write_at buf (dest + length t) (take k src ++ [NUL]).

(** [src/deps/argtable/argtable3.c 5330-5334, arg_cat_option] A name, at most [ndest]
    characters of it; the cursor stays. *)
Definition cat_name (st : cursor) (name : bytes) : outcome cursor :=
  let '(buf, dest, ndest) := st in
  buf ← strncat buf dest name (if length name <? ndest then length name else ndest)%nat;
  Ret (buf, dest, ndest).

(** The part of a list of names before its first comma, [strcspn(longopts, ",")]. *)
Fixpoint first_name (s : bytes) : bytes :=
  match s with [] => [] | c :: s => if byte_eqb c x2c then [] else c :: first_name s end.

(** [src/deps/argtable/argtable3.c 5337-5343, arg_cat_option] *)
Definition cat_datatype (st : cursor) (datatype : bytes) (optvalue : bool) : outcome cursor :=
  if optvalue then
    st ← arg_cat st (bs "["); st ← arg_cat st datatype; arg_cat st (bs "]")
  else arg_cat st datatype.

(** [src/deps/argtable/argtable3.c 5303-5354, arg_cat_option] *)
Definition arg_cat_option (st : cursor) (shortopts longopts datatype : arg) (optvalue : bool)
    : outcome cursor :=
  match shortopts, longopts, datatype with
  | Some so, _, _ =>
      st ← arg_cat st (if byte_eqb (ch so 0) NUL then [x2d] else [x2d; ch so 0]);
      match datatype with
      | Some dt => st ← arg_cat st (bs " "); cat_datatype st dt optvalue
      | None => Ret st
      end
  | None, Some lo, _ =>
      st ← arg_cat st (bs "--");
      st ← cat_name st (first_name lo);
      match datatype with
      | Some dt => st ← arg_cat st (bs "="); cat_datatype st dt optvalue
      | None => Ret st
      end
  | None, None, Some dt => cat_datatype st dt optvalue
  | None, None, None => Ret st
  end.

(** [src/deps/argtable/argtable3.c 5361-5375, arg_cat_optionv] "-a|-b|-c" *)
Fixpoint cat_letters (st : cursor) (so separator : bytes) : outcome cursor :=
  match so with
  | [] => Ret st
  | c :: so =>
      st ← arg_cat st [x2d; c];
      st ← (match so with [] => Ret st | _ :: _ => arg_cat st separator end);
      cat_letters st so separator
  end.

(** [src/deps/argtable/argtable3.c 5381-5405, arg_cat_optionv] "--aa|--bb"; each pass
    uses up a name, and the comma after it. *)
Fixpoint cat_names (fuel : nat) (st : cursor) (c separator : bytes) : outcome cursor :=
  match fuel, c with
  | _, [] => Ret st
  | O, _ => Fault OutOfFuel
  | S fuel, _ :: _ =>
      st ← arg_cat st (bs "--");
      st ← cat_name st (first_name c);
      match drop (length (first_name c)) c with
      | [] => Ret st
      | _ :: c => st ← arg_cat st separator; cat_names fuel st c separator
      end
  end.

(** [src/deps/argtable/argtable3.c 5356-5420, arg_cat_optionv] *)
Definition arg_cat_optionv (st : cursor) (shortopts longopts datatype : arg) (optvalue : bool)
    (separator : bytes) : outcome cursor :=
  st ← match shortopts with Some so => cat_letters st so separator | None => Ret st end;
  st ← match shortopts, longopts with Some _, Some _ => arg_cat st separator | _, _ => Ret st end;
  st ← match longopts with Some lo => cat_names (length lo) st lo separator | None => Ret st end;
  match datatype with
  | None => Ret st
  | Some dt =>
      st ← match longopts, shortopts with
           | Some _, _ => arg_cat st (bs "=")
           | None, Some _ => arg_cat st (bs " ")
           | None, None => Ret st
           end;
      cat_datatype st dt optvalue
  end.

(** [char syntax[200] = ""]. *)
Definition SYNTAX : nat := 200.
Definition new_syntax : cursor := (zeros SYNTAX, O, SYNTAX).
Definition syntax_text (st : cursor) : outcome bytes := c_text (fst (fst st)).

(** [src/deps/argtable/argtable3.c 5422-5431, arg_print_option_ds] What is appended to
    the dynamic string. *)
Definition arg_print_option_ds (shortopts longopts datatype : arg) (suffix : bytes) : outcome bytes :=
  st ← arg_cat_optionv new_syntax shortopts longopts datatype false (bs "|");
  t ← syntax_text st;
  Ret (t ++ suffix).

(** ** What they should write *)

Fixpoint letters_text (so sep : bytes) : bytes :=
  match so with
  | [] => []
  | c :: so => [x2d; c] ++ (match so with [] => [] | _ => sep end) ++ letters_text so sep
  end.

Fixpoint names_text (fuel : nat) (c sep : bytes) : bytes :=
  match fuel, c with
  | S fuel, _ :: _ =>
      bs "--" ++ first_name c ++
      match drop (length (first_name c)) c with [] => [] | _ :: c => sep ++ names_text fuel c sep end
  | _, _ => []
  end.

Definition datatype_text (dt : bytes) (optvalue : bool) : bytes :=
  if optvalue then bs "[" ++ dt ++ bs "]" else dt.

(** "-h|--help", "--mode=<RUN_MODE>". *)
Definition optionv_text (so lo dt : arg) (optvalue : bool) (sep : bytes) : bytes :=
  match so with Some so => letters_text so sep | None => [] end ++
  match so, lo with Some _, Some _ => sep | _, _ => [] end ++
  match lo with Some lo => names_text (length lo) lo sep | None => [] end ++
  match dt with
  | None => []
  | Some dt =>
      match lo, so with Some _, _ => bs "=" | None, Some _ => bs " " | None, None => [] end ++
      datatype_text dt optvalue
  end.

(** ** The buffer holds the text, or the terminator is written behind it *)
Section writes.
Context (N : nat).

(** [m] has written the text [t] into a buffer of [N] characters if it fits with its
    terminator, and has left the buffer if not. *)
Definition writes (t : bytes) (m : outcome cursor) : Prop :=
  cstr t /\
  if (length t <? N)%nat
  then exists dest, (dest <= length t)%nat /\ m = Ret (t ++ zeros (N - length t), dest, (N - dest)%nat)
  else m = Fault OutOfBounds.

Lemma cat_seek_end t k dest : cstr t -> (dest <= length t)%nat ->
  (length t < N)%nat -> (length t - dest < k)%nat ->
  cat_seek k (t ++ zeros (N - length t)) dest = Ret (length t).
Proof.
  intros Ht. revert dest. induction k as [|k IH]; intros dest Hd HN Hk; [lia|]. simpl.
  destruct (decide (dest = length t)) as [->|Hne].
  - rewrite lookup_app_r, Nat.sub_diag by lia.
    destruct (N - length t)%nat eqn:E; [lia|]. done.
  - rewrite lookup_app_l by lia. destruct (lookup_lt_is_Some_2 t dest) as [c Hc]; [lia|].
    rewrite Hc. rewrite byte_eqb_ne.
    + apply IH; lia.
    + intros ->. apply Ht. by eapply list_elem_of_lookup_2.
Qed.

Lemma cat_copy_fits src t k room : (length src <= room)%nat -> (length src <= k)%nat ->
  cat_copy src room (t ++ zeros k) (length t)
  = Ret (t ++ src ++ zeros (k - length src), (length t + length src)%nat).
Proof.
  revert t k room. induction src as [|c src IH]; intros t k room Hr Hk; simpl in *.
  - rewrite Nat.sub_0_r, Nat.add_0_r. by destruct room.
  - destruct room as [|room], k as [|k]; try lia. simpl.
    change (zeros (S k)) with (NUL :: zeros k). rewrite buf_set_app. simpl.
    replace (t ++ c :: zeros k) with ((t ++ [c]) ++ zeros k) by (by rewrite <-app_assoc).
    replace (S (length t)) with (length (t ++ [c])) by (rewrite length_app; simpl; lia).
    rewrite IH by lia. rewrite <-app_assoc, length_app. simpl. do 2 f_equal. lia.
Qed.

Lemma cat_copy_full src t k : (k <= length src)%nat ->
  cat_copy src k (t ++ zeros k) (length t) = Ret (t ++ take k src, (length t + k)%nat).
Proof.
  revert t k. induction src as [|c src IH]; intros t k Hk; simpl in *.
  - assert (k = O) as -> by lia. simpl. rewrite !app_nil_r, Nat.add_0_r. reflexivity.
  - destruct k as [|k]; [change (zeros 0) with (@nil byte); simpl; by rewrite app_nil_r, Nat.add_0_r|]; simpl.
    change (zeros (S k)) with (NUL :: zeros k). rewrite buf_set_app. simpl.
    replace (t ++ c :: zeros k) with ((t ++ [c]) ++ zeros k) by (by rewrite <-app_assoc).
    replace (S (length t)) with (length (t ++ [c])) by (rewrite length_app; simpl; lia).
    rewrite IH by lia. rewrite <-app_assoc, length_app. simpl. do 2 f_equal. lia.
Qed.

Lemma cstr_app a b : cstr a -> cstr b -> cstr (a ++ b).
Proof. unfold cstr. rewrite elem_of_app. naive_solver. Qed.

Lemma arg_cat_writes t src m :
  cstr src -> writes t m -> writes (t ++ src) (m ≫= fun st => arg_cat st src).
Proof.
  intros Hs [Ht Hm]. split; [by apply cstr_app|]. rewrite length_app.
  destruct (Nat.ltb_spec (length t) N) as [Hlt|Hge].
  2:{ destruct (Nat.ltb_spec (length t + length src) N); [lia|]. by rewrite Hm. }
  destruct Hm as (dest & Hd & ->). simpl. rewrite cat_seek_end by (done || lia). simpl.
  replace (dest + (N - dest) - length t)%nat with (N - length t)%nat by lia.
  destruct (Nat.ltb_spec (length t + length src) N).
  - rewrite cat_copy_fits by lia. simpl.
    destruct (N - length t - length src)%nat as [|k] eqn:E; [lia|].
    change (zeros (S k)) with (NUL :: zeros k). rewrite app_assoc, <-length_app, buf_set_app. simpl.
    exists (length (t ++ src)). split; [lia|]. rewrite length_app.
    replace (N - (length t + length src))%nat with (S k) by lia. simpl. do 3 f_equal. lia.
  - rewrite cat_copy_full by lia. simpl. unfold buf_set.
    rewrite length_app, length_take. destruct (Nat.ltb_spec (length t + (N - length t)) (length t + (N - length t) `min` length src)); [lia|done].
Qed.

Lemma cat_name_writes t name m :
  cstr name -> writes t m -> writes (t ++ name) (m ≫= fun st => cat_name st name).
Proof.
  intros Hs [Ht Hm]. split; [by apply cstr_app|]. rewrite length_app.
  destruct (Nat.ltb_spec (length t) N) as [Hlt|Hge].
  2:{ destruct (Nat.ltb_spec (length t + length name) N); [lia|]. by rewrite Hm. }
  destruct Hm as (dest & Hd & ->). simpl. unfold strncat.
  rewrite drop_app_le by lia. rewrite c_text_zeros; [|intros Hx; apply Ht; rewrite <-(take_drop dest t); set_solver|lia].
  simpl. rewrite length_drop. replace (dest + (length t - dest))%nat with (length t) by lia.
  set (k := if (length name <? N - dest)%nat then length name else (N - dest)%nat).
  destruct (Nat.ltb_spec (length t + length name) N).
  - assert (k = length name) as -> by (unfold k; destruct (Nat.ltb_spec (length name) (N - dest)); lia).
    rewrite firstn_all, write_at_zeros by (rewrite length_app; simpl; lia). simpl.
    exists dest. split; [lia|]. rewrite <-!app_assoc, length_app. simpl.
    replace (N - (length t + length name))%nat with (S (N - length t - (length name + 1))) by lia. done.
  - unfold write_at. rewrite !length_app, length_take. unfold zeros. rewrite length_replicate. simpl.
    destruct (Nat.leb_spec (length t + (k `min` length name + 1)) (length t + (N - length t))); [|done].
    exfalso. unfold k in *. destruct (Nat.ltb_spec (length name) (N - dest)); lia.
Qed.

(** A step that appends [t], whatever was written before. *)
Definition appends (t : bytes) (f : cursor -> outcome cursor) : Prop :=
  forall p m, writes p m -> writes (p ++ t) (m ≫= f).

Lemma appends_ret : appends [] Ret.
Proof. intros p m H. rewrite app_nil_r. by destruct m. Qed.

Lemma appends_bind t1 t2 f1 f2 :
  appends t1 f1 -> appends t2 f2 -> appends (t1 ++ t2) (fun st => f1 st ≫= f2).
Proof.
  intros H1 H2 p m Hm. rewrite app_assoc.
  replace (m ≫= (fun st => f1 st ≫= f2)) with ((m ≫= f1) ≫= f2) by (by destruct m). auto.
Qed.

Lemma appends_cat src : cstr src -> appends src (fun st => arg_cat st src).
Proof. intros Hs p m. by apply arg_cat_writes. Qed.

Lemma appends_name src : cstr src -> appends src (fun st => cat_name st src).
Proof. intros Hs p m. by apply cat_name_writes. Qed.

Hint Resolve appends_ret appends_bind appends_cat appends_name : core.

Lemma first_name_cstr s : cstr s -> cstr (first_name s).
Proof.
  unfold cstr. induction s as [|c s IH]; simpl; [done|]. rewrite not_elem_of_cons. intros [Hc Hs].
  destruct (byte_eqb c x2c); [apply not_elem_of_nil|]. rewrite not_elem_of_cons. auto.
Qed.

Lemma cstr_drop n s : cstr s -> cstr (drop n s).
Proof. unfold cstr. intros Hs Hx. apply Hs. rewrite <-(take_drop n s). set_solver. Qed.

Lemma cstr_cons c s : cstr (c :: s) -> cstr [c] /\ cstr s.
Proof. unfold cstr. rewrite !not_elem_of_cons. intros [? ?]. repeat split; auto. apply not_elem_of_nil. Qed.

Lemma cstr_const s : bool_decide (cstr s) = true -> cstr s.
Proof. apply bool_decide_eq_true_1. Qed.

Lemma letters_append so sep : cstr so -> cstr sep ->
  appends (letters_text so sep) (fun st => cat_letters st so sep).
Proof.
  intros Hso Hsep. induction so as [|c so IH]; simpl; [apply appends_ret|].
  apply cstr_cons in Hso as [Hc Hso].
  apply (appends_bind [x2d; c]); [apply appends_cat, (cstr_app [x2d] [c]); [by apply cstr_const|done]|].
  apply appends_bind; [|by apply IH]. destruct so; auto.
Qed.

Lemma names_append fuel c sep : cstr c -> cstr sep -> (length c <= fuel)%nat ->
  appends (names_text fuel c sep) (fun st => cat_names fuel st c sep).
Proof.
  revert c. induction fuel as [|fuel IH]; intros c Hc Hsep Hl.
  { destruct c; [apply appends_ret|simpl in *; lia]. }
  destruct c as [|x c]; [apply appends_ret|].
  cbn [names_text cat_names]. set (xc := x :: c) in *.
  apply appends_bind; [by apply appends_cat, cstr_const|].
  apply appends_bind; [by apply appends_name, first_name_cstr|].
  pose proof (cstr_drop (length (first_name xc)) xc Hc) as Hd.
  destruct (drop (length (first_name xc)) xc) as [|y c'] eqn:E; [apply appends_ret|].
  apply appends_bind; [by apply appends_cat|]. apply cstr_cons in Hd as [_ Hd]. apply IH; try done.
  apply (f_equal length) in E. rewrite length_drop in E. simpl in *. lia.
Qed.

Lemma datatype_append dt ov : cstr dt ->
  appends (datatype_text dt ov) (fun st => cat_datatype st dt ov).
Proof.
  intros Hd. unfold datatype_text, cat_datatype. destruct ov; [|by apply appends_cat].
  repeat apply appends_bind; try (by apply appends_cat, cstr_const). by apply appends_cat.
Qed.

Definition arg_cstr (a : arg) : Prop := match a with Some s => cstr s | None => True end.

Lemma optionv_append so lo dt ov sep :
  arg_cstr so -> arg_cstr lo -> arg_cstr dt -> cstr sep ->
  appends (optionv_text so lo dt ov sep) (fun st => arg_cat_optionv st so lo dt ov sep).
Proof.
  intros Hso Hlo Hdt Hsep. unfold optionv_text, arg_cat_optionv.
  apply appends_bind; [destruct so; [by apply letters_append|apply appends_ret]|].
  apply appends_bind; [destruct so, lo; auto|].
  apply appends_bind; [destruct lo; [by apply names_append|apply appends_ret]|].
  destruct dt as [dt|]; [|apply appends_ret].
  apply appends_bind; [|by apply datatype_append].
  destruct lo, so; try apply appends_ret; by apply appends_cat, cstr_const.
Qed.
End writes.

Lemma print_option_spec so lo dt suffix :
  arg_cstr so -> arg_cstr lo -> arg_cstr dt ->
  arg_print_option_ds so lo dt suffix =
    let t := optionv_text so lo dt false (bs "|") in
    if (length t <? SYNTAX)%nat then Ret (t ++ suffix) else Fault OutOfBounds.
Proof.
  intros Hso Hlo Hdt. unfold arg_print_option_ds.
  pose proof (optionv_append SYNTAX so lo dt false (bs "|") Hso Hlo Hdt ltac:(by apply cstr_const)
    [] (Ret new_syntax)) as [Ht Hm].
  { split; [apply not_elem_of_nil|]. simpl. by exists O. }
  simpl in Ht, Hm. set (t := optionv_text so lo dt false (bs "|")) in *. cbn zeta.
  destruct (Nat.ltb_spec (length t) SYNTAX); [|by rewrite Hm].
  destruct Hm as (dest & _ & ->). rewrite outcome_bind_ret. unfold syntax_text. simpl.
  by rewrite c_text_zeros by (done || lia).
Qed.

(** The syntax of an option goes into a buffer of 200 characters: [arg_print_option_ds]
    gives its letters, names and data type when they are shorter than that, and writes
    the terminator behind the buffer otherwise.  [arg_cat] stops copying at the end of
    the buffer but not before the place of the terminator. *)
Theorem print_option_off_by_one so lo dt suffix :
  arg_cstr so -> arg_cstr lo -> arg_cstr dt ->
  arg_print_option_ds so lo dt suffix =
    let t := optionv_text so lo dt false (bs "|") in
    if (length t <? 200)%nat then Ret (t ++ suffix) else Fault OutOfBounds.
Proof. apply print_option_spec. Qed.

Lemma print_option_off_by_one_witness :
  arg_print_option_ds None (Some (bs "mode")) (Some (replicate 193 x61)) (bs " ") = Fault OutOfBounds /\
  arg_print_option_ds (Some (bs "h")) (Some (bs "help")) None (bs " ") = Ret (bs "-h|--help ").
Proof.
  split.
  - apply (print_option_off_by_one None (Some (bs "mode")) (Some (replicate 193 x61)) (bs " "));
      by (exact I || by apply cstr_const).
  - apply (print_option_off_by_one (Some (bs "h")) (Some (bs "help")) None (bs " "));
      by (exact I || by apply cstr_const).
Defined.

(** * Messages *)

(** What the message functions append to the dynamic string. *)

(** [src/deps/argtable/argtable3.c 3247-3266, arg_lit_errorfn] *)
Definition arg_lit_errorfn (h : arg_hdr) (errorcode : Z) (progname : bytes) : outcome bytes :=
  if errorcode =? ARG_ERR_MINCOUNT then
    o ← arg_print_option_ds (shortopts h) (longopts h) (datatype h) [x0a];
    Ret (progname ++ bs ": missing option " ++ o ++ [x0a])
  else if errorcode =? ARG_ERR_MAXCOUNT then
    o ← arg_print_option_ds (shortopts h) (longopts h) (datatype h) [x0a];
    Ret (progname ++ bs ": extraneous option " ++ o)
  else Ret [].

(** [src/deps/argtable/argtable3.c 3111-3142, arg_int_errorfn] *)
Definition arg_int_errorfn (h : arg_hdr) (errorcode : Z) (argval : arg) (progname : bytes)
    : outcome bytes :=
  let argval := default [] argval in
  m ← (if errorcode =? ARG_ERR_MINCOUNT then
         o ← arg_print_option_ds (shortopts h) (longopts h) (datatype h) [x0a];
         Ret (bs "missing option " ++ o)
       else if errorcode =? ARG_ERR_MAXCOUNT then
         o ← arg_print_option_ds (shortopts h) (longopts h) (Some argval) [x0a];
         Ret (bs "excess option " ++ o)
       else if errorcode =? ARG_ERR_BADINT then
         o ← arg_print_option_ds (shortopts h) (longopts h) (datatype h) [x0a];
         Ret (bs "invalid argument " ++ [x22] ++ argval ++ [x22] ++ bs " to option " ++ o)
       else if errorcode =? ARG_ERR_OVERFLOW then
         o ← arg_print_option_ds (shortopts h) (longopts h) (datatype h) (bs " ");
         Ret (bs "integer overflow at option " ++ o ++ bs "(" ++ argval ++ bs " is too large)" ++ [x0a])
       else Ret []);
  Ret (progname ++ bs ": " ++ m).

(** [src/deps/argtable/argtable3.c 4444-4464, arg_str_errorfn] *)
Definition arg_str_errorfn (h : arg_hdr) (errorcode : Z) (argval : arg) (progname : bytes)
    : outcome bytes :=
  let argval := default [] argval in
  m ← (if errorcode =? ARG_ERR_MINCOUNT then
         o ← arg_print_option_ds (shortopts h) (longopts h) (datatype h) [x0a];
         Ret (bs "missing option " ++ o)
       else if errorcode =? ARG_ERR_MAXCOUNT then
         o ← arg_print_option_ds (shortopts h) (longopts h) (Some argval) [x0a];
         Ret (bs "excess option " ++ o)
       else Ret []);
  Ret (progname ++ bs ": " ++ m).

(** [src/deps/argtable/argtable3.c 2818-2841, arg_file_errorfn] *)
Definition arg_file_errorfn (h : arg_hdr) (errorcode : Z) (argval : arg) (progname : bytes)
    : outcome bytes :=
  let argval := default [] argval in
  m ← (if errorcode =? ARG_ERR_MINCOUNT then
         o ← arg_print_option_ds (shortopts h) (longopts h) (datatype h) [x0a];
         Ret (bs "missing option " ++ o)
       else if errorcode =? ARG_ERR_MAXCOUNT then
         o ← arg_print_option_ds (shortopts h) (longopts h) (Some argval) [x0a];
         Ret (bs "excess option " ++ o)
       else Ret (bs "unknown error at " ++ [x22] ++ argval ++ [x22] ++ [x0a]));
  Ret (progname ++ bs ": " ++ m).

(** [src/deps/argtable/argtable3.c 2603-2633, arg_end_errorfn] *)
Definition arg_end_errorfn (error : Z) (argval : arg) (progname : bytes) : bytes :=
  let argval := default [] argval in
  progname ++ bs ": " ++
  (if error =? ARG_ELIMIT then bs "too many errors to display"
   else if error =? ARG_EMALLOC then bs "insufficient memory"
   else if error =? ARG_ENOMATCH then bs "unexpected argument " ++ [x22] ++ argval ++ [x22]
   else if error =? ARG_EMISSARG then
     bs "option " ++ [x22] ++ argval ++ [x22] ++ bs " requires an argument"
   else if error =? ARG_ELONGOPT then bs "invalid option " ++ [x22] ++ argval ++ [x22]
   else bs "invalid option " ++ [x22] ++ bs "-" ++ [byte_of error] ++ [x22]) ++ [x0a].

(** [errorparent->errorfn(...)] for one error. *)
Definition errorfn (t : table) (e : arg_error) (progname : bytes) : outcome bytes :=
  match e_parent e with
  | None => Ret (arg_end_errorfn (e_code e) (e_argval e) progname)
  | Some i =>
      ent ← vec_get t (Z.of_nat i);
      match data ent with
      | ArgLit => arg_lit_errorfn (hdr ent) (e_code e) progname
      | ArgInt _ => arg_int_errorfn (hdr ent) (e_code e) (e_argval e) progname
      | ArgStr _ => arg_str_errorfn (hdr ent) (e_code e) (e_argval e) progname
      | ArgFile _ _ _ => arg_file_errorfn (hdr ent) (e_code e) (e_argval e) progname
      end
  end.

(** [src/deps/argtable/argtable3.c 2672-2680, arg_print_errors_ds] *)
Fixpoint arg_print_errors_ds (t : table) (es : list arg_error) (progname : bytes) : outcome bytes :=
  match es with
  | [] => Ret []
  | e :: es =>
      m ← errorfn t e progname;
      ms ← arg_print_errors_ds t es progname;
      Ret (m ++ ms)
  end.

(** [src/deps/argtable/argtable3.c 2682-2687, arg_print_errors] The text for stderr. *)
Definition arg_print_errors (p : pstate) (progname : bytes) : outcome bytes :=
  arg_print_errors_ds (fst p) (errors (snd p)) progname.

(** * Usage *)

(** Switches of one pass of [arg_print_gnuswitch_ds]: letters without values. *)
Definition switch_letters (t : table) (mandatory : bool) : bytes :=
  concat (map (fun e =>
    if negb (Bool.eqb (1 <=? mincount (hdr e)) mandatory) then []
    else match shortopts (hdr e) with
         | None => []
         | Some so => if Z.land (hdr_flag (hdr e)) ARG_HASVALUE =? 0 then [ch so 0] else []
         end) t).

(** [src/deps/argtable/argtable3.c 5446-5493, arg_print_gnuswitch_ds] " -ab[cd]", or
    " [-cd]" when no switch is mandatory. *)
Definition arg_print_gnuswitch_ds (t : table) : bytes :=
  let m := switch_letters t true in
  let o := switch_letters t false in
  (match m with [] => [] | _ => bs " -" ++ m end) ++
  (match o with
   | [] => []
   | _ => (match m with [] => bs " [-" | _ => bs "[" end) ++ o ++ bs "]"
   end).

(** [src/deps/argtable/argtable3.c 5517-5544, arg_print_syntax_ds] The mandatory and
    the optional occurrences of one entry. *)
Definition occurrences (h : arg_hdr) (syntax : bytes) : bytes :=
  concat (replicate (Z.to_nat (mincount h)) (bs " " ++ syntax)) ++
  (let d := maxcount h - mincount h in
   if d =? 0 then []
   else if d =? 1 then bs " [" ++ syntax ++ bs "]"
   else if d =? 2 then bs " [" ++ syntax ++ bs "]" ++ bs " [" ++ syntax ++ bs "]"
   else bs " [" ++ syntax ++ bs "]...").

(** [src/deps/argtable/argtable3.c 5502-5546, arg_print_syntax_ds] The loop over the
    entries that are not switches. *)
Fixpoint syntax_entries (t : table) : outcome bytes :=
  match t with
  | [] => Ret []
  | e :: t =>
      let h := hdr e in
      m ← (if bool_decide (is_Some (shortopts h)) && (Z.land (hdr_flag h) ARG_HASVALUE =? 0) then Ret []
           else
             st ← arg_cat_option new_syntax (shortopts h) (longopts h) (datatype h)
                    (negb (Z.land (hdr_flag h) ARG_HASOPTVALUE =? 0));
             syntax ← syntax_text st;
             Ret (match syntax with [] => [] | _ => occurrences h syntax end));
      ms ← syntax_entries t;
      Ret (m ++ ms)
  end.

(** [src/deps/argtable/argtable3.c 5495-5552, arg_print_syntax_ds] *)
Definition arg_print_syntax_ds (t : table) (suffix : bytes) : outcome bytes :=
  m ← syntax_entries t; Ret (arg_print_gnuswitch_ds t ++ m ++ suffix).

(** The format "  %-25s %s\n" of a glossary line. *)
Definition glossary_line (width : nat) (syntax gl : bytes) : bytes :=
  bs "  " ++ syntax ++ replicate (width - length syntax) x20 ++ bs " " ++ gl ++ [x0a].

(** [src/deps/argtable/argtable3.c 5618-5634, arg_print_glossary_ds] *)
Fixpoint arg_print_glossary_ds (width : nat) (t : table) : outcome bytes :=
  match t with
  | [] => Ret []
  | e :: t =>
      let h := hdr e in
      m ← match glossary h with
          | None => Ret []
          | Some gl =>
              st ← arg_cat_optionv new_syntax (shortopts h) (longopts h) (datatype h)
                     (negb (Z.land (hdr_flag h) ARG_HASOPTVALUE =? 0)) (bs ", ");
              syntax ← syntax_text st;
              Ret (glossary_line width syntax gl)
          end;
      ms ← arg_print_glossary_ds width t;
      Ret (m ++ ms)
  end.
