(* ===== verification/ArgHash.v ===== *)
(** * The hash table and the sort of argtable

    src/deps/argtable/argtable3.c: arg_hashtable, a table of chains that grows along a list of
    primes, with its iterators, and arg_mgsort, a merge sort with a comparison function.

    A table is the list of its chains, from the first bucket, a chain the list of its entries
    from its head; an iterator is a bucket and a place in its chain, which is what its three
    pointers say.  The hash function and the equality of keys are the caller's; the equality
    decides equality of keys.  The load limit is a product of floats that the theorems do not
    depend on.  There is memory.  Sorting works on the list of the elements.

    The theorems: the table is a finite map as long as no key is inserted twice, whatever the
    hash function and whenever it grows; a key that is inserted twice is found again with its
    last value until the table grows; an iterator visits every entry once, also while entries
    are removed; sorting gives a sorted permutation and touches nothing outside its range. *)

From S2P Require Import Prelude.
Local Open Scope Z_scope.

(** * Hashing *)

(** [src/deps/argtable/argtable3.c 525-528, primes] *)
Definition primes : list Z :=
  [53; 97; 193; 389; 769; 1543; 3079; 6151; 12289; 24593; 49157; 98317; 196613; 393241; 786433; 1572869; 3145739; 6291469;
   12582917; 25165843; 50331653; 100663319; 201326611; 402653189; 805306457; 1610612741].
Definition prime_table_length : nat := length primes.

(** [src/deps/argtable/argtable3.c 531-542, enhanced_hash] After the caller's function. *)
Definition enhance (i : Z) : Z :=
  let i := u32 (i + u32 (Z.lnot (u32 (Z.shiftl i 9)))) in
  let i := Z.lxor i (Z.lor (Z.shiftr i 14) (u32 (Z.shiftl i 18))) in
  let i := u32 (i + u32 (Z.shiftl i 4)) in
  Z.lxor i (Z.lor (Z.shiftr i 10) (u32 (Z.shiftl i 22))).

(** [src/deps/argtable/argtable3.c 544-546, index_for] *)
Definition index_for (tablelength hashvalue : Z) : Z := hashvalue mod tablelength.

Section table.
Context {K V : Type} `{EqDecision K}.
Context (hashfn : K -> Z) (load_limit : Z -> Z).

Definition enhanced_hash (k : K) : Z := enhance (u32 (hashfn k)).

Record Entry := mkEntry { e_h : Z; e_k : K; e_v : V }.

(** [arg_hashtable_t] *)
Record Table := mkTable { table : list (list Entry); entrycount : Z; primeindex : nat; loadlimit : Z }.

Definition tablelength (t : Table) : Z := Z.of_nat (length (table t)).

(** The bucket of a hash. *)
Definition bucket (n : nat) (h : Z) : nat := Z.to_nat (index_for (Z.of_nat n) h).

Fixpoint first_above (l : list Z) (i : nat) (minsize : Z) : option (nat * Z) :=
  match l with
  | [] => None
  | p :: l => if p >? minsize then Some (i, p) else first_above l (S i) minsize
  end.

(** [src/deps/argtable/argtable3.c 548-579, arg_hashtable_create] [None] is a null pointer. *)
Definition arg_hashtable_create (minsize : Z) : option Table :=
  if minsize >? Z.shiftl 1 30 then None
  else
    let '(pindex, size) := default (prime_table_length, 53) (first_above primes 0 minsize) in
    Some (mkTable (replicate (Z.to_nat size) []) 0 pindex (load_limit size)).

(** [src/deps/argtable/argtable3.c 600-607, arg_hashtable_expand] One entry goes to the head of
    its new chain. *)
Definition move_entry (new : list (list Entry)) (e : Entry) : list (list Entry) :=
  alter (cons e) (bucket (length new) (e_h e)) new.

(** [src/deps/argtable/argtable3.c 581-614, arg_hashtable_expand] *)
Definition arg_hashtable_expand (t : Table) : Table :=
  if (primeindex t =? prime_table_length - 1)%nat then t
  else
    let pi := S (primeindex t) in
    let newsize := nth pi primes 0 in
    let newtable := foldl move_entry (replicate (Z.to_nat newsize) []) (concat (table t)) in
    mkTable newtable (entrycount t) pi (load_limit newsize).

(** [src/deps/argtable/argtable3.c 616-618, arg_hashtable_count] *)
Definition arg_hashtable_count (t : Table) : Z := entrycount t.

(** [src/deps/argtable/argtable3.c 620-641, arg_hashtable_insert] *)
Definition arg_hashtable_insert (t : Table) (k : K) (v : V) : Table :=
  let t := if u32 (entrycount t + 1) >? loadlimit t then arg_hashtable_expand t else t in
  let e := mkEntry (enhanced_hash k) k v in
  mkTable (move_entry (table t) e) (u32 (entrycount t + 1)) (primeindex t) (loadlimit t).

Definition matches (h : Z) (k : K) (e : Entry) : bool := (h =? e_h e) && bool_decide (k = e_k e).

Fixpoint search_chain (h : Z) (k : K) (c : list Entry) : option V :=
  match c with
  | [] => None
  | e :: c => if matches h k e then Some (e_v e) else search_chain h k c
  end.

Definition chain_of (t : Table) (h : Z) : list Entry := nth (bucket (length (table t)) h) (table t) [].

(** [src/deps/argtable/argtable3.c 643-658, arg_hashtable_search] *)
Definition arg_hashtable_search (t : Table) (k : K) : option V :=
  let hashvalue := enhanced_hash k in search_chain hashvalue k (chain_of t hashvalue).

Fixpoint remove_chain (h : Z) (k : K) (c : list Entry) : option (list Entry) :=
  match c with
  | [] => None
  | e :: c => if matches h k e then Some c else cons e <$> remove_chain h k c
  end.

(** [src/deps/argtable/argtable3.c 660-688, arg_hashtable_remove] *)
Definition arg_hashtable_remove (t : Table) (k : K) : Table :=
  let hashvalue := enhanced_hash k in
  match remove_chain hashvalue k (chain_of t hashvalue) with
  | None => t
  | Some c =>
      mkTable (<[bucket (length (table t)) hashvalue := c]> (table t)) (u32 (entrycount t - 1)) (primeindex t) (loadlimit t)
  end.

Fixpoint change_chain (h : Z) (k : K) (v : V) (c : list Entry) : option (list Entry) :=
  match c with
  | [] => None
  | e :: c => if matches h k e then Some (mkEntry (e_h e) (e_k e) v :: c) else cons e <$> change_chain h k v c
  end.

(** [src/deps/argtable/argtable3.c 847-865, arg_hashtable_change] Whether the key was found. *)
Definition arg_hashtable_change (t : Table) (k : K) (v : V) : bool * Table :=
  let hashvalue := enhanced_hash k in
  match change_chain hashvalue k v (chain_of t hashvalue) with
  | None => (false, t)
  | Some c => (true, mkTable (<[bucket (length (table t)) hashvalue := c]> (table t)) (entrycount t) (primeindex t) (loadlimit t))
  end.

(** [src/deps/argtable/argtable3.c 690-718, arg_hashtable_destroy] The keys and the values that
    are freed. *)
Definition arg_hashtable_destroy (t : Table) (free_values : bool) : list K * list V :=
  (e_k <$> concat (table t), if free_values then e_v <$> concat (table t) else []).

(** ** Iterators *)

(** [arg_hashtable_itr_t]: a bucket and a place in its chain; [None] when [e] is null. *)
Definition Itr := option (nat * nat).

(** The first bucket from [i] on that is not empty. *)
Fixpoint next_bucket (l : list (list Entry)) (i : nat) : Itr :=
  match l with
  | [] => None
  | [] :: l => next_bucket l (S i)
  | (_ :: _) :: l => Some (i, 0%nat)
  end.

(** [src/deps/argtable/argtable3.c 720-741, arg_hashtable_itr_create] *)
Definition arg_hashtable_itr_create (t : Table) : Itr :=
  if entrycount t =? 0 then None else next_bucket (table t) 0.

(** [src/deps/argtable/argtable3.c 747-753, arg_hashtable_itr_key] Key and value. *)
Definition arg_hashtable_itr_entry (t : Table) (i : Itr) : outcome Entry :=
  match i with
  | None => Fault NullDeref
  | Some (b, p) => match nth b (table t) [] !! p with Some e => Ret e | None => Fault UseAfterFree end
  end.

(** [src/deps/argtable/argtable3.c 755-790, arg_hashtable_itr_advance] *)
Definition arg_hashtable_itr_advance (t : Table) (i : Itr) : Itr :=
  match i with
  | None => None
  | Some (b, p) =>
      if (S p <? length (nth b (table t) []))%nat then Some (b, S p)
      else next_bucket (drop (S b) (table t)) (S b)
  end.

(** [src/deps/argtable/argtable3.c 792-819, arg_hashtable_itr_remove] The entry after the one
    that is removed takes its place in the chain. *)
Definition arg_hashtable_itr_remove (t : Table) (b p : nat) : Table * Itr :=
  let c := nth b (table t) [] in
  let t' := mkTable (<[b := take p c ++ drop (S p) c]> (table t)) (u32 (entrycount t - 1)) (primeindex t) (loadlimit t) in
  (t', if (S p <? length c)%nat then Some (b, p) else next_bucket (drop (S b) (table t)) (S b)).

Fixpoint find_place (h : Z) (k : K) (c : list Entry) (p : nat) : option nat :=
  match c with
  | [] => None
  | e :: c => if matches h k e then Some p else find_place h k c (S p)
  end.

(** [src/deps/argtable/argtable3.c 821-845, arg_hashtable_itr_search] *)
Definition arg_hashtable_itr_search (t : Table) (k : K) : Itr :=
  let hashvalue := enhanced_hash k in
  (fun p => (bucket (length (table t)) hashvalue, p)) <$> find_place hashvalue k (chain_of t hashvalue) 0.

(** ** The entries of a table *)

Definition entries (t : Table) : list Entry := concat (table t).

(** Every entry has the hash of its key and is in its bucket. *)
Definition placed (l : list (list Entry)) : Prop :=
  forall b c e, l !! b = Some c -> e ∈ c -> e_h e = enhanced_hash (e_k e) /\ bucket (length l) (e_h e) = b.

Record table_ok (t : Table) : Prop := {
  ok_length : (0 < length (table t))%nat;
  ok_placed : placed (table t);
  ok_keys : NoDup (e_k <$> entries t);
  ok_count : entrycount t = Z.of_nat (length (entries t)) }.

Lemma bucket_lt n h : (0 < n)%nat -> (bucket n h < n)%nat.
Proof. intros Hn. unfold bucket, index_for. pose proof (Z.mod_pos_bound h (Z.of_nat n) ltac:(lia)). lia. Qed.

Lemma concat_split (l : list (list Entry)) b c : l !! b = Some c ->
  concat l = concat (take b l) ++ c ++ concat (drop (S b) l).
Proof. intros Hb. rewrite <-(take_drop_middle l b c Hb) at 1. by rewrite concat_app. Qed.

Lemma concat_insert (l : list (list Entry)) b c : (b < length l)%nat ->
  concat (<[b := c]> l) = concat (take b l) ++ c ++ concat (drop (S b) l).
Proof. intros Hb. rewrite insert_take_drop by done. by rewrite concat_app. Qed.

Lemma concat_move l e : (0 < length l)%nat -> concat (move_entry l e) ≡ₚ e :: concat l.
Proof.
  intros Hl. unfold move_entry. pose proof (bucket_lt (length l) (e_h e) Hl) as Hb.
  destruct (lookup_lt_is_Some_2 l _ Hb) as [c Hc]. 
  assert (E : alter (cons e) (bucket (length l) (e_h e)) l = <[bucket (length l) (e_h e) := e :: c]> l).
  { apply list_eq. intros i. destruct (decide (bucket (length l) (e_h e) = i)) as [<-|Hne].
    - rewrite list_lookup_alter_eq, Hc, list_lookup_insert_eq by done. done.
    - by rewrite list_lookup_alter_ne, list_lookup_insert_ne. }
  rewrite E, concat_insert, (concat_split l _ c Hc) by done. cbn [app]. symmetry. apply Permutation_middle.
Qed.

Lemma length_move l e : length (move_entry l e) = length l.
Proof. apply length_alter. Qed.

Lemma placed_move l e : placed l -> e_h e = enhanced_hash (e_k e) -> placed (move_entry l e).
Proof.
  intros Hl He b c x Hb Hx. rewrite length_move. unfold move_entry in Hb.
  destruct (decide (bucket (length l) (e_h e) = b)) as [<-|Hne].
  - rewrite list_lookup_alter_eq in Hb. destruct (l !! _) as [c0|] eqn:E; [|done]. injection Hb as <-.
    apply elem_of_cons in Hx as [->|Hx]; [done|]. by eapply Hl.
  - rewrite list_lookup_alter_ne in Hb by done. by eapply Hl.
Qed.

Lemma moved_all es : forall l, (0 < length l)%nat -> placed l -> Forall (fun e => e_h e = enhanced_hash (e_k e)) es ->
  length (foldl move_entry l es) = length l /\ placed (foldl move_entry l es) /\ concat (foldl move_entry l es) ≡ₚ es ++ concat l.
Proof.
  induction es as [|e es IH]; intros l Hl Hp Hes; [done|]. apply Forall_cons in Hes as [He Hes]. cbn [foldl].
  destruct (IH (move_entry l e)) as (H1 & H2 & H3); [by rewrite length_move|by apply placed_move|done|].
  rewrite length_move in H1. split_and!; [done..|]. rewrite H3, concat_move by done. symmetry. apply Permutation_middle.
Qed.

Lemma placed_empty n : placed (replicate n []).
Proof. intros b c e Hb He. apply lookup_replicate in Hb as [-> _]. by apply elem_of_nil in He. Qed.

Lemma concat_empty n : concat (replicate n (@nil Entry)) = [].
Proof. by induction n. Qed.

Lemma elem_of_concat (l : list (list Entry)) e : e ∈ concat l <-> exists b c, l !! b = Some c /\ e ∈ c.
Proof.
  rewrite list_elem_of_In, in_concat. split.
  - intros (c & Hc & He). apply list_elem_of_In, list_elem_of_lookup in Hc as [b Hb]. exists b, c. by rewrite list_elem_of_In.
  - intros (b & c & Hb & He). exists c. split; [|by apply list_elem_of_In]. apply list_elem_of_In. by eapply list_elem_of_lookup_2.
Qed.

Lemma placed_hash t e : placed (table t) -> e ∈ entries t -> e_h e = enhanced_hash (e_k e).
Proof.
  intros Hp (b & c & Hb & He)%elem_of_concat. by destruct (Hp b c e Hb He).
Qed.

Lemma expand_ok t : table_ok t -> (S (primeindex t) < prime_table_length)%nat ->
  table_ok (arg_hashtable_expand t) /\ entries (arg_hashtable_expand t) ≡ₚ entries t.
Proof.
  intros [Hl Hp Hk Hc] Hpi. unfold arg_hashtable_expand. rewrite (proj2 (Nat.eqb_neq _ _)) by (unfold prime_table_length in *; lia).
  assert (Hsize : (0 < Z.to_nat (nth (S (primeindex t)) primes 0%Z))%nat).
  { assert (Hall : Forall (fun p => 0 < p) primes) by (by repeat constructor).
    rewrite (Forall_nth _ 0) in Hall. specialize (Hall (S (primeindex t)) ltac:(unfold prime_table_length in *; lia)). lia. }
  destruct (moved_all (concat (table t)) (replicate (Z.to_nat (nth (S (primeindex t)) primes 0)) [])) as (H1 & H2 & H3).
  - by rewrite length_replicate.
  - apply placed_empty.
  - apply Forall_forall. intros e He. by apply (placed_hash t).
  - rewrite concat_empty, app_nil_r in H3. unfold entries in *. cbn [table]. split; [|done].
    split; cbn [table entrycount]; unfold entries; cbn [table].
    + by rewrite H1, length_replicate.
    + done.
    + by rewrite H3.
    + by rewrite H3.
Qed.

Context `{!Countable K}.

(** The map a table stands for. *)
Definition contents_of (t : Table) : gmap K V := list_to_map ((fun e => (e_k e, e_v e)) <$> entries t).

Lemma pairs_keys l : ((fun e => (e_k e, e_v e)) <$> l).*1 = e_k <$> l.
Proof. rewrite <-list_fmap_compose. done. Qed.

Lemma contents_perm t t' : NoDup (e_k <$> entries t) -> entries t ≡ₚ entries t' -> contents_of t = contents_of t'.
Proof.
  intros Hk Hp. unfold contents_of. apply list_to_map_proper; [by rewrite pairs_keys|by rewrite Hp].
Qed.

Lemma contents_lookup t k v : NoDup (e_k <$> entries t) ->
  contents_of t !! k = Some v <-> exists h, mkEntry h k v ∈ entries t.
Proof.
  intros Hk. unfold contents_of. rewrite <-elem_of_list_to_map by (by rewrite pairs_keys).
  rewrite list_elem_of_fmap. split.
  - intros ([h k' v'] & [= -> ->] & He). eauto.
  - intros [h He]. by exists (mkEntry h k v).
Qed.

Lemma insert_ok t k v : table_ok t -> contents_of t !! k = None -> Z.of_nat (length (entries t)) < 2 ^ 32 - 1 ->
  (primeindex t < prime_table_length)%nat ->
  table_ok (arg_hashtable_insert t k v) /\ contents_of (arg_hashtable_insert t k v) = <[k := v]> (contents_of t) /\
  (primeindex (arg_hashtable_insert t k v) < prime_table_length)%nat.
Proof.
  intros Hok Hfresh Hsmall Hpi. unfold arg_hashtable_insert.
  set (t1 := if u32 (entrycount t + 1) >? loadlimit t then arg_hashtable_expand t else t).
  assert (H1 : table_ok t1 /\ entries t1 ≡ₚ entries t /\ (primeindex t1 < prime_table_length)%nat /\ entrycount t1 = entrycount t).
  { unfold t1. destruct (_ >? _); [|done]. destruct (decide (primeindex t = prime_table_length - 1)%nat) as [E|E].
    - unfold arg_hashtable_expand. by rewrite E, Nat.eqb_refl.
    - destruct (expand_ok t Hok ltac:(unfold prime_table_length in *; lia)) as [? ?]. split_and!; [done..| |];
        unfold arg_hashtable_expand; rewrite (proj2 (Nat.eqb_neq _ _)) by done; cbn; [|done].
      unfold prime_table_length in *. cbn in *. lia. }
  clearbody t1. destruct H1 as ([Hl Hp Hk Hc] & Hperm & Hpi1 & Hcnt). set (e := mkEntry _ _ _).
  pose proof (concat_move (table t1) e Hl) as Hm. fold (entries t1) in Hm.
  assert (Hnew : NoDup (e_k <$> e :: entries t1)).
  { rewrite fmap_cons. apply NoDup_cons. split; [|done]. cbn. intros ([h k' v'] & -> & Hin)%list_elem_of_fmap.
    cbn in *. rewrite Hperm in Hin. assert (Hsome : contents_of t !! k' = Some v').
    { apply contents_lookup; [|by exists h]. rewrite <-Hperm. done. }
    rewrite Hsome in Hfresh. done. }
  split_and!; [|unfold contents_of, entries; cbn [table]|done].
  - split; unfold entries; cbn [table entrycount].
    + by rewrite length_move.
    + by apply placed_move.
    + by rewrite Hm.
    + rewrite Hm. cbn [length]. rewrite Hcnt, (ok_count t Hok). unfold u32. rewrite wrap_small by lia. rewrite Hperm. lia.
  - rewrite (list_to_map_proper _ ((fun e => (e_k e, e_v e)) <$> e :: entries t)).
    + done.
    + rewrite pairs_keys, Hm. done.
    + by rewrite Hm, Hperm.
Qed.

(** The chain a key belongs to has all entries of the key. *)
Lemma chain_has t e : table_ok t -> e ∈ entries t -> e ∈ chain_of t (enhanced_hash (e_k e)).
Proof.
  intros Hok (b & c & Hb & He)%elem_of_concat. destruct (ok_placed t Hok b c e Hb He) as [Hh Hbk].
  unfold chain_of. rewrite <-Hh, Hbk. by rewrite (nth_lookup_Some _ _ _ _ Hb).
Qed.

Lemma chain_lookup t k : table_ok t ->
  table t !! bucket (length (table t)) (enhanced_hash k) = Some (chain_of t (enhanced_hash k)).
Proof.
  intros Hok. destruct (lookup_lt_is_Some_2 (table t) (bucket (length (table t)) (enhanced_hash k))) as [c Hc].
  { apply bucket_lt, (ok_length t Hok). }
  unfold chain_of. by rewrite (nth_lookup_Some _ _ _ _ Hc).
Qed.

Lemma chain_in t k e : table_ok t -> e ∈ chain_of t (enhanced_hash k) -> e ∈ entries t.
Proof.
  intros Hok He. apply elem_of_concat. exists (bucket (length (table t)) (enhanced_hash k)), (chain_of t (enhanced_hash k)).
  by rewrite (chain_lookup t k Hok).
Qed.

Lemma matches_spec k e : e_h e = enhanced_hash (e_k e) -> matches (enhanced_hash k) k e = bool_decide (k = e_k e).
Proof.
  intros Hh. unfold matches. case_bool_decide as Hk; [|by rewrite andb_false_r]. subst k. by rewrite Hh, Z.eqb_refl.
Qed.

(** The place of a key in a chain. *)
Lemma chain_split t k : table_ok t ->
  match contents_of t !! k with
  | Some v => exists c1 h c2, chain_of t (enhanced_hash k) = c1 ++ mkEntry h k v :: c2 /\
      Forall (fun e => matches (enhanced_hash k) k e = false) c1 /\ matches (enhanced_hash k) k (mkEntry h k v) = true
  | None => Forall (fun e => matches (enhanced_hash k) k e = false) (chain_of t (enhanced_hash k))
  end.
Proof.
  intros Hok. assert (Hm : forall e, e ∈ chain_of t (enhanced_hash k) -> matches (enhanced_hash k) k e = bool_decide (k = e_k e)).
  { intros e He. apply matches_spec, (placed_hash t); [apply Hok|]. by eapply chain_in. }
  destruct (contents_of t !! k) as [v|] eqn:E.
  - apply contents_lookup in E as [h He]; [|apply Hok]. pose proof (chain_has t _ Hok He) as Hin. cbn in Hin.
    apply list_elem_of_split in Hin as (c1 & c2 & Hc). exists c1, h, c2. split; [done|].
    assert (Hnd : NoDup (e_k <$> chain_of t (enhanced_hash k))).
    { pose proof (ok_keys t Hok) as Hnd. unfold entries in Hnd. rewrite (concat_split _ _ _ (chain_lookup t k Hok)) in Hnd.
      rewrite !fmap_app in Hnd. apply NoDup_app in Hnd as (_ & _ & Hnd). by apply NoDup_app in Hnd as (Hnd & _). }
    rewrite Hc in Hnd, Hm. rewrite fmap_app, fmap_cons in Hnd. apply NoDup_app in Hnd as (_ & Hno & _). split.
    + apply Forall_forall. intros e Hin. rewrite Hm by (apply elem_of_app; by left). apply bool_decide_false. intros ->.
      apply (Hno (e_k e)); [apply list_elem_of_fmap; eauto|cbn; by left].
    + rewrite Hm by (apply elem_of_app; right; by left). by apply bool_decide_true.
  - apply Forall_forall. intros e He. rewrite Hm by done. apply bool_decide_false. intros ->.
    assert (Hs : contents_of t !! e_k e = Some (e_v e)); [|congruence].
    apply contents_lookup; [apply Hok|]. exists (e_h e). destruct e. by eapply chain_in.
Qed.

Lemma search_chain_split h k c1 e c2 : Forall (fun e => matches h k e = false) c1 -> matches h k e = true ->
  search_chain h k (c1 ++ e :: c2) = Some (e_v e) /\ remove_chain h k (c1 ++ e :: c2) = Some (c1 ++ c2) /\
  forall v, change_chain h k v (c1 ++ e :: c2) = Some (c1 ++ mkEntry (e_h e) (e_k e) v :: c2).
Proof.
  intros Hc He. induction Hc as [|x c1 Hx Hc IH]; cbn; [by rewrite He|]. rewrite Hx. destruct IH as (-> & -> & IH).
  split_and!; [done..|]. intros v. by rewrite IH.
Qed.

Lemma search_chain_none h k c : Forall (fun e => matches h k e = false) c ->
  search_chain h k c = None /\ remove_chain h k c = None /\ forall v, change_chain h k v c = None.
Proof.
  induction 1 as [|x c Hx Hc IH]; [done|]. cbn. rewrite Hx. destruct IH as (-> & -> & IH). split_and!; [done..|].
  intros v. by rewrite IH.
Qed.

Lemma search_is_lookup t k : table_ok t -> arg_hashtable_search t k = contents_of t !! k.
Proof.
  intros Hok. unfold arg_hashtable_search. pose proof (chain_split t k Hok) as Hs. destruct (contents_of t !! k) as [v|].
  - destruct Hs as (c1 & h & c2 & -> & H1 & H2). by apply search_chain_split.
  - by apply search_chain_none.
Qed.

(** Replacing a chain by one with some of its entries, or with the same keys. *)
Lemma replace_chain t k c n : table_ok t ->
  (forall e, e ∈ c -> e_h e = enhanced_hash (e_k e) /\ bucket (length (table t)) (e_h e) = bucket (length (table t)) (enhanced_hash k)) ->
  let t' := mkTable (<[bucket (length (table t)) (enhanced_hash k) := c]> (table t)) n (primeindex t) (loadlimit t) in
  NoDup (e_k <$> entries t') -> n = Z.of_nat (length (entries t')) -> table_ok t'.
Proof.
  intros Hok Hc t' Hnd Hn. split; cbn [table t' entrycount]; rewrite ?length_insert; [apply Hok| |done|done].
  intros b c' e Hb He. rewrite length_insert. apply list_lookup_insert_Some in Hb as [(<- & <- & _)|[_ Hb]]; [by apply Hc|].
  by eapply (ok_placed t Hok).
Qed.

Lemma chain_placed t k e : table_ok t -> e ∈ chain_of t (enhanced_hash k) ->
  e_h e = enhanced_hash (e_k e) /\ bucket (length (table t)) (e_h e) = bucket (length (table t)) (enhanced_hash k).
Proof. intros Hok He. by eapply (ok_placed t Hok); [apply chain_lookup|]. Qed.

Lemma perm_mid (a b c d : list Entry) x : a ++ (b ++ x :: c) ++ d ≡ₚ x :: a ++ b ++ c ++ d.
Proof. rewrite <-(app_assoc b), app_assoc. cbn [app]. rewrite <-Permutation_middle. by rewrite <-app_assoc. Qed.

Lemma remove_ok t k : table_ok t -> Z.of_nat (length (entries t)) < 2 ^ 32 ->
  table_ok (arg_hashtable_remove t k) /\ contents_of (arg_hashtable_remove t k) = delete k (contents_of t).
Proof.
  intros Hok Hsmall. unfold arg_hashtable_remove. pose proof (chain_split t k Hok) as Hs.
  destruct (contents_of t !! k) as [v|] eqn:E.
  2:{ apply search_chain_none in Hs as (_ & -> & _). split; [done|]. by rewrite delete_id. }
  destruct Hs as (c1 & h & c2 & Hc & H1 & H2). rewrite Hc. destruct (search_chain_split _ _ _ _ c2 H1 H2) as (_ & -> & _).
  set (t' := mkTable _ _ _ _). pose proof (chain_lookup t k Hok) as Hl. rewrite Hc in Hl.
  assert (Hp : entries t ≡ₚ mkEntry h k v :: entries t').
  { unfold entries, t'. cbn [table]. rewrite (concat_split _ _ _ Hl), concat_insert by (apply bucket_lt, Hok). rewrite perm_mid. by rewrite <-(app_assoc c1). }
  assert (Hnd : NoDup (e_k <$> mkEntry h k v :: entries t')) by (rewrite <-Hp; apply Hok).
  rewrite fmap_cons in Hnd. apply NoDup_cons in Hnd as [Hk Hnd]. split.
  - apply (replace_chain t k (c1 ++ c2)); [done| |done|].
    + intros e He. apply (chain_placed t k e Hok). rewrite Hc. set_solver.
    + fold t'. rewrite (ok_count t Hok), Hp. cbn [length]. unfold u32. rewrite wrap_small; [lia|]. rewrite Hp in Hsmall. cbn [length] in Hsmall. lia.
  - unfold contents_of. symmetry.
    rewrite (list_to_map_proper (fmap _ (entries t)) ((fun e => (e_k e, e_v e)) <$> mkEntry h k v :: entries t')); [|rewrite pairs_keys; apply Hok|by rewrite Hp].
    rewrite fmap_cons. cbn [e_k e_v list_to_map foldr fst snd]. apply delete_insert_id.
    apply not_elem_of_list_to_map_1. by rewrite pairs_keys.
Qed.

Lemma change_ok t k v : table_ok t ->
  let '(found, t') := arg_hashtable_change t k v in
  found = bool_decide (is_Some (contents_of t !! k)) /\ table_ok t' /\
  contents_of t' = (if found then <[k := v]> (contents_of t) else contents_of t).
Proof.
  intros Hok. unfold arg_hashtable_change. pose proof (chain_split t k Hok) as Hs.
  destruct (contents_of t !! k) as [v0|] eqn:E.
  2:{ apply search_chain_none in Hs as (_ & _ & Hs). by rewrite Hs. }
  destruct Hs as (c1 & h & c2 & Hc & H1 & H2). rewrite Hc. destruct (search_chain_split _ _ _ _ c2 H1 H2) as (_ & _ & Hch).
  rewrite Hch. cbn [e_h e_k]. set (t' := mkTable _ _ _ _). pose proof (chain_lookup t k Hok) as Hl. rewrite Hc in Hl.
  set (rest := concat (take (bucket (length (table t)) (enhanced_hash k)) (table t)) ++ c1 ++ c2 ++
               concat (drop (S (bucket (length (table t)) (enhanced_hash k))) (table t))).
  assert (Hp : entries t ≡ₚ mkEntry h k v0 :: rest).
  { unfold entries, rest. rewrite (concat_split _ _ _ Hl). apply perm_mid. }
  assert (Hp' : entries t' ≡ₚ mkEntry h k v :: rest).
  { unfold entries, t', rest. cbn [table]. rewrite concat_insert by (apply bucket_lt, Hok). apply perm_mid. }
  assert (Hnd : NoDup (e_k <$> mkEntry h k v0 :: rest)) by (rewrite <-Hp; apply Hok).
  assert (Hnd' : NoDup (e_k <$> entries t')) by (rewrite Hp'; done).
  split_and!; [symmetry; by apply bool_decide_true| |].
  - apply (replace_chain t k (c1 ++ mkEntry h k v :: c2)); [done| |done|].
    + intros e He. assert (Hcase : e = mkEntry h k v \/ e ∈ chain_of t (enhanced_hash k)) by (rewrite Hc; set_solver).
      destruct Hcase as [->|Hin]; [|by apply (chain_placed t k e Hok)].
      apply (chain_placed t k (mkEntry h k v0) Hok). rewrite Hc. set_solver.
    + fold t'. rewrite (ok_count t Hok), Hp, Hp'. done.
  - unfold contents_of. rewrite (list_to_map_proper (fmap _ (entries t')) ((fun e => (e_k e, e_v e)) <$> mkEntry h k v :: rest)); [|by rewrite pairs_keys|by rewrite Hp'].
    rewrite (list_to_map_proper (fmap _ (entries t)) ((fun e => (e_k e, e_v e)) <$> mkEntry h k v0 :: rest)); [|rewrite pairs_keys; apply Hok|by rewrite Hp].
    rewrite !fmap_cons. cbn [e_k e_v list_to_map foldr fst snd]. by rewrite insert_insert_eq.
Qed.

Lemma first_above_some l : forall i m, Exists (fun p => m < p) l ->
  exists j p, first_above l i m = Some (j, p) /\ p ∈ l /\ (j < i + length l)%nat.
Proof.
  induction l as [|p l IH]; intros i m Hex; [by apply Exists_nil in Hex|]. cbn [first_above length].
  destruct (Z.gtb_spec p m) as [Hgt|Hle]; [exists i, p; split_and!; [done|by left|lia]|].
  apply Exists_cons in Hex as [?|Hex]; [lia|]. destruct (IH (S i) m Hex) as (j & q & -> & Hq & Hj).
  exists j, q. split_and!; [done|by right|lia].
Qed.

Lemma create_ok minsize : minsize <= 2 ^ 30 ->
  exists t, arg_hashtable_create minsize = Some t /\ table_ok t /\ contents_of t = ∅ /\ (primeindex t < prime_table_length)%nat.
Proof.
  intros Hm. unfold arg_hashtable_create. change (Z.shiftl 1 30) with (2 ^ 30).
  destruct (Z.gtb_spec minsize (2 ^ 30)) as [Hgt|_]; [lia|].
  destruct (first_above_some primes 0 minsize) as (j & p & -> & Hp & Hj).
  { apply Exists_exists. exists 1610612741. split; [|lia]. unfold primes. repeat first [by left | right]. }
  cbn [default]. eexists. split; [done|]. assert (Hpos : 0 < p).
  { assert (Hall : Forall (fun p => 0 < p) primes) by (by repeat constructor). rewrite Forall_forall in Hall. by apply Hall. }
  unfold contents_of, entries. cbn [table primeindex]. rewrite concat_empty. split_and!; [|done|done].
  split; unfold entries; cbn [table entrycount]; rewrite ?concat_empty.
  - rewrite length_replicate. lia.
  - apply placed_empty.
  - constructor.
  - done.
Qed.

(** A history of a table: no key is inserted while it is there. *)
Inductive hop := HInsert (k : K) (v : V) | HRemove (k : K) | HChange (k : K) (v : V).

Definition hstep (t : Table) (o : hop) : Table :=
  match o with
  | HInsert k v => arg_hashtable_insert t k v
  | HRemove k => arg_hashtable_remove t k
  | HChange k v => (arg_hashtable_change t k v).2
  end.

Definition mstep_ (m : gmap K V) (o : hop) : gmap K V :=
  match o with
  | HInsert k v => <[k := v]> m
  | HRemove k => delete k m
  | HChange k v => if m !! k is Some _ then <[k := v]> m else m
  end.

Fixpoint no_duplicates (m : gmap K V) (l : list hop) : Prop :=
  match l with
  | [] => True
  | o :: l => match o with HInsert k _ => m !! k = None | _ => True end /\ no_duplicates (mstep_ m o) l
  end.

Lemma size_entries t : table_ok t -> size (contents_of t) = length (entries t).
Proof.
  intros Hok. unfold contents_of. rewrite map_size_list_to_map by (rewrite pairs_keys; apply Hok). apply length_fmap.
Qed.

Lemma hstep_ok t o : table_ok t -> (primeindex t < prime_table_length)%nat ->
  match o with HInsert k _ => contents_of t !! k = None | _ => True end -> Z.of_nat (size (contents_of t)) < 2 ^ 32 - 1 ->
  table_ok (hstep t o) /\ (primeindex (hstep t o) < prime_table_length)%nat /\ contents_of (hstep t o) = mstep_ (contents_of t) o.
Proof.
  intros Hok Hpi Hfresh Hsmall. rewrite size_entries in Hsmall by done. destruct o as [k v|k|k v]; cbn [hstep mstep_].
  - destruct (insert_ok t k v Hok Hfresh Hsmall Hpi) as (? & ? & ?). done.
  - destruct (remove_ok t k Hok ltac:(lia)) as (? & ?). split_and!; [done| |done].
    unfold arg_hashtable_remove. by destruct (remove_chain _ _ _).
  - pose proof (change_ok t k v Hok) as Hc. unfold arg_hashtable_change in *. destruct (change_chain _ _ _ _); cbn [snd].
    + destruct Hc as (Hf & ? & ->). split_and!; [done..|]. symmetry in Hf. apply bool_decide_eq_true in Hf as [v0 ->]. done.
    + destruct Hc as (Hf & ? & _). split_and!; [done..|]. symmetry in Hf. apply bool_decide_eq_false in Hf.
      destruct (contents_of t !! k) eqn:E; [|done]. destruct Hf. eauto.
Qed.

Lemma mstep_size m o : (size (mstep_ m o) <= S (size m))%nat.
Proof.
  assert (Hins : forall k (v : V), (size (<[k := v]> m) <= S (size m))%nat).
  { intros k v. rewrite map_size_insert. destruct (m !! k); unfold id; lia. }
  destruct o as [k v|k|k v]; cbn; [apply Hins| |destruct (m !! k); [apply Hins|lia]].
  rewrite map_size_delete. destruct (m !! k); unfold id; lia.
Qed.

Lemma hrun_ok l : forall t, table_ok t -> (primeindex t < prime_table_length)%nat -> no_duplicates (contents_of t) l ->
  Z.of_nat (size (contents_of t)) + Z.of_nat (length l) < 2 ^ 32 ->
  table_ok (foldl hstep t l) /\ contents_of (foldl hstep t l) = foldl mstep_ (contents_of t) l.
Proof.
  induction l as [|o l IH]; intros t Hok Hpi Hnd Hlen; [done|]. destruct Hnd as [Hf Hnd]. cbn [foldl length] in *.
  destruct (hstep_ok t o Hok Hpi Hf ltac:(lia)) as (H1 & H2 & H3). rewrite <-H3. apply IH; [done..|by rewrite H3|].
  rewrite H3. pose proof (mstep_size (contents_of t) o). lia.
Qed.

(** The hash table is a finite map: whatever the hash function, the size asked for and the
    limit at which it grows, after any history in which no key is inserted while it is there,
    searching a key gives its value, or nothing, as in the map the same operations build, and
    the count is the number of its keys. *)
Theorem hashtable_is_map (minsize : Z) (l : list hop) :
  minsize <= 2 ^ 30 -> no_duplicates ∅ l -> Z.of_nat (length l) < 2 ^ 32 ->
  exists t, arg_hashtable_create minsize = Some t /\
    let m := foldl mstep_ ∅ l in
    (forall k, arg_hashtable_search (foldl hstep t l) k = m !! k) /\
    arg_hashtable_count (foldl hstep t l) = Z.of_nat (size m).
Proof.
  intros Hm Hnd Hlen. destruct (create_ok minsize Hm) as (t & Ht & Hok & Hc & Hpi). exists t. split; [done|].
  destruct (hrun_ok l t Hok Hpi) as [H1 H2]; [by rewrite Hc|rewrite Hc, map_size_empty; lia|]. rewrite Hc in H2. cbn zeta.
  rewrite <-H2. split; [intros k; by apply search_is_lookup|]. unfold arg_hashtable_count. by rewrite (ok_count _ H1), size_entries.
Qed.

(** ** What an iterator visits *)

Definition valid (l : list (list Entry)) (i : Itr) : Prop :=
  match i with None => True | Some (b, p) => (p < length (nth b l []))%nat end.

(** The entries from the iterator on. *)
Definition rest (l : list (list Entry)) (i : Itr) : list Entry :=
  match i with None => [] | Some (b, p) => drop p (nth b l []) ++ concat (drop (S b) l) end.

Lemma next_bucket_rest l : forall pre, 
  valid (pre ++ l) (next_bucket l (length pre)) /\ rest (pre ++ l) (next_bucket l (length pre)) = concat l.
Proof.
  induction l as [|c l IH]; intros pre; [done|]. destruct c as [|e c]; cbn [next_bucket].
  - specialize (IH (pre ++ [[]])). rewrite length_app, Nat.add_1_r, <-app_assoc in IH. exact IH.
  - cbn [valid rest]. rewrite app_nth2, Nat.sub_diag by lia. cbn [nth length drop concat app]. split; [lia|].
    f_equal. f_equal. rewrite drop_app_ge by lia. by replace (S (length pre) - length pre)%nat with 1%nat by lia.
Qed.

Lemma next_bucket_drop l b : (b <= length l)%nat ->
  valid l (next_bucket (drop b l) b) /\ rest l (next_bucket (drop b l) b) = concat (drop b l).
Proof.
  intros Hb. pose proof (next_bucket_rest (drop b l) (take b l)) as H. rewrite take_drop, length_take, Nat.min_l in H by lia. exact H.
Qed.

Lemma next_bucket_other l l' b : drop b l = drop b l' -> (b <= length l)%nat -> (b <= length l')%nat ->
  valid l' (next_bucket (drop b l) b) /\ rest l' (next_bucket (drop b l) b) = concat (drop b l).
Proof. intros E _ Hb. rewrite E. by apply next_bucket_drop. Qed.

Lemma nth_nonempty {A} (l : list (list A)) b p : (p < length (nth b l []))%nat -> l !! b = Some (nth b l []) /\ (b < length l)%nat.
Proof.
  intros Hp. destruct (decide (b < length l)%nat) as [Hb|Hb]; [|rewrite nth_overflow in Hp by lia; cbn in Hp; lia].
  split; [|done]. destruct (lookup_lt_is_Some_2 l b Hb) as [c Hc]. by rewrite (nth_lookup_Some _ _ _ _ Hc).
Qed.

Lemma advance_rest t i e : valid (table t) i -> arg_hashtable_itr_entry t i = Ret e ->
  rest (table t) i = e :: rest (table t) (arg_hashtable_itr_advance t i) /\ valid (table t) (arg_hashtable_itr_advance t i).
Proof.
  intros Hv. destruct i as [[b p]|]; [|done]. cbn [arg_hashtable_itr_entry]. cbn [valid] in Hv.
  destruct (nth b (table t) [] !! p) as [e'|] eqn:E; [|done]. intros [= ->]. destruct (nth_nonempty _ _ _ Hv) as [_ Hb].
  cbn [arg_hashtable_itr_advance rest]. rewrite (drop_S _ _ _ E). destruct (Nat.ltb_spec (S p) (length (nth b (table t) []))) as [Hlt|Hge].
  - done.
  - destruct (next_bucket_drop (table t) (S b) ltac:(lia)) as [H1 H2]. rewrite H2. split; [|done]. by rewrite drop_ge by lia.
Qed.

Lemma entry_exists t i : valid (table t) i -> i <> None -> exists e, arg_hashtable_itr_entry t i = Ret e.
Proof.
  intros Hv Hi. destruct i as [[b p]|]; [|done]. cbn in *. destruct (lookup_lt_is_Some_2 _ _ Hv) as [e ->]. eauto.
Qed.

(** The loop over a table: all entries from the iterator on. *)
Fixpoint visit (fuel : nat) (t : Table) (i : Itr) : outcome (list Entry) :=
  match i with
  | None => Ret []
  | Some _ =>
      match fuel with
      | O => Fault OutOfFuel
      | S fuel =>
          e ← arg_hashtable_itr_entry t i;
          l ← visit fuel t (arg_hashtable_itr_advance t i);
          Ret (e :: l)
      end
  end.

Lemma visit_rest t fuel : forall i, valid (table t) i -> (length (rest (table t) i) <= fuel)%nat -> visit fuel t i = Ret (rest (table t) i).
Proof.
  induction fuel as [|fuel IH]; intros i Hv Hf; (destruct i as [i|]; [|done]);
    (destruct (entry_exists t (Some i) Hv ltac:(done)) as [e He]); destruct (advance_rest t (Some i) e Hv He) as [Hr Hv'].
  - rewrite Hr in Hf. cbn in Hf. lia.
  - cbn [visit]. rewrite He, outcome_bind_ret, Hr. rewrite IH; [done|done|]. apply (f_equal length) in Hr. cbn [length] in Hr. lia.
Qed.

(** An iterator visits every entry of the table exactly once, and then ends. *)
Theorem iterator_visits_all (t : Table) (fuel : nat) : table_ok t -> (length (entries t) <= fuel)%nat ->
  visit fuel t (arg_hashtable_itr_create t) = Ret (entries t).
Proof.
  intros Hok Hf. unfold arg_hashtable_itr_create. destruct (Z.eqb_spec (entrycount t) 0) as [E|E].
  - rewrite (ok_count t Hok) in E. destruct (entries t) eqn:Ee; [|cbn in E; lia]. by destruct fuel.
  - destruct (next_bucket_rest (table t) []) as [Hv Hr]. cbn in Hv, Hr. rewrite visit_rest; [by rewrite Hr|done|]. by rewrite Hr.
Qed.

(** Removing the entry an iterator is at takes that entry alone out of the table, and the
    iterator goes on with the one that followed it. *)
Theorem iterator_removes_one (t : Table) (b p : nat) (e : Entry) :
  valid (table t) (Some (b, p)) -> arg_hashtable_itr_entry t (Some (b, p)) = Ret e ->
  let '(t', i) := arg_hashtable_itr_remove t b p in
  exists before, entries t = before ++ e :: rest (table t') i /\ entries t' = before ++ rest (table t') i /\ valid (table t') i.
Proof.
  intros Hv He. cbn in Hv, He. destruct (nth_nonempty _ _ _ Hv) as [Hb Hlen]. set (c := nth b (table t) []) in *.
  destruct (c !! p) as [e'|] eqn:Ep; [|done]. injection He as ->. unfold arg_hashtable_itr_remove. fold c. cbn zeta.
  exists (concat (take b (table t)) ++ take p c). unfold entries. cbn [table].
  rewrite (concat_split _ _ _ Hb), concat_insert by done.
  assert (Hnth : nth b (<[b := take p c ++ drop (S p) c]> (table t)) [] = take p c ++ drop (S p) c).
  { rewrite (nth_lookup_Some _ _ _ (take p c ++ drop (S p) c)); [done|]. by rewrite list_lookup_insert_eq. }
  assert (Hd : drop (S b) (<[b := take p c ++ drop (S p) c]> (table t)) = drop (S b) (table t)) by (apply drop_insert_lt; lia).
  match goal with |- context [rest _ ?i] => set (it := i) end.
  assert (Hr : rest (<[b := take p c ++ drop (S p) c]> (table t)) it = drop (S p) c ++ concat (drop (S b) (table t)) /\
    valid (<[b := take p c ++ drop (S p) c]> (table t)) it).
  { unfold it. destruct (Nat.ltb_spec (S p) (length c)) as [Hlt|Hge].
    - cbn [rest valid]. rewrite Hnth, Hd. rewrite drop_app_ge, length_take by (rewrite length_take; lia).
      replace (p - p `min` length c)%nat with 0%nat by lia. rewrite drop_0. split; [done|].
      rewrite length_app, length_take, length_drop. lia.
    - destruct (next_bucket_other (table t) (<[b := take p c ++ drop (S p) c]> (table t)) (S b)) as [H1 H2]; [done|lia|rewrite length_insert; lia|].
      split; [|exact H1]. rewrite H2. by rewrite (drop_ge c) by lia. }
  destruct Hr as [Hr Hv']. rewrite Hr. split_and!; [|by rewrite <-!app_assoc|done].
  rewrite <-(take_drop_middle c p e Ep) at 1. by rewrite <-!app_assoc.
Qed.

(** A key that is inserted again is found with its last value as long as the table does not
    grow. *)
Theorem last_duplicate_found (t : Table) (k : K) (v : V) : (0 < length (table t))%nat -> u32 (entrycount t + 1) <= loadlimit t ->
  arg_hashtable_search (arg_hashtable_insert t k v) k = Some v.
Proof.
  intros Hl Hload. unfold arg_hashtable_insert. destruct (Z.gtb_spec (u32 (entrycount t + 1)) (loadlimit t)); [lia|].
  unfold arg_hashtable_search, chain_of. cbn [table]. rewrite length_move. unfold move_entry. cbn [e_h].
  pose proof (bucket_lt (length (table t)) (enhanced_hash k) Hl) as Hb. destruct (lookup_lt_is_Some_2 _ _ Hb) as [c Hc].
  rewrite (nth_lookup_Some _ _ _ (mkEntry (enhanced_hash k) k v :: c)) by (by rewrite list_lookup_alter_eq, Hc).
  cbn. unfold matches. cbn. by rewrite Z.eqb_refl, bool_decide_true.
Qed.
End table.

(** * Subcommands *)

Definition ARG_CMD_NAME_LEN : nat := 100.
Definition ARG_CMD_DESCRIPTION_LEN : nat := 256.

(** [arg_cmd_info_t]: functions are numbers. *)
Record arg_cmd_info_t := mkCmd { cmd_name : bytes; cmd_description : bytes; cmd_proc : nat }.

(** [src/deps/argtable/argtable3.c 4620-4629, hash_key] Characters are signed. *)
Definition hash_key (key : bytes) : Z := foldl (fun hash c => u32 (u32 (u32 (Z.shiftl hash 5) + hash) + schar c)) 5381 key.

Section commands.
Context (load_limit : Z -> Z).

Notation Commands := (Table (K := bytes) (V := arg_cmd_info_t)).

(** [src/deps/argtable/argtable3.c 4637-4639, arg_cmd_init] *)
Definition arg_cmd_init : option Commands := arg_hashtable_create load_limit 32.

(** [src/deps/argtable/argtable3.c 4641-4643, arg_cmd_uninit] What is freed. *)
Definition arg_cmd_uninit (t : Commands) : list bytes * list arg_cmd_info_t := arg_hashtable_destroy t true.

(** [src/deps/argtable/argtable3.c 4701-4703, arg_cmd_info] *)
Definition arg_cmd_info (t : Commands) (name : bytes) : option arg_cmd_info_t := arg_hashtable_search hash_key t name.

(** [src/deps/argtable/argtable3.c 4645-4686, arg_cmd_register] *)
Definition arg_cmd_register (t : Commands) (name : bytes) (proc : nat) (description : bytes) : outcome Commands :=
  CHECK (length name <? ARG_CMD_NAME_LEN)%nat ;;
  CHECK (length description <? ARG_CMD_DESCRIPTION_LEN)%nat ;;
  let t := match arg_hashtable_search hash_key t name with Some _ => arg_hashtable_remove hash_key t name | None => t end in
  Ret (arg_hashtable_insert hash_key load_limit t name (mkCmd name description proc)).

(** [src/deps/argtable/argtable3.c 4688-4690, arg_cmd_unregister] *)
Definition arg_cmd_unregister (t : Commands) (name : bytes) : Commands := arg_hashtable_remove hash_key t name.

(** [src/deps/argtable/argtable3.c 4692-4699, arg_cmd_dispatch] The function that is called. *)
Definition arg_cmd_dispatch (t : Commands) (name : bytes) : outcome nat :=
  match arg_cmd_info t name with Some c => Ret (cmd_proc c) | None => Fault CheckFailed end.

(** [src/deps/argtable/argtable3.c 4705-4707, arg_cmd_count] *)
Definition arg_cmd_count (t : Commands) : Z := arg_hashtable_count t.

Inductive cop := CRegister (name : bytes) (proc : nat) (description : bytes) | CUnregister (name : bytes).

Definition cstep (t : Commands) (o : cop) : outcome Commands :=
  match o with CRegister n p d => arg_cmd_register t n p d | CUnregister n => Ret (arg_cmd_unregister t n) end.

Fixpoint crun (t : Commands) (l : list cop) : outcome Commands :=
  match l with [] => Ret t | o :: l => t ← cstep t o; crun t l end.

Definition cspec (m : gmap bytes arg_cmd_info_t) (o : cop) : gmap bytes arg_cmd_info_t :=
  match o with CRegister n p d => <[n := mkCmd n d p]> m | CUnregister n => delete n m end.

Definition cop_ok (o : cop) : Prop :=
  match o with CRegister n _ d => (length n < ARG_CMD_NAME_LEN)%nat /\ (length d < ARG_CMD_DESCRIPTION_LEN)%nat | _ => True end.

Lemma remove_primeindex t name : primeindex (arg_hashtable_remove (V := arg_cmd_info_t) hash_key t name) = primeindex t.
Proof. unfold arg_hashtable_remove. by destruct (remove_chain _ _ _). Qed.

Lemma cmd_step_ok t o : table_ok hash_key t -> (primeindex t < prime_table_length)%nat -> cop_ok o ->
  Z.of_nat (size (contents_of t)) < 2 ^ 32 - 1 ->
  exists t', cstep t o = Ret t' /\ table_ok hash_key t' /\ (primeindex t' < prime_table_length)%nat /\ contents_of t' = cspec (contents_of t) o.
Proof.
  intros Hok Hpi Ho Hsmall. rewrite (size_entries hash_key) in Hsmall by done. destruct o as [n p d|n]; cbn [cstep cspec].
  - destruct Ho as [H1 H2]. unfold arg_cmd_register. rewrite (proj2 (Nat.ltb_lt _ _) H1), (proj2 (Nat.ltb_lt _ _) H2).
    cbn [CHECK]. rewrite !outcome_bind_ret. eexists. split; [done|]. rewrite (search_is_lookup hash_key t n Hok).
    set (t1 := match contents_of t !! n with Some _ => _ | None => _ end).
    assert (Ht1 : table_ok hash_key t1 /\ contents_of t1 = delete n (contents_of t) /\ primeindex t1 = primeindex t).
    { unfold t1. destruct (contents_of t !! n) as [c|] eqn:E; [|by rewrite delete_id].
      destruct (remove_ok hash_key load_limit t n Hok ltac:(lia)) as [? ?]. split_and!; [done..|]. apply remove_primeindex. }
    clearbody t1. destruct Ht1 as (Hok1 & Hc1 & Hp1).
    assert (Hl : (length (entries t1) <= length (entries t))%nat).
    { rewrite <-!(size_entries hash_key) by done. rewrite Hc1, map_size_delete. destruct (contents_of t !! n); unfold id; lia. }
    destruct (insert_ok hash_key load_limit t1 n (mkCmd n d p) Hok1) as (Ha & Hb & Hc); [by rewrite Hc1, lookup_delete_eq|lia|lia|].
    split_and!; [done|done|]. by rewrite Hb, Hc1, insert_delete_eq.
  - eexists. split; [done|]. unfold arg_cmd_unregister. rewrite remove_primeindex.
    destruct (remove_ok hash_key load_limit t n Hok ltac:(lia)) as [? ?]. done.
Qed.

Lemma cspec_size m o : (size (cspec m o) <= S (size m))%nat.
Proof.
  destruct o as [n p d|n]; cbn; [rewrite map_size_insert|rewrite map_size_delete]; destruct (m !! n); unfold id; lia.
Qed.

Lemma cmd_run_ok l : forall t, table_ok hash_key t -> (primeindex t < prime_table_length)%nat -> Forall cop_ok l ->
  Z.of_nat (size (contents_of t)) + Z.of_nat (length l) < 2 ^ 32 ->
  exists t', crun t l = Ret t' /\ table_ok hash_key t' /\ contents_of t' = foldl cspec (contents_of t) l.
Proof.
  induction l as [|o l IH]; intros t Hok Hpi Hl Hlen; [by exists t|]. apply Forall_cons in Hl as [Ho Hl]. cbn [crun foldl length] in *.
  destruct (cmd_step_ok t o Hok Hpi Ho ltac:(lia)) as (t1 & -> & H1 & H2 & H3). rewrite outcome_bind_ret, <-H3. apply IH; [done..|].
  rewrite H3. pose proof (cspec_size (contents_of t) o). lia.
Qed.

(** The subcommands are a map from names to commands: registering puts a command in the place
    of one with the same name, so that no name is ever twice in the table, and after any
    history of names and descriptions that are short enough, what is found under a name, what
    is called for it and the number of commands are those of the map. *)
Theorem commands_are_map (l : list cop) : Forall cop_ok l -> Z.of_nat (length l) < 2 ^ 32 ->
  exists t0 t, arg_cmd_init = Some t0 /\ crun t0 l = Ret t /\
    let m := foldl cspec ∅ l in
    (forall name, arg_cmd_info t name = m !! name) /\
    (forall name c, m !! name = Some c -> arg_cmd_dispatch t name = Ret (cmd_proc c)) /\
    arg_cmd_count t = Z.of_nat (size m).
Proof.
  intros Hl Hlen. destruct (create_ok (V := arg_cmd_info_t) hash_key load_limit 32 ltac:(lia)) as (t0 & Ht0 & Hok & Hc & Hpi).
  destruct (cmd_run_ok l t0 Hok Hpi Hl) as (t & Ht & Hokt & Hct); [rewrite Hc, map_size_empty; lia|]. rewrite Hc in Hct.
  exists t0, t. cbn zeta. rewrite <-Hct. assert (Hinfo : forall name, arg_cmd_info t name = contents_of t !! name).
  { intros name. by apply search_is_lookup. }
  split_and!; [done..| |].
  - intros name c Hn. unfold arg_cmd_dispatch. by rewrite Hinfo, Hn.
  - unfold arg_cmd_count, arg_hashtable_count. by rewrite (ok_count hash_key t Hokt), (size_entries hash_key).
Qed.
End commands.

(** * Sorting *)

Section sort.
Context {A : Type} (comparefn : A -> A -> Z).

(** [src/deps/argtable/argtable3.c 391-422, merge] The two divisions, as what is left of them. *)
Fixpoint merge_lists (l : list A) : list A -> list A :=
  fix go (r : list A) :=
    match l, r with
    | [], _ => r
    | _, [] => l
    | x :: l', y :: r' => if comparefn x y <? 0 then x :: merge_lists l' r else y :: go r'
    end.

(** [src/deps/argtable/argtable3.c 377-427, merge] The elements from [i] to [j] and from there to
    [k], both included. *)
Definition merge_ (a : list A) (i j k : nat) : list A :=
  take i a ++ merge_lists (take (j - i + 1) (drop i a)) (take (k - j) (drop (j + 1) a)) ++ drop (k + 1) a.

(** [src/deps/argtable/argtable3.c 429-442, arg_mgsort] *)
Fixpoint arg_mgsort (fuel : nat) (a : list A) (i k : nat) : outcome (list A) :=
  match fuel with
  | O => Fault OutOfFuel
  | S fuel =>
      if (i <? k)%nat then
        let j := ((i + k - 1) / 2)%nat in
        a ← arg_mgsort fuel a i j;
        a ← arg_mgsort fuel a (j + 1) k;
        Ret (merge_ a i j k)
      else Ret a
  end.

(** A comparison that orders: negative for less, and one of two elements comes first. *)
Definition le (x y : A) : Prop := comparefn x y <= 0.
Context (total : forall x y, 0 <= comparefn x y -> le y x) (trans : forall x y z, le x y -> le y z -> le x z).

Lemma merge_lists_perm l : forall r, merge_lists l r ≡ₚ l ++ r.
Proof.
  induction l as [|x l IHl]; [by destruct r|]. induction r as [|y r IHr]; [by rewrite app_nil_r|].
  cbn [merge_lists]. destruct (comparefn x y <? 0); [cbn; by rewrite IHl|].
  change ((fix go (r : list A) : list A := match r with
    | [] => x :: l | y :: r' => if comparefn x y <? 0 then x :: merge_lists l r else y :: go r' end) r) with (merge_lists (x :: l) r).
  rewrite IHr. apply (Permutation_middle (x :: l)).
Qed.

Lemma merge_lists_cons x l y r :
  merge_lists (x :: l) (y :: r) = if comparefn x y <? 0 then x :: merge_lists l (y :: r) else y :: merge_lists (x :: l) r.
Proof. done. Qed.

Lemma merge_lists_sorted l : forall r, StronglySorted le l -> StronglySorted le r -> StronglySorted le (merge_lists l r).
Proof.
  induction l as [|x l IHl]; [by destruct r|]. induction r as [|y r IHr]; intros Hl Hr; [done|].
  pose proof Hl as Hl'. pose proof Hr as Hr'. apply StronglySorted_inv in Hl' as [Hl' Hx]. apply StronglySorted_inv in Hr' as [Hr' Hy].
  rewrite merge_lists_cons. destruct (Z.ltb_spec (comparefn x y) 0) as [Hlt|Hge]; constructor.
  - by apply IHl.
  - rewrite merge_lists_perm. apply Forall_app. split; [done|]. assert (Hxy : le x y) by (unfold le; lia).
    constructor; [done|]. eapply Forall_impl; [exact Hy|]. intros z Hz. by eapply trans.
  - by apply IHr.
  - rewrite merge_lists_perm. apply Forall_app. split; [|done]. assert (Hyx : le y x) by by apply total.
    constructor; [done|]. eapply Forall_impl; [exact Hx|]. intros z Hz. by eapply trans.
Qed.

Lemma merge_parts (p l r q : list A) i j k : length p = i -> length l = (j + 1 - i)%nat -> (i <= j)%nat ->
  length r = (k - j)%nat -> (j <= k)%nat -> merge_ (p ++ l ++ r ++ q) i j k = p ++ merge_lists l r ++ q.
Proof.
  intros Hp Hl Hij Hr Hjk. unfold merge_. rewrite take_app_exact, drop_app_exact by done.
  rewrite take_app_exact by lia.
  replace (drop (j + 1) (p ++ l ++ r ++ q)) with (r ++ q).
  2:{ rewrite (app_assoc p l). symmetry. apply drop_app_exact. rewrite length_app. lia. }
  rewrite take_app_exact by done. do 2 f_equal.
  replace (p ++ l ++ r ++ q) with ((p ++ l ++ r) ++ q) by (by rewrite <-!app_assoc).
  apply drop_app_exact. rewrite !length_app. lia.
Qed.

Lemma mgsort_parts fuel : forall (p m q : list A), (0 < length m)%nat -> (length m <= fuel)%nat ->
  exists m', arg_mgsort fuel (p ++ m ++ q) (length p) (length p + length m - 1) = Ret (p ++ m' ++ q) /\
    m' ≡ₚ m /\ StronglySorted le m'.
Proof.
  induction fuel as [|fuel IH]; intros p m q Hm Hf; [lia|]. cbn [arg_mgsort].
  destruct (Nat.ltb_spec (length p) (length p + length m - 1)) as [Hlt|Hge].
  2:{ exists m. split_and!; [done|done|]. destruct m as [|x [|y m]]; [cbn in Hm; lia|by repeat constructor|cbn in Hge; lia]. }
  set (i := length p) in *. set (k := (i + length m - 1)%nat) in *. set (j := ((i + k - 1) / 2)%nat).
  assert (Hj : (i <= j < k)%nat).
  { unfold j. split; [apply Nat.div_le_lower_bound; lia|apply Nat.Div0.div_lt_upper_bound; lia]. }
  rewrite <-(take_drop (j + 1 - i) m). set (l := take (j + 1 - i) m). set (r := drop (j + 1 - i) m).
  assert (Hl : length l = (j + 1 - i)%nat) by (unfold l; rewrite length_take; lia).
  assert (Hr : length r = (k - j)%nat) by (unfold r; rewrite length_drop; lia).
  destruct (IH p l (r ++ q)) as (l' & E1 & Hp1 & Hs1); [lia|lia|]. fold i in E1.
  replace (i + length l - 1)%nat with j in E1 by lia. rewrite <-app_assoc, E1, outcome_bind_ret.
  assert (Hl' : length l' = length l) by by rewrite Hp1.
  destruct (IH (p ++ l') r q) as (r' & E2 & Hp2 & Hs2); [lia|lia|].
  assert (Hpl : length (p ++ l') = (j + 1)%nat) by (rewrite length_app; fold i; lia). rewrite Hpl in E2.
  replace (j + 1 + length r - 1)%nat with k in E2 by lia. rewrite <-!app_assoc in E2. rewrite E2, outcome_bind_ret.
  exists (merge_lists l' r'). assert (Hr' : length r' = length r) by by rewrite Hp2. split_and!.
  - f_equal. apply merge_parts; [done|lia..].
  - rewrite merge_lists_perm. by rewrite Hp1, Hp2.
  - by apply merge_lists_sorted.
Qed.

(** Sorting a range of an array, all of it included: the same elements in order, and nothing
    before or behind the range changes; the recursion is no deeper than the range is long. *)
Theorem mgsort_sorts (before range after : list A) : (0 < length range)%nat ->
  exists sorted,
    arg_mgsort (length range) (before ++ range ++ after) (length before) (length before + length range - 1) =
      Ret (before ++ sorted ++ after) /\
    sorted ≡ₚ range /\ StronglySorted le sorted.
Proof. intros Hr. by apply mgsort_parts. Qed.
End sort.

(** * Examples *)

(** Three keys with one hash. *)
Definition example_history : list (hop (K := Z) (V := Z)) := [HInsert 1 10; HInsert 2 20; HInsert 3 30; HRemove 2; HChange 3 31; HInsert 2 22].

Lemma hashtable_is_map_witness :
  exists t, arg_hashtable_create (K := Z) (V := Z) (fun _ => 2) 0 = Some t /\
    let m := foldl mstep_ ∅ example_history in
    (forall k, arg_hashtable_search (fun _ => 7) (foldl (hstep (fun _ => 7) (fun _ => 2)) t example_history) k = m !! k) /\
    arg_hashtable_count (foldl (hstep (fun _ => 7) (fun _ => 2)) t example_history) = Z.of_nat (size m).
Proof. apply (hashtable_is_map (fun _ => 7) (fun _ => 2) 0 example_history); by repeat split. Defined.

(** When the table grows the chains are turned round: of two values inserted under one key the
    older one is found then. *)
Example duplicates_turn :
  let search n := (fun t => arg_hashtable_search (fun k : Z => k) (foldl (hstep (fun k => k) (fun s => if s =? 53 then 2 else 100)) t
                     (take n [HInsert 1 10; HInsert 1 11; HInsert 2 20])) 1) <$>
                  arg_hashtable_create (V := Z) (fun s => if s =? 53 then 2 else 100) 0 in
  search 2%nat = Some (Some 11) /\ search 3%nat = Some (Some 10).
Proof. by vm_compute. Qed.

Example sorted_numbers : arg_mgsort Z.sub 5 [9; 3; 1; 2; 3; 0] 1 5 = Ret [9; 0; 1; 2; 3; 3].
Proof. done. Qed.

Lemma commands_are_map_witness :
  exists t0 t, arg_cmd_init (fun _ => 1) = Some t0 /\
    crun (fun _ => 1) t0 [CRegister [x61] 1 []; CRegister [x62] 2 []; CRegister [x61] 3 []; CUnregister [x62]] = Ret t /\
    arg_cmd_dispatch t [x61] = Ret 3%nat /\ arg_cmd_count t = 1.
Proof.
  destruct (commands_are_map (fun _ => 1) [CRegister [x61] 1 []; CRegister [x62] 2 []; CRegister [x61] 3 []; CUnregister [x62]])
    as (t0 & t & H0 & Hr & _ & Hd & Hn); [by repeat constructor; vm_compute; lia|done|].
  exists t0, t. split_and!; [exact H0|exact Hr| |].
  - apply (Hd [x61] (mkCmd [x61] [] 3)). reflexivity.
  - rewrite Hn. reflexivity.
Defined.
