(* ===== verification/CommandLine.v ===== *)
(** * The command line of aworker

    CommandlineParser (src/src/command_parser.{h,cc}, command_parser-inl.h), which builds
    an argtable from the options of src/src/command_parser-options.json, parses the
    arguments and checks them, and CommandlineParserGroup (command_parser_group.{h,cc}),
    which looks an option up in several parsers.  The header with the options is
    generated by src/tools/command_parser_options.js; the lists below are its four
    macros.  cwalk's path function and the working directory are parameters.

    The theorems: options written out and parsed are the options again, wherever the
    script stands among them; a second operand is always an error; how a run ends for
    every mode; a group answers with the last parser that has the option; and two
    defects, an option given twice with a long value and the arguments of the script. *)

From S2P Require Import Prelude GetOpt Argtable ArgText.
Import String.StringSyntax.
Local Open Scope string_scope.
Local Open Scope list_scope.

(** * The options *)

(** [src/src/command_parser-options.json 2-78, flag] Variable, name, letter, description. *)
Definition CLI_LIT_ARGS : list (bytes * bytes * arg * bytes) :=
  [(bs "build_snapshot", bs "build-snapshot", None, bs "Build snapshot mode");
   (bs "dump_arguments", bs "dump-arguments", None, bs "dump arguments for debugging");
   (bs "experimental_async_context", bs "experimental-async-context", None, bs "enable async context api, deprecated");
   (bs "experimental_curl_fetch", bs "experimental-curl-fetch", None, bs "enable fetch with libcurl (noop)");
   (bs "enable_source_maps", bs "enable-source-maps", None, bs "enable source map v3 support for stack traces");
   (bs "enable_trace_event", bs "enable-trace-event", None, bs "enable tracing dump");
   (bs "eval", bs "eval", Some (bs "e"), bs "evaluate the script");
   (bs "expose_internals", bs "expose-internals", None, bs "expose internal modules");
   (bs "v8_options", bs "v8-options", None, bs "print v8 option usages");
   (bs "help", bs "help", Some (bs "h"), bs "print usage");
   (bs "has_agent", bs "has-agent", Some (bs "a"), bs "run aside an agent");
   (bs "inspect", bs "inspect", None, bs "start inspector");
   (bs "inspect_brk", bs "inspect-brk", None, bs "start inspector and pause on JavaScript entry");
   (bs "inspect_brk_aworker", bs "inspect-brk-aworker", None, bs "start inspector and pause on aworker JavaScript entry");
   (bs "module", bs "module", None, bs "parse the input script as ECMAScript Modules");
   (bs "no_experimental_curl_fetch", bs "no-experimental-curl-fetch", None, bs "disable fetch with libcurl");
   (bs "ref_agent", bs "ref-agent", Some (bs "A"), bs "run aside an ref-ed agent");
   (bs "report", bs "report", None, bs "generate diagnostic reports on fatal errors");
   (bs "report_on_signal", bs "report-on-signal", None, bs "generate diagnostic reports on signal SIGUSR2");
   (bs "report_compact", bs "report-compact", None, bs "generate diagnostic reports in compact format");
   (bs "threaded_platform", bs "threaded-platform", None, bs "enable experimental threaded platform");
   (bs "version", bs "version", Some (bs "v"), bs "print version string");
   (bs "cpu_prof", bs "cpu-prof", None, bs "start v8 cpu profiler")].

(** [src/src/command_parser-options.json 79-100, int] Variable, name, meta, description,
    default. *)
Definition CLI_INT_ARGS : list (bytes * bytes * bytes * bytes * Z) :=
  [(bs "max_macro_task_count_per_tick", bs "max-macro-task-count-per-tick", bs "<COUNT>", bs "set macro task count to be processed in each tick", 2);
   (bs "long_task_threshold_ms", bs "long-task-threshold-ms", bs "<MILLISECONDS>", bs "print stacktrace if the task duration reached the threshold", 0);
   (bs "loop_latency_limit_ms", bs "loop-latency-limit-ms", bs "<MILLISECONDS>", bs "abort the process if the event loop latency reached the limit", 0);
   (bs "threaded_platform_pool_size", bs "threaded-platform-pool-size", bs "<COUNT>", bs "v8 platform thread pool size when --threaded-platform is enabled", 4)].

(** [src/src/command_parser-options.json 101-125, string] Variable, name, meta, description,
    default; the script, which has no name, is the generator's own. *)
Definition CLI_STRN_ARGS : list (bytes * arg * bytes * bytes * bytes) :=
  [(bs "agent_cred", Some (bs "agent-cred"), bs "<CRED>", bs "the agent credential", bs "");
   (bs "location", Some (bs "location"), bs "<HREF>", bs "value of 'globalThis.location' used by some web APIs", bs "");
   (bs "mode", Some (bs "mode"), bs "<RUN_MODE>", bs "the run mode (normal|seed), default: normal", bs "normal");
   (bs "trace_event_categories", Some (bs "trace-event-categories"), bs "<categories>", bs "enables trace event output in the specified categories, implies --enable-trace-events", bs "");
   (bs "report_filename", Some (bs "report-filename"), bs "<REPORT_FILE>", bs "filename of generating diagnostic report, also support 'stdout' or 'stderr'", bs "");
   (bs "script_filename", None, bs "<SCRIPT|FILENAME>", bs "script to be run", bs "")].

(** [src/src/command_parser-options.json 126-152, file] *)
Definition CLI_FILEN_ARGS : list (bytes * bytes * bytes * bytes) :=
  [(bs "agent_ipc_path", bs "agent-ipc", bs "<UNIX_SOCK>", bs "specify the path of IPC UNIX Domain Socket");
   (bs "preload_script", bs "preload-script", bs "<FILENAME>", bs "pre-load a script file before the main file been evaluated");
   (bs "report_directory", bs "report-directory", bs "<REPORT_DIR>", bs "directory of generating diagnostic reports");
   (bs "snapshot_blob", bs "snapshot-blob", bs "<FILENAME>", bs "external startup snapshot blob");
   (bs "trace_event_directory", bs "trace-event-directory", bs "<REPORT_DIR>", bs "directory of generating trace event logs");
   (bs "same_origin_shared_data_dir", bs "same-origin-shared-data-dir", bs "<SAME_ORIG_DIR>", bs "directory of same origin shared data locates")].

(** [src/tools/command_parser_options.js 140-148, CLI_IMPLIES] *)
Definition CLI_IMPLIES : list (bytes * bytes) :=
  [(bs "trace_event_categories", bs "enable_trace_event")].

(** * One parser *)

(** [src/src/command_parser.h 17-84, CommandlineParser] [_args] is the argtable with its
    terminator, in the order of SetupParser; [_files] are the absolute file names;
    [_nerrors] is not set by the constructor. *)
Record CommandlineParser := mkParser {
  _parser_name : bytes;
  _nerrors : option Z;
  _exec_path : bytes;
  _user_argv : list bytes;
  _args : pstate;
  _files : list bytes }.

(** [src/src/command_parser-inl.h 42-45, SetupParser] A flag. *)
Definition setup_lit (a : bytes * bytes * arg * bytes) : bytes * arg_entry :=
  let '(var, long, short, desc) := a in (var, arg_lit0 short (Some long) (Some desc)).

(** [src/src/command_parser-inl.h 47-53, SetupParser] A number and its default. *)
Definition setup_int (a : bytes * bytes * bytes * bytes * Z) : bytes * arg_entry :=
  let '(var, long, meta, desc, dflt) := a in
  let e := arg_int0 None (Some long) (Some meta) (Some desc) in
  (var, set_data e (count e) (ArgInt [Some dflt])).

(** [src/src/command_parser-inl.h 55-61, SetupParser] A string and its default. *)
Definition setup_strn (a : bytes * arg * bytes * bytes * bytes) : bytes * arg_entry :=
  let '(var, long, meta, desc, dflt) := a in
  let e := arg_strn None long (Some meta) 0 1 (Some desc) in
  (var, set_data e (count e) (ArgStr [dflt])).

(** [src/src/command_parser-inl.h 63-66, SetupParser] A file name. *)
Definition setup_filen (a : bytes * bytes * bytes * bytes) : bytes * arg_entry :=
  let '(var, long, meta, desc) := a in (var, arg_filen None (Some long) (Some meta) 0 1 (Some desc)).

(** [src/src/command_parser-inl.h 41-69, SetupParser] *)
Definition cli_setup : list (bytes * arg_entry) :=
  map setup_lit CLI_LIT_ARGS ++ map setup_int CLI_INT_ARGS
  ++ map setup_strn CLI_STRN_ARGS ++ map setup_filen CLI_FILEN_ARGS.

Definition cli_vars : list bytes := map fst cli_setup.
Definition cli_table : table := map snd cli_setup.

(** The index of an option's variable. *)
Fixpoint index_in (v : bytes) (l : list bytes) : option nat :=
  match l with
  | [] => None
  | x :: l => if bool_decide (x = v) then Some O else S <$> index_in v l
  end.

Definition entry_of (p : CommandlineParser) (var : bytes) : option arg_entry :=
  i ← index_in var cli_vars; fst (_args p) !! i.

(** [src/src/command_parser.h 37-44, CommandlineParser] [var()] of a flag, [has_var()] of the
    others. *)
Definition has (p : CommandlineParser) (var : bytes) : bool :=
  match entry_of p var with Some e => negb (count e =? 0) | None => false end.

(** [src/src/command_parser.h 46-53, CommandlineParser] The first element of [ival]. *)
Definition int_of (p : CommandlineParser) (var : bytes) : option Z :=
  e ← entry_of p var;
  match data e with ArgInt ival => mjoin (head ival) | _ => None end.

(** [src/src/command_parser.h 67-76, CommandlineParser] The first element of [sval]. *)
Definition str_of (p : CommandlineParser) (var : bytes) : bytes :=
  match data <$> entry_of p var with Some (ArgStr (s :: _)) => s | _ => [] end.

(** [src/src/command_parser.h 55-65, CommandlineParser] The first element of [filename]. *)
Definition raw_of (p : CommandlineParser) (var : bytes) : bytes :=
  match data <$> entry_of p var with Some (ArgFile (s :: _) _ _) => s | _ => [] end.

(** [src/src/command_parser.cc 39-49, Init] The arguments after the first word without a
    dash, which is taken for the script. *)
Fixpoint user_argv (words : list bytes) : list bytes :=
  match words with
  | [] => []
  | w :: words => if byte_eqb (ch w 0) x2d then user_argv words else words
  end.

(** [src/src/command_parser.cc 34-52, Init] [g] is getopt's state, which all parsers of a
    process share. *)
Definition Init (posixly_correct : bool) (argv : list bytes) (g : gstate) (p : CommandlineParser)
    : outcome (gstate * CommandlineParser) :=
  match argv with
  | [] => Ret (g, p)
  | a0 :: words =>
      '(n, g, args) ← arg_parse posixly_correct argv g (_args p);
      Ret (g, mkParser (_parser_name p) (Some n) a0 (user_argv words) args (_files p))
  end.

(** [src/src/command_parser.cc 24-28, CommandlineParser] *)
Definition new_parser (posixly_correct : bool) (name : bytes) (argv : list bytes) (g : gstate)
    : outcome (gstate * CommandlineParser) :=
  Init posixly_correct argv g
    (mkParser name None [] [] (cli_table, new_end 20) (map (fun _ => []) CLI_FILEN_ARGS)).

(** ** Checking the options *)

(** [src/src/command_parser.cc 22-22, PROG_NAME] *)
Definition PROG_NAME : bytes := bs "aworker".

(** How [Evaluate] ends: it returns, or the process exits with a code. *)
Inductive evaluated := Continue (p : CommandlineParser) | Exit (code : Z).

(** [src/src/command_parser.cc 108-112, PrintHelp] *)
Definition PrintHelp (p : CommandlineParser) : outcome bytes :=
  s ← arg_print_syntax_ds (fst (_args p)) [x0a];
  g ← arg_print_glossary_ds 25 (fst (_args p));
  Ret (bs "Usage: " ++ PROG_NAME ++ s ++ g).

(** [_var->count = 1]. *)
Definition raise (var : bytes) (args : pstate) : pstate :=
  match index_in var cli_vars with
  | Some i => (alter (fun e => set_count e 1) i (fst args), snd args)
  | None => args
  end.

(** The parsers of a group, [_group]. *)
Abbreviation group := (list CommandlineParser).

Section evaluate.
(** cwalk's cwk_path_get_absolute on the working directory. *)
Context (absolute : bytes -> bytes).

(** [src/src/command_parser.cc 80-93, Evaluate] *)
Definition resolve_files (p : CommandlineParser) : list bytes :=
  zip_with (fun a old => let '(var, _, _, _) := a in
              match raw_of p var with [] => old | raw => absolute raw end)
           CLI_FILEN_ARGS (_files p).

(** [src/src/command_parser.cc 95-100, Evaluate] *)
Definition apply_implies (p : CommandlineParser) (args : pstate) : pstate :=
  foldl (fun args '(cond, rise) => if has p cond then raise rise args else args) args CLI_IMPLIES.

(** [src/src/command_parser.cc 54-106, Evaluate] *)
Definition Evaluate (p : CommandlineParser) : outcome evaluated :=
  match _nerrors p with
  | None => Fault Uninitialised
  | Some n =>
      if 0 <? n then
        _ ← arg_print_errors (_args p) PROG_NAME; _ ← PrintHelp p; Ret (Exit 4)
      else if has p (bs "help") then _ ← PrintHelp p; Ret (Exit 0)
      else
        let mode := str_of p (bs "mode") in
        let normal := bool_decide (mode = bs "normal") in
        if negb normal && has p (bs "threaded_platform") then Ret (Exit 4)
        else if negb normal && negb (bool_decide (mode = bs "seed"))
                && negb (bool_decide (mode = bs "seed-userland")) then
          _ ← PrintHelp p; Ret (Exit 4)
        else
          let p := mkParser (_parser_name p) (_nerrors p) (_exec_path p) (_user_argv p)
                     (apply_implies p (_args p)) (resolve_files p) in
          if has p (bs "dump_arguments") then Ret (Exit 0) else Ret (Continue p)
  end.

(** * A group of parsers *)

(** [src/src/command_parser_group.h 10-13, CommandlineParserGroupPushMode] *)
Inductive CommandlineParserGroupPushMode := kFull | kIncremental.

(** [src/src/command_parser_group.cc 7-7, DEFAULT_PARSER_NAME] *)
Definition DEFAULT_PARSER_NAME : bytes := bs "$default".

(** [src/src/command_parser_group.cc 53-64, PushCommandlineParser] *)
Definition PushCommandlineParser (posixly_correct : bool) (name : bytes) (argv : list bytes)
    (mode : CommandlineParserGroupPushMode) (g : gstate) (gr : group) : outcome (gstate * group) :=
  let gr := match mode with kFull => [] | kIncremental => gr end in
  '(g, p) ← new_parser posixly_correct name argv g;
  Ret (g, gr ++ [p]).

(** [src/src/command_parser_group.cc 9-15, CommandlineParserGroup] *)
Definition new_group (posixly_correct : bool) (argv : list bytes) (g : gstate) : outcome (gstate * group) :=
  PushCommandlineParser posixly_correct DEFAULT_PARSER_NAME argv kFull g [].

(** [src/src/command_parser_group.cc 21-30, GetParser] The index of the first parser with
    the name. *)
Fixpoint GetParser_name (gr : group) (name : bytes) : option nat :=
  match gr with
  | [] => None
  | p :: gr => if bool_decide (_parser_name p = name) then Some O else S <$> GetParser_name gr name
  end.

(** [src/src/command_parser_group.cc 32-38, GetParser] *)
Definition GetParser_idx (gr : group) (idx : nat) : option nat :=
  if (idx <? length gr)%nat then Some idx else None.

(** What an evaluation of a parser of the group does. *)
Inductive group_evaluated := Evaluated (found : bool) (gr : group) | GroupExit (code : Z).

(** [src/src/command_parser_group.h 26-32, Evaluate] *)
Definition Evaluate_at (gr : group) (parser : option nat) : outcome group_evaluated :=
  match parser ≫= (fun i => (i,.) <$> gr !! i) with
  | None => Ret (Evaluated false gr)
  | Some (i, p) =>
      r ← Evaluate p;
      match r with
      | Exit c => Ret (GroupExit c)
      | Continue p => Ret (Evaluated true (<[i := p]> gr))
      end
  end.

(** [src/src/command_parser_group.cc 40-42, Evaluate] *)
Definition Evaluate_name (gr : group) (name : bytes) : outcome group_evaluated :=
  Evaluate_at gr (GetParser_name gr name).

(** [src/src/command_parser_group.cc 44-46, Evaluate] *)
Definition Evaluate_idx (gr : group) (idx : nat) : outcome group_evaluated :=
  Evaluate_at gr (GetParser_idx gr idx).

(** [src/src/command_parser_group.cc 48-51, EvaluateLast] *)
Definition EvaluateLast (gr : group) : outcome group_evaluated :=
  match gr with [] => Ret (Evaluated false gr) | _ => Evaluate_idx gr (length gr - 1) end.
End evaluate.

(** [src/src/command_parser_group.h 52-57, TRAVERSE_RETURN] The group is searched from its
    end. *)
Definition traverse {A} (gr : group) (var : bytes) (found : CommandlineParser -> A)
    (not_found : CommandlineParser -> A) : outcome A :=
  match gr with
  | [] => Fault CheckFailed
  | first :: _ =>
      match list_find (fun p => has p var) (reverse gr) with
      | Some (_, p) => Ret (found p)
      | None => Ret (not_found first)
      end
  end.

(** [src/src/command_parser_group.h 61-65, CommandlineParserGroup] Flags, and [has_var]. *)
Definition group_has (gr : group) (var : bytes) : outcome bool :=
  traverse gr var (fun _ => true) (fun _ => false).

(** [src/src/command_parser_group.h 67-73, CommandlineParserGroup] Numbers. *)
Definition group_int (gr : group) (var : bytes) : outcome (option Z) :=
  traverse gr var (fun p => int_of p var) (fun p => int_of p var).

(** [src/src/command_parser_group.h 89-101, CommandlineParserGroup] Strings. *)
Definition group_str (gr : group) (var : bytes) : outcome bytes :=
  traverse gr var (fun p => str_of p var) (fun p => str_of p var).

(** The absolute name a parser has for a file option. *)
Definition file_of (p : CommandlineParser) (var : bytes) : bytes :=
  default [] (i ← index_in var (map (fun a => fst (fst (fst a))) CLI_FILEN_ARGS); _files p !! i).

(** [src/src/command_parser_group.h 75-87, CommandlineParserGroup] Files. *)
Definition group_file (gr : group) (var : bytes) : outcome bytes :=
  traverse gr var (fun p => file_of p var) (fun p => file_of p var).

(** [src/src/command_parser_group.h 40-40, mixin_has_agent] *)
Definition mixin_has_agent (gr : group) : outcome bool :=
  b ← group_has gr (bs "has_agent"); if b : bool then Ret true else group_has gr (bs "ref_agent").

(** [src/src/command_parser_group.h 41-43, mixin_inspect] *)
Definition mixin_inspect (gr : group) : outcome bool :=
  b ← group_has gr (bs "inspect"); if b : bool then Ret true else
  b ← group_has gr (bs "inspect_brk"); if b : bool then Ret true else
  group_has gr (bs "inspect_brk_aworker").

(** * Options written out and parsed *)

(** A value given to an option: a flag, a decimal number, a text. *)
Inductive setting := SFlag | SInt (neg : bool) (ds : bytes) | SText (s : bytes).

Definition setting_arg (s : setting) : arg :=
  match s with
  | SFlag => None
  | SInt neg ds => Some (literal neg Dec ds NoUnit [])
  | SText s => Some s
  end.

(** The kinds agree; a number is in range, a text is not empty. *)
Definition setting_ok (e : arg_entry) (s : setting) : Prop :=
  match data e, s with
  | ArgLit, SFlag => True
  | ArgInt _, SInt neg ds =>
      Forall (fun c => is_Some (digit_in 10 c)) ds /\ ds <> [] /\
      int_range (literal_value neg Dec ds NoUnit)
  | ArgStr _, SText s | ArgFile _ _ _, SText s => s <> [] /\ cstr s
  | _, _ => False
  end.

(** The entry once the option was read. *)
Definition set_entry (s : setting) (e : arg_entry) : arg_entry :=
  match data e, s with
  | ArgInt _, SInt neg ds => set_data e 1 (ArgInt [Some (literal_value neg Dec ds NoUnit)])
  | ArgStr _, SText s => set_data e 1 (ArgStr [s])
  | ArgFile _ _ _, SText s =>
      set_data e 1 (ArgFile [s] [arg_basename s] [arg_extension (arg_basename s)])
  | _, _ => set_count e 1
  end.

(** "--name" or "--name=value" for the option at index [i] of the table. *)
Definition option_word (o : nat * setting) : bytes :=
  let name := default [] (e ← cli_table !! fst o; longopts (hdr e)) in
  bs "--" ++ name ++ match setting_arg (snd o) with None => [] | Some v => bs "=" ++ v end.

Definition option_item (o : nat * setting) : item :=
  LongOpt (Z.of_nat (fst o)) (setting_arg (snd o)) (Some (option_word o)).

(** The option exists, has a name and the setting is one for it. *)
Definition option_ok (o : nat * setting) : Prop :=
  exists e n, cli_table !! fst o = Some e /\ longopts (hdr e) = Some n /\ setting_ok e (snd o).

Definition cli_so : bytes := alloc_shortoptions cli_table.
Definition cli_lo : list loption := alloc_longoptions 0 cli_table.

(** ** The names of the table are found by exact name *)

Definition name_found (ie : nat * arg_entry) : bool :=
  let '(i, e) := ie in
  match longopts (hdr e) with
  | None => true
  | Some n =>
      match find_long cli_lo 0 None n (length n) false with
      | Match j =>
          match cli_lo !! Z.to_nat j with
          | Some o => (val o =? Z.of_nat i) && (has_arg o =? entry_has_arg e)
                      && negb (bool_decide (x3d ∈ n)) && negb (bool_decide (n = []))
                      && negb (bool_decide (NUL ∈ n))
          | None => false
          end
      | _ => false
      end
  end.

Lemma names_found : forallb name_found (zip (seq 0 (length cli_table)) cli_table) = true.
Proof. vm_compute. reflexivity. Qed.

Lemma name_lookup i e n : cli_table !! i = Some e -> longopts (hdr e) = Some n ->
  exists j o, find_long cli_lo 0 None n (length n) false = Match j /\ cli_lo !! Z.to_nat j = Some o /\
    val o = Z.of_nat i /\ has_arg o = entry_has_arg e /\ index_of x3d n = None /\ n <> [] /\ cstr n.
Proof.
  intros Hi Hn. pose proof names_found as H. rewrite forallb_forall in H.
  specialize (H (i, e)). unfold name_found in H. rewrite Hn in H.
  assert (Hin : In (i, e) (zip (seq 0 (length cli_table)) cli_table)).
  { apply list_elem_of_In, (list_elem_of_lookup_2 _ i), lookup_zip_with_Some.
    exists i, e. repeat split; [|done]. apply lookup_seq. split; [done|]. by eapply lookup_lt_Some. }
  specialize (H Hin). destruct (find_long cli_lo 0 None n (length n) false) as [j| |]; [|done..].
  destruct (cli_lo !! Z.to_nat j) as [o|] eqn:Ho; [|done].
  apply andb_true_iff in H as [H Hnul]. apply andb_true_iff in H as [H Hne].
  apply andb_true_iff in H as [H Heq]. apply andb_true_iff in H as [Hv Ha].
  apply Z.eqb_eq in Hv, Ha. apply negb_true_iff, bool_decide_eq_false_1 in Heq, Hne, Hnul.
  exists j, o. repeat split; try done. by apply index_of_None.
Qed.

Lemma find_long_app opts i m n tl st :
  find_long opts i m (n ++ tl) (length n) st = find_long opts i m n (length n) st.
Proof.
  revert i m. induction opts as [|o opts IH]; intros i m; simpl; [done|].
  unfold strncmp_eq. rewrite take_app_length, firstn_all, !IH. by destruct m; rewrite ?IH.
Qed.

Lemma index_of_app c n tl : index_of c n = None -> index_of c (n ++ c :: tl) = Some (length n).
Proof.
  induction n as [|x n IH]; simpl; [by rewrite byte_eqb_refl|].
  destruct (byte_eqb x c); [done|]. destruct (index_of c n); [done|]. intros _. by rewrite IH.
Qed.

(** Flags take no argument, the others do. *)
Lemma setting_has_arg i e s : cli_table !! i = Some e -> setting_ok e s ->
  entry_has_arg e = match s with SFlag => no_argument | _ => required_argument end /\
  setting_arg s <> Some [].
Proof.
  intros Hi Hs.
  assert (Hk : entry_has_arg e = match data e with ArgLit => 0 | _ => 1 end).
  { assert (H : forallb (fun e => entry_has_arg e =? match data e with ArgLit => 0 | _ => 1 end) cli_table = true)
      by (vm_compute; reflexivity).
    rewrite forallb_forall in H. apply Z.eqb_eq, H, list_elem_of_In. by eapply list_elem_of_lookup_2. }
  rewrite Hk. unfold setting_ok in Hs. destruct (data e), s as [|neg ds|x]; try done; simpl.
  - split; [done|]. destruct Hs as (_ & Hne & _). unfold literal. by destruct neg, ds.
  - destruct Hs as [Hne _]. split; [done|]. congruence.
  - destruct Hs as [Hne _]. split; [done|]. congruence.
Qed.

Lemma option_word_items o : option_ok o ->
  is_operand (option_word o) = false /\ option_word o <> [x2d; x2d] /\
  word_items cli_so cli_lo (drop 1 (option_word o)) (option_word o) = ([option_item o], None).
Proof.
  destruct o as [i s]. intros (e & n & Hi & Hn & Hs). simpl in Hi, Hs.
  destruct (name_lookup i e n Hi Hn) as (j & lo & Hf & Hlo & Hv & Ha & Heq & Hne & _).
  destruct (setting_has_arg i e s Hi Hs) as [Hha _]. rewrite Hha in Ha.
  unfold option_item, option_word. cbn [fst snd]. rewrite Hi. simpl default. rewrite Hn.
  simpl default. set (v := match setting_arg s with None => [] | Some v => bs "=" ++ v end).
  split; [done|]. split; [by destruct n|].
  change (drop 1 (bs "--" ++ n ++ v)) with (x2d :: n ++ v). cbn [word_items].
  rewrite byte_eqb_refl. unfold long_items.
  assert (Hlen : match index_of x3d (n ++ v) with Some k => k | None => length (n ++ v) end = length n /\
    ((fun k => drop (S k) (n ++ v)) <$> index_of x3d (n ++ v)) = setting_arg s).
  { unfold v. destruct (setting_arg s) as [w|].
    - change (bs "=" ++ w) with (x3d :: w). rewrite index_of_app by done. split; [done|]. simpl. f_equal.
      replace (n ++ x3d :: w) with ((n ++ [x3d]) ++ w) by (by rewrite <-app_assoc).
      apply drop_app_exact. rewrite length_app. simpl. lia.
    - rewrite app_nil_r, Heq. done. }
  destruct Hlen as [Hl Hval]. rewrite Hval, Hl, find_long_app, Hf, Hlo, Ha, Hv.
  destruct s as [|neg ds|x]; simpl; done.
Qed.

Lemma scan_options posix os acc rest : Forall option_ok os ->
  scan posix cli_so cli_lo None acc (map option_word os ++ rest)
  = (map option_item os ++ fst (scan posix cli_so cli_lo None acc rest), snd (scan posix cli_so cli_lo None acc rest)).
Proof.
  induction 1 as [|o os Ho _ IH]; [apply surjective_pairing|].
  destruct (option_word_items o Ho) as (Hop & Hdd & Hw). cbn [map app scan].
  rewrite Hop, bool_decide_eq_false_2, Hw, IH by done. done.
Qed.

(** ** What the items do to the table *)

(** An entry as the constructor leaves it, for one occurrence. *)
Definition fresh (e : arg_entry) : Prop := wf_entry e /\ count e = 0 /\ maxcount (hdr e) = 1.

Lemma scanfn_setting e s : fresh e -> setting_ok e s ->
  scanfn e (setting_arg s) = Ret (0, set_entry s e).
Proof.
  intros (Hw & Hc & Hm) Hs. unfold setting_ok, set_entry in *. pose proof Hw as [_ Hd].
  destruct (data e) as [|ival|sval|f b x] eqn:He, s as [|neg ds|txt]; try done; simpl setting_arg.
  - unfold scanfn, arg_lit_scanfn. rewrite He, Hc, Hm. done.
  - destruct Hs as (Hds & Hne & Hr).
    rewrite (arg_int_scan neg Dec ds NoUnit [] e ival) by (try done; constructor).
    rewrite Hc, Hm, bool_decide_eq_true_2 by done. simpl.
    destruct Hd as [Hl _]. rewrite Hm in Hl. destruct ival as [|i0 [|i1 ival]]; simpl in Hl; try lia. done.
  - unfold scanfn, arg_str_scanfn. rewrite He, Hc, Hm. simpl. rewrite vec_set_safe by lia. simpl.
    rewrite Hm in Hd. destruct sval as [|s0 [|s1 sval]]; simpl in Hd; try lia. done.
  - unfold scanfn, arg_file_scanfn. rewrite He, Hc, Hm. simpl. destruct Hd as (H1 & H2 & H3).
    repeat (rewrite vec_set_safe by lia; simpl). rewrite Hm in *.
    destruct f as [|f0 [|f1 f]]; simpl in H1; try lia.
    destruct b as [|b0 [|b1 b]]; simpl in H2; try lia.
    destruct x as [|x0 [|x1 x]]; simpl in H3; try lia. done.
Qed.

Definition set_options (os : list (nat * setting)) (t : table) : table :=
  foldl (fun t o => alter (set_entry (snd o)) (fst o) t) t os.

(** The options name entries of [t] that were not given yet. *)
Definition applicable (t : table) (o : nat * setting) : Prop :=
  exists e, t !! fst o = Some e /\ fresh e /\ setting_ok e (snd o).

Lemma insert_as_alter (t : table) i e f : t !! i = Some e -> <[i := f e]> t = alter f i t.
Proof.
  intros He. apply list_eq. intros k. destruct (decide (k = i)) as [->|Hne].
  - rewrite list_lookup_insert_eq by (by eapply lookup_lt_Some). by rewrite list_lookup_alter_eq, He.
  - by rewrite list_lookup_insert_ne, list_lookup_alter_ne by done.
Qed.

Lemma handle_options os t en :
  NoDup (map fst os) -> Forall (applicable t) os -> Forall (fun o => setting_arg (snd o) <> Some []) os ->
  handle_all handle_item (map option_item os) (t, en) = Ret (set_options os t, en).
Proof.
  revert t. induction os as [|[i s] os IH]; intros t Hnd Ha Hv; [done|].
  apply NoDup_cons in Hnd as [Hi Hnd]. apply Forall_cons in Ha as [(e & He & Hf & Hs) Ha].
  apply Forall_cons in Hv as [Hv Hvs]. simpl in *.
  assert (Hg : vec_get t (Z.of_nat i) = Ret e).
  { unfold vec_get. destruct (Z.ltb_spec (Z.of_nat i) 0); [lia|]. by rewrite Nat2Z.id, He. }
  rewrite Hg. simpl. rewrite bool_decide_eq_false_2 by done. simpl.
  rewrite !Nat2Z.id, Hg. simpl. rewrite (scanfn_setting e s Hf Hs). simpl.
  rewrite (insert_as_alter t i e) by done.
  apply IH; [done| |done].
  apply Forall_forall. intros [i' s'] Hin. rewrite Forall_forall in Ha.
  destruct (Ha _ Hin) as (e' & He' & ?). exists e'. split; [|done]. simpl in *.
  rewrite list_lookup_alter_ne; [done|]. intros ->. apply Hi. by apply (list_elem_of_fmap_2 fst os (i', s')).
Qed.

(** ** The script and the checks *)

#[local] Arguments arg_parse_untagged : simpl never.

(** Entries with a name are passed over. *)
Lemma untagged_skip k : forall fuel j a args last t en,
  (forall i, (j <= i < j + k)%nat -> exists e, t !! i = Some e /\ untagged e = false) ->
  arg_parse_untagged (k + fuel) j (a :: args) last (t, en)
  = arg_parse_untagged fuel (j + k) (a :: args) last (t, en).
Proof.
  induction k as [|k IH]; intros fuel j a args last t en Hj; [by rewrite Nat.add_0_r|].
  destruct (Hj j) as (e & He & Hu); [lia|].
  change (S k + fuel)%nat with (S (k + fuel)). unfold arg_parse_untagged at 1. fold arg_parse_untagged.
  simpl fst. rewrite He, Hu. simpl negb. cbn iota. rewrite IH.
  - f_equal. lia.
  - intros i Hi. apply Hj. lia.
Qed.

Lemma untagged_stores k fuel a t en e s :
  (forall i, (i < k)%nat -> exists e, t !! i = Some e /\ untagged e = false) ->
  t !! k = Some e -> untagged e = true -> fresh e -> setting_ok e s -> setting_arg s = Some a ->
  arg_parse_untagged (k + S (S fuel)) 0 [Some a] None (t, en) = Ret (alter (set_entry s) k t, en).
Proof.
  intros Hk He Hu Hf Hs Ha. rewrite untagged_skip by (intros i Hi; apply Hk; lia). simpl Nat.add.
  unfold arg_parse_untagged at 1. fold arg_parse_untagged. simpl fst. rewrite He, Hu. simpl negb. cbn iota.
  rewrite <-Ha, (scanfn_setting e s Hf Hs), outcome_bind_ret. cbn beta iota zeta.
  rewrite (insert_as_alter t k e) by done.
  change (0 =? 0) with true. cbn iota. unfold arg_parse_untagged. cbn [fst snd].
  by rewrite list_lookup_alter_eq, He.
Qed.

Lemma check_no_minimum i t en :
  Forall (fun e => 0 <= count e /\ mincount (hdr e) = 0) t -> arg_parse_check i t en = Ret en.
Proof.
  intros Ht. revert i. induction Ht as [|e t [Hc Hm] _ IH]; intros i; simpl; [done|].
  unfold checkfn. destruct (Z.ltb_spec (count e) (mincount (hdr e))); [lia|]. apply IH.
Qed.

(** The operand of the command line. *)
Definition script_index : nat := 32.

Lemma cli_table_fresh : Forall fresh cli_table.
Proof.
  unfold cli_table, cli_setup. rewrite !map_app, !map_map, !Forall_app. repeat split; apply Forall_fmap.
  - apply Forall_true. intros [[[v l] s] d]. split; [|done].
    by apply (constructors_wf s (Some l) None (Some d) 0 1).
  - assert (Hr : Forall (fun a : bytes * bytes * bytes * bytes * Z => int_range (snd a)) CLI_INT_ARGS)
      by (repeat constructor; vm_compute; discriminate).
    eapply Forall_impl; [exact Hr|]. intros [[[[v l] m] d] z] Hz. split; [|done].
    split; [done|]. split; [done|]. constructor; [|constructor]. by intros ? [= <-].
  - apply Forall_true. intros [[[[v l] m] d] z]. split; [|done]. done.
  - apply Forall_true. intros [[[v l] m] d]. split; [|done].
    by apply (constructors_wf None (Some l) (Some m) (Some d) 0 1).
Qed.

Lemma cli_table_script :
  (exists e, cli_table !! script_index = Some e /\ untagged e = true /\ longopts (hdr e) = None /\
     exists sv, data e = ArgStr sv) /\
  (forall i, (i < script_index)%nat -> exists e, cli_table !! i = Some e /\ untagged e = false).
Proof.
  split; [eexists; repeat split; by eexists|].
  intros i Hi. assert (H : forallb (fun e => negb (untagged e)) (take script_index cli_table) = true)
    by (vm_compute; reflexivity).
  destruct (lookup_lt_is_Some_2 cli_table i) as [e He]; [change (length cli_table) with 39%nat; unfold script_index in Hi; lia|].
  exists e. split; [done|]. rewrite forallb_forall in H. apply negb_true_iff, H, list_elem_of_In.
  apply (list_elem_of_lookup_2 _ i). by rewrite lookup_take_lt.
Qed.

Lemma set_entry_hdr s e : hdr (set_entry s e) = hdr e.
Proof. unfold set_entry. by destruct (data e), s. Qed.

Lemma set_entry_count s e : count (set_entry s e) = 1.
Proof. unfold set_entry. by destruct (data e), s. Qed.

Lemma set_options_lookup os t i e : NoDup (map fst os) -> t !! i = Some e ->
  set_options os t !! i = Some (match list_find (fun o => fst o = i) os with
                                | Some (_, o) => set_entry (snd o) e | None => e end).
Proof.
  revert t e. induction os as [|[k s] os IH]; intros t e Hnd He; [done|].
  apply NoDup_cons in Hnd as [Hk Hnd]. change (map fst ((k, s) :: os)) with (k :: map fst os) in *.
  simpl set_options. cbn [list_find fst]. destruct (decide (k = i)) as [->|Hne].
  - rewrite (IH _ (set_entry s e) Hnd) by (simpl; by rewrite list_lookup_alter_eq, He).
    destruct (list_find (fun o => fst o = i) os) as [[j o]|] eqn:E; [|done].
    apply list_find_Some in E as (Hj & Ho & _). exfalso. apply Hk.
    apply list_elem_of_lookup_2 in Hj. subst i. by apply (list_elem_of_fmap_2 fst os o).
  - rewrite (IH _ e Hnd) by (simpl; by rewrite list_lookup_alter_ne).
    by destruct (list_find (fun o => fst o = i) os) as [[j o]|].
Qed.

Lemma set_options_forall (P : arg_entry -> Prop) os t :
  (forall s e, P e -> P (set_entry s e)) -> Forall P t -> Forall P (set_options os t).
Proof.
  intros HP. revert t. induction os as [|[i s] os IH]; intros t Ht; [done|]. simpl.
  apply IH. apply Forall_alter; auto.
Qed.

Lemma set_options_length os t : length (set_options os t) = length t.
Proof.
  revert t. induction os as [|[i s] os IH]; intros t; [done|]. simpl. rewrite IH. apply length_alter.
Qed.

Lemma option_ok_applicable o : option_ok o -> applicable cli_table o.
Proof.
  intros (e & n & He & _ & Hs). exists e. repeat split; try done;
  by eapply (Forall_lookup_1 _ _ _ _ cli_table_fresh).
Qed.

Lemma option_ok_value o : option_ok o -> setting_arg (snd o) <> Some [] /\ fst o <> script_index.
Proof.
  intros (e & n & He & Hn & Hs). split; [by eapply setting_has_arg|]. intros Hi. rewrite Hi in He.
  destruct cli_table_script as [(e' & He' & _ & Hl & _) _]. congruence.
Qed.

(** With [posix] the options come before the script. *)
Lemma parse_options posix os1 os2 script :
  posix = false \/ os2 = [] ->
  NoDup (map fst (os1 ++ os2)) -> Forall option_ok (os1 ++ os2) ->
  is_operand script = true -> script <> [] -> cstr script ->
  parse_words posix (map option_word os1 ++ script :: map option_word os2) (cli_table, new_end 20)
  = Ret (set_options (os1 ++ os2 ++ [(script_index, SText script)]) cli_table, new_end 20).
Proof.
  intros Hpx Hnd Hok Hop Hne Hc. apply Forall_app in Hok as Hok2. destruct Hok2 as [Hok1 Hok2].
  unfold parse_words. cbn [fst snd]. fold cli_so cli_lo.
  assert (Hscan : scan posix cli_so cli_lo None [] (map option_word os1 ++ script :: map option_word os2)
                  = (map option_item (os1 ++ os2), [script])).
  { rewrite scan_options by done. cbn [scan]. rewrite Hop. simpl app.
    destruct posix; [destruct Hpx as [Hpx|Hpx]; [done|]; subst os2; simpl; by rewrite !app_nil_r|].
    rewrite <-(app_nil_r (map option_word os2)), scan_options by done. simpl.
    by rewrite app_nil_r, map_app. }
  rewrite Hscan, handle_options.
  2: done.
  2:{ eapply Forall_impl; [exact Hok|]. apply option_ok_applicable. }
  2:{ eapply Forall_impl; [exact Hok|]. intros o Ho. by apply option_ok_value. }
  rewrite outcome_bind_ret. set (t := set_options (os1 ++ os2) cli_table). simpl fst.
  destruct cli_table_script as [(e & He & Hu & Hl & sv & Hd) Hbefore].
  assert (Hlook : forall i e, cli_table !! i = Some e -> exists e', t !! i = Some e' /\ hdr e' = hdr e).
  { intros i e0 He0. unfold t. rewrite (set_options_lookup _ _ i e0) by done.
    eexists. split; [reflexivity|]. destruct (list_find _ _) as [[? o]|]; [apply set_entry_hdr|done]. }
  assert (Hscr : t !! script_index = Some e).
  { unfold t. rewrite (set_options_lookup _ _ script_index e) by done.
    destruct (list_find (fun o => fst o = script_index) (os1 ++ os2)) as [[k o]|] eqn:E; [|done].
    apply list_find_Some in E as (Hk & Ho & _). rewrite Forall_forall in Hok.
    apply list_elem_of_lookup_2, Hok, option_ok_value in Hk as [_ Hk]. done. }
  assert (Hlen : length t = 39%nat) by (unfold t; by rewrite set_options_length).
  rewrite Hlen. change (S (39 + length [script])) with (script_index + S (S 7))%nat.
  assert (Hfr : fresh e) by (by eapply (Forall_lookup_1 _ _ _ _ cli_table_fresh)).
  change (Some <$> [script]) with [Some script].
  rewrite (untagged_stores script_index 7 script t (new_end 20) e (SText script)).
  - rewrite outcome_bind_ret. cbn [fst snd]. change (end_count (new_end 20) =? 0) with true. cbn iota.
    rewrite check_no_minimum.
    + rewrite outcome_bind_ret. unfold t, set_options. by rewrite !foldl_app.
    + apply (Forall_alter _ (set_entry (SText script))).
      * unfold t. apply set_options_forall.
        -- intros s e0 [_ Hm]. rewrite set_entry_hdr, set_entry_count. split; [lia|done].
        -- assert (H : forallb (fun e => (0 <=? count e) && (mincount (hdr e) =? 0)) cli_table = true)
             by (vm_compute; reflexivity).
           apply Forall_forall. intros e0 Hin%list_elem_of_In. rewrite forallb_forall in H.
           apply H in Hin. bool_to_prop. done.
      * intros e0 _ [_ Hm]. rewrite set_entry_hdr, set_entry_count. split; [lia|done].
  - intros i Hi. destruct (Hbefore i Hi) as (e0 & He0 & Hu0). destruct (Hlook i e0 He0) as (e1 & He1 & Hh).
    exists e1. split; [done|]. unfold untagged in *. by rewrite Hh.
  - done.
  - done.
  - done.
  - unfold setting_ok. by rewrite Hd.
  - done.
Qed.

(** * What a parser holds after its construction *)

Lemma cli_wf : wf_state (map hdr cli_table) (cli_table, new_end 20).
Proof.
  split; [|split; [done|by apply new_end_wf]]. eapply Forall_impl; [apply cli_table_fresh|]. by intros e [? _].
Qed.

Lemma cli_letters : letters_ok cli_table.
Proof.
  assert (H : forallb (fun e => forallb good_letter (default [] (shortopts (hdr e)))) cli_table = true)
    by (vm_compute; reflexivity).
  apply Forall_forall. intros e He%list_elem_of_In. rewrite forallb_forall in H.
  apply Forall_forall. intros c Hc%list_elem_of_In. specialize (H e He). rewrite forallb_forall in H. auto.
Qed.

(** The parser [Init] makes of a parsed table. *)
Definition parsed (name a0 : bytes) (args : list bytes) (q : pstate) : CommandlineParser :=
  mkParser name (Some (end_count (snd q))) a0 (user_argv args) q (map (fun _ => []) CLI_FILEN_ARGS).

Lemma new_parser_words posix name a0 args g : Forall cstr args ->
  match parse_words posix args (cli_table, new_end 20) with
  | Ret q => wf_state (map hdr cli_table) q /\
      exists g', new_parser posix name (a0 :: args) g = Ret (g', parsed name a0 args q)
  | Fault f => new_parser posix name (a0 :: args) g = Fault f
  end.
Proof.
  intros Hc. pose proof (arg_parse_words posix a0 args g (cli_table, new_end 20) cli_letters Hc) as H.
  pose proof (parse_words_safe posix _ args _ cli_wf) as Hs.
  change (arg_reset (cli_table, new_end 20)) with (cli_table, new_end 20) in H.
  unfold new_parser, Init. cbn [_args _parser_name _files].
  destruct (parse_words posix args (cli_table, new_end 20)) as [q|f]; [|by rewrite H].
  split; [done|]. destruct H as [g' ->]. by exists g'.
Qed.

Lemma literal_cstr neg ds : Forall (fun c => is_Some (digit_in 10 c)) ds -> cstr (literal neg Dec ds NoUnit []).
Proof.
  intros Hds. unfold literal, cstr. simpl. rewrite app_nil_r.
  intros [H|H]%elem_of_app; [destruct neg; simpl in H; set_solver|].
  rewrite Forall_forall in Hds. apply Hds in H as [? H]. done.
Qed.

Lemma option_word_cstr o : option_ok o -> cstr (option_word o).
Proof.
  destruct o as [i s]. intros (e & n & Hi & Hn & Hs). simpl in Hi, Hs.
  destruct (name_lookup i e n Hi Hn) as (_ & _ & _ & _ & _ & _ & _ & _ & Hc).
  unfold option_word. cbn [fst snd]. rewrite Hi. simpl. rewrite Hn. simpl.
  repeat (apply not_elem_of_cons; split; [done|]). apply cstr_app; [done|].
  unfold setting_ok in Hs. destruct s as [|neg ds|x]; simpl; [apply not_elem_of_nil| |];
    apply not_elem_of_cons; (split; [done|]).
  - apply literal_cstr. destruct (data e); try done. apply Hs.
  - destruct (data e); try done; apply Hs.
Qed.

(** C12 Options written out and parsed are the options again, and the script may stand
    anywhere among them, or after them when POSIXLY_CORRECT is in the environment
    ([posix]): the parser of "--name=value" words with one operand has no errors, every
    option given has its value and a count of one, the operand is the script and every
    other entry is as the constructor left it. *)
Theorem options_roundtrip (posix : bool) name a0 os1 os2 script g :
  posix = false \/ os2 = [] ->
  NoDup (map fst (os1 ++ os2)) -> Forall option_ok (os1 ++ os2) ->
  is_operand script = true -> script <> [] -> cstr script ->
  exists g' p,
    new_parser posix name (a0 :: map option_word os1 ++ script :: map option_word os2) g = Ret (g', p) /\
    _nerrors p = Some 0 /\
    forall i e, cli_table !! i = Some e ->
      fst (_args p) !! i = Some (match list_find (fun o => fst o = i) (os1 ++ os2 ++ [(script_index, SText script)]) with
                                 | Some (_, o) => set_entry (snd o) e | None => e end).
Proof.
  intros Hpx Hnd Hok Hop Hne Hc.
  pose proof (new_parser_words posix name a0 (map option_word os1 ++ script :: map option_word os2) g) as H.
  rewrite (parse_options posix os1 os2 script) in H by done. destruct H as [_ [g' Hp]].
  { apply Forall_app in Hok as [Hok1 Hok2]. apply Forall_app.
    split; [|constructor; [done|]]; apply Forall_fmap; (eapply Forall_impl; [done|]); apply option_word_cstr. }
  eexists g', _. split; [exact Hp|]. split; [done|]. intros i e Hi. apply set_options_lookup; [|done].
  rewrite app_assoc, map_app. apply NoDup_app. split; [done|]. split; [|apply NoDup_singleton].
  intros k Hk ->%list_elem_of_singleton. apply list_elem_of_fmap in Hk as (o & Ho & Hin).
  rewrite Forall_forall in Hok. apply Hok, option_ok_value in Hin as [_ Hin]. simpl in Ho. congruence.
Qed.

Definition getopt0 : gstate := mkG [] 1 63 false None None (-1) (-1) 0.

Lemma options_roundtrip_witness :
  exists g' p,
    new_parser false (bs "p") (map bs ["aworker"; "--eval"; "--mode=seed"; "a.js"; "--loop-latency-limit-ms=20"]) getopt0
      = Ret (g', p) /\
    _nerrors p = Some 0 /\
    forall i e, cli_table !! i = Some e ->
      fst (_args p) !! i = Some (match list_find (fun o => fst o = i)
        ([(6%nat, SFlag); (29%nat, SText (bs "seed"))] ++ [(25%nat, SInt false (bs "20"))]
         ++ [(script_index, SText (bs "a.js"))]) with
        | Some (_, o) => set_entry (snd o) e | None => e end).
Proof.
  refine (options_roundtrip false (bs "p") (bs "aworker") [(6%nat, SFlag); (29%nat, SText (bs "seed"))]
            [(25%nat, SInt false (bs "20"))] (bs "a.js") getopt0 _ _ _ _ _ _); try done.
  - by left.
  - by apply (bool_decide_eq_true_1 _).
  - repeat constructor; (eexists _, _; split; [reflexivity|]; split; [reflexivity|]).
    + exact I.
    + split; [done|]. by apply cstr_const.
    + split; [|split; [done|by split]]. repeat constructor; by eexists.
  - by apply cstr_const.
Defined.

(** * How a start ends *)

(** The usage text depends on the headers only. *)
Lemma help_headers t t' : map hdr t = map hdr t' ->
  syntax_entries t = syntax_entries t' /\ arg_print_glossary_ds 25 t = arg_print_glossary_ds 25 t' /\
  forall b, switch_letters t b = switch_letters t' b.
Proof.
  revert t'. induction t as [|e t IH]; intros [|e' t']; [done..|]. intros [= He Ht].
  destruct (IH t' Ht) as (H1 & H2 & H3). cbn [syntax_entries arg_print_glossary_ds].
  rewrite He, H1, H2. split; [done|]. split; [done|]. intros b. specialize (H3 b).
  unfold switch_letters in *. simpl. by rewrite He, H3.
Qed.

Lemma print_help_ok p : map hdr (fst (_args p)) = map hdr cli_table -> exists s, PrintHelp p = Ret s.
Proof.
  intros Hh. destruct (help_headers _ _ Hh) as (H1 & H2 & H3).
  unfold PrintHelp, arg_print_syntax_ds, arg_print_gnuswitch_ds. rewrite H1, H2, !H3.
  assert (H : match syntax_entries cli_table, arg_print_glossary_ds 25 cli_table with
              | Ret _, Ret _ => true | _, _ => false end = true) by (vm_compute; reflexivity).
  destruct (syntax_entries cli_table); [|done]. destruct (arg_print_glossary_ds 25 cli_table); [|done].
  simpl. by eexists.
Qed.

Lemma index_in_lookup v l i : index_in v l = Some i -> l !! i = Some v.
Proof.
  revert i. induction l as [|x l IH]; intros i; simpl; [done|]. case_bool_decide; [by intros [= <-]; subst|].
  destruct (index_in v l) as [j|]; [|done]. intros [= <-]. by apply IH.
Qed.

(** Raising an option sets it and no other. *)
Lemma raise_has p v w i n a b u f : index_in v cli_vars = Some i -> is_Some (fst (_args p) !! i) ->
  has (mkParser n a b u (raise v (_args p)) f) w = has p w || bool_decide (w = v).
Proof.
  intros Hv [e He]. unfold has, entry_of, raise. cbn [_args]. rewrite Hv. cbn [fst].
  destruct (index_in w cli_vars) as [j|] eqn:Ej; simpl.
  - destruct (decide (j = i)) as [->|Hne].
    + rewrite list_lookup_alter_eq, He. simpl. rewrite bool_decide_eq_true_2; [by rewrite orb_true_r|].
      apply index_in_lookup in Ej, Hv. congruence.
    + rewrite list_lookup_alter_ne by done. rewrite bool_decide_eq_false_2; [by rewrite orb_false_r|].
      intros ->. congruence.
  - rewrite bool_decide_eq_false_2; [done|]. intros ->. congruence.
Qed.

Section starts.
Context (absolute : bytes -> bytes).

(** The modes a process may run in. *)
Definition known_mode (m : bytes) : Prop := m = bs "normal" \/ m = bs "seed" \/ m = bs "seed-userland".

(** The parser a process goes on with. *)
Definition continued (p : CommandlineParser) : CommandlineParser :=
  mkParser (_parser_name p) (_nerrors p) (_exec_path p) (_user_argv p)
    (apply_implies p (_args p)) (resolve_files absolute p).

Lemma continued_has p w : map hdr (fst (_args p)) = map hdr cli_table ->
  has (continued p) w = has p w || (bool_decide (w = bs "enable_trace_event") && has p (bs "trace_event_categories")).
Proof.
  intros Hh. unfold continued, apply_implies. simpl. destruct (has p (bs "trace_event_categories")) eqn:Ht.
  - rewrite (raise_has p _ w 5%nat), andb_true_r by (done || (apply lookup_lt_is_Some;
      rewrite <-(length_map hdr), Hh; vm_compute; lia)). done.
  - rewrite andb_false_r, orb_false_r. done.
Qed.

Lemma Evaluate_ok p : _nerrors p = Some 0 -> map hdr (fst (_args p)) = map hdr cli_table ->
  Evaluate absolute p = Ret (
    if has p (bs "help") then Exit 0
    else if negb (bool_decide (str_of p (bs "mode") = bs "normal")) &&
            (has p (bs "threaded_platform") ||
             negb (bool_decide (str_of p (bs "mode") = bs "seed")) &&
             negb (bool_decide (str_of p (bs "mode") = bs "seed-userland"))) then Exit 4
    else if has p (bs "dump_arguments") then Exit 0 else Continue (continued p)).
Proof.
  intros Hn Hh. destruct (print_help_ok p Hh) as [s Hs]. pose proof (continued_has p (bs "dump_arguments") Hh) as Hd.
  rewrite orb_false_r in Hd by done. unfold Evaluate. cbv zeta. fold (continued p).
  rewrite Hn, Hs, Hd. change (0 <? 0) with false. cbn iota.
  destruct (has p (bs "help")); [by rewrite outcome_bind_ret|].
  destruct (bool_decide (str_of p (bs "mode") = bs "normal")); cbn [negb andb].
  { by destruct (has p (bs "dump_arguments")). }
  destruct (has p (bs "threaded_platform")); cbn [orb]; [done|].
  destruct (negb _ && negb _); [by rewrite outcome_bind_ret|]. by destruct (has p (bs "dump_arguments")).
Qed.

(** The operands and the options of a command line. *)
Definition operands (posix : bool) (args : list bytes) : list bytes := snd (scan posix cli_so cli_lo None [] args).
Definition options (posix : bool) (args : list bytes) : list item := fst (scan posix cli_so cli_lo None [] args).

Lemma start_errors p n : _nerrors p = Some n -> 0 < n -> forall p', Evaluate absolute p <> Ret (Continue p').
Proof.
  intros Hn Hpos p'. unfold Evaluate. rewrite Hn. destruct (Z.ltb_spec 0 n); [|lia].
  destruct (arg_print_errors _ _); simpl; [|done]. by destruct (PrintHelp p).
Qed.

(** C13 A process only starts on a command line that was understood: when the constructor
    and [Evaluate] return, argtable reported no error, every word was counted by an
    entry, there is at most one operand, the mode is a known one and only the normal
    mode has the threaded platform, neither the help nor the dump was asked for, and
    trace categories come with the trace event option.  [posix] is whether
    POSIXLY_CORRECT is in the environment; the first operand ends the options then. *)
Theorem started_is_valid (posix : bool) name a0 args g g' p p' :
  Forall cstr args -> new_parser posix name (a0 :: args) g = Ret (g', p) ->
  Evaluate absolute p = Ret (Continue p') ->
  _nerrors p' = Some 0 /\ (length (operands posix args) <= 1)%nat /\
  total everything (fst (_args p)) = Z.of_nat (length (options posix args) + length (operands posix args)) /\
  known_mode (str_of p (bs "mode")) /\
  (has p (bs "threaded_platform") = true -> str_of p (bs "mode") = bs "normal") /\
  has p' (bs "help") = false /\ has p' (bs "dump_arguments") = false /\
  has p' (bs "enable_trace_event") = has p (bs "enable_trace_event") || has p (bs "trace_event_categories").
Proof.
  intros Hc Hnew Hev. pose proof (new_parser_words posix name a0 args g Hc) as Hw.
  destruct (parse_words posix args (cli_table, new_end 20)) as [q|f] eqn:Eq; [|congruence].
  destruct Hw as [Hwf [g2 Hp]]. rewrite Hnew in Hp. injection Hp as -> ->.
  destruct Hwf as (Hent & Hh & Hend).
  destruct (Z.eq_dec (end_count (snd q)) 0) as [Hz|Hz].
  2:{ exfalso. eapply start_errors; [| |exact Hev]; [reflexivity|]. unfold end_count in *. lia. }
  pose proof (operands_fit posix _ args _ _ cli_wf Eq Hz) as Hops.
  pose proof (words_counted posix args (cli_table, new_end 20) q ltac:(done) Eq Hz) as Htot.
  change (Z.of_nat (length (operands posix args)) <= 1) in Hops.
  change (arg_reset (cli_table, new_end 20)) with (cli_table, new_end 20) in Htot. cbn [fst] in Htot.
  fold cli_so cli_lo in Htot.
  rewrite (Evaluate_ok (parsed name a0 args q)) in Hev; [|simpl; by rewrite Hz|done].
  set (p := parsed name a0 args q) in *.
  destruct (has p (bs "help")) eqn:E1; [done|]. 
  match type of Hev with context [if ?b then Exit 4 else _] => destruct b eqn:E2; [done|] end.
  destruct (has p (bs "dump_arguments")) eqn:E3; [done|]. injection Hev as <-.
  rewrite !continued_has, E1, E3 by done.
  split; [simpl; by rewrite Hz|]. split; [lia|]. split; [|split; [|split; [|done]]].
  - unfold options, operands. by destruct (scan posix cli_so cli_lo None [] args).
  - unfold known_mode. revert E2. repeat case_bool_decide; auto. by rewrite orb_true_r.
  - intros Ht. rewrite Ht in E2. revert E2. by case_bool_decide.
Qed.
End starts.

Lemma started_is_valid_witness :
  exists g' p p',
    new_parser false (bs "p") (map bs ["aworker"; "--mode"; "seed"; "a.js"; "--trace-event-categories=v8"]) getopt0
      = Ret (g', p) /\
    Evaluate (fun s => s) p = Ret (Continue p') /\ known_mode (str_of p (bs "mode")).
Proof.
  assert (H : exists g' p p',
    new_parser false (bs "p") (map bs ["aworker"; "--mode"; "seed"; "a.js"; "--trace-event-categories=v8"]) getopt0
      = Ret (g', p) /\
    Evaluate (fun s => s) p = Ret (Continue p')) by (eexists _, _, _; split; vm_compute; reflexivity).
  destruct H as (g' & p & p' & Hn & He). exists g', p, p'. split; [exact Hn|]. split; [exact He|].
  refine (proj1 (proj2 (proj2 (proj2 (started_is_valid (fun s => s) false (bs "p") (bs "aworker")
    (map bs ["--mode"; "seed"; "a.js"; "--trace-event-categories=v8"]) getopt0 g' p p' _ Hn He))))).
  repeat constructor; by apply cstr_const.
Defined.

(** * An option given twice *)

(** Options with a value have no letter and one name. *)
Lemma value_names i e n s : cli_table !! i = Some e -> longopts (hdr e) = Some n -> setting_ok e s -> s <> SFlag ->
  shortopts (hdr e) = None /\ first_name n = n.
Proof.
  intros Hi Hn Hs Hf.
  assert (H : forallb (fun e => match data e, longopts (hdr e) with
                | ArgLit, _ | _, None => true
                | _, Some n => bool_decide (shortopts (hdr e) = None) && bool_decide (first_name n = n) end) cli_table = true)
    by (vm_compute; reflexivity).
  rewrite forallb_forall in H. specialize (H e (proj1 (list_elem_of_In _ _) (list_elem_of_lookup_2 _ _ _ Hi))).
  rewrite Hn in H. unfold setting_ok in Hs.
  destruct (data e), s; try done; apply andb_true_iff in H as [H1 H2];
    by apply bool_decide_eq_true_1 in H1, H2.
Qed.

Lemma excess_text n v : first_name n = n -> n <> [] ->
  optionv_text None (Some n) (Some v) false (bs "|") = bs "--" ++ n ++ bs "=" ++ v.
Proof.
  intros Hf Hn. unfold optionv_text. cbn [datatype_text]. destruct n as [|c n]; [done|].
  cbn [length names_text]. rewrite Hf, drop_all. simpl. rewrite ?app_nil_r. done.
Qed.

Lemma scanfn_full e v : count e = maxcount (hdr e) ->
  scanfn e v = Ret (ARG_ERR_MAXCOUNT, e).
Proof.
  intros Hc. unfold scanfn, arg_lit_scanfn, arg_int_scanfn, arg_str_scanfn, arg_file_scanfn.
  rewrite Hc, Z.eqb_refl, Z.ltb_irrefl. by destruct (data e).
Qed.

(** The second of two occurrences is an error of the entry, which keeps the first. *)
Lemma parse_twice posix i s1 s2 : option_ok (i, s1) -> option_ok (i, s2) ->
  parse_words posix [option_word (i, s1); option_word (i, s2)] (cli_table, new_end 20)
  = Ret (set_options [(i, s1)] cli_table, mkEnd 20 [mkErr ARG_ERR_MAXCOUNT (Some i) (setting_arg s2)]).
Proof.
  intros H1 H2. unfold parse_words. cbn [fst snd]. fold cli_so cli_lo.
  assert (Hscan : scan posix cli_so cli_lo None [] [option_word (i, s1); option_word (i, s2)]
                  = ([option_item (i, s1)] ++ [option_item (i, s2)], [])).
  { apply (scan_options posix [(i, s1); (i, s2)] [] []). by repeat constructor. }
  rewrite Hscan. cbn iota beta.
  destruct (option_ok_value _ H1) as [Hv1 _]. destruct (option_ok_value _ H2) as [Hv2 _].
  pose proof (handle_options [(i, s1)] cli_table (new_end 20) (NoDup_singleton _)
    ltac:(constructor; [by apply option_ok_applicable|constructor]) ltac:(by constructor)) as Hh.
  cbn [map] in Hh. set (t := set_options [(i, s1)] cli_table) in *.
  cbn [handle_all app] in Hh |- *.
  destruct (handle_item (option_item (i, s1)) (cli_table, new_end 20)) as [q|] eqn:Eq; [|done].
  simpl in Hh. injection Hh as ->. rewrite outcome_bind_ret.
  destruct H1 as (e & n & He & Hn & Hs1). simpl in He.
  pose proof (proj2 (proj2 (Forall_lookup_1 _ _ _ _ cli_table_fresh He))) as Hm.
  assert (Ht : t !! i = Some (set_entry s1 e)) by (unfold t; simpl; by rewrite list_lookup_alter_eq, He).
  assert (Hg : vec_get t (Z.of_nat i) = Ret (set_entry s1 e)).
  { unfold vec_get. destruct (Z.ltb_spec (Z.of_nat i) 0); [lia|]. by rewrite Nat2Z.id, Ht. }
  unfold option_item. cbn [handle_item fst snd]. rewrite Hg, outcome_bind_ret.
  rewrite bool_decide_eq_false_2 by done. cbn [andb]. rewrite outcome_bind_ret. unfold scan_entry.
  rewrite Nat2Z.id. cbn [fst snd]. rewrite Hg, outcome_bind_ret, scanfn_full
    by (by rewrite set_entry_count, set_entry_hdr, Hm).
  rewrite outcome_bind_ret. simpl. rewrite list_insert_id by done.
  assert (Hl : length t = 39%nat) by (unfold t; by rewrite set_options_length).
  rewrite Hl. unfold arg_parse_untagged. cbn [fst].
  destruct (t !! 0%nat); done.
Qed.

Lemma errorfn_excess t i ent v prog : t !! i = Some ent -> data ent <> ArgLit ->
  errorfn t (mkErr ARG_ERR_MAXCOUNT (Some i) (Some v)) prog
  = (o ← arg_print_option_ds (shortopts (hdr ent)) (longopts (hdr ent)) (Some v) [x0a];
     Ret (prog ++ bs ": " ++ bs "excess option " ++ o)).
Proof.
  intros Hi Hd. unfold errorfn, vec_get. cbn [e_parent e_code e_argval].
  destruct (Z.ltb_spec (Z.of_nat i) 0); [lia|]. rewrite Nat2Z.id, Hi. cbn [from_option]. rewrite outcome_bind_ret.
  unfold arg_int_errorfn, arg_str_errorfn, arg_file_errorfn. cbn [default].
  change (ARG_ERR_MAXCOUNT =? ARG_ERR_MINCOUNT) with false. change (ARG_ERR_MAXCOUNT =? ARG_ERR_MAXCOUNT) with true.
  cbn iota. destruct (data ent); [done|..]; by destruct (arg_print_option_ds _ _ _ _).
Qed.

Lemma set_entry_kind s1 s2 e : setting_ok e s2 -> s2 <> SFlag -> data (set_entry s1 e) <> ArgLit.
Proof. unfold setting_ok, set_entry. by destruct (data e) eqn:E, s1, s2; simpl; rewrite ?E. Qed.

Section twice.
Context (absolute : bytes -> bytes).

(** The second occurrence of an option is refused, and its message is printed into a
    buffer of 200 characters: [Evaluate] exits with code 4 if the second occurrence is
    shorter than that, and writes behind the buffer if it is not. *)
Theorem repeated_option_overflows (posix : bool) name a0 i s1 s2 g :
  option_ok (i, s1) -> option_ok (i, s2) -> s2 <> SFlag ->
  exists g' p,
    new_parser posix name [a0; option_word (i, s1); option_word (i, s2)] g = Ret (g', p) /\
    _nerrors p = Some 1 /\
    Evaluate absolute p = if (length (option_word (i, s2)) <? 200)%nat then Ret (Exit 4) else Fault OutOfBounds.
Proof.
  intros H1 H2 Hf. pose proof (new_parser_words posix name a0 [option_word (i, s1); option_word (i, s2)] g) as Hw.
  rewrite (parse_twice posix i s1 s2) in Hw by done.
  destruct Hw as [(_ & Hh & _) [g' Hp]]; [repeat constructor; by apply option_word_cstr|].
  eexists g', _. split; [exact Hp|]. split; [done|]. clear Hp.
  unfold Evaluate. cbn [_nerrors parsed]. change (0 <? _) with true. cbn iota.
  destruct (print_help_ok (parsed name a0 [option_word (i, s1); option_word (i, s2)]
    (set_options [(i, s1)] cli_table, mkEnd 20 [mkErr ARG_ERR_MAXCOUNT (Some i) (setting_arg s2)])) Hh) as [h Hhelp].
  pose proof H2 as (e & n & He & Hn & Hs2). simpl in He.
  destruct (value_names i e n s2 He Hn Hs2 Hf) as [Hso Hfn].
  destruct (name_lookup i e n He Hn) as (_ & _ & _ & _ & _ & _ & _ & Hne & Hcn).
  destruct (setting_arg s2) as [v|] eqn:Hv; [|by destruct s2].
  assert (Htext : option_word (i, s2) = bs "--" ++ n ++ bs "=" ++ v)
    by (unfold option_word; cbn [fst snd]; rewrite He, Hv; simpl; by rewrite Hn).
  assert (Hcv : cstr v).
  { pose proof (option_word_cstr _ H2) as Hc. rewrite Htext in Hc. unfold cstr in *. set_solver. }
  assert (Hprint : forall sfx, arg_print_option_ds (shortopts (hdr e)) (longopts (hdr e)) (Some v) sfx
    = if (length (option_word (i, s2)) <? 200)%nat then Ret (option_word (i, s2) ++ sfx) else Fault OutOfBounds).
  { intros sfx. rewrite Hso, Hn, print_option_spec, excess_text, <-Htext by done. done. }
  unfold arg_print_errors. cbn [parsed _args fst snd errors arg_print_errors_ds].
  rewrite (errorfn_excess _ i (set_entry s1 e)), set_entry_hdr, Hprint.
  2:{ simpl. by rewrite list_lookup_alter_eq, He. }
  2:{ by eapply set_entry_kind. }
  destruct (length (option_word (i, s2)) <? 200)%nat; [|done].
  rewrite !outcome_bind_ret. by rewrite Hhelp.
Qed.
End twice.

Lemma repeated_option_overflows_witness :
  exists g' p,
    new_parser false (bs "p") [bs "aworker"; option_word (29%nat, SText (bs "seed"));
      option_word (29%nat, SText (replicate 193 x61))] getopt0 = Ret (g', p) /\
    _nerrors p = Some 1 /\
    Evaluate (fun s => s) p = if (length (option_word (29%nat, SText (replicate 193 x61))) <? 200)%nat
                              then Ret (Exit 4) else Fault OutOfBounds.
Proof.
  apply (repeated_option_overflows (fun s => s) false (bs "p") (bs "aworker") 29 (SText (bs "seed"))
           (SText (replicate 193 x61)) getopt0); [..|done];
    (eexists _, _; split; [reflexivity|]; split; [reflexivity|]; split; [done|by apply cstr_const]).
Defined.

(** * Parsers in a group *)

Lemma traverse_push {A} (gr : group) p var (f nf : CommandlineParser -> A) : gr <> [] ->
  traverse (gr ++ [p]) var f nf = if has p var then Ret (f p) else traverse gr var f nf.
Proof.
  intros Hgr. unfold traverse. rewrite reverse_snoc. destruct gr as [|q gr]; [done|]. cbn [app list_find].
  destruct (has p var) eqn:E.
  - by rewrite decide_True by done.
  - rewrite decide_False by (intros []). by destruct (list_find _ _) as [[? ?]|].
Qed.

(** A parser pushed on a group takes precedence option by option: every option it has
    is its own, and the others are what the group answered before; a full push forgets
    the group.  The pushed parser is the one its arguments give, whatever getopt's
    state was left at by the parsers before it. *)
Theorem pushed_parser_wins (posix : bool) name a0 args g gr mode q :
  Forall cstr args -> parse_words posix args (cli_table, new_end 20) = Ret q -> gr <> [] ->
  let p := parsed name a0 args q in
  exists g',
    PushCommandlineParser posix name (a0 :: args) mode g gr
      = Ret (g', match mode with kFull => [p] | kIncremental => gr ++ [p] end) /\
    forall var,
      group_has (gr ++ [p]) var = (if has p var then Ret true else group_has gr var) /\
      group_int (gr ++ [p]) var = (if has p var then Ret (int_of p var) else group_int gr var) /\
      group_str (gr ++ [p]) var = (if has p var then Ret (str_of p var) else group_str gr var) /\
      group_file (gr ++ [p]) var = (if has p var then Ret (file_of p var) else group_file gr var).
Proof.
  intros Hc Hq Hgr p. pose proof (new_parser_words posix name a0 args g Hc) as H. rewrite Hq in H.
  destruct H as [_ [g' H]]. exists g'. split.
  - unfold PushCommandlineParser. rewrite H, outcome_bind_ret. by destruct mode.
  - intros var. unfold group_has, group_int, group_str, group_file. by rewrite !traverse_push.
Qed.

Lemma pushed_parser_wins_witness :
  exists q, parse_words false (map bs ["--mode=seed"]) (cli_table, new_end 20) = Ret q /\
    let p0 := mkParser (bs "$default") (Some 0) [] [] (cli_table, new_end 20) [] in
    let p := parsed (bs "second") (bs "aworker") (map bs ["--mode=seed"]) q in
    group_str [p0; p] (bs "mode") = if has p (bs "mode") then Ret (str_of p (bs "mode")) else group_str [p0] (bs "mode").
Proof.
  assert (H : exists q, parse_words false (map bs ["--mode=seed"]) (cli_table, new_end 20) = Ret q)
    by (eexists; vm_compute; reflexivity).
  destruct H as [q Hq]. exists q. split; [exact Hq|]. intros p0 p.
  destruct (pushed_parser_wins false (bs "second") (bs "aworker") (map bs ["--mode=seed"]) getopt0 [p0] kIncremental q)
    as (g' & _ & H); [repeat constructor; by apply cstr_const|exact Hq|done|].
  exact (proj1 (proj2 (proj2 (H (bs "mode"))))).
Defined.

(** ** What a parser says about the arguments of the script *)

(** The value of an option stands for the script: the word "seed" ends the options, and
    the script itself is taken for its first argument. *)
Example user_argv_of_value :
  (_user_argv ∘ snd <$> new_parser false (bs "p") (map bs ["aworker"; "--mode"; "seed"; "a.js"]) getopt0)
  = Ret [bs "a.js"] /\
  ((fun r => str_of (snd r) (bs "script_filename")) <$>
     new_parser false (bs "p") (map bs ["aworker"; "--mode"; "seed"; "a.js"]) getopt0) = Ret (bs "a.js").
Proof. split; vm_compute; reflexivity. Qed.

(** An argument for the script is refused, whatever [_user_argv] holds. *)
Example script_arguments_refused :
  ((fun r => (_user_argv (snd r), _nerrors (snd r))) <$>
     new_parser false (bs "p") (map bs ["aworker"; "a.js"; "x"]) getopt0) = Ret ([bs "x"], Some 1).
Proof. vm_compute. reflexivity. Qed.

(** Without arguments the number of errors is read before it is set. *)
Example no_arguments_uninitialised absolute :
  exists p, new_parser false (bs "p") [] getopt0 = Ret (getopt0, p) /\
    Evaluate absolute p = Fault Uninitialised.
Proof. by eexists. Qed.
