(* ===== verification/DiagReport.v ===== *)
(** * The diagnostic report

    src/src/diag_report.{h,cc} and diag_report_utils.cc: the report the process writes
    about itself when it fails or is asked to, with the writer of [JsonUtils], the
    formatter of [Format] and the environment of [Environ].

    What V8, libuv and the operating system answer is a record, [Facts]; the
    definitions make the calls of the writer that the source makes for it.  Doubles
    are given with their text.

    The theorems: the calls are those of a tree, so that the report is one JSON
    document by the grammar of [JsonGrammar], compact or indented; which stack frames of an error
    the report holds (all but the last); a timer's remaining time; the names of
    generated files do not repeat; and where a report goes. *)

From S2P Require Import Prelude Json JsonUtils JsonGrammar Format JsMessages Environ.
Import String.StringSyntax.
Local Open Scope string_scope.
Local Open Scope list_scope.
Local Open Scope Z_scope.

(** * Text *)

(** A number with at least [width] characters, as a stream with a fill character or as
    printf with blanks prints it. *)
Definition pad (fill : byte) (width : nat) (t : bytes) : bytes :=
  replicate (width - length t) fill ++ t.

(** printf's "%02d". *)
Definition pad_zero (width : nat) (z : Z) : bytes :=
  if z <? 0 then x2d :: pad x30 (width - 1) (dec (- z)) else pad x30 width (dec z).

Fixpoint hex_go (fuel : nat) (v : Z) (acc : bytes) : bytes :=
  match fuel with
  | O => acc
  | S fuel =>
      let acc := nth (Z.to_nat (v mod 16)) hex_digits x30 :: acc in
      if v <? 16 then acc else hex_go fuel (v / 16) acc
  end.

(** [src/src/diag_report.h 64-71, ValueToHexString] For the 64-bit types it is used with. *)
Definition ValueToHexString (value : Z) : bytes :=
  bs "0x" ++ pad x30 16 (hex_go 16 (u64 value) []).

(** [struct tm] *)
Record Tm := mkTm { tm_year : Z; tm_mon : Z; tm_mday : Z; tm_hour : Z; tm_min : Z; tm_sec : Z }.

(** [src/src/diag_report.cc 214-222, WriteDiagReport] snprintf into 64 characters. *)
Definition time_text (t : Tm) : bytes :=
  take 63 (pad x20 4 (dec (tm_year t + 1900)) ++ bs "-" ++ pad_zero 2 (tm_mon t + 1) ++ bs "-" ++
           pad_zero 2 (tm_mday t) ++ bs "T" ++ pad_zero 2 (tm_hour t) ++ bs ":" ++
           pad_zero 2 (tm_min t) ++ bs ":" ++ pad_zero 2 (tm_sec t) ++ bs "Z").

(** [src/src/diag_report_utils.cc 25-50, MakeFilename] The name and the next value of the
    process' counter. *)
Definition MakeFilename (prefix ext : bytes) (t : Tm) (pid seq : Z) : bytes * Z :=
  let seq := i32 (seq + 1) in
  (prefix ++ bs "." ++ pad x30 4 (dec (tm_year t + 1900)) ++ pad x30 2 (dec (tm_mon t + 1)) ++
   pad x30 2 (dec (tm_mday t)) ++ bs "." ++ pad x30 2 (dec (tm_hour t)) ++
   pad x30 2 (dec (tm_min t)) ++ pad x30 2 (dec (tm_sec t)) ++ bs "." ++ dec pid ++ bs "." ++
   pad x30 3 (dec seq) ++ bs "." ++ ext, seq).

(** * What the report is about *)

(** V8's answer for one property: the name when it is a string, the text of its value
    when there is one. *)
Definition property : Type := option bytes * option bytes.

(** The JavaScript value a report is written for. *)
Inductive js_error :=
  | NoError
  | ErrorObject (stack : option bytes) (keys : option (list property))
  | ErrorValue (text : option bytes).

(** A frame of a JavaScript stack: V8's names (a null pointer when they cannot be
    converted), line and column. *)
Record frame := mkFrameOf { fn_ptr : Z; fn_name : bytes; sc_ptr : Z; sc_name : bytes; fr_line : Z; fr_col : Z }.

(** v8::StateTag *)
Inductive StateTag := JS | GC | PARSER | BYTECODE_COMPILER | COMPILER | OTHER | EXTERNAL | ATOMICS_WAIT | IDLE | NoTag.

(** [src/src/debug_utils.cc 537-564, VmStateToString] *)
Definition VmStateToString (t : StateTag) : bytes :=
  match t with
  | JS => bs "JS" | GC => bs "GC" | PARSER => bs "PARSER" | BYTECODE_COMPILER => bs "BYTECODE_COMPILER"
  | COMPILER => bs "COMPILER" | OTHER => bs "OTHER" | EXTERNAL => bs "EXTERNAL"
  | ATOMICS_WAIT => bs "ATOMICS_WAIT" | IDLE => bs "IDLE" | NoTag => bs "UNKNOWN"
  end.

(** What sampling the stack gave. *)
Inductive stack_sample := NoFrames (vm_state : StateTag) | Frames (l : list frame).

(** v8::HeapStatistics and v8::HeapSpaceStatistics *)
Record heap_space := mkSpace {
  space_name : bytes; space_size : Z; physical_space_size : Z; space_used_size : Z; space_available_size : Z }.
Record heap_stats := mkHeapStats {
  total_heap_size : Z; total_physical_size : Z; used_heap_size : Z; total_available_size : Z;
  heap_size_limit : Z; heap_spaces : list heap_space }.

(** The types of libuv's handles that the report tells apart. *)
Inductive uv_handle_type :=
  UV_FS_EVENT | UV_FS_POLL | UV_TCP | UV_UDP | UV_NAMED_PIPE | UV_TIMER | UV_TTY | UV_POLL | UV_OTHER.
#[export] Instance uv_handle_type_eq_dec : EqDecision uv_handle_type := ltac:(solve_decision).

(** One end of a connection: the host as uv_getnameinfo and as uv_inet_ntop give it. *)
Record endpoint := mkEndpoint { nameinfo : option bytes; ntop : option bytes; port : Z }.

Definition UV_ENOBUFS : Z := -105.

(** A query of a name into a buffer of the given size: the result code, the size
    reported back, the C string in the buffer afterwards. *)
Definition name_query : Type := nat -> Z * nat * bytes.

Record uv_handle := mkHandleOf {
  h_type : uv_handle_type; type_name : bytes; is_active : bool; has_ref : bool; h_address : Z;
  getpath : name_query;
  getsockname : option endpoint; getpeername : option endpoint;
  pipe_sockname : name_query; pipe_peername : name_query;
  timer_due : Z; timer_now : Z; timer_repeat : Z;
  winsize : option (Z * Z);
  send_buffer_size : Z; recv_buffer_size : Z;
  fileno : option Z;
  write_queue_size : Z; readable : bool; writable_ : bool }.

(** [struct rusage], and the doubles computed from it. *)
Record rusage := mkRusage {
  user_cpu : dbl; kernel_cpu : dbl; cpu_percentage : Z -> dbl;
  ru_maxrss : Z; ru_majflt : Z; ru_minflt : Z; ru_inblock : Z; ru_oublock : Z }.

Record utsname := mkUts { sysname : bytes; release : bytes; version : bytes; machine : bytes }.

Record Facts := mkFacts {
  now_tm : Tm; timeofday : option (Z * Z); pid : Z; cwd : option bytes;
  aworker_version : bytes; libc_runtime : option bytes; libc_compiler : option bytes;
  arch : bytes; platform : bytes; versions : list (bytes * bytes);
  os_info : option utsname; host : option bytes;
  sample : stack_sample; native_frames : list (Z * bytes);
  heap : heap_stats;
  loop_handles : option (list uv_handle); loop_alive : bool; loop_address : Z;
  hrtime : Z; time_origin : Z; usage : option rusage;
  calloc_ok : bool; strdup_ok : nat -> bool; os_env : list bytes;
  getrlimit : Z -> option (Z * Z); libraries : list bytes }.

(** * libuv's handles *)

Definition kv (w : Writer) (k : String.string) (v : scalar) : Writer := json_keyvalue w (bs k) v.

(** A [const char*] and a [std::string] as values. *)
Definition chars (s : bytes) : scalar := VString (c_str s).

(** [src/src/diag_report_utils.cc 53-90, ReportEndpoint] *)
Definition ReportEndpoint (addr : option endpoint) (name : String.string) (w : Writer) : Writer :=
  match addr with
  | None => kv w name VNull
  | Some e =>
      let host := match nameinfo e with Some h => Some h | None => ntop e end in
      let w := json_objectstart w (bs name) in
      let w := match host with Some h => kv w "host" (chars h) | None => w end in
      json_objectend (kv w "port" (VInt (port e)))
  end.

(** [src/src/diag_report_utils.cc 93-123, ReportEndpoints] *)
Definition ReportEndpoints (h : uv_handle) (w : Writer) : Writer :=
  let udp_or_tcp := bool_decide (h_type h = UV_UDP \/ h_type h = UV_TCP) in
  let w := ReportEndpoint (if udp_or_tcp then getsockname h else None) "localEndpoint" w in
  ReportEndpoint (if udp_or_tcp then getpeername h else None) "remoteEndpoint" w.

(** A buffer: its size and, unless it is null, its text. *)
Definition rbuffer : Type := nat * option bytes.

(** [src/src/diag_report_utils.cc 132-146, ReportPipeEndpoints] One name: a call with the
    buffer as it is, and a second one when it was too small.  [ResizableBuffer::Realloc]
    leaves a buffer of the same size alone and frees one of size zero. *)
Definition pipe_name (q : name_query) (b : rbuffer) (size : nat) : scalar * rbuffer * nat :=
  let '(rc, size, t) := q size in
  let b := if rc =? 0 then (fst b, (fun _ => t) <$> snd b) else b in
  let '(rc, b, size) :=
    if rc =? UV_ENOBUFS then
      let b := if (size =? fst b)%nat then b else (size, if (size =? 0)%nat then None else Some []) in
      match snd b with
      | None => (rc, b, size)
      | Some _ => let '(rc, size, t) := q size in (rc, (fst b, Some t), size)
      end
    else (rc, b, size) in
  (match snd b with
   | Some t => if (rc =? 0) && negb (size =? 0)%nat then chars t else VNull
   | None => VNull
   end, b, size).

(** [src/src/diag_report_utils.cc 126-164, ReportPipeEndpoints] *)
Definition ReportPipeEndpoints (h : uv_handle) (w : Writer) : Writer :=
  let '(local, b, size) := pipe_name (pipe_sockname h) (O, None) O in
  let w := kv w "localEndpoint" local in
  let '(remote, _, _) := pipe_name (pipe_peername h) b size in
  kv w "remoteEndpoint" remote.

(** [src/src/diag_report_utils.cc 173-198, ReportPath] The path, or null. *)
Definition path_value (h : uv_handle) : scalar :=
  if bool_decide (h_type h = UV_FS_EVENT) then
    let '(rc, size, _) := getpath h 0%nat in
    if rc =? UV_ENOBUFS then
      let '(rc, size, t) := getpath h size in
      if rc =? 0 then chars (take size t) else VNull
    else VNull
  else VNull.

(** [src/src/diag_report_utils.cc 167-200, ReportPath] *)
Definition ReportPath (h : uv_handle) (w : Writer) : Writer := kv w "filename" (path_value h).

(** Conversion to [int64_t]. *)
Definition i64 (z : Z) : Z := (z + 2 ^ 63) mod 2 ^ 64 - 2 ^ 63.

(** [src/src/diag_report_utils.cc 215-246, WalkHandle] The members of a type. *)
Definition walk_type (h : uv_handle) (w : Writer) : Writer :=
  match h_type h with
  | UV_FS_EVENT | UV_FS_POLL => ReportPath h w
  | UV_TCP | UV_UDP => ReportEndpoints h w
  | UV_NAMED_PIPE => ReportPipeEndpoints h w
  | UV_TIMER =>
      let due := timer_due h in let now := timer_now h in
      let w := kv w "repeat" (VInt (timer_repeat h)) in
      let w := kv w "firesInMsFromNow" (VInt (i64 (u64 (due - now)))) in
      kv w "expired" (VBool (due <=? now))
  | UV_TTY =>
      match winsize h with
      | Some (width, height) => kv (kv w "width" (VInt width)) "height" (VInt height)
      | None => w
      end
  | UV_POLL | UV_OTHER => w
  end.

(** [src/src/diag_report_utils.cc 203-298, WalkHandle] *)
Definition WalkHandle (w : Writer) (h : uv_handle) : Writer :=
  let w := json_start w in
  let w := kv w "type" (chars (type_name h)) in
  let w := kv w "is_active" (VBool (is_active h)) in
  let w := kv w "is_referenced" (VBool (has_ref h)) in
  let w := kv w "address" (VString (ValueToHexString (h_address h))) in
  let w := walk_type h w in
  let w := if bool_decide (h_type h = UV_TCP \/ h_type h = UV_UDP \/ h_type h = UV_NAMED_PIPE)
           then kv (kv w "sendBufferSize" (VInt (send_buffer_size h))) "recvBufferSize" (VInt (recv_buffer_size h))
           else w in
  let w := if bool_decide (h_type h = UV_TCP \/ h_type h = UV_NAMED_PIPE \/ h_type h = UV_TTY \/
                           h_type h = UV_UDP \/ h_type h = UV_POLL)
           then match fileno h with
                | Some fd =>
                    let w := kv w "fd" (VInt fd) in
                    if fd =? 0 then kv w "stdio" (VString (bs "stdin"))
                    else if fd =? 1 then kv w "stdio" (VString (bs "stdout"))
                    else if fd =? 2 then kv w "stdio" (VString (bs "stderr"))
                    else w
                | None => w
                end
           else w in
  let w := if bool_decide (h_type h = UV_TCP \/ h_type h = UV_NAMED_PIPE \/ h_type h = UV_TTY)
           then kv (kv (kv w "writeQueueSize" (VInt (write_queue_size h)))
                       "readable" (VBool (readable h))) "writable" (VBool (writable_ h))
           else w in
  json_end w.

(** * The sections of the report *)

(** [src/src/diag_report.cc 638-646, PrintComponentVersions] [versions] are the members of
    the metadata in the order of AWORKER_VERSIONS_KEYS. *)
Definition PrintComponentVersions (f : Facts) (w : Writer) : Writer :=
  let w := json_objectstart w (bs "componentVersions") in
  json_objectend (foldl (fun w '(k, v) => json_keyvalue w k (VString v)) w (versions f)).

(** A member that is written when its value is known. *)
Definition kv_known (w : Writer) (k : String.string) (v : option bytes) : Writer :=
  match v with Some s => kv w k (chars s) | None => w end.

(** [src/src/diag_report.cc 278-319, PrintVersionInformation] *)
Definition PrintVersionInformation (f : Facts) (w : Writer) : Writer :=
  let w := kv w "aworkerVersion" (chars (aworker_version f)) in
  let w := kv_known w "glibcVersionRuntime" (libc_runtime f) in
  let w := kv_known w "glibcVersionCompiler" (libc_compiler f) in
  let w := kv w "wordSize" (VInt 64) in
  let w := kv w "arch" (chars (arch f)) in
  let w := kv w "platform" (chars (platform f)) in
  let w := PrintComponentVersions f w in
  let w := match os_info f with
           | Some u =>
               let w := kv w "osName" (chars (sysname u)) in
               let w := kv w "osRelease" (chars (release u)) in
               let w := kv w "osVersion" (chars (version u)) in
               kv w "osMachine" (chars (machine u))
           | None => w
           end in
  kv_known w "host" (host f).

(** [src/src/diag_report.cc 334-350, PrintJavaScriptErrorProperties] One key of the error:
    names and values that V8 cannot give are left out, and so are the two that
    [PrintJavaScriptErrorStack] has written. *)
Definition print_property (w : Writer) (p : property) : Writer :=
  match p with
  | (Some k, Some v) =>
      if bool_decide (c_str k = bs "stack" \/ c_str k = bs "message") then w
      else json_keyvalue w k (VString v)
  | _ => w
  end.

(** [src/src/diag_report.cc 321-353, PrintJavaScriptErrorProperties] *)
Definition PrintJavaScriptErrorProperties (error : js_error) (w : Writer) : Writer :=
  let w := json_objectstart w (bs "errorProperties") in
  let w := match error with
           | ErrorObject _ (Some keys) => foldl print_property w keys
           | _ => w
           end in
  json_objectend w.

Section report.
(** The text snprintf prints for a pointer, for [SPrintF]. *)
Context (pointer_text : Z -> bytes).

(** [src/src/diag_report.cc 389-402, PrintJavaScriptErrorStackNoEval] *)
Definition frame_line (fr : frame) : outcome bytes :=
  SPrintF pointer_text (bs "at %s (%s:%d:%d)")
    [AChars (fn_ptr fr) (fn_name fr); AChars (sc_ptr fr) (sc_name fr); AInt 4 (fr_line fr); AInt 4 (fr_col fr)].

Fixpoint print_frames (w : Writer) (l : list frame) : outcome Writer :=
  match l with
  | [] => Ret w
  | fr :: l => line ← frame_line fr; print_frames (json_element w (VString line)) l
  end.

(** [src/src/diag_report.cc 357-405, PrintJavaScriptErrorStackNoEval] *)
Definition PrintJavaScriptErrorStackNoEval (f : Facts) (trigger : bytes) (w : Writer) : outcome Writer :=
  match sample f with
  | NoFrames vm =>
      m ← SPrintF pointer_text (bs "No stack, VmState: %s") [AChars 1 (VmStateToString vm)];
      let w := kv w "message" (VString m) in
      let w := json_arraystart w (bs "stack") in
      Ret (json_arrayend (json_element w (VString (bs "Unavailable."))))
  | Frames l =>
      let w := kv w "message" (chars trigger) in
      w ← print_frames (json_arraystart w (bs "stack")) l;
      Ret (json_arrayend w)
  end.

(** std::iswspace in the "C" locale; a char from 0x80 on is negative and no space. *)
Definition iswspace (b : byte) : bool := (bval b =? 32) || ((9 <=? bval b) && (bval b <=? 13)).

Fixpoint trim (l : bytes) : bytes :=
  match l with [] => [] | c :: l' => if iswspace c then trim l' else l end.

(** The text before the first newline and the text behind it. *)
Fixpoint split_line (s : bytes) : option (bytes * bytes) :=
  match s with
  | [] => None
  | c :: s =>
      if byte_eqb c x0a then Some ([], s)
      else match split_line s with Some (a, b) => Some (c :: a, b) | None => None end
  end.

(** [src/src/diag_report.cc 436-447, PrintJavaScriptErrorStack] The loop over the lines of
    the stack; V8's strings are shorter than 2^30, so that the position fits an int. *)
Fixpoint print_lines (fuel : nat) (w : Writer) (ss : bytes) : outcome Writer :=
  match fuel with
  | O => Fault OutOfFuel
  | S fuel =>
      match split_line ss with
      | Some (l, ss) => print_lines fuel (json_element w (VString (trim l))) ss
      | None => Ret w
      end
  end.

(** [src/src/diag_report.cc 416-430, PrintJavaScriptErrorStack] The text of the error. *)
Definition error_text (error : js_error) : bytes :=
  match error with
  | ErrorObject (Some s) _ => s
  | ErrorValue (Some s) => s
  | _ => []
  end.

(** [src/src/diag_report.cc 407-450, PrintJavaScriptErrorStack] *)
Definition PrintJavaScriptErrorStack (f : Facts) (error : js_error) (trigger : bytes) (w : Writer)
    : outcome Writer :=
  if bool_decide (c_str trigger = bs "FatalError" \/ c_str trigger = bs "Signal")
  then PrintJavaScriptErrorStackNoEval f trigger w
  else
    let ss := error_text error in
    match split_line ss with
    | None => Ret (kv w "message" (VString ss))
    | Some (l, ss) =>
        let w := kv w "message" (VString l) in
        w ← print_lines (S (length ss)) (json_arraystart w (bs "stack")) ss;
        Ret (json_arrayend w)
    end.

(** [src/src/diag_report.cc 453-468, PrintNativeStack] The first frame is the reporting
    function's own. *)
Definition PrintNativeStack (f : Facts) (w : Writer) : Writer :=
  let w := json_arraystart w (bs "nativeStack") in
  json_arrayend (foldl (fun w '(pc, symbol) =>
    json_end (kv (kv (json_start w) "pc" (VString (ValueToHexString pc))) "symbol" (VString symbol)))
    w (drop 1 (native_frames f))).

(** [src/src/diag_report.cc 490-503, PrintGCStatistics] *)
Definition print_space (w : Writer) (s : heap_space) : Writer :=
  let w := json_objectstart w (c_str (space_name s)) in
  let w := kv w "memorySize" (VInt (space_size s)) in
  let w := kv w "committedMemory" (VInt (physical_space_size s)) in
  let w := kv w "capacity" (VInt (u64 (space_used_size s + space_available_size s))) in
  let w := kv w "used" (VInt (space_used_size s)) in
  json_objectend (kv w "available" (VInt (space_available_size s))).

(** [src/src/diag_report.cc 474-507, PrintGCStatistics] *)
Definition PrintGCStatistics (f : Facts) (w : Writer) : Writer :=
  let h := heap f in
  let w := json_objectstart w (bs "javascriptHeap") in
  let w := kv w "totalMemory" (VInt (total_heap_size h)) in
  let w := kv w "totalCommittedMemory" (VInt (total_physical_size h)) in
  let w := kv w "usedMemory" (VInt (used_heap_size h)) in
  let w := kv w "availableMemory" (VInt (total_available_size h)) in
  let w := kv w "memoryLimit" (VInt (heap_size_limit h)) in
  let w := json_objectstart w (bs "heapSpaces") in
  json_objectend (json_objectend (foldl print_space w (heap_spaces h))).

(** [src/src/diag_report.cc 509-525, PrintUvLoopResources] No handles are listed when there
    is no isolate. *)
Definition PrintUvLoopResources (f : Facts) (w : Writer) : Writer :=
  let w := json_arraystart w (bs "libuv") in
  let w := match loop_handles f with
           | Some hs =>
               let w := json_start (foldl WalkHandle w hs) in
               let w := kv w "type" (VString (bs "loop")) in
               let w := kv w "is_active" (VBool (loop_alive f)) in
               json_end (kv w "address" (VString (ValueToHexString (loop_address f))))
           | None => w
           end in
  json_arrayend w.

(** [src/src/diag_report.cc 28-28, NANOS_PER_SEC] *)
Definition NANOS_PER_SEC : Z := 1000 * 1000 * 1000.

(** [src/src/diag_report.cc 527-556, PrintResourceUsage] *)
Definition PrintResourceUsage (f : Facts) (w : Writer) : Writer :=
  let uptime := u64 (hrtime f - time_origin f) / NANOS_PER_SEC in
  let uptime := if uptime =? 0 then 1 else uptime in
  let w := json_objectstart w (bs "resourceUsage") in
  let w := match usage f with
           | Some r =>
               let w := kv w "userCpuSeconds" (VDouble (user_cpu r)) in
               let w := kv w "kernelCpuSeconds" (VDouble (kernel_cpu r)) in
               let w := kv w "cpuConsumptionPercent" (VDouble (cpu_percentage r uptime)) in
               let w := kv w "maxRss" (VInt (ru_maxrss r * 1024)) in
               let w := json_objectstart w (bs "pageFaults") in
               let w := kv w "IORequired" (VInt (ru_majflt r)) in
               let w := kv w "IONotRequired" (VInt (ru_minflt r)) in
               let w := json_objectend w in
               let w := json_objectstart w (bs "fsActivity") in
               let w := kv w "reads" (VInt (ru_inblock r)) in
               let w := kv w "writes" (VInt (ru_oublock r)) in
               json_objectend w
           | None => w
           end in
  json_objectend w.

(** [src/src/diag_report.cc 628-634, PrintLoadedLibraries] *)
Definition PrintLoadedLibraries (f : Facts) (w : Writer) : Writer :=
  let w := json_arraystart w (bs "sharedObjects") in
  json_arrayend (foldl (fun w m => json_element w (VString m)) w (libraries f)).

(** [src/src/diag_report.cc 576-598, PrintSystemInformation] The limits by their number on
    Linux. *)
Definition rlimit_strings : list (bytes * Z) :=
  [(bs "core_file_size_blocks", 4); (bs "data_seg_size_kbytes", 2); (bs "file_size_blocks", 1);
   (bs "max_locked_memory_bytes", 8); (bs "max_memory_size_kbytes", 5); (bs "open_files", 7);
   (bs "stack_size_bytes", 3); (bs "cpu_time_seconds", 0); (bs "max_user_processes", 6);
   (bs "virtual_memory_kbytes", 9)].

Definition RLIM_INFINITY : Z := 2 ^ 64 - 1.

Definition limit_value (l : Z) : scalar := if l =? RLIM_INFINITY then VString (bs "unlimited") else VInt l.

(** [src/src/diag_report.cc 605-619, PrintSystemInformation] *)
Definition print_limit (f : Facts) (w : Writer) (l : bytes * Z) : Writer :=
  match getrlimit f (snd l) with
  | Some (cur, max) =>
      let w := json_objectstart w (fst l) in
      json_objectend (kv (kv w "soft" (limit_value cur)) "hard" (limit_value max))
  | None => w
  end.

(** [src/src/diag_report.cc 559-625, PrintSystemInformation] The items of [os_environ] are
    freed afterwards. *)
Definition PrintSystemInformation (f : Facts) (w : Writer) : Writer :=
  let '(items, _) := os_environ (calloc_ok f) (strdup_ok f) (os_env f) Heap_init in
  let w := json_objectstart w (bs "environmentVariables") in
  let w := foldl (fun w i => json_keyvalue w (c_str (item_name i)) (chars (item_value i))) w (default [] items) in
  let w := json_objectend w in
  let w := json_objectstart w (bs "userLimits") in
  let w := json_objectend (foldl (print_limit f) w rlimit_strings) in
  PrintLoadedLibraries f w.

(** * The report *)

(** [src/src/diag_report.cc 27-27, DIAG_REPORT_VERSION] *)
Definition DIAG_REPORT_VERSION : Z := 2.

(** [src/src/diag_report.cc 188-244, WriteDiagReport] The header. *)
Definition print_header (f : Facts) (message trigger filename : bytes) (w : Writer) : Writer :=
  let w := json_objectstart w (bs "header") in
  let w := kv w "reportVersion" (VInt DIAG_REPORT_VERSION) in
  let w := kv w "event" (chars message) in
  let w := kv w "trigger" (chars trigger) in
  let w := kv w "filename" (match filename with [] => VNull | _ => VString filename end) in
  let w := kv w "dumpEventTime" (chars (time_text (now_tm f))) in
  let w := match timeofday f with
           | Some (sec, usec) => kv w "dumpEventTimeStamp" (VString (dec (sec * 1000 + Z.quot usec 1000)))
           | None => w
           end in
  let w := kv w "processId" (VInt (pid f)) in
  let w := kv_known w "cwd" (cwd f) in
  json_objectend (PrintVersionInformation f w).

(** [src/src/diag_report.cc 169-275, WriteDiagReport] The text for the stream. *)
Definition WriteDiagReport (f : Facts) (message trigger filename : bytes) (error : js_error) (compact : bool)
    : outcome bytes :=
  let w := json_start (JSONWriter_init compact) in
  let w := print_header f message trigger filename w in
  let w := json_objectstart w (bs "javascriptStack") in
  w ← PrintJavaScriptErrorStack f error trigger w;
  let w := PrintJavaScriptErrorProperties error w in
  let w := json_objectend w in
  let w := PrintNativeStack f w in
  let w := PrintGCStatistics f w in
  let w := PrintUvLoopResources f w in
  let w := PrintResourceUsage f w in
  let w := PrintSystemInformation f w in
  Ret (out_ (json_objectend w)).

(** [src/src/diag_report.cc 158-165, GetDiagReport] *)
Definition GetDiagReport (f : Facts) (message trigger : bytes) (error : js_error) : outcome bytes :=
  WriteDiagReport f message trigger [] error false.

(** Where a report is written. *)
Inductive destination := Stdout | Stderr | File (path : bytes).

(** The name returned, what was written where, the messages, the file name counter. *)
Record triggered := mkTriggered {
  returned : bytes; wrote : option (destination * bytes); messages : bytes; next_seq_no : Z }.

(** [src/src/diag_report.cc 88-155, TriggerDiagReport] [report_filename],
    [report_directory] and [report_compact] are the options; [opens] tells whether a
    path can be opened for writing, and the error number if not. *)
Definition TriggerDiagReport (f : Facts) (report_filename report_directory : bytes) (report_compact : bool)
    (opens : bytes -> option Z) (seq : Z) (message trigger : bytes) (error : js_error) : outcome triggered :=
  let '(filename, seq) :=
    match report_filename with
    | [] => MakeFilename (bs "report") (bs "json") (now_tm f) (pid f) seq
    | _ => (report_filename, seq)
    end in
  let finish dest msg :=
    text ← WriteDiagReport f message trigger filename error report_compact;
    Ret (mkTriggered filename (Some (dest, text))
           (msg ++ if bool_decide (filename = bs "stderr") then []
                   else [x0a] ++ bs "Diagnostic report completed" ++ [x0a]) seq) in
  if bool_decide (filename = bs "stdout") then finish Stdout []
  else if bool_decide (filename = bs "stderr") then finish Stderr []
  else
    let path := match report_directory with [] => filename | _ => report_directory ++ bs "/" ++ filename end in
    match opens path with
    | Some errno =>
        Ret (mkTriggered [] None
          ([x0a] ++ bs "Failed to open diagnostic report file: " ++ filename ++
           (match report_directory with [] => [] | _ => bs " directory: " ++ report_directory end) ++
           bs " (errno: " ++ dec errno ++ bs ")" ++ [x0a]) seq)
    | None => finish (File path) ([x0a] ++ bs "Writing diagnostic report to file: " ++ filename)
    end.

(** * The tree of the report *)

Definition member (k : String.string) (v : scalar) : node := Scalar (Some (bs k)) v.
Definition known (k : String.string) (v : option bytes) : list node :=
  match v with Some s => [member k (chars s)] | None => [] end.

Definition endpoint_node (addr : option endpoint) (name : String.string) : node :=
  match addr with
  | None => member name VNull
  | Some e =>
      Obj (Some (bs name))
        (known "host" (match nameinfo e with Some h => Some h | None => ntop e end) ++ [member "port" (VInt (port e))])
  end.

Definition pipe_nodes (h : uv_handle) : list node :=
  let '(local, b, size) := pipe_name (pipe_sockname h) (O, None) O in
  let '(remote, _, _) := pipe_name (pipe_peername h) b size in
  [member "localEndpoint" local; member "remoteEndpoint" remote].

Definition type_nodes (h : uv_handle) : list node :=
  match h_type h with
  | UV_FS_EVENT | UV_FS_POLL => [member "filename" (path_value h)]
  | UV_TCP | UV_UDP =>
      [endpoint_node (getsockname h) "localEndpoint"; endpoint_node (getpeername h) "remoteEndpoint"]
  | UV_NAMED_PIPE => pipe_nodes h
  | UV_TIMER =>
      [member "repeat" (VInt (timer_repeat h));
       member "firesInMsFromNow" (VInt (i64 (u64 (timer_due h - timer_now h))));
       member "expired" (VBool (timer_due h <=? timer_now h))]
  | UV_TTY =>
      match winsize h with
      | Some (width, height) => [member "width" (VInt width); member "height" (VInt height)]
      | None => []
      end
  | UV_POLL | UV_OTHER => []
  end.

Definition stdio_nodes (fd : Z) : list node :=
  if fd =? 0 then [member "stdio" (VString (bs "stdin"))]
  else if fd =? 1 then [member "stdio" (VString (bs "stdout"))]
  else if fd =? 2 then [member "stdio" (VString (bs "stderr"))] else [].

Definition handle_node (h : uv_handle) : node :=
  Obj None
    ([member "type" (chars (type_name h)); member "is_active" (VBool (is_active h));
      member "is_referenced" (VBool (has_ref h)); member "address" (VString (ValueToHexString (h_address h)))]
     ++ type_nodes h
     ++ (if bool_decide (h_type h = UV_TCP \/ h_type h = UV_UDP \/ h_type h = UV_NAMED_PIPE)
         then [member "sendBufferSize" (VInt (send_buffer_size h)); member "recvBufferSize" (VInt (recv_buffer_size h))]
         else [])
     ++ (if bool_decide (h_type h = UV_TCP \/ h_type h = UV_NAMED_PIPE \/ h_type h = UV_TTY \/
                         h_type h = UV_UDP \/ h_type h = UV_POLL)
         then match fileno h with Some fd => member "fd" (VInt fd) :: stdio_nodes fd | None => [] end
         else [])
     ++ (if bool_decide (h_type h = UV_TCP \/ h_type h = UV_NAMED_PIPE \/ h_type h = UV_TTY)
         then [member "writeQueueSize" (VInt (write_queue_size h)); member "readable" (VBool (readable h));
               member "writable" (VBool (writable_ h))]
         else [])).

Lemma ReportEndpoint_node addr name w : ReportEndpoint addr name w = write_node w (endpoint_node addr name).
Proof. destruct addr as [[[|] [|] p]|]; done. Qed.

Lemma walk_type_nodes h w : walk_type h w = foldl write_node w (type_nodes h).
Proof.
  unfold walk_type, type_nodes. destruct (h_type h) eqn:E; try done.
  1,2: unfold ReportEndpoints; rewrite E, bool_decide_eq_true_2 by auto; by rewrite !ReportEndpoint_node.
  - unfold ReportPipeEndpoints, pipe_nodes. destruct (pipe_name _ _ _) as [[l b] s].
    by destruct (pipe_name _ _ _) as [[? ?] ?].
  - by destruct (winsize h) as [[? ?]|].
Qed.

Lemma WalkHandle_node w h : WalkHandle w h = write_node w (handle_node h).
Proof.
  unfold WalkHandle, handle_node. cbn [write_node]. rewrite !foldl_app, walk_type_nodes. cbn [foldl].
  repeat case_bool_decide; try done; destruct (fileno h) as [fd|]; try done;
    unfold stdio_nodes; cbn [foldl write_node member]; repeat case_match; done.
Qed.

Definition pair_node (p : bytes * bytes) : node := Scalar (Some (fst p)) (VString (snd p)).

Definition version_nodes (f : Facts) : list node :=
  member "aworkerVersion" (chars (aworker_version f)) ::
  known "glibcVersionRuntime" (libc_runtime f) ++ known "glibcVersionCompiler" (libc_compiler f) ++
  [member "wordSize" (VInt 64); member "arch" (chars (arch f)); member "platform" (chars (platform f));
   Obj (Some (bs "componentVersions")) (map pair_node (versions f))] ++
  match os_info f with
  | Some u =>
      [member "osName" (chars (sysname u)); member "osRelease" (chars (release u));
       member "osVersion" (chars (version u)); member "osMachine" (chars (machine u))]
  | None => []
  end ++ known "host" (host f).

Definition header_node (f : Facts) (message trigger filename : bytes) : node :=
  Obj (Some (bs "header"))
    ([member "reportVersion" (VInt DIAG_REPORT_VERSION); member "event" (chars message);
      member "trigger" (chars trigger);
      member "filename" (match filename with [] => VNull | _ => VString filename end);
      member "dumpEventTime" (chars (time_text (now_tm f)))] ++
     match timeofday f with
     | Some (sec, usec) => [member "dumpEventTimeStamp" (VString (dec (sec * 1000 + Z.quot usec 1000)))]
     | None => []
     end ++
     member "processId" (VInt (pid f)) :: known "cwd" (cwd f) ++ version_nodes f).

(** The properties of an error that the report lists. *)
Definition listed (p : property) : option (bytes * bytes) :=
  match p with
  | (Some k, Some v) => if bool_decide (c_str k = bs "stack" \/ c_str k = bs "message") then None else Some (k, v)
  | _ => None
  end.

Definition properties_node (error : js_error) : node :=
  Obj (Some (bs "errorProperties"))
    (match error with ErrorObject _ (Some keys) => map pair_node (omap listed keys) | _ => [] end).

(** The text of a frame of the stack. *)
Definition frame_text (fr : frame) : bytes :=
  bs "at " ++ (if fn_ptr fr =? 0 then bs "(null)" else fn_name fr) ++ bs " (" ++
  (if sc_ptr fr =? 0 then bs "(null)" else sc_name fr) ++ bs ":" ++ dec (fr_line fr) ++ bs ":" ++
  dec (fr_col fr) ++ bs ")".

(** The lines that end with a newline. *)
Fixpoint complete_lines (cur s : bytes) : list bytes :=
  match s with
  | [] => []
  | c :: s => if byte_eqb c x0a then cur :: complete_lines [] s else complete_lines (cur ++ [c]) s
  end.

Definition string_node (s : bytes) : node := Scalar None (VString s).

Definition sampled_nodes (f : Facts) (trigger : bytes) : list node :=
  match sample f with
  | NoFrames vm =>
      [member "message" (VString (bs "No stack, VmState: " ++ VmStateToString vm));
       Arr (Some (bs "stack")) [string_node (bs "Unavailable.")]]
  | Frames l =>
      [member "message" (chars trigger); Arr (Some (bs "stack")) (map (fun fr => string_node (frame_text fr)) l)]
  end.

Definition stack_nodes (f : Facts) (error : js_error) (trigger : bytes) : list node :=
  if bool_decide (c_str trigger = bs "FatalError" \/ c_str trigger = bs "Signal") then sampled_nodes f trigger
  else match complete_lines [] (error_text error) with
       | [] => [member "message" (VString (error_text error))]
       | l :: ls =>
           [member "message" (VString l); Arr (Some (bs "stack")) (map (fun l => string_node (trim l)) ls)]
       end.

Definition native_node (f : Facts) : node :=
  Arr (Some (bs "nativeStack"))
    (map (fun '(pc, symbol) => Obj None [member "pc" (VString (ValueToHexString pc)); member "symbol" (VString symbol)])
       (drop 1 (native_frames f))).

Definition space_node (s : heap_space) : node :=
  Obj (Some (c_str (space_name s)))
    [member "memorySize" (VInt (space_size s)); member "committedMemory" (VInt (physical_space_size s));
     member "capacity" (VInt (u64 (space_used_size s + space_available_size s)));
     member "used" (VInt (space_used_size s)); member "available" (VInt (space_available_size s))].

Definition heap_node (f : Facts) : node :=
  let h := heap f in
  Obj (Some (bs "javascriptHeap"))
    [member "totalMemory" (VInt (total_heap_size h)); member "totalCommittedMemory" (VInt (total_physical_size h));
     member "usedMemory" (VInt (used_heap_size h)); member "availableMemory" (VInt (total_available_size h));
     member "memoryLimit" (VInt (heap_size_limit h)); Obj (Some (bs "heapSpaces")) (map space_node (heap_spaces h))].

Definition uv_node (f : Facts) : node :=
  Arr (Some (bs "libuv"))
    (match loop_handles f with
     | Some hs =>
         map handle_node hs ++
         [Obj None [member "type" (VString (bs "loop")); member "is_active" (VBool (loop_alive f));
                    member "address" (VString (ValueToHexString (loop_address f)))]]
     | None => []
     end).

Definition usage_node (f : Facts) : node :=
  Obj (Some (bs "resourceUsage"))
    (match usage f with
     | Some r =>
         [member "userCpuSeconds" (VDouble (user_cpu r)); member "kernelCpuSeconds" (VDouble (kernel_cpu r));
          member "cpuConsumptionPercent"
            (VDouble (cpu_percentage r (Z.max 1 (u64 (hrtime f - time_origin f) / NANOS_PER_SEC))));
          member "maxRss" (VInt (ru_maxrss r * 1024));
          Obj (Some (bs "pageFaults")) [member "IORequired" (VInt (ru_majflt r)); member "IONotRequired" (VInt (ru_minflt r))];
          Obj (Some (bs "fsActivity")) [member "reads" (VInt (ru_inblock r)); member "writes" (VInt (ru_oublock r))]]
     | None => []
     end).

Definition limit_node (f : Facts) (l : bytes * Z) : option node :=
  (fun '(cur, max) => Obj (Some (fst l)) [member "soft" (limit_value cur); member "hard" (limit_value max)])
    <$> getrlimit f (snd l).

Definition system_nodes (f : Facts) : list node :=
  [Obj (Some (bs "environmentVariables"))
     (map (fun i => Scalar (Some (c_str (item_name i))) (chars (item_value i)))
        (default [] (fst (os_environ (calloc_ok f) (strdup_ok f) (os_env f) Heap_init))));
   Obj (Some (bs "userLimits")) (omap (limit_node f) rlimit_strings);
   Arr (Some (bs "sharedObjects")) (map string_node (libraries f))].

Definition report_tree (f : Facts) (message trigger filename : bytes) (error : js_error) : list node :=
  [header_node f message trigger filename;
   Obj (Some (bs "javascriptStack")) (stack_nodes f error trigger ++ [properties_node error]);
   native_node f; heap_node f; uv_node f; usage_node f] ++ system_nodes f.

(** ** The calls are those of the tree *)

Lemma foldl_nodes {A} (g : Writer -> A -> Writer) (h : A -> node) l : forall w,
  (forall w a, g w a = write_node w (h a)) -> foldl g w l = foldl write_node w (map h l).
Proof. induction l as [|a l IH]; intros w Hg; simpl; [done|]. by rewrite Hg, IH. Qed.

Lemma foldl_maybe {A B} (g : Writer -> A -> Writer) (m : A -> option B) (h : B -> node) l : forall w,
  (forall w a, g w a = match m a with Some b => write_node w (h b) | None => w end) ->
  foldl g w l = foldl write_node w (map h (omap m l)).
Proof.
  induction l as [|a l IH]; intros w Hg; simpl; [done|]. rewrite Hg. by destruct (m a); rewrite IH.
Qed.

Lemma kv_known_nodes w k v : kv_known w k v = foldl write_node w (known k v).
Proof. by destruct v. Qed.

Lemma PrintVersionInformation_nodes f w : PrintVersionInformation f w = foldl write_node w (version_nodes f).
Proof.
  unfold PrintVersionInformation, version_nodes. cbn [foldl]. rewrite !foldl_app, !kv_known_nodes.
  cbn [foldl write_node member]. unfold PrintComponentVersions.
  rewrite (foldl_nodes _ pair_node) by (by intros ? []). by destruct (os_info f).
Qed.

Lemma print_header_node f m t fn w : print_header f m t fn w = write_node w (header_node f m t fn).
Proof.
  unfold print_header, header_node. cbn [write_node]. rewrite !foldl_app. cbn [foldl].
  rewrite foldl_app, PrintVersionInformation_nodes, kv_known_nodes. by destruct (timeofday f) as [[? ?]|], fn.
Qed.

Lemma properties_node_ok e w : PrintJavaScriptErrorProperties e w = write_node w (properties_node e).
Proof.
  unfold PrintJavaScriptErrorProperties, properties_node. cbn [write_node].
  destruct e as [|s [keys|]|t]; try done.
  rewrite (foldl_maybe _ listed pair_node); [done|].
  intros w' [[k|] [v|]]; simpl; try done. by case_bool_decide.
Qed.

Lemma frame_line_text fr : frame_line fr = Ret (frame_text fr).
Proof.
  unfold frame_line, SPrintF. rewrite SPrintFImpl_fill by lia. unfold frame_text.
  change (tokens None (bs "at %s (%s:%d:%d)")) with
    (map PChar (bs "at ") ++ PConv CString :: map PChar (bs " (") ++ PConv CString ::
     map PChar (bs ":") ++ PConv CString :: map PChar (bs ":") ++ PConv CString :: map PChar (bs ")")).
  rewrite fill_chars. cbn [fill convert Convert]. rewrite outcome_bind_ret, fill_chars. cbn [fill convert Convert].
  rewrite outcome_bind_ret, fill_chars. cbn [fill convert Convert].
  rewrite outcome_bind_ret, fill_chars. cbn [fill convert Convert].
  rewrite outcome_bind_ret. change (fill pointer_text (map PChar (bs ")")) []) with (Ret (bs ")")).
  unfold prefixed. rewrite !outcome_bind_ret. done.
Qed.

Lemma print_frames_nodes l w :
  print_frames w l = Ret (foldl write_node w (map (fun fr => string_node (frame_text fr)) l)).
Proof.
  revert w. induction l as [|fr l IH]; intros w; [done|].
  cbn [print_frames]. rewrite frame_line_text, outcome_bind_ret. apply IH.
Qed.

(** Cutting at newlines. *)
Lemma split_line_lines s : forall cur,
  complete_lines cur s = match split_line s with Some (l, rest) => (cur ++ l) :: complete_lines [] rest | None => [] end.
Proof.
  induction s as [|c s IH]; intros cur; simpl; [done|]. destruct (byte_eqb c x0a); [by rewrite app_nil_r|].
  rewrite (IH (cur ++ [c])). destruct (split_line s) as [[l r]|]; [|done]. by rewrite <-app_assoc.
Qed.

Lemma split_line_length s l r : split_line s = Some (l, r) -> (length r < length s)%nat.
Proof.
  revert l. induction s as [|c s IH]; intros l; simpl; [done|]. destruct (byte_eqb c x0a); [intros [= <- <-]; lia|].
  destruct (split_line s) as [[l' r']|]; [|done]. intros [= <- <-]. specialize (IH l' eq_refl). lia.
Qed.

Lemma print_lines_nodes fuel : forall w ss, (length ss < fuel)%nat ->
  print_lines fuel w ss = Ret (foldl write_node w (map (fun l => string_node (trim l)) (complete_lines [] ss))).
Proof.
  induction fuel as [|fuel IH]; intros w ss Hf; [lia|]. simpl. rewrite split_line_lines.
  destruct (split_line ss) as [[l r]|] eqn:E; [|done]. apply split_line_length in E. simpl. apply IH. lia.
Qed.

Lemma PrintJavaScriptErrorStack_nodes f e t w :
  PrintJavaScriptErrorStack f e t w = Ret (foldl write_node w (stack_nodes f e t)).
Proof.
  unfold PrintJavaScriptErrorStack, stack_nodes. case_bool_decide.
  - unfold PrintJavaScriptErrorStackNoEval, sampled_nodes. destruct (sample f) as [vm|l].
    + by destruct vm.
    + rewrite print_frames_nodes. done.
  - rewrite split_line_lines. destruct (split_line (error_text e)) as [[l r]|]; [|done].
    rewrite print_lines_nodes by lia. done.
Qed.

Lemma native_node_ok f w : PrintNativeStack f w = write_node w (native_node f).
Proof.
  unfold PrintNativeStack, native_node. cbn [write_node].
  by rewrite (foldl_nodes _ (fun '(pc, symbol) =>
    Obj None [member "pc" (VString (ValueToHexString pc)); member "symbol" (VString symbol)])) by (by intros ? []).
Qed.

Lemma heap_node_ok f w : PrintGCStatistics f w = write_node w (heap_node f).
Proof. unfold PrintGCStatistics, heap_node. cbn [write_node foldl]. by rewrite (foldl_nodes _ space_node). Qed.

Lemma uv_node_ok f w : PrintUvLoopResources f w = write_node w (uv_node f).
Proof.
  unfold PrintUvLoopResources, uv_node. cbn [write_node]. destruct (loop_handles f) as [hs|]; [|done].
  by rewrite foldl_app, (foldl_nodes WalkHandle handle_node) by apply WalkHandle_node.
Qed.

Lemma usage_node_ok f w : PrintResourceUsage f w = write_node w (usage_node f).
Proof.
  unfold PrintResourceUsage, usage_node. cbn [write_node].
  set (up := u64 (hrtime f - time_origin f) / NANOS_PER_SEC).
  assert (Hup : (if up =? 0 then 1 else up) = Z.max 1 up).
  { assert (0 <= up) by (apply Z.div_pos; [apply Z.mod_pos_bound|]; unfold NANOS_PER_SEC; lia).
    destruct (Z.eqb_spec up 0); lia. }
  rewrite Hup. unfold kv. destruct (usage f); cbn [foldl write_node member]; reflexivity.
Qed.

Lemma system_nodes_ok f w : PrintSystemInformation f w = foldl write_node w (system_nodes f).
Proof.
  unfold PrintSystemInformation, system_nodes. destruct (os_environ _ _ _ _) as [items h]. cbn [fst foldl write_node].
  rewrite (foldl_nodes _ (fun i => Scalar (Some (c_str (item_name i))) (chars (item_value i)))) by done.
  rewrite (foldl_maybe (print_limit f) (limit_node f) (fun n => n)).
  - rewrite map_id. unfold PrintLoadedLibraries. by rewrite (foldl_nodes _ string_node).
  - intros w' [d id]. unfold print_limit, limit_node. cbn [fst snd]. by destruct (getrlimit f id) as [[cur max]|].
Qed.

(** ** The tree can be written *)

(** The doubles of the report, which are computed from times, are printed as numbers of JSON
    (so they are no NaN and not infinite). *)
Definition usage_printable (f : Facts) : Prop :=
  forall r, usage f = Some r ->
    json_number (ostream_double (user_cpu r)) = true /\ json_number (ostream_double (kernel_cpu r)) = true /\
    forall u, json_number (ostream_double (cpu_percentage r u)) = true.

(** What is asked of a member of the report. *)
Definition good (b : bool) (n : node) : bool := Bool.eqb (keyed n) b && formed n && shaped n.

Lemma good_obj b k l : forallb (good true) l = true -> Bool.eqb (keyed (Obj k l)) b = true -> good b (Obj k l) = true.
Proof.
  intros Hl Hk. unfold good. rewrite Hk. cbn [formed shaped].
  assert (forallb formed l = true /\ forallb keyed l = true /\ forallb shaped l = true) as (-> & -> & ->); [|done].
  clear Hk. induction l as [|n l IH]; [done|]. cbn in Hl |- *. apply andb_prop in Hl as [Hn Hl].
  destruct (IH Hl) as (-> & -> & ->). unfold good in Hn. by destruct (keyed n), (formed n), (shaped n).
Qed.

Lemma good_arr k l : forallb (good false) l = true -> good true (Arr (Some k) l) = true.
Proof.
  intros Hl. unfold good. cbn [keyed key_of formed shaped Bool.eqb andb].
  assert (forallb formed l = true /\ forallb (fun n => negb (keyed n)) l = true /\ forallb shaped l = true)
    as (-> & -> & ->); [|done].
  induction l as [|n l IH]; [done|]. cbn in Hl |- *. apply andb_prop in Hl as [Hn Hl].
  destruct (IH Hl) as (-> & -> & ->). unfold good in Hn. by destruct (keyed n), (formed n), (shaped n).
Qed.

Lemma good_app b l l' : forallb (good b) l = true -> forallb (good b) l' = true -> forallb (good b) (l ++ l') = true.
Proof. intros. rewrite forallb_app. by apply andb_true_intro. Qed.

Lemma good_cons b n l : good b n = true -> forallb (good b) l = true -> forallb (good b) (n :: l) = true.
Proof. intros H1 H2. cbn. by rewrite H1, H2. Qed.

Lemma good_map {A} b (h : A -> node) l : (forall a, good b (h a) = true) -> forallb (good b) (map h l) = true.
Proof. intros H. induction l as [|a l IH]; [done|]. cbn. by rewrite H. Qed.

Lemma good_omap {A} b (h : A -> option node) l :
  (forall a n, h a = Some n -> good b n = true) -> forallb (good b) (omap h l) = true.
Proof.
  intros H. induction l as [|a l IH]; [done|]. cbn. destruct (h a) eqn:E; [|done]. cbn. by rewrite (H _ _ E).
Qed.

Lemma good_known k v : forallb (good true) (known k v) = true.
Proof. by destruct v. Qed.

Lemma good_endpoint addr name : good true (endpoint_node addr name) = true.
Proof. destruct addr as [[[|] [|] p]|]; done. Qed.

Lemma good_pipe q b size name : exists v b' size', pipe_name q b size = (v, b', size') /\ good true (member name v) = true.
Proof.
  unfold pipe_name. destruct (q size) as [[rc s] t].
  match goal with |- context [let '(_, _) := ?x in _] => destruct x as [[rc' b'] s'] end.
  eexists _, _, _. split; [reflexivity|]. destruct (snd b'); [|done]. by destruct (_ && _).
Qed.

Lemma good_path h : good true (member "filename" (path_value h)) = true.
Proof.
  unfold path_value. case_bool_decide; [|done]. destruct (getpath h 0%nat) as [[rc s] t].
  destruct (rc =? UV_ENOBUFS); [|done]. destruct (getpath h s) as [[rc' s'] t']. by destruct (rc' =? 0).
Qed.

Lemma good_type h : forallb (good true) (type_nodes h) = true.
Proof.
  unfold type_nodes. destruct (h_type h); try done.
  1,2: apply good_cons; [apply good_path|done].
  1,2: repeat (apply good_cons; [apply good_endpoint|]); done.
  - unfold pipe_nodes. destruct (good_pipe (pipe_sockname h) (O, None) O "localEndpoint") as (v & b & s & -> & Hv).
    destruct (good_pipe (pipe_peername h) b s "remoteEndpoint") as (v' & b' & s' & -> & Hv').
    by repeat (apply good_cons; [done|]).
  - by destruct (winsize h) as [[? ?]|].
Qed.

Lemma good_handle h : good false (handle_node h) = true.
Proof.
  apply good_obj; [|done]. repeat apply good_app; try (by case_bool_decide); [done|apply good_type|].
  case_bool_decide; [|done]. destruct (fileno h) as [fd|]; [|done]. apply good_cons; [done|].
  unfold stdio_nodes. by repeat case_match.
Qed.

Lemma good_stack f e t : forallb (good true) (stack_nodes f e t) = true.
Proof.
  unfold stack_nodes. case_bool_decide.
  - unfold sampled_nodes. destruct (sample f) as [vm|l]; [done|].
    apply good_cons; [done|]. apply good_cons; [|done]. by apply good_arr, good_map.
  - destruct (complete_lines [] (error_text e)) as [|l ls]; [done|].
    apply good_cons; [done|]. apply good_cons; [|done]. by apply good_arr, good_map.
Qed.

Lemma good_header f m t fn : good true (header_node f m t fn) = true.
Proof.
  apply good_obj; [|done]. apply good_app; [by destruct fn|].
  apply good_app; [by destruct (timeofday f) as [[? ?]|]|]. apply good_cons; [done|].
  apply good_app; [apply good_known|]. unfold version_nodes. apply good_cons; [done|].
  apply good_app; [apply good_known|]. apply good_app; [apply good_known|].
  apply good_app; [|apply good_app; [by destruct (os_info f)|apply good_known]].
  do 3 (apply good_cons; [done|]). apply good_cons; [|done]. apply good_obj; [|done]. by apply good_map.
Qed.

Lemma good_usage f : usage_printable f -> good true (usage_node f) = true.
Proof.
  intros Hu. apply good_obj; [|done]. destruct (usage f) as [r|] eqn:E; [|done].
  destruct (Hu r E) as (H1 & H2 & H3). unfold good. cbn. by rewrite H1, H2, H3.
Qed.

Lemma good_system f : forallb (good true) (system_nodes f) = true.
Proof.
  repeat apply good_cons; [..|done].
  - apply good_obj; [|done]. by apply good_map.
  - apply good_obj; [|done]. apply good_omap. intros [d id] n. unfold limit_node. cbn [fst snd].
    destruct (getrlimit f id) as [[cur max]|]; [|done]. intros [= <-]. unfold limit_value. by do 2 case_match.
  - by apply good_arr, good_map.
Qed.

Lemma good_report f m t fn e : usage_printable f -> forallb (good true) (report_tree f m t fn e) = true.
Proof.
  intros Hu. apply good_app; [|apply good_system]. repeat apply good_cons; [apply good_header|..|done].
  - apply good_obj; [|done]. apply good_app; [apply good_stack|]. apply good_cons; [|done].
    apply good_obj; [|done]. destruct e as [|s [keys|]|x]; try done. by apply good_map.
  - apply good_arr, good_map. by intros [].
  - apply good_obj; [|done]. repeat (apply good_cons; [done|]). apply good_cons; [|done].
    apply good_obj; [|done]. by apply good_map.
  - apply good_arr. destruct (loop_handles f); [|done]. apply good_app; [|done]. apply good_map, good_handle.
  - by apply good_usage.
Qed.

(** * The report is a document *)

(** The last call closes the top level object and ends the line. *)
Lemma objectend_top w : indent_ w = 2 -> out_ (json_objectend w) = out_ (json_end w) ++ [x0a].
Proof.
  intros Hi. unfold json_objectend, json_end. cbn [out_ set_state].
  set (u := put (advance (indent (write_new_line w) (-2))) [x7d]).
  assert (indent_ u = 0) as ->; [|done]. unfold u. cbn.
  destruct (advance_fields (indent (write_new_line w) (-2))) as [-> _]. cbn.
  destruct (newline_fields w) as [-> _]. lia.
Qed.

Lemma WriteDiagReport_document f m t fn e compact : usage_printable f ->
  WriteDiagReport f m t fn e compact = Ret (write_document compact (report_tree f m t fn e) ++ [x0a]).
Proof.
  intros Hu. unfold WriteDiagReport. rewrite PrintJavaScriptErrorStack_nodes, outcome_bind_ret.
  rewrite print_header_node, properties_node_ok, native_node_ok, heap_node_ok, uv_node_ok, usage_node_ok,
    system_nodes_ok.
  set (tree := report_tree f m t fn e).
  assert (Hw : forallb writable tree = true).
  { pose proof (good_report f m t fn e Hu) as Hg. fold tree in Hg.
    rewrite forallb_forall in Hg |- *. intros n Hn%Hg. apply formed_writable. unfold good in Hn. bool_to_prop. tauto. }
  unfold write_document. cbn [write_node]. set (w0 := json_start (JSONWriter_init compact)).
  assert (Hind : indent_ w0 = 2) by (by destruct compact).
  destruct (write_members tree (proj2 (Forall_forall _ _) (fun n _ => all_node_ok n)) w0 Hw) as [_ Hi]; [lia|].
  rewrite <-objectend_top by lia. unfold tree, report_tree.
  rewrite foldl_app. cbn [foldl write_node]. rewrite foldl_app. cbn [foldl]. reflexivity.
Qed.

(** C32 The diagnostic report is one JSON document: for whatever the process, V8, libuv and the
    system answer, as long as no text in it has a vertical tab and the three doubles of the
    resource usage print as JSON numbers, the report, compact or indented, is a JSON text in
    the sense of the grammar of RFC 8259, and its value is the object of the report's members:
    every string reads back as the text it was written for. *)
Theorem report_is_document f m t fn e compact :
  usage_printable f -> Forall no_vtab (texts (Obj None (report_tree f m t fn e))) ->
  exists text, WriteDiagReport f m t fn e compact = Ret text /\
    json_text text (value_of (Obj None (report_tree f m t fn e))).
Proof.
  intros Hu Ht. pose proof (good_report f m t fn e Hu) as Hg.
  eexists. split; [by apply WriteDiagReport_document|].
  assert (Hf : forallb formed (report_tree f m t fn e) = true).
  { rewrite forallb_forall in Hg |- *. intros n Hn%Hg. unfold good in Hn. bool_to_prop. tauto. }
  assert (Hs : shaped (Obj None (report_tree f m t fn e)) = true).
  { pose proof (good_obj false None _ Hg eq_refl) as Ho. unfold good in Ho. bool_to_prop. tauto. }
  destruct (document_reads compact _ Hf Hs Ht) as (w1 & t' & w2 & -> & H1 & H2 & H3).
  exists w1, t', (w2 ++ [x0a]). rewrite <-!app_assoc. split; [done|]. split; [done|]. split; [done|].
  apply ws_app; [done|]. by repeat constructor.
Qed.

(** * The stack of an error *)

Definition no_newline (l : bytes) : Prop := x0a ∉ l.

(** Lines joined by newlines, without one at the end. *)
Fixpoint join_lines (l : bytes) (ls : list bytes) : bytes :=
  match ls with [] => l | l' :: ls => l ++ [x0a] ++ join_lines l' ls end.

Lemma complete_lines_line l s : forall cur, no_newline l ->
  complete_lines cur (l ++ s) = complete_lines (cur ++ l) s.
Proof.
  induction l as [|c l IH]; intros cur Hl; [by rewrite app_nil_r|]. cbn.
  apply not_elem_of_cons in Hl as [Hc Hl]. rewrite byte_eqb_ne by done.
  rewrite IH by done. by rewrite <-app_assoc.
Qed.

Lemma complete_lines_join ls : forall l, Forall no_newline (l :: ls) ->
  complete_lines [] (join_lines l ls) = removelast (l :: ls).
Proof.
  induction ls as [|l' ls IH]; intros l Hl; apply Forall_cons in Hl as [Hl Hls].
  - cbn. rewrite <-(app_nil_r l), complete_lines_line by done. done.
  - cbn [join_lines]. rewrite complete_lines_line by done. cbn. f_equal. by apply IH.
Qed.

(** The report leaves out the last line of an error's stack: a stack is made of lines
    with newlines between them, and only lines that end with one are written, each
    without its leading whitespace; the first line is the message. *)
Theorem last_frame_is_lost f message frames last keys trigger w :
  Forall no_newline (message :: frames ++ [last]) ->
  c_str trigger <> bs "FatalError" -> c_str trigger <> bs "Signal" ->
  PrintJavaScriptErrorStack f (ErrorObject (Some (join_lines message (frames ++ [last]))) keys) trigger w
  = Ret (json_arrayend (foldl (fun w l => json_element w (VString (trim l)))
           (json_arraystart (kv w "message" (VString message)) (bs "stack")) frames)).
Proof.
  intros Hl Ht1 Ht2. rewrite PrintJavaScriptErrorStack_nodes. unfold stack_nodes.
  rewrite bool_decide_eq_false_2 by naive_solver. cbn [error_text]. rewrite complete_lines_join by done.
  assert (Hr : removelast (message :: frames ++ [last]) = message :: frames).
  { rewrite app_comm_cons, removelast_last. done. }
  rewrite Hr. cbn [foldl write_node member]. f_equal. f_equal.
  by rewrite (foldl_nodes _ (fun l => string_node (trim l))).
Qed.

(** * Where a report goes *)

Lemma MakeFilename_nonempty t p q : exists c l, fst (MakeFilename (bs "report") (bs "json") t p q) = c :: l.
Proof. by eexists _, _. Qed.

(** Triggering a report always ends: it returns the name of the report and has written
    the document of that name, to the standard output or error when they are named and
    to the file in the report directory otherwise, or it returns an empty name and has
    written nothing because the file could not be opened. *)
Theorem trigger_writes_report f name dir compact opens seq m t e :
  usage_printable f ->
  exists r, TriggerDiagReport f name dir compact opens seq m t e = Ret r /\
    ((wrote r = None /\ returned r = []) \/
     exists dest, returned r <> [] /\ (name <> [] -> returned r = name) /\
       wrote r = Some (dest, write_document compact (report_tree f m t (returned r) e) ++ [x0a]) /\
       match dest with
       | Stdout => returned r = bs "stdout"
       | Stderr => returned r = bs "stderr"
       | File path =>
           path = (match dir with [] => returned r | _ => dir ++ bs "/" ++ returned r end) /\ opens path = None
       end).
Proof.
  intros Hu. unfold TriggerDiagReport.
  destruct (match name with [] => MakeFilename (bs "report") (bs "json") (now_tm f) (pid f) seq | _ => (name, seq) end)
    as [fn seq'] eqn:En.
  assert (Hfn : fn <> [] /\ (name <> [] -> fn = name)).
  { destruct name as [|c name]; [|by injection En as <- <-]. split; [|done].
    destruct (MakeFilename_nonempty (now_tm f) (pid f) seq) as (c & l & H). rewrite En in H. cbn in H. by subst. }
  rewrite WriteDiagReport_document by done. rewrite !outcome_bind_ret. destruct Hfn as [Hne Hname].
  case_bool_decide as H1; [eexists; split; [reflexivity|]; right; by exists Stdout|].
  case_bool_decide as H2; [eexists; split; [reflexivity|]; right; by exists Stderr|].
  set (path := match dir with [] => fn | _ => dir ++ bs "/" ++ fn end).
  destruct (opens path) as [errno|] eqn:Eo.
  - eexists. split; [reflexivity|]. by left.
  - eexists. split; [reflexivity|]. right. exists (File path). by repeat split.
Qed.
End report.

(** * Names of generated files *)

Lemma read_dec_pad n z : 0 <= z -> read_dec (pad x30 n (dec z)) = z.
Proof.
  intros Hz. unfold pad.
  assert (Hpad : forall k s, read_dec (replicate k x30 ++ s) = read_dec s).
  { intros k s. unfold read_dec. rewrite foldl_app. f_equal. induction k as [|k IH]; [done|]. apply IH. }
  rewrite Hpad. by apply read_dec_dec.
Qed.

Lemma pad_no_dot n z : 0 <= z -> x2e ∉ pad x30 n (dec z).
Proof.
  intros Hz Hin. unfold pad in Hin. apply elem_of_app in Hin as [Hin|Hin].
  - apply elem_of_replicate in Hin as [? _]. done.
  - unfold dec in Hin. destruct (Z.ltb_spec z 0) as [?|_]; [lia|].
    pose proof (dec_digits_are_digits (S (Z.to_nat (Z.log2 (Z.abs z)))) (Z.abs z) [] (Forall_nil_2 _)) as H.
    rewrite Forall_forall in H. apply H in Hin. done.
Qed.

(** What follows the last dot is determined by the text. *)
Lemma last_piece (c : byte) (a b d d' : bytes) : a ++ c :: d = b ++ c :: d' -> c ∉ d -> c ∉ d' -> d = d'.
Proof.
  revert b. induction a as [|x a IH]; intros [|y b]; cbn.
  - by intros [= ->].
  - intros [= -> ->] Hd _. exfalso. apply Hd. apply elem_of_app. right. apply list_elem_of_here.
  - intros [= <- <-] _ Hd'. exfalso. apply Hd'. apply elem_of_app. right. apply list_elem_of_here.
  - intros [= _ H]. by eapply IH.
Qed.

Lemma MakeFilename_shape prefix ext t p q :
  exists P, fst (MakeFilename prefix ext t p q) = (P ++ x2e :: pad x30 3 (dec (i32 (q + 1)))) ++ bs "." ++ ext.
Proof.
  exists (prefix ++ bs "." ++ pad x30 4 (dec (tm_year t + 1900)) ++ pad x30 2 (dec (tm_mon t + 1)) ++
   pad x30 2 (dec (tm_mday t)) ++ bs "." ++ pad x30 2 (dec (tm_hour t)) ++
   pad x30 2 (dec (tm_min t)) ++ pad x30 2 (dec (tm_sec t)) ++ bs "." ++ dec p).
  unfold MakeFilename. cbn [fst]. rewrite <-!app_assoc. reflexivity.
Qed.

Lemma MakeFilename_seq prefix ext t t' p p' q q' :
  0 <= q < 2 ^ 31 - 1 -> 0 <= q' < 2 ^ 31 - 1 ->
  fst (MakeFilename prefix ext t p q) = fst (MakeFilename prefix ext t' p' q') -> q = q'.
Proof.
  intros Hq Hq' H. destruct (MakeFilename_shape prefix ext t p q) as [P HP].
  destruct (MakeFilename_shape prefix ext t' p' q') as [P' HP']. rewrite HP, HP', !i32_small in H by lia.
  apply app_inv_tail in H. apply last_piece in H; [|apply pad_no_dot; lia..].
  apply (f_equal read_dec) in H. rewrite !read_dec_pad in H by lia. lia.
Qed.

(** The names a process generates, one for each time. *)
Fixpoint generated (prefix ext : bytes) (pid seq : Z) (times : list Tm) : list bytes :=
  match times with
  | [] => []
  | t :: times =>
      let '(name, seq) := MakeFilename prefix ext t pid seq in name :: generated prefix ext pid seq times
  end.

Lemma generated_later prefix ext pid times : forall seq name,
  0 <= seq -> seq + Z.of_nat (length times) < 2 ^ 31 ->
  name ∈ generated prefix ext pid seq times ->
  exists t q, seq <= q < seq + Z.of_nat (length times) /\ name = fst (MakeFilename prefix ext t pid q).
Proof.
  induction times as [|t times IH]; intros seq name Hs Hl; [by intros ?%elem_of_nil|]. cbn [length] in *.
  cbn [generated MakeFilename]. intros [->|Hin]%elem_of_cons; [exists t, seq; split; [lia|done]|].
  rewrite i32_small in Hin by lia. apply IH in Hin as (t' & q & Hq & ->); [|lia..]. exists t', q. split; [lia|done].
Qed.

(** The names of generated reports do not repeat, whatever the clock says: the counter
    in the name is read back from it, and it grows for 2^31 reports of a process. *)
Theorem generated_names_distinct prefix ext pid seq times :
  0 <= seq -> seq + Z.of_nat (length times) < 2 ^ 31 -> NoDup (generated prefix ext pid seq times).
Proof.
  revert seq. induction times as [|t times IH]; intros seq Hs Hl; [constructor|]. cbn [length] in Hl.
  cbn [generated]. destruct (MakeFilename prefix ext t pid seq) as [name seq'] eqn:E.
  assert (Hseq : seq' = seq + 1) by (injection E as _ <-; apply i32_small; lia). subst seq'.
  constructor; [|apply IH; lia]. intros Hin. apply generated_later in Hin as (t' & q & Hq & Hn); [|lia..].
  replace name with (fst (MakeFilename prefix ext t pid seq)) in Hn by (by rewrite E).
  apply MakeFilename_seq in Hn; lia.
Qed.

Lemma generated_names_distinct_witness :
  NoDup (generated (bs "report") (bs "json") 42 0
    [mkTm 123 10 5 8 9 7; mkTm 123 10 5 8 9 7; mkTm 123 9 29 2 30 0]).
Proof.
  apply (generated_names_distinct (bs "report") (bs "json") 42 0
    [mkTm 123 10 5 8 9 7; mkTm 123 10 5 8 9 7; mkTm 123 9 29 2 30 0]); vm_compute; congruence.
Defined.

(** * A process *)

Definition ex_handle (ty : uv_handle_type) (name : bytes) : uv_handle :=
  mkHandleOf ty name true false 4096
    (fun n => if (n <? 5)%nat then (UV_ENOBUFS, 5%nat, []) else (0, 4%nat, bs "/tmp"))
    (Some (mkEndpoint None (Some (bs "127.0.0.1")) 8080)) None
    (fun n => if (n <? 7)%nat then (UV_ENOBUFS, 7%nat, []) else (0, 6%nat, bs "a.sock")) (fun _ => (-22, O, []))
    250 100 0 (Some (80, 24)) 212992 212992 (Some 2) 0 true false.

Definition ex_facts : Facts :=
  mkFacts (mkTm 123 10 5 8 9 7) (Some (1700000000, 5500)) 42 (Some (bs "/root"))
    (bs "0.25.0") (Some (bs "2.35")) None (bs "x64") (bs "linux") [(bs "uv", bs "1.44.2")]
    (Some (mkUts (bs "Linux") (bs "5.10") (bs "1") (bs "x86_64"))) None
    (Frames [mkFrameOf 1 (bs "main") 0 [] 3 9]) [(1, bs "self"); (255, bs "uv_run")]
    (mkHeapStats 10 20 30 40 50 [mkSpace (bs "new_space") 1 2 3 4])
    (Some (map (fun ty => ex_handle ty (bs "h")) [UV_FS_EVENT; UV_TCP; UV_NAMED_PIPE; UV_TIMER; UV_TTY; UV_OTHER]))
    true 4096 2000000000 0
    (Some (mkRusage (FpFinite (bs "0.25")) FpZero (fun _ => FpFinite (bs "12.5")) 1000 1 2 3 4))
    true (fun _ => true) [bs "HOME=/root"; bs "A=B=C"] (fun i => if i =? 7 then Some (1024, RLIM_INFINITY) else None)
    [bs "/lib/libc.so.6"].

Lemma ex_facts_printable : usage_printable ex_facts.
Proof. intros r [= <-]. by repeat split. Qed.

Definition ex_error : js_error :=
  ErrorObject (Some (bs "Error: x" ++ [x0a] ++ bs "    at f (a.js:1:2)" ++ [x0a] ++ bs "    at g (a.js:3:4)"))
    (Some [(Some (bs "stack"), Some (bs "s")); (Some (bs "code"), Some (bs "E1")); (None, Some (bs "x"))]).

Lemma report_is_document_witness : exists text,
  WriteDiagReport (fun _ => []) ex_facts (bs "m") (bs "API") [] ex_error false = Ret text /\
  json_text text (value_of (Obj None (report_tree ex_facts (bs "m") (bs "API") [] ex_error))).
Proof.
  apply (report_is_document (fun _ => []) ex_facts (bs "m") (bs "API") [] ex_error false ex_facts_printable).
  apply (bool_decide_eq_true_1 _). vm_compute. reflexivity.
Defined.

Lemma trigger_writes_report_witness :
  exists r, TriggerDiagReport (fun _ => []) ex_facts [] (bs "/var") true (fun _ => None) 0 (bs "m") (bs "API") ex_error = Ret r /\
    ((wrote r = None /\ returned r = []) \/
     exists dest, returned r <> [] /\ (([] : bytes) <> [] -> returned r = []) /\
       wrote r = Some (dest, write_document true (report_tree ex_facts (bs "m") (bs "API") (returned r) ex_error) ++ [x0a]) /\
       match dest with
       | Stdout => returned r = bs "stdout"
       | Stderr => returned r = bs "stderr"
       | File path => path = bs "/var" ++ bs "/" ++ returned r /\ @None Z = None
       end).
Proof.
  exact (trigger_writes_report (fun _ => []) ex_facts [] (bs "/var") true (fun _ => None) 0 (bs "m") (bs "API")
           ex_error ex_facts_printable).
Defined.

Example report_stack_of_ex_error :
  stack_nodes ex_facts ex_error (bs "API")
  = [member "message" (VString (bs "Error: x")); Arr (Some (bs "stack")) [string_node (bs "at f (a.js:1:2)")]].
Proof. vm_compute. reflexivity. Qed.

Lemma last_frame_is_lost_witness :
  PrintJavaScriptErrorStack (fun _ => []) ex_facts
    (ErrorObject (Some (join_lines (bs "Error: x") ([bs "  at f"] ++ [bs "  at g"]))) None) (bs "API") (JSONWriter_init true)
  = Ret (json_arrayend (foldl (fun w l => json_element w (VString (trim l)))
           (json_arraystart (kv (JSONWriter_init true) "message" (VString (bs "Error: x"))) (bs "stack")) [bs "  at f"])).
Proof.
  apply (last_frame_is_lost (fun _ => []) ex_facts (bs "Error: x") [bs "  at f"] (bs "  at g") None (bs "API")
           (JSONWriter_init true)); [|done..].
  repeat constructor; by apply (bool_decide_eq_true_1 _).
Defined.
