(* ===== verification/Curl.v ===== *)
(** * The curl binding

    src/src/binding/curl/curl_multi.{h,cc} and curl_easy.{h,cc}: transfers of libcurl
    driven by libuv.  libcurl asks for sockets to be watched and for a timeout through
    callbacks, the glue watches them with poll handles and a timer and calls libcurl
    when they fire, and then reads the messages about finished transfers.

    What libcurl does during a call is chosen by the environment: a list of callbacks.
    Its part of the state is what its documentation promises: the pointer assigned to a
    socket is passed back with that socket, a message is about a handle that was added,
    removing a handle takes its message away.  libuv calls no callback of a handle that
    is stopped or closing, and fails an assertion when a handle is closed twice; V8
    collects an object only when the reference to it is weak.

    The theorems: no history of transfers touches freed memory or closes a handle twice,
    every socket libcurl watches has one poll handle with its events, the handles libcurl
    holds are exactly those kept from the collector; every message is delivered once;
    header lists are freed once; and closing with a transfer in flight leaves poll
    handles that use the freed object. *)

From S2P Require Import Prelude.
Import String.StringSyntax.
Local Open Scope string_scope.
Local Open Scope list_scope.
Local Open Scope Z_scope.

(** * State *)

(** The actions of libcurl's socket callback. *)
Inductive poll_action := CURL_POLL_IN | CURL_POLL_OUT | CURL_POLL_INOUT | CURL_POLL_REMOVE.

Definition UV_READABLE : Z := 1.
Definition UV_WRITABLE : Z := 2.
Definition CURL_CSELECT_IN : Z := 1.
Definition CURL_CSELECT_OUT : Z := 2.

(** A poll handle: initialized, watching for events, being closed. *)
Inductive poll_state := PInit | PWatch (events : Z) | PClosing.

(** [src/src/binding/curl/curl_multi.h 57-77, CurlMultiContext] *)
Record CurlMultiContext := mkContext { sockfd_ : Z; poll_ : poll_state }.

(** [src/src/binding/curl/curl_easy.h 48-49, CurlEasy] Whether the reference to the
    JavaScript object is weak, and the list of headers. *)
Record CurlEasy := mkEasy { weak : bool; headers_ : option nat }.

(** Calls of curl_multi_socket_action, and what JavaScript sees. *)
Inductive event :=
  Action (socket flags : Z) | Done (easy : nat) (code : Z) | Callback (easy : nat) | Threw (message : bytes).

(** Handles in libuv's closing list. *)
Inductive closing_handle := TimerHandle | PollHandle (ctx : nat).
#[export] Instance closing_handle_eq_dec : EqDecision closing_handle := ltac:(solve_decision).

(** [src/src/binding/curl/curl_multi.h 51-54, CurlMulti] [contexts] are the contexts not yet
    deleted; [timer_] is the timeout the timer was started with.  libcurl's own part:
    [assigned] are the pointers of curl_multi_assign, [added] the handles of the multi
    handle, [infos] its messages; [slists] are the string lists not yet freed. *)
Record St := mkSt {
  contexts : gmap nat CurlMultiContext;
  next_context : nat;
  timer_ : option Z;
  alive : bool;
  pending_handles_ : gset nat;
  easies : gmap nat CurlEasy;
  next_easy : nat;
  closing : list closing_handle;
  assigned : gmap Z nat;
  added : gset nat;
  infos : list (nat * Z);
  slists : gset nat;
  next_slist : nat;
  log : list event }.

Definition St_init : St := mkSt ∅ 0 None true ∅ ∅ 0 [] ∅ ∅ [] ∅ 0 [].

Definition set_contexts (s : St) (m : gmap nat CurlMultiContext) : St :=
  mkSt m (next_context s) (timer_ s) (alive s) (pending_handles_ s) (easies s) (next_easy s) (closing s)
    (assigned s) (added s) (infos s) (slists s) (next_slist s) (log s).
Definition set_timer (s : St) (t : option Z) : St :=
  mkSt (contexts s) (next_context s) t (alive s) (pending_handles_ s) (easies s) (next_easy s) (closing s)
    (assigned s) (added s) (infos s) (slists s) (next_slist s) (log s).
Definition set_assigned (s : St) (m : gmap Z nat) : St :=
  mkSt (contexts s) (next_context s) (timer_ s) (alive s) (pending_handles_ s) (easies s) (next_easy s) (closing s)
    m (added s) (infos s) (slists s) (next_slist s) (log s).
Definition push_closing (s : St) (h : closing_handle) : St :=
  mkSt (contexts s) (next_context s) (timer_ s) (alive s) (pending_handles_ s) (easies s) (next_easy s)
    (h :: closing s) (assigned s) (added s) (infos s) (slists s) (next_slist s) (log s).
Definition set_easies (s : St) (m : gmap nat CurlEasy) : St :=
  mkSt (contexts s) (next_context s) (timer_ s) (alive s) (pending_handles_ s) m (next_easy s) (closing s)
    (assigned s) (added s) (infos s) (slists s) (next_slist s) (log s).
Definition set_infos (s : St) (l : list (nat * Z)) : St :=
  mkSt (contexts s) (next_context s) (timer_ s) (alive s) (pending_handles_ s) (easies s) (next_easy s) (closing s)
    (assigned s) (added s) l (slists s) (next_slist s) (log s).
Definition emit (s : St) (e : event) : St :=
  mkSt (contexts s) (next_context s) (timer_ s) (alive s) (pending_handles_ s) (easies s) (next_easy s) (closing s)
    (assigned s) (added s) (infos s) (slists s) (next_slist s) (log s ++ [e]).

(** * CurlMultiContext *)

(** uv_poll_init_socket fails when the descriptor is watched already. *)
Definition watched (s : St) (fd : Z) : bool :=
  existsb (fun '(_, c) => bool_decide (sockfd_ c = fd) && match poll_ c with PWatch _ => true | _ => false end)
    (map_to_list (contexts s)).

(** [src/src/binding/curl/curl_multi.cc 227-231, CurlMultiContext::Create] With the
    constructor, lines 260-263. *)
Definition Create (s : St) (fd : Z) : outcome (nat * St) :=
  CHECK (negb (watched s fd)) ;;
  let c := next_context s in
  Ret (c, mkSt (<[c := mkContext fd PInit]> (contexts s)) (S c) (timer_ s) (alive s) (pending_handles_ s)
         (easies s) (next_easy s) (closing s) (assigned s) (added s) (infos s) (slists s) (next_slist s) (log s)).

(** [src/src/binding/curl/curl_multi.cc 238-240, CurlMultiContext::Start] libuv asserts that
    the handle is not closing. *)
Definition Start_ (s : St) (c : nat) (events : Z) : outcome St :=
  match contexts s !! c with
  | None => Fault UseAfterFree
  | Some x =>
      match poll_ x with
      | PClosing => Fault CheckFailed
      | _ => Ret (set_contexts s (<[c := mkContext (sockfd_ x) (PWatch events)]> (contexts s)))
      end
  end.

(** [src/src/binding/curl/curl_multi.cc 233-236, CurlMultiContext::Destroy] *)
Definition Destroy (s : St) (c : nat) : outcome St :=
  match contexts s !! c with
  | None => Fault UseAfterFree
  | Some x =>
      match poll_ x with
      | PClosing => Fault CheckFailed
      | _ => Ret (push_closing (set_contexts s (<[c := mkContext (sockfd_ x) PClosing]> (contexts s))) (PollHandle c))
      end
  end.

(** [src/src/binding/curl/curl_multi.cc 254-258, CurlMultiContext::OnClose] *)
Definition context_OnClose (s : St) (c : nat) : outcome St :=
  match contexts s !! c with
  | None => Fault UseAfterFree
  | Some _ => Ret (set_contexts s (delete c (contexts s)))
  end.

(** * CurlMulti *)

Definition action_events (a : poll_action) : Z :=
  Z.lor (match a with CURL_POLL_IN => 0 | _ => UV_WRITABLE end) (match a with CURL_POLL_OUT => 0 | _ => UV_READABLE end).

(** [src/src/binding/curl/curl_multi.cc 161-194, CurlMulti::HandleSocket] libcurl passes the
    pointer assigned to the socket. *)
Definition HandleSocket (s : St) (socket : Z) (action : poll_action) : outcome St :=
  let curl_context := assigned s !! socket in
  match action with
  | CURL_POLL_REMOVE =>
      match curl_context with
      | None => Ret s
      | Some c => s ← Destroy s c; Ret (set_assigned s (delete socket (assigned s)))
      end
  | _ =>
      '(c, s) ← match curl_context with Some c => Ret (c, s) | None => Create s socket end;
      let s := set_assigned s (<[socket := c]> (assigned s)) in
      Start_ s c (action_events action)
  end.

(** [src/src/binding/curl/curl_multi.cc 197-209, CurlMulti::StartTimeout] A handle that
    is closing is not started. *)
Definition StartTimeout (s : St) (timeout_ms : Z) : St :=
  if timeout_ms <? 0 then set_timer s None
  else if bool_decide (TimerHandle ∈ closing s) then s
  else set_timer s (Some (if timeout_ms =? 0 then 1 else timeout_ms)).

(** A callback libcurl makes into the glue. *)
Inductive callback := OnSocket (socket : Z) (action : poll_action) | OnTimer (timeout_ms : Z).

Definition run_callback (s : St) (cb : callback) : outcome St :=
  match cb with OnSocket fd a => HandleSocket s fd a | OnTimer ms => Ret (StartTimeout s ms) end.

Fixpoint run_callbacks (s : St) (cbs : list callback) : outcome St :=
  match cbs with [] => Ret s | cb :: cbs => s ← run_callback s cb; run_callbacks s cbs end.

(** [src/src/binding/curl/curl_multi.cc 59-82, CurlMulti::AddHandle] [err] is the text of
    curl_multi_add_handle's error; a handle that was added before is one. *)
Definition AddHandle (s : St) (e : nat) (err : option bytes) (cbs : list callback) : outcome St :=
  match easies s !! e with
  | None => Ret s
  | Some x =>
      if negb (alive s) then Ret s
      else if bool_decide (e ∈ pending_handles_ s) then Ret (emit s (Threw (bs "handle is pending")))
      else
        s ← run_callbacks s cbs;
        match err with
        | Some m => Ret (emit s (Threw m))
        | None =>
            Ret (mkSt (contexts s) (next_context s) (timer_ s) (alive s) ({[e]} ∪ pending_handles_ s)
                   (<[e := mkEasy false (headers_ x)]> (easies s)) (next_easy s) (closing s) (assigned s)
                   ({[e]} ∪ added s) (infos s) (slists s) (next_slist s) (log s))
        end
  end.

(** [src/src/binding/curl/curl_multi.cc 84-108, CurlMulti::RemoveHandle] *)
Definition RemoveHandle (s : St) (e : nat) (err : option bytes) (cbs : list callback) : outcome St :=
  match easies s !! e with
  | None => Ret s
  | Some x =>
      if negb (alive s) then Ret s
      else if negb (bool_decide (e ∈ pending_handles_ s)) then Ret (emit s (Threw (bs "handle is pending")))
      else
        s ← run_callbacks s cbs;
        match err with
        | Some m => Ret (emit s (Threw m))
        | None =>
            Ret (mkSt (contexts s) (next_context s) (timer_ s) (alive s) (pending_handles_ s ∖ {[e]})
                   (<[e := mkEasy true (headers_ x)]> (easies s)) (next_easy s) (closing s) (assigned s)
                   (added s ∖ {[e]}) (filter (fun m => m.1 <> e) (infos s)) (slists s) (next_slist s) (log s))
        end
  end.

(** * CurlEasy *)

(** [src/src/binding/curl/curl_easy.cc 147-173, CurlEasy::CurlEasy] *)
Definition CurlEasy_new (s : St) : St :=
  mkSt (contexts s) (next_context s) (timer_ s) (alive s) (pending_handles_ s)
    (<[next_easy s := mkEasy true None]> (easies s)) (S (next_easy s)) (closing s) (assigned s) (added s)
    (infos s) (slists s) (next_slist s) (log s).

(** curl_slist_free_all *)
Definition free_slist (s : St) (l : option nat) : outcome St :=
  match l with
  | None => Ret s
  | Some l =>
      if bool_decide (l ∈ slists s)
      then Ret (mkSt (contexts s) (next_context s) (timer_ s) (alive s) (pending_handles_ s) (easies s)
                  (next_easy s) (closing s) (assigned s) (added s) (infos s) (slists s ∖ {[l]}) (next_slist s) (log s))
      else Fault UseAfterFree
  end.

(** How the loop over an array ends: all items appended, the appending of one failed, one
    could not be read; a list exists when something was appended. *)
Inductive list_result := ListOk | AppendFailed | GetFailed.

Definition new_slist (s : St) (items : nat) : option nat * St :=
  match items with
  | O => (None, s)
  | _ =>
      (Some (next_slist s),
       mkSt (contexts s) (next_context s) (timer_ s) (alive s) (pending_handles_ s) (easies s) (next_easy s)
         (closing s) (assigned s) (added s) (infos s) ({[next_slist s]} ∪ slists s) (S (next_slist s)) (log s))
  end.

(** [src/src/binding/curl/curl_easy.cc 82-114, CurlEasy::SetOpt] With an array; [header] for
    CURLOPT_HTTPHEADER, [items] were appended. *)
Definition SetOpt_array (s : St) (e : nat) (header : bool) (items : nat) (r : list_result) : outcome St :=
  match easies s !! e with
  | None => Ret s
  | Some x =>
      let '(slist, s) := new_slist s items in
      match r with
      | GetFailed => Ret s
      | AppendFailed => s ← free_slist s slist; Ret (emit s (Threw (bs "failed to create slist")))
      | ListOk =>
          if header then
            s ← free_slist s (headers_ x);
            Ret (set_easies s (<[e := mkEasy (weak x) slist]> (easies s)))
          else Ret s
      end
  end.

(** [src/src/binding/curl/curl_easy.cc 175-178, CurlEasy::~CurlEasy] The collector deletes
    an object with a weak reference; libcurl must not hold its handle any more. *)
Definition Collect (s : St) (e : nat) : outcome St :=
  match easies s !! e with
  | Some x =>
      if weak x then
        s ← free_slist s (headers_ x);
        if bool_decide (e ∈ added s) then Fault UseAfterFree
        else Ret (set_easies s (delete e (easies s)))
      else Ret s
  | None => Ret s
  end.

(** What JavaScript does. *)
Inductive js :=
  | JNew
  | JAdd (e : nat) (err : option bytes) (cbs : list callback)
  | JRemove (e : nat) (err : option bytes) (cbs : list callback)
  | JSetList (e : nat) (header : bool) (items : nat) (r : list_result)
  | JCollect (e : nat).

(** libcurl refuses calls from inside its callbacks. *)
Definition RECURSIVE : bytes := bs "API function called from within callback".

Definition js_step (nested : bool) (s : St) (j : js) : outcome St :=
  match j with
  | JNew => Ret (CurlEasy_new s)
  | JAdd e err cbs => if nested then AddHandle s e (Some RECURSIVE) [] else AddHandle s e err cbs
  | JRemove e err cbs => if nested then RemoveHandle s e (Some RECURSIVE) [] else RemoveHandle s e err cbs
  | JSetList e header items r => SetOpt_array s e header items r
  | JCollect e => Collect s e
  end.

Fixpoint js_run (nested : bool) (s : St) (js : list js) : outcome St :=
  match js with [] => Ret s | j :: js => s ← js_step nested s j; js_run nested s js end.

(** * Driving libcurl *)

(** What libcurl does in curl_multi_socket_action: callbacks of the glue, callbacks of a
    transfer ([OnHeader], [OnWrite], [OnRead], [OnPreReq]), ends of transfers. *)
Inductive act := ACallback (cb : callback) | ATransfer (e : nat) (ops : list js) | AInfo (e : nat) (code : Z).

Definition run_act (s : St) (a : act) : outcome St :=
  match a with
  | ACallback cb => run_callback s cb
  | ATransfer e ops =>
      if bool_decide (e ∈ added s) then
        match easies s !! e with
        | None => Fault UseAfterFree
        | Some _ => js_run true (emit s (Callback e)) ops
        end
      else Ret s
  | AInfo e code => Ret (if bool_decide (e ∈ added s) then set_infos s (infos s ++ [(e, code)]) else s)
  end.

Fixpoint run_acts (s : St) (l : list act) : outcome St :=
  match l with [] => Ret s | a :: l => s ← run_act s a; run_acts s l end.

(** [src/src/binding/curl/curl_easy.cc 180-211, CurlEasy::OnDone] *)
Definition OnDone (s : St) (e : nat) (code : Z) (ops : list js) : outcome St :=
  match easies s !! e with
  | None => Fault UseAfterFree
  | Some _ => js_run false (emit s (Done e code)) ops
  end.

(** [src/src/binding/curl/curl_multi.cc 146-158, CurlMulti::ProcessMessages] [reactions] are
    what JavaScript does in each of the callbacks. *)
Fixpoint ProcessMessages (fuel : nat) (s : St) (reactions : list (list js)) : outcome St :=
  match infos s with
  | [] => Ret s
  | (e, code) :: rest =>
      match fuel with
      | O => Fault OutOfFuel
      | S fuel =>
          s ← OnDone (set_infos s rest) e code (default [] (head reactions));
          ProcessMessages fuel s (tail reactions)
      end
  end.

Definition socket_action (s : St) (fd flags : Z) (acts : list act) (reactions : list (list js)) : outcome St :=
  s ← run_acts (emit s (Action fd flags)) acts;
  ProcessMessages (length (infos s)) s reactions.

Definition CURL_SOCKET_TIMEOUT : Z := -1.

(** [src/src/binding/curl/curl_multi.cc 243-251, CurlMultiContext::OnPoll] *)
Definition poll_flags (events : Z) : Z :=
  Z.lor (if Z.land events UV_READABLE =? 0 then 0 else CURL_CSELECT_IN)
        (if Z.land events UV_WRITABLE =? 0 then 0 else CURL_CSELECT_OUT).

(** [src/src/binding/curl/curl_multi.cc 122-127, CurlMulti::OnPoll] Called by libuv for a
    handle that watches. *)
Definition OnPoll (s : St) (c : nat) (events : Z) (acts : list act) (reactions : list (list js)) : outcome St :=
  match contexts s !! c with
  | Some x =>
      match poll_ x with
      | PWatch _ => if alive s then socket_action s (sockfd_ x) (poll_flags events) acts reactions else Fault UseAfterFree
      | _ => Ret s
      end
  | None => Ret s
  end.

(** [src/src/binding/curl/curl_multi.cc 130-137, CurlMulti::OnTimeout] The timer does not
    repeat. *)
Definition OnTimeout (s : St) (acts : list act) (reactions : list (list js)) : outcome St :=
  match timer_ s with
  | Some _ => socket_action (set_timer s None) CURL_SOCKET_TIMEOUT 0 acts reactions
  | None => Ret s
  end.

(** [src/src/binding/curl/curl_multi.cc 110-120, CurlMulti::Close] *)
Definition Close (s : St) : outcome St :=
  if alive s then
    CHECK (negb (bool_decide (TimerHandle ∈ closing s))) ;;
    Ret (push_closing (set_timer s None) TimerHandle)
  else Ret s.

(** [src/src/binding/curl/curl_multi.cc 140-144, CurlMulti::OnClose] With the destructor,
    lines 223-225: curl_multi_cleanup may make callbacks. *)
Definition multi_OnClose (s : St) (cbs : list callback) : outcome St :=
  s ← run_callbacks s cbs;
  Ret (mkSt (contexts s) (next_context s) None false ∅ (easies s) (next_easy s) (closing s) ∅ ∅ [] (slists s)
         (next_slist s) (log s)).

(** An event of the loop or of JavaScript; [SClosed] is the close callback of a handle of
    the closing list. *)
Inductive step :=
  | SJs (j : js)
  | SPoll (c : nat) (events : Z) (acts : list act) (reactions : list (list js))
  | STimeout (acts : list act) (reactions : list (list js))
  | SClose
  | SClosed (i : nat) (cbs : list callback).

Definition run_step (s : St) (x : step) : outcome St :=
  match x with
  | SJs j => js_step false s j
  | SPoll c events acts reactions => OnPoll s c events acts reactions
  | STimeout acts reactions => OnTimeout s acts reactions
  | SClose => Close s
  | SClosed i cbs =>
      match closing s !! i with
      | None => Ret s
      | Some h =>
          let s := mkSt (contexts s) (next_context s) (timer_ s) (alive s) (pending_handles_ s) (easies s)
                     (next_easy s) (delete i (closing s)) (assigned s) (added s) (infos s) (slists s)
                     (next_slist s) (log s) in
          match h with
          | TimerHandle => multi_OnClose s cbs
          | PollHandle c => context_OnClose s c
          end
      end
  end.

Fixpoint run (s : St) (xs : list step) : outcome St :=
  match xs with [] => Ret s | x :: xs => s ← run_step s x; run s xs end.

(** * The invariant *)

(** libcurl's pointers and the poll handles: a socket has a pointer exactly when a context
    watches it, and the pointer is that context; the other contexts are in the closing
    list, once. *)
Record ctx_inv (ctxs : gmap nat CurlMultiContext) (ptrs : gmap Z nat) (cl : list closing_handle) (n : nat) : Prop := {
  ptr_watch : forall fd c, ptrs !! fd = Some c <-> exists ev, ctxs !! c = Some (mkContext fd (PWatch ev));
  watch_or_close : forall c x, ctxs !! c = Some x -> poll_ x = PClosing \/ exists ev, poll_ x = PWatch ev;
  closing_once : NoDup cl;
  closing_list : forall c, PollHandle c ∈ cl <-> exists fd, ctxs !! c = Some (mkContext fd PClosing);
  fresh_context : forall c, is_Some (ctxs !! c) -> (c < n)%nat }.

(** The handles libcurl holds are the pending ones; they exist and are kept, the others can
    be collected; messages are about handles libcurl holds. *)
Record easy_inv (es : gmap nat CurlEasy) (pend add : gset nat) (ms : list (nat * Z)) (n : nat) : Prop := {
  added_pending : add = pend;
  pending_exist : forall e, e ∈ pend -> is_Some (es !! e);
  weak_or_pending : forall e x, es !! e = Some x -> weak x = negb (bool_decide (e ∈ pend));
  infos_added : forall m, m ∈ ms -> m.1 ∈ add;
  fresh_easy : forall e, is_Some (es !! e) -> (e < n)%nat }.

(** Every list of headers belongs to one handle and is not freed. *)
Record list_inv (es : gmap nat CurlEasy) (ls : gset nat) (n : nat) : Prop := {
  headers_live : forall e x h, es !! e = Some x -> headers_ x = Some h -> h ∈ ls;
  headers_once : forall e e' x x' h, es !! e = Some x -> es !! e' = Some x' ->
    headers_ x = Some h -> headers_ x' = Some h -> e = e';
  fresh_list : forall h, h ∈ ls -> (h < n)%nat }.

Record inv (s : St) : Prop := {
  inv_alive : alive s = true;
  inv_timer : TimerHandle ∉ closing s;
  inv_ctx : ctx_inv (contexts s) (assigned s) (closing s) (next_context s);
  inv_easy : easy_inv (easies s) (pending_handles_ s) (added s) (infos s) (next_easy s);
  inv_list : list_inv (easies s) (slists s) (next_slist s) }.

Lemma inv_init : inv St_init.
Proof.
  split; [done|apply not_elem_of_nil|..]; simpl.
  - split.
    + intros fd c. rewrite lookup_empty. split; [done|]. intros [ev H]. by rewrite lookup_empty in H.
    + intros c x. by rewrite lookup_empty.
    + constructor.
    + intros c. split; [by intros ?%elem_of_nil|]. intros [fd H]. by rewrite lookup_empty in H.
    + intros c [x H]. by rewrite lookup_empty in H.
  - split; [done|set_solver|..].
    + intros e x. by rewrite lookup_empty.
    + by intros m ?%elem_of_nil.
    + intros e [x H]. by rewrite lookup_empty in H.
  - split.
    + intros e x h. by rewrite lookup_empty.
    + intros e e' x x' h. by rewrite lookup_empty.
    + set_solver.
Qed.

(** The two states differ in the contexts, the pointers and the timer at most. *)
Record same_easy (s s' : St) : Prop := {
  se_alive : alive s' = alive s;
  se_pending : pending_handles_ s' = pending_handles_ s;
  se_easies : easies s' = easies s;
  se_next : next_easy s' = next_easy s;
  se_added : added s' = added s;
  se_infos : infos s' = infos s;
  se_slists : slists s' = slists s;
  se_nlist : next_slist s' = next_slist s;
  se_log : log s' = log s }.

Lemma same_easy_refl s : same_easy s s.
Proof. done. Qed.

Lemma same_easy_trans s1 s2 s3 : same_easy s1 s2 -> same_easy s2 s3 -> same_easy s1 s3.
Proof. intros [] []. split; congruence. Qed.

Lemma inv_same s s' : inv s -> same_easy s s' -> TimerHandle ∉ closing s' ->
  ctx_inv (contexts s') (assigned s') (closing s') (next_context s') -> inv s'.
Proof. intros [] [] Ht Hc. split; [congruence|done|done|..]; congruence. Qed.

Lemma not_watched s fd : inv s -> assigned s !! fd = None -> watched s fd = false.
Proof.
  intros Hi Hn. apply not_true_is_false. intros Hw. apply existsb_exists in Hw as ([c x] & Hin & Hx).
  apply list_elem_of_In, elem_of_map_to_list in Hin. apply andb_prop in Hx as [Hfd Hp].
  apply bool_decide_eq_true_1 in Hfd. destruct x as [fd' p]. simpl in *. subst fd'. destruct p as [|ev|]; try done.
  assert (H : assigned s !! fd = Some c) by (apply (ptr_watch _ _ _ _ (inv_ctx s Hi)); eauto). congruence.
Qed.

(** ** Callbacks of the glue *)

Lemma ctx_watch ctxs ptrs cl n fd c ev : ctx_inv ctxs ptrs cl n ->
  ptrs !! fd = Some c \/ (ptrs !! fd = None /\ c = n) ->
  ctx_inv (<[c := mkContext fd (PWatch ev)]> ctxs) (<[fd := c]> ptrs) cl (if decide (ptrs !! fd = None) then S n else n).
Proof.
  intros Hi Hc. assert (Hcl : PollHandle c ∉ cl).
  { intros [fd' H]%(closing_list _ _ _ _ Hi). destruct Hc as [Hc|[_ ->]].
    - apply (ptr_watch _ _ _ _ Hi) in Hc as [ev' Hc]. congruence.
    - pose proof (fresh_context _ _ _ _ Hi n ltac:(eauto)). lia. }
  split.
  - intros fd' c'. destruct (decide (c' = c)) as [->|Hne].
    + rewrite lookup_insert_eq. split.
      * intros H. destruct (decide (fd' = fd)) as [->|Hf]; [eauto|]. rewrite lookup_insert_ne in H by done.
        apply (ptr_watch _ _ _ _ Hi) in H as [ev' H]. destruct Hc as [Hc|[_ ->]].
        -- apply (ptr_watch _ _ _ _ Hi) in Hc as [ev'' Hc]. congruence.
        -- pose proof (fresh_context _ _ _ _ Hi n ltac:(eauto)). lia.
      * intros [ev' [= <- _]]. apply lookup_insert_eq.
    + rewrite (lookup_insert_ne ctxs) by done. rewrite <-(ptr_watch _ _ _ _ Hi).
      destruct (decide (fd' = fd)) as [->|Hf]; [|by rewrite lookup_insert_ne].
      rewrite lookup_insert_eq. split; [congruence|]. intros H. destruct Hc as [Hc|[Hc _]]; congruence.
  - intros c' x. destruct (decide (c' = c)) as [->|Hne].
    + rewrite lookup_insert_eq. intros [= <-]. simpl. eauto.
    + rewrite lookup_insert_ne by done. apply (watch_or_close _ _ _ _ Hi).
  - apply (closing_once _ _ _ _ Hi).
  - intros c'. destruct (decide (c' = c)) as [->|Hne].
    + rewrite lookup_insert_eq. split; [done|]. by intros [fd' [= _ ?]].
    + rewrite lookup_insert_ne by done. apply (closing_list _ _ _ _ Hi).
  - intros c'. destruct (decide (c' = c)) as [->|Hne].
    + intros _. destruct Hc as [Hc|[Hc ->]]; [|rewrite decide_True by done; lia].
      rewrite decide_False by congruence. apply (ptr_watch _ _ _ _ Hi) in Hc as [ev' Hc].
      by apply (fresh_context _ _ _ _ Hi).
    + rewrite lookup_insert_ne by done. intros H%(fresh_context _ _ _ _ Hi). case_decide; lia.
Qed.

Lemma ctx_close ctxs ptrs cl n fd c : ctx_inv ctxs ptrs cl n -> ptrs !! fd = Some c ->
  ctx_inv (<[c := mkContext fd PClosing]> ctxs) (delete fd ptrs) (PollHandle c :: cl) n.
Proof.
  intros Hi Hc. pose proof Hc as [ev Hev]%(ptr_watch _ _ _ _ Hi). split.
  - intros fd' c'. destruct (decide (c' = c)) as [->|Hne].
    + rewrite lookup_insert_eq. split; [|by intros [? [=]]]. intros [Hf H]%lookup_delete_Some.
      apply (ptr_watch _ _ _ _ Hi) in H as [ev' H]. congruence.
    + rewrite lookup_insert_ne by done. rewrite <-(ptr_watch _ _ _ _ Hi), lookup_delete_Some.
      split; [by intros []|]. intros H. split; [|done]. intros ->. congruence.
  - intros c' x. destruct (decide (c' = c)) as [->|Hne].
    + rewrite lookup_insert_eq. intros [= <-]. by left.
    + rewrite lookup_insert_ne by done. apply (watch_or_close _ _ _ _ Hi).
  - constructor; [|apply (closing_once _ _ _ _ Hi)]. intros [fd' H]%(closing_list _ _ _ _ Hi). congruence.
  - intros c'. rewrite elem_of_cons, (closing_list _ _ _ _ Hi). destruct (decide (c' = c)) as [->|Hne].
    + rewrite lookup_insert_eq. split; [eauto|by left].
    + rewrite lookup_insert_ne by done. split; [by intros [[= ?]|?]|by right].
  - intros c'. destruct (decide (c' = c)) as [->|Hne].
    + intros _. apply (fresh_context _ _ _ _ Hi). eauto.
    + rewrite lookup_insert_ne by done. apply (fresh_context _ _ _ _ Hi).
Qed.

Lemma HandleSocket_ok s fd a : inv s -> exists s', HandleSocket s fd a = Ret s' /\ inv s' /\ same_easy s s'.
Proof.
  intros Hi. pose proof (inv_ctx s Hi) as Hc.
  assert (Hwatch : forall ev, exists s',
    ('(c, s) ← match assigned s !! fd with Some c => Ret (c, s) | None => Create s fd end;
     Start_ (set_assigned s (<[fd := c]> (assigned s))) c ev) = Ret s' /\ inv s' /\ same_easy s s').
  { intros ev. destruct (assigned s !! fd) as [c|] eqn:Ha.
    - pose proof Ha as [ev' Hev]%(ptr_watch _ _ _ _ Hc). unfold Start_. cbn. rewrite Hev. cbn. eexists. split; [done|].
      pose proof (ctx_watch _ _ _ _ fd c ev Hc (or_introl Ha)) as Hn. rewrite decide_False in Hn by congruence.
      split; [|done]. by apply (inv_same s); [done|done|apply (inv_timer s Hi)|].
    - unfold Create. rewrite (not_watched s fd Hi Ha). cbn. unfold Start_. cbn. rewrite lookup_insert_eq. cbn.
      eexists. split; [done|]. rewrite insert_insert_eq.
      pose proof (ctx_watch _ _ _ _ fd (next_context s) ev Hc (or_intror (conj Ha eq_refl))) as Hn.
      rewrite decide_True in Hn by done.
      split; [|done]. by apply (inv_same s); [done|done|apply (inv_timer s Hi)|]. }
  destruct a; [apply Hwatch..|]. unfold HandleSocket. destruct (assigned s !! fd) as [c|] eqn:Ha; [|by exists s].
  pose proof Ha as [ev Hev]%(ptr_watch _ _ _ _ Hc). unfold Destroy. rewrite Hev. cbn. eexists. split; [done|].
  split; [|done]. apply (inv_same s); [done|done| |by apply ctx_close]. cbn.
  intros [?|H]%elem_of_cons; [done|]. by apply (inv_timer s Hi).
Qed.

Lemma run_callbacks_ok cbs : forall s, inv s -> exists s', run_callbacks s cbs = Ret s' /\ inv s' /\ same_easy s s'.
Proof.
  induction cbs as [|cb cbs IH]; intros s Hi; [by exists s|].
  assert (exists s1, run_callback s cb = Ret s1 /\ inv s1 /\ same_easy s s1) as (s1 & H1 & Hi1 & Hs1).
  { destruct cb as [fd a|ms]; [by apply HandleSocket_ok|]. eexists. split; [done|]. unfold StartTimeout.
    assert (inv (set_timer s None) /\ forall t, inv (set_timer s t)) as [? ?].
    { split; intros; apply (inv_same s); try done; apply Hi. }
    destruct (ms <? 0); [done|]. case_bool_decide; done. }
  destruct (IH s1 Hi1) as (s2 & H2 & Hi2 & Hs2). exists s2. cbn [run_callbacks]. rewrite H1. cbn.
  split; [done|]. split; [done|]. by eapply same_easy_trans.
Qed.

(** ** JavaScript *)

(** The ends of transfers that JavaScript was told. *)
Definition done_of (e : event) : option (nat * Z) := match e with Done e c => Some (e, c) | _ => None end.
Definition dones (s : St) : list (nat * Z) := omap done_of (log s).

(** The messages after an operation of JavaScript: a removed handle takes its own away. *)
Definition infos_after (j : js) (l l' : list (nat * Z)) : Prop :=
  l' = l \/ exists e err cbs, j = JRemove e err cbs /\ l' = filter (fun m => m.1 <> e) l.

(** What an operation of JavaScript leaves. *)
Definition js_ok (j : js) (s : St) (m : outcome St) : Prop :=
  exists s', m = Ret s' /\ inv s' /\ infos_after j (infos s) (infos s') /\ dones s' = dones s.

Lemma js_ok_refl j s : inv s -> js_ok j s (Ret s).
Proof. intros Hi. exists s. split; [done|]. split; [done|]. split; [by left|done]. Qed.

Lemma inv_emit s e : inv s -> inv (emit s e).
Proof. by intros []. Qed.

(** Changing the reference of a handle keeps the lists. *)
Lemma list_inv_flag es ls n e x b : list_inv es ls n -> es !! e = Some x ->
  list_inv (<[e := mkEasy b (headers_ x)]> es) ls n.
Proof.
  intros [H1 H2 H3] He.
  assert (Hsame : forall e' x', <[e := mkEasy b (headers_ x)]> es !! e' = Some x' ->
            exists x0, es !! e' = Some x0 /\ headers_ x' = headers_ x0).
  { intros e' x'. destruct (decide (e' = e)) as [->|Hne].
    - rewrite lookup_insert_eq. intros [= <-]. by exists x.
    - rewrite lookup_insert_ne by done. by exists x'. }
  split; [|..|done].
  - intros e' x' h (x0 & H & Hh)%Hsame. rewrite Hh. by apply (H1 e').
  - intros e1 e2 x1 x2 h (y1 & Hy1 & E1)%Hsame (y2 & Hy2 & E2)%Hsame. rewrite E1, E2. by apply H2.
Qed.

Lemma emit_threw_ok j s s' m : inv s' -> same_easy s s' -> js_ok j s (Ret (emit s' (Threw m))).
Proof.
  intros Hi Hs. eexists. split; [done|]. split; [by apply inv_emit|].
  split; [left; cbn; apply (se_infos _ _ Hs)|].
  unfold dones. cbn. rewrite omap_app. cbn. rewrite app_nil_r. by rewrite (se_log _ _ Hs).
Qed.

Lemma AddHandle_ok s e err cbs j : inv s -> js_ok j s (AddHandle s e err cbs).
Proof.
  intros Hi. unfold AddHandle. destruct (easies s !! e) as [x|] eqn:Ee; [|by apply js_ok_refl].
  rewrite (inv_alive s Hi). cbn [negb]. case_bool_decide as Hp; [by apply emit_threw_ok|].
  destruct (run_callbacks_ok cbs s Hi) as (s1 & -> & Hi1 & Hs). cbn. destruct err as [m|]; [by apply emit_threw_ok|].
  eexists. split; [done|]. split; [|split; [left; apply (se_infos _ _ Hs)|unfold dones; cbn; by rewrite (se_log _ _ Hs)]].
  destruct Hi1 as [Ha Ht Hc He Hl]. rewrite <-(se_easies _ _ Hs) in Ee. rewrite <-(se_pending _ _ Hs) in Hp.
  split; try done; cbn.
  - destruct He as [H1 H2 H3 H4 H5]. split; [set_solver|..].
    + intros e' [->%elem_of_singleton|Hin]%elem_of_union; [rewrite lookup_insert_eq; eauto|].
      destruct (decide (e' = e)) as [->|Hne]; [rewrite lookup_insert_eq; eauto|]. rewrite lookup_insert_ne by done. auto.
    + intros e' x'. destruct (decide (e' = e)) as [->|Hne].
      * rewrite lookup_insert_eq. intros [= <-]. cbn. rewrite bool_decide_eq_true_2 by set_solver. done.
      * rewrite lookup_insert_ne by done. intros H. rewrite (H3 e' x' H). f_equal. apply bool_decide_ext. set_solver.
    + intros m Hm. apply elem_of_union_r, H4, Hm.
    + intros e'. destruct (decide (e' = e)) as [->|Hne]; [intros _; apply H5; eauto|].
      rewrite lookup_insert_ne by done. apply H5.
  - by apply list_inv_flag.
Qed.

Lemma RemoveHandle_ok s e err cbs : inv s -> js_ok (JRemove e err cbs) s (RemoveHandle s e err cbs).
Proof.
  intros Hi. unfold RemoveHandle. destruct (easies s !! e) as [x|] eqn:Ee; [|by apply js_ok_refl].
  rewrite (inv_alive s Hi). cbn [negb]. case_bool_decide as Hp; cbn [negb]; [|by apply emit_threw_ok].
  destruct (run_callbacks_ok cbs s Hi) as (s1 & -> & Hi1 & Hs). cbn. destruct err as [m|]; [by apply emit_threw_ok|].
  eexists. split; [done|]. split; [|split].
  2:{ right. exists e, None, cbs. split; [done|]. cbn. by rewrite (se_infos _ _ Hs). }
  2:{ unfold dones; cbn; by rewrite (se_log _ _ Hs). }
  destruct Hi1 as [Ha Ht Hc He Hl]. rewrite <-(se_easies _ _ Hs) in Ee. rewrite <-(se_pending _ _ Hs) in Hp.
  split; try done; cbn.
  - destruct He as [H1 H2 H3 H4 H5]. split; [by rewrite H1|..].
    + intros e' [Hin Hne]%elem_of_difference. rewrite lookup_insert_ne by set_solver. auto.
    + intros e' x'. destruct (decide (e' = e)) as [->|Hne].
      * rewrite lookup_insert_eq. intros [= <-]. cbn. rewrite bool_decide_eq_false_2 by set_solver. done.
      * rewrite lookup_insert_ne by done. intros H. rewrite (H3 e' x' H). f_equal. apply bool_decide_ext. set_solver.
    + intros m [Hne Hm]%list_elem_of_filter. apply elem_of_difference. split; [by apply H4|set_solver].
    + intros e'. destruct (decide (e' = e)) as [->|Hne]; [intros _; apply H5; eauto|].
      rewrite lookup_insert_ne by done. apply H5.
  - by apply list_inv_flag.
Qed.

Lemma new_slist_ok s items l s' : inv s -> new_slist s items = (l, s') ->
  inv s' /\ same_easy (mkSt (contexts s) (next_context s) (timer_ s) (alive s) (pending_handles_ s) (easies s)
    (next_easy s) (closing s) (assigned s) (added s) (infos s) (slists s') (next_slist s') (log s)) s' /\
  (forall h, l = Some h -> h ∈ slists s' /\ forall e x, easies s !! e = Some x -> headers_ x <> Some h).
Proof.
  intros Hi. destruct items as [|items]; intros [= <- <-]; [by split; [|split]|].
  destruct Hi as [Ha Ht Hc He [H1 H2 H3]]. split; [split; try done|split; [done|]].
  - split; [|done|].
    + intros e x h Hx Hh. apply elem_of_union_r. by apply (H1 e x).
    + cbn. intros h [->%elem_of_singleton|Hh]%elem_of_union; [lia|]. specialize (H3 h Hh). lia.
  - intros h [= <-]. split; [cbn; set_solver|]. intros e x Hx Hh. specialize (H1 e x _ Hx Hh).
    specialize (H3 _ H1). lia.
Qed.

(** Freeing the list of a handle, and giving it another one, or none with the handle gone. *)
Lemma list_inv_replace es ls n e x l : list_inv es ls n -> es !! e = Some x ->
  (forall h, l = Some h -> h ∈ ls /\ forall e' x', es !! e' = Some x' -> headers_ x' <> Some h) ->
  list_inv (<[e := mkEasy (weak x) l]> es) (match headers_ x with Some h => ls ∖ {[h]} | None => ls end) n.
Proof.
  intros [H1 H2 H3] He Hl. split.
  - intros e' x' h. destruct (decide (e' = e)) as [->|Hne].
    + rewrite lookup_insert_eq. intros [= <-]. cbn. intros [Hin Hnew]%Hl. specialize (Hnew e x He).
      destruct (headers_ x) as [h0|]; [|done]. set_solver.
    + rewrite lookup_insert_ne by done. intros Hx Hh. specialize (H1 e' x' h Hx Hh).
      destruct (headers_ x) as [h0|] eqn:E; [|done]. apply elem_of_difference. split; [done|].
      intros ->%elem_of_singleton. apply Hne. by apply (H2 e' e x' x h0).
  - intros e1 e2 x1 x2 h. destruct (decide (e1 = e)) as [->|N1], (decide (e2 = e)) as [->|N2];
      rewrite ?lookup_insert_eq, ?lookup_insert_ne by done; [done|..].
    + intros [= <-] Hx2. cbn. intros [_ Hnew]%Hl Hh. by destruct (Hnew e2 x2 Hx2).
    + intros Hx1 [= <-] Hh. cbn. intros [_ Hnew]%Hl. by destruct (Hnew e1 x1 Hx1).
    + by apply H2.
  - intros h Hh. apply H3. destruct (headers_ x); [set_solver|done].
Qed.

Lemma list_inv_delete es ls n e x : list_inv es ls n -> es !! e = Some x ->
  list_inv (delete e es) (match headers_ x with Some h => ls ∖ {[h]} | None => ls end) n.
Proof.
  intros [H1 H2 H3] He. split.
  - intros e' x' h [Hne Hx]%lookup_delete_Some Hh. specialize (H1 e' x' h Hx Hh).
    destruct (headers_ x) as [h0|] eqn:E; [|done]. apply elem_of_difference. split; [done|].
    intros ->%elem_of_singleton. apply Hne. by apply (H2 e e' x x' h0).
  - intros e1 e2 x1 x2 h [_ Hx1]%lookup_delete_Some [_ Hx2]%lookup_delete_Some. by apply H2.
  - intros h Hh. apply H3. destruct (headers_ x); [set_solver|done].
Qed.

(** Freeing a list that is live takes it from the lists and nothing else. *)
Lemma free_slist_live s l : (forall h, l = Some h -> h ∈ slists s) ->
  free_slist s l = Ret (mkSt (contexts s) (next_context s) (timer_ s) (alive s) (pending_handles_ s) (easies s)
    (next_easy s) (closing s) (assigned s) (added s) (infos s)
    (match l with Some h => slists s ∖ {[h]} | None => slists s end) (next_slist s) (log s)).
Proof.
  intros Hl. destruct l as [h|]; [|by destruct s]. cbn. by rewrite bool_decide_eq_true_2 by auto.
Qed.

Lemma easy_inv_same es es' pend add ms n :
  easy_inv es pend add ms n -> (forall e, weak <$> es' !! e = weak <$> es !! e) -> easy_inv es' pend add ms n.
Proof.
  intros [H1 H2 H3 H4 H5] Hw.
  assert (Hx : forall e x, es' !! e = Some x -> exists x0, es !! e = Some x0 /\ weak x = weak x0).
  { intros e x Hx. specialize (Hw e). rewrite Hx in Hw. destruct (es !! e) as [x0|]; [|done].
    exists x0. split; [done|]. by injection Hw. }
  split; try done.
  - intros e He. destruct (H2 e He) as [x Hx0]. specialize (Hw e). rewrite Hx0 in Hw.
    destruct (es' !! e); [eauto|done].
  - intros e x (x0 & Hx0 & ->)%Hx. by apply H3.
  - intros e [x (x0 & Hx0 & _)%Hx]. apply H5. eauto.
Qed.

Lemma SetOpt_ok s e header items r j : inv s -> js_ok j s (SetOpt_array s e header items r).
Proof.
  intros Hi. unfold SetOpt_array. destruct (easies s !! e) as [x|] eqn:Ee; [|by apply js_ok_refl].
  destruct (new_slist s items) as [l s1] eqn:El. destruct (new_slist_ok s items l s1 Hi El) as (Hi1 & Hs & Hl).
  assert (Hdones : dones s1 = dones s) by (unfold dones; by rewrite (se_log _ _ Hs)).
  assert (Hinfos : infos s1 = infos s) by apply (se_infos _ _ Hs).
  assert (He1 : easies s1 = easies s) by apply (se_easies _ _ Hs).
  assert (Hfine : forall s2, inv s2 -> infos s2 = infos s1 -> dones s2 = dones s1 -> js_ok j s (Ret s2)).
  { intros s2 H2 Hm Hd. exists s2. split; [done|]. split; [done|]. split; [left|]; congruence. }
  destruct r; [destruct header| |]; try (by apply Hfine).
  - pose proof Hi1 as [Ha Ht Hc He Hli]. rewrite free_slist_live.
    2:{ intros h Hh. apply (headers_live _ _ _ Hli e x); [congruence|done]. }
    cbn. apply Hfine; [|done..]. split; try done; cbn.
    + apply (easy_inv_same (easies s1)); [done|]. intros e'. destruct (decide (e' = e)) as [->|Hne].
      * by rewrite lookup_insert_eq, He1, Ee.
      * by rewrite lookup_insert_ne.
    + apply list_inv_replace; [done|congruence|]. intros h Hh. destruct (Hl h Hh) as [H1 H2].
      split; [done|]. intros e' x' Hx'. apply (H2 e'). congruence.
  - rewrite free_slist_live by (intros h Hh; by apply Hl). cbn. apply Hfine.
    + apply inv_emit. destruct Hi1 as [Ha Ht Hc He [H1 H2 H3]]. split; try done. cbn. split; [|done|].
      * intros e' x' h Hx' Hh. specialize (H1 e' x' h Hx' Hh). destruct l as [h0|]; [|done].
        apply elem_of_difference. split; [done|]. intros ->%elem_of_singleton.
        apply (proj2 (Hl h0 eq_refl) e' x'); [congruence|done].
      * intros h Hh. apply H3. destruct l; [set_solver|done].
    + done.
    + unfold dones. cbn. rewrite omap_app. cbn. by rewrite app_nil_r.
Qed.

Lemma Collect_ok s e j : inv s -> js_ok j s (Collect s e).
Proof.
  intros Hi. unfold Collect. destruct (easies s !! e) as [x|] eqn:Ee; [|by apply js_ok_refl].
  destruct (weak x) eqn:Hw; [|by apply js_ok_refl]. destruct Hi as [Ha Ht Hc He Hl].
  assert (Hp : e ∉ pending_handles_ s).
  { intros Hp. pose proof (weak_or_pending _ _ _ _ _ He e x Ee) as H.
    rewrite bool_decide_eq_true_2 in H by done. simpl in H. congruence. }
  rewrite free_slist_live by (intros h Hh; by apply (headers_live _ _ _ Hl e x)). cbn.
  rewrite bool_decide_eq_false_2 by (by rewrite (added_pending _ _ _ _ _ He)).
  eexists. split; [done|]. split; [|split; [by left|done]]. split; try done; cbn; [|by apply list_inv_delete].
  destruct He as [H1 H2 H3 H4 H5]. split; try done.
  - intros e' He'. destruct (H2 e' He') as [x' Hx']. rewrite lookup_delete_ne by (intros ->; done). eauto.
  - intros e' x' [_ Hx']%lookup_delete_Some. by apply H3.
  - intros e' [x' [_ Hx']%lookup_delete_Some]. apply H5. eauto.
Qed.

Lemma CurlEasy_new_ok s j : inv s -> js_ok j s (Ret (CurlEasy_new s)).
Proof.
  intros [Ha Ht Hc He Hl]. eexists. split; [done|]. split; [|split; [by left|done]].
  assert (Hnew : easies s !! next_easy s = None).
  { apply eq_None_not_Some. intros H%(fresh_easy _ _ _ _ _ He). lia. }
  split; try done; cbn.
  - destruct He as [H1 H2 H3 H4 H5].
    assert (Hp : next_easy s ∉ pending_handles_ s) by (intros [x Hx]%H2; congruence). split; try done.
    + intros e Hin. rewrite lookup_insert_ne by (intros <-; done). auto.
    + intros e x. destruct (decide (e = next_easy s)) as [->|Hne].
      * rewrite lookup_insert_eq. intros [= <-]. by rewrite bool_decide_eq_false_2.
      * rewrite lookup_insert_ne by done. apply H3.
    + intros e. destruct (decide (e = next_easy s)) as [->|Hne]; [lia|].
      rewrite lookup_insert_ne by done. intros H%H5. lia.
  - destruct Hl as [H1 H2 H3]. split; [|..|done].
    + intros e x h. destruct (decide (e = next_easy s)) as [->|Hne].
      * rewrite lookup_insert_eq. by intros [= <-].
      * rewrite lookup_insert_ne by done. apply H1.
    + intros e e' x x' h. destruct (decide (e = next_easy s)) as [->|N], (decide (e' = next_easy s)) as [->|N'];
        rewrite ?lookup_insert_eq, ?lookup_insert_ne by done; try (by intros [= <-]); try (by intros ? [= <-]).
      apply H2.
Qed.

Lemma js_step_ok nested s j : inv s -> js_ok j s (js_step nested s j).
Proof.
  intros Hi. destruct j as [|e err cbs|e err cbs|e h n r|e]; cbn [js_step].
  - by apply CurlEasy_new_ok.
  - destruct nested; by apply AddHandle_ok.
  - destruct nested; [|by apply RemoveHandle_ok].
    destruct (RemoveHandle_ok s e (Some RECURSIVE) [] Hi) as (s' & H & Hi' & Hm & Hd).
    exists s'. split; [done|]. split; [done|]. split; [|done].
    destruct Hm as [Hm|(e' & err' & cbs' & [= <- _ _] & Hm)]; [by left|right; by eexists _, _, _].
  - by apply SetOpt_ok.
  - by apply Collect_ok.
Qed.

(** The handles a list of operations removes. *)
Definition removes (j : js) : option nat := match j with JRemove e _ _ => Some e | _ => None end.

Lemma js_run_ok nested ops : forall s, inv s ->
  exists s', js_run nested s ops = Ret s' /\ inv s' /\ dones s' = dones s /\
    (length (infos s') <= length (infos s))%nat /\
    ((forall e m, e ∈ omap removes ops -> m ∈ infos s -> m.1 <> e) -> infos s' = infos s).
Proof.
  induction ops as [|j ops IH]; intros s Hi; [by exists s|].
  destruct (js_step_ok nested s j Hi) as (s1 & H1 & Hi1 & Hm & Hd).
  destruct (IH s1 Hi1) as (s2 & H2 & Hi2 & Hd2 & Hle & Hsame). exists s2. cbn [js_run]. rewrite H1. cbn.
  split; [done|]. split; [done|]. split; [congruence|].
  assert (Hlen : (length (infos s1) <= length (infos s))%nat).
  { destruct Hm as [->|(e & _ & _ & _ & ->)]; [done|]. apply length_filter. }
  split; [lia|]. intros Hno.
  assert (Hs1 : infos s1 = infos s).
  { destruct Hm as [Hm|(e & err & cbs & -> & Hm)]; [done|]. rewrite Hm. apply filter_all, Forall_forall.
    intros m Him. apply (Hno e m); [cbn; by left|done]. }
  rewrite Hsame; [done|]. intros e m He Hin. rewrite Hs1 in Hin. apply (Hno e m); [|done].
  cbn. destruct (removes j); [by right|done].
Qed.

(** ** Driving libcurl *)

Lemma run_act_ok s a : inv s -> exists s', run_act s a = Ret s' /\ inv s' /\ dones s' = dones s.
Proof.
  intros Hi. destruct a as [cb|e ops|e code]; cbn [run_act].
  - destruct (run_callbacks_ok [cb] s Hi) as (s' & H & Hi' & Hs). cbn in H.
    destruct (run_callback s cb) as [s1|]; [|done]. injection H as ->. exists s'. split; [done|]. split; [done|].
    unfold dones. by rewrite (se_log _ _ Hs).
  - case_bool_decide as Ha; [|by exists s]. pose proof (inv_easy s Hi) as He.
    destruct (pending_exist _ _ _ _ _ He e) as [x ->]; [by rewrite <-(added_pending _ _ _ _ _ He)|].
    destruct (js_run_ok true ops (emit s (Callback e)) (inv_emit _ _ Hi)) as (s' & H & Hi' & Hd & _).
    exists s'. split; [done|]. split; [done|]. rewrite Hd. unfold dones. cbn. rewrite omap_app. cbn. apply app_nil_r.
  - eexists. split; [done|]. case_bool_decide as Ha; [|done]. split; [|done].
    destruct Hi as [H1 H2 H3 [E1 E2 E3 E4 E5] H5]. split; try done; cbn. split; try done.
    intros m Hm. apply elem_of_app in Hm as [Hm|Hm]; [by apply E4|]. by apply list_elem_of_singleton in Hm as ->.
Qed.

Lemma run_acts_ok l : forall s, inv s -> exists s', run_acts s l = Ret s' /\ inv s' /\ dones s' = dones s.
Proof.
  induction l as [|a l IH]; intros s Hi; [by exists s|]. destruct (run_act_ok s a Hi) as (s1 & H1 & Hi1 & Hd1).
  destruct (IH s1 Hi1) as (s2 & H2 & Hi2 & Hd2). exists s2. cbn [run_acts]. rewrite H1. cbn.
  split; [done|]. split; [done|]. congruence.
Qed.

Lemma inv_pop s e code rest : inv s -> infos s = (e, code) :: rest ->
  inv (set_infos s rest) /\ is_Some (easies s !! e).
Proof.
  intros [H1 H2 H3 [E1 E2 E3 E4 E5] H5] Hm. split.
  - split; try done; cbn. split; try done. intros m Hin. apply E4. rewrite Hm. by right.
  - apply E2. rewrite <-E1. apply (E4 (e, code)). rewrite Hm. by left.
Qed.

(** The loop reads every message: it ends with none left, has told JavaScript some of
    them, and all of them in their order when JavaScript removes no handle whose message
    was not read yet. *)
Lemma ProcessMessages_ok fuel : forall s reactions, inv s -> (length (infos s) <= fuel)%nat ->
  exists s', ProcessMessages fuel s reactions = Ret s' /\ inv s' /\ infos s' = [] /\
    exists told, dones s' = dones s ++ told /\
      ((forall i ops e m, reactions !! i = Some ops -> e ∈ omap removes ops -> m ∈ drop (S i) (infos s) -> m.1 <> e) ->
       told = infos s).
Proof.
  induction fuel as [|fuel IH]; intros s reactions Hi Hf.
  - destruct (infos s) as [|m ms] eqn:Em; [|cbn in Hf; lia]. exists s. cbn. rewrite Em.
    split; [done|]. split; [done|]. split; [done|]. exists []. by rewrite app_nil_r.
  - cbn [ProcessMessages]. destruct (infos s) as [|[e code] rest] eqn:Em.
    { exists s. split; [done|]. split; [done|]. split; [done|]. exists []. by rewrite app_nil_r. }
    destruct (inv_pop s e code rest Hi Em) as [Hi1 [x Hx]]. unfold OnDone. cbn [easies set_infos]. rewrite Hx.
    set (ops := default [] (head reactions)).
    destruct (js_run_ok false ops (emit (set_infos s rest) (Done e code)) (inv_emit _ _ Hi1))
      as (s1 & H1 & Hi2 & Hd1 & Hle & Hsame). cbn [infos set_infos emit] in Hle, Hsame.
    rewrite H1. cbn. destruct (IH s1 (tail reactions) Hi2) as (s2 & H2 & Hi3 & Hnil & told & Ht & Hall).
    { cbn in Hf. lia. }
    exists s2. split; [done|]. split; [done|]. split; [done|]. exists ((e, code) :: told). split.
    + rewrite Ht, Hd1. unfold dones. cbn. rewrite omap_app. cbn. by rewrite <-app_assoc.
    + intros Hno. f_equal.
      assert (Hrest : infos s1 = rest).
      { apply Hsame. intros e' m He' Hin. destruct reactions as [|ops' reactions]; [by apply elem_of_nil in He'|].
        by apply (Hno 0%nat ops' e' m). }
      rewrite Hall; [done|]. intros i ops' e' m Hops He' Hin.
      destruct reactions as [|ops0 reactions]; [done|].
      apply (Hno (S i) ops' e' m); [done|done|]. rewrite Hrest in Hin. done.
Qed.

Lemma socket_action_ok s fd flags acts reactions : inv s ->
  exists s', socket_action s fd flags acts reactions = Ret s' /\ inv s' /\ infos s' = [].
Proof.
  intros Hi. unfold socket_action. destruct (run_acts_ok acts (emit s (Action fd flags)) (inv_emit _ _ Hi)) as (s1 & H1 & Hi1 & _).
  rewrite H1. cbn. destruct (ProcessMessages_ok (length (infos s1)) s1 reactions Hi1) as (s2 & H2 & Hi2 & Hm & _); [done|].
  by exists s2.
Qed.

(** Steps without a close of the whole. *)
Definition not_close (x : step) : Prop := match x with SClose => False | _ => True end.

Lemma run_step_ok s x : inv s -> infos s = [] -> not_close x ->
  exists s', run_step s x = Ret s' /\ inv s' /\ infos s' = [].
Proof.
  intros Hi Hm Hx. destruct x as [j|c events acts re|acts re| |i cbs]; cbn [run_step]; [|..|done|].
  - destruct (js_step_ok false s j Hi) as (s' & H & Hi' & Ha & _). exists s'. split; [done|]. split; [done|].
    destruct Ha as [->|(e & err & cbs & _ & ->)]; by rewrite Hm.
  - unfold OnPoll. destruct (contexts s !! c) as [x|]; [|by exists s]. destruct (poll_ x); [by exists s| |by exists s].
    rewrite (inv_alive s Hi). by apply socket_action_ok.
  - unfold OnTimeout. destruct (timer_ s); [|by exists s]. apply socket_action_ok.
    apply (inv_same s); try done; apply Hi.
  - destruct (closing s !! i) as [h|] eqn:Eh; [|by exists s]. apply list_elem_of_lookup_2 in Eh as Hin.
    destruct h as [|c]; [by destruct (inv_timer s Hi)|].
    pose proof (inv_ctx s Hi) as Hc. pose proof Hin as [fd Hfd]%(closing_list _ _ _ _ Hc).
    unfold context_OnClose. cbn. rewrite Hfd. eexists. split; [done|]. split; [|done].
    assert (Hsub : forall h, h ∈ delete i (closing s) -> h ∈ closing s /\ h <> PollHandle c).
    { pose proof (closing_once _ _ _ _ Hc) as Hnd. rewrite (delete_Permutation _ _ _ Eh) in Hnd.
      apply NoDup_cons in Hnd as [Hnot _]. intros h Hh. split; [|by intros ->].
      rewrite (delete_Permutation _ _ _ Eh). by right. }
    split; cbn; try apply Hi; [by intros [? _]%Hsub; apply (inv_timer s Hi)|].
    split.
    + intros fd' c'. rewrite (ptr_watch _ _ _ _ Hc). split; intros [ev H]; exists ev.
      * apply lookup_delete_Some. split; [|done]. intros <-. congruence.
      * by apply lookup_delete_Some in H as [_ ?].
    + intros c' x [_ H]%lookup_delete_Some. by apply (watch_or_close _ _ _ _ Hc c').
    + pose proof (closing_once _ _ _ _ Hc) as Hnd. rewrite (delete_Permutation _ _ _ Eh) in Hnd.
      by apply NoDup_cons in Hnd as [_ ?].
    + intros c'. split.
      * intros [Hin' Hne]%Hsub. apply (closing_list _ _ _ _ Hc) in Hin' as [fd' H]. exists fd'.
        apply lookup_delete_Some. split; [congruence|done].
      * intros [fd' [Hne H]%lookup_delete_Some].
        assert (Hin' : PollHandle c' ∈ closing s) by (apply (closing_list _ _ _ _ Hc); eauto).
        rewrite (delete_Permutation _ _ _ Eh) in Hin'. apply elem_of_cons in Hin' as [[= ->]|?]; done.
    + intros c' [x [_ H]%lookup_delete_Some]. apply (fresh_context _ _ _ _ Hc). eauto.
Qed.

Lemma run_ok xs : forall s, inv s -> infos s = [] -> Forall not_close xs ->
  exists s', run s xs = Ret s' /\ inv s' /\ infos s' = [].
Proof.
  induction xs as [|x xs IH]; intros s Hi Hm Hx; [by exists s|]. apply Forall_cons in Hx as [Hx Hxs].
  destruct (run_step_ok s x Hi Hm Hx) as (s1 & H1 & Hi1 & Hm1). cbn [run]. rewrite H1. cbn. by apply IH.
Qed.

(** * Properties *)

(** After the multi handle was closed, the close callbacks of the poll handles that were
    closing find their contexts. *)
Lemma closed_run ks : forall s,
  NoDup (closing s) -> (forall h, h ∈ closing s -> exists c, h = PollHandle c /\ is_Some (contexts s !! c)) ->
  exists s', run s (map (fun k => SClosed k []) ks) = Ret s'.
Proof.
  induction ks as [|k ks IH]; intros s Hnd Hcl; cbn [map run]; [by eexists|]. cbn [run_step].
  destruct (closing s !! k) as [h|] eqn:Hk; [|by apply IH].
  destruct (Hcl h (list_elem_of_lookup_2 _ _ _ Hk)) as (c & -> & [x Hc]).
  unfold context_OnClose. cbn [contexts]. rewrite Hc. cbn [mbind outcome_bind].
  pose proof (delete_Permutation _ _ _ Hk) as Hp. rewrite Hp in Hnd. apply NoDup_cons in Hnd as [Hni Hnd].
  apply IH; cbn; [done|]. intros h Hh.
  destruct (Hcl h) as (c' & -> & Hc'); [rewrite Hp; by right|]. exists c'. split; [done|].
  rewrite lookup_delete_ne; [done|]. by intros ->.
Qed.

Lemma close_when_idle s ks :
  inv s -> assigned s = ∅ ->
  exists s', run s (SClose :: SClosed 0 [] :: map (fun k => SClosed k []) ks) = Ret s'.
Proof.
  intros Hi Ha. pose proof (inv_ctx s Hi) as Hc. cbn [run run_step]. unfold Close.
  rewrite (inv_alive s Hi), bool_decide_eq_false_2 by apply (inv_timer s Hi). cbn.
  apply closed_run; cbn; [apply (closing_once _ _ _ _ Hc)|]. intros [|c] Hh; [by destruct (inv_timer s Hi)|].
  exists c. split; [done|]. apply (closing_list _ _ _ _ Hc) in Hh as [fd Hfd]. eauto.
Qed.

(** C14 Transfers are safe until the multi object is closed: over every history of
    JavaScript calls other than close, events of libuv and callbacks of libcurl, in any
    nesting, nothing freed is used, no handle is closed twice and no list freed twice.  A
    socket libcurl watches has exactly one poll handle, which libcurl's pointer leads to;
    the handles libcurl holds are the pending ones, and exactly these are kept from the
    collector; no message is left unread.  Closing the multi object after such a history is
    safe when no socket is watched, with the close callbacks still due in any order; when
    a socket is watched it is a use after free ([close_leaves_dangling_contexts]). *)
Theorem curl_transfers_safe xs :
  Forall not_close xs ->
  exists s, run St_init xs = Ret s /\
    (forall fd c, assigned s !! fd = Some c <-> exists ev, contexts s !! c = Some (mkContext fd (PWatch ev))) /\
    (forall e, e ∈ added s <-> exists x, easies s !! e = Some x /\ weak x = false) /\
    added s = pending_handles_ s /\ infos s = [] /\
    (assigned s = ∅ -> forall ks, exists s',
       run s (SClose :: SClosed 0 [] :: map (fun k => SClosed k []) ks) = Ret s').
Proof.
  intros Hx. destruct (run_ok xs St_init inv_init eq_refl Hx) as (s & H & Hi & Hm). exists s.
  split; [done|]. split; [apply (ptr_watch _ _ _ _ (inv_ctx s Hi))|].
  destruct (inv_easy s Hi) as [H1 H2 H3 H4 H5].
  split; [|split_and!; [done|done|intros Ha ks; by apply close_when_idle]]. intros e. rewrite H1. split.
  - intros He. destruct (H2 e He) as [x Hx0]. exists x. split; [done|].
    by rewrite (H3 e x Hx0), bool_decide_eq_true_2.
  - intros (x & Hx0 & Hw). rewrite (H3 e x Hx0) in Hw. by apply negb_false_iff, bool_decide_eq_true_1 in Hw.
Qed.

(** C15 JavaScript is told the end of every transfer once and in order: a call of libcurl
    reads all the messages it has when it returns, and as long as JavaScript does not
    remove a handle whose message is still unread, each of them is one call of [_onDone]. *)
Theorem ends_are_told_once xs s fd flags acts reactions :
  Forall not_close xs -> run St_init xs = Ret s ->
  exists s1 s2, run_acts (emit s (Action fd flags)) acts = Ret s1 /\
    socket_action s fd flags acts reactions = Ret s2 /\ infos s2 = [] /\
    ((forall i ops e m, reactions !! i = Some ops -> e ∈ omap removes ops -> m ∈ drop (S i) (infos s1) -> m.1 <> e) ->
     dones s2 = dones s ++ infos s1).
Proof.
  intros Hx Hrun. destruct (run_ok xs St_init inv_init eq_refl Hx) as (s' & H & Hi & Hm).
  rewrite Hrun in H. injection H as <-.
  destruct (run_acts_ok acts (emit s (Action fd flags)) (inv_emit _ _ Hi)) as (s1 & H1 & Hi1 & Hd1).
  destruct (ProcessMessages_ok (length (infos s1)) s1 reactions Hi1) as (s2 & H2 & Hi2 & Hm2 & told & Ht & Hall); [done|].
  exists s1, s2. split; [done|]. split; [unfold socket_action; by rewrite H1|]. split; [done|].
  intros Hno. rewrite Ht, Hall by done. rewrite Hd1. f_equal. unfold dones. cbn. rewrite omap_app. cbn. apply app_nil_r.
Qed.

(** Closing while a socket is watched: [Close] closes the timer only, and its callback
    deletes the object that the contexts of the sockets still point to; the next event of
    such a socket uses it. *)
Theorem close_leaves_dangling_contexts xs s c fd ev events acts reactions :
  Forall not_close xs -> run St_init xs = Ret s -> contexts s !! c = Some (mkContext fd (PWatch ev)) ->
  run s [SClose; SClosed 0 []; SPoll c events acts reactions] = Fault UseAfterFree.
Proof.
  intros Hx Hrun Hc. destruct (run_ok xs St_init inv_init eq_refl Hx) as (s' & H & Hi & _).
  rewrite Hrun in H. injection H as <-.
  cbn [run run_step]. unfold Close. rewrite (inv_alive s Hi), bool_decide_eq_false_2 by apply (inv_timer s Hi).
  cbn. unfold OnPoll. cbn. by rewrite Hc.
Qed.

(** * A transfer *)

(** A handle is added, its socket is watched, data arrives, the transfer ends and the
    script removes the handle; the context and the handle go away. *)
Definition ex_transfer : list step :=
  [SJs JNew; SJs (JSetList 0 true 2 ListOk); SJs (JAdd 0 None [OnTimer 0]);
   STimeout [ACallback (OnSocket 7 CURL_POLL_OUT); ACallback (OnTimer 1000)] [];
   SPoll 0 UV_WRITABLE [ACallback (OnSocket 7 CURL_POLL_IN)] [];
   SPoll 0 UV_READABLE [ATransfer 0 [JRemove 0 None []]; ACallback (OnSocket 7 CURL_POLL_REMOVE); AInfo 0 0]
     [[JRemove 0 None [OnTimer (-1)]]];
   SClosed 0 []; SJs (JCollect 0)].

Example ex_transfer_run :
  (fun s => (map_to_list (contexts s), map_to_list (easies s), closing s, log s)) <$> run St_init ex_transfer
  = Ret ([], [], [], [Action (-1) 0; Action 7 2; Action 7 1; Callback 0; Threw RECURSIVE; Done 0 0]).
Proof. vm_compute. reflexivity. Qed.

Lemma curl_transfers_safe_witness :
  exists s, run St_init ex_transfer = Ret s /\
    (forall fd c, assigned s !! fd = Some c <-> exists ev, contexts s !! c = Some (mkContext fd (PWatch ev))) /\
    (forall e, e ∈ added s <-> exists x, easies s !! e = Some x /\ weak x = false) /\
    added s = pending_handles_ s /\ infos s = [] /\
    (assigned s = ∅ -> forall ks, exists s',
       run s (SClose :: SClosed 0 [] :: map (fun k => SClosed k []) ks) = Ret s').
Proof. apply (curl_transfers_safe ex_transfer). repeat constructor. Defined.

Lemma ends_are_told_once_witness :
  exists s, run St_init (take 5 ex_transfer) = Ret s /\
  exists s1 s2, run_acts (emit s (Action 7 1)) [AInfo 0 0] = Ret s1 /\
    socket_action s 7 1 [AInfo 0 0] [[JRemove 0 None []]] = Ret s2 /\ infos s2 = [] /\
    ((forall i ops e m, [[JRemove 0 None []]] !! i = Some ops -> e ∈ omap removes ops ->
        m ∈ drop (S i) (infos s1) -> m.1 <> e) -> dones s2 = dones s ++ infos s1).
Proof.
  assert (H : exists s, run St_init (take 5 ex_transfer) = Ret s) by (eexists; vm_compute; reflexivity).
  destruct H as [s Hs]. exists s. split; [exact Hs|].
  apply (ends_are_told_once (take 5 ex_transfer) s 7 1 [AInfo 0 0] [[JRemove 0 None []]]); [repeat constructor|exact Hs].
Defined.

Lemma close_leaves_dangling_contexts_witness :
  exists s, run St_init (take 5 ex_transfer) = Ret s /\
    run s [SClose; SClosed 0 []; SPoll 0 1 [] []] = Fault UseAfterFree.
Proof.
  assert (H : exists s, run St_init (take 5 ex_transfer) = Ret s /\ contexts s !! 0%nat = Some (mkContext 7 (PWatch 1)))
    by (eexists; split; vm_compute; reflexivity).
  destruct H as (s & Hs & Hc). exists s. split; [exact Hs|].
  apply (close_leaves_dangling_contexts (take 5 ex_transfer) s 0 7 1 1 [] []); [repeat constructor|exact Hs|exact Hc].
Defined.
